(* ===== verification/_CoqProject ===== *)
-Q . S2P
Prelude.v
Settings.v
Queue.v
Links.v
Lru.v
LinkedList.v
MaxHeap.v
BadBlock.v
Lower.v
PosixMemory.v
RedBlack.v
BlockManager.v
RedBlackMap.v
HostQueue.v
BlockInventory.v
PageFtl.v
Sha256.v
Bloom.v
Partition.v
DemandUtil.v
DemandCache.v
Skiplist.v
DemandFlush.v
DemandPage.v
DemandRw.v
DemandStore.v
DemandMap.v
LsmTable.v
LsmPipe.v
LsmLevel.v
LsmTree.v
