(* ===== verification/Prelude.v ===== *)
(** * FlashDriver: a verification development

    FlashDriver is a flash translation platform in user space. A request enters at
    the host interface (interface/), a flash translation layer (algorithm/) maps
    its logical address or key to a physical page, the block manager
    (blockmanager/) hands out and reclaims pages, and a device driver (lower/)
    stores them. The layers call each other through tables of functions
    (include/container.h); here such a table is a type class with its laws, so that
    a layer's theorems are proved against the laws and hold over every
    implementation of them.

    ** Parts and files

    - This file: outcomes of C code ([res]: a value, [abort()], undefined behaviour
      or an exhausted loop bound), machine integers ([u8] to [u64], [s32], [s8]),
      C arrays with their bounds ([carray]), byte buffers, and shared lemmas and
      tactics.
    - [Settings]: the geometry and the keys of include/settings.h.
    - [Queue] (interface/queue.c), [Links], [Lru] (include/data_struct/lru_list.c)
      and [LinkedList] (list.c): linked structures on an explicit memory, where
      [free] makes a location unusable. [Queue] provides the class [FIFO].
    - [RedBlack] (include/data_struct/redblack.c): the red-black tree on an explicit
      memory, with parent pointers and a sentinel. [RedBlackMap]: the tree as a map, the
      implementation of the class [IntMap] that [BlockManager] uses, and the page keys
      of the emulator build.
    - [HostQueue] (interface/interface.c, include/utils/cond_lock.c): the queues between the
      clients, the main thread and the translation layer, as threads that are interleaved
      at every lock, with the tree of the writes that wait.
    - [MaxHeap] (include/data_struct/heap.c): the array heap with its callbacks.
    - [Sha256] (include/utils/sha256.c), with FIPS 180-4 as its specification.
    - [BadBlock] (blockmanager/bb_checker.c): replacement of bad segments and the
      address translation of SLC mode.
    - [Lower]: what the layers use of a device ([Lower], [LowerOk]), and
      [inf_get_valueset]. [PosixMemory] (lower/posix_memory/posix.c) implements it.
    - [BlockManager] (blockmanager/base_block_manager.c), one definition per function
      of its table, and [BlockInventory], its invariant over every sequence of
      calls. [Partition] (blockmanager/partition/pt_block_manager.c) is the manager
      with separate ranges of segments for data and translation pages.
    - [PageFtl] (algorithm/Page_ftl): mapping, requests and garbage collection of
      the page-mapping layer, over [BlockManager] and [Lower].
    - [DemandUtil], [DemandCache], [DemandFlush] (algorithm/demand): key hashing and
      probing, spare area, grains; the coarse-grained and the fine-grained mapping
      cache, over the class [Pages]; the packing of the write buffer into pages,
      over [DataPages] and [Lower].
    - [DemandPage] (page.c, dvalue_gc.c): allocation and collection of translation and
      data pages over [Partition] and a device, the implementation of [Pages] and
      [DataPages]. [DemandRw] (rw.c): creation, reads, writes, the flush with its
      mapping update and the completion of requests. [DemandStore] and [DemandMap]: the
      proof that reads of the hash-based layer find the last value of their key, and
      what they return of it.
    - [Skiplist], [Bloom] (algorithm/Lsmtree): the memtable, which is also the write
      buffer of the demand-paged layer, and the filter of a level.
    - [LsmTable] (level_target/array): the pages that describe the runs of the
      LSM-tree, byte by byte. [LsmPipe] (pipe.c, pipe_merger.c): merging of two sequences
      of such pages, over the class [Family] of key lengths. [LsmLevel] (array.c,
      array_level.c): levels as arrays of runs and their searches, over the class
      [Store] of places where tables are kept. [LsmTree] (compaction*.c,
      pipeline_compaction2.c, lops_default.c, lsmtree.c): flushes, compactions and
      lookups over all levels.

    State is passed explicitly. A struct is a record, an array a [carray] whose
    accesses outside its length are [Undefined], a pointer into an array an index,
    a pointer to an allocated object a [loc]. A definition has the name of the C
    function it translates; loops are separate fixpoints next to it.

    ** What the theorems show

    - Refinements: the demand-paged store, over its cache, page allocation, partitioned
      block manager and device, finds for every read the last value of the key, and
      returns it at the front of the buffer or within a whole page, at an offset that
      is dropped; with values of whole pages it answers as a finite map. The LSM-tree,
      with keys of one length from 11 to 254 bytes and memtables of at least two
      entries, answers as a finite map through the flushes, the cascading
      compactions and [compaction_force], while the last level has room;
      the page-mapping layer answers as an array of pages, the skip
      list as a sorted list, the coarse cache as the mapping table under an LRU list,
      the queue and the LRU list as lists, the red-black tree as a sorted list of
      logarithmic height, the page bitmaps as a set.
    - Well-formedness: the levels of the LSM-tree stay in order and within their sizes, of
      which only that of the last level changes (under the same conditions).
    - The invariant of the block manager: each erase block is in exactly one of
      the free queues, heaps, the reserve and the victims; from it, that the
      collection test protects [base_get_segment], that trimming erases exactly the
      victims, and that the victims are the most invalid blocks.
    - Functional theorems: a merge of runs with keys of 11 to 254 bytes keeps the newest
      version of every key and invalidates exactly the others, if the result array has room; the searches of a level and of a table find
      what is there; a segment hands out each page once, and so does the page
      allocation of the demand-paged layer; a flush stores every
      entry of the write buffer at grains of its own, of which it marks the first one as valid; the heap sorts; partitions
      split the device; the map victim is the most invalid segment; the memory
      device writes pages once; the digest is that of the standard whatever the
      pieces; the filter has no false negatives; bad segments are replaced by
      different good ones.
    - Round trips of page addresses, spare areas, grains, replaced segments and tables.
    - The host interface under every interleaving: each request is with one owner or
      ended, no queue overflows, no wake-up is lost.
    - Liveness and termination: waiters of a translation page are all woken; the
      destruction of a tree ends and releases every node that its flag lets it release.
    - Bounds and errors: where the code leaves its arrays, loses a maximum, frees
      twice or does not end, with the exact condition; where a compaction hides the
      entries of a level or brings back an old version of a key; where a write that
      was accepted never reaches the translation layer.

    ** Bounds and fuel

    Loops whose recursion is not structural take fuel and return [Err OutOfFuel]
    when it is used up; no theorem about a result assumes a run to have ended,
    except those that show divergence. Each caller gives a bound that its theorem
    shows to be enough: the size of the list or memory for walks over linked nodes and
    for every loop of the red-black tree,
    the number of nodes for sifting in a heap, the length of the input for the
    update loop of the hash, one more than the number of entries for the flush and
    one more than the grains of a page for filling one page, two attempts for the
    retry of [page_map_assign], a number of turns linear in the probes of a key and the
    entries of the buffer for the mapping update of the demand-paged layer and its
    reads, 510 entries for each page of a merge, one more than the number of runs or
    entries for a binary search, and one more than the number of levels for a cascade
    of compactions and for a lookup. The geometry is that of the SLC build with
    [GIGAUNIT] as a parameter ([SettingsOk] gives its range).

    ** Not modelled

    Threads and locks outside [HostQueue]: a mutex-protected operation is one step, and a
    request to a device is complete when the call returns, as in the memory driver built
    with [LASYNC] 0. Printing, statistics that are only printed, and destructors that only
    release memory. The other drivers, the network and block-device front ends and
    the benchmarks are I/O.
    Random numbers and floating-point formulas are parameters. The older
    translation layers (dftl, hash_dftl, ctoc, ...) are variants of the demand FTL.

    Of the demand FTL: the collection of data pages with fixed-size values, the range
    queries and the builds without hashing. Of the LSM-tree: the page manager (the
    addresses of header pages are a sequence without repetition, a parameter of
    [LsmTree]), the cache of runs (no run is cached), merging in hardware and the
    merger over skip lists, range queries, the tables that requests in flight wait
    for, and changes of the size factor, whose value is a whole number here. Of the
    skip list: splitting, merging and copying.
*)
From stdpp Require Export base tactics numbers list gmap fin_maps strings.
From Stdlib Require Export ZArith Lia.

#[global] Arguments Z.to_nat : simpl never.

(** ** Outcomes of C code *)

(** How a run of the C code can stop without returning: [abort()], undefined
    behaviour (a NULL or freed pointer, an index outside its array), or a loop
    that did not finish within the fuel it was given. *)
Inductive fault := Aborted | Undefined | OutOfFuel.

#[export] Instance fault_eq_dec : EqDecision fault.
Proof. solve_decision. Defined.

(** The result of a C function: a value, or the way the run stopped. *)
Inductive res (A : Type) : Type :=
| Ok (a : A)
| Err (f : fault).
Arguments Ok {A} _.
Arguments Err {A} _.

#[export] Instance res_eq_dec {A} `{EqDecision A} : EqDecision (res A).
Proof. solve_decision. Defined.

#[export] Instance res_ret : MRet res := @Ok.
#[export] Instance res_bind : MBind res := λ A B f m,
  match m with Ok a => f a | Err e => Err e end.
#[export] Instance res_fmap : FMap res := λ A B f m,
  match m with Ok a => Ok (f a) | Err e => Err e end.

(** [if(c) abort();] before the rest of a function. *)
Definition abort_if {A} (c : bool) (k : res A) : res A := if c then Err Aborted else k.

(** A dereference: a missing object is undefined behaviour. *)
Definition deref {A} (o : option A) : res A :=
  match o with Some a => Ok a | None => Err Undefined end.

(** ** Machine integers *)

Declare Scope c_scope.
Delimit Scope c_scope with C.

Definition u8 (z : Z) : Z := z `mod` 2 ^ 8.
Definition u16 (z : Z) : Z := z `mod` 2 ^ 16.
Definition u32 (z : Z) : Z := z `mod` 2 ^ 32.
Definition u64 (z : Z) : Z := z `mod` 2 ^ 64.
(** The value of a 32-bit pattern read as a signed [int]. *)
Definition s32 (z : Z) : Z := (z + 2 ^ 31) `mod` 2 ^ 32 - 2 ^ 31.
(** The value of an 8-bit pattern read as a signed [char]. *)
Definition s8 (z : Z) : Z := (z + 2 ^ 7) `mod` 2 ^ 8 - 2 ^ 7.

Definition UINT_MAX : Z := 2 ^ 32 - 1.
Definition UINT32_MAX : Z := 2 ^ 32 - 1.
Definition UINT8_MAX : Z := 2 ^ 8 - 1.

Notation "x '+u' y" := (u32 (x + y)) (at level 50, left associativity) : c_scope.
Notation "x '-u' y" := (u32 (x - y)) (at level 50, left associativity) : c_scope.
Notation "x '*u' y" := (u32 (x * y)) (at level 40, left associativity) : c_scope.
Notation "x '<<u' n" := (u32 (Z.shiftl x n)) (at level 35, n at level 34) : c_scope.
Notation "x '>>u' n" := (Z.shiftr x n) (at level 35, n at level 34) : c_scope.

(** ** C arrays *)

(** An array of [ca_len] cells which all start as [ca_fill] ([calloc], or the
    loop that initialises a [malloc]); [ca_map] holds the cells written since. *)
Record carray (A : Type) := CArr { ca_len : Z; ca_fill : A; ca_map : gmap Z A }.
Arguments CArr {A} _ _ _.
Arguments ca_len {A} _.
Arguments ca_fill {A} _.
Arguments ca_map {A} _.

Definition ca_new {A} (n : Z) (x : A) : carray A := CArr n x ∅.
Definition ca_at {A} (a : carray A) (i : Z) : A := default (ca_fill a) (ca_map a !! i).
Definition ca_upd {A} (a : carray A) (i : Z) (x : A) : carray A :=
  CArr (ca_len a) (ca_fill a) (<[i:=x]> (ca_map a)).
Definition ca_in {A} (a : carray A) (i : Z) : bool := (0 <=? i)%Z && (i <? ca_len a)%Z.

(** [a[i]], and [a[i]=x]: out of range is undefined behaviour. *)
Definition ca_get {A} (a : carray A) (i : Z) : res A :=
  if ca_in a i then Ok (ca_at a i) else Err Undefined.
Definition ca_set {A} (a : carray A) (i : Z) (x : A) : res (carray A) :=
  if ca_in a i then Ok (ca_upd a i x) else Err Undefined.

(** ** Bytes *)

(** The four bytes of a [uint32_t] in memory (little endian), and the
    [uint32_t] read back from a buffer. *)
Definition le32_bytes (z : Z) : list Z :=
  [u8 z; u8 (Z.shiftr z 8); u8 (Z.shiftr z 16); u8 (Z.shiftr z 24)].
Definition le32_read (l : list Z) : res Z :=
  match l with
  | b0 :: b1 :: b2 :: b3 :: _ => Ok (b0 + 2 ^ 8 * b1 + 2 ^ 16 * b2 + 2 ^ 24 * b3)%Z
  | _ => Err Undefined
  end.

(** [memcpy(dst,src,len)] on buffers: reading or writing past the end of a
    buffer is undefined behaviour. *)
Definition memcpy (dst src : list Z) (len : nat) : res (list Z) :=
  if (len <=? length dst)%nat && (len <=? length src)%nat
  then Ok (take len src ++ drop len dst) else Err Undefined.

#[global] Arguments memcpy : simpl never.

(** ** Lemmas on outcomes *)

Lemma res_bind_Ok {A B} (m : res A) (k : A → res B) b :
  m ≫= k = Ok b ↔ ∃ a, m = Ok a ∧ k a = Ok b.
Proof. destruct m; naive_solver. Qed.

Lemma abort_if_Ok {A} c (k : res A) a : abort_if c k = Ok a ↔ c = false ∧ k = Ok a.
Proof. destruct c; naive_solver. Qed.

Lemma deref_Ok {A} (o : option A) a : deref o = Ok a ↔ o = Some a.
Proof. destruct o; naive_solver. Qed.

(** Step past a computation that has been rewritten to its result. *)
Ltac rbind := cbn [mbind res_bind].

(** Run a computation symbolically: expose every bind of a hypothesis
    [m = Ok _] as equations on its steps. *)
Ltac res_inv :=
  repeat match goal with
  | H : _ ≫= _ = Ok _ |- _ => apply res_bind_Ok in H as (? & ? & ?)
  | H : abort_if _ _ = Ok _ |- _ => apply abort_if_Ok in H as [? ?]
  | H : deref _ = Ok _ |- _ => apply deref_Ok in H
  | H : Ok _ = Ok _ |- _ => injection H as H
  | H : Err _ = Ok _ |- _ => discriminate H
  | H : mret _ = Ok _ |- _ => injection H as H
  | x : _ * _ |- _ => destruct x
  end; simplify_eq/=.

(** Turn boolean tests of the code into arithmetic facts. *)
Ltac zbool :=
  repeat match goal with
  | H : (_ <? _)%Z = true |- _ => apply Z.ltb_lt in H
  | H : (_ <? _)%Z = false |- _ => apply Z.ltb_ge in H
  | H : (_ <=? _)%Z = true |- _ => apply Z.leb_le in H
  | H : (_ <=? _)%Z = false |- _ => apply Z.leb_gt in H
  | H : (_ =? _)%Z = true |- _ => apply Z.eqb_eq in H
  | H : (_ =? _)%Z = false |- _ => apply Z.eqb_neq in H
  | H : (_ >? _)%Z = _ |- _ => rewrite Z.gtb_ltb in H
  | H : (_ >=? _)%Z = _ |- _ => rewrite Z.geb_leb in H
  | H : _ && _ = true |- _ => apply andb_true_iff in H as [? ?]
  | H : _ || _ = false |- _ => apply orb_false_iff in H as [? ?]
  | H : negb _ = true |- _ => apply negb_true_iff in H
  | H : negb _ = false |- _ => apply negb_false_iff in H
  end.

(** ** Lemmas on arrays *)

Lemma ca_in_true {A} (a : carray A) i : ca_in a i = true ↔ (0 ≤ i < ca_len a)%Z.
Proof. unfold ca_in. rewrite andb_true_iff, Z.leb_le, Z.ltb_lt. done. Qed.

Lemma ca_get_Ok {A} (a : carray A) i x :
  ca_get a i = Ok x ↔ (0 ≤ i < ca_len a)%Z ∧ x = ca_at a i.
Proof.
  unfold ca_get. pose proof (ca_in_true a i). destruct (ca_in a i); naive_solver.
Qed.

Lemma ca_set_Ok {A} (a b : carray A) i x :
  ca_set a i x = Ok b ↔ (0 ≤ i < ca_len a)%Z ∧ b = ca_upd a i x.
Proof.
  unfold ca_set. pose proof (ca_in_true a i). destruct (ca_in a i); naive_solver.
Qed.

Lemma ca_get_in {A} (a : carray A) i : (0 ≤ i < ca_len a)%Z → ca_get a i = Ok (ca_at a i).
Proof. intros. by apply ca_get_Ok. Qed.

Lemma ca_set_in {A} (a : carray A) i x :
  (0 ≤ i < ca_len a)%Z → ca_set a i x = Ok (ca_upd a i x).
Proof. intros. by apply ca_set_Ok. Qed.

Lemma ca_at_new {A} n (x : A) i : ca_at (ca_new n x) i = x.
Proof. reflexivity. Qed.

Lemma ca_at_upd {A} (a : carray A) i j x :
  ca_at (ca_upd a i x) j = if decide (i = j) then x else ca_at a j.
Proof.
  unfold ca_at, ca_upd; simpl. rewrite lookup_insert. by case_decide.
Qed.

Lemma ca_at_upd_eq {A} (a : carray A) i x : ca_at (ca_upd a i x) i = x.
Proof. rewrite ca_at_upd. by case_decide. Qed.

Lemma ca_at_upd_ne {A} (a : carray A) i j x : i ≠ j → ca_at (ca_upd a i x) j = ca_at a j.
Proof. intros. rewrite ca_at_upd. by case_decide. Qed.

Lemma ca_len_upd {A} (a : carray A) i x : ca_len (ca_upd a i x) = ca_len a.
Proof. reflexivity. Qed.

(** ** Lemmas on machine integers *)

Lemma u8_id z : (0 ≤ z < 256)%Z → u8 z = z.
Proof. intros. unfold u8. apply Z.mod_small. lia. Qed.
Lemma u16_id z : (0 ≤ z < 65536)%Z → u16 z = z.
Proof. intros. unfold u16. apply Z.mod_small. lia. Qed.
Lemma u32_id z : (0 ≤ z < 4294967296)%Z → u32 z = z.
Proof. intros. unfold u32. apply Z.mod_small. lia. Qed.
Lemma u64_id z : (0 ≤ z < 18446744073709551616)%Z → u64 z = z.
Proof. intros. unfold u64. apply Z.mod_small. lia. Qed.
Lemma s32_id z : (-2147483648 ≤ z < 2147483648)%Z → s32 z = z.
Proof.
  intros. unfold s32. change (2 ^ 31)%Z with 2147483648%Z.
  change (2 ^ 32)%Z with 4294967296%Z. rewrite Z.mod_small; lia.
Qed.
Lemma u8_range z : (0 ≤ u8 z < 256)%Z.
Proof. unfold u8. apply Z.mod_pos_bound. lia. Qed.
Lemma u32_range z : (0 ≤ u32 z < 4294967296)%Z.
Proof. unfold u32. apply Z.mod_pos_bound. lia. Qed.

Lemma shiftr_div z n : (0 ≤ n)%Z → Z.shiftr z n = (z `div` 2 ^ n)%Z.
Proof. apply Z.shiftr_div_pow2. Qed.
Lemma shiftl_mul z n : (0 ≤ n)%Z → Z.shiftl z n = (z * 2 ^ n)%Z.
Proof. apply Z.shiftl_mul_pow2. Qed.
Lemma land_mask z n : (0 ≤ n)%Z → Z.land z (Z.ones n) = (z `mod` 2 ^ n)%Z.
Proof. apply Z.land_ones. Qed.

Lemma le32_bytes_length z : length (le32_bytes z) = 4.
Proof. reflexivity. Qed.

(** A [uint32_t] written byte by byte is read back. *)
Lemma le32_read_bytes z rest :
  (0 ≤ z < 4294967296)%Z → le32_read (le32_bytes z ++ rest) = Ok z.
Proof.
  intros Hz. unfold le32_read, le32_bytes; simpl. f_equal.
  unfold u8. rewrite !shiftr_div by lia.
  change (2 ^ 8)%Z with 256%Z. change (2 ^ 16)%Z with 65536%Z. change (2 ^ 24)%Z with 16777216%Z.
  Z.to_euclidean_division_equations. lia.
Qed.

Lemma memcpy_length dst src n d : memcpy dst src n = Ok d → length d = length dst.
Proof.
  unfold memcpy. destruct (_ && _) eqn:E; intros [= <-].
  apply andb_true_iff in E as [E1%Nat.leb_le E2%Nat.leb_le].
  rewrite length_app, length_take, length_drop. lia.
Qed.

Lemma memcpy_all dst src :
  length src ≤ length dst → memcpy dst src (length src) = Ok (src ++ drop (length src) dst).
Proof.
  intros. unfold memcpy. rewrite (proj2 (Nat.leb_le _ _)) by done.
  rewrite Nat.leb_refl; simpl. by rewrite take_ge by done.
Qed.

(** ** Lemmas on lists *)

Lemma filter_all {A} (Pr : A → Prop) `{∀ x, Decision (Pr x)} l : Forall Pr l → filter Pr l = l.
Proof. induction 1 as [|x l Hx _ IH]; [done|]. by rewrite filter_cons_True, IH. Qed.

Lemma filter_none {A} (Pr : A → Prop) `{∀ x, Decision (Pr x)} l : Forall (λ x, ¬ Pr x) l → filter Pr l = [].
Proof. induction 1 as [|x l Hx _ IH]; [done|]. by rewrite filter_cons_False, IH. Qed.

(** ** Automation *)

Create HintDb flash.
Create Rewrite HintDb flash.
#[export] Hint Rewrite @ca_at_upd_eq @ca_at_new @ca_len_upd : flash.
#[export] Hint Resolve u8_range u32_range ca_get_in ca_set_in : flash.

(** Simplify array reads after writes, and the arithmetic left over. *)
Ltac arr :=
  repeat first
    [ progress autorewrite with flash in *
    | rewrite ca_at_upd_ne in * by (done || lia) ].
