(* ===== verification/Settings.v ===== *)
(** * Device geometry and keys (include/settings.h)

    The SLC geometry of [settings.h] and the order on variable-length keys
    ([str_key], [KEYCMP], [KEYTEST], [KEYVALCHECK]) that every key-value module
    uses. [GIGAUNIT], the device size in gigabytes, is the one setting the
    README tells a user to change: it is a field of the class [Settings]. *)
From S2P Require Export Prelude.

Local Open Scope Z_scope.

(** ** Geometry *)

Class Settings := { GIGAUNIT : Z }.

Definition K : Z := 1024.
Definition M : Z := 1024 * K.
Definition G : Z := 1024 * M.
Definition PIECE : Z := 512.
Definition PAGESIZE : Z := 8 * K.
Definition NPCINPAGE : Z := PAGESIZE / PIECE.
Definition _PPB : Z := 256.
Definition BPS : Z := 64.
Definition _PPS : Z := _PPB * BPS.
Definition PUNIT : Z := 64.
Definition REALSIZE : Z := 512 * G.
Definition _RNOS : Z := REALSIZE / (_PPS * PAGESIZE).

Section geometry.
Context `{S : Settings}.
Definition TOTALSIZE : Z := GIGAUNIT * G.
Definition _NOP : Z := TOTALSIZE / PAGESIZE.
Definition _NOS : Z := TOTALSIZE / (_PPS * PAGESIZE).
Definition _NOB : Z := BPS * _NOS.
Definition MAPPART_SEGS : Z := _NOS / 10.
Definition DATAPART_SEGS : Z := _NOS - MAPPART_SEGS.
End geometry.

(** The partitions of the partitioned block manager. *)
Definition MAP_S : Z := 0.
Definition DATA_S : Z := 1.

(** The setting of the repository, and the smallest device. *)
Definition settings_64 : Settings := {| GIGAUNIT := 64 |}.
Definition settings_1 : Settings := {| GIGAUNIT := 1 |}.

(** Device sizes whose page addresses stay below 2^31: the addresses fit the
    [int] that [base_get_page_num] returns. *)
Class SettingsOk (S : Settings) : Prop :=
  { GIGAUNIT_range : 1 <= GIGAUNIT <= 512 }.

(** ** Keys *)

Record str_key := Key { len : Z; key : list Z }.

#[export] Instance str_key_eq_dec : EqDecision str_key.
Proof. solve_decision. Defined.
#[export] Instance str_key_countable : Countable str_key.
Proof. refine (inj_countable' (λ k, (len k, key k)) (λ x, Key x.1 x.2) _). by intros []. Defined.

(** A key as the code builds it: [len] is a [uint8_t] and [key] points to [len]
    bytes. *)
Definition key_wf (k : str_key) : Prop :=
  len k = Z.of_nat (length (key k)) ∧ len k < 256 ∧ Forall (λ b, 0 <= b < 256) (key k).

(** [memcmp] compares [n] bytes as unsigned characters; only the sign of the
    result is specified, here -1, 0 or 1. *)
Fixpoint memcmp (a b : list Z) (n : nat) : Z :=
  match n, a, b with
  | S n', x :: a', y :: b' => if x <? y then -1 else if y <? x then 1 else memcmp a' b' n'
  | _, _, _ => 0
  end.

Definition KEYCMP (a b : str_key) : Z :=
  if (len a =? 0) && (len b =? 0) then 0
  else if len a =? 0 then -1
  else if len b =? 0 then 1
  else
    let r := memcmp (key a) (key b) (Z.to_nat (if len a >? len b then len b else len a)) in
    if negb (r =? 0) || (len a =? len b) then r
    else if len a <? len b then -1 else 1.

(** [KEYCONSTCOMP] compares a key with a C string, here the bytes before its
    terminating zero. *)
Definition KEYCONSTCOMP (a : str_key) (s : list Z) : Z :=
  let slen := Z.of_nat (length s) in
  if (len a =? 0) && (slen =? 0) then 0
  else if len a =? 0 then -1
  else if slen =? 0 then 1
  else
    let r := memcmp (key a) s (Z.to_nat (if len a >? slen then slen else len a)) in
    if negb (r =? 0) || (len a =? slen) then r
    else if len a <? slen then -1 else 1.

Definition KEYTEST (a b : str_key) : bool :=
  if negb (len a =? len b) then false
  else
    let alen := len a in let blen := len b in
    memcmp (key a) (key b) (Z.to_nat (if alen >? blen then blen else alen)) =? 0.

Definition KEYVALCHECK (a : str_key) : res bool :=
  if len a <=? 0 then Ok false
  else
    c ← deref (key a !! 0%nat);
    if s8 c <? 0 then Ok false else Ok true.

(** The order the keys are meant to have: lexicographic on bytes, a proper
    prefix first. *)
Fixpoint lex (a b : list Z) : Z :=
  match a, b with
  | [], [] => 0
  | [], _ :: _ => -1
  | _ :: _, [] => 1
  | x :: a', y :: b' => if x <? y then -1 else if y <? x then 1 else lex a' b'
  end.

(** ** Lemmas *)

Lemma NOS_eq `{Settings} : _NOS = 8 * GIGAUNIT.
Proof.
  unfold _NOS, TOTALSIZE, _PPS, _PPB, BPS, PAGESIZE, G, M, K.
  replace (GIGAUNIT * (1024 * (1024 * 1024))) with ((8 * GIGAUNIT) * (256 * 64 * (8 * 1024))) by lia.
  apply Z.div_mul. lia.
Qed.

Lemma NOP_eq `{Settings} : _NOP = 131072 * GIGAUNIT.
Proof.
  unfold _NOP, TOTALSIZE, PAGESIZE, G, M, K.
  replace (GIGAUNIT * (1024 * (1024 * 1024))) with ((131072 * GIGAUNIT) * (8 * 1024)) by lia.
  apply Z.div_mul. lia.
Qed.

Lemma NOP_NOS `{Settings} : _NOP = _NOS * _PPS.
Proof. rewrite NOP_eq, NOS_eq. unfold _PPS, _PPB, BPS. lia. Qed.

Lemma NOS_range `{S : Settings} `{!SettingsOk S} : 8 <= _NOS <= 4096.
Proof. rewrite NOS_eq. pose proof GIGAUNIT_range. lia. Qed.

Lemma NOP_range `{S : Settings} `{!SettingsOk S} : 131072 <= _NOP <= 67108864.
Proof. rewrite NOP_eq. pose proof GIGAUNIT_range. lia. Qed.

Lemma RNOS_eq : _RNOS = 4096.
Proof. reflexivity. Qed.

#[export] Instance settings_64_ok : SettingsOk settings_64.
Proof. constructor; simpl; lia. Qed.
#[export] Instance settings_1_ok : SettingsOk settings_1.
Proof. constructor; simpl; lia. Qed.

Lemma memcmp_lex a b n :
  (length a <= n)%nat → (length b <= n)%nat → length a = length b → memcmp a b n = lex a b.
Proof.
  revert a b; induction n as [|n IH]; intros [|x a] [|y b]; simpl; try lia; try done.
  intros. rewrite IH by lia. done.
Qed.

(** Comparing the common prefix decides, unless one key is a prefix of the other. *)
Lemma lex_min a b :
  lex a b = (let r := memcmp a b (Nat.min (length a) (length b)) in
             if negb (r =? 0) || (length a =? length b)%nat then r
             else if (length a <? length b)%nat then -1 else 1).
Proof.
  revert b; induction a as [|x a IH]; intros [|y b]; simpl; try done.
  destruct (x <? y); [done|]. destruct (y <? x); [done|]. apply IH.
Qed.

Lemma lex_refl a : lex a a = 0.
Proof. induction a as [|x a IH]; simpl; [done|]. by rewrite Z.ltb_irrefl. Qed.

Lemma lex_eq a b : lex a b = 0 ↔ a = b.
Proof.
  split; [|intros ->; apply lex_refl].
  revert b; induction a as [|x a IH]; intros [|y b]; simpl; try done.
  destruct (Z.ltb_spec x y); [done|]. destruct (Z.ltb_spec y x); [done|].
  intros ->%IH. f_equal; lia.
Qed.

Lemma lex_antisym a b : lex b a = - lex a b.
Proof.
  revert b; induction a as [|x a IH]; intros [|y b]; simpl; try done.
  destruct (Z.ltb_spec x y), (Z.ltb_spec y x); try lia. apply IH.
Qed.

Lemma lex_trans a b c : lex a b < 0 → lex b c < 0 → lex a c < 0.
Proof.
  revert b c; induction a as [|x a IH]; intros [|y b] [|z c]; simpl; try done.
  destruct (Z.ltb_spec x y), (Z.ltb_spec y x), (Z.ltb_spec y z), (Z.ltb_spec z y),
    (Z.ltb_spec x z), (Z.ltb_spec z x); try lia. apply IH.
Qed.

Lemma lex_range a b : lex a b = -1 ∨ lex a b = 0 ∨ lex a b = 1.
Proof.
  revert b; induction a as [|x a IH]; intros [|y b]; simpl; auto.
  destruct (x <? y); [auto|]. destruct (y <? x); auto.
Qed.

Lemma key_wf_inj a b : key_wf a → key_wf b → key a = key b → a = b.
Proof. destruct a, b; unfold key_wf; simpl. intros (-> & _) (-> & _) ->. done. Qed.

Lemma KEYCMP_lex a b : key_wf a → key_wf b → KEYCMP a b = lex (key a) (key b).
Proof.
  destruct a as [la ka], b as [lb kb]; unfold key_wf, KEYCMP; cbn [len key].
  intros (-> & _) (-> & _).
  destruct ka as [|x ka], kb as [|y kb]; try done.
  set (a := x :: ka). set (b := y :: kb). rewrite (lex_min a b).
  assert (Ha : (1 <= length a)%nat) by (simpl; lia).
  assert (Hb : (1 <= length b)%nat) by (simpl; lia).
  clearbody a b.
  replace (Z.of_nat (length a) =? 0) with false by lia.
  replace (Z.of_nat (length b) =? 0) with false by lia. cbn [andb].
  replace (Z.to_nat (if Z.of_nat (length a) >? Z.of_nat (length b)
                     then Z.of_nat (length b) else Z.of_nat (length a)))
    with (Nat.min (length a) (length b))
    by (destruct (Z.of_nat (length a) >? Z.of_nat (length b)) eqn:?; lia).
  replace (Z.of_nat (length a) =? Z.of_nat (length b)) with (length a =? length b)%nat
    by (destruct (Nat.eqb_spec (length a) (length b)); lia).
  replace (Z.of_nat (length a) <? Z.of_nat (length b)) with (length a <? length b)%nat
    by (destruct (Nat.ltb_spec (length a) (length b)); lia).
  done.
Qed.

Lemma KEYTEST_eq a b : key_wf a → key_wf b → KEYTEST a b = true ↔ a = b.
Proof.
  intros Ha Hb. pose proof Ha as (Hla & _). pose proof Hb as (Hlb & _).
  unfold KEYTEST. destruct (Z.eqb_spec (len a) (len b)) as [He|He]; simpl.
  - replace (Z.to_nat (if len a >? len b then len b else len a)) with (length (key a))
      by (destruct (len a >? len b) eqn:?; lia).
    rewrite memcmp_lex by lia. rewrite Z.eqb_eq, lex_eq.
    split; [by apply key_wf_inj | by intros ->].
  - split; [done | congruence].
Qed.

(** ** The order on keys *)

(** The keys the code handles, ordered by [KEYCMP]: a strict total order whose
    equality is the equality of keys and which [KEYTEST] decides. *)
Class KeyOrder (cmp : str_key → str_key → Z) (test : str_key → str_key → bool) : Prop := {
  cmp_eq a b : key_wf a → key_wf b → cmp a b = 0 ↔ a = b;
  cmp_antisym a b : key_wf a → key_wf b → cmp b a = - cmp a b;
  cmp_trans a b c : key_wf a → key_wf b → key_wf c → cmp a b < 0 → cmp b c < 0 → cmp a c < 0;
  test_eq a b : key_wf a → key_wf b → test a b = true ↔ a = b;
}.

#[export] Instance KEYCMP_order : KeyOrder KEYCMP KEYTEST.
Proof.
  split.
  - intros a b Ha Hb. rewrite KEYCMP_lex, lex_eq by done.
    split; [by apply key_wf_inj | by intros ->].
  - intros a b Ha Hb. rewrite !KEYCMP_lex by done. apply lex_antisym.
  - intros a b c Ha Hb Hc. rewrite !KEYCMP_lex by done. apply lex_trans.
  - apply KEYTEST_eq.
Qed.

(** ** Property *)

(** C32: [KEYCMP] and [KEYTEST] order keys as the store needs. On keys whose
    length field agrees with their bytes, [KEYCMP] is the lexicographic order of
    unsigned bytes with a proper prefix first; it is a strict total order whose
    equality is the equality of keys, and [KEYTEST] decides that equality. *)
Theorem keys_are_totally_ordered (a b c : str_key) :
  key_wf a → key_wf b → key_wf c →
  KEYCMP a b = lex (key a) (key b) ∧
  (KEYCMP a b = 0 ↔ a = b) ∧ (KEYTEST a b = true ↔ a = b) ∧
  KEYCMP b a = - KEYCMP a b ∧ (KEYCMP a b < 0 → KEYCMP b c < 0 → KEYCMP a c < 0).
Proof.
  intros Ha Hb Hc. split_and!; [by apply KEYCMP_lex|by apply cmp_eq|by apply test_eq|
    by apply cmp_antisym|by apply cmp_trans].
Qed.

Lemma keys_are_totally_ordered_witness :
  let a := Key 2 [1; 2] in let b := Key 3 [1; 2; 0] in let c := Key 1 [200] in
  KEYCMP a b = lex (key a) (key b) ∧
  (KEYCMP a b = 0 ↔ a = b) ∧ (KEYTEST a b = true ↔ a = b) ∧
  KEYCMP b a = - KEYCMP a b ∧ (KEYCMP a b < 0 → KEYCMP b c < 0 → KEYCMP a c < 0).
Proof.
  intros a b c. apply keys_are_totally_ordered; (split_and!; [done|simpl; lia|repeat constructor; lia]).
Defined.
