(* ===== verification/Queue.v ===== *)
(** * The bounded queue (interface/queue.c)

    The singly linked FIFO every layer hands requests and blocks through. Nodes
    live in a memory of their own ([q_mem]); [malloc] takes an unused location
    and [free] removes one, so a use after free is [Undefined]. The mutex
    serialises the operations and is not modelled. [None] stands for the [NULL]
    that [q_dequeue] and [q_pick] return on an empty queue: the stored pointers
    are assumed to be non-NULL, as at every call site but [nocpy]'s. *)
From S2P Require Export Prelude.

Local Open Scope Z_scope.

Definition loc := positive.

(** [malloc]: a location that is not in use. *)
Definition malloc {N} (m : gmap loc N) : loc := fresh (dom m).

Lemma malloc_fresh {N} (m : gmap loc N) : malloc m ∉ dom m.
Proof. apply is_fresh. Qed.

(** ** The interface a queue gives its clients *)

(** [fifo_repr q cap xs]: [q] holds [xs], oldest first, and at most [cap]
    elements. *)
Class FIFO (D Q : Type) := {
  fifo_init : Z → Q;
  fifo_enqueue : D → Q → res (bool * Q);
  fifo_dequeue : Q → res (option D * Q);
  fifo_size : Q → Z;
  fifo_repr : Q → Z → list D → Prop;
  fifo_init_spec cap : 0 <= cap → fifo_repr (fifo_init cap) cap [];
  fifo_enqueue_spec q cap xs x : fifo_repr q cap xs → Z.of_nat (length xs) < cap →
    ∃ q', fifo_enqueue x q = Ok (true, q') ∧ fifo_repr q' cap (xs ++ [x]);
  fifo_enqueue_full q cap xs x : fifo_repr q cap xs → Z.of_nat (length xs) = cap →
    fifo_enqueue x q = Ok (false, q);
  fifo_dequeue_spec q cap x xs : fifo_repr q cap (x :: xs) →
    ∃ q', fifo_dequeue q = Ok (Some x, q') ∧ fifo_repr q' cap xs;
  fifo_dequeue_empty q cap : fifo_repr q cap [] → fifo_dequeue q = Ok (None, q);
  fifo_size_spec q cap xs : fifo_repr q cap xs → fifo_size q = Z.of_nat (length xs);
  fifo_cap q cap xs : fifo_repr q cap xs → Z.of_nat (length xs) <= cap;
}.

Module Queue.

(** ** Data *)

Record node (D : Type) := Node { d : D; next : option loc }.
Arguments Node {D} _ _.
Arguments d {D} _.
Arguments next {D} _.

Record queue (D : Type) := MkQ {
  size : Z; m_size : Z; firstFlag : bool; head : option loc; tail : option loc;
  q_mem : gmap loc (node D) }.
Arguments MkQ {D} _ _ _ _ _ _.
Arguments size {D} _.
Arguments m_size {D} _.
Arguments firstFlag {D} _.
Arguments head {D} _.
Arguments tail {D} _.
Arguments q_mem {D} _.

(** ** Operations *)

Definition q_init {D} (qsize : Z) : queue D := MkQ 0 qsize true None None ∅.

Definition q_enqueue {D} (req : D) (q : queue D) : res (bool * queue D) :=
  if size q =? m_size q then Ok (false, q)
  else
    let new_node := malloc (q_mem q) in
    let m := <[new_node := Node req None]> (q_mem q) in
    if size q =? 0 then
      Ok (true, MkQ (size q + 1) (m_size q) (firstFlag q) (Some new_node) (Some new_node) m)
    else
      t ← deref (tail q);
      n ← deref (m !! t);
      Ok (true, MkQ (size q + 1) (m_size q) (firstFlag q) (head q) (Some new_node)
                  (<[t := Node (d n) (Some new_node)]> m)).

Definition q_enqueue_front {D} (req : D) (q : queue D) : res (bool * queue D) :=
  if size q =? m_size q then Ok (false, q)
  else
    let new_node := malloc (q_mem q) in
    if size q =? 0 then
      Ok (true, MkQ (size q + 1) (m_size q) (firstFlag q) (Some new_node) (Some new_node)
                  (<[new_node := Node req None]> (q_mem q)))
    else
      Ok (true, MkQ (size q + 1) (m_size q) (firstFlag q) (Some new_node) (tail q)
                  (<[new_node := Node req (head q)]> (q_mem q))).

Definition q_dequeue {D} (q : queue D) : res (option D * queue D) :=
  match head q with
  | None => Ok (None, q)
  | Some target_node =>
    if size q =? 0 then Ok (None, q)
    else
      n ← deref (q_mem q !! target_node);
      Ok (Some (d n), MkQ (size q - 1) (m_size q) (firstFlag q) (next n) (tail q)
                        (delete target_node (q_mem q)))
  end.

Definition q_pick {D} (q : queue D) : res (option D) :=
  match head q with
  | None => Ok None
  | Some target_node =>
    if size q =? 0 then Ok None
    else n ← deref (q_mem q !! target_node); Ok (Some (d n))
  end.

(** [q_free]: dequeue until [NULL]; the result is the memory left behind. *)
Fixpoint q_free {D} (fuel : nat) (q : queue D) : res (gmap loc (node D)) :=
  match fuel with
  | O => Err OutOfFuel
  | S fuel' =>
    '(r, q') ← q_dequeue q;
    match r with Some _ => q_free fuel' q' | None => Ok (q_mem q') end
  end.

(** The integer variants: the same list, [0] on an empty queue. *)
Definition q_enqueue_int (req : Z) (q : queue Z) : res (bool * queue Z) :=
  if size q =? m_size q then Ok (false, q)
  else
    let new_node := malloc (q_mem q) in
    let m := <[new_node := Node req None]> (q_mem q) in
    if size q =? 0 then
      Ok (true, MkQ (size q + 1) (m_size q) (firstFlag q) (Some new_node) (Some new_node) m)
    else
      t ← deref (tail q);
      n ← deref (m !! t);
      Ok (true, MkQ (size q + 1) (m_size q) (firstFlag q) (head q) (Some new_node)
                  (<[t := Node (d n) (Some new_node)]> m)).

Definition q_dequeue_int (q : queue Z) : res (Z * queue Z) :=
  match head q with
  | None => Ok (0, q)
  | Some target_node =>
    if size q =? 0 then Ok (0, q)
    else
      n ← deref (q_mem q !! target_node);
      Ok (d n, MkQ (size q - 1) (m_size q) (firstFlag q) (next n) (tail q)
                 (delete target_node (q_mem q)))
  end.

(** The macro [for_each_intqueue(q,a)]: the values [a] takes in the loop. *)
Fixpoint for_each_intqueue (fuel : nat) (q : queue Z) (seen : list Z) : res (list Z) :=
  match fuel with
  | O => Err OutOfFuel
  | S fuel' =>
    '(a, q') ← q_dequeue_int q;
    if a =? -1 then Ok seen else for_each_intqueue fuel' q' (seen ++ [a])
  end.

(** ** Client programs *)

(** A call a client makes, and what it observes. *)
Inductive qop (D : Type) := Enq (x : D) | EnqFront (x : D) | Deq | Pick.
Arguments Enq {D} _.
Arguments EnqFront {D} _.
Arguments Deq {D}.
Arguments Pick {D}.
Inductive qout (D : Type) := OBool (b : bool) | OPtr (o : option D).
Arguments OBool {D} _.
Arguments OPtr {D} _.

(** One call on the linked queue. *)
Definition qstep {D} (o : qop D) (q : queue D) : res (qout D * queue D) :=
  match o with
  | Enq x => '(b, q') ← q_enqueue x q; Ok (OBool b, q')
  | EnqFront x => '(b, q') ← q_enqueue_front x q; Ok (OBool b, q')
  | Deq => '(r, q') ← q_dequeue q; Ok (OPtr r, q')
  | Pick => r ← q_pick q; Ok (OPtr r, q)
  end.

Fixpoint qrun {D} (os : list (qop D)) (q : queue D) : res (list (qout D)) :=
  match os with
  | [] => Ok []
  | o :: os' => '(r, q') ← qstep o q; rs ← qrun os' q'; Ok (r :: rs)
  end.

(** The same call on the specification: a list of at most [cap] elements. *)
Definition sstep {D} (cap : Z) (o : qop D) (xs : list D) : qout D * list D :=
  match o with
  | Enq x => if Z.of_nat (length xs) <? cap then (OBool true, xs ++ [x]) else (OBool false, xs)
  | EnqFront x => if Z.of_nat (length xs) <? cap then (OBool true, x :: xs) else (OBool false, xs)
  | Deq => (OPtr (list.head xs), list.tail xs)
  | Pick => (OPtr (list.head xs), xs)
  end.

Fixpoint srun {D} (cap : Z) (os : list (qop D)) (xs : list D) : list (qout D) :=
  match os with
  | [] => []
  | o :: os' => let '(r, xs') := sstep cap o xs in r :: srun cap os' xs'
  end.

(** ** Representation *)

Section repr.
Context {D : Type}.
Implicit Types (m : gmap loc (node D)) (l : list (loc * D)) (q : queue D).

(** The nodes reached from [p] are those of [l], in order, the last one with a
    [NULL] successor. *)
Fixpoint chain m (p : option loc) l : Prop :=
  match l with
  | [] => p = None
  | (a, x) :: l' => p = Some a ∧ ∃ nx, m !! a = Some (Node x nx) ∧ chain m nx l'
  end.

(** [q] holds the elements [xs]: its nodes form a chain, its counters agree with
    it, [tail] is the last node and no other node is allocated. *)
Definition q_repr q (cap : Z) (xs : list D) : Prop :=
  ∃ l, xs = l.*2 ∧ NoDup l.*1 ∧ chain (q_mem q) (head q) l ∧
    size q = Z.of_nat (length xs) ∧ m_size q = cap ∧ Z.of_nat (length xs) <= cap ∧
    (l ≠ [] → tail q = last l.*1) ∧ dom (q_mem q) = list_to_set l.*1.

Lemma chain_insert_fresh m p l a n : a ∉ l.*1 → chain m p l → chain (<[a:=n]> m) p l.
Proof.
  revert p; induction l as [|[b y] l IH]; intros p Ha; [done|]. csimpl in *.
  apply not_elem_of_cons in Ha as [? ?].
  intros (-> & nx & Hb & Hc). split; [done|]. exists nx.
  rewrite lookup_insert_ne by done. auto.
Qed.

Lemma chain_delete_fresh m p l a : a ∉ l.*1 → chain m p l → chain (delete a m) p l.
Proof.
  revert p; induction l as [|[b y] l IH]; intros p Ha; [done|]. csimpl in *.
  apply not_elem_of_cons in Ha as [? ?].
  intros (-> & nx & Hb & Hc). split; [done|]. exists nx.
  rewrite lookup_delete_ne by done. auto.
Qed.

(** Linking a node [a] behind the last node [t] of a chain. *)
Lemma chain_snoc m p l t y a x :
  NoDup (l ++ [(t, y)]).*1 → a ∉ (l ++ [(t, y)]).*1 →
  chain m p (l ++ [(t, y)]) →
  m !! t = Some (Node y None) ∧
  chain (<[t:=Node y (Some a)]> (<[a:=Node x None]> m)) p (l ++ [(t, y); (a, x)]).
Proof.
  revert p; induction l as [|[b z] l IH]; intros p Hnd Ha Hc; csimpl in *.
  - destruct Hc as (-> & nx & Ht & ->). apply not_elem_of_cons in Ha as [Hat _].
    split; [done|]. split; [done|]. exists (Some a). split; [by rewrite lookup_insert_eq|].
    split; [done|]. exists None.
    rewrite lookup_insert_ne, lookup_insert_eq by done. done.
  - apply NoDup_cons in Hnd as [Hb Hnd]. apply not_elem_of_cons in Ha as [Hab Ha].
    destruct Hc as (-> & nx & Hm & Hc). destruct (IH nx Hnd Ha Hc) as [Ht Hc'].
    split; [done|]. split; [done|]. exists nx. split; [|done].
    rewrite fmap_app in Hb. apply not_elem_of_app in Hb as [_ Hbt].
    apply not_elem_of_cons in Hbt as [? _].
    rewrite !lookup_insert_ne; done.
Qed.

(** ** Each operation implements the operation on the list *)

Lemma q_init_repr cap : 0 <= cap → q_repr (q_init cap) cap [].
Proof.
  intros. exists []. simpl. split_and!; try done. constructor.
Qed.

Lemma q_enqueue_full q cap xs x :
  q_repr q cap xs → Z.of_nat (length xs) = cap → q_enqueue x q = Ok (false, q).
Proof.
  intros (l & _ & _ & _ & Hs & Hc & _) Hl. unfold q_enqueue.
  rewrite Hs, Hc, Hl, Z.eqb_refl. done.
Qed.

Lemma q_enqueue_repr q cap xs x :
  q_repr q cap xs → Z.of_nat (length xs) < cap →
  ∃ q', q_enqueue x q = Ok (true, q') ∧ q_repr q' cap (xs ++ [x]).
Proof.
  intros (l & -> & Hnd & Hch & Hs & Hc & Hle & Ht & Hdom) Hlt.
  rewrite length_fmap in *. unfold q_enqueue.
  destruct (Z.eqb_spec (size q) (m_size q)); [lia|].
  set (a := malloc (q_mem q)). assert (Ha : a ∉ l.*1).
  { pose proof (malloc_fresh (q_mem q)) as Hf. rewrite Hdom in Hf. set_solver. }
  destruct (Z.eqb_spec (size q) 0) as [Hz|Hz].
  - destruct l as [|p l]; simpl in *; [|lia].
    eexists; split; [done|]. exists [(a, x)]. simpl.
    split_and!; try done; try lia; simpl.
    + apply NoDup_singleton.
    + exists None. by rewrite lookup_insert_eq.
    + rewrite dom_insert_L, Hdom. set_solver.
  - destruct l as [|[t y] l _] using rev_ind; [simpl in *; lia|].
    destruct (chain_snoc _ _ _ _ _ a x Hnd Ha Hch) as [Hm Hch'].
    rewrite Ht by (by destruct l). rewrite fmap_app; csimpl. rewrite last_snoc; csimpl.
    rewrite lookup_insert_ne.
    2: { intros ->. apply Ha. rewrite fmap_app. set_solver. }
    rewrite Hm; csimpl. eexists; split; [done|].
    exists (l ++ [(t, y); (a, x)]). csimpl.
    rewrite !fmap_app, !length_app, ?length_fmap in *; csimpl in *.
    split_and!; try done; try lia.
    + by rewrite <-app_assoc.
    + replace (l.*1 ++ [t; a]) with ((l.*1 ++ [t]) ++ [a]) by (by rewrite <-app_assoc).
      apply NoDup_app. split_and!; [done| |apply NoDup_singleton].
      intros b Hb Hb'. apply list_elem_of_singleton in Hb' as ->. done.
    + intros _. replace (l.*1 ++ [t; a]) with ((l.*1 ++ [t]) ++ [a]) by (by rewrite <-app_assoc).
      by rewrite last_snoc.
    + rewrite !dom_insert_L, Hdom. set_solver.
Qed.

Lemma q_enqueue_front_repr q cap xs x :
  q_repr q cap xs → Z.of_nat (length xs) < cap →
  ∃ q', q_enqueue_front x q = Ok (true, q') ∧ q_repr q' cap (x :: xs).
Proof.
  intros (l & -> & Hnd & Hch & Hs & Hc & Hle & Ht & Hdom) Hlt.
  rewrite length_fmap in *. unfold q_enqueue_front.
  destruct (Z.eqb_spec (size q) (m_size q)); [lia|].
  set (a := malloc (q_mem q)). assert (Ha : a ∉ l.*1).
  { pose proof (malloc_fresh (q_mem q)) as Hf. rewrite Hdom in Hf. set_solver. }
  destruct (Z.eqb_spec (size q) 0) as [Hz|Hz]; (eexists; split; [done|]); exists ((a, x) :: l);
    csimpl; rewrite ?length_fmap.
  - destruct l as [|p l]; simpl in *; [|lia]. split_and!; try done; try lia.
    + apply NoDup_singleton.
    + exists None. by rewrite lookup_insert_eq.
    + rewrite dom_insert_L, Hdom. set_solver.
  - split_and!; try done; try lia.
    + by constructor.
    + exists (head q). rewrite lookup_insert_eq. split; [done|]. by apply chain_insert_fresh.
    + intros _. destruct l as [|p l]; [simpl in *; lia|]. by rewrite Ht.
    + rewrite dom_insert_L, Hdom. set_solver.
Qed.

Lemma q_dequeue_empty q cap : q_repr q cap [] → q_dequeue q = Ok (None, q).
Proof.
  intros (l & Hl & _ & Hch & _). destruct l; [|done]. simpl in Hch.
  unfold q_dequeue. by rewrite Hch.
Qed.

Lemma q_dequeue_repr q cap x xs :
  q_repr q cap (x :: xs) → ∃ q', q_dequeue q = Ok (Some x, q') ∧ q_repr q' cap xs.
Proof.
  intros (l & Hl & Hnd & Hch & Hs & Hc & Hle & Ht & Hdom).
  destruct l as [|[a y] l]; [done|]. csimpl in *. injection Hl as <- ->.
  destruct Hch as (Hh & nx & Hm & Hch). apply NoDup_cons in Hnd as [Ha Hnd].
  unfold q_dequeue. rewrite Hh. destruct (Z.eqb_spec (size q) 0); [simpl in *; lia|].
  rewrite Hm; csimpl. eexists; split; [done|]. exists l. csimpl.
  split_and!; try done; try lia.
  - by apply chain_delete_fresh.
  - intros Hne. rewrite Ht by done. destruct l; done.
  - rewrite dom_delete_L, Hdom. set_solver.
Qed.

Lemma q_pick_repr q cap xs : q_repr q cap xs → q_pick q = Ok (list.head xs).
Proof.
  intros (l & -> & _ & Hch & Hs & _). unfold q_pick.
  destruct l as [|[a x] l]; csimpl in *; [by rewrite Hch|].
  destruct Hch as (-> & nx & Hm & _). destruct (Z.eqb_spec (size q) 0); [lia|].
  by rewrite Hm.
Qed.

Lemma q_enqueue_front_full q cap xs x :
  q_repr q cap xs → Z.of_nat (length xs) = cap → q_enqueue_front x q = Ok (false, q).
Proof.
  intros (l & _ & _ & _ & Hs & Hc & _) Hl. unfold q_enqueue_front.
  rewrite Hs, Hc, Hl, Z.eqb_refl. done.
Qed.

Lemma q_repr_cap q cap xs : q_repr q cap xs → Z.of_nat (length xs) <= cap.
Proof. intros (l & _ & _ & _ & _ & _ & E & _). done. Qed.

(** One call simulates one step of the specification. *)
Lemma qstep_simulates o q cap xs :
  q_repr q cap xs →
  ∃ q', qstep o q = Ok ((sstep cap o xs).1, q') ∧ q_repr q' cap (sstep cap o xs).2.
Proof.
  intros H. pose proof (q_repr_cap _ _ _ H) as Hcap. destruct o as [x|x| |]; simpl.
  - destruct (Z.ltb_spec (Z.of_nat (length xs)) cap) as [Hl|Hl]; simpl.
    + destruct (q_enqueue_repr q cap xs x H Hl) as (q' & -> & ?). eauto.
    + rewrite (q_enqueue_full q cap xs x H) by lia. eauto.
  - destruct (Z.ltb_spec (Z.of_nat (length xs)) cap) as [Hl|Hl]; simpl.
    + destruct (q_enqueue_front_repr q cap xs x H Hl) as (q' & -> & ?). eauto.
    + rewrite (q_enqueue_front_full q cap xs x H) by lia. eauto.
  - destruct xs as [|x xs]; simpl.
    + rewrite (q_dequeue_empty q cap H). eauto.
    + destruct (q_dequeue_repr q cap x xs H) as (q' & -> & ?). eauto.
  - rewrite (q_pick_repr q cap xs H). eauto.
Qed.

Lemma q_free_repr q cap xs : q_repr q cap xs → q_free (S (length xs)) q = Ok ∅.
Proof.
  revert q; induction xs as [|x xs IH]; intros q H; simpl.
  - rewrite (q_dequeue_empty q cap H); simpl. destruct H as (l & Hl & H).
    destruct l; [|done]. destruct H as (_ & _ & _ & _ & _ & _ & Hd). simpl in Hd.
    f_equal. by apply dom_empty_inv_L.
  - destruct (q_dequeue_repr q cap x xs H) as (q' & -> & H'). simpl. by apply IH.
Qed.

End repr.

Lemma q_dequeue_int_empty q cap : q_repr q cap [] → q_dequeue_int q = Ok (0, q).
Proof.
  intros H%q_dequeue_empty. revert H. unfold q_dequeue, q_dequeue_int.
  destruct (head q); [|done]. destruct (size q =? 0); [done|]. by destruct (q_mem q !! l).
Qed.

Lemma q_dequeue_int_repr q cap x xs :
  q_repr q cap (x :: xs) → ∃ q', q_dequeue_int q = Ok (x, q') ∧ q_repr q' cap xs.
Proof.
  intros (q' & H & Hr)%q_dequeue_repr. exists q'. split; [|done]. revert H.
  unfold q_dequeue, q_dequeue_int. destruct (head q); [|done].
  destruct (size q =? 0); [done|]. destruct (q_mem q !! l); naive_solver.
Qed.

#[global] Instance queue_fifo (D : Type) : FIFO D (queue D) := {|
  fifo_init := q_init;
  fifo_enqueue := q_enqueue;
  fifo_dequeue := q_dequeue;
  fifo_size := size;
  fifo_repr := q_repr;
  fifo_init_spec := q_init_repr;
  fifo_enqueue_spec := q_enqueue_repr;
  fifo_enqueue_full := q_enqueue_full;
  fifo_dequeue_spec := q_dequeue_repr;
  fifo_dequeue_empty := q_dequeue_empty;
  fifo_size_spec q cap xs H := let '(ex_intro _ _ (conj _ (conj _ (conj _ (conj E _))))) := H in E;
  fifo_cap q cap xs H :=
    let '(ex_intro _ _ (conj _ (conj _ (conj _ (conj _ (conj _ (conj E _))))))) := H in E
|}.

(** ** Theorems *)

(** C29: whatever sequence of [q_enqueue], [q_enqueue_front], [q_dequeue] and
    [q_pick] a client makes on a fresh queue of capacity [cap], the linked
    implementation answers exactly as a bounded list does: it never touches a
    freed or NULL node, refuses exactly when [cap] elements are held, and gives
    the elements back in order. *)
Theorem queue_refines_list {D} (cap : Z) (os : list (qop D)) :
  0 <= cap → qrun os (q_init cap) = Ok (srun cap os []).
Proof.
  intros Hcap. assert (H : q_repr (@q_init D cap) cap []) by by apply q_init_repr.
  revert H. generalize (@q_init D cap) as q. generalize (@nil D) as xs.
  induction os as [|o os IH]; intros xs q H; [done|]. simpl.
  destruct (qstep_simulates o q cap xs H) as (q' & -> & H'). simpl.
  destruct (sstep cap o xs) as [r xs']; simpl in *. by rewrite (IH xs' q' H').
Qed.

Lemma queue_refines_list_witness :
  qrun [Enq 1; Enq 2; Enq 3; EnqFront 9; Deq; Deq; Enq 4; Pick; Deq; Deq; Deq; Enq 5; Deq]
       (q_init 3) =
  Ok [OBool true; OBool true; OBool true; OBool false; OPtr (Some 1); OPtr (Some 2); OBool true;
      OPtr (Some 3); OPtr (Some 3); OPtr (Some 4); OPtr None; OBool true; OPtr (Some 5)].
Proof.
  exact (queue_refines_list 3
    [Enq 1; Enq 2; Enq 3; EnqFront 9; Deq; Deq; Enq 4; Pick; Deq; Deq; Deq; Enq 5; Deq]
    (ltac:(lia))).
Defined.

(** [q_free] on a queue holding [xs] finishes (one dequeue per element and
    one that finds the queue empty) and leaves no node allocated. *)
Theorem q_free_releases_all {D} (q : queue D) (cap : Z) (xs : list D) :
  q_repr q cap xs → q_free (S (length xs)) q = Ok ∅.
Proof. apply q_free_repr. Qed.

Lemma q_free_releases_all_witness :
  ∃ q : queue Z, q_enqueue 7 (q_init 2) = Ok (true, q) ∧ q_free 2 q = Ok ∅.
Proof.
  destruct (q_enqueue_repr (q_init 2) 2 [] 7 (q_init_repr 2 ltac:(lia)) ltac:(simpl; lia))
    as (q & Hq & Hr).
  exists q. split; [exact Hq|]. exact (q_free_releases_all q 2 [7] Hr).
Defined.

(** The loop of the macro [for_each_intqueue] (queue.h) never ends on a queue
    that does not hold -1 itself: it waits for [q_dequeue_int] to answer -1, but
    an empty queue answers 0. *)
Theorem for_each_intqueue_diverges (q : queue Z) (cap : Z) (xs : list Z) (fuel : nat) :
  q_repr q cap xs → -1 ∉ xs → for_each_intqueue fuel q [] = Err OutOfFuel.
Proof.
  generalize (@nil Z) as acc. revert q xs.
  induction fuel as [|fuel IH]; intros q xs acc H Hx; [done|]; simpl.
  destruct xs as [|x xs].
  - rewrite (q_dequeue_int_empty q cap H); simpl. by apply (IH q []).
  - destruct (q_dequeue_int_repr q cap x xs H) as (q' & -> & H'); simpl.
    apply not_elem_of_cons in Hx as [Hx Hxs]. destruct (Z.eqb_spec x (-1)); [congruence|].
    by apply (IH q' xs).
Qed.

Lemma for_each_intqueue_diverges_witness :
  for_each_intqueue 100 (q_init 4) [] = Err OutOfFuel.
Proof.
  exact (for_each_intqueue_diverges (q_init 4) 4 [] 100
           (q_init_repr 4 ltac:(lia)) ltac:(apply not_elem_of_nil)).
Defined.

End Queue.
