(* ===== verification/Links.v ===== *)
(** * Doubly linked nodes

    [list.c], [lru_list.c] and the LSM-tree's [cache.c] each link their own node
    type in both directions. The class [DLink] states what those node types
    share; [dseg] describes a run of linked nodes, and its lemmas say how a run
    changes when one pointer field is assigned or a node is freed. *)
From S2P Require Export Prelude Queue.

(** The two pointer fields of a node and its payload; assigning one field leaves
    the others alone. *)
Class DLink (N A : Type) := {
  lk_data : N → A;
  lk_next : N → option loc;
  lk_prev : N → option loc;
  set_next : option loc → N → N;
  set_prev : option loc → N → N;
  next_set_next p n : lk_next (set_next p n) = p;
  prev_set_next p n : lk_prev (set_next p n) = lk_prev n;
  data_set_next p n : lk_data (set_next p n) = lk_data n;
  next_set_prev p n : lk_next (set_prev p n) = lk_next n;
  prev_set_prev p n : lk_prev (set_prev p n) = p;
  data_set_prev p n : lk_data (set_prev p n) = lk_data n;
}.

#[global] Arguments lk_data : simpl never.
#[global] Arguments lk_next : simpl never.
#[global] Arguments lk_prev : simpl never.
#[global] Arguments set_next : simpl never.
#[global] Arguments set_prev : simpl never.

(** [p->field = v]: the node behind [p] is changed by [f]; a NULL or freed [p]
    is undefined behaviour. *)
Definition store {N} (p : option loc) (f : N → N) (m : gmap loc N) : res (gmap loc N) :=
  a ← deref p; n ← deref (m !! a); Ok (<[a := f n]> m).

(** [p->field] for reading. *)
Definition load {N} (p : option loc) (m : gmap loc N) : res N :=
  a ← deref p; deref (m !! a).

Lemma store_Some {N} (m : gmap loc N) a n f :
  m !! a = Some n → store (Some a) f m = Ok (<[a := f n]> m).
Proof. intros H. unfold store; simpl. by rewrite H. Qed.

Lemma load_Some {N} (m : gmap loc N) a n : m !! a = Some n → load (Some a) m = Ok n.
Proof. intros H. unfold load; simpl. by rewrite H. Qed.

Section dseg.
Context {N A : Type} `{!DLink N A}.
Implicit Types (m : gmap loc N) (l : list (loc * A)).

(** The nodes from [p] are those of [l]: the first has predecessor [pv], the last
    successor [nx]. *)
Fixpoint dseg m (pv p : option loc) l (nx : option loc) : Prop :=
  match l with
  | [] => p = nx
  | (a, x) :: l' => p = Some a ∧ ∃ n, m !! a = Some n ∧ lk_data n = x ∧ lk_prev n = pv ∧
      dseg m (Some a) (lk_next n) l' nx
  end.

(** The last node of a run that follows [pv]. *)
Definition lastp (pv : option loc) l : option loc :=
  match last l.*1 with Some a => Some a | None => pv end.

(** The first node of a run that ends at [nx]. *)
Definition firstp l (nx : option loc) : option loc :=
  match l with (a, _) :: _ => Some a | [] => nx end.

Lemma dseg_nil m pv p nx : dseg m pv p [] nx ↔ p = nx.
Proof. done. Qed.

Lemma dseg_cons m pv p a x l nx :
  dseg m pv p ((a, x) :: l) nx ↔ p = Some a ∧ ∃ n, m !! a = Some n ∧ lk_data n = x ∧
    lk_prev n = pv ∧ dseg m (Some a) (lk_next n) l nx.
Proof. done. Qed.

Lemma lastp_cons pv a x l : lastp pv ((a, x) :: l) = lastp (Some a) l.
Proof. unfold lastp. csimpl. destruct l as [|[b y] l]; csimpl; [done|]. destruct (last _) eqn:E; [done|].
  apply last_None in E. done. Qed.

Lemma lastp_snoc pv l a x : lastp pv (l ++ [(a, x)]) = Some a.
Proof. unfold lastp. rewrite fmap_app; csimpl. by rewrite last_snoc. Qed.

Lemma lastp_app pv l1 l2 : lastp pv (l1 ++ l2) = lastp (lastp pv l1) l2.
Proof.
  revert pv; induction l1 as [|[a x] l1 IH]; intros pv; [done|].
  rewrite <-app_comm_cons, !lastp_cons. apply IH.
Qed.

Lemma dseg_first m pv p l nx : dseg m pv p l nx → p = firstp l nx.
Proof. destruct l as [|[a x] l]; simpl; naive_solver. Qed.

Lemma dseg_app m pv p l1 l2 nx :
  dseg m pv p (l1 ++ l2) nx ↔
  dseg m pv p l1 (firstp l2 nx) ∧ dseg m (lastp pv l1) (firstp l2 nx) l2 nx.
Proof.
  revert pv p; induction l1 as [|[a x] l1 IH]; intros pv p.
  - simpl. split; [intros H; pose proof (dseg_first _ _ _ _ _ H); by subst|].
    intros [-> H]. done.
  - rewrite <-app_comm_cons, lastp_cons. simpl. setoid_rewrite IH. naive_solver.
Qed.

Lemma dseg_frame m a n pv p l nx :
  a ∉ l.*1 → dseg (<[a:=n]> m) pv p l nx ↔ dseg m pv p l nx.
Proof.
  revert pv p; induction l as [|[b y] l IH]; intros pv p Ha; csimpl; [done|].
  csimpl in Ha. apply not_elem_of_cons in Ha as [? ?]. rewrite lookup_insert_ne by done.
  setoid_rewrite IH; done.
Qed.

Lemma dseg_frame_delete m a pv p l nx :
  a ∉ l.*1 → dseg m pv p l nx → dseg (delete a m) pv p l nx.
Proof.
  revert pv p; induction l as [|[b y] l IH]; intros pv p Ha; csimpl; [done|].
  csimpl in Ha. apply not_elem_of_cons in Ha as [? ?].
  intros (-> & n & ? & ? & ? & ?). split; [done|]. exists n.
  rewrite lookup_delete_ne by done. eauto.
Qed.

(** Assigning the predecessor of the first node. *)
Lemma dseg_set_prev m pv pv' a x l nx :
  a ∉ l.*1 → dseg m pv (Some a) ((a, x) :: l) nx →
  ∃ m', store (Some a) (set_prev pv') m = Ok m' ∧ dseg m' pv' (Some a) ((a, x) :: l) nx ∧
    (∃ n, m' = <[a := set_prev pv' n]> m) ∧ is_Some (m !! a).
Proof.
  intros Ha (_ & n & Hn & Hx & Hp & Hs). unfold store; simpl. rewrite Hn; simpl.
  eexists; split; [done|]. split; [|eauto]. split; [done|].
  exists (set_prev pv' n). rewrite lookup_insert_eq.
  rewrite data_set_prev, prev_set_prev, next_set_prev.
  split_and!; try done. by apply dseg_frame.
Qed.

(** Assigning the successor of the last node. *)
Lemma dseg_set_next m pv p l t y nx nx' :
  NoDup (l ++ [(t, y)]).*1 → dseg m pv p (l ++ [(t, y)]) nx →
  ∃ m', store (Some t) (set_next nx') m = Ok m' ∧ dseg m' pv p (l ++ [(t, y)]) nx' ∧
    (∃ n, m' = <[t := set_next nx' n]> m) ∧ is_Some (m !! t).
Proof.
  intros Hnd H. rewrite fmap_app in Hnd; csimpl in *. apply NoDup_app in Hnd as (_ & Hd & _).
  rewrite dseg_app in H. destruct H as [H1 H2]. simpl in H2.
  destruct H2 as (_ & n & Hn & Hy & Hp & Hx).
  unfold store; simpl. rewrite Hn; simpl. eexists; split; [done|]. split; [|eauto].
  rewrite dseg_app. split.
  - rewrite dseg_frame; [done|]. intros Hin. apply (Hd t Hin). set_solver.
  - simpl. split; [done|]. exists (set_next nx' n). rewrite lookup_insert_eq.
    rewrite data_set_next, prev_set_next, next_set_next. done.
Qed.

Lemma dseg_last_node m pv p l t y nx :
  dseg m pv p (l ++ [(t, y)]) nx →
  ∃ n, m !! t = Some n ∧ lk_data n = y ∧ lk_prev n = lastp pv l ∧ lk_next n = nx.
Proof. rewrite dseg_app. simpl. intros (_ & _ & n & ? & ? & ? & ?). eauto. Qed.

Lemma dseg_node m pv p l1 a x l2 nx :
  dseg m pv p (l1 ++ (a, x) :: l2) nx →
  ∃ n, m !! a = Some n ∧ lk_data n = x ∧ lk_prev n = lastp pv l1 ∧ lk_next n = firstp l2 nx.
Proof.
  rewrite dseg_app. simpl. intros (_ & _ & n & ? & ? & ? & H). exists n.
  split_and!; try done. by apply dseg_first in H.
Qed.

Lemma dseg_dom m pv p l nx : dseg m pv p l nx → ∀ a, a ∈ l.*1 → is_Some (m !! a).
Proof.
  revert pv p; induction l as [|[b y] l IH]; intros pv p H a Ha; csimpl in *; [set_solver|].
  destruct H as (_ & n & Hn & _ & _ & H). apply elem_of_cons in Ha as [->|Ha]; eauto.
Qed.

Lemma lastp_Some pv l a : lastp pv l = Some a → pv ≠ Some a → ∃ l' x, l = l' ++ [(a, x)].
Proof.
  destruct l as [|[b y] l _] using rev_ind; [done|]. rewrite lastp_snoc. intros [= ->]. eauto.
Qed.

(** Unlinking the node [a] between two neighbours: the predecessor's [next] and
    the successor's [prev] are redirected. *)
Lemma dseg_unlink m pv p l1 b y a x c z l2 nx :
  NoDup ((l1 ++ [(b, y)]) ++ (a, x) :: (c, z) :: l2).*1 →
  dseg m pv p ((l1 ++ [(b, y)]) ++ (a, x) :: (c, z) :: l2) nx →
  ∃ m1 m2, store (Some b) (set_next (Some c)) m = Ok m1 ∧
    (∀ n, m !! a = Some n → m1 !! a = Some n) ∧
    store (Some c) (set_prev (Some b)) m1 = Ok m2 ∧
    (∀ n, m !! a = Some n → m2 !! a = Some n) ∧ dom m2 = dom m ∧
    dseg m2 pv p ((l1 ++ [(b, y)]) ++ (c, z) :: l2) nx.
Proof.
  intros Hnd H. rewrite fmap_app in Hnd; csimpl in Hnd.
  apply NoDup_app in Hnd as (Hnd1 & Hd & Hnd2).
  apply NoDup_cons in Hnd2 as [Ha Hnd2]. apply NoDup_cons in Hnd2 as [Hc Hnd2].
  rewrite dseg_app in H. destruct H as [H1 H2]. rewrite lastp_snoc in H2. simpl firstp in *.
  destruct H2 as (_ & n & Hn & Hx & Hp & H2).
  pose proof (dseg_first _ _ _ _ _ H2) as E; simpl in E. rewrite E in H2.
  assert (Hab : a ≠ b) by (intros ->; apply (Hd b); rewrite ?fmap_app; set_solver).
  assert (Hac : a ≠ c) by set_solver.
  destruct (dseg_set_next m pv p l1 b y (Some a) (Some c) Hnd1 H1)
    as (m1 & Hm1 & H1' & (n1 & Em1) & Hb).
  assert (H2' : dseg m1 (Some a) (Some c) ((c, z) :: l2) nx).
  { rewrite Em1. rewrite dseg_frame; [done|]. csimpl.
    intros Hin. apply (Hd b); rewrite ?fmap_app; set_solver. }
  destruct (dseg_set_prev m1 (Some a) (Some b) c z l2 nx Hc H2')
    as (m2 & Hm2 & H3 & (n2 & Em2) & Hcs).
  exists m1, m2. split_and!; try done.
  - intros n' Hn'. rewrite Em1, lookup_insert_ne by done. done.
  - intros n' Hn'. rewrite Em2, Em1, !lookup_insert_ne by done. done.
  - rewrite Em2, Em1, !dom_insert_L.
    apply elem_of_dom in Hb. apply elem_of_dom in Hcs. rewrite Em1, dom_insert_L in Hcs. set_solver.
  - rewrite dseg_app, lastp_snoc. simpl firstp. split; [|done].
    rewrite Em2, dseg_frame; [done|]. intros Hin. apply (Hd c); [done|]. set_solver.
Qed.

End dseg.
#[global] Arguments dseg : simpl never.
