(* ===== verification/Lru.v ===== *)
(** * The LRU list (include/data_struct/lru_list.c)

    The recency list of the demand-paged FTLs: [head] is the most recently used
    node, [tail] the next victim. Clients keep the [NODE*] that [lru_push]
    returned (a mapping-table entry stores it in [lru_ptr]) and pass it back to
    [lru_update] and [lru_delete]. *)
From S2P Require Export Links.

Local Open Scope Z_scope.

Module Lru.

(** ** Data *)

Record NODE (A : Type) := MkNODE { DATA : A; next : option loc; prev : option loc }.
Arguments MkNODE {A} _ _ _.
Arguments DATA {A} _.
Arguments next {A} _.
Arguments prev {A} _.

#[export] Instance NODE_link (A : Type) : DLink (NODE A) A.
Proof.
  refine {| lk_data := DATA; lk_next := next; lk_prev := prev;
            set_next p n := MkNODE (DATA n) p (prev n);
            set_prev p n := MkNODE (DATA n) (next n) p |}; reflexivity.
Defined.

Record LRU (A : Type) := MkLRU {
  size : Z; head : option loc; tail : option loc; lru_mem : gmap loc (NODE A) }.
Arguments MkLRU {A} _ _ _ _.
Arguments size {A} _.
Arguments head {A} _.
Arguments tail {A} _.
Arguments lru_mem {A} _.

(** ** Operations *)

Definition lru_init {A} : LRU A := MkLRU 0 None None ∅.

Definition lru_push {A} (lru : LRU A) (table_ptr : A) : res (loc * LRU A) :=
  let now := malloc (lru_mem lru) in
  let m := <[now := MkNODE table_ptr None None]> (lru_mem lru) in
  if size lru =? 0 then Ok (now, MkLRU (size lru + 1) (Some now) (Some now) m)
  else
    m1 ← store (head lru) (set_prev (Some now)) m;
    m2 ← store (Some now) (set_next (head lru)) m1;
    Ok (now, MkLRU (size lru + 1) (Some now) (tail lru) m2).

Definition lru_pop {A} (lru : LRU A) : res (option A * LRU A) :=
  match head lru with
  | None => Ok (None, lru)
  | Some _ =>
    if size lru =? 0 then Ok (None, lru)
    else
      now ← deref (tail lru);
      n ← load (tail lru) (lru_mem lru);
      let tail' := prev n in
      '(head', m) ← match tail' with
                    | Some _ => m ← store tail' (set_next None) (lru_mem lru); Ok (head lru, m)
                    | None => Ok (None, lru_mem lru)
                    end;
      Ok (Some (DATA n), MkLRU (size lru - 1) head' tail' (delete now m))
  end.

Definition lru_update {A} (lru : LRU A) (now : option loc) : res (LRU A) :=
  match now with
  | None => Ok lru
  | Some _ =>
    if decide (now = head lru) then Ok lru
    else
      n ← load now (lru_mem lru);
      '(tail', m) ←
        (if decide (now = tail lru) then
           m ← store (prev n) (set_next None) (lru_mem lru); Ok (prev n, m)
         else
           m ← store (prev n) (set_next (next n)) (lru_mem lru);
           n' ← load now m;
           m ← store (next n') (set_prev (prev n')) m; Ok (tail lru, m));
      m ← store now (set_prev None) m;
      m ← store (head lru) (set_prev now) m;
      m ← store now (set_next (head lru)) m;
      Ok (MkLRU (size lru) now tail' m)
  end.

Definition lru_delete {A} (lru : LRU A) (now : option loc) : res (LRU A) :=
  match now with
  | None => Ok lru
  | Some a =>
    n ← load now (lru_mem lru);
    '(head', tail', m) ←
      (if decide (now = head lru) then
         match next n with
         | Some _ => m ← store (next n) (set_prev None) (lru_mem lru); Ok (next n, tail lru, m)
         | None => Ok (None, None, lru_mem lru)
         end
       else if decide (now = tail lru) then
         m ← store (prev n) (set_next None) (lru_mem lru); Ok (head lru, prev n, m)
       else
         m ← store (prev n) (set_next (next n)) (lru_mem lru);
         n' ← load now m;
         m ← store (next n') (set_prev (prev n')) m; Ok (head lru, tail lru, m));
    Ok (MkLRU (size lru - 1) head' tail' (delete a m))
  end.

Fixpoint lru_free {A} (fuel : nat) (lru : LRU A) : res (gmap loc (NODE A)) :=
  match fuel with
  | O => Err OutOfFuel
  | S fuel' =>
    '(r, lru') ← lru_pop lru;
    match r with Some _ => lru_free fuel' lru' | None => Ok (lru_mem lru') end
  end.

(** ** Specification *)

(** A call of a client. Handles are the nodes [lru_push] returned. *)
Inductive lop (A : Type) := Push (x : A) | Pop | Touch (a : loc) | Drop (a : loc).
Arguments Push {A} _.
Arguments Pop {A}.
Arguments Touch {A} _.
Arguments Drop {A} _.
Inductive lout (A : Type) := ONode (a : loc) | OData (o : option A) | ODone.
Arguments ONode {A} _.
Arguments OData {A} _.
Arguments ODone {A}.

Definition lstep {A} (o : lop A) (lru : LRU A) : res (lout A * LRU A) :=
  match o with
  | Push x => '(a, lru') ← lru_push lru x; Ok (ONode a, lru')
  | Pop => '(r, lru') ← lru_pop lru; Ok (OData r, lru')
  | Touch a => lru' ← lru_update lru (Some a); Ok (ODone, lru')
  | Drop a => lru' ← lru_delete lru (Some a); Ok (ODone, lru')
  end.

(** The specification: a list of (handle, data), most recently used first. *)
Inductive lspec {A} : lop A → lout A → list (loc * A) → list (loc * A) → Prop :=
| spec_push x a l : a ∉ l.*1 → lspec (Push x) (ONode a) l ((a, x) :: l)
| spec_pop_empty : lspec Pop (OData None) [] []
| spec_pop a x l : lspec Pop (OData (Some x)) (l ++ [(a, x)]) l
| spec_touch a x l1 l2 : lspec (Touch a) ODone (l1 ++ (a, x) :: l2) ((a, x) :: l1 ++ l2)
| spec_drop a x l1 l2 : lspec (Drop a) ODone (l1 ++ (a, x) :: l2) (l1 ++ l2).

(** Client calls only name handles that are in the list. *)
Definition live {A} (o : lop A) (l : list (loc * A)) : Prop :=
  match o with Touch a | Drop a => a ∈ l.*1 | _ => True end.

Section repr.
Context {A : Type}.
Implicit Types (l : list (loc * A)) (lru : LRU A).

Definition lru_repr lru l : Prop :=
  NoDup l.*1 ∧ dseg (lru_mem lru) None (head lru) l None ∧ tail lru = lastp None l ∧
  size lru = Z.of_nat (length l) ∧ dom (lru_mem lru) = list_to_set l.*1.

(** ** Lemmas *)

Lemma lru_push_repr lru l x :
  lru_repr lru l → ∃ a lru', lru_push lru x = Ok (a, lru') ∧ (a ∉ l.*1) ∧ lru_repr lru' ((a, x) :: l).
Proof.
  intros (Hnd & Hd & Ht & Hs & Hdom). unfold lru_push.
  set (a := malloc (lru_mem lru)). assert (Ha : a ∉ l.*1).
  { pose proof (malloc_fresh (lru_mem lru)) as Hf. fold a in Hf. rewrite Hdom in Hf. set_solver. }
  exists a. destruct (Z.eqb_spec (size lru) 0) as [Hz|Hz].
  - destruct l; simpl in *; [|lia]. eexists; split_and!; [done..|].
    split_and!; csimpl; try done; try lia.
    + apply NoDup_singleton.
    + rewrite dseg_cons. split; [done|]. eexists. by rewrite lookup_insert_eq.
    + rewrite dom_insert_L, Hdom. set_solver.
  - destruct l as [|[b y] l]; [simpl in *; lia|].
    pose proof (dseg_first _ _ _ _ _ Hd) as Hh. simpl in Hh. rewrite Hh in *.
    csimpl in *. apply NoDup_cons in Hnd as [Hb Hnd].
    assert (Hd' : dseg (<[a:=MkNODE x None None]> (lru_mem lru)) None (Some b) ((b, y) :: l) None)
      by (by rewrite dseg_frame).
    destruct (dseg_set_prev _ None (Some a) b y l None Hb Hd') as (m1 & -> & Hd1 & (n & Em) & _).
    csimpl. unfold store at 1; csimpl.
    rewrite Em, lookup_insert_ne, lookup_insert_eq by set_solver. csimpl.
    eexists; split_and!; [done..|]. split_and!; csimpl; try done; try lia.
    + by repeat constructor.
    + rewrite dseg_cons. split; [done|]. eexists. rewrite lookup_insert_eq.
      split_and!; try done. by rewrite dseg_frame, <-Em.
    + rewrite !dom_insert_L, Hdom. set_solver.
Qed.

Lemma lru_pop_empty lru : lru_repr lru [] → lru_pop lru = Ok (None, lru).
Proof. intros (_ & Hd & _). unfold lru_pop. apply dseg_nil in Hd. by rewrite Hd. Qed.

Lemma lru_pop_repr lru l a x :
  lru_repr lru (l ++ [(a, x)]) → ∃ lru', lru_pop lru = Ok (Some x, lru') ∧ lru_repr lru' l.
Proof.
  intros (Hnd & Hd & Ht & Hs & Hdom). rewrite lastp_snoc in Ht.
  rewrite length_app in Hs; simpl in Hs. unfold lru_pop.
  destruct (dseg_last_node _ _ _ _ _ _ _ Hd) as (n & Hn & Hx & Hp & Hnx).
  pose proof (dseg_first _ _ _ _ _ Hd) as Hh.
  destruct (head lru) as [h|] eqn:Eh; [|by destruct l as [|[??]?]].
  destruct (Z.eqb_spec (size lru) 0); [lia|]. rewrite Ht; csimpl.
  unfold load; csimpl. rewrite Hn; csimpl.
  change (prev n) with (lk_prev n). rewrite Hp.
  rewrite fmap_app in Hnd, Hdom; csimpl in *.
  pose proof Hnd as (Hnd' & Hda & _)%NoDup_app.
  rewrite dseg_app in Hd. destruct Hd as [Hd _]. simpl firstp in Hd.
  destruct l as [|[t y] l _] using rev_ind.
  - csimpl in *. eexists; split; [by rewrite <-Hx|]. split_and!; csimpl; try done; try lia.
    rewrite dom_delete_L, Hdom. set_solver.
  - rewrite lastp_snoc. csimpl.
    destruct (dseg_set_next _ _ _ _ _ _ _ None Hnd' Hd) as (m' & -> & Hd' & (n' & Em) & Hts).
    csimpl. eexists; split; [by rewrite <-Hx|]. split_and!; csimpl; try done; try lia.
    + apply dseg_frame_delete; [|done]. intros Hin. apply (Hda a Hin). set_solver.
    + by rewrite lastp_snoc.
    + rewrite dom_delete_L, Em, dom_insert_L, Hdom.
      apply elem_of_dom in Hts. rewrite Hdom in Hts.
      assert (a ∉ (l ++ [(t, y)]).*1) by (intros Hin; apply (Hda a Hin); set_solver).
      rewrite fmap_app in *; csimpl in *. set_solver.
Qed.

(** The unlinked node [a] becomes the head. *)
Lemma lru_link_front m h y l a x n :
  NoDup ((a, x) :: (h, y) :: l).*1 → dseg m None (Some h) ((h, y) :: l) None →
  m !! a = Some n → lk_data n = x →
  ∃ m', (m1 ← store (Some a) (set_prev None) m; m2 ← store (Some h) (set_prev (Some a)) m1;
         store (Some a) (set_next (Some h)) m2) = Ok m' ∧
    dseg m' None (Some a) ((a, x) :: (h, y) :: l) None ∧ dom m' = dom m.
Proof.
  intros Hnd Hd Hn Hx. csimpl in Hnd. apply NoDup_cons in Hnd as [Ha Hnd].
  pose proof Hnd as [Hh _]%NoDup_cons.
  rewrite (store_Some _ _ _ _ Hn); csimpl.
  assert (Hd1 : dseg (<[a:=set_prev None n]> m) None (Some h) ((h, y) :: l) None)
    by (by rewrite dseg_frame).
  destruct (dseg_set_prev _ None (Some a) h y l None Hh Hd1) as (m2 & -> & Hd2 & (n2 & Em) & Hs).
  csimpl. rewrite (store_Some _ a (set_prev None n))
    by (rewrite Em, lookup_insert_ne, lookup_insert_eq by set_solver; done).
  eexists; split; [done|]. split.
  - rewrite dseg_cons. split; [done|]. eexists. rewrite lookup_insert_eq. split; [done|].
    rewrite data_set_next, data_set_prev, prev_set_next, prev_set_prev, next_set_next.
    split_and!; try done. by rewrite dseg_frame.
  - rewrite Em, !dom_insert_L. apply elem_of_dom in Hs. rewrite dom_insert_L in Hs.
    apply elem_of_dom_2 in Hn. set_solver.
Qed.

(** Taking a node [a] that is not the head out of the list, as [lru_update] and
    [lru_delete] do. *)
Lemma lru_unlink lru l1 b y a x l2 n :
  lru_repr lru ((l1 ++ [(b, y)]) ++ (a, x) :: l2) → lru_mem lru !! a = Some n →
  ∃ m, (if decide (Some a = tail lru) then
          m ← store (prev n) (set_next None) (lru_mem lru); Ok (prev n, m)
        else
          m ← store (prev n) (set_next (next n)) (lru_mem lru);
          n' ← load (Some a) m;
          m ← store (next n') (set_prev (prev n')) m; Ok (tail lru, m))
       = Ok (lastp None ((l1 ++ [(b, y)]) ++ l2), m) ∧
    dseg m None (head lru) ((l1 ++ [(b, y)]) ++ l2) None ∧ m !! a = Some n ∧
    dom m = dom (lru_mem lru).
Proof.
  intros (Hnd & Hd & Ht & Hs & Hdom) Hn.
  destruct (dseg_node _ _ _ _ _ _ _ _ Hd) as (n' & Hn' & Hx & Hp & Hnx).
  rewrite Hn in Hn'. injection Hn' as <-. rewrite lastp_snoc in Hp.
  change (prev n) with (lk_prev n). change (next n) with (lk_next n). rewrite Hp, Hnx.
  rewrite Ht. destruct l2 as [|[c z] l2].
  - rewrite lastp_snoc. rewrite decide_True by done.
    rewrite fmap_app in Hnd; csimpl in Hnd. apply NoDup_app in Hnd as (Hnd & Hda & _).
    rewrite dseg_app in Hd. destruct Hd as [Hd _]. simpl firstp in Hd.
    destruct (dseg_set_next _ _ _ _ _ _ _ None Hnd Hd) as (m & -> & Hd' & (n1 & Em) & Hb).
    csimpl. exists m. rewrite app_nil_r. rewrite lastp_snoc. split_and!; try done.
    + rewrite Em, lookup_insert_ne; [done|]. intros ->. apply (Hda a); set_solver.
    + rewrite Em, dom_insert_L. apply elem_of_dom in Hb. set_solver.
  - rewrite decide_False.
    2: { intros E. rewrite lastp_app, !lastp_cons in E. symmetry in E.
         rewrite fmap_app in Hnd; csimpl in Hnd. apply NoDup_app in Hnd as (_ & _ & Hnd).
         apply NoDup_cons in Hnd as [Hnd _]. apply Hnd. unfold lastp in E.
         destruct (last l2.*1) as [e|] eqn:El; injection E as ->; [|set_solver].
         apply last_Some_elem_of in El. set_solver. }
    destruct (dseg_unlink _ _ _ _ _ _ _ _ _ _ _ _ Hnd Hd)
      as (m1 & m2 & E1 & Ha1 & E2 & Ha2 & Hdm & Hd').
    simpl firstp. rewrite E1; csimpl. rewrite (load_Some _ _ _ (Ha1 n Hn)); csimpl.
    change (prev n) with (lk_prev n). change (next n) with (lk_next n). rewrite Hp, Hnx.
    simpl firstp. rewrite E2; csimpl. exists m2. split_and!; try done; [|by apply Ha2].
    do 2 f_equal. by rewrite !lastp_app, !lastp_cons.
Qed.

Lemma lru_update_repr lru l1 a x l2 :
  lru_repr lru (l1 ++ (a, x) :: l2) →
  ∃ lru', lru_update lru (Some a) = Ok lru' ∧ lru_repr lru' ((a, x) :: l1 ++ l2).
Proof.
  intros H. pose proof H as (Hnd & Hd & Ht & Hs & Hdom).
  destruct (dseg_node _ _ _ _ _ _ _ _ Hd) as (n & Hn & Hx & _).
  pose proof (dseg_first _ _ _ _ _ Hd) as Hh. unfold lru_update.
  destruct l1 as [|[b y] l1 _] using rev_ind.
  { simpl in Hh. rewrite decide_True by done. eauto. }
  destruct (lru_unlink _ _ _ _ _ _ _ _ H Hn) as (m & Em & Hd' & Hm & Hdm).
  assert (Hnd' : NoDup ((a, x) :: (l1 ++ [(b, y)]) ++ l2).*1).
  { revert Hnd. apply NoDup_Permutation_proper.
    apply fmap_Permutation, Permutation_middle. }
  destruct (l1 ++ [(b, y)]) as [|[h w] l] eqn:El; [by destruct l1|].
  simpl in Hh. rewrite decide_False.
  2: { rewrite Hh. intros [= ->]. csimpl in Hnd'. apply NoDup_cons in Hnd' as [? _]. set_solver. }
  rewrite (load_Some _ _ _ Hn); csimpl. rewrite Em; csimpl.
  rewrite Hh in Hd' |- *. rewrite <-app_comm_cons in *.
  destruct (lru_link_front _ _ _ _ _ _ _ Hnd' Hd' Hm Hx) as (m' & Em' & Hd2 & Hdm2).
  destruct (store (Some a) (set_prev None) m) as [m1|]; csimpl in *; [|done].
  destruct (store (Some h) (set_prev (Some a)) m1) as [m2|]; csimpl in *; [|done].
  rewrite Em'; csimpl. eexists; split; [done|]. split_and!; csimpl; try done.
  - rewrite Hs. simpl. rewrite !length_app. simpl. lia.
  - rewrite Hdm2, Hdm, Hdom. csimpl. rewrite !fmap_app. csimpl. rewrite !list_to_set_app_L.
    csimpl. set_solver.
Qed.

Lemma lru_delete_repr lru l1 a x l2 :
  lru_repr lru (l1 ++ (a, x) :: l2) →
  ∃ lru', lru_delete lru (Some a) = Ok lru' ∧ lru_repr lru' (l1 ++ l2).
Proof.
  intros H. pose proof H as (Hnd & Hd & Ht & Hs & Hdom).
  destruct (dseg_node _ _ _ _ _ _ _ _ Hd) as (n & Hn & Hx & Hp & Hnx).
  pose proof (dseg_first _ _ _ _ _ Hd) as Hh. unfold lru_delete.
  assert (Hperm : NoDup ((a, x) :: l1 ++ l2).*1).
  { revert Hnd. apply NoDup_Permutation_proper.
    apply fmap_Permutation, Permutation_middle. }
  csimpl in Hperm. apply NoDup_cons in Hperm as [Hanot Hnd12].
  assert (Hdom' : ∀ m : gmap loc (NODE A), dom m = dom (lru_mem lru) →
    dom (delete a m) = list_to_set (l1 ++ l2).*1).
  { intros m E. rewrite dom_delete_L, E, Hdom. rewrite !fmap_app in *. csimpl.
    rewrite !list_to_set_app_L. csimpl. set_solver. }
  rewrite length_app in Hs; simpl in Hs.
  rewrite (load_Some _ _ _ Hn); csimpl.
  destruct l1 as [|[b y] l1 _] using rev_ind.
  - simpl in Hh. rewrite decide_True by done. csimpl in *.
    change (next n) with (lk_next n). rewrite Hnx.
    rewrite dseg_cons in Hd. destruct Hd as (_ & n' & Hn' & _ & _ & Hd).
    rewrite Hn in Hn'. injection Hn' as <-. rewrite Hnx in Hd.
    destruct l2 as [|[c z] l2]; csimpl in *.
    + eexists; split; [done|]. split_and!; csimpl; try done; try lia. by apply Hdom'.
    + destruct (dseg_set_prev _ _ None _ _ _ _ (proj1 (proj1 (NoDup_cons _ _) Hnd12)) Hd)
        as (m & -> & Hd' & (n1 & Em) & Hc).
      csimpl. eexists; split; [done|]. split_and!; csimpl; try done; try lia.
      * by apply dseg_frame_delete.
      * apply (Hdom' m). rewrite Em, dom_insert_L. apply elem_of_dom in Hc. set_solver.
  - destruct (lru_unlink _ _ _ _ _ _ _ _ H Hn) as (m & Em & Hd' & Hm & Hdm).
    rewrite decide_False.
    2: { rewrite Hh. intros E. apply Hanot. rewrite !fmap_app.
         destruct l1 as [|[h w] l1]; csimpl in E; injection E as ->; set_solver. }
    change (prev n) with (lk_prev n) in *. change (next n) with (lk_next n) in *.
    destruct (decide (Some a = tail lru)).
    + destruct (store (lk_prev n) _ _); csimpl in *; [|done]. injection Em as -> ->.
      eexists; split; [done|]. split_and!; csimpl; try done; [|rewrite !length_app in *; simpl in *; lia|by apply Hdom'].
      by apply dseg_frame_delete.
    + destruct (store (lk_prev n) _ _) as [m1|]; csimpl in *; [|done].
      destruct (load (Some a) m1) as [n'|]; csimpl in *; [|done].
      destruct (store (next n') _ _); csimpl in *; [|done]. injection Em as Et ->.
      eexists; split; [done|].
      split_and!; csimpl; try done; [|rewrite !length_app in *; simpl in *; lia|by apply Hdom'].
      by apply dseg_frame_delete.
Qed.

Lemma lru_free_repr lru l : lru_repr lru l → lru_free (S (length l)) lru = Ok ∅.
Proof.
  revert lru; induction l as [|[a x] l IH] using rev_ind; intros lru H.
  - simpl. rewrite (lru_pop_empty lru H); simpl. destruct H as (_ & _ & _ & _ & Hd).
    f_equal. by apply dom_empty_inv_L.
  - rewrite length_app, Nat.add_1_r.
    destruct (lru_pop_repr lru l a x H) as (lru' & E & H').
    cbn [lru_free]. rewrite E. csimpl. by apply IH.
Qed.

End repr.

(** ** Theorems *)

(** C30: on a well-formed LRU list, each of [lru_push], [lru_pop], [lru_update] and
    [lru_delete] (the last two with a node that is in the list) runs without
    touching a freed or NULL node and implements its specification on the list
    of entries: push adds at the front, update moves to the front, delete takes
    out, pop takes the least recently used entry; the result is well formed. *)
Theorem lru_refines_list {A} (o : lop A) (lru : LRU A) (l : list (loc * A)) :
  lru_repr lru l → live o l →
  ∃ out lru' l', lstep o lru = Ok (out, lru') ∧ lspec o out l l' ∧ lru_repr lru' l'.
Proof.
  intros H Hl. destruct o as [x| |a|a]; cbn [lstep live] in *.
  - destruct (lru_push_repr lru l x H) as (a & lru' & -> & Ha & H'). csimpl.
    eauto 8 using lspec.
  - destruct l as [|[a x] l _] using rev_ind.
    + rewrite (lru_pop_empty lru H). csimpl. eauto 8 using lspec.
    + destruct (lru_pop_repr lru l a x H) as (lru' & -> & H'). csimpl. eauto 8 using lspec.
  - apply list_elem_of_fmap in Hl as ([a' x] & -> & Hin).
    apply list_elem_of_split in Hin as (l1 & l2 & ->); cbn [fst].
    destruct (lru_update_repr lru l1 a' x l2 H) as (lru' & -> & H'). csimpl. eauto 8 using lspec.
  - apply list_elem_of_fmap in Hl as ([a' x] & -> & Hin).
    apply list_elem_of_split in Hin as (l1 & l2 & ->); cbn [fst].
    destruct (lru_delete_repr lru l1 a' x l2 H) as (lru' & -> & H'). csimpl. eauto 8 using lspec.
Qed.

Lemma lru_init_repr {A} : lru_repr (@lru_init A) [].
Proof. split_and!; try done. constructor. Qed.

Lemma lru_refines_list_witness :
  ∃ out (lru' : LRU Z) l', lstep (Push 5) lru_init = Ok (out, lru') ∧
    lspec (Push 5) out [] l' ∧ lru_repr lru' l'.
Proof. exact (lru_refines_list (Push 5) lru_init [] lru_init_repr I). Defined.

End Lru.
