(* ===== verification/LinkedList.v ===== *)
(** * The doubly linked list (include/data_struct/list.c)

    An insertion-ordered list with removal by node, used by the page-mapping
    FTL's garbage collector to hold the pages being moved. Removing the only node
    leaves [tail] pointing at freed memory; [list_insert] looks at [head] only, so
    the representation constrains [tail] on non-empty lists. *)
From S2P Require Export Links.

Local Open Scope Z_scope.

Module LinkedList.

(** ** Data *)

Record li_node (A : Type) := MkNode { data : A; prv : option loc; nxt : option loc }.
Arguments MkNode {A} _ _ _.
Arguments data {A} _.
Arguments prv {A} _.
Arguments nxt {A} _.

#[export] Instance li_node_link (A : Type) : DLink (li_node A) A.
Proof.
  refine {| lk_data := data; lk_next := nxt; lk_prev := prv;
            set_next p n := MkNode (data n) (prv n) p;
            set_prev p n := MkNode (data n) p (nxt n) |}; reflexivity.
Defined.

Record clist (A : Type) := MkList {
  size : Z; head : option loc; tail : option loc; li_mem : gmap loc (li_node A) }.
Arguments MkList {A} _ _ _ _.
Arguments size {A} _.
Arguments head {A} _.
Arguments tail {A} _.
Arguments li_mem {A} _.

(** ** Operations *)

Definition list_init {A} : clist A := MkList 0 None None ∅.

Definition new_li_node {A} (x : A) : li_node A := MkNode x None None.

Definition list_insert {A} (li : clist A) (x : A) : res (clist A) :=
  let t := malloc (li_mem li) in
  let m := <[t := new_li_node x]> (li_mem li) in
  match head li with
  | None => Ok (MkList (size li + 1) (Some t) (Some t) m)
  | Some _ =>
    m ← store (Some t) (set_prev (tail li)) m;
    m ← store (tail li) (set_next (Some t)) m;
    Ok (MkList (size li + 1) (head li) (Some t) m)
  end.

Definition list_delete_node {A} (li : clist A) (t : loc) : res (clist A) :=
  '(head', tail', m) ←
    (if decide (Some t = head li) then
       h ← load (head li) (li_mem li);
       match nxt h with
       | Some _ => m ← store (nxt h) (set_prev None) (li_mem li); Ok (nxt h, tail li, m)
       | None => Ok (None, tail li, li_mem li)
       end
     else if decide (Some t = tail li) then
       n ← load (tail li) (li_mem li);
       match prv n with
       | Some _ => m ← store (prv n) (set_next None) (li_mem li); Ok (head li, prv n, m)
       | None => Ok (head li, None, li_mem li)
       end
     else
       n ← load (Some t) (li_mem li);
       m ← store (prv n) (set_next (nxt n)) (li_mem li);
       m ← store (nxt n) (set_prev (prv n)) m;
       Ok (head li, tail li, m));
  _ ← deref (m !! t);
  Ok (MkList (size li - 1) head' tail' (delete t m)).

(** [for_each_list_node_safe(li,now,nxt) list_delete_node(li,now);] from the
    node [now] on, whose successor [lp] was read before the body ran. *)
Fixpoint list_free_loop {A} (fuel : nat) (now lp : option loc) (li : clist A) : res (clist A) :=
  match fuel with
  | O => Err OutOfFuel
  | S fuel' =>
    match now with
    | None => Ok li
    | Some t =>
      li ← list_delete_node li t;
      lp' ← match lp with Some _ => n ← load lp (li_mem li); Ok (nxt n) | None => Ok None end;
      list_free_loop fuel' lp lp' li
    end
  end.

Definition list_free {A} (fuel : nat) (li : clist A) : res (clist A) :=
  if size li =? 0 then Ok li
  else
    n ← load (head li) (li_mem li);
    list_free_loop fuel (head li) (nxt n) li.

(** ** Representation *)

Section repr.
Context {A : Type}.
Implicit Types (l : list (loc * A)) (li : clist A).

Definition list_repr li l : Prop :=
  NoDup l.*1 ∧ dseg (li_mem li) None (head li) l None ∧ (l ≠ [] → tail li = lastp None l) ∧
  size li = Z.of_nat (length l) ∧ dom (li_mem li) = list_to_set l.*1.

Lemma list_init_repr : list_repr list_init [].
Proof. split_and!; try done. constructor. Qed.

Lemma list_insert_repr li l x :
  list_repr li l → ∃ a li', list_insert li x = Ok li' ∧ (a ∉ l.*1) ∧ list_repr li' (l ++ [(a, x)]).
Proof.
  intros (Hnd & Hd & Ht & Hs & Hdom). unfold list_insert.
  set (a := malloc (li_mem li)). assert (Ha : a ∉ l.*1).
  { pose proof (malloc_fresh (li_mem li)) as Hf. fold a in Hf. rewrite Hdom in Hf. set_solver. }
  exists a. pose proof (dseg_first _ _ _ _ _ Hd) as Hh.
  destruct l as [|[t y] l _] using rev_ind.
  - simpl in Hh. rewrite Hh. eexists; split_and!; [done..|]. split_and!; csimpl in *; try done; try lia.
    + apply NoDup_singleton.
    + rewrite dseg_cons. split; [done|]. eexists. by rewrite lookup_insert_eq.
    + rewrite dom_insert_L, Hdom. set_solver.
  - rewrite Ht in * by (by destruct l). rewrite lastp_snoc.
    destruct (head li) as [h|] eqn:Eh; [|by destruct l as [|[??]?]].
    assert (Hat : a ≠ t) by (intros ->; apply Ha; rewrite fmap_app; set_solver).
    rewrite (store_Some _ a (new_li_node x)) by apply lookup_insert_eq. csimpl.
    assert (Hd1 : dseg (<[a:=set_prev (Some t) (new_li_node x)]>
      (<[a:=new_li_node x]> (li_mem li))) None (Some h) (l ++ [(t, y)]) None)
      by (by rewrite !dseg_frame).
    destruct (dseg_set_next _ _ _ _ _ _ _ (Some a) Hnd Hd1) as (m & -> & Hd2 & (n & Em) & Hts).
    csimpl. eexists; split_and!; [done..|]. split_and!; csimpl; try done.
    + rewrite fmap_app; csimpl. apply NoDup_app. split_and!; [done| |apply NoDup_singleton].
      intros b Hb Hb'. apply list_elem_of_singleton in Hb' as ->. done.
    + rewrite dseg_app. simpl firstp. rewrite lastp_snoc. split; [done|].
      rewrite dseg_cons. split; [done|]. eexists.
      rewrite Em, lookup_insert_ne, lookup_insert_eq by done. done.
    + intros _. by rewrite lastp_snoc.
    + rewrite Hs, !length_app. simpl. lia.
    + rewrite Em, !dom_insert_L, Hdom, !fmap_app. csimpl. rewrite !list_to_set_app_L. set_solver.
Qed.

Lemma list_delete_node_repr li l1 a x l2 :
  list_repr li (l1 ++ (a, x) :: l2) →
  ∃ li', list_delete_node li a = Ok li' ∧ list_repr li' (l1 ++ l2) ∧
    (l1 = [] → head li' = firstp l2 None).
Proof.
  intros (Hnd & Hd & Ht & Hs & Hdom). specialize (Ht ltac:(by destruct l1)).
  destruct (dseg_node _ _ _ _ _ _ _ _ Hd) as (n & Hn & Hx & Hp & Hnx).
  pose proof (dseg_first _ _ _ _ _ Hd) as Hh. unfold list_delete_node.
  assert (Hperm : NoDup ((a, x) :: l1 ++ l2).*1).
  { revert Hnd. apply NoDup_Permutation_proper. apply fmap_Permutation, Permutation_middle. }
  csimpl in Hperm. apply NoDup_cons in Hperm as [Hanot Hnd12].
  assert (Hdom' : ∀ m : gmap loc (li_node A), dom m = dom (li_mem li) →
    dom (delete a m) = list_to_set (l1 ++ l2).*1).
  { intros m E. rewrite dom_delete_L, E, Hdom. rewrite !fmap_app in *. csimpl.
    rewrite !list_to_set_app_L. csimpl. set_solver. }
  rewrite length_app in Hs; simpl in Hs.
  destruct l1 as [|[b y] l1 _] using rev_ind.
  - csimpl in *. rewrite Hh. rewrite decide_True by done. rewrite (load_Some _ _ _ Hn); csimpl.
    change (nxt n) with (lk_next n). rewrite Hnx.
    rewrite dseg_cons in Hd. destruct Hd as (_ & n' & Hn' & _ & _ & Hd).
    rewrite Hn in Hn'. injection Hn' as <-. rewrite Hnx in Hd.
    destruct l2 as [|[c z] l2]; csimpl in *.
    + rewrite Hn; csimpl. eexists; split; [done|]. split; [|done].
      split_and!; csimpl; try done; try lia. by apply Hdom'.
    + destruct (dseg_set_prev _ _ None _ _ _ _ (proj1 (proj1 (NoDup_cons _ _) Hnd12)) Hd)
        as (m & -> & Hd' & (n1 & Em) & Hc).
      csimpl. rewrite Em, lookup_insert_ne, Hn by set_solver. csimpl. rewrite <-Em.
      eexists; split; [done|]. split; [|done]. split_and!; csimpl; try done; try lia.
      * by apply dseg_frame_delete.
      * apply (Hdom' m). rewrite Em, dom_insert_L. apply elem_of_dom in Hc. set_solver.
  - rewrite lastp_snoc in Hp. rewrite decide_False.
    2: { rewrite Hh. intros E. apply Hanot. rewrite !fmap_app.
         destruct l1 as [|[h w] l1]; csimpl in E; injection E as ->; set_solver. }
    destruct l2 as [|[c z] l2].
    + rewrite lastp_snoc in Ht. rewrite Ht, decide_True by done.
      rewrite (load_Some _ _ _ Hn); csimpl. change (prv n) with (lk_prev n). rewrite Hp; csimpl.
      rewrite fmap_app in Hnd; csimpl in Hnd. apply NoDup_app in Hnd as (Hnd & Hda & _).
      rewrite dseg_app in Hd. destruct Hd as [Hd _]. simpl firstp in Hd.
      destruct (dseg_set_next _ _ _ _ _ _ _ None Hnd Hd) as (m & -> & Hd' & (n1 & Em) & Hb).
      csimpl. rewrite Em, lookup_insert_ne, Hn
        by (intros ->; apply (Hda a); set_solver). csimpl. rewrite <-Em. rewrite app_nil_r in *.
      eexists; split; [done|]. split; [|by destruct l1]. split_and!; csimpl; try done.
      * by apply dseg_frame_delete.
      * intros _. by rewrite lastp_snoc.
      * rewrite !length_app in *. simpl in *. lia.
      * apply Hdom'. rewrite Em, dom_insert_L. apply elem_of_dom in Hb. set_solver.
    + rewrite decide_False.
      2: { rewrite Ht. intros E. rewrite lastp_app, !lastp_cons in E. symmetry in E.
           apply Hanot. rewrite fmap_app. csimpl. unfold lastp in E.
           destruct (last l2.*1) as [e|] eqn:El; injection E as ->; [|set_solver].
           apply last_Some_elem_of in El. set_solver. }
      destruct (dseg_unlink _ _ _ _ _ _ _ _ _ _ _ _ Hnd Hd)
        as (m1 & m2 & E1 & Ha1 & E2 & Ha2 & Hdm & Hd').
      rewrite (load_Some _ _ _ Hn); csimpl.
      change (prv n) with (lk_prev n). change (nxt n) with (lk_next n). rewrite Hp, Hnx.
      simpl firstp. rewrite E1; csimpl. rewrite E2; csimpl. rewrite (Ha2 n Hn); csimpl.
      eexists; split; [done|]. split; [|by destruct l1]. split_and!; csimpl; try done.
      * apply dseg_frame_delete; [|done]. done.
      * intros _. rewrite Ht. by rewrite !lastp_app, !lastp_cons.
      * rewrite !length_app in *. simpl in *. lia.
      * by apply Hdom'.
Qed.

Lemma list_free_loop_repr li l :
  list_repr li l → ∀ fuel lp, (length l < fuel)%nat →
  lp = match l with [] => None | _ :: l' => firstp l' None end →
  ∃ li', list_free_loop fuel (head li) lp li = Ok li' ∧ li_mem li' = ∅ ∧ size li' = 0.
Proof.
  revert li. induction l as [|[a x] l IH]; intros li H fuel lp Hf ->;
    (destruct fuel as [|fuel]; [simpl in Hf; lia|]); pose proof H as (Hnd & Hd & Ht & Hs & Hdom);
    pose proof (dseg_first _ _ _ _ _ Hd) as Hh; simpl in Hh; cbn [list_free_loop]; rewrite Hh.
  - exists li. split_and!; [done| |done]. by apply dom_empty_inv_L.
  - destruct (list_delete_node_repr li [] a x l H) as (li' & -> & H' & Hh'). csimpl.
    rewrite <-(Hh' eq_refl). destruct l as [|[b y] l].
    + specialize (Hh' eq_refl). simpl in Hh'. rewrite Hh' in *. csimpl.
      destruct (IH li' H' fuel None) as (li2 & E & ?); [simpl in *; lia|done|].
      rewrite Hh' in E. eauto.
    + specialize (Hh' eq_refl). simpl in Hh'. rewrite Hh'.
      pose proof H' as (_ & Hd' & _). rewrite Hh' in Hd'. 
      pose proof Hd' as (_ & n & Hn & _ & _ & Hd'')%dseg_cons.
      rewrite (load_Some _ _ _ Hn); csimpl. apply dseg_first in Hd''.
      change (nxt n) with (lk_next n). rewrite Hd'', <-Hh'.
      apply IH; [done| simpl in *; lia | done].
Qed.

Lemma list_free_repr li l fuel :
  list_repr li l → (length l < fuel)%nat →
  ∃ li', list_free fuel li = Ok li' ∧ li_mem li' = ∅ ∧ size li' = 0.
Proof.
  intros H Hf. pose proof H as (_ & Hd & _ & Hs & Hdom). unfold list_free.
  destruct l as [|[a x] l].
  - rewrite Hs; simpl. exists li. split_and!; [done| |done]. by apply dom_empty_inv_L.
  - destruct (Z.eqb_spec (size li) 0) as [|Hz]; [simpl in *; lia|].
    pose proof (dseg_first _ _ _ _ _ Hd) as Hh. simpl in Hh.
    rewrite Hh in Hd |- *. pose proof Hd as (_ & n & Hn & _ & _ & Hd')%dseg_cons.
    rewrite (load_Some _ _ _ Hn); csimpl. rewrite <-Hh.
    eapply list_free_loop_repr; [done..|]. by apply dseg_first in Hd'.
Qed.

End repr.

(** ** Theorems *)

(** [list_insert] appends and [list_delete_node] removes exactly the given
    node, in any position (first, last, only, inner), without touching a freed
    or NULL node; both keep the list well formed. *)
Theorem list_ops_refine {A} (li : clist A) (l1 l2 : list (loc * A)) (a : loc) (x y : A) :
  list_repr li (l1 ++ (a, x) :: l2) →
  (∃ b li', list_insert li y = Ok li' ∧ list_repr li' ((l1 ++ (a, x) :: l2) ++ [(b, y)])) ∧
  (∃ li', list_delete_node li a = Ok li' ∧ list_repr li' (l1 ++ l2)).
Proof.
  intros H. split.
  - destruct (list_insert_repr li _ y H) as (b & li' & ? & _ & ?). eauto.
  - destruct (list_delete_node_repr li l1 a x l2 H) as (li' & ? & ? & _). eauto.
Qed.

Lemma list_ops_refine_witness :
  ∃ (li : clist Z) (a : loc), list_insert list_init 1 = Ok li ∧
  ∃ li', list_delete_node li a = Ok li' ∧ list_repr li' [].
Proof.
  destruct (list_insert_repr (A:=Z) list_init [] 1 list_init_repr) as (a & li & E & _ & Hr).
  exists li, a. split; [exact E|]. exact (proj2 (list_ops_refine li [] [] a 1 2 Hr)).
Defined.

(** [list_free] ends on every well-formed list, with enough iterations for
    its nodes, having deleted each node exactly once: nothing stays allocated. *)
Theorem list_free_releases_all {A} (li : clist A) (l : list (loc * A)) (fuel : nat) :
  list_repr li l → (length l < fuel)%nat →
  ∃ li', list_free fuel li = Ok li' ∧ li_mem li' = ∅ ∧ size li' = 0.
Proof. apply list_free_repr. Qed.

Lemma list_free_releases_all_witness :
  ∃ li', list_free 1 (@list_init Z) = Ok li' ∧ li_mem li' = ∅ ∧ size li' = 0.
Proof. exact (list_free_releases_all list_init [] 1 list_init_repr ltac:(simpl; lia)). Defined.

End LinkedList.
