(* ===== verification/MaxHeap.v ===== *)
(** * The max heap (include/data_struct/heap.c)

    The array heap the block managers pick garbage-collection victims with. The
    heap stores pointers [D] to client objects; the client's state is [St], and
    the three callbacks given to [mh_init] (the key of an object, and two that
    keep each object's back pointer [hptr]) are parameters. A heap node pointer
    [hn*] is its index in [body]; index 0 is not used by the heap. The keys the
    nodes cache ([cnt], a [uint64_t]) go stale when the objects change; the code
    refreshes them in [maxchild]. *)
From S2P Require Export Prelude.
From Stdlib Require Import Sorted.

Local Open Scope Z_scope.

Module MaxHeap.

Section heap.
Context {St D : Type}.
Context (get_cnt : St → D → Z).
Context (swap_hptr : D → D → St → St).
Context (assign_hptr : D → nat → St → St).

(** ** Data *)

Record hn := Hn { cnt : Z; data : option D }.
Record mh := Mh { body : list hn; size : Z; max : Z }.

(** A read and a write through a node pointer. *)
Definition bget (b : list hn) (i : nat) : res hn := deref (b !! i).
Definition bset (b : list hn) (i : nat) (x : hn) : res (list hn) :=
  if (i <? length b)%nat then Ok (<[i := x]> b) else Err Undefined.
Definition set_cnt (b : list hn) (i : nat) (c : Z) : res (list hn) :=
  n ← bget b i; bset b i (Hn c (data n)).

(** ** Operations *)

Definition mh_init (bn : nat) : mh := Mh (replicate (2 * (bn + 1)) (Hn 0 None)) 0 (Z.of_nat bn).

(** Refresh the key of the node [n] if it holds an object. *)
Definition refresh (s : St) (b : list hn) (n : nat) : res (list hn) :=
  x ← bget b n;
  match data x with
  | Some d => set_cnt b n (u64 (get_cnt s d))
  | None => Ok b
  end.

Definition maxchild (s : St) (b : list hn) (n : nat) : res (option nat * list hn) :=
  x ← bget b n;
  match data x with
  | None => Ok (None, b)
  | Some _ =>
    b ← refresh s b n;
    let lc := (n * 2)%nat in
    b ← refresh s b lc;
    let rc := (n * 2 + 1)%nat in
    b ← refresh s b rc;
    l ← bget b lc;
    r ← bget b rc;
    match data l, data r with
    | Some _, None => Ok (Some lc, b)
    | None, Some _ => Ok (Some rc, b)
    | Some _, Some _ => Ok (Some (if cnt l >? cnt r then lc else rc), b)
    | None, None => Ok (None, b)
    end
  end.

(** Exchange the contents of the nodes [n] and [p]; the key of [n] passes through
    an [int]. The result includes the two objects the back-pointer callback is
    then given: the one now in [n], the one now in [p]. *)
Definition swap_nodes (b : list hn) (n p : nat) : res (list hn * (D * D)) :=
  x ← bget b n;
  y ← bget b p;
  let temp := s32 (cnt x) in
  b ← set_cnt b n (cnt y);
  b ← set_cnt b p (u64 temp);
  b ← (z ← bget b n; bset b n (Hn (cnt z) (data y)));
  b ← (z ← bget b p; bset b p (Hn (cnt z) (data x)));
  d1 ← deref (data y);
  d2 ← deref (data x);
  Ok (b, (d1, d2)).

(** The loop of [mh_internal_update]: [idx] climbs towards the root while [n]
    stays the node it was called with. *)
Fixpoint update_loop (fuel : nat) (s : St) (b : list hn) (idx n chgd : nat)
  : res (nat * list hn * St) :=
  match fuel with
  | O => Err OutOfFuel
  | S fuel' =>
    if (1 <? idx)%nat then
      let p := (idx / 2)%nat in
      x ← bget b p;
      y ← bget b n;
      if cnt x <? cnt y then
        '(b, (dn, dp)) ← swap_nodes b n p;
        update_loop fuel' (swap_hptr dp dn s) b (idx / 2) n p
      else Ok (chgd, b, s)
    else Ok (chgd, b, s)
  end.

Definition mh_internal_update (s : St) (b : list hn) (n : nat) : res (nat * list hn * St) :=
  update_loop (S n) s b n n n.

Fixpoint mh_internal_downdate (fuel : nat) (s : St) (b : list hn) (chgd : nat)
  : res (nat * list hn * St) :=
  match fuel with
  | O => Err OutOfFuel
  | S fuel' =>
    '(child, b) ← maxchild s b chgd;
    match child with
    | None => Ok (chgd, b, s)
    | Some c =>
      x ← bget b c;
      y ← bget b chgd;
      if cnt x >? cnt y then
        '(b, (dc, dg)) ← swap_nodes b c chgd;
        mh_internal_downdate fuel' (swap_hptr dc dg s) b c
      else Ok (chgd, b, s)
    end
  end.

(** The loop of a downdate visits each level once: the length of the array is
    enough. *)
Definition downdate (s : St) (h : mh) (n : nat) : res (mh * St) :=
  '(_, b, s) ← mh_internal_downdate (S (length (body h))) s (body h) n;
  Ok (Mh b (size h) (max h), s).

Definition mh_insert (s : St) (h : mh) (x : D) (number : Z) : res (mh * St) :=
  if size h >? max h then Err Aborted
  else
    let n := Z.to_nat (size h + 1) in
    b ← bset (body h) n (Hn (u64 number) (Some x));
    '(_, b, s) ← mh_internal_update (assign_hptr x n s) b n;
    Ok (Mh b (size h + 1) (max h), s).

Definition mh_get_max (s : St) (h : mh) : res (option D * mh * St) :=
  r ← bget (body h) 1;
  if size h <? 0 then Err Undefined
  else
    let n := Z.to_nat (size h) in
    y ← bget (body h) n;
    b ← bset (body h) 1 (Hn (cnt r) (data y));
    y ← bget b n;
    b ← set_cnt b 1 (cnt y);
    y ← bget b n;
    b ← bset b n (Hn (cnt y) None);
    '(h', s) ← downdate s (Mh b (size h) (max h)) 1;
    Ok (data r, Mh (body h') (size h' - 1) (max h'), s).

Definition mh_update (s : St) (h : mh) (number : Z) (hptr : nat) : res (mh * St) :=
  p ← bget (body h) hptr;
  let temp := s32 (cnt p) in
  b ← set_cnt (body h) hptr (u64 number);
  if temp <? number then
    '(_, b, s) ← mh_internal_update s b hptr; Ok (Mh b (size h) (max h), s)
  else downdate s (Mh b (size h) (max h)) hptr.

Definition mh_insert_append (s : St) (h : mh) (x : D) : res (mh * St) :=
  if size h >? max h then Err Aborted
  else
    let n := Z.to_nat (size h + 1) in
    y ← bget (body h) n;
    b ← bset (body h) n (Hn (cnt y) (Some x));
    Ok (Mh b (size h + 1) (max h), assign_hptr x n s).

(** [int depth=1; while(all_size/=2){depth++;}] *)
Fixpoint heap_depth (fuel : nat) (all_size : Z) (depth : nat) : nat :=
  match fuel with
  | O => depth
  | S fuel' =>
    let all_size := Z.quot all_size 2 in
    if all_size =? 0 then depth else heap_depth fuel' all_size (S depth)
  end.

(** The inner loop: downdate the [k] nodes [j], [j+1], ... *)
Fixpoint construct_level (s : St) (h : mh) (j k : nat) : res (mh * St) :=
  match k with
  | O => Ok (h, s)
  | S k' => '(h, s) ← downdate s h j; construct_level s h (S j) k'
  end.

(** The outer loop, from level [i] up to the root. *)
Fixpoint construct_loop (s : St) (h : mh) (i : nat) : res (mh * St) :=
  match i with
  | O => Ok (h, s)
  | S i' =>
    let depth_start := (2 ^ i')%nat in
    let depth_end := (2 ^ i)%nat in
    '(h, s) ← construct_level s h depth_start (depth_end - depth_start);
    construct_loop s h i'
  end.

Definition mh_construct (s : St) (h : mh) : res (mh * St) :=
  construct_loop s h (heap_depth (Z.to_nat (Z.abs (size h))) (size h) 1 - 1).

End heap.

Arguments Hn {D} _ _.
Arguments Mh {D} _ _ _.
Arguments cnt {D} _.
Arguments data {D} _.
Arguments body {D} _.
Arguments size {D} _.
Arguments max {D} _.
(** ** Contents and order *)

Section props.
Context {St D : Type}.
Context (get_cnt : St → D → Z).
Implicit Types (b : list (hn (D:=D))) (s : St).

(** The object in node [i]. *)
Definition dat b (i : nat) : option D := b !! i ≫= data.

(** The objects of the heap, in array order. *)
Definition elems b : list D := omap data b.

(** Exactly the nodes 1..n hold objects. *)
Definition filled b (n : nat) : Prop := ∀ i, is_Some (dat b i) ↔ (1 <= i <= n)%nat.

(** The keys of the objects fit a non-negative [int]. *)
Definition keys_ok s b : Prop := ∀ i d, dat b i = Some d → 0 <= get_cnt s d < 2147483648.

(** The node [k] has no child with a larger key. *)
Definition ok s b (k : nat) : Prop :=
  ∀ c x y, (c = k * 2 ∨ c = k * 2 + 1)%nat → dat b k = Some x → dat b c = Some y →
    get_cnt s y <= get_cnt s x.

Lemma dat_data b b' : data <$> b' = data <$> b → ∀ i, dat b' i = dat b i.
Proof.
  intros E i. unfold dat. assert (H : (data <$> b') !! i = (data <$> b) !! i) by (by rewrite E).
  rewrite !list_lookup_fmap in H. destruct (b' !! i), (b !! i); naive_solver.
Qed.

Lemma bget_dat b i d : dat b i = Some d → ∃ c, b !! i = Some (Hn c (Some d)).
Proof. unfold dat. destruct (b !! i) as [[c o]|]; naive_solver. Qed.

Lemma dat_elem b i d : dat b i = Some d → d ∈ elems b.
Proof. intros [c H]%bget_dat. apply list_elem_of_omap. exists (Hn c (Some d)). split; [by eapply list_elem_of_lookup_2|done]. Qed.

Lemma dat_lt b i d : dat b i = Some d → (i < length b)%nat.
Proof. intros [c H]%bget_dat. by eapply lookup_lt_Some. Qed.

Lemma bset_Ok b i x : (i < length b)%nat → bset b i x = Ok (<[i := x]> b).
Proof. intros. unfold bset. by rewrite (proj2 (Nat.ltb_lt _ _)). Qed.

Lemma bget_Ok b i x : b !! i = Some x → bget b i = Ok x.
Proof. intros. unfold bget. by rewrite H. Qed.

Lemma set_cnt_Ok b i x c : b !! i = Some x → set_cnt b i c = Ok (<[i := Hn c (data x)]> b).
Proof.
  intros H. unfold set_cnt. rewrite (bget_Ok _ _ _ H); simpl.
  apply bset_Ok. by eapply lookup_lt_Some.
Qed.

Lemma fmap_data_insert b i x y : b !! i = Some x → data x = data y → data <$> <[i := y]> b = data <$> b.
Proof.
  intros H E. rewrite list_fmap_insert. apply list_insert_id. by rewrite list_lookup_fmap, H, <-E.
Qed.

(** [refresh] changes no object; it brings the key of its node up to date. *)
Lemma refresh_spec s b i :
  (i < length b)%nat → ∃ b', refresh get_cnt s b i = Ok b' ∧ data <$> b' = data <$> b ∧
    length b' = length b ∧ (∀ k, k ≠ i → b' !! k = b !! k) ∧
    (∀ d, dat b i = Some d → b' !! i = Some (Hn (u64 (get_cnt s d)) (Some d))).
Proof.
  intros [x Hx]%lookup_lt_is_Some. unfold refresh. rewrite (bget_Ok _ _ _ Hx); simpl.
  unfold dat. rewrite Hx; simpl. destruct (data x) as [d|] eqn:Ed.
  - rewrite (set_cnt_Ok _ _ _ _ Hx). eexists; split; [done|]. rewrite Ed. split_and!.
    + by apply (fmap_data_insert _ _ x).
    + apply length_insert.
    + intros k Hk. by apply list_lookup_insert_ne.
    + intros ? [= <-]. apply list_lookup_insert_eq. by eapply lookup_lt_Some.
  - exists b. naive_solver.
Qed.

Lemma u64_key s b i d : keys_ok s b → dat b i = Some d → u64 (get_cnt s d) = get_cnt s d.
Proof. intros H Hd. apply u64_id. specialize (H i d Hd). lia. Qed.

(** [maxchild] returns the child with the largest key, all keys refreshed. *)
Lemma maxchild_spec s b i d :
  (1 <= i)%nat → (i * 2 + 1 < length b)%nat → dat b i = Some d → keys_ok s b →
  ∃ r b', maxchild get_cnt s b i = Ok (r, b') ∧ data <$> b' = data <$> b ∧ length b' = length b ∧
    b' !! i = Some (Hn (get_cnt s d) (Some d)) ∧
    match r with
    | None => dat b (i * 2) = None ∧ dat b (i * 2 + 1) = None
    | Some c => (c = i * 2 ∨ c = i * 2 + 1)%nat ∧ ∃ dc,
        b' !! c = Some (Hn (get_cnt s dc) (Some dc)) ∧ dat b c = Some dc ∧
        ∀ c' dc', (c' = i * 2 ∨ c' = i * 2 + 1)%nat → dat b c' = Some dc' → get_cnt s dc' <= get_cnt s dc
    end.
Proof.
  intros Hi Hlen Hd Hk. destruct (bget_dat _ _ _ Hd) as [c0 Hx].
  unfold maxchild. rewrite (bget_Ok _ _ _ Hx); simpl.
  destruct (refresh_spec s b i ltac:(lia)) as (b1 & -> & E1 & L1 & F1 & R1); simpl.
  destruct (refresh_spec s b1 (i * 2) ltac:(lia)) as (b2 & -> & E2 & L2 & F2 & R2); simpl.
  destruct (refresh_spec s b2 (i * 2 + 1) ltac:(lia)) as (b3 & -> & E3 & L3 & F3 & R3); simpl.
  assert (H1 : ∀ k, dat b1 k = dat b k) by by apply dat_data.
  assert (H2 : ∀ k, dat b2 k = dat b k) by (apply dat_data; congruence).
  assert (H3 : ∀ k, dat b3 k = dat b k) by (apply dat_data; congruence).
  assert (Hi3 : b3 !! i = Some (Hn (get_cnt s d) (Some d))).
  { rewrite F3, F2 by lia. rewrite (R1 d Hd). by rewrite (u64_key s b i). }
  assert (Hl3 : ∀ dl, dat b (i * 2) = Some dl → b3 !! (i * 2)%nat = Some (Hn (get_cnt s dl) (Some dl))).
  { intros dl Hdl. rewrite F3 by lia. rewrite (R2 dl) by (by rewrite H1). by rewrite (u64_key s b (i * 2)). }
  assert (Hr3 : ∀ dr, dat b (i * 2 + 1) = Some dr →
    b3 !! (i * 2 + 1)%nat = Some (Hn (get_cnt s dr) (Some dr))).
  { intros dr Hdr. rewrite (R3 dr) by (by rewrite H2). by rewrite (u64_key s b (i * 2 + 1)). }
  destruct (lookup_lt_is_Some_2 b3 (i * 2) ltac:(lia)) as [xl Hxl].
  destruct (lookup_lt_is_Some_2 b3 (i * 2 + 1) ltac:(lia)) as [xr Hxr].
  rewrite (bget_Ok _ _ _ Hxl), (bget_Ok _ _ _ Hxr); simpl.
  pose proof (H3 (i * 2)%nat) as Dl. pose proof (H3 (i * 2 + 1)%nat) as Dr.
  unfold dat in Dl, Dr at 1. rewrite Hxl in Dl. rewrite Hxr in Dr. simpl in Dl, Dr.
  fold (dat b (i * 2)) in Dl. 
  destruct (data xl) as [dl|] eqn:El, (data xr) as [dr|] eqn:Er; symmetry in Dl, Dr;
    (eexists _, b3; split; [done|]); (split; [congruence|]); (split; [lia|]); (split; [done|]).
  - rewrite (Hl3 dl) in Hxl by done. rewrite (Hr3 dr) in Hxr by done. simplify_eq; simpl.
    destruct (Z.gtb_spec (get_cnt s dl) (get_cnt s dr)).
    + split; [by left|]. exists dl. split_and!; [by apply Hl3|done|].
      intros c' dc' [-> | ->] ?; simplify_eq; lia.
    + split; [by right|]. exists dr. split_and!; [by apply Hr3|done|].
      intros c' dc' [-> | ->] ?; simplify_eq; lia.
  - split; [by left|]. exists dl. split_and!; [by apply Hl3|done|].
    intros c' dc' [-> | ->] ?; simplify_eq; lia.
  - split; [by right|]. exists dr. split_and!; [by apply Hr3|done|].
    intros c' dc' [-> | ->] ?; simplify_eq; lia.
  - done.
Qed.

Lemma int_key c : 0 <= c < 2147483648 → u64 (s32 c) = c.
Proof. intros. rewrite s32_id, u64_id by lia. done. Qed.

(** Exchanging two nodes that hold objects. *)
Lemma swap_nodes_spec b i j x y d1 d2 :
  i ≠ j → b !! i = Some x → b !! j = Some y → data x = Some d1 → data y = Some d2 →
  0 <= cnt x < 2147483648 →
  swap_nodes b i j = Ok (<[j := x]> (<[i := y]> b), (d2, d1)).
Proof.
  intros Hne Hx Hy Ex Ey Hc. destruct x as [cx ox], y as [cy oy]; simpl in *; subst.
  pose proof (lookup_lt_Some _ _ _ Hx) as Li. pose proof (lookup_lt_Some _ _ _ Hy) as Lj.
  unfold swap_nodes. rewrite (bget_Ok _ _ _ Hx), (bget_Ok _ _ _ Hy); simpl.
  rewrite (set_cnt_Ok _ _ _ _ Hx); simpl.
  rewrite (set_cnt_Ok _ j (Hn cy (Some d2))) by (by rewrite list_lookup_insert_ne); simpl.
  rewrite (int_key cx) by done.
  rewrite (bget_Ok _ i (Hn cy (Some d1)))
    by (rewrite list_lookup_insert_ne by done; by apply list_lookup_insert_eq); simpl.
  rewrite bset_Ok by (rewrite !length_insert; done); simpl.
  rewrite (bget_Ok _ j (Hn cx (Some d2))).
  2: { rewrite list_lookup_insert_ne by done. apply list_lookup_insert_eq. by rewrite length_insert. }
  simpl. rewrite bset_Ok by (rewrite !length_insert; done); simpl. do 2 f_equal.
  rewrite (list_insert_insert_ne _ i j) by done.
  by rewrite !list_insert_insert_eq.
Qed.

Lemma swap_Permutation {X} (l : list X) i j x y :
  i ≠ j → l !! i = Some x → l !! j = Some y → <[j := x]> (<[i := y]> l) ≡ₚ l.
Proof.
  intros Hne Hx Hy. assert (Li := lookup_lt_Some _ _ _ Hx). assert (Lj := lookup_lt_Some _ _ _ Hy).
  apply Permutation_inj. split; [by rewrite !length_insert|].
  exists (λ k, if decide (k = i) then j else if decide (k = j) then i else k). split.
  - intros a c. repeat case_decide; congruence.
  - intros k. destruct (decide (k = i)) as [->|]; [|destruct (decide (k = j)) as [->|]].
    + rewrite list_lookup_insert_ne, list_lookup_insert_eq by done. done.
    + rewrite list_lookup_insert_eq by (by rewrite length_insert). done.
    + by rewrite !list_lookup_insert_ne.
Qed.

Lemma dat_swap b i j x y k :
  i ≠ j → b !! i = Some x → b !! j = Some y →
  dat (<[j := x]> (<[i := y]> b)) k =
    if decide (k = j) then dat b i else if decide (k = i) then dat b j else dat b k.
Proof.
  intros Hne Hx Hy. assert (Li := lookup_lt_Some _ _ _ Hx). assert (Lj := lookup_lt_Some _ _ _ Hy).
  unfold dat. destruct (decide (k = j)) as [->|]; [|destruct (decide (k = i)) as [->|]].
  - rewrite list_lookup_insert_eq by (by rewrite length_insert). by rewrite Hx.
  - rewrite list_lookup_insert_ne, list_lookup_insert_eq by done. by rewrite Hy.
  - by rewrite !list_lookup_insert_ne.
Qed.

Lemma ok_ext s s' b b' k :
  (∀ d, get_cnt s' d = get_cnt s d) → (∀ i, dat b' i = dat b i) → ok s b k → ok s' b' k.
Proof. unfold ok. intros Hs Hb H c x y Hc. rewrite !Hb, !Hs. by apply H. Qed.

Lemma keys_ok_ext s s' b b' :
  (∀ d, get_cnt s' d = get_cnt s d) → data <$> b' ≡ₚ data <$> b → keys_ok s b → keys_ok s' b'.
Proof.
  intros Hs Hp H i d Hd. rewrite Hs. destruct (bget_dat _ _ _ Hd) as [c Hc].
  assert (Hin : Some d ∈ data <$> b).
  { rewrite <-Hp. apply list_elem_of_fmap. exists (Hn c (Some d)). split; [done|].
    by eapply list_elem_of_lookup_2. }
  apply list_elem_of_fmap in Hin as ([c' o] & [= <-] & Hin).
  apply list_elem_of_lookup in Hin as [j Hj]. apply (H j). unfold dat. by rewrite Hj.
Qed.

Lemma elems_data b b' : data <$> b' ≡ₚ data <$> b → elems b' ≡ₚ elems b.
Proof.
  intros H. unfold elems.
  assert (E : ∀ l : list (hn (D:=D)), omap data l = omap id (data <$> l)).
  { induction l as [|[c [d|]] l IH]; csimpl; congruence. }
  rewrite !E. by rewrite H.
Qed.

End props.

(** ** Sifting down *)

Section sift.
Context {St D : Type}.
Context (get_cnt : St → D → Z).
Context (swap_hptr : D → D → St → St).
Context (swap_keys : ∀ a c s d, get_cnt (swap_hptr a c s) d = get_cnt s d).
Implicit Types (b : list (hn (D:=D))) (s : St).

(** Among the nodes [P], closed under children, only [p] may have a larger
    child: after the downdate from [p] none has. *)
Lemma downdate_spec fuel : ∀ s b p n (P : nat → Prop),
  (∀ k, P k → P (k * 2)%nat ∧ P (k * 2 + 1)%nat) →
  filled b n → (n * 2 + 1 < length b)%nat → keys_ok get_cnt s b →
  (1 <= p <= n)%nat → P p → (n < fuel + p)%nat →
  (∀ k, P k → k ≠ p → ok get_cnt s b k) →
  (∀ k c x y, P k → (p = k * 2 ∨ p = k * 2 + 1)%nat → (c = p * 2 ∨ c = p * 2 + 1)%nat →
     dat b k = Some x → dat b c = Some y → get_cnt s y <= get_cnt s x) →
  ∃ q b' s', mh_internal_downdate get_cnt swap_hptr fuel s b p = Ok (q, b', s') ∧
    length b' = length b ∧ filled b' n ∧ data <$> b' ≡ₚ data <$> b ∧
    (∀ d, get_cnt s' d = get_cnt s d) ∧ (∀ k, P k → ok get_cnt s b' k).
Proof.
  induction fuel as [|fuel IH]; intros s b p n P HP Hf Hl Hk Hp HPp Hfuel Hok Hgp; [lia|].
  destruct (proj2 (Hf p) Hp) as [d Hd].
  destruct (maxchild_spec get_cnt s b p d) as (r & b1 & E & Ed & El & Hb1 & Hr);
    [lia|lia|done|done|]. cbn [mh_internal_downdate]. rewrite E; simpl.
  assert (D1 : ∀ k, dat b1 k = dat b k) by by apply dat_data.
  assert (Hf1 : filled b1 n) by (intros i; rewrite D1; apply Hf).
  destruct r as [c|].
  - destruct Hr as (Hc & dc & Hbc & Hdc & Hmax).
    rewrite (bget_Ok _ _ _ Hbc), (bget_Ok _ _ _ Hb1); simpl.
    assert (Hcp : c ≠ p) by lia.
    assert (Hcn : (1 <= c <= n)%nat) by (apply Hf; eauto).
    assert (HPc : P c) by (destruct (HP p HPp), Hc; subst; done).
    destruct (Z.gtb_spec (get_cnt s dc) (get_cnt s d)) as [Hgt|Hle].
    + rewrite (swap_nodes_spec _ _ _ _ _ dc d Hcp Hbc Hb1) by (simpl; eauto; apply (Hk c); done).
      simpl. set (b2 := <[p:=_]> (<[c:=_]> b1)).
      assert (D2 : ∀ k, dat b2 k = if decide (k = p) then Some dc else
                                   if decide (k = c) then Some d else dat b k).
      { intros k. unfold b2. rewrite (dat_swap b1 c p) by done.
        repeat case_decide; subst; by rewrite D1. }
      assert (Hp2 : data <$> b2 ≡ₚ data <$> b).
      { rewrite <-Ed. unfold b2. by rewrite (swap_Permutation b1 c p) by done. }
      destruct (IH (swap_hptr d dc s) b2 c n P HP) as (q & b' & s' & -> & ? & ? & ? & Hs' & Hok').
      * intros i. rewrite D2. repeat case_decide; subst; [|naive_solver|apply Hf]. naive_solver.
      * unfold b2. rewrite !length_insert. lia.
      * eapply keys_ok_ext; [|exact Hp2|exact Hk]. intros. apply swap_keys.
      * lia.
      * done.
      * lia.
      * intros k HPk Hkc. intros c' x y Hc'. rewrite !swap_keys, !D2.
        destruct (decide (k = p)) as [->|Hkp].
        -- intros [= <-]. destruct (decide (c' = p)); [lia|].
           destruct (decide (c' = c)); [intros [= <-]; lia|]. intros Hy. by apply (Hmax c').
        -- rewrite decide_False by done. intros Hx Hy.
           destruct (decide (c' = p)) as [->|]; [injection Hy as <-; by apply (Hgp k c)|].
           destruct (decide (c' = c)) as [->|]; [lia|]. by apply (Hok k HPk Hkp c').
      * intros k c' x y HPk Hck Hcc. rewrite !swap_keys, !D2.
        assert (k = p) as -> by lia. rewrite decide_True by done. intros [= <-].
        rewrite !decide_False by lia. intros Hy. by apply (Hok c HPc Hcp c' dc y).
      * exists q, b', s'. split_and!; try done.
        -- unfold b2 in *. rewrite !length_insert in *. lia.
        -- by etrans.
        -- intros. by rewrite Hs', swap_keys.
        -- intros k HPk. eapply ok_ext; [|done|by apply Hok']. intros. by rewrite swap_keys.
    + eexists _, b1, s. split; [done|]. split_and!; try done; [by rewrite Ed|].
      intros k HPk. eapply ok_ext; [done|done|]. destruct (decide (k = p)) as [->|]; [|by apply Hok].
      intros c' x y Hc' Hx Hy. rewrite Hd in Hx. injection Hx as <-.
      specialize (Hmax c' y Hc' Hy). lia.
  - destruct Hr as [Hn1 Hn2]. eexists _, b1, s. split; [done|]. split_and!; try done; [by rewrite Ed|].
    intros k HPk. eapply ok_ext; [done|done|]. destruct (decide (k = p)) as [->|]; [|by apply Hok].
    intros c' x y [-> | ->]; congruence.
Qed.

(** A downdate ends on every heap, also on one that is not in order. *)
Lemma downdate_total fuel : ∀ s b p n, filled b n → (n * 2 + 1 < length b)%nat → keys_ok get_cnt s b →
  (1 <= p <= n)%nat → (n < fuel + p)%nat → ∃ r, mh_internal_downdate get_cnt swap_hptr fuel s b p = Ok r.
Proof.
  induction fuel as [|fuel IH]; intros s b p n Hf Hl Hk Hp Hfuel; [lia|].
  destruct (proj2 (Hf p) Hp) as [d Hd].
  destruct (maxchild_spec get_cnt s b p d) as (r & b1 & E & Ed & El & Hb1 & Hr); [lia|lia|done|done|].
  cbn [mh_internal_downdate]. rewrite E; simpl. destruct r as [c|]; [|by eexists].
  destruct Hr as (Hc & dc & Hbc & Hdc & _). rewrite (bget_Ok _ _ _ Hbc), (bget_Ok _ _ _ Hb1); simpl.
  assert (Hcn : (1 <= c <= n)%nat) by (apply Hf; eauto). assert (Hcp : c ≠ p) by lia.
  destruct (Z.gtb_spec (get_cnt s dc) (get_cnt s d)); [|by eexists].
  rewrite (swap_nodes_spec _ _ _ _ _ dc d Hcp Hbc Hb1) by (simpl; eauto; apply (Hk c); done). simpl.
  apply (IH _ _ c n); [|rewrite !length_insert; lia| |done|lia].
  - intros i. rewrite (dat_swap b1 c p) by done. repeat case_decide; subst; rewrite (dat_data _ _ Ed); apply Hf || naive_solver.
  - eapply keys_ok_ext; [intros; apply swap_keys| |exact Hk]. rewrite <-Ed. by rewrite (swap_Permutation b1 c p) by done.
Qed.

(** ** The heap as a bag of objects *)

(** A heap of [n] objects: they fill the nodes 1..n, and the array has room for
    the children of each. *)
Definition wf (h : mh (D:=D)) (n : nat) : Prop :=
  size h = Z.of_nat n ∧ filled (body h) n ∧ Z.of_nat n <= max h ∧
  Z.of_nat (length (body h)) = 2 * (max h + 1).

(** [h'] holds the same objects as [h], perhaps in other nodes. *)
Definition same_bag (h h' : mh (D:=D)) : Prop :=
  max h' = max h ∧ data <$> body h' ≡ₚ data <$> body h.

Lemma wf_room h n : wf h n → (n * 2 + 1 < length (body h))%nat.
Proof. intros (_ & _ & H1 & H2). lia. Qed.

Lemma downdate_wf s h p n (P : nat → Prop) :
  (∀ k, P k → P (k * 2)%nat ∧ P (k * 2 + 1)%nat) → wf h n → keys_ok get_cnt s (body h) →
  (1 <= p <= n)%nat → P p → (∀ k, P k → k ≠ p → ok get_cnt s (body h) k) →
  (∀ k, P k → ¬ (p = k * 2 ∨ p = k * 2 + 1)%nat) →
  ∃ h' s', downdate get_cnt swap_hptr s h p = Ok (h', s') ∧ wf h' n ∧ same_bag h h' ∧
    (∀ d, get_cnt s' d = get_cnt s d) ∧ (∀ k, P k → ok get_cnt s (body h') k).
Proof.
  intros HP Hwf Hk Hp HPp Hok Hno. pose proof (wf_room _ _ Hwf) as Hroom.
  destruct Hwf as (Hsz & Hf & Hm & Hl). unfold downdate.
  destruct (downdate_spec (S (length (body h))) s (body h) p n P HP Hf Hroom Hk Hp HPp)
    as (q & b' & s' & -> & Hl' & Hf' & Hperm & Hs' & Hok'); [lia|done| |].
  { intros k c x y HPk Hkp. exfalso. by apply (Hno k). }
  simpl. eexists _, s'. split; [done|]. split_and!; simpl; try done. 
  split_and!; simpl; try done. congruence.
Qed.

Lemma construct_level_spec k : ∀ s h j n st,
  (1 <= st <= j)%nat → (j + k = 2 * st)%nat → (2 * st <= S n)%nat → wf h n →
  keys_ok get_cnt s (body h) →
  (∀ m, (2 * st <= m ∨ st <= m < j)%nat → ok get_cnt s (body h) m) →
  ∃ h' s', construct_level get_cnt swap_hptr s h j k = Ok (h', s') ∧ wf h' n ∧ same_bag h h' ∧
    (∀ d, get_cnt s' d = get_cnt s d) ∧ (∀ m, (st <= m)%nat → ok get_cnt s (body h') m).
Proof.
  induction k as [|k IH]; intros s h j n st Hst Hj Hn Hwf Hk Hok; simpl.
  - exists h, s. split_and!; try done. intros m Hm. apply Hok. lia.
  - destruct (downdate_wf s h j n (λ m, 2 * st <= m ∨ st <= m <= j)%nat)
      as (h1 & s1 & -> & Hwf1 & [Hm1 Hp1] & Hs1 & Hok1); try done; try lia.
    { intros m Hm Hne. apply Hok. lia. }
    simpl. destruct (IH s1 h1 (S j) n st) as (h2 & s2 & -> & Hwf2 & [Hm2 Hp2] & Hs2 & Hok2);
      try done; try lia.
    { by eapply keys_ok_ext. }
    { intros m Hm. eapply ok_ext; [done|done|]. apply Hok1. lia. }
    exists h2, s2. split_and!; try done.
    + split; [congruence|by etrans].
    + intros d. by rewrite Hs2.
    + intros m Hm. eapply ok_ext; [|done|by apply Hok2]. intros. by rewrite Hs1.
Qed.

Lemma construct_loop_spec i : ∀ s h n,
  (2 ^ i <= S n)%nat → wf h n → keys_ok get_cnt s (body h) →
  (∀ m, (2 ^ i <= m)%nat → ok get_cnt s (body h) m) →
  ∃ h' s', construct_loop get_cnt swap_hptr s h i = Ok (h', s') ∧ wf h' n ∧ same_bag h h' ∧
    (∀ d, get_cnt s' d = get_cnt s d) ∧ (∀ m, (1 <= m)%nat → ok get_cnt s (body h') m).
Proof.
  induction i as [|i IH]; intros s h n Hi Hwf Hk Hok.
  - exists h, s. split_and!; try done. 
  - cbn [construct_loop]. rewrite Nat.pow_succ_r' in *.
    assert (Hpos : (1 <= 2 ^ i)%nat) by (pose proof (Nat.pow_nonzero 2 i); lia).
    destruct (construct_level_spec (2 * 2 ^ i - 2 ^ i) s h (2 ^ i) n (2 ^ i))
      as (h1 & s1 & -> & Hwf1 & [Hm1 Hp1] & Hs1 & Hok1); try done; try lia.
    { intros m Hm. apply Hok. lia. }
    simpl. destruct (IH s1 h1 n) as (h2 & s2 & -> & Hwf2 & [Hm2 Hp2] & Hs2 & Hok2); try done; try lia.
    { by eapply keys_ok_ext. }
    { intros m Hm. eapply ok_ext; [done|done|]. by apply Hok1. }
    exists h2, s2. split_and!; try done.
    + split; [congruence|by etrans].
    + intros d. by rewrite Hs2.
    + intros m Hm. eapply ok_ext; [|done|by apply Hok2]. intros. by rewrite Hs1.
Qed.

Lemma heap_depth_spec fuel : ∀ m d, 1 <= m < 2 ^ Z.of_nat fuel →
  ∃ e, heap_depth fuel m d = (d + e)%nat ∧ 2 ^ Z.of_nat e <= m < 2 ^ Z.of_nat (S e).
Proof.
  induction fuel as [|fuel IH]; intros m d Hm; [simpl in Hm; lia|].
  cbn [heap_depth]. rewrite Z.quot_div_nonneg by lia.
  rewrite Nat2Z.inj_succ, Z.pow_succ_r in Hm by lia.
  destruct (Z.eqb_spec (m / 2) 0) as [Hz|Hz].
  - exists 0%nat. split; [lia|]. simpl.
    Z.to_euclidean_division_equations. lia.
  - destruct (IH (m / 2) (S d)) as (e & -> & He).
    { Z.to_euclidean_division_equations. lia. }
    exists (S e). split; [lia|]. rewrite !(Nat2Z.inj_succ (S e)), !(Nat2Z.inj_succ e) in *.
    rewrite !Z.pow_succ_r in * by lia. Z.to_euclidean_division_equations. lia.
Qed.

(** [mh_construct] turns any filled array into a heap with the same objects. *)
Lemma mh_construct_spec s h n :
  wf h n → keys_ok get_cnt s (body h) →
  ∃ h' s', mh_construct get_cnt swap_hptr s h = Ok (h', s') ∧ wf h' n ∧ same_bag h h' ∧
    (∀ d, get_cnt s' d = get_cnt s d) ∧ (∀ m, (1 <= m)%nat → ok get_cnt s (body h') m).
Proof.
  intros Hwf Hk. unfold mh_construct. pose proof Hwf as (-> & Hf & _).
  destruct n as [|n].
  - simpl. exists h, s. split_and!; try done. intros m _ c x y _ Hx.
    destruct (proj1 (Hf m)); [by eauto|lia].
  - rewrite Z.abs_eq, Nat2Z.id by lia.
    destruct (heap_depth_spec (S n) (Z.of_nat (S n)) 1) as (e & -> & He).
    { split; [lia|]. apply Z.pow_gt_lin_r; lia. }
    replace (1 + e - 1)%nat with e by lia.
    rewrite <-!(Nat2Z.inj_pow 2) in He. rewrite Nat.pow_succ_r' in He.
    apply construct_loop_spec; [lia|done|done|].
    intros m Hm c x y Hc _ Hy. destruct (proj1 (Hf c)); [by eauto|lia].
Qed.

(** In a heap the root has the largest key. *)
Lemma root_max s b n i x y :
  filled b n → (∀ m, (1 <= m)%nat → ok get_cnt s b m) →
  dat b 1 = Some x → dat b i = Some y → get_cnt s y <= get_cnt s x.
Proof.
  intros Hf Hok Hx. revert y. induction i as [i IH] using lt_wf_ind. intros y Hy.
  assert (Hi : (1 <= i <= n)%nat) by (apply Hf; eauto).
  destruct (decide (i = 1%nat)) as [->|Hne]; [naive_solver|].
  pose proof (Nat.div_mod_eq i 2). pose proof (Nat.mod_upper_bound i 2).
  destruct (proj2 (Hf (i / 2)%nat)) as [z Hz]; [lia|].
  etrans; [|apply (IH (i / 2)%nat ltac:(lia) z Hz)].
  apply (Hok (i / 2)%nat ltac:(lia) i z y); [lia|done|done].
Qed.

Lemma dat_insert b i x k :
  (i < length b)%nat → dat (<[i := x]> b) k = if decide (k = i) then data x else dat b k.
Proof.
  intros Hi. unfold dat. case_decide; subst.
  - by rewrite list_lookup_insert_eq.
  - by rewrite list_lookup_insert_ne.
Qed.

(** The array after the root was overwritten by the last node, and the last node
    emptied. *)
Lemma elems_move_last b n x y :
  (1 <= n)%nat → b !! 1%nat = Some x → b !! n = Some y → is_Some (data x) → is_Some (data y) →
  ∃ d, data x = Some d ∧
    elems b ≡ₚ d :: elems (<[n := Hn (cnt y) None]> (<[1%nat := Hn (cnt y) (data y)]> b)).
Proof.
  intros Hge Hx Hy [d Hd] [e He]. exists d. split; [done|].
  assert (L1 := lookup_lt_Some _ _ _ Hx). assert (Ln := lookup_lt_Some _ _ _ Hy).
  assert (Hdel : ∀ (l : list (hn (D:=D))) i z w, l !! i = Some z → data z = Some w →
    ∀ c, elems l ≡ₚ w :: elems (<[i := Hn c None]> l)).
  { intros l i z w Hz Hw c. unfold elems.
    rewrite <-(take_drop_middle l i z Hz) at 1.
    rewrite insert_take_drop by (by eapply lookup_lt_Some).
    rewrite !omap_app. cbn. rewrite Hw. by rewrite Permutation_middle. }
  destruct (decide (n = 1%nat)) as [->|Hne].
  - rewrite Hx in Hy. injection Hy as <-. rewrite list_insert_insert_eq.
    by apply (Hdel b 1%nat x d).
  - rewrite (Hdel b 1%nat x d Hx Hd (cnt y)). f_equiv.
    rewrite (Hdel (<[1%nat:=Hn (cnt y) None]> b) n y e) by (try rewrite list_lookup_insert_ne; done).
    symmetry. rewrite (list_insert_insert_ne _ n 1) by done. 
    rewrite (Hdel (<[1%nat:=Hn (cnt y) (data y)]> (<[n:=Hn (cnt y) None]> b)) 1%nat
      (Hn (cnt y) (data y)) e) by (try apply list_lookup_insert_eq; rewrite ?length_insert; done).
    f_equiv. rewrite list_insert_insert_eq. by rewrite (list_insert_insert_ne _ 1 n) by done.
Qed.

(** Only the array matters to a downdate. *)
Lemma downdate_size s b sz sz' m i h' s' :
  downdate get_cnt swap_hptr s (Mh b sz m) i = Ok (h', s') →
  downdate get_cnt swap_hptr s (Mh b sz' m) i = Ok (Mh (body h') sz' m, s').
Proof.
  unfold downdate. cbn [body size max].
  destruct (mh_internal_downdate _ _ _ _ _ _) as [[[q b2] s2]|]; naive_solver.
Qed.

(** The part of [mh_get_max] before the downdate: the object of the last node
    moves to the root. *)
Lemma get_max_move s h n d e :
  wf h (S n) → dat (body h) 1 = Some d → dat (body h) (S n) = Some e →
  ∃ b, mh_get_max get_cnt swap_hptr s h
       = ('(h', s') ← downdate get_cnt swap_hptr s (Mh b (size h) (max h)) 1;
          Ok (Some d, Mh (body h') (size h' - 1) (max h'), s')) ∧
    length b = length (body h) ∧ elems (body h) ≡ₚ d :: elems b ∧
    ∀ k, dat b k = if decide (k = S n) then None else
                   if decide (k = 1%nat) then Some e else dat (body h) k.
Proof.
  intros Hwf Hd He. pose proof (wf_room _ _ Hwf) as Hroom. destruct Hwf as (Hsz & Hf & Hm & Hl).
  destruct (bget_dat _ _ _ Hd) as [c1 Hx]. destruct (bget_dat _ _ _ He) as [c2 Hy].
  set (c := if decide (n = 0%nat) then c1 else c2).
  assert (Hy1 : ∀ c0, ∃ o, <[1%nat:=Hn c0 (Some e)]> (body h) !! S n = Some (Hn (if decide (n = 0%nat) then c0 else c2) o)).
  { intros c0. case_decide as Hn0; subst.
    - exists (Some e). apply list_lookup_insert_eq. lia.
    - exists (Some e). by rewrite list_lookup_insert_ne by lia. }
  unfold mh_get_max. rewrite (bget_Ok _ _ _ Hx); simpl. rewrite Hsz.
  rewrite (proj2 (Z.ltb_ge _ _)) by lia. rewrite Nat2Z.id.
  rewrite (bget_Ok _ _ _ Hy); simpl. rewrite bset_Ok by lia; simpl.
  destruct (Hy1 c1) as [o1 Ho1]. rewrite (bget_Ok _ _ _ Ho1); simpl. fold c.
  rewrite (set_cnt_Ok _ 1%nat (Hn c1 (Some e))) by (apply list_lookup_insert_eq; lia); simpl.
  rewrite list_insert_insert_eq.
  destruct (Hy1 c) as [o2 Ho2]. rewrite (bget_Ok _ _ _ Ho2); simpl.
  rewrite bset_Ok by (rewrite length_insert; lia); simpl.
  replace (if decide (n = 0%nat) then c else c2) with c by (unfold c; by case_decide).
  eexists. split; [done|]. split; [by rewrite !length_insert|]. split.
  - destruct (elems_move_last (body h) (S n) (Hn c1 (Some d)) (Hn c2 (Some e)))
      as (d' & [= <-] & E); try done; [lia|]. rewrite E. cbn [cnt data]. f_equiv.
    unfold c. case_decide; [|done]. subst n. rewrite !list_insert_insert_eq.
    by replace c2 with c1 by congruence.
  - intros k. rewrite !dat_insert by (rewrite ?length_insert; lia). done.
Qed.

(** [mh_get_max] on a heap takes out an object with the largest key. *)
Lemma mh_get_max_spec s h n :
  wf h (S n) → keys_ok get_cnt s (body h) → (∀ m, (1 <= m)%nat → ok get_cnt s (body h) m) →
  ∃ d h' s', mh_get_max get_cnt swap_hptr s h = Ok (Some d, h', s') ∧ wf h' n ∧ max h' = max h ∧
    elems (body h) ≡ₚ d :: elems (body h') ∧ (∀ e, get_cnt s' e = get_cnt s e) ∧
    (∀ e, e ∈ elems (body h) → get_cnt s e <= get_cnt s d) ∧
    (∀ m, (1 <= m)%nat → ok get_cnt s (body h') m).
Proof.
  intros Hwf Hk Hok. pose proof (wf_room _ _ Hwf) as Hroom. pose proof Hwf as (Hsz & Hf & Hm & Hl).
  destruct (proj2 (Hf 1%nat)) as [d Hd]; [lia|]. destruct (proj2 (Hf (S n))) as [e He]; [lia|].
  destruct (get_max_move s h n d e Hwf Hd He) as (b & -> & Hlb & Hel & Hdb).
  assert (Hfb : filled b n).
  { intros k. rewrite Hdb. destruct (decide (k = S n)) as [->|H1].
    { split; [by intros [? ?]|lia]. }
    destruct (decide (k = 1%nat)) as [->|H2]; [split; [lia|by eauto]|].
    rewrite (Hf k). lia. }
  assert (Hkb : keys_ok get_cnt s b).
  { intros k z. rewrite Hdb. repeat case_decide; [done| |apply Hk]. intros [= <-]. by apply (Hk (S n)). }
  assert (Hmax : ∀ z, z ∈ elems (body h) → get_cnt s z <= get_cnt s d).
  { intros z Hz. apply list_elem_of_omap in Hz as ([cz oz] & Hin & Hz). simpl in Hz. subst oz.
    apply list_elem_of_lookup in Hin as [i Hi].
    apply (root_max s (body h) (S n) i d z Hf Hok Hd). unfold dat. by rewrite Hi. }
  assert (Hdown : ∃ h' s', downdate get_cnt swap_hptr s (Mh b (Z.of_nat n) (max h)) 1 = Ok (h', s') ∧
     wf h' n ∧ max h' = max h ∧ elems (body h') ≡ₚ elems b ∧ (∀ e, get_cnt s' e = get_cnt s e) ∧
     (∀ m, (1 <= m)%nat → ok get_cnt s (body h') m)).
  { destruct n as [|n].
    - exists (Mh b 0 (max h)), s. split; [|unfold wf; split_and!; simpl; rewrite ?Hlb; try done; try lia].
      2:{ intros m Hm1 c x y _ Hx. assert (1 <= m <= 0)%nat; [apply Hfb; eauto|lia]. }
      destruct (lookup_lt_is_Some_2 b 1) as [x Hx]; [lia|]. specialize (Hdb 1%nat).
      unfold dat in Hdb. rewrite Hx in Hdb. simpl in Hdb.
      unfold downdate, mh_internal_downdate, maxchild. cbn [body]. rewrite (bget_Ok _ _ _ Hx); simpl.
      by rewrite Hdb.
    - destruct (downdate_wf s (Mh b (Z.of_nat (S n)) (max h)) 1 (S n) (λ k, 1 <= k)%nat)
        as (h' & s' & Ed & Hwf' & [Hm' Hp'] & Hs' & Hok'); try done; try lia.
      + unfold wf; split_and!; simpl; rewrite ?Hlb; try done; lia.
      + intros k Hk1 Hne c' x y Hc'. cbn [body]. rewrite !Hdb.
        rewrite (decide_False (P:=k = 1%nat)) by done. intros Hx' Hy''.
        destruct (decide (k = S (S n))); [done|]. destruct (decide (c' = S (S n))); [done|].
        rewrite decide_False in Hy'' by lia. by apply (Hok k Hk1 c').
      + exists h', s'. split_and!; try done; try apply Hwf'. by apply elems_data. }
  destruct Hdown as (h' & s' & Ed & Hwf' & Hm' & Hp' & Hs' & Hok').
  apply downdate_size with (sz' := size h) in Ed. rewrite Ed. simpl.
  eexists d, _, s'. split; [done|]. split_and!; simpl; try done.
  - destruct Hwf' as (? & ? & ? & ?). split_and!; simpl; try done; lia.
  - by rewrite Hel, Hp'.
Qed.

(** An object in the next free node *)
Lemma new_node h n c x : wf h n → Z.of_nat n < max h →
  filled (<[S n := Hn c (Some x)]> (body h)) (S n) ∧ elems (<[S n := Hn c (Some x)]> (body h)) ≡ₚ x :: elems (body h).
Proof.
  intros Hwf Hlt. pose proof (wf_room _ _ Hwf) as Hroom. destruct Hwf as (_ & Hf & _ & Hl).
  destruct (lookup_lt_is_Some_2 (body h) (S n)) as [[c' o] Hx]; [lia|].
  assert (o = None) as ->.
  { destruct o as [d|]; [|done]. assert (1 <= S n <= n)%nat; [|lia].
    apply Hf. unfold dat. rewrite Hx. by eexists. }
  split.
  - intros k. rewrite dat_insert by lia. case_decide; subst.
    + split; [lia|by eauto].
    + rewrite (Hf k). lia.
  - unfold elems. rewrite insert_take_drop by lia.
    rewrite <-(take_drop_middle (body h) (S n) (Hn c' None) Hx) at 3.
    rewrite !omap_app. cbn. by rewrite Permutation_middle.
Qed.

(** [mh_insert_append] puts the object in the next free node. *)
Lemma mh_insert_append_spec assign_hptr s h n x :
  wf h n → Z.of_nat n < max h →
  ∃ h', mh_insert_append assign_hptr s h x = Ok (h', assign_hptr x (S n) s) ∧
    wf h' (S n) ∧ max h' = max h ∧ elems (body h') ≡ₚ x :: elems (body h).
Proof.
  intros Hwf Hlt. pose proof (wf_room _ _ Hwf) as Hroom. pose proof Hwf as (Hsz & Hf & Hm & Hl).
  unfold mh_insert_append. rewrite Hsz, Z.gtb_ltb, (proj2 (Z.ltb_ge _ _)) by lia.
  replace (Z.to_nat (Z.of_nat n + 1)) with (S n) by lia.
  destruct (lookup_lt_is_Some_2 (body h) (S n)) as [[c o] Hx]; [lia|].
  rewrite (bget_Ok _ _ _ Hx); simpl. rewrite bset_Ok by lia; simpl.
  destruct (new_node h n c x Hwf Hlt) as [Hf' He].
  eexists; split; [done|]. unfold wf. split_and!; simpl; rewrite ?length_insert; try done; lia.
Qed.

Lemma elems_keys s b : keys_ok get_cnt s b ↔ ∀ d, d ∈ elems b → 0 <= get_cnt s d < 2147483648.
Proof.
  split.
  - intros H d Hd. apply list_elem_of_omap in Hd as ([c o] & Hin & E). simpl in E. subst o.
    apply list_elem_of_lookup in Hin as [i Hi]. apply (H i). unfold dat. by rewrite Hi.
  - intros H i d [c Hd]%bget_dat. apply H. apply list_elem_of_omap.
    exists (Hn c (Some d)). split; [|done]. by eapply list_elem_of_lookup_2.
Qed.

Lemma mh_init_wf bn : wf (mh_init bn) 0 ∧ elems (body (mh_init (D:=D) bn)) = [].
Proof.
  split.
  - unfold wf, mh_init; simpl size; simpl max; cbn [body]. rewrite length_replicate.
    split_and!; try lia. intros i. split; [|lia]. unfold dat.
    destruct (_ !! i) as [x|] eqn:E; [|by intros []].
    apply lookup_replicate in E as [-> _]. by intros [].
  - unfold elems, mh_init. cbn [body]. by induction (2 * (bn + 1))%nat.
Qed.

(** ** Filling, building and emptying a heap *)

Context (assign_hptr : D → nat → St → St).

(** The objects [ds] appended one after the other. *)
Fixpoint append_all (s : St) (h : mh) (ds : list D) : res (mh * St) :=
  match ds with
  | [] => Ok (h, s)
  | d :: ds => '(h, s) ← mh_insert_append assign_hptr s h d; append_all s h ds
  end.

(** [k] calls of [mh_get_max]: the objects in the order they come out. *)
Fixpoint drain (k : nat) (s : St) (h : mh) : res (list D * mh * St) :=
  match k with
  | O => Ok ([], h, s)
  | S k =>
    '(o, h, s) ← mh_get_max get_cnt swap_hptr s h;
    d ← deref o;
    '(ds, h, s) ← drain k s h;
    Ok (d :: ds, h, s)
  end.

Hypothesis assign_keys : ∀ x i s d, get_cnt (assign_hptr x i s) d = get_cnt s d.

Lemma append_all_spec ds : ∀ s h n,
  wf h n → Z.of_nat (n + length ds) <= max h →
  ∃ h' s', append_all s h ds = Ok (h', s') ∧ wf h' (n + length ds) ∧ max h' = max h ∧
    elems (body h') ≡ₚ ds ++ elems (body h) ∧ (∀ e, get_cnt s' e = get_cnt s e).
Proof.
  induction ds as [|d ds IH]; intros s h n Hwf Hle; simpl in *.
  { exists h, s. by rewrite Nat.add_0_r. }
  destruct (mh_insert_append_spec assign_hptr s h n d) as (h1 & -> & Hwf1 & Hm1 & He1); [done|lia|].
  simpl. destruct (IH (assign_hptr d (S n) s) h1 (S n)) as (h2 & s2 & -> & Hwf2 & Hm2 & He2 & Hs2);
    [done|lia|].
  exists h2, s2. split_and!; try done; try congruence.
  - by rewrite Nat.add_succ_r.
  - rewrite He2, He1. by rewrite Permutation_middle.
Qed.

Lemma drain_spec n : ∀ s h,
  wf h n → keys_ok get_cnt s (body h) → (∀ m, (1 <= m)%nat → ok get_cnt s (body h) m) →
  ∃ ds h' s', drain n s h = Ok (ds, h', s') ∧ ds ≡ₚ elems (body h) ∧ wf h' 0 ∧ 
    StronglySorted (λ x y, get_cnt s y <= get_cnt s x) ds.
Proof.
  induction n as [|n IH]; intros s h Hwf Hk Hok; simpl.
  - exists [], h, s. split_and!; try done; [|constructor].
    unfold elems. destruct Hwf as (_ & Hf & _). unfold filled in Hf.
    destruct (omap data (body h)) as [|d l] eqn:E; [done|]. exfalso.
    assert (Hd : d ∈ omap data (body h)) by (rewrite E; by left).
    apply list_elem_of_omap in Hd as ([c o] & [i Hi]%list_elem_of_lookup & Ho). simpl in Ho. subst o.
    assert (1 <= i <= 0)%nat; [|lia]. apply Hf. unfold dat. rewrite Hi. by eexists.
  - destruct (mh_get_max_spec s h n Hwf Hk Hok)
      as (d & h1 & s1 & -> & Hwf1 & _ & He & Hs1 & Hmax & Hok1); simpl.
    assert (Hk1 : keys_ok get_cnt s1 (body h1)).
    { apply elems_keys. intros e Hin. rewrite Hs1. revert e Hin.
      intros e Hin. apply (proj1 (elems_keys s (body h)) Hk). rewrite He. by right. }
    destruct (IH s1 h1 Hwf1 Hk1) as (ds & h2 & s2 & -> & Hp & Hwf2 & Hss); simpl.
    { intros m Hm c x y Hc Hx Hy. rewrite !Hs1. by apply (Hok1 m Hm c). }
    eexists _, h2, s2. split; [done|]. split_and!; try done.
    + by rewrite Hp, He.
    + constructor.
      * clear -Hss Hs1. induction Hss as [|x l _ IH Hall]; constructor; [done|].
        eapply Forall_impl; [exact Hall|]. intros y. by rewrite !Hs1.
      * apply Forall_forall. intros e Hin. apply Hmax. rewrite He. right. by rewrite <-Hp.
Qed.

End sift.
(** Nothing comes out of an empty heap. *)
Lemma mh_get_max_empty {St D} get_cnt swap_hptr (s s' : St) (h h' : mh (D:=D)) o :
  filled (body h) 0 → mh_get_max get_cnt swap_hptr s h = Ok (o, h', s') → o = None.
Proof.
  intros Hf E. unfold mh_get_max in E. apply res_bind_Ok in E as (r & Er & E).
  assert (Hr : data r = None).
  { unfold bget in Er. apply deref_Ok in Er. destruct (data r) as [d|] eqn:Ed; [|done].
    assert (1 <= 1 <= 0)%nat; [|lia]. apply Hf. unfold dat. rewrite Er. by exists d. }
  destruct (size h <? 0); [done|]. do 6 apply res_bind_Ok in E as (? & _ & E).
  apply res_bind_Ok in E as ([h1 s1] & _ & E). by simplify_eq.
Qed.

(** ** The client's state *)

(** Whatever the back-pointer callbacks keep of the client's state, building a
    heap and taking its maximum keep. *)
Section preserve.
Context {St D : Type} (get_cnt : St → D → Z) (swap_hptr : D → D → St → St) (P : St → Prop).
Hypothesis swap_P : ∀ a c s, P s → P (swap_hptr a c s).

Lemma internal_downdate_pres fuel : ∀ s b i r b' s',
  mh_internal_downdate get_cnt swap_hptr fuel s b i = Ok (r, b', s') → P s → P s'.
Proof.
  induction fuel as [|fuel IH]; intros s b i r b' s' E Hs; cbn [mh_internal_downdate] in E; [done|].
  apply res_bind_Ok in E as ([child b1] & _ & E). destruct child as [c|]; [|by simplify_eq].
  apply res_bind_Ok in E as (x & _ & E). apply res_bind_Ok in E as (y & _ & E).
  destruct (_ >? _); [|by simplify_eq].
  apply res_bind_Ok in E as ([b2 [d1 d2]] & _ & E). by apply IH in E; [|apply swap_P].
Qed.

Lemma downdate_pres s h i h' s' : downdate get_cnt swap_hptr s h i = Ok (h', s') → P s → P s'.
Proof.
  unfold downdate. intros E Hs. apply res_bind_Ok in E as ([[r b] s1] & E1 & E). simplify_eq.
  by eapply internal_downdate_pres.
Qed.

Lemma construct_level_pres k : ∀ s h j h' s',
  construct_level get_cnt swap_hptr s h j k = Ok (h', s') → P s → P s'.
Proof.
  induction k as [|k IH]; intros s h j h' s' E Hs; cbn [construct_level] in E; [by simplify_eq|].
  apply res_bind_Ok in E as ([h1 s1] & E1 & E). eapply IH; [done|]. by eapply downdate_pres.
Qed.

Lemma mh_construct_pres s h h' s' :
  mh_construct get_cnt swap_hptr s h = Ok (h', s') → P s → P s'.
Proof.
  unfold mh_construct. generalize (heap_depth (Z.to_nat (Z.abs (size h))) (size h) 1 - 1)%nat as i.
  intros i. revert s h. induction i as [|i IH]; intros s h E Hs; cbn [construct_loop] in E; [by simplify_eq|].
  apply res_bind_Ok in E as ([h1 s1] & E1 & E). eapply IH; [done|]. by eapply construct_level_pres.
Qed.

Lemma mh_get_max_pres s h o h' s' :
  mh_get_max get_cnt swap_hptr s h = Ok (o, h', s') → P s → P s'.
Proof.
  unfold mh_get_max. intros E Hs. apply res_bind_Ok in E as (r & _ & E).
  destruct (size h <? 0); [done|]. do 6 apply res_bind_Ok in E as (? & _ & E).
  apply res_bind_Ok in E as ([h1 s1] & E1 & E). simplify_eq. by eapply downdate_pres.
Qed.

End preserve.

(** ** Properties *)

(** C27: the victim order. Objects appended to a new heap that is large enough,
    then [mh_construct], then one [mh_get_max] per object: the calls return
    exactly the objects, in decreasing order of key, and leave the heap empty.
    The callbacks only have to keep the keys unchanged, and the keys to be
    non-negative [int]s. *)
Theorem heap_sorts {St D : Type} (get_cnt : St → D → Z) (swap_hptr : D → D → St → St)
    (assign_hptr : D → nat → St → St) (s : St) (bn : nat) (ds : list D) :
  (∀ a c s d, get_cnt (swap_hptr a c s) d = get_cnt s d) →
  (∀ x i s d, get_cnt (assign_hptr x i s) d = get_cnt s d) →
  (length ds <= bn)%nat → (∀ d, d ∈ ds → 0 <= get_cnt s d < 2147483648) →
  ∃ out h s',
    ('(h, s) ← append_all assign_hptr s (mh_init bn) ds;
     '(h, s) ← mh_construct get_cnt swap_hptr s h;
     drain get_cnt swap_hptr (length ds) s h) = Ok (out, h, s') ∧
    out ≡ₚ ds ∧ StronglySorted (λ x y, get_cnt s y <= get_cnt s x) out ∧ wf h 0.
Proof.
  intros Hswap Hassign Hlen Hkeys. destruct (mh_init_wf (D:=D) bn) as [Hw0 He0].
  destruct (append_all_spec get_cnt assign_hptr Hassign ds s (mh_init bn) 0 Hw0)
    as (h1 & s1 & -> & Hw1 & _ & He1 & Hs1); [simpl; lia|]. simpl in *.
  rewrite He0, app_nil_r in He1.
  assert (Hk1 : keys_ok get_cnt s1 (body h1)).
  { apply elems_keys. intros d. rewrite He1, Hs1. apply Hkeys. }
  destruct (mh_construct_spec get_cnt swap_hptr Hswap s1 h1 (length ds) Hw1 Hk1)
    as (h2 & s2 & -> & Hw2 & [_ Hbag] & Hs2 & Hok2); simpl. apply elems_data in Hbag.
  destruct (drain_spec get_cnt swap_hptr Hswap (length ds) s2 h2 Hw2)
    as (out & h3 & s3 & -> & Hp & Hw3 & Hss).
  - apply elems_keys. intros d. rewrite Hbag, He1, Hs2, Hs1. apply Hkeys.
  - intros m Hm c x y Hc Hx Hy. rewrite !Hs2. by apply (Hok2 m Hm c).
  - exists out, h3, s3. split_and!; try done; [by rewrite Hp, Hbag|].
    clear -Hss Hs1 Hs2. induction Hss as [|x l _ IH Hall]; constructor; [done|].
    eapply Forall_impl; [exact Hall|]. intros y. by rewrite !Hs2, !Hs1.
Qed.

(** The keys 3, 7, 1, 9, 4 in a heap for eight objects. *)
Lemma heap_sorts_witness :
  ∃ out h s',
    ('(h, s) ← append_all (λ _ _ s, s) tt (mh_init 8) [3; 7; 1; 9; 4];
     '(h, s) ← mh_construct (λ _ d, d) (λ _ _ s, s) s h;
     drain (λ _ d, d) (λ _ _ s, s) 5 s h) = Ok (out, h, s') ∧
    out ≡ₚ [3; 7; 1; 9; 4] ∧ StronglySorted (λ x y : Z, y <= x) out ∧ wf h 0.
Proof.
  apply (heap_sorts (λ (_ : ()) d, d) (λ _ _ s, s) (λ _ _ s, s) tt 8 [3; 7; 1; 9; 4]);
    [done|done|simpl; lia|].
  intros d Hd. set_unfold. lia.
Defined.

(** A heap in order whose counters are up to date *)
Definition in_order {St D} (get_cnt : St → D → Z) (s : St) (h : mh (D:=D)) : Prop :=
  (∀ m, (1 <= m)%nat → ok get_cnt s (body h) m) ∧ ∀ i c d, body h !! i = Some (Hn c (Some d)) → c = get_cnt s d.

(** The new object climbs to its parent's node, and no further. *)
Lemma update_stops {St D} (get_cnt : St → D → Z) (swap_hptr : D → D → St → St) s (b : list (hn (D:=D))) (n : nat) x dp dg :
  (4 <= n)%nat → b !! n = Some (Hn (get_cnt s x) (Some x)) → b !! (n / 2)%nat = Some (Hn (get_cnt s dp) (Some dp)) →
  b !! (n / 4)%nat = Some (Hn (get_cnt s dg) (Some dg)) → get_cnt s dp < get_cnt s x → get_cnt s dp <= get_cnt s dg → 0 <= get_cnt s x < 2147483648 →
  mh_internal_update swap_hptr s b n =
    Ok ((n / 2)%nat, <[(n / 2)%nat := Hn (get_cnt s x) (Some x)]> (<[n := Hn (get_cnt s dp) (Some dp)]> b), swap_hptr x dp s).
Proof.
  intros Hge Hb Hp Hg Hlt Hle Hk. assert (Hd : (n / 2 ≠ n ∧ n / 4 ≠ n / 2 ∧ n / 4 ≠ n ∧ 1 < n / 2)%nat).
  { pose proof (Nat.div_mod_eq n 2). pose proof (Nat.div_mod_eq n 4). pose proof (Nat.mod_upper_bound n 2). pose proof (Nat.mod_upper_bound n 4). lia. }
  destruct Hd as (H1 & H2 & H3 & H4). unfold mh_internal_update. rename n into m. assert (Hfuel : ∃ f, S m = S (S f)) by (exists (m - 1)%nat; lia). destruct Hfuel as [f ->]. cbn [update_loop].
  rewrite (proj2 (Nat.ltb_lt 1 m)) by lia. rewrite (bget_Ok _ _ _ Hp), (bget_Ok _ _ _ Hb). rbind. cbn [cnt]. rewrite (proj2 (Z.ltb_lt _ _)) by done.
  rewrite (swap_nodes_spec b m (m / 2) _ _ x dp) by done. rbind.
  rewrite (proj2 (Nat.ltb_lt _ _) H4). rewrite Nat.Div0.div_div. change (2 * 2)%nat with 4%nat.
  rewrite (bget_Ok _ (m / 4) (Hn (get_cnt s dg) (Some dg))) by (by rewrite !list_lookup_insert_ne by congruence).
  rewrite (bget_Ok _ m (Hn (get_cnt s dp) (Some dp))) by (rewrite list_lookup_insert_ne by done; apply list_lookup_insert_eq; by eapply lookup_lt_Some).
  rbind. cbn [cnt]. by rewrite (proj2 (Z.ltb_ge _ _)).
Qed.

(** C36: [mh_insert] does not keep the heap order. [mh_internal_update] walks the
    index to the root but keeps comparing and exchanging the node it started
    from, so an object climbs one level only. On every heap in order with at least
    three objects and room for one more, an object with a key above all others is
    inserted, but the next [mh_get_max] returns another one, with a smaller key. *)
Theorem mh_insert_loses_maximum {St D : Type} (get_cnt : St → D → Z) (swap_hptr : D → D → St → St)
    (assign_hptr : D → nat → St → St) (s : St) (h : mh (D:=D)) (n : nat) (x : D) :
  (∀ a c s d, get_cnt (swap_hptr a c s) d = get_cnt s d) →
  (∀ x i s d, get_cnt (assign_hptr x i s) d = get_cnt s d) →
  wf h n → in_order get_cnt s h → (3 <= n)%nat → Z.of_nat n < max h → (∀ d, d ∈ elems (body h) → 0 <= get_cnt s d < get_cnt s x) → get_cnt s x < 2147483648 →
  ∃ h1 s1 r h2 s2, mh_insert swap_hptr assign_hptr s h x (get_cnt s x) = Ok (h1, s1) ∧ elems (body h1) ≡ₚ x :: elems (body h) ∧
    mh_get_max get_cnt swap_hptr s1 h1 = Ok (Some r, h2, s2) ∧ r ∈ elems (body h) ∧ get_cnt s r < get_cnt s x.
Proof.
  intros Hswap Hassign Hwf [Hok Hcnt] Hge Hmax Hnew Hx. pose proof (wf_room _ _ Hwf) as Hroom. pose proof Hwf as (Hsz & Hf & _ & Hl).
  assert (Hx0 : 0 <= get_cnt s x < 2147483648).
  { destruct (proj2 (Hf 1%nat)) as [d Hd]; [lia|]. pose proof (Hnew d (dat_elem _ _ _ Hd)). lia. }
  assert (Hnode : ∀ i, (1 <= i <= n)%nat → ∃ d, body h !! i = Some (Hn (get_cnt s d) (Some d)) ∧ d ∈ elems (body h)).
  { intros i Hi. destruct (proj2 (Hf i) Hi) as [d Hd]. exists d. split; [|by eapply dat_elem]. destruct (bget_dat _ _ _ Hd) as [c Hc]. by rewrite <-(Hcnt i c d Hc). }
  set (N := S n). assert (HN : (1 <= N / 4 <= n ∧ 1 <= N / 2 <= n ∧ N / 2 ≠ N ∧ N / 2 ≠ 1 ∧ (N / 2 = N / 4 * 2 ∨ N / 2 = N / 4 * 2 + 1))%nat).
  { unfold N. pose proof (Nat.div_mod_eq (S n) 2). pose proof (Nat.div_mod_eq (S n) 4). pose proof (Nat.mod_upper_bound (S n) 2). pose proof (Nat.mod_upper_bound (S n) 4). lia. }
  destruct HN as (Hn4 & Hn2 & Hne & Hne1 & Hpar). destruct (Hnode _ Hn4) as (dg & Hg & _), (Hnode _ Hn2) as (dp & Hp & Hpe), (Hnode 1%nat ltac:(lia)) as (r & Hr & Hre).
  destruct (new_node h n (get_cnt s x) x Hwf Hmax) as [Hf0 He0]. fold N in Hf0, He0. set (b0 := <[N := _]> (body h)) in *. set (s0 := assign_hptr x N s).
  set (b1 := <[(N / 2)%nat := Hn (get_cnt s x) (Some x)]> (<[N := Hn (get_cnt s dp) (Some dp)]> b0)).
  assert (Hb0 : b0 !! N = Some (Hn (get_cnt s x) (Some x))) by (apply list_lookup_insert_eq; unfold N; lia).
  assert (Hp0 : b0 !! (N / 2)%nat = Some (Hn (get_cnt s dp) (Some dp))) by (unfold b0; by rewrite list_lookup_insert_ne).
  assert (Ei : mh_insert swap_hptr assign_hptr s h x (get_cnt s x) = Ok (Mh b1 (Z.of_nat N) (max h), swap_hptr x dp s0)).
  { unfold mh_insert. rewrite Hsz, Z.gtb_ltb, (proj2 (Z.ltb_ge _ _)) by lia. replace (Z.to_nat (Z.of_nat n + 1)) with N by (unfold N; lia). rewrite u64_id by lia.
    rewrite bset_Ok by (unfold N; lia). rbind. fold b0 s0. assert (Hs0 : ∀ d, get_cnt s0 d = get_cnt s d) by (intros; apply Hassign).
    rewrite (update_stops get_cnt swap_hptr s0 b0 N x dp dg); rewrite ?Hs0; try done.
    - rbind. fold b1. do 3 f_equal. unfold N. lia.
    - unfold N. lia.
    - unfold b0. by rewrite list_lookup_insert_ne by (unfold N in *; lia).
    - by apply Hnew.
    - apply (Hok _ (proj1 Hn4) _ dg dp Hpar); unfold dat; by rewrite ?Hg, ?Hp. }
  assert (Hper : data <$> b1 ≡ₚ data <$> b0) by (unfold b1; by rewrite (swap_Permutation b0 N (N / 2)) by done).
  assert (He1 : elems b1 ≡ₚ x :: elems (body h)) by (rewrite <-He0; by apply elems_data).
  assert (Hd1 : ∀ k, dat b1 k = if decide (k = (N / 2)%nat) then Some x else if decide (k = N) then Some dp else dat b0 k).
  { intros k. unfold b1. rewrite (dat_swap b0 N (N / 2)) by done. unfold dat. by rewrite Hb0, Hp0. }
  assert (Hwf1 : wf (Mh b1 (Z.of_nat N) (max h)) N).
  { split_and!; cbn [size body max]; [done| |unfold N; lia|unfold b1, b0; by rewrite !length_insert]. intros k. rewrite Hd1. repeat case_decide; subst k || idtac; [split; [intros _; unfold N in *; lia|by eauto]..|apply Hf0]. }
  assert (Hroot : dat b1 1 = Some r).
  { rewrite Hd1, !decide_False by (unfold N in *; lia). unfold b0, dat. rewrite list_lookup_insert_ne by (unfold N; lia). by rewrite Hr. }
  destruct (proj2 (proj1 (proj2 Hwf1) N)) as [e Hlast]; [unfold N; lia|]. cbn [body] in Hlast.
  destruct (get_max_move get_cnt swap_hptr (swap_hptr x dp s0) (Mh b1 (Z.of_nat N) (max h)) n r e Hwf1 Hroot Hlast) as (b & Eg & Hlb & _ & Hdb). cbn [body size max] in *.
  assert (Hkeys : ∀ d, d ∈ elems b1 → 0 <= get_cnt (swap_hptr x dp s0) d < 2147483648).
  { intros d. rewrite Hswap. unfold s0. rewrite Hassign, He1. intros [->|Hd]%elem_of_cons; [done|]. specialize (Hnew d Hd). lia. }
  assert (Hend : ∃ h2 s2, downdate get_cnt swap_hptr (swap_hptr x dp s0) (Mh b (Z.of_nat N) (max h)) 1 = Ok (h2, s2)).
  { unfold downdate. cbn [body]. destruct (downdate_total get_cnt swap_hptr Hswap (S (length b)) (swap_hptr x dp s0) b 1 n) as [[[q b2] s2] ->]; [|rewrite Hlb; unfold b1, b0; rewrite !length_insert; lia| |lia|rewrite Hlb; unfold b1, b0; rewrite !length_insert; lia|by eexists _, _].
    - intros k. rewrite Hdb. fold N. destruct (decide (k = N)) as [->|Hk]; [split; [by intros []|unfold N; lia]|]. destruct (decide (k = 1%nat)) as [->|]; [split; [lia|by eauto]|].
      rewrite (proj1 (proj2 Hwf1) k). unfold N in *. lia.
    - intros k d. rewrite Hdb. repeat case_decide; [done|intros [= <-]; by apply Hkeys, (dat_elem _ N)|intros Hd; by apply Hkeys, (dat_elem _ k)]. }
  destruct Hend as (h2 & s2 & Ed). eexists _, _, r, _, s2. split; [exact Ei|]. split; [exact He1|]. split; [rewrite Eg, Ed; done|]. split; [done|]. by apply Hnew.
Qed.

(** The keys 4, 3, 2 and 1 in a heap for eight objects, and then 5. *)
Definition sample_heap : mh (D:=Z) := Mh ([Hn 0 None; Hn 4 (Some 4); Hn 3 (Some 3); Hn 2 (Some 2); Hn 1 (Some 1)] ++ replicate 13 (Hn 0 None)) 4 8.

Lemma sample_heap_wf : wf sample_heap 4 ∧ in_order (λ (_ : ()) d, d) tt sample_heap.
Proof.
  assert (Hd : ∀ i, dat (body sample_heap) i = match i with 1%nat => Some 4 | 2%nat => Some 3 | 3%nat => Some 2 | 4%nat => Some 1 | _ => None end).
  { intros [|[|[|[|[|i]]]]]; try reflexivity. unfold dat, sample_heap. cbn [body]. rewrite lookup_app_r by (simpl; lia). simpl length. destruct (replicate _ _ !! _) as [y|] eqn:E; [|done]. by apply lookup_replicate in E as [-> _]. }
  split.
  - split_and!; [done| |done|done]. intros i. rewrite Hd. destruct i as [|[|[|[|[|i]]]]]; (split; [intros [? ?]; (lia || done)|intros; (lia || by eexists)]).
  - split.
    + intros m Hm c x y Hc. rewrite !Hd. destruct m as [|[|[|[|[|m]]]]], Hc as [-> | ->]; simpl; intros; simplify_eq; lia.
    + intros i c d Hi. pose proof (Hd i) as E. unfold dat in E. rewrite Hi in E. simpl in E. destruct i as [|[|[|[|[|i]]]]]; simplify_eq; injection Hi; congruence.
Qed.

Lemma mh_insert_loses_maximum_witness : ∃ h1 s1 r h2 s2, mh_insert (λ _ _ s, s) (λ _ _ s, s) tt sample_heap 5 5 = Ok (h1, s1) ∧ elems (body h1) ≡ₚ [5; 4; 3; 2; 1] ∧
  mh_get_max (λ (_ : ()) d, d) (λ _ _ s, s) s1 h1 = Ok (Some r, h2, s2) ∧ r ∈ [4; 3; 2; 1] ∧ r < 5.
Proof.
  apply (mh_insert_loses_maximum (λ (_ : ()) d, d) (λ _ _ s, s) (λ _ _ s, s) tt sample_heap 4 5); [done|done|apply sample_heap_wf|apply sample_heap_wf|lia|reflexivity| |reflexivity].
  intros d Hd. change (d ∈ [4; 3; 2; 1]) in Hd. set_unfold. lia.
Defined.

(** The capacity test of [mh_insert_append] is [size>max], so a heap made for
    [bn] objects accepts [bn+1] of them, and building the full heap then reads
    beyond its array: the last node has its right child at index [2*(bn+1)+1]. *)
Theorem heap_overfull_reads_out_of_bounds :
  (∃ h, append_all (λ _ _ s, s) tt (mh_init 2) [1; 2; 3] = Ok (h, tt) ∧ size h = max h + 1 ∧
     downdate (λ _ d, d) (λ _ _ s, s) tt h 3 = Err Undefined) ∧
  append_all (λ _ _ s, s) tt (mh_init 2) [1; 2; 3; 4] = Err Aborted.
Proof.
  split; [|vm_compute; reflexivity].
  eexists. split; [vm_compute; reflexivity|]. split; vm_compute; reflexivity.
Qed.

End MaxHeap.
