(* ===== verification/BadBlock.v ===== *)
(** * The bad-block checker (blockmanager/bb_checker.c, bb_checker.h)

    At start the checker records which segments of the device are bad, gives
    each bad segment a replacement from the end of the device, and gives every
    segment a partner ([pair_segnum]) for SLC mode, in which only half of the
    pages of a block are used. [bb_checker_fix_ppa] is the address translation
    the hardware driver applies to every request. *)
From S2P Require Export Prelude Settings.

Local Open Scope Z_scope.

Module BadBlock.

(** ** Data *)

Record bb_node := BbNode
  { flag : Z; origin_segnum : Z; deprived_from_segnum : Z; fixed_segnum : Z; pair_segnum : Z }.

(** [struct badblock_checker] and the file's counters. *)
Record bb_checker := Checker
  { ent : carray bb_node; back_index : Z; start_block : Z; assign : Z; max : Z; map_first : bool }.
Record bb_state := BbState { checker : bb_checker; target_cnt : Z; _cnt : Z; badblock_cnt : Z }.

Definition set_flag v n :=
  BbNode v (origin_segnum n) (deprived_from_segnum n) (fixed_segnum n) (pair_segnum n).
Definition set_origin v n :=
  BbNode (flag n) v (deprived_from_segnum n) (fixed_segnum n) (pair_segnum n).
Definition set_deprived v n := BbNode (flag n) (origin_segnum n) v (fixed_segnum n) (pair_segnum n).
Definition set_fixed v n :=
  BbNode (flag n) (origin_segnum n) (deprived_from_segnum n) v (pair_segnum n).
Definition set_pair v n :=
  BbNode (flag n) (origin_segnum n) (deprived_from_segnum n) (fixed_segnum n) v.

(** [ent[i].field = v] *)
Definition upd_ent (e : carray bb_node) (i : Z) (f : bb_node → bb_node) : res (carray bb_node) :=
  n ← ca_get e i; ca_set e i (f n).

Definition with_ent (c : bb_checker) (e : carray bb_node) : bb_checker :=
  Checker e (back_index c) (start_block c) (assign c) (max c) (map_first c).

Definition GETORGBLOCKID (c : bb_checker) (ppa : Z) : res Z :=
  n ← ca_get (ent c) (ppa / 16384);
  Ok (if deprived_from_segnum n =? UINT_MAX then ppa / 16384 * 16384 else deprived_from_segnum n).

(** ** Operations *)

Fixpoint static_bad_loop (g : bb_state) (arr : list Z) : res bb_state :=
  match arr with
  | [] => Err Undefined
  | a :: arr =>
    if a =? UINT32_MAX then Ok g
    else
      let bad_seg := Z.shiftr a 14 in
      n ← ca_get (ent (checker g)) bad_seg;
      if flag n =? 0 then
        e ← upd_ent (ent (checker g)) bad_seg (set_flag 1);
        static_bad_loop (BbState (with_ent (checker g) e) (target_cnt g) (_cnt g)
                           (u64 (badblock_cnt g + 1))) arr
      else static_bad_loop g arr
  end.

Definition bb_checker_static_bad (g : bb_state) : res bb_state :=
  static_bad_loop g [8438006; 66560755; UINT32_MAX].

Definition bb_checker_process (g : bb_state) (bad_seg isbad : Z) : res bb_state :=
  n ← ca_get (ent (checker g)) bad_seg;
  if flag n =? 0 then
    e ← upd_ent (ent (checker g)) bad_seg (set_flag isbad);
    Ok (BbState (with_ent (checker g) e) (target_cnt g) (u64 (_cnt g + 1))
          (if isbad =? 0 then badblock_cnt g else u64 (badblock_cnt g + 1)))
  else Ok (BbState (checker g) (target_cnt g) (u64 (_cnt g + 1)) (badblock_cnt g)).

(** [while(checker.ent[max_segnum-test_cnt].flag){test_cnt++;}] *)
Fixpoint skip_bad (fuel : nat) (e : carray bb_node) (max_segnum test_cnt : Z) : res Z :=
  match fuel with
  | O => Err OutOfFuel
  | S fuel' =>
    n ← ca_get e (max_segnum - test_cnt);
    if flag n =? 0 then Ok test_cnt else skip_bad fuel' e max_segnum (test_cnt + 1)
  end.

(** An index cannot fall by more than the length of the array. *)
Definition skip (e : carray bb_node) (max_segnum : Z) : res Z :=
  skip_bad (S (Z.to_nat (ca_len e))) e max_segnum 0.

(** The replacement of a bad segment; [None] is the [break]. *)
Definition fix_bad (e : carray bb_node) (start_segnum max_segnum : Z)
  : res (option (carray bb_node * Z)) :=
  s ← ca_get e start_segnum;
  if flag s =? 0 then Ok (Some (e, max_segnum))
  else
    test_cnt ← skip e max_segnum;
    let max_segnum := max_segnum - test_cnt in
    if max_segnum <=? start_segnum then Ok None
    else
      m ← ca_get e max_segnum;
      e ← upd_ent e start_segnum (set_fixed (origin_segnum m));
      s ← ca_get e start_segnum;
      e ← upd_ent e max_segnum (set_deprived (origin_segnum s));
      Ok (Some (e, max_segnum - 1)).

(** One turn of the loop of [bb_checker_fixing]; [inr] ends it. *)
Definition fixing_step (e : carray bb_node) (start_segnum max_segnum : Z)
  : res (carray bb_node * Z * Z + carray bb_node * Z) :=
  r ← fix_bad e start_segnum max_segnum;
  match r with
  | None => Ok (inr (e, start_segnum))
  | Some (e, max_segnum) =>
    test_cnt ← skip e max_segnum;
    if max_segnum <=? start_segnum then Ok (inr (e, start_segnum))
    else
      let max_segnum := max_segnum - test_cnt in
      m ← ca_get e max_segnum;
      e ← upd_ent e start_segnum (set_pair (origin_segnum m));
      s ← ca_get e start_segnum;
      e ← upd_ent e max_segnum (set_pair (origin_segnum s));
      Ok (inl (e, start_segnum + 1, max_segnum - 1))
  end.

Fixpoint fixing_loop (fuel : nat) (e : carray bb_node) (start_segnum max_segnum : Z)
  : res (carray bb_node * Z) :=
  match fuel with
  | O => Err OutOfFuel
  | S fuel' =>
    if start_segnum <=? max_segnum then
      r ← fixing_step e start_segnum max_segnum;
      match r with
      | inl (e, start_segnum, max_segnum) => fixing_loop fuel' e start_segnum max_segnum
      | inr out => Ok out
      end
    else Ok (e, start_segnum)
  end.

(** [start_segnum] grows at every turn and stays below [max_segnum]. *)
Definition bb_checker_fixing (c : bb_checker) : res bb_checker :=
  '(e, _) ← fixing_loop (S (Z.to_nat _RNOS)) (ent c) 0 (_RNOS - 1);
  Ok (Checker e (_RNOS - 1) (start_block c) (assign c) (max c) (map_first c)).

Fixpoint process_all (g : bb_state) (reports : list (Z * Z)) : res bb_state :=
  match reports with
  | [] => Ok g
  | (bad_seg, isbad) :: reports =>
    g ← bb_checker_process g bad_seg isbad; process_all g reports
  end.

(** The loop over the device's segments. [device_badblock_checker] is a function
    of the device driver that may be missing: given the first page of a segment
    it reports (segment, is bad) through [bb_checker_process]. *)
Fixpoint start_loop (n : nat) (device_badblock_checker : option (Z → list (Z * Z)))
    (g : bb_state) (i : Z) : res bb_state :=
  match n with
  | O => Ok g
  | S n' =>
    e ← upd_ent (ent (checker g)) i (set_origin (u32 (i * _PPS)));
    e ← upd_ent e i (set_deprived UINT_MAX);
    let g := BbState (with_ent (checker g) e) (target_cnt g) (_cnt g) (badblock_cnt g) in
    g ← match device_badblock_checker with
        | None => Ok (BbState (checker g) (target_cnt g) (u64 (_cnt g + BPS)) (badblock_cnt g))
        | Some f => process_all g (f (u32 (i * _PPS)))
        end;
    start_loop n' device_badblock_checker g (i + 1)
  end.

(** The globals before [bb_checker_start]. *)
Definition bb_zero : bb_state :=
  BbState (Checker (ca_new _RNOS (BbNode 0 0 0 0 0)) 0 0 0 0 false) 0 0 0.

(** The busy wait for the device's reports ends only if all of them came. *)
Definition bb_checker_start (li : option (Z → list (Z * Z))) (g : bb_state) : res bb_state :=
  let c := Checker (ca_new _RNOS (BbNode 0 0 0 0 0)) 0 0 0 0 true in
  g ← start_loop (Z.to_nat _RNOS) li (BbState c (_RNOS * 64) (_cnt g) (badblock_cnt g)) 0;
  if target_cnt g =? _cnt g then
    g ← bb_checker_static_bad g;
    c ← bb_checker_fixing (checker g);
    Ok (BbState c (target_cnt g) (_cnt g) (badblock_cnt g))
  else Err OutOfFuel.

Definition bb_checker_get_segid (c : bb_checker) : res (Z * bb_checker) :=
  n ← ca_get (ent c) (assign c);
  Ok (origin_segnum n,
      Checker (ent c) (back_index c) (start_block c) (u32 (assign c + 1)) (max c) (map_first c)).

Definition bb_checker_fixed_segment (c : bb_checker) (ppa : Z) : res Z :=
  n ← ca_get (ent c) (ppa / 2 ^ 14);
  Ok (if flag n =? 0 then ppa else fixed_segnum n).

Definition bb_checker_paired_segment `{Settings} (c : bb_checker) (ppa : Z) : res Z :=
  bb_checker_fixed_segment c (u32 ((ppa / 2 ^ 14 + _NOS) * 2 ^ 14)).

(** The SLC page translation of [bb_checker_fix_ppa]: the page used, and whether
    it is in the partner segment. *)
Definition slc_page (page : Z) : Z * bool :=
  if page >=? 4 then
    if (page >=? 254) || (page <? 6) then (page - 4, true)
    else if page mod 4 <? 2 then (if page >? 6 then page - 6 else page, true)
    else (page, false)
  else (page, false).

Definition bb_checker_fix_ppa (isfixing : bool) (fixed_block pair_block ppa : Z) : Z :=
  let block := Z.shiftr ppa 14 in
  let bus := Z.land ppa 7 in
  let chip := Z.land (Z.shiftr ppa 3) 7 in
  let page := Z.land (Z.shiftr ppa 6) 255 in
  let '(page, shouldchg) := slc_page page in
  let res := u32 (bus + u32 (Z.shiftl chip 3) + u32 (Z.shiftl page 6) + u32 (Z.shiftl block 14)) in
  let origin_remain := res mod _PPS in
  if negb shouldchg && isfixing then u32 (fixed_block + origin_remain)
  else if shouldchg then u32 (pair_block + origin_remain)
  else res.

(** The address the driver sends to the device for a page address. *)
Definition device_ppa (c : bb_checker) (ppa : Z) : res Z :=
  t ← ca_get (ent c) (Z.shiftr ppa 14);
  Ok (bb_checker_fix_ppa (negb (flag t =? 0)) (fixed_segnum t) (pair_segnum t) ppa).

(** ** Replacement and pairing *)

Lemma upd_ent_Ok e i f :
  0 <= i < ca_len e → upd_ent e i f = Ok (ca_upd e i (f (ca_at e i))).
Proof. intros. unfold upd_ent. rewrite ca_get_in by done; simpl. by apply ca_set_in. Qed.

(** The segments [lo+1..hi]. *)
Definition itv (lo hi : Z) : gset Z := list_to_set (seqZ (lo + 1) (hi - lo)).

Lemma elem_of_itv lo hi x : x ∈ itv lo hi ↔ lo < x <= hi.
Proof. unfold itv. rewrite elem_of_list_to_set, elem_of_seqZ. lia. Qed.

Lemma size_itv lo hi : lo <= hi → Z.of_nat (size (itv lo hi)) = hi - lo.
Proof. intros. unfold itv. rewrite size_list_to_set by apply NoDup_seqZ. rewrite length_seqZ. lia. Qed.

Section fixing.
Context (bads : gset Z).

(** The entries describe a device whose bad segments are [bads]. *)
Definition device (e : carray bb_node) : Prop :=
  ca_len e = _RNOS ∧ ∀ i, 0 <= i < _RNOS →
    origin_segnum (ca_at e i) = i * _PPS ∧ (flag (ca_at e i) ≠ 0 ↔ i ∈ bads).

Lemma device_upd e i f :
  device e → (∀ n, origin_segnum (f n) = origin_segnum n ∧ flag (f n) = flag n) →
  device (ca_upd e i (f (ca_at e i))).
Proof.
  intros [Hl Hd] Hf. split; [done|]. intros j Hj. rewrite ca_at_upd. case_decide; subst; [|by apply Hd].
  destruct (Hf (ca_at e j)) as [-> ->]. by apply Hd.
Qed.

Lemma skip_bad_spec e m g : device e → g ∉ bads → 0 <= g <= m → m < _RNOS →
  ∀ fuel t, 0 <= t → g <= m - t → (Z.to_nat (m - t - g) < fuel)%nat →
  (∀ x, m - t < x <= m → x ∈ bads) →
  ∃ t', skip_bad fuel e m t = Ok t' ∧ t <= t' ∧ g <= m - t' ∧ (m - t' ∉ bads) ∧
    ∀ x, m - t' < x <= m → x ∈ bads.
Proof.
  intros [Hl Hd] Hg Hgm Hm. induction fuel as [|fuel IH]; intros t Ht Hgt Hfuel Hbad; [lia|]; simpl.
  rewrite ca_get_in by lia; simpl. destruct (Hd (m - t)) as [_ Hf]; [lia|].
  destruct (Z.eqb_spec (flag (ca_at e (m - t))) 0) as [E|E].
  - exists t. split_and!; try done. rewrite <-Hf. lia.
  - apply Hf in E. assert (m - t ≠ g) by congruence.
    destruct (IH (t + 1)) as (t' & E' & ? & ? & ? & ?); try lia.
    { intros x Hx. destruct (decide (x = m - t)) as [->|]; [done|]. apply Hbad. lia. }
    exists t'. split_and!; try done; lia.
Qed.

Lemma skip_spec e m g :
  device e → g ∉ bads → 0 <= g <= m → m < _RNOS →
  ∃ t, skip e m = Ok t ∧ 0 <= t ∧ g <= m - t ∧ (m - t ∉ bads) ∧ ∀ x, m - t < x <= m → x ∈ bads.
Proof.
  intros Hd Hg Hgm Hm. pose proof Hd as [Hl _]. unfold skip.
  apply (skip_bad_spec e m g); try done; lia.
Qed.

(** The same when the bad segments are too few to fill the segments after [a]:
    [X] are the bad segments met before, which are not among [a+1..m]. *)
Lemma skip_count e a m X :
  device e → 0 <= a → m < _RNOS → X ⊆ bads → (∀ x, x ∈ X → x <= a ∨ m < x) →
  a + Z.of_nat (size bads) < m + Z.of_nat (size X) →
  ∃ t X', skip e m = Ok t ∧ 0 <= t ∧ (m - t ∉ bads) ∧ X' ⊆ bads ∧ a < m - t ∧
    Z.of_nat (size X') = Z.of_nat (size X) + t ∧ (∀ x, x ∈ X' → x ∈ X ∨ m - t < x <= m).
Proof.
  intros Hd Ha Hm HX Hout Hsz.
  assert (Hfull : ∀ lo, a <= lo <= m → itv lo m ⊆ bads →
    Z.of_nat (size (X ∪ itv lo m)) = Z.of_nat (size X) + (m - lo) ∧ a < lo).
  { intros lo Hlo Hsub. pose proof (size_itv lo m ltac:(lia)) as Hi.
    assert (Hdisj : X ## itv lo m).
    { intros x Hx Hxi%elem_of_itv. destruct (Hout x Hx); lia. }
    rewrite size_union by done.
    assert (size (X ∪ itv lo m) <= size bads)%nat by (apply subseteq_size; set_solver).
    rewrite size_union in H by done. split; lia. }
  destruct (decide (set_Forall (λ x, x ∈ bads) (itv a m))) as [Hall|Hex].
  { destruct (decide (a <= m)).
    - assert (a < a); [apply Hfull; [lia|]|lia]. intros x Hx. by apply Hall.
    - assert (size X <= size bads)%nat by by apply subseteq_size. lia. }
  apply not_set_Forall_Exists in Hex as (g & Hg%elem_of_itv & Hgb); [|apply _].
  destruct (skip_spec e m g) as (t & -> & Ht & Hgt & Hb & Hrun); try done; [lia|].
  exists t, (X ∪ itv (m - t) m).
  assert (Hsub : itv (m - t) m ⊆ bads) by (intros x Hx%elem_of_itv; by apply Hrun).
  destruct (Hfull (m - t)) as [Hs _]; [lia|done|].
  split_and!; try done; try lia; [set_solver|].
  intros x [?|?%elem_of_itv]%elem_of_union; [by left|right; lia].
Qed.

(** [j] is the partner of segment [i], or its replacement: a good segment after
    [m] that points back to [i]. *)
Definition partner (e : carray bb_node) (m i j : Z) : Prop :=
  m < j < _RNOS ∧ (j ∉ bads) ∧ pair_segnum (ca_at e i) = j * _PPS ∧
  pair_segnum (ca_at e j) = i * _PPS ∧ deprived_from_segnum (ca_at e j) = UINT_MAX.
Definition replacement (e : carray bb_node) (m i j : Z) : Prop :=
  m < j < _RNOS ∧ (j ∉ bads) ∧ fixed_segnum (ca_at e i) = j * _PPS ∧
  deprived_from_segnum (ca_at e j) = i * _PPS.

(** The state of the loop when segments [0..a-1] are done and [m] is the last
    segment not taken; [X] are the bad segments met so far. *)
Definition served (e : carray bb_node) (a m : Z) : Prop :=
  (∀ i, 0 <= i < a → ∃ j, partner e m i j) ∧
  (∀ i, 0 <= i < a → i ∈ bads → ∃ j, replacement e m i j).
Definition loop_inv (e : carray bb_node) (a m : Z) (X : gset Z) : Prop :=
  device e ∧ (∀ j, 0 <= j <= m → deprived_from_segnum (ca_at e j) = UINT_MAX) ∧ served e a m ∧
  0 <= a ∧ X ⊆ bads ∧ (∀ x, x ∈ X → x < a ∨ m < x) ∧ a + m + Z.of_nat (size X) = _RNOS - 1.

(** Entries that agree where [served] looks. *)
Lemma served_mono e e' a m m' :
  served e a m → a <= m' <= m → 
  (∀ i, 0 <= i < a ∨ m < i → ca_at e' i = ca_at e i) → served e' a m'.
Proof.
  intros [Hp Hr] Hm Hag. split.
  - intros i Hi. destruct (Hp i Hi) as (j & ? & ? & ? & ? & ?). exists j.
    unfold partner. rewrite !Hag by lia. split_and!; try done; lia.
  - intros i Hi Hb. destruct (Hr i Hi Hb) as (j & ? & ? & ? & ?). exists j.
    unfold replacement. rewrite !Hag by lia. split_and!; try done; lia.
Qed.

Lemma served_fixed e a m j :
  served e a m → 0 <= a → a < j <= m → 
  ∀ v w, served (ca_upd (ca_upd e a (set_fixed v (ca_at e a))) j w) a (j - 1).
Proof.
  intros Hs Ha Hj v w. eapply served_mono; [done|lia|].
  intros i Hi. rewrite !ca_at_upd_ne by lia. done.
Qed.

(** One replacement. *)
Lemma fix_bad_inv e a m X :
  loop_inv e a m X → 2 * a + 1 + Z.of_nat (size bads) < _RNOS → 
  ∃ e' m' X', fix_bad e a m = Ok (Some (e', m')) ∧ device e' ∧ m' <= m ∧
    (∀ j, 0 <= j <= m' → deprived_from_segnum (ca_at e' j) = UINT_MAX) ∧ served e' a m' ∧
    (a ∈ bads → ∃ j, replacement e' m' a j) ∧ X' ⊆ bads ∧ (∀ x, x ∈ X' → x <= a ∨ m' < x) ∧
    a + m' + Z.of_nat (size X') = _RNOS - 1.
Proof.
  intros (Hd & Hdep & Hs & Ha & HX & Hout & Hcnt) Hroom. pose proof Hd as [Hl Hd'].
  assert (Hszle : (size X <= size bads)%nat) by by apply subseteq_size.
  unfold fix_bad. rewrite ca_get_in by lia; simpl. destruct (Hd' a) as [Hoa Hfa]; [lia|].
  destruct (Z.eqb_spec (flag (ca_at e a)) 0) as [E|E].
  { exists e, m, X. split_and!; try done; [tauto|]. intros x Hx. specialize (Hout x Hx). lia. }
  apply Hfa in E. assert (HaX : a ∉ X) by (intros Hx; specialize (Hout a Hx); lia).
  assert (Hsz : size (X ∪ {[a]}) = (size X + 1)%nat) by (rewrite size_union, size_singleton by set_solver; done).
  destruct (skip_count e a m (X ∪ {[a]})) as (t & X' & -> & Ht & Hg & HX' & Hlt & Hsz' & Hout');
    try done; try lia; [set_solver| |].
  { intros x [Hx|Hx]%elem_of_union; [specialize (Hout x Hx); lia|set_unfold; lia]. }
  simpl. rewrite (proj2 (Z.leb_gt _ _)) by lia. rewrite ca_get_in by lia; simpl.
  rewrite upd_ent_Ok by lia; simpl. rewrite ca_get_in by (simpl; lia); simpl. rewrite ca_at_upd_eq.
  rewrite upd_ent_Ok by (simpl; lia); simpl. rewrite ca_at_upd_ne by lia.
  destruct (Hd' (m - t)) as [Hom _]; [lia|]. rewrite Hoa, Hom.
  eexists _, _, X'. split; [done|]. split_and!; try done; try lia.
  - replace (ca_at e (m - t)) with (ca_at (ca_upd e a (set_fixed ((m - t) * _PPS) (ca_at e a))) (m - t))
      by (by rewrite ca_at_upd_ne by lia).
    apply (device_upd _ _ (set_deprived _)); [|done]. by apply (device_upd _ _ (set_fixed _)).
  - intros j Hj. rewrite ca_at_upd_ne by lia. rewrite ca_at_upd. case_decide; subst; simpl; apply Hdep; lia.
  - apply (served_fixed e a m); try done; lia.
  - intros _. exists (m - t). unfold replacement. rewrite ca_at_upd_eq, ca_at_upd_ne, ca_at_upd_eq by lia.
    split_and!; try done; lia.
  - intros x Hx. destruct (Hout' x Hx) as [[Hx'|Hx']%elem_of_union|]; [|set_unfold; lia|lia].
    specialize (Hout x Hx'). lia.
Qed.

(** A turn of the loop while the good segments suffice. *)
Lemma fixing_step_inv e a m X :
  loop_inv e a m X → 2 * a + 1 + Z.of_nat (size bads) < _RNOS →
  ∃ e' m' X', fixing_step e a m = Ok (inl (e', a + 1, m')) ∧ m' <= m ∧ loop_inv e' (a + 1) m' X'.
Proof.
  intros Hinv Hroom. assert (Ha : 0 <= a) by apply Hinv.
  destruct (fix_bad_inv e a m X Hinv Hroom)
    as (e1 & m1 & X1 & Hfix & Hd & Hm1 & Hdep & Hs & Hrep & HX & Hout & Hcnt).
  unfold fixing_step. rewrite Hfix; simpl. pose proof Hd as [Hl Hd'].
  destruct (skip_count e1 a m1 X1) as (t & X' & -> & Ht & Hg & HX' & Hlt & Hsz' & Hout');
    try done; try lia. simpl.
  rewrite (proj2 (Z.leb_gt _ _)) by lia. rewrite ca_get_in by lia; simpl.
  rewrite upd_ent_Ok by lia; simpl. rewrite ca_get_in by (simpl; lia); simpl. rewrite ca_at_upd_eq.
  rewrite upd_ent_Ok by (simpl; lia); simpl. rewrite ca_at_upd_ne by lia.
  destruct (Hd' (m1 - t)) as [Hom _]; [lia|]. destruct (Hd' a) as [Hoa _]; [lia|]. rewrite Hoa, Hom.
  set (e2 := ca_upd (ca_upd e1 _ _) _ _).
  assert (Hag : ∀ i, i ≠ a → i ≠ m1 - t → ca_at e2 i = ca_at e1 i).
  { intros i ??. unfold e2. by rewrite !ca_at_upd_ne by lia. }
  assert (He2a : ca_at e2 a = set_pair ((m1 - t) * _PPS) (ca_at e1 a)).
  { unfold e2. by rewrite ca_at_upd_ne, ca_at_upd_eq by lia. }
  assert (He2m : ca_at e2 (m1 - t) = set_pair (a * _PPS) (ca_at e1 (m1 - t))).
  { unfold e2. by rewrite ca_at_upd_eq. }
  destruct (served_mono e1 e2 a m1 (m1 - t - 1) Hs) as [Hsp Hsr]; [lia|intros i Hi; apply Hag; lia|].
  exists e2, (m1 - t - 1), X'. split; [done|]. split; [lia|].
  split; [|split; [|split; [split|]]]; try (split_and!; try done; lia).
  - unfold e2.
    replace (ca_at e1 (m1 - t)) with (ca_at (ca_upd e1 a (set_pair ((m1 - t) * _PPS) (ca_at e1 a))) (m1 - t))
      by (by rewrite ca_at_upd_ne by lia).
    apply (device_upd _ _ (set_pair _)); [|done]. by apply (device_upd _ _ (set_pair _)).
  - intros j Hj. destruct (decide (j = a)) as [->|]; [rewrite He2a; apply Hdep; lia|].
    rewrite Hag by lia. apply Hdep; lia.
  - intros i Hi. destruct (decide (i = a)) as [->|]; [|apply Hsp; lia].
    exists (m1 - t). unfold partner. rewrite He2a, He2m. simpl. rewrite Hdep by lia. split_and!; try done; lia.
  - intros i Hi Hb. destruct (decide (i = a)) as [->|]; [|apply Hsr; [lia|done]].
    destruct (Hrep Hb) as (j & Hj & Hjb & Hfj & Hdj). exists j. unfold replacement.
    rewrite He2a, (Hag j) by lia. split_and!; try done; lia.
  - split_and!; try done; try lia. intros x Hx. destruct (Hout' x Hx) as [Hx'|]; [|lia].
    specialize (Hout x Hx'). lia.
Qed.

(** After the segments below [N] are done the loop only writes entries between
    [N] and the last segment not taken, provided segment [N] is good. *)
Lemma fix_bad_frame e a m N :
  device e → N ∉ bads → 0 <= N <= a → a <= m → m < _RNOS →
  ∃ r, fix_bad e a m = Ok r ∧
    match r with
    | None => True
    | Some (e', m') => device e' ∧ a <= m' <= m ∧ ∀ i, i < N ∨ m < i → ca_at e' i = ca_at e i
    end.
Proof.
  intros Hd HN Ha Hm Hlen. pose proof Hd as [Hl Hd']. unfold fix_bad.
  rewrite ca_get_in by lia; simpl. destruct (_ =? 0); [eexists; split; [done|]; split_and!; try done; lia|].
  destruct (skip_spec e m N) as (t & -> & Ht & Hge & Hg & _); try done; try lia. simpl.
  destruct (Z.leb_spec (m - t) a); [by eexists|].
  rewrite ca_get_in by lia; simpl.
  rewrite upd_ent_Ok by lia; simpl. rewrite ca_get_in by (simpl; lia); simpl.
  rewrite upd_ent_Ok by (simpl; lia); simpl. eexists. split; [done|]. split_and!; try lia.
  - apply (device_upd _ _ (set_deprived _)); [|done]. by apply (device_upd _ _ (set_fixed _)).
  - intros i Hi. rewrite !ca_at_upd_ne by lia. done.
Qed.

Lemma fixing_loop_frame N : N ∉ bads → 0 <= N →
  ∀ fuel e a m, device e → N <= a → m < _RNOS → (Z.to_nat (m + 1 - a) < fuel)%nat →
  ∃ e' k, fixing_loop fuel e a m = Ok (e', k) ∧ device e' ∧
    ∀ i, i < N ∨ m < i → ca_at e' i = ca_at e i.
Proof.
  intros HN HN0. induction fuel as [|fuel IH]; intros e a m Hd Ha Hm Hfuel; [lia|]; simpl.
  destruct (Z.leb_spec a m) as [Ham|]; [|by exists e, a].
  destruct (fix_bad_frame e a m N) as (r & Hfix & Hr); try done; try lia.
  unfold fixing_step. rewrite Hfix; simpl. destruct r as [[e1 m1]|]; simpl; [|by exists e, a].
  destruct Hr as (Hd1 & Hm1 & Hag). pose proof Hd1 as [Hl1 _].
  destruct (skip_spec e1 m1 N) as (t & -> & Ht & Hge & Hg & _); try done; try lia. simpl.
  destruct (Z.leb_spec m1 a); [by exists e1, a|].
  rewrite ca_get_in by lia; simpl.
  rewrite upd_ent_Ok by lia; simpl. rewrite ca_get_in by (simpl; lia); simpl.
  rewrite upd_ent_Ok by (simpl; lia); simpl.
  set (e2 := ca_upd (ca_upd e1 _ _) _ _).
  assert (Hd2 : device e2).
  { unfold e2. apply (device_upd _ _ (set_pair _)); [|done]. by apply (device_upd _ _ (set_pair _)). }
  destruct (IH e2 (a + 1) (m1 - t - 1) Hd2) as (e3 & k & -> & Hd3 & Hag3); try lia.
  exists e3, k. split_and!; try done. intros i Hi. rewrite Hag3 by lia.
  unfold e2. rewrite !ca_at_upd_ne by lia. apply Hag. lia.
Qed.

(** The whole loop. *)
Lemma fixing_loop_spec N : N ∉ bads → 2 * N + Z.of_nat (size bads) < _RNOS → 
  ∀ fuel e a m X, loop_inv e a m X → a <= N → (Z.to_nat (m + 1 - a) < fuel)%nat →
  ∃ e' k m', fixing_loop fuel e a m = Ok (e', k) ∧ device e' ∧ N <= m' ∧ served e' N m'.
Proof.
  intros HN Hroom. induction fuel as [|fuel IH]; intros e a m X Hinv Ha Hfuel; [lia|].
  pose proof Hinv as (Hd & _ & Hs & Ha0 & HX & _ & Hcnt).
  assert (Hszle : (size X <= size bads)%nat) by by apply subseteq_size.
  destruct (decide (a = N)) as [->|Hne].
  - destruct (fixing_loop_frame N HN Ha0 (S fuel) e N m) as (e' & k & -> & Hd' & Hag); try done; try lia.
    exists e', k, m. split_and!; try done; [lia|].
    eapply served_mono; [done|lia|]. intros i Hi. apply Hag. lia.
  - destruct (fixing_step_inv e a m X Hinv) as (e1 & m1 & X1 & Hstep & Hm1 & Hinv1); [lia|].
    simpl. rewrite (proj2 (Z.leb_le _ _)) by lia. rewrite Hstep; simpl.
    apply (IH e1 (a + 1) m1 X1 Hinv1); lia.
Qed.

Lemma fixing_spec c N :
  device (ent c) → (∀ i, 0 <= i < _RNOS → deprived_from_segnum (ca_at (ent c) i) = UINT_MAX) →
  0 <= N → N ∉ bads → 2 * N + Z.of_nat (size bads) < _RNOS →
  ∃ c' m, bb_checker_fixing c = Ok c' ∧ device (ent c') ∧ N <= m ∧ served (ent c') N m.
Proof.
  intros Hd Hdep HN HNb Hroom.
  destruct (fixing_loop_spec N HNb Hroom (S (Z.to_nat _RNOS)) (ent c) 0 (_RNOS - 1) ∅)
    as (e' & k & m & E & Hd' & Hm & Hs); try done; try lia.
  { unfold loop_inv, served. split_and!; try done; try set_solver; try lia.
    intros j Hj. apply Hdep. lia. }
  unfold bb_checker_fixing. rewrite E. simpl. eexists _, m. split; [done|]. by split_and!.
Qed.

End fixing.

(** ** Address translation *)

Lemma slc_page_range p : 0 <= p < 256 → 0 <= fst (slc_page p) < 256.
Proof.
  intros. unfold slc_page. repeat case_match; zbool; simpl; lia.
Qed.

(** Two pages of a block use the same SLC page only in different segments. *)
Lemma slc_page_inj p1 p2 :
  0 <= p1 < 256 → 0 <= p2 < 256 → slc_page p1 = slc_page p2 → p1 = p2.
Proof.
  intros H1 H2. unfold slc_page.
  repeat case_match; intros; simplify_eq; try done; zbool;
    repeat match goal with H : _ || _ = true |- _ => apply orb_true_iff in H as [?|?] end; zbool;
    Z.to_euclidean_division_equations; lia.
Qed.

Lemma ppa_split ppa :
  0 <= ppa < _RNOS * _PPS → ∃ seg page u, ppa = seg * 16384 + page * 64 + u ∧
    0 <= seg < _RNOS ∧ 0 <= page < 256 ∧ 0 <= u < 64.
Proof.
  change (_RNOS * _PPS) with 67108864. change _RNOS with 4096. intros.
  exists (ppa / 16384), (ppa / 64 mod 256), (ppa mod 64).
  Z.to_euclidean_division_equations. lia.
Qed.

Lemma fix_ppa_spec isf f p seg page u :
  0 <= seg < _RNOS → 0 <= page < 256 → 0 <= u < 64 →
  (isf = true → 0 <= f < _RNOS * _PPS) → 0 <= p < _RNOS * _PPS →
  bb_checker_fix_ppa isf f p (seg * 16384 + page * 64 + u) =
    (if snd (slc_page page) then p else if isf : bool then f else seg * 16384)
    + fst (slc_page page) * 64 + u.
Proof.
  change (_RNOS * _PPS) with 67108864. change _RNOS with 4096. intros.
  unfold bb_checker_fix_ppa. change 7 with (Z.ones 3). change 255 with (Z.ones 8).
  rewrite !land_mask, !shiftr_div by lia.
  replace (((seg * 16384 + page * 64 + u) / 2 ^ 6) mod 2 ^ 8) with page
    by (change (2 ^ 6) with 64; change (2 ^ 8) with 256; Z.to_euclidean_division_equations; lia).
  replace ((seg * 16384 + page * 64 + u) / 2 ^ 14) with seg
    by (change (2 ^ 14) with 16384; Z.to_euclidean_division_equations; lia).
  pose proof (slc_page_range page ltac:(done)) as Hr.
  destruct (slc_page page) as [page' chg]. cbn [fst snd] in *.
  rewrite !shiftl_mul by lia.
  change (2 ^ 3) with 8. change (2 ^ 6) with 64. change (2 ^ 14) with 16384.
  assert (Hlow : (seg * 16384 + page * 64 + u) mod 8
    + u32 (((seg * 16384 + page * 64 + u) / 8) mod 8 * 8) = u).
  { rewrite u32_id; Z.to_euclidean_division_equations; lia. }
  replace (_ + _ + _ + _) with (u + page' * 64 + seg * 16384)
    by (rewrite (u32_id (page' * 64)), (u32_id (seg * 16384)) by lia; lia).
  rewrite (u32_id (u + page' * 64 + seg * 16384)) by lia. change _PPS with 16384.
  replace ((u + page' * 64 + seg * 16384) mod 16384) with (page' * 64 + u)
    by (Z.to_euclidean_division_equations; lia).
  destruct chg, isf; simpl; rewrite ?u32_id by auto with lia; auto with lia.
Qed.

(** Where page [page] of segment [seg] is on the device. *)
Definition home (bads : gset Z) (e : carray bb_node) (m seg page j : Z) : Prop :=
  if snd (slc_page page) then partner bads e m seg j
  else if decide (seg ∈ bads) then replacement bads e m seg j else j = seg.

Lemma device_ppa_home bads c N m seg page u :
  device bads (ent c) → N <= m → N < _RNOS → served bads (ent c) N m →
  0 <= seg < N → 0 <= page < 256 → 0 <= u < 64 →
  ∃ j, home bads (ent c) m seg page j ∧ 0 <= j < _RNOS ∧ (j ∉ bads) ∧
    device_ppa c (seg * 16384 + page * 64 + u) = Ok (j * 16384 + fst (slc_page page) * 64 + u).
Proof.
  intros [Hl Hd] HNm HNR [Hp Hr] Hseg Hpage Hu.
  unfold device_ppa. rewrite shiftr_div by lia. change (2 ^ 14) with 16384.
  replace ((seg * 16384 + page * 64 + u) / 16384) with seg by (Z.to_euclidean_division_equations; lia).
  rewrite ca_get_in by lia; simpl. destruct (Hd seg) as [_ Hf]; [lia|].
  destruct (Hp seg) as (jp & Hjp & Hjpb & Epair & Hback & Hdep); [done|].
  assert (Hf0 : ∀ f p, bb_checker_fix_ppa (negb (flag (ca_at (ent c) seg) =? 0)) f p
      (seg * 16384 + page * 64 + u) = bb_checker_fix_ppa (bool_decide (seg ∈ bads)) f p (seg * 16384 + page * 64 + u)).
  { intros f p. f_equal. case_bool_decide as Hb.
    - apply Hf in Hb. by rewrite (proj2 (Z.eqb_neq _ _)).
    - destruct (Z.eqb_spec (flag (ca_at (ent c) seg)) 0) as [|E]; [done|]. by apply Hf in E. }
  rewrite Hf0, Epair. unfold home.
  rewrite fix_ppa_spec; try done; try (change (_RNOS * _PPS) with 67108864);
    change _PPS with 16384 in *; change _RNOS with 4096 in *; try lia.
  - destruct (snd (slc_page page)); [exists jp; split_and!; try done; lia|].
    case_decide as Hb; [rewrite bool_decide_true by done|rewrite bool_decide_false by done].
    + destruct (Hr seg Hseg Hb) as (jf & Hjf & Hjfb & Efix & Hback'). change _PPS with 16384 in *.
      change _RNOS with 4096 in *. exists jf. rewrite Efix. split_and!; try done; lia.
    + exists seg. split_and!; try done; lia.
  - intros Hb%bool_decide_eq_true. destruct (Hr seg Hseg Hb) as (jf & Hjf & _ & Efix & _).
    change _PPS with 16384 in *. change _RNOS with 4096 in *. lia.
Qed.

(** The home of a page determines the page's segment. *)
Lemma home_inj bads e N m seg1 seg2 p1 p2 j :
  N <= m → 0 <= seg1 < N → 0 <= seg2 < N → N <= _RNOS →
  home bads e m seg1 p1 j → home bads e m seg2 p2 j →
  seg1 = seg2 ∧ snd (slc_page p1) = snd (slc_page p2).
Proof.
  unfold home, partner, replacement. intros Hm H1 H2 HN.
  assert (Hmax : ∀ s, 0 <= s < N → s * _PPS ≠ UINT_MAX).
  { intros s Hs. change _PPS with 16384. change UINT_MAX with 4294967295.
    change _RNOS with 4096 in HN. lia. }
  assert (Hps : ∀ s s', s * _PPS = s' * _PPS → s = s') by (change _PPS with 16384; lia).
  pose proof (Hmax _ H1). pose proof (Hmax _ H2).
  destruct (snd (slc_page p1)), (snd (slc_page p2)); repeat case_decide; intros Ha Hb;
    destruct_and?; split; try done; try lia; try congruence; subst; try lia; apply Hps; congruence.
Qed.

(** The checker [bb_checker_start] has made when it calls [bb_checker_fixing],
    for a device driver that has no bad-block check. *)
Definition unfixed : bb_checker :=
  match (g ← start_loop (Z.to_nat _RNOS) None bb_zero 0; bb_checker_static_bad g) with
  | Ok g => checker g
  | Err _ => checker bb_zero
  end.

Definition static_bads : gset Z := {[515; 4062]}.

Lemma unfixed_device :
  device static_bads (ent unfixed) ∧
  (∀ i, 0 <= i < _RNOS → deprived_from_segnum (ca_at (ent unfixed) i) = UINT_MAX).
Proof.
  assert (H : Forall (λ i, deprived_from_segnum (ca_at (ent unfixed) i) = UINT_MAX ∧
    origin_segnum (ca_at (ent unfixed) i) = i * _PPS ∧
    (flag (ca_at (ent unfixed) i) = 0 ∧ i ≠ 515 ∧ i ≠ 4062 ∨
     flag (ca_at (ent unfixed) i) = 1 ∧ (i = 515 ∨ i = 4062))) (seqZ 0 _RNOS)).
  { apply (bool_decide_unpack _). vm_compute. exact I. }
  rewrite Forall_forall in H.
  assert (Hi : ∀ i, 0 <= i < _RNOS → i ∈ seqZ 0 _RNOS) by (intros; rewrite elem_of_seqZ; lia).
  split; [split; [vm_compute; reflexivity|]|].
  - intros i Hr. destruct (H i (Hi i Hr)) as (_ & -> & Hf). split; [done|].
    unfold static_bads. rewrite elem_of_union, !elem_of_singleton.
    destruct Hf as [(-> & ? & ?)|(-> & ?)]; split; intros; try done; tauto.
  - intros i Hr. by destruct (H i (Hi i Hr)).
Qed.

(** C21: after [bb_checker_fixing] the device addresses of the first [N] segments
    are disjoint and good. If segment [N] is good and the device has room for
    [N] partners and all its bad segments, then every page address below
    [N*_PPS] is translated to a page of a good segment, and no two of them are
    translated to the same page, although SLC mode sends half of the pages of a
    segment to its partner and a bad segment is replaced as a whole. *)
Theorem device_addresses_disjoint (bads : gset Z) (c : bb_checker) (N : Z) :
  device bads (ent c) →
  (∀ i, 0 <= i < _RNOS → deprived_from_segnum (ca_at (ent c) i) = UINT_MAX) →
  0 <= N → N ∉ bads → 2 * N + Z.of_nat (size bads) < _RNOS →
  ∃ c', bb_checker_fixing c = Ok c' ∧
    (∀ ppa, 0 <= ppa < N * _PPS →
       ∃ q, device_ppa c' ppa = Ok q ∧ 0 <= q < _RNOS * _PPS ∧ (q / _PPS ∉ bads)) ∧
    (∀ ppa1 ppa2 q, 0 <= ppa1 < N * _PPS → 0 <= ppa2 < N * _PPS →
       device_ppa c' ppa1 = Ok q → device_ppa c' ppa2 = Ok q → ppa1 = ppa2).
Proof.
  intros Hd Hdep HN HNb Hroom. destruct (fixing_spec bads c N Hd Hdep HN HNb Hroom) as (c' & m & E & Hd' & Hm & Hs).
  exists c'. split; [done|].
  assert (Hsplit : ∀ ppa, 0 <= ppa < N * _PPS → ∃ seg page u j,
    ppa = seg * 16384 + page * 64 + u ∧ 0 <= seg < N ∧ 0 <= page < 256 ∧ 0 <= u < 64 ∧
    home bads (ent c') m seg page j ∧ 0 <= j < _RNOS ∧ (j ∉ bads) ∧
    device_ppa c' ppa = Ok (j * 16384 + fst (slc_page page) * 64 + u)).
  { intros ppa Hppa. destruct (ppa_split ppa) as (seg & page & u & -> & Hseg & Hpage & Hu).
    { split; [lia|]. change _PPS with 16384 in *. change _RNOS with 4096 in *. lia. }
    assert (0 <= seg < N) by (change _PPS with 16384 in *; lia).
    destruct (device_ppa_home bads c' N m seg page u) as (j & ? & ? & ? & ?); try done; [lia|].
    by exists seg, page, u, j. }
  split.
  - intros ppa Hppa. destruct (Hsplit ppa Hppa) as (seg & page & u & j & -> & _ & Hpage & Hu & _ & Hj & Hjb & ->).
    eexists. split; [done|]. pose proof (slc_page_range page Hpage).
    change (_RNOS * _PPS) with 67108864. change _PPS with 16384. change _RNOS with 4096 in *.
    split; [lia|].
    by replace ((j * 16384 + fst (slc_page page) * 64 + u) / 16384) with j
      by (Z.to_euclidean_division_equations; lia).
  - intros ppa1 ppa2 q H1 H2.
    destruct (Hsplit ppa1 H1) as (s1 & g1 & u1 & j1 & -> & Hs1 & Hg1 & Hu1 & Hh1 & Hj1 & _ & ->).
    destruct (Hsplit ppa2 H2) as (s2 & g2 & u2 & j2 & -> & Hs2 & Hg2 & Hu2 & Hh2 & Hj2 & _ & ->).
    intros [= Eq1] [= Eq2]. pose proof (slc_page_range g1 Hg1). pose proof (slc_page_range g2 Hg2).
    assert (j1 = j2 ∧ fst (slc_page g1) = fst (slc_page g2) ∧ u1 = u2) as (-> & Ef & ->) by lia.
    destruct (home_inj bads (ent c') N m s1 s2 g1 g2 j2) as [-> Es]; try done; try lia.
    assert (g1 = g2) as ->; [|done]. apply slc_page_inj; try done.
    destruct (slc_page g1), (slc_page g2). simpl in *. congruence.
Qed.

(** The first 512 segments (the 64 GB of the repository's setting) of a device
    whose bad segments are the two listed in the source. *)
Lemma device_addresses_disjoint_witness :
  ∃ c', bb_checker_fixing unfixed = Ok c' ∧
    (∀ ppa, 0 <= ppa < 512 * _PPS →
       ∃ q, device_ppa c' ppa = Ok q ∧ 0 <= q < _RNOS * _PPS ∧ (q / _PPS ∉ static_bads)) ∧
    (∀ ppa1 ppa2 q, 0 <= ppa1 < 512 * _PPS → 0 <= ppa2 < 512 * _PPS →
       device_ppa c' ppa1 = Ok q → device_ppa c' ppa2 = Ok q → ppa1 = ppa2).
Proof.
  destruct unfixed_device as [Hd Hdep].
  apply (device_addresses_disjoint static_bads unfixed 512 Hd Hdep);
    [lia|apply (bool_decide_unpack _); vm_compute; exact I|vm_compute; reflexivity].
Defined.

(** The replacement of a bad segment can be traced back. Under the same
    conditions [bb_checker_fixed_segment] sends each bad segment below [N] to a
    good one, and [GETORGBLOCKID] of that segment is the bad segment again; a
    good segment is left where it is. *)
Theorem fixed_segment_round_trip (bads : gset Z) (c : bb_checker) (N : Z) :
  device bads (ent c) →
  (∀ i, 0 <= i < _RNOS → deprived_from_segnum (ca_at (ent c) i) = UINT_MAX) →
  0 <= N → N ∉ bads → 2 * N + Z.of_nat (size bads) < _RNOS →
  ∃ c', bb_checker_fixing c = Ok c' ∧ ∀ i, 0 <= i < N →
    ∃ f, bb_checker_fixed_segment c' (i * _PPS) = Ok f ∧ (f / _PPS ∉ bads) ∧
      (i ∈ bads → GETORGBLOCKID c' f = Ok (i * _PPS)) ∧ (i ∉ bads → f = i * _PPS).
Proof.
  intros Hd Hdep HN HNb Hroom. destruct (fixing_spec bads c N Hd Hdep HN HNb Hroom) as (c' & m & E & Hd' & Hm & Hs).
  exists c'. split; [done|]. intros i Hi. destruct Hd' as [Hl Hd'], Hs as [_ Hr].
  assert (Hdiv : ∀ k, k * _PPS / 16384 = k) by (intros k; change _PPS with 16384; apply Z.div_mul; lia).
  unfold bb_checker_fixed_segment. change (2 ^ 14) with 16384. rewrite Hdiv.
  rewrite ca_get_in by lia; simpl. destruct (Hd' i) as [_ Hf]; [lia|].
  destruct (Z.eqb_spec (flag (ca_at (ent c') i)) 0) as [E0|E0].
  - assert (i ∉ bads) by (rewrite <-Hf; lia). exists (i * _PPS).
    rewrite Z.div_mul by done. by split_and!.
  - apply Hf in E0. destruct (Hr i Hi E0) as (j & Hj & Hjb & -> & Hback).
    exists (j * _PPS). rewrite Z.div_mul by done. split_and!; try done. intros _.
    unfold GETORGBLOCKID. change 16384 with _PPS. rewrite Z.div_mul by done.
    rewrite ca_get_in by lia; simpl. rewrite Hback.
    rewrite (proj2 (Z.eqb_neq _ _)); [done|]. change _PPS with 16384. change UINT_MAX with 4294967295.
    change _RNOS with 4096 in *. lia.
Qed.

Lemma fixed_segment_round_trip_witness :
  ∃ c', bb_checker_fixing unfixed = Ok c' ∧ ∀ i, 0 <= i < 600 →
    ∃ f, bb_checker_fixed_segment c' (i * _PPS) = Ok f ∧ (f / _PPS ∉ static_bads) ∧
      (i ∈ static_bads → GETORGBLOCKID c' f = Ok (i * _PPS)) ∧ (i ∉ static_bads → f = i * _PPS).
Proof.
  destruct unfixed_device as [Hd Hdep].
  apply (fixed_segment_round_trip static_bads unfixed 600 Hd Hdep);
    [lia|apply (bool_decide_unpack _); vm_compute; exact I|vm_compute; reflexivity].
Defined.

(** When every segment but the last is bad, [bb_checker_fixing] runs off the
    front of its table: after segment 0 got the only good segment as its
    replacement, the search for a partner has no lower bound. *)
Theorem fixing_runs_off_the_table :
  let e := ca_upd (ca_new _RNOS (BbNode 1 0 UINT_MAX 0 0)) (_RNOS - 1) (BbNode 0 0 UINT_MAX 0 0) in
  bb_checker_fixing (with_ent (checker bb_zero) e) = Err Undefined.
Proof. vm_compute. reflexivity. Qed.

End BadBlock.
