(* ===== verification/Lower.v ===== *)
(** * The device interface ([struct lower_info] of include/container.h)

    What the block manager and the flash translation layers use of a device
    driver ([Lower]), and the contract they rely on ([LowerOk]): pages that are
    written once between two erases and are read back as written. Requests are
    complete when the call returns, as in [lower/posix_memory], which is built
    with [LASYNC] 0. *)
From S2P Require Export Prelude Settings.

Local Open Scope Z_scope.

(** ** Request types (include/types.h) *)

Definition LREQ_TYPE_NUM : Z := 11.
Definition TRIM : Z := 0.
Definition MAPPINGR : Z := 1.
Definition MAPPINGW : Z := 2.
Definition GCMR : Z := 3.
Definition GCMW : Z := 4.
Definition DATAR : Z := 5.
Definition DATAW : Z := 6.
Definition GCDR : Z := 7.
Definition GCDW : Z := 8.
Definition GCMR_DGC : Z := 9.
Definition GCMW_DGC : Z := 10.

(** The parts of [struct value_set] a driver looks at: the buffer, and the tag
    of its DMA memory (-1 when it has none). *)
Record value_set := VS { value : list Z; dmatag : Z }.

(** ** Buffers (interface/interface.c, include/FS.c) *)

Definition FS_SET_T : Z := 1.
Definition FS_GET_T : Z := 2.
Definition FS_BUSE_R : Z := 17.
Definition FS_BUSE_W : Z := 18.
Definition FS_MALLOC_W : Z := 1.
Definition FS_MALLOC_R : Z := 2.

(** [F_malloc] of the builds without a DMA device: the tag is 0. *)
Definition F_malloc (rw : Z) : res Z :=
  abort_if (negb (rw =? FS_SET_T) && negb (rw =? FS_GET_T)) (Ok 0).

(** [inf_get_valueset]. [dvalue] says whether [DVALUE] is defined, which rounds
    the length up to pieces. A buffer smaller than a page has no DMA memory. *)
Definition inf_get_valueset (dvalue : bool) (in_v : option (list Z)) (type length : Z) : res value_set :=
  if (type =? FS_BUSE_R) || (type =? FS_BUSE_W) then
    if length =? PAGESIZE then v ← deref in_v; Ok (VS v 0)
    else Ok (VS (replicate (Z.to_nat PAGESIZE) 0) 0)
  else
    let length := if dvalue then (length / PIECE + if length mod PIECE =? 0 then 0 else 1) * PIECE else length in
    abort_if (length >? PAGESIZE)
    (dmatag ← (if length =? PAGESIZE then F_malloc type else Ok (-1));
     match in_v with
     | Some v => value ← memcpy (replicate (Z.to_nat length) 0) v (Z.to_nat length); Ok (VS value dmatag)
     | None => Ok (VS (replicate (Z.to_nat length) 0) dmatag)
     end).

(** The functions of the driver, on its state [L]. The first argument of a read
    or a write is the type of the request. *)
Class Lower (L : Type) := {
  low_write : Z → Z → Z → value_set → L → res L;
  low_read : Z → Z → Z → value_set → L → res (value_set * L);
  low_trim_block : Z → L → res L;
  low_trim_a_block : Z → L → res L;
}.

(** The contract. [low_page l ppa] is the content of page [ppa], [None] while it
    is erased; page [ppa] belongs to block [ppa mod PUNIT] of segment
    [ppa / _PPS]. *)
Class LowerOk `{Settings} (L : Type) `{!Lower L} := {
  low_wf : L → Prop;
  low_page : L → Z → option (list Z);
  low_write_ok l ty ppa v :
    low_wf l → 0 <= ppa < _NOP → length (value v) = Z.to_nat PAGESIZE → dmatag v ≠ -1 →
    low_page l ppa = None →
    ∃ l', low_write ty ppa PAGESIZE v l = Ok l' ∧ low_wf l' ∧
      ∀ q, low_page l' q = if decide (q = ppa) then Some (value v) else low_page l q;
  low_write_once l ty ppa v x :
    low_wf l → 0 <= ppa < _NOP → low_page l ppa = Some x → low_write ty ppa PAGESIZE v l = Err Aborted;
  low_read_ok l ty ppa v x :
    low_wf l → 0 <= ppa < _NOP → length (value v) = Z.to_nat PAGESIZE → dmatag v ≠ -1 →
    low_page l ppa = Some x →
    ∃ l', low_read ty ppa PAGESIZE v l = Ok (VS x (dmatag v), l') ∧ low_wf l' ∧
      ∀ q, low_page l' q = low_page l q;
  low_trim_a_block_ok l ppa :
    low_wf l → 0 <= ppa < _NOP → ppa mod _PPS < PUNIT →
    ∃ l', low_trim_a_block ppa l = Ok l' ∧ low_wf l' ∧
      ∀ q, 0 <= q < _NOP → low_page l' q =
        if decide (q / _PPS = ppa / _PPS ∧ q mod PUNIT = ppa mod PUNIT) then None else low_page l q;
}.
