(* ===== verification/PosixMemory.v ===== *)
(** * The memory-backed device (lower/posix_memory/posix.c)

    The default driver: a table with one heap buffer per page, built with
    [LASYNC] 0, so that each call performs its request before it returns. A page
    is allocated by the write that fills it; a second write before the block is
    trimmed aborts. The locks of the driver and its printing are not modelled;
    the key search [posix_read_hw] and the merge [posix_hw_do_merge] of the
    key-value SSD are not in this file. *)
From S2P Require Export Prelude Settings Lower.

Local Open Scope Z_scope.

Module PosixMemory.

Section posix.
Context `{Sg : Settings}.

(** ** State *)

(** The fields of [my_posix] the functions read, the table of pages ([None] is a
    NULL [storage]), the request counters, and [checker.start_block]. *)
Record posix := Posix {
  SOP : Z; TS : Z; PPS : Z; SOB : Z;
  seg_table : carray (option (list Z));
  req_type_cnt : carray Z;
  start_block : Z }.

Definition with_table (p : posix) (t : carray (option (list Z))) : posix :=
  Posix (SOP p) (TS p) (PPS p) (SOB p) t (req_type_cnt p) (start_block p).

(** ** Operations *)

Definition posix_create (start : Z) : posix :=
  Posix PAGESIZE TOTALSIZE _PPS (u32 (_PPB * PAGESIZE * BPS)) (ca_new _NOP None)
    (ca_new LREQ_TYPE_NUM 0) start.

Definition convert_type (type : Z) : Z := Z.land type (Z.shiftr 255 1).

Definition convert_ppa (p : posix) (PPA : Z) : Z := u32 (PPA - u32 (start_block p * _PPS)).

(** [if(t<LREQ_TYPE_NUM) my_posix.req_type_cnt[t]++;] *)
Definition count (p : posix) (t : Z) : res posix :=
  if t <? LREQ_TYPE_NUM then
    c ← ca_get (req_type_cnt p) t;
    cs ← ca_set (req_type_cnt p) t (u64 (c + 1));
    Ok (Posix (SOP p) (TS p) (PPS p) (SOB p) (seg_table p) cs (start_block p))
  else Ok p.

(** The content of fresh memory is not specified; the write below covers it. *)
Definition fresh_page : list Z := replicate (Z.to_nat PAGESIZE) 0.

#[local] Arguments fresh_page : simpl never.

Definition posix_push_data (type _PPA size : Z) (v : value_set) (p : posix) : res posix :=
  let PPA := convert_ppa p _PPA in
  abort_if (PPA >? _NOP)
  (abort_if (dmatag v =? -1)
  (abort_if (u32 (SOP p * PPA) >=? TS p)
  (p ← count p (convert_type type);
   o ← ca_get (seg_table p) PPA;
   match o with
   | Some _ => Err Aborted
   | None =>
     storage ← memcpy fresh_page (value v) (Z.to_nat size);
     t ← ca_set (seg_table p) PPA (Some storage);
     Ok (with_table p t)
   end))).

Definition posix_pull_data (type _PPA size : Z) (v : value_set) (p : posix)
  : res (value_set * posix) :=
  let PPA := convert_ppa p _PPA in
  abort_if (PPA >? _NOP)
  (abort_if (dmatag v =? -1)
  (abort_if (u32 (SOP p * PPA) >=? TS p)
  (p ← count p (convert_type type);
   o ← ca_get (seg_table p) PPA;
   match o with
   | None => Ok (v, p)
   | Some storage =>
     buf ← memcpy (value v) storage (Z.to_nat size);
     Ok (VS buf (dmatag v), p)
   end))).

(** The function starts with [abort()]. *)
Definition posix_trim_block (_PPA : Z) (p : posix) : res posix := Err Aborted.

(** The loop of [posix_trim_a_block] from page [i]. *)
Fixpoint trim_pages (n : nat) (t : carray (option (list Z))) (PPA i : Z)
  : res (carray (option (list Z))) :=
  match n with
  | O => Ok t
  | S n' => t ← ca_set t (u32 (PPA + i * PUNIT)) None; trim_pages n' t PPA (i + 1)
  end.

Definition posix_trim_a_block (_PPA : Z) (p : posix) : res posix :=
  let PPA := convert_ppa p _PPA in
  abort_if (PPA >? _NOP)
  (p ← count p TRIM;
   t ← trim_pages (Z.to_nat _PPB) (seg_table p) PPA 0;
   Ok (with_table p t)).

#[global] Instance posix_lower : Lower posix := {|
  low_write := posix_push_data;
  low_read := posix_pull_data;
  low_trim_block := posix_trim_block;
  low_trim_a_block := posix_trim_a_block
|}.

(** ** The contract *)

Definition wf (p : posix) : Prop :=
  SOP p = PAGESIZE ∧ TS p = TOTALSIZE ∧ start_block p = 0 ∧ ca_len (seg_table p) = _NOP ∧
  ca_len (req_type_cnt p) = LREQ_TYPE_NUM ∧
  ∀ q x, ca_at (seg_table p) q = Some x → length x = Z.to_nat PAGESIZE.

Context `{!SettingsOk Sg}.

Lemma convert_ppa_id p ppa : wf p → 0 <= ppa < _NOP → convert_ppa p ppa = ppa.
Proof.
  intros (_ & _ & Hst & _) Hr. unfold convert_ppa. rewrite Hst.
  change (u32 (0 * _PPS)) with 0. rewrite Z.sub_0_r. apply u32_id.
  pose proof NOP_eq. pose proof GIGAUNIT_range. lia.
Qed.

Lemma no_size_error p ppa : wf p → 0 <= ppa < _NOP → (u32 (SOP p * ppa) >=? TS p) = false.
Proof.
  intros (Hs & Ht & _) Hr. rewrite Z.geb_leb, Hs, Ht. apply Z.leb_gt.
  eapply Z.le_lt_trans; [apply Z.mod_le; change PAGESIZE with 8192; lia|].
  unfold TOTALSIZE. rewrite NOP_eq in Hr. change G with 1073741824. change PAGESIZE with 8192. lia.
Qed.

Lemma convert_type_nonneg ty : 0 <= convert_type ty.
Proof. unfold convert_type. rewrite Z.land_nonneg. right. vm_compute. done. Qed.

Lemma count_ok p t : wf p → 0 <= t → ∃ p', count p t = Ok p' ∧ wf p' ∧ seg_table p' = seg_table p.
Proof.
  intros Hwf Ht. pose proof Hwf as (? & ? & ? & ? & Hc & ?). unfold count.
  destruct (Z.ltb_spec t LREQ_TYPE_NUM); [|by exists p].
  rewrite ca_get_in by lia; simpl. rewrite ca_set_in by lia; simpl.
  eexists. split; [done|]. by split_and!.
Qed.

(** The tests every request passes first. *)
Lemma pass_checks {A} p ppa v (k : res A) :
  wf p → 0 <= ppa < _NOP → dmatag v ≠ -1 →
  abort_if (ppa >? _NOP) (abort_if (dmatag v =? -1) (abort_if (u32 (SOP p * ppa) >=? TS p) k)) = k.
Proof.
  intros Hwf Hr Hd. rewrite no_size_error by done.
  rewrite (proj2 (Z.eqb_neq _ _)) by done. rewrite Z.gtb_ltb, (proj2 (Z.ltb_ge _ _)) by lia. done.
Qed.

Lemma push_ok p ty ppa v :
  wf p → 0 <= ppa < _NOP → length (value v) = Z.to_nat PAGESIZE → dmatag v ≠ -1 →
  ca_at (seg_table p) ppa = None →
  ∃ p', posix_push_data ty ppa PAGESIZE v p = Ok p' ∧ wf p' ∧
    ∀ q, ca_at (seg_table p') q = if decide (q = ppa) then Some (value v) else ca_at (seg_table p) q.
Proof.
  intros Hwf Hr Hlen Hd Hnone. unfold posix_push_data. rewrite convert_ppa_id by done.
  rewrite pass_checks by done.
  destruct (count_ok p (convert_type ty) Hwf (convert_type_nonneg ty)) as (p1 & -> & Hwf1 & Et); rbind.
  pose proof Hwf1 as (? & ? & ? & Hl & ? & Hpg). rewrite ca_get_in by lia; rbind. rewrite Et, Hnone.
  rewrite <-Hlen, memcpy_all by (unfold fresh_page; rewrite length_replicate; lia).
  unfold fresh_page. rewrite drop_ge, app_nil_r by (rewrite length_replicate; lia). rbind.
  rewrite ca_set_in by (rewrite <-Et; lia); rbind. eexists. split; [done|].
  assert (Hat : ∀ q, ca_at (ca_upd (seg_table p) ppa (Some (value v))) q =
    if decide (q = ppa) then Some (value v) else ca_at (seg_table p) q).
  { intros q. rewrite ca_at_upd. repeat case_decide; congruence. }
  split; [|done]. unfold wf. simpl. rewrite Et in Hl, Hpg. split_and!; try done.
  intros q x. rewrite Hat. case_decide; [|apply Hpg]. by intros [= <-].
Qed.

Lemma push_once p ty ppa v x :
  wf p → 0 <= ppa < _NOP → ca_at (seg_table p) ppa = Some x →
  posix_push_data ty ppa PAGESIZE v p = Err Aborted.
Proof.
  intros Hwf Hr Hx. unfold posix_push_data. rewrite convert_ppa_id by done.
  rewrite no_size_error by done. destruct (_ >? _), (_ =? _); try done. cbn [abort_if].
  destruct (count_ok p (convert_type ty) Hwf (convert_type_nonneg ty)) as (p1 & -> & Hwf1 & Et); rbind.
  destruct Hwf1 as (? & ? & ? & Hl & ? & _). rewrite ca_get_in by lia; rbind. by rewrite Et, Hx.
Qed.

Lemma pull_ok p ty ppa v x :
  wf p → 0 <= ppa < _NOP → length (value v) = Z.to_nat PAGESIZE → dmatag v ≠ -1 →
  ca_at (seg_table p) ppa = Some x →
  ∃ p', posix_pull_data ty ppa PAGESIZE v p = Ok (VS x (dmatag v), p') ∧ wf p' ∧
    ∀ q, ca_at (seg_table p') q = ca_at (seg_table p) q.
Proof.
  intros Hwf Hr Hlen Hd Hx. unfold posix_pull_data. rewrite convert_ppa_id by done.
  rewrite pass_checks by done.
  destruct (count_ok p (convert_type ty) Hwf (convert_type_nonneg ty)) as (p1 & -> & Hwf1 & Et); simpl.
  pose proof Hwf1 as (? & ? & ? & Hl & ? & Hpg). rewrite ca_get_in by lia; simpl. rewrite Et, Hx.
  rewrite Et in Hpg. rewrite <-(Hpg ppa x Hx), memcpy_all by (rewrite (Hpg ppa x Hx); lia).
  rewrite drop_ge, app_nil_r by (rewrite (Hpg ppa x Hx); lia). simpl.
  exists p1. split_and!; try done. by rewrite Et.
Qed.

Lemma trim_pages_spec n : ∀ t PPA i,
  0 <= i → 0 <= PPA → ca_len t < 4294967296 → PPA + (i + Z.of_nat n) * PUNIT <= ca_len t + (PUNIT - 1) →
  ∃ t', trim_pages n t PPA i = Ok t' ∧ ca_len t' = ca_len t ∧
    ∀ q, ca_at t' q =
      if decide (i <= (q - PPA) / PUNIT < i + Z.of_nat n ∧ (q - PPA) mod PUNIT = 0)
      then None else ca_at t q.
Proof.
  induction n as [|n IH]; intros t PPA i Hi HP Hlen Hroom; simpl; change PUNIT with 64 in *.
  - exists t. split_and!; try done. intros q. rewrite decide_False; [done|lia].
  - rewrite u32_id by lia. rewrite ca_set_in by lia; simpl.
    destruct (IH (ca_upd t (PPA + i * 64) None) PPA (i + 1)) as (t' & -> & Hl & Hat); simpl; try lia.
    exists t'. split_and!; try done. intros q. rewrite Hat, ca_at_upd.
    repeat case_decide; try done; try lia;
      exfalso; Z.to_euclidean_division_equations; lia.
Qed.

Lemma trim_ok p ppa :
  wf p → 0 <= ppa < _NOP → ppa mod _PPS < PUNIT →
  ∃ p', posix_trim_a_block ppa p = Ok p' ∧ wf p' ∧
    ∀ q, 0 <= q < _NOP → ca_at (seg_table p') q =
      if decide (q / _PPS = ppa / _PPS ∧ q mod PUNIT = ppa mod PUNIT) then None
      else ca_at (seg_table p) q.
Proof.
  intros Hwf Hr Hmod. unfold posix_trim_a_block. rewrite convert_ppa_id by done.
  rewrite Z.gtb_ltb, (proj2 (Z.ltb_ge _ _)) by lia. cbn [abort_if].
  destruct (count_ok p TRIM Hwf ltac:(done)) as (p1 & -> & Hwf1 & Et); rbind.
  pose proof Hwf1 as (? & ? & ? & Hl & ? & Hpg).
  pose proof NOP_eq as HN. pose proof GIGAUNIT_range as HG.
  change _PPS with 16384 in *. change PUNIT with 64 in *.
  assert (ppa + 256 * 64 <= _NOP + 63).
  { rewrite HN in *. Z.to_euclidean_division_equations. lia. }
  destruct (trim_pages_spec (Z.to_nat _PPB) (seg_table p1) ppa 0) as (t' & -> & Hl' & Hat);
    change PUNIT with 64; change (Z.of_nat (Z.to_nat _PPB)) with 256; try lia.
  rbind. change PUNIT with 64 in Hat. change (Z.of_nat (Z.to_nat _PPB)) with 256 in Hat.
  eexists. split; [done|]. split.
  - unfold wf. simpl. split_and!; try done; [lia|]. intros q x. rewrite Hat. case_decide; [done|apply Hpg].
  - intros q Hq. simpl. rewrite Hat, Et. repeat case_decide; try done;
      exfalso; Z.to_euclidean_division_equations; lia.
Qed.

#[global] Instance posix_lower_ok : LowerOk posix := {|
  low_wf := wf;
  low_page p ppa := ca_at (seg_table p) ppa;
  low_write_ok := push_ok;
  low_write_once := push_once;
  low_read_ok := pull_ok;
  low_trim_a_block_ok := trim_ok
|}.

Lemma posix_create_wf : wf (posix_create 0).
Proof. unfold wf, posix_create; simpl. by split_and!. Qed.

End posix.

(** ** Properties *)

(** C28: a page of the device is write-once and keeps what was written. On a
    device in a well-formed state, writing a full page to an erased address
    succeeds; the page is then read back unchanged into any buffer, a second
    write to it aborts, every other page is as before, and trimming its block
    erases exactly the 256 pages of that block. *)
Theorem posix_page_write_once `{Sg : Settings, !SettingsOk Sg}
    (p : posix) (ty ty' ppa : Z) (v w : value_set) :
  wf p → 0 <= ppa < _NOP → length (value v) = Z.to_nat PAGESIZE →
  length (value w) = Z.to_nat PAGESIZE → dmatag v ≠ -1 → dmatag w ≠ -1 →
  ca_at (seg_table p) ppa = None →
  ∃ p' p'' p3, posix_push_data ty ppa PAGESIZE v p = Ok p' ∧
    posix_pull_data ty' ppa PAGESIZE w p' = Ok (VS (value v) (dmatag w), p'') ∧
    posix_push_data ty ppa PAGESIZE v p' = Err Aborted ∧
    (∀ q, q ≠ ppa → ca_at (seg_table p') q = ca_at (seg_table p) q) ∧
    posix_trim_a_block (ppa - ppa mod _PPS + ppa mod PUNIT) p' = Ok p3 ∧
    ∀ q, 0 <= q < _NOP → ca_at (seg_table p3) q =
      if decide (q / _PPS = ppa / _PPS ∧ q mod PUNIT = ppa mod PUNIT) then None
      else ca_at (seg_table p) q.
Proof.
  intros Hwf Hr Hv Hw Hdv Hdw Hnone.
  destruct (push_ok p ty ppa v Hwf Hr Hv Hdv Hnone) as (p' & E1 & Hwf' & Hat).
  assert (Hppa : ca_at (seg_table p') ppa = Some (value v)) by (rewrite Hat; by case_decide).
  destruct (pull_ok p' ty' ppa w (value v) Hwf' Hr Hw Hdw Hppa) as (p'' & E2 & _ & _).
  assert (Hb : 0 <= ppa - ppa mod _PPS + ppa mod PUNIT < _NOP ∧
    (ppa - ppa mod _PPS + ppa mod PUNIT) mod _PPS < PUNIT ∧
    (ppa - ppa mod _PPS + ppa mod PUNIT) / _PPS = ppa / _PPS ∧
    (ppa - ppa mod _PPS + ppa mod PUNIT) mod PUNIT = ppa mod PUNIT).
  { change _PPS with 16384. change PUNIT with 64. Z.to_euclidean_division_equations. lia. }
  destruct Hb as (Hb1 & Hb2 & Hb3 & Hb4).
  destruct (trim_ok p' _ Hwf' Hb1 Hb2) as (p3 & E3 & _ & Hat3).
  exists p', p'', p3. split_and!; try done.
  - by apply (push_once p' ty ppa v (value v)).
  - intros q Hq. rewrite Hat. by case_decide.
  - intros q Hq. rewrite Hat3, Hb3, Hb4 by done. case_decide as Hd; [done|].
    rewrite Hat. case_decide; [|done]. subst. by destruct Hd.
Qed.

(** Page 70 of a new 1 GB device. *)
Lemma posix_page_write_once_witness :
  ∃ p' p'' p3,
    posix_push_data (Sg:=settings_1) DATAW 70 PAGESIZE (VS (replicate (Z.to_nat PAGESIZE) 7) 0)
      (posix_create (Sg:=settings_1) 0) = Ok p' ∧
    posix_pull_data (Sg:=settings_1) DATAR 70 PAGESIZE (VS (replicate (Z.to_nat PAGESIZE) 0) 5) p'
      = Ok (VS (replicate (Z.to_nat PAGESIZE) 7) 5, p'') ∧
    posix_push_data (Sg:=settings_1) DATAW 70 PAGESIZE (VS (replicate (Z.to_nat PAGESIZE) 7) 0) p'
      = Err Aborted ∧
    (∀ q, q ≠ 70 →
       ca_at (seg_table p') q = ca_at (seg_table (posix_create (Sg:=settings_1) 0)) q) ∧
    posix_trim_a_block (Sg:=settings_1) (70 - 70 mod _PPS + 70 mod PUNIT) p' = Ok p3 ∧
    ∀ q, 0 <= q < _NOP (S:=settings_1) → ca_at (seg_table p3) q =
      if decide (q / _PPS = 70 / _PPS ∧ q mod PUNIT = 70 mod PUNIT) then None
      else ca_at (seg_table (posix_create (Sg:=settings_1) 0)) q.
Proof.
  assert (SettingsOk settings_1) by (constructor; simpl; lia).
  apply (posix_page_write_once (Sg:=settings_1) (posix_create (Sg:=settings_1) 0) DATAW DATAR 70
    (VS (replicate (Z.to_nat PAGESIZE) 7) 0) (VS (replicate (Z.to_nat PAGESIZE) 0) 5)).
  - exact (posix_create_wf (Sg:=settings_1)).
  - rewrite NOP_eq. simpl. lia.
  - apply length_replicate.
  - apply length_replicate.
  - cbn [dmatag]. lia.
  - cbn [dmatag]. lia.
  - reflexivity.
Defined.

(** The address tests let one page too many through. They are [PPA>_NOP]
    and [SOP*PPA>=TS], and the product is a 32-bit one, so on a device of 4 GB
    or more the address [_NOP], one beyond the last page, passes both and the
    table of pages is accessed out of bounds, for every request. *)
Theorem posix_first_bad_address `{Sg : Settings, !SettingsOk Sg} (p : posix) (ty : Z) (v : value_set) :
  4 <= GIGAUNIT → wf p → dmatag v ≠ -1 →
  posix_push_data ty _NOP PAGESIZE v p = Err Undefined ∧
  posix_pull_data ty _NOP PAGESIZE v p = Err Undefined.
Proof.
  intros HG Hwf Hd. pose proof Hwf as (HS & HT & Hst & Hl & _).
  pose proof GIGAUNIT_range as HGr.
  assert (Hc : convert_ppa p _NOP = _NOP).
  { unfold convert_ppa. rewrite Hst. change (u32 (0 * _PPS)) with 0. rewrite Z.sub_0_r.
    apply u32_id. rewrite NOP_eq. lia. }
  assert (Hs : (u32 (SOP p * _NOP) >=? TS p) = false).
  { rewrite Z.geb_leb, HS, HT. apply Z.leb_gt. unfold TOTALSIZE. change G with 1073741824.
    pose proof (u32_range (PAGESIZE * _NOP)). lia. }
  unfold posix_push_data, posix_pull_data. rewrite Hc, Hs, Z.gtb_ltb, Z.ltb_irrefl.
  rewrite (proj2 (Z.eqb_neq _ _)) by done. cbn [abort_if].
  destruct (count_ok p (convert_type ty) Hwf (convert_type_nonneg ty)) as (p1 & -> & Hwf1 & _); rbind.
  destruct Hwf1 as (_ & _ & _ & Hl1 & _).
  unfold ca_get, ca_in. rewrite Hl1, Z.ltb_irrefl, andb_false_r. done.
Qed.

(** On the repository's setting, a new device. *)
Lemma posix_first_bad_address_witness :
  posix_push_data (Sg:=settings_64) DATAW (_NOP (S:=settings_64)) PAGESIZE (VS [] 0)
    (posix_create (Sg:=settings_64) 0) = Err Undefined ∧
  posix_pull_data (Sg:=settings_64) DATAW (_NOP (S:=settings_64)) PAGESIZE (VS [] 0)
    (posix_create (Sg:=settings_64) 0) = Err Undefined.
Proof.
  assert (SettingsOk settings_64) by (constructor; simpl; lia).
  apply (posix_first_bad_address (Sg:=settings_64)).
  - simpl. lia.
  - exact (posix_create_wf (Sg:=settings_64)).
  - simpl. lia.
Defined.

End PosixMemory.
