(* ===== verification/RedBlack.v ===== *)
(** * The red-black tree (include/data_struct/redblack.c)

    A binary search tree with parent pointers, in which the sentinel [rb] stands for
    every missing node: it is its own left child, its right child is the root, and
    its parent field is whatever was written last. An insertion and a deletion walk up
    from the place of the change and restore the balance by recolouring and rotating.
    Keys that are equal are kept, the newer one to the right.

    The proofs follow a tree behind the pointers ([rep]): a place in it is a list of frames
    from the place up to the root ([plug]), so that what happens at a place leaves the rest
    as it is. Each operation is followed on the entries in order ([elems]) and on the
    balance ([bal], [cbal]). RedBlackMap has the callers.

    Nodes live in a memory [mem]; a NULL or freed pointer is [Undefined]. The build
    does not define [RB_LINK]. The three insertions and the three searches of the
    source are the same code with another comparison, here the parameter [cmp]. *)
From Stdlib Require Import Sorting.Sorted.
From S2P Require Export Prelude Settings Queue.

Local Open Scope Z_scope.

(** Which nodes are different: the hints of [disj] below *)
Create HintDb rbt.

Module RedBlack.

(** ** Data *)

Record node (K V : Type) := Node { item : option V; key : K; parent : loc; left : loc; right : loc; red : bool }.
Arguments Node {K V} _ _ _ _ _ _.
Arguments item {K V} _.
Arguments key {K V} _.
Arguments parent {K V} _.
Arguments left {K V} _.
Arguments right {K V} _.
Arguments red {K V} _.

Section ops.
Context {K V : Type}.
Abbreviation node := (node K V).
Abbreviation mem := (gmap loc node).
Implicit Types (m : mem) (n : node) (rb x y z f g gg sib : loc).

Definition set_parent p n : node := Node (item n) (key n) p (left n) (right n) (red n).
Definition set_left p n : node := Node (item n) (key n) (parent n) p (right n) (red n).
Definition set_right p n : node := Node (item n) (key n) (parent n) (left n) p (red n).
Definition set_red c n : node := Node (item n) (key n) (parent n) (left n) (right n) c.

(** [x->field], and [x->field = v] with the new node [h] makes of the old one. *)
Definition rd {A} (h : node → A) m x : res A := n ← deref (m !! x); Ok (h n).
Definition wr (h : node → node) m x : res mem := n ← deref (m !! x); Ok (<[x := h n]> m).

(** [a && b] and [a || b] of tests that read the memory *)
Definition and_then (a b : res bool) : res bool := c ← a; if c : bool then b else Ok false.
Definition or_else (a b : res bool) : res bool := c ← a; if c : bool then Ok true else b.

(** *** The macros *)

Definition issentinel m x : res bool := l ← rd left m x; Ok (bool_decide (x = l)).
Definition isred m x : res bool := rd red m x.
Definition isblack m x : res bool := r ← isred m x; Ok (negb r).
Definition isleft m x : res bool := p ← rd parent m x; l ← rd left m p; Ok (bool_decide (l = x)).
Definition isright m x : res bool := p ← rd parent m x; r ← rd right m p; Ok (bool_decide (r = x)).
Definition isroot m x : res bool := p ← rd parent m x; l ← rd left m p; Ok (bool_decide (l = p)).
Definition sibling m x : res loc := b ← isright m x; p ← rd parent m x; rd (if b : bool then left else right) m p.
Definition setred m x : res mem := wr (set_red true) m x.
Definition setblack m x : res mem := wr (set_red false) m x.

(** *** Rotations *)

Definition single_rotate m x f g (lft : bool) : res mem :=
  r ← rd right m g;
  m ← wr (if bool_decide (r = f) then set_right x else set_left x) m g;
  m ← (if lft then c ← rd right m x; m ← wr (set_left c) m f; wr (set_right f) m x
       else c ← rd left m x; m ← wr (set_right c) m f; wr (set_left f) m x);
  m ← wr (set_parent x) m f;
  c ← rd left m f; m ← wr (set_parent f) m c;
  c ← rd right m f; m ← wr (set_parent f) m c;
  wr (set_parent g) m x.

Definition double_rotate m x f g gg : res mem :=
  l ← rd left m gg;
  m ← wr (if bool_decide (l = g) then set_left x else set_right x) m gg;
  r ← rd right m f;
  m ← (if bool_decide (r = x) then
         c ← rd left m x; m ← wr (set_right c) m f; m ← wr (set_left f) m x;
         c ← rd right m x; m ← wr (set_left c) m g; wr (set_right g) m x
       else
         c ← rd right m x; m ← wr (set_left c) m f; m ← wr (set_right f) m x;
         c ← rd left m x; m ← wr (set_right c) m g; wr (set_left g) m x);
  m ← wr (set_parent gg) m x;
  l ← rd left m x; c ← rd right m l; m ← wr (set_parent l) m c; m ← wr (set_parent x) m l;
  r ← rd right m x; c ← rd left m r; m ← wr (set_parent r) m c; wr (set_parent x) m r.

(** *** Creation and search *)

(** The key of the sentinel is not set. *)
Definition rb_create m (junk : K) : mem * loc := let rb := malloc m in (<[rb := Node None junk rb rb rb false]> m, rb).

Definition rb_isempty m rb : res bool := r ← rd right m rb; Ok (bool_decide (r = rb)).

Definition assert_sentinel {A} m rb (k : res A) : res A := s ← issentinel m rb; abort_if (negb s) k.

Section cmp.
Context (cmp : K → K → Z).

(** [c] keeps the last comparison, 1 before the first one. *)
Fixpoint find_loop (fuel : nat) m rb (k : K) x (c : Z) : res (loc * Z) :=
  match fuel with
  | O => Err OutOfFuel
  | S fuel =>
    if bool_decide (x = rb) then Ok (x, c)
    else
      n ← deref (m !! x);
      let c := cmp k (key n) in
      if c =? 0 then Ok (x, c) else find_loop fuel m rb k (if c <? 0 then left n else right n) c
  end.
Definition rb_find_fnt m rb (k : K) : res (bool * loc) :=
  r ← rd right m rb;
  assert_sentinel m rb (
  '(x, c) ← find_loop (S (size m)) m rb k r 1;
  Ok (negb (bool_decide (x = rb)) && (c =? 0), x)).

(** *** Insertion *)

(** The node below which the key goes. *)
Fixpoint descend (fuel : nat) m rb (k : K) x y : res loc :=
  match fuel with
  | O => Err OutOfFuel
  | S fuel =>
    if bool_decide (x = rb) then Ok y
    else n ← deref (m !! x); descend fuel m rb k (if cmp k (key n) <? 0 then left n else right n) x
  end.

(** (a): while both children of [x] are red *)
Fixpoint recolor (fuel : nat) m x y z : res (mem * (loc * loc * loc)) :=
  match fuel with
  | O => Err OutOfFuel
  | S fuel =>
    l ← rd left m x; r ← rd right m x;
    b ← and_then (isred m l) (isred m r);
    if b : bool then
      m ← setblack m r; m ← setblack m l; m ← setred m x;
      t ← isroot m x;
      if t : bool then Ok (m, (x, y, z))
      else y' ← rd parent m x; x' ← rd parent m y'; recolor fuel m x' y' x
    else Ok (m, (x, y, z))
  end.

(** (b), (c) and (d): two red nodes, one below the other *)
Definition insert_fix m rb x y z : res mem :=
  b ← and_then (isred m y) (isred m z);
  if b : bool then
    if bool_decide (x = rb) then setblack m y
    else
      c ← or_else (and_then (isleft m y) (isleft m z)) (and_then (isright m y) (isright m z));
      if c : bool then
        p ← rd parent m x; l ← isleft m z;
        m ← single_rotate m y x p l;
        m ← setred m x; setblack m y
      else
        p ← rd parent m x;
        m ← double_rotate m z y x p;
        m ← setred m x; setblack m z
  else Ok m.

Definition rb_insert_fnt m rb (k : K) (it : option V) : res (mem * loc) :=
  x ← rd right m rb;
  assert_sentinel m rb (
  y ← descend (S (size m)) m rb k x x;
  let z := malloc m in
  let m := <[z := Node it k y rb rb true]> m in
  l ← (if bool_decide (y = rb) then Ok false else k' ← rd key m y; Ok (cmp k k' <? 0));
  m ← wr (if l : bool then set_left z else set_right z) m y;
  b ← or_else (isroot m z) (p ← rd parent m z; isroot m p);
  if b : bool then r ← rd right m rb; m ← setblack m r; Ok (m, z)
  else
    y ← rd parent m z; x ← rd parent m y;
    '(m, (x, y, z')) ← recolor (S (size m)) m x y z;
    m ← insert_fix m rb x y z';
    Ok (m, z)).

End cmp.

(** *** Neighbours in the order of the keys *)

(** Left or right as far as it goes: until the child is [rb], or until it is a sentinel *)
Fixpoint down_to (fuel : nat) (h : node → loc) m rb x : res loc :=
  match fuel with
  | O => Err OutOfFuel
  | S fuel => c ← rd h m x; if bool_decide (c = rb) then Ok x else down_to fuel h m rb c
  end.
Fixpoint down (fuel : nat) (h : node → loc) m x : res loc :=
  match fuel with
  | O => Err OutOfFuel
  | S fuel => c ← rd h m x; s ← issentinel m c; if s : bool then Ok x else down fuel h m c
  end.
(** Up while the node is a child on the side [isside] *)
Fixpoint climb (fuel : nat) (isside : mem → loc → res bool) m x : res loc :=
  match fuel with
  | O => Err OutOfFuel
  | S fuel =>
    p ← rd parent m x; s ← issentinel m p;
    b ← (if s : bool then Ok false else isside m x);
    if b : bool then climb fuel isside m p else Ok p
  end.

Definition rb_first m rb : res loc := x ← rd right m rb; down_to (S (size m)) left m rb x.
Definition rb_last m rb : res loc := x ← rd right m rb; down_to (S (size m)) right m rb x.

Definition rb_next m x : res loc :=
  s ← issentinel m x;
  if s : bool then rb_first m x
  else
    r ← rd right m x; s ← issentinel m r;
    if negb s then down (S (size m)) left m r else climb (S (size m)) isright m x.
Definition rb_prev m x : res loc :=
  s ← issentinel m x;
  if s : bool then rb_last m x
  else
    l ← rd left m x; s ← issentinel m l;
    if negb s then down (S (size m)) right m l else climb (S (size m)) isleft m x.

(** *** Deletion *)

(** The node is taken out; [sib] is the sibling of the place that lost a node, and
    [balance] says whether that was a black one. *)
Definition unlink m x : res (mem * loc * bool) :=
  l ← rd left m x; s ← issentinel m l;
  if s : bool then
    c ← rd right m x; b ← isleft m x; p ← rd parent m x;
    '(m, sib) ← (if b : bool then m ← wr (set_left c) m p; sib ← rd right m p; Ok (m, sib)
                 else m ← wr (set_right c) m p; sib ← rd left m p; Ok (m, sib));
    m ← wr (set_parent p) m c;
    r ← or_else (isred m x) (isred m c);
    m ← setblack m c;
    Ok (m, sib, negb r)
  else
    y ← rb_prev m x;
    if bool_decide (y = l) then
      sib ← rd right m x; b ← isleft m x; p ← rd parent m x;
      m ← wr (if b : bool then set_left y else set_right y) m p;
      m ← wr (set_parent p) m y;
      r ← rd right m x; m ← wr (set_right r) m y;
      r ← rd right m y; m ← wr (set_parent y) m r;
      c ← isred m y; d ← isred m x; m ← wr (set_red d) m y;
      Ok (m, sib, negb c)
    else
      q ← rd parent m y; sib ← rd left m q;
      c ← rd left m y; m ← wr (set_right c) m q;
      m ← wr (set_parent q) m c;
      p ← rd parent m x; m ← wr (set_parent p) m y;
      l ← rd left m x; m ← wr (set_parent y) m l;
      r ← rd right m x; m ← wr (set_parent y) m r;
      m ← wr (set_left l) m y; m ← wr (set_right r) m y;
      b ← isleft m x; m ← wr (if b : bool then set_left y else set_right y) m p;
      c ← isred m y; d ← isred m x; m ← wr (set_red d) m y;
      Ok (m, sib, negb c).

(** (a): the missing black node goes up while all around are black; [None] when it
    left the tree at the root. *)
Fixpoint lift (fuel : nat) m x sib : res (mem * option loc) :=
  match fuel with
  | O => Err OutOfFuel
  | S fuel =>
    b ← and_then (isblack m x) (and_then (isblack m sib) (and_then (p ← rd parent m sib; isblack m p)
          (and_then (l ← rd left m sib; isblack m l) (r ← rd right m sib; isblack m r))));
    if b : bool then
      m ← setred m sib; x ← rd parent m sib;
      p ← rd parent m x; s ← issentinel m p;
      if s : bool then Ok (m, None) else sib ← sibling m x; lift fuel m x sib
    else Ok (m, Some sib)
  end.

(** (b): a red sibling goes up, and its child is the new sibling. *)
Definition rotate_sibling m sib : res (mem * loc) :=
  b ← and_then (isred m sib) (p ← rd parent m sib; isblack m p);
  if b : bool then
    m ← setblack m sib;
    p ← rd parent m sib; m ← setred m p;
    l ← isleft m sib; g ← rd parent m p;
    m ← single_rotate m sib p g l;
    if l : bool then r ← rd right m sib; sib ← rd left m r; Ok (m, sib)
    else r ← rd left m sib; sib ← rd right m r; Ok (m, sib)
  else Ok (m, sib).

(** (c), (d) and (e) *)
Definition delete_fix m sib : res mem :=
  p ← rd parent m sib; l ← rd left m sib; r ← rd right m sib;
  b ← and_then (isred m p) (and_then (isblack m sib) (and_then (isblack m l) (isblack m r)));
  if b : bool then m ← setred m sib; setblack m p
  else
    s ← isright m sib;
    let '(near, far) := if s : bool then (l, r) else (r, l) in
    rf ← isred m far;
    if rf : bool then
      c ← isred m p; m ← wr (set_red c) m sib;
      m ← setblack m p; m ← setblack m far;
      g ← rd parent m p; single_rotate m sib p g (negb s)
    else
      rn ← isred m near;
      if rn : bool then
        c ← isred m p; m ← wr (set_red c) m near;
        m ← setblack m p;
        g ← rd parent m p; double_rotate m near sib p g
      else Ok m.

Definition rb_delete m x (isint : bool) : res mem :=
  s ← issentinel m x;
  abort_if s (
  '(m, sib, balance) ← unlink m x;
  let m := if isint then m else delete x m in
  if negb balance then Ok m
  else
    s ← issentinel m sib;
    if s : bool then Ok m
    else
      x ← sibling m sib;
      b ← isred m x;
      if b : bool then setblack m x
      else
        '(m, o) ← lift (S (size m)) m x sib;
        match o with
        | None => Ok m
        | Some sib => '(m, sib) ← rotate_sibling m sib; delete_fix m sib
        end).

(** [rb_delete_item] with its flags cleared: key and item stay with their owner. *)
Definition rb_delete_item m x : res mem := rb_delete m x true.

(** *** All nodes *)

(** [rb_traverse]: the nodes from [x] on *)
Fixpoint traverse (fuel : nat) m rb x : res (list loc) :=
  match fuel with
  | O => Err OutOfFuel
  | S fuel => if bool_decide (x = rb) then Ok [] else y ← rb_next m x; l ← traverse fuel m rb y; Ok (x :: l)
  end.
Definition rb_traverse m rb : res (list loc) := x ← rb_first m rb; traverse (S (size m)) m rb x.

Definition rb_count m rb : res Z := assert_sentinel m rb (l ← rb_traverse m rb; Ok (Z.of_nat (length l))).

(** The nodes from [x] up to the sentinel *)
Fixpoint path (fuel : nat) m rb x : res (list loc) :=
  match fuel with
  | O => Err OutOfFuel
  | S fuel => if bool_decide (x = rb) then Ok [] else p ← rd parent m x; l ← path fuel m rb p; Ok (x :: l)
  end.
Definition isleaf m rb x : res bool := l ← rd left m x; r ← rd right m x; Ok (bool_decide (l = rb) && bool_decide (r = rb)).

Fixpoint height_loop m rb (xs : list loc) (height : Z) : res Z :=
  match xs with
  | [] => Ok height
  | x :: xs =>
    b ← isleaf m rb x;
    if b : bool then l ← path (S (size m)) m rb x; let count := Z.of_nat (length l) in height_loop m rb xs (if height <? count then count else height)
    else height_loop m rb xs height
  end.
Definition rb_height m rb : res Z := assert_sentinel m rb (l ← rb_traverse m rb; height_loop m rb l 0).

(** The black nodes of a path *)
Fixpoint count_black m (l : list loc) : res Z :=
  match l with [] => Ok 0 | x :: l => b ← isblack m x; c ← count_black m l; Ok (if b : bool then c + 1 else c) end.
(** The black nodes of a path before two red ones in a row, and whether there are such *)
Fixpoint check_path m (l : list loc) (count : Z) : res (Z * bool) :=
  match l with
  | [] => Ok (count, true)
  | x :: l =>
    v ← and_then (isred m x) (p ← rd parent m x; isred m p);
    if v : bool then Ok (count, false) else b ← isblack m x; check_path m l (if b : bool then count + 1 else count)
  end.
Fixpoint check_loop m rb (xs : list loc) (blacks : option Z) : res bool :=
  match xs with
  | [] => Ok true
  | x :: xs =>
    b ← isleaf m rb x;
    if b : bool then
      l ← path (S (size m)) m rb x;
      n ← (match blacks with Some n => Ok n | None => count_black m l end);
      '(count, good) ← check_path m l 0;
      if negb (count =? n) || negb good then Ok false else check_loop m rb xs (Some n)
    else check_loop m rb xs blacks
  end.
Definition rb_check m rb : res bool := assert_sentinel m rb (l ← rb_traverse m rb; check_loop m rb l None).

(** [rb_clear] with [keys] and [items] cleared, as every caller does: keys and items are
    freed by their owner. *)
Fixpoint clear_loop (fuel : nat) m rb x (isint : bool) : res mem :=
  match fuel with
  | O => Err OutOfFuel
  | S fuel => if bool_decide (x = rb) then Ok m else y ← rb_next m x; m ← rb_delete m x isint; clear_loop fuel m rb y isint
  end.
Definition rb_clear m rb (isint : bool) : res mem :=
  x ← rb_first m rb;
  assert_sentinel m rb (m ← clear_loop (S (size m)) m rb x isint; m ← wr (set_right rb) m rb; wr (set_left rb) m rb).
Definition rb_destroy m rb (isint : bool) : res mem := m ← rb_clear m rb isint; Ok (delete rb m).

End ops.

(** *** The searches and insertions of the source *)

(** [key < x->k.ikey] and [key != x->k.ikey] *)
Definition int_cmp (a b : Z) : Z := a - b.

Definition rb_find_int {V} (m : gmap loc (node Z V)) rb k : res (bool * loc) := rb_find_fnt int_cmp m rb k.
Definition rb_insert_int {V} (m : gmap loc (node Z V)) rb k it : res (gmap loc (node Z V) * loc) := rb_insert_fnt int_cmp m rb k it.
Definition rb_insert_str {V} (m : gmap loc (node str_key V)) rb k it : res (gmap loc (node str_key V) * loc) := rb_insert_fnt KEYCMP m rb k it.

(** [c] is cleared when the keys differ, which is only at the sentinel, whose key was
    not set; the answer does not depend on it there. *)
Definition rb_find_str {V} (m : gmap loc (node str_key V)) rb k : res (bool * loc) :=
  r ← rd right m rb;
  assert_sentinel m rb (
  '(x, c) ← find_loop KEYCMP (S (size m)) m rb k r 1;
  k' ← rd key m x;
  let c := if KEYTEST k k' then c else 0 in
  Ok (negb (bool_decide (x = rb)) && (c =? 0), x)).

(** *** Sequences of operations *)

Inductive op (K V : Type) := Insert (k : K) (it : option V) | Delete (k : K).
Arguments Insert {K V} _ _.
Arguments Delete {K V} _.
Definition op_key {K V} (o : op K V) : K := match o with Insert k _ | Delete k => k end.
Definition inserted {K V} (o : op K V) : nat := match o with Insert _ _ => 1 | Delete _ => 0 end.

(** A deletion is of the node that a search finds, as the callers do it. *)
Definition rb_step {K V} (cmp : K → K → Z) (isint : bool) (m : gmap loc (node K V)) rb (o : op K V) : res (gmap loc (node K V)) :=
  match o with
  | Insert k it => '(m, _) ← rb_insert_fnt cmp m rb k it; Ok m
  | Delete k => '(b, x) ← rb_find_fnt cmp m rb k; if b : bool then rb_delete m x isint else Ok m
  end.
Fixpoint rb_run {K V} (cmp : K → K → Z) (isint : bool) (m : gmap loc (node K V)) rb (os : list (op K V)) : res (gmap loc (node K V)) :=
  match os with [] => Ok m | o :: os => m ← rb_step cmp isint m rb o; rb_run cmp isint m rb os end.

(** What a tree needs of a comparison: a total order up to equality on the keys in use *)
Class KeyCmp {K} (cmp : K → K → Z) (ok : K → Prop) : Prop := {
  kc_flip a b : ok a → ok b → (cmp a b < 0 ↔ 0 < cmp b a);
  kc_trans a b c : ok a → ok b → ok c → cmp a b <= 0 → cmp b c <= 0 → cmp a c <= 0;
}.

#[export] Instance int_cmp_order : KeyCmp int_cmp (λ _, True).
Proof. split; unfold int_cmp; intros; lia. Qed.
#[export] Instance KEYCMP_total : KeyCmp KEYCMP key_wf.
Proof.
  destruct KEYCMP_order as [Heq Hanti Htrans _]. split.
  - intros a b Ha Hb. rewrite (Hanti a b Ha Hb). lia.
  - intros a b c Ha Hb Hc H1 H2. destruct (Z.eq_dec (KEYCMP a b) 0) as [E1|E1]; [by apply Heq in E1 as ->|]. destruct (Z.eq_dec (KEYCMP b c) 0) as [E2|E2]; [by apply Heq in E2 as <-|].
    apply Z.lt_le_incl, (Htrans a b c); try done; lia.
Qed.

(** ** Trees *)

(** The tree behind the pointers: the node of each place, its colour, key and item. *)
Inductive tree (K V : Type) := E | T (a : loc) (c : bool) (d : K * option V) (l r : tree K V).
Arguments E {K V}.
Arguments T {K V} _ _ _ _ _.

Section proofs.
Context {K V : Type} (nil : loc).
Abbreviation node := (node K V).
Abbreviation mem := (gmap loc node).
Abbreviation tree := (tree K V).
Implicit Types (m : mem) (t u : tree) (a b p q : loc) (c : bool) (s : bool) (d : K * option V).

Definition ptr t : loc := match t with E => nil | T a _ _ _ _ => a end.
Definition color t : bool := match t with E => false | T _ c _ _ _ => c end.
Fixpoint locs t : list loc := match t with E => [] | T a _ _ l r => a :: locs l ++ locs r end.

(** A node whose child on side [s] (true for left) is [h] and whose other child is [o] *)
Definition nd d p s h o c : node := Node d.2 d.1 p (if s then h else o) (if s then o else h) c.
Definition child s (n : node) : loc := if s then left n else right n.
Definition set_child s p (n : node) : node := if s then set_left p n else set_right p n.
Definition mk s a c d t u : tree := if s then T a c d t u else T a c d u t.

(** The nodes of a tree below [p] are in the memory. *)
Fixpoint at_ m p t : Prop :=
  match t with
  | E => True
  | T a c d l r => m !! a = Some (Node d.2 d.1 p (ptr l) (ptr r) c) ∧ at_ m a l ∧ at_ m a r
  end.

(** A place in a tree: the side it is on, its parent and the sibling, and so on up. *)
Record frame := Fr { fs : bool; fa : loc; fc : bool; fd : K * option V; ft : tree }.
Implicit Types (C : list frame) (F : frame).
Definition up C : loc := match C with [] => nil | F :: _ => fa F end.
Definition side C : bool := match C with [] => false | F :: _ => fs F end.
Definition plug1 F t : tree := mk (fs F) (fa F) (fc F) (fd F) t (ft F).
Definition plug C t : tree := foldl (λ t F, plug1 F t) t C.
Definition clocs C : list loc := concat ((λ F, fa F :: locs (ft F)) <$> C).

(** The nodes around a place that has the child [h]; the sentinel is above the root. *)
Fixpoint at_ctx m C h : Prop :=
  match C with
  | [] => ∃ it k q, m !! nil = Some (Node it k q nil h false)
  | F :: C => m !! fa F = Some (nd (fd F) (up C) (fs F) h (ptr (ft F)) (fc F)) ∧ at_ m (fa F) (ft F) ∧ at_ctx m C (fa F)
  end.

Record rep m C t : Prop := Rep {
  rp_ctx : at_ctx m C (ptr t);
  rp_at : at_ m (up C) t;
  rp_nodup : NoDup (nil :: clocs C ++ locs t);
}.

Lemma mk_locs s a c d t u : locs (mk s a c d t u) ≡ₚ a :: locs t ++ locs u.
Proof. destruct s; simpl; [done|]. by rewrite (Permutation_app_comm (locs u)). Qed.

Lemma mk_ptr s a c d t u : ptr (mk s a c d t u) = a.
Proof. by destruct s. Qed.

Lemma mk_at m p s a c d t u : at_ m p (mk s a c d t u) ↔ m !! a = Some (nd d p s (ptr t) (ptr u) c) ∧ at_ m a t ∧ at_ m a u.
Proof. destruct s; simpl; tauto. Qed.

(** Going up and down *)
Lemma rep_up m F C t : rep m (F :: C) t ↔ rep m C (plug1 F t).
Proof.
  assert (HP : nil :: clocs (F :: C) ++ locs t ≡ₚ nil :: clocs C ++ locs (plug1 F t)).
  { unfold plug1. rewrite mk_locs. unfold clocs. cbn. solve_Permutation. }
  split; intros [Hc Ha Hn].
  - destruct Hc as (Hf & Hs & Hc). constructor; [unfold plug1; by rewrite mk_ptr|unfold plug1; by rewrite mk_at|by rewrite <-HP].
  - unfold plug1 in *. rewrite mk_ptr in Hc. rewrite mk_at in Ha. destruct Ha as (Hf & Ht & Hs). constructor; [done|done|by rewrite HP].
Qed.

Lemma rep_zip m F C t : rep m (F :: C) t → rep m C (plug1 F t).
Proof. apply rep_up. Qed.
Lemma rep_unzip m F C t : rep m C (plug1 F t) → rep m (F :: C) t.
Proof. apply rep_up. Qed.

Lemma rep_plug m C t : rep m C t ↔ rep m [] (plug C t).
Proof. revert t. induction C as [|F C IH]; intros t; [done|]. rewrite rep_up. apply IH. Qed.

(** *** One write *)

Lemma wr_Ok (h : node → node) m a n : m !! a = Some n → wr h m a = Ok (<[a := h n]> m).
Proof. intros H. unfold wr. by rewrite H. Qed.
Lemma rd_Ok {A} (h : node → A) m a n : m !! a = Some n → rd h m a = Ok (h n).
Proof. intros H. unfold rd. by rewrite H. Qed.

Lemma at_write m p t b n : b ∉ locs t → at_ m p t → at_ (<[b := n]> m) p t.
Proof.
  revert p. induction t as [|a c d l IHl r IHr]; intros p; [done|]. cbn [locs at_]. rewrite not_elem_of_cons, not_elem_of_app. intros (Hb & Hl & Hr) (Ha & H1 & H2).
  rewrite lookup_insert_ne by done. auto.
Qed.

Lemma ctx_write m C h b n : b ≠ nil → b ∉ clocs C → at_ctx m C h → at_ctx (<[b := n]> m) C h.
Proof.
  revert h. induction C as [|F C IH]; intros h Hnil; cbn [at_ctx clocs fmap list_fmap concat].
  - intros _ (it & k & q & H). exists it, k, q. by rewrite lookup_insert_ne.
  - rewrite not_elem_of_app, not_elem_of_cons. intros ((Hb & Ht) & HC) (Ha & H1 & H2). rewrite lookup_insert_ne by done. split; [done|]. split; [by apply at_write|by apply IH].
Qed.

(** The parent field of the root of a tree, which is that of the sentinel if there is none *)
Lemma at_root m p t C h : at_ m p t → at_ctx m C h → NoDup (nil :: clocs C ++ locs t) →
  ∃ n, m !! ptr t = Some n ∧ ∀ q, let m' := <[ptr t := set_parent q n]> m in
    at_ m' q t ∧ at_ctx m' C h ∧ ptr t ∉ clocs C ∧ (∀ b, b ≠ nil → b ∉ locs t → b ≠ ptr t).
Proof.
  intros Ht HC Hnd. apply NoDup_cons in Hnd as [Hnil Hnd]. apply NoDup_app in Hnd as (HndC & Hdis & HndT). apply not_elem_of_app in Hnil as [Hn1 Hn2]. destruct t as [|a c d l r]; cbn [ptr at_ locs] in *.
  - assert (HC' : ∃ n, m !! nil = Some n ∧ ∀ q, at_ctx (<[nil := set_parent q n]> m) C h).
    { clear Hdis HndC. revert h HC. induction C as [|F C IH]; intros h; cbn [at_ctx clocs fmap list_fmap concat] in *.
      - intros (it & k & q & H). eexists. split; [done|]. intros q'. exists it, k, q'. by rewrite lookup_insert_eq.
      - rewrite not_elem_of_app, not_elem_of_cons in Hn1. destruct Hn1 as ((Hb & Hs) & Hn1). intros (Ha & H1 & H2). destruct (IH Hn1 _ H2) as (n & Hn & Hq).
        exists n. split; [done|]. intros q. rewrite lookup_insert_ne by done. split; [done|]. split; [by apply at_write|by apply Hq]. }
    destruct HC' as (n & Hn & Hq). exists n. split; [done|]. intros q. split; [done|]. split; [apply Hq|]. split; [done|]. auto.
  - destruct Ht as (Ha & Hl & Hr). apply NoDup_cons in HndT as [Ha' _]. apply not_elem_of_app in Ha' as [Hal Har]. apply not_elem_of_cons in Hn2 as [Hna _].
    eexists. split; [done|]. intros q. cbn. rewrite lookup_insert_eq. split; [split; [done|]; split; by apply at_write|].
    assert (a ∉ clocs C) by (intros Hin; apply (Hdis a Hin); set_solver). split; [by apply ctx_write|]. split; [done|]. set_solver.
Qed.

(** The child pointer of a place *)
Lemma ctx_child m C h : at_ctx m C h → NoDup (nil :: clocs C) →
  ∃ n, m !! up C = Some n ∧ child (side C) n = h ∧ child (negb (side C)) n ∈ nil :: clocs C ∧ ∀ x, at_ctx (<[up C := set_child (side C) x n]> m) C x.
Proof.
  intros HC Hnd. destruct C as [|F C]; cbn [at_ctx up side] in *.
  - destruct HC as (it & k & q & H). eexists. split; [done|]. split; [done|]. split; [cbn; set_solver|]. intros x. exists it, k, q. by rewrite lookup_insert_eq.
  - destruct HC as (Ha & Hs & HC). eexists. split; [done|]. apply NoDup_cons in Hnd as [Hnil Hnd]. cbn [clocs fmap list_fmap concat] in *. fold (clocs C) in *.
    apply NoDup_cons in Hnd as [Hfa Hnd]. apply not_elem_of_app in Hfa as [Hfs HfC]. split; [unfold nd, child; by destruct (fs F)|].
    split; [unfold nd, child; destruct (fs F), (ft F); cbn; set_solver|]. intros x. rewrite lookup_insert_eq.
    split; [unfold nd, set_child; by destruct (fs F)|]. split; [by apply at_write|]. apply ctx_write; [set_solver|done|done].
Qed.

(** *** Which nodes are different *)

Definition dj (A B : list loc) : Prop := ∀ y, y ∈ A → y ∉ B.

Lemma dj_sym A B : dj A B → dj B A.
Proof. unfold dj. intros H y Hy Hy'. by apply (H y). Qed.
Lemma dj_app A B1 B2 : dj A (B1 ++ B2) ↔ dj A B1 ∧ dj A B2.
Proof. unfold dj. set_solver. Qed.
Lemma NoDup_dj A B : NoDup (A ++ B) ↔ NoDup A ∧ dj A B ∧ NoDup B.
Proof. apply NoDup_app. Qed.

Lemma up_in C : up C ∈ nil :: clocs C.
Proof. destruct C; cbn; set_solver. Qed.
Lemma up_ne C b : b ≠ nil → b ∉ clocs C → up C ≠ b.
Proof. intros Hn Hb <-. pose proof (up_in C). set_solver. Qed.
Lemma up_notin C t : nil ∉ locs t → dj (clocs C) (locs t) → up C ∉ locs t.
Proof. intros Hn Hd Hin. pose proof (up_in C) as Hup. apply elem_of_cons in Hup as [E|Hup]; [congruence|]. by apply (Hd (up C)). Qed.
Lemma ptr_in t : ptr t ∈ nil :: locs t.
Proof. destruct t; cbn; set_solver. Qed.
Lemma ptr_ne t b : b ≠ nil → b ∉ locs t → ptr t ≠ b.
Proof. intros Hn Hb <-. pose proof (ptr_in t). set_solver. Qed.
Lemma ptr_notin t u : nil ∉ locs u → dj (locs t) (locs u) → ptr t ∉ locs u.
Proof. intros Hn Hd Hin. pose proof (ptr_in t) as Hp. apply elem_of_cons in Hp as [E|Hp]; [congruence|]. by apply (Hd (ptr t)). Qed.

(** The facts that a list of nodes without duplicates gives *)
Ltac nodup H :=
  repeat match type of H with
  | NoDup (_ :: _) => let X := fresh "Hne" in apply NoDup_cons in H as [X H]
  | NoDup (_ ++ _) => let X := fresh "Hdj" in let Y := fresh "Hnd" in apply NoDup_dj in H as (Y & X & H)
  end;
  repeat match goal with
  | X : _ ∉ _ :: _ |- _ => apply not_elem_of_cons in X as [? X]
  | X : _ ∉ _ ++ _ |- _ => apply not_elem_of_app in X as [? X]
  | X : dj _ (_ ++ _) |- _ => apply dj_app in X as [? X]
  end.
Local Hint Resolve dj_sym up_ne up_notin ptr_ne ptr_notin not_eq_sym : rbt.
Ltac disj := solve [assumption | congruence | eauto 3 with rbt].

(** *** Rotations of trees *)

(** Facts about the memory [m] become facts about [<[a := n]> m]. *)
Ltac carry m a n :=
  repeat match goal with
  | X : at_ m ?p ?t |- _ => apply (at_write m p t a n) in X; [|disj]
  | X : at_ctx m ?C ?h |- _ => apply (ctx_write m C h a n) in X; [|disj|disj]
  | X : m !! a = Some _, Y : dom m = _ |- _ => rewrite <-(dom_insert_lookup_L m a n) in Y by eauto
  | X : m !! a = Some _ |- _ => clear X
  | X : m !! ?b = Some _ |- _ => rewrite <-(lookup_insert_ne m a b n) in X by disj
  end;
  pose proof (lookup_insert_eq m a n); let m' := fresh "m" in generalize dependent (<[a := n]> m); intros m'; intros.
(** The next write, to a node that is there *)
Ltac write :=
  match goal with
  | X : ?m !! ?a = Some ?n |- context [wr ?h ?m ?a] => rewrite (wr_Ok h m a n X); rbind; let n' := eval cbv [set_parent set_left set_right set_red nd item key parent left right red] in (h n) in change (h n) with n'; carry m a n'
  end.
(** A write of the parent field of the root of [t], or of the sentinel *)
Ltac reparent t :=
  match goal with
  | X : at_ ?m ?p t, HC : at_ctx ?m ?C ?h |- context [wr (set_parent ?q) ?m (ptr t)] =>
    let n := fresh "n" in let Hn := fresh "Hn" in let Hq := fresh "Hq" in
    destruct (at_root m p t C h X HC) as (n & Hn & Hq); [apply NoDup_cons; split; [apply not_elem_of_app; split; disj|apply NoDup_dj; split; [disj|split; disj]]|];
    rewrite (wr_Ok (set_parent q) m (ptr t) n Hn); rbind; destruct (Hq q) as (? & ? & _); clear Hq X HC; carry m (ptr t) (set_parent q n);
    match goal with Z : _ !! ptr t = Some (set_parent q n) |- _ => clear Z end
  end.
Ltac read :=
  repeat match goal with X : ?m !! ?a = Some ?n |- context [rd ?h ?m ?a] => rewrite (rd_Ok h m a n X); rbind; cbv [nd]; cbn [left right parent red key item] end.

Lemma first_write m C f x : at_ctx m C f → NoDup (nil :: clocs C) → f ∉ nil :: clocs C →
  ∃ n, m !! up C = Some n ∧ (if bool_decide (right n = f) then set_right x n else set_left x n) = set_child (side C) x n ∧
    (if bool_decide (left n = f) then set_left x n else set_right x n) = set_child (side C) x n ∧ at_ctx (<[up C := set_child (side C) x n]> m) C x.
Proof.
  intros HC Hnd Hf. destruct (ctx_child m C f HC Hnd) as (n & Hn & Hch & Hoth & HC'). exists n. split; [done|]. unfold child in *.
  assert (Hne : ∀ b, b ∈ nil :: clocs C → b ≠ f) by (intros b Hb ->; done). apply Hne in Hoth.
  destruct (side C); cbn [negb] in *; rewrite Hch, (bool_decide_true (f = f)) by done; rewrite bool_decide_false by done; (split; [done|]; split; [done|apply HC']).
Qed.

Lemma single_rotate_Ok m C s x cx dx t1 t2 f cf df t3 : rep m C (mk s f cf df (mk s x cx dx t1 t2) t3) →
  ∃ m', single_rotate m x f (up C) s = Ok m' ∧ dom m' = dom m ∧ rep m' C (mk s x cx dx t1 (mk s f cf df t2 t3)).
Proof.
  intros [HC Ha Hnd]. rewrite mk_ptr in HC. apply mk_at in Ha as (Hf & Hx & H3). rewrite mk_ptr in Hf. apply mk_at in Hx as (Hx & H1 & H2).
  assert (HP : nil :: clocs C ++ locs (mk s f cf df (mk s x cx dx t1 t2) t3) ≡ₚ nil :: f :: x :: clocs C ++ locs t1 ++ locs t2 ++ locs t3) by (rewrite !mk_locs; solve_Permutation).
  rewrite HP in Hnd. remember (dom m) as D eqn:HD. symmetry in HD.
  assert (Hnew : NoDup (nil :: clocs C ++ locs (mk s x cx dx t1 (mk s f cf df t2 t3)))).
  { assert (HP' : nil :: clocs C ++ locs (mk s x cx dx t1 (mk s f cf df t2 t3)) ≡ₚ nil :: f :: x :: clocs C ++ locs t1 ++ locs t2 ++ locs t3) by (rewrite !mk_locs; solve_Permutation). by rewrite HP'. }
  nodup Hnd. assert (HndC : NoDup (nil :: clocs C)) by (by apply NoDup_cons).
  destruct (first_write m C f x HC HndC) as (n & Hn & E1 & _ & HC'); [apply not_elem_of_cons; split; disj|].
  clear HC HP. unfold single_rotate. rewrite (rd_Ok _ _ _ _ Hn). rbind. rewrite (wr_Ok _ _ _ _ Hn). rbind.
  match goal with |- context [<[up C := ?n']> m] => replace n' with (set_child (side C) x n) by (rewrite <-E1; by destruct (bool_decide _)) end. clear E1.
  carry m (up C) (set_child (side C) x n). clear H17.
  destruct s; cbn in Hf, Hx |- *; read; write; write; write; read.
  - reparent t2. read. reparent t3. write. eexists. split; [done|]. split; [done|]. constructor; [done|cbn; auto|done].
  - reparent t3. read. reparent t2. write. eexists. split; [done|]. split; [done|]. constructor; [done|cbn; auto|done].
Qed.


Lemma double_rotate_Ok m C s x cx dx t2 t3 f cf df t1 g cg dg t4 : rep m C (mk s g cg dg (mk s f cf df t1 (mk s x cx dx t2 t3)) t4) →
  ∃ m', double_rotate m x f g (up C) = Ok m' ∧ dom m' = dom m ∧ rep m' C (mk s x cx dx (mk s f cf df t1 t2) (mk s g cg dg t3 t4)).
Proof.
  intros [HC Ha Hnd]. rewrite mk_ptr in HC. apply mk_at in Ha as (Hg & Hf & H4). rewrite mk_ptr in Hg. apply mk_at in Hf as (Hf & H1 & Hx). rewrite mk_ptr in Hf. apply mk_at in Hx as (Hx & H2 & H3).
  assert (HP : nil :: clocs C ++ locs (mk s g cg dg (mk s f cf df t1 (mk s x cx dx t2 t3)) t4) ≡ₚ nil :: g :: f :: x :: clocs C ++ locs t1 ++ locs t2 ++ locs t3 ++ locs t4) by (rewrite !mk_locs; solve_Permutation).
  rewrite HP in Hnd. remember (dom m) as D eqn:HD. symmetry in HD.
  assert (Hnew : NoDup (nil :: clocs C ++ locs (mk s x cx dx (mk s f cf df t1 t2) (mk s g cg dg t3 t4)))).
  { assert (HP' : nil :: clocs C ++ locs (mk s x cx dx (mk s f cf df t1 t2) (mk s g cg dg t3 t4)) ≡ₚ nil :: g :: f :: x :: clocs C ++ locs t1 ++ locs t2 ++ locs t3 ++ locs t4) by (rewrite !mk_locs; solve_Permutation). by rewrite HP'. }
  nodup Hnd. assert (HndC : NoDup (nil :: clocs C)) by (by apply NoDup_cons).
  destruct (first_write m C g x HC HndC) as (n & Hn & _ & E1 & HC'); [apply not_elem_of_cons; split; disj|].
  clear HC HP. unfold double_rotate. rewrite (rd_Ok _ _ _ _ Hn). rbind. rewrite (wr_Ok _ _ _ _ Hn). rbind.
  match goal with |- context [<[up C := ?n']> m] => replace n' with (set_child (side C) x n) by (rewrite <-E1; by destruct (bool_decide _)) end. clear E1.
  carry m (up C) (set_child (side C) x n). match goal with Z : _ !! up C = Some (set_child (side C) x n) |- _ => clear Z end.
  destruct s; cbn in Hg, Hf, Hx |- *; read; [rewrite bool_decide_true by done|rewrite bool_decide_false by disj]; read; write; write; read; write; write; write; read.
  - reparent t2. write. read. reparent t3. write. eexists. split; [done|]. split; [done|]. constructor; [done|cbn; auto|done].
  - reparent t3. write. read. reparent t2. write. eexists. split; [done|]. split; [done|]. constructor; [done|cbn; auto 6|done].
Qed.

(** *** Colours and reads *)

Lemma rep_node m C s a c d t u : rep m C (mk s a c d t u) → m !! a = Some (nd d (up C) s (ptr t) (ptr u) c).
Proof. intros [_ Ha _]. by apply mk_at in Ha as [? _]. Qed.

Lemma set_red_Ok m C s a c c' d t u : rep m C (mk s a c d t u) → ∃ m', wr (set_red c') m a = Ok m' ∧ dom m' = dom m ∧ rep m' C (mk s a c' d t u).
Proof.
  intros [HC Ha Hnd]. rewrite mk_ptr in HC. apply mk_at in Ha as (Hn & Ht & Hu). rewrite mk_locs in Hnd. assert (Hnew := Hnd). rewrite <-(mk_locs s a c' d t u) in Hnew.
  assert (HP : nil :: clocs C ++ a :: locs t ++ locs u ≡ₚ nil :: a :: clocs C ++ locs t ++ locs u) by solve_Permutation. rewrite HP in Hnd. clear HP. nodup Hnd.
  remember (dom m) as D eqn:HD. symmetry in HD. write. eexists. split; [done|]. split; [done|]. constructor; [by rewrite mk_ptr| |done]. apply mk_at. by destruct s.
Qed.

Lemma mk_neg s a c d t u : mk (negb s) a c d u t = mk s a c d t u.
Proof. by destruct s. Qed.
Lemma tree_mk s a c d l r : T a c d l r = mk s a c d (if s then l else r) (if s then r else l).
Proof. by destruct s. Qed.

(** The sibling of a place is a place. *)
Definition swap F t : frame := Fr (negb (fs F)) (fa F) (fc F) (fd F) t.
Lemma rep_swap m F C t : rep m (F :: C) t ↔ rep m (swap F t :: C) (ft F).
Proof. rewrite !rep_up. unfold plug1, swap. cbn. by rewrite mk_neg. Qed.

Lemma set_red_child m C s a c d s' b cb cb' db t u v : rep m C (mk s a c d (mk s' b cb db t u) v) →
  ∃ m', wr (set_red cb') m b = Ok m' ∧ dom m' = dom m ∧ rep m' C (mk s a c d (mk s' b cb' db t u) v).
Proof.
  intros H. apply (rep_up m (Fr s a c d v)) in H. destruct (set_red_Ok m _ s' b cb cb' db t u H) as (m' & E & Hd & H'). exists m'. split; [done|]. split; [done|]. by apply rep_up in H'.
Qed.

Lemma at_ctx_sentinel m C h : at_ctx m C h → ∃ it k q h', m !! nil = Some (Node it k q nil h' false).
Proof. revert h. induction C as [|F C IH]; intros h; cbn; [|intros (_ & _ & H); by apply IH in H]. intros (it & k & q & H). eauto. Qed.
Lemma rep_sentinel m C t : rep m C t → issentinel m nil = Ok true.
Proof. intros [HC _ _]. destruct (at_ctx_sentinel m C _ HC) as (it & k & q & h & H). unfold issentinel. rewrite (rd_Ok _ _ _ _ H). rbind. by rewrite bool_decide_true. Qed.

Lemma rep_red m C t : rep m C t → isred m (ptr t) = Ok (color t).
Proof.
  intros H. unfold isred. destruct t as [|a c d l r]; cbn [ptr color].
  - destruct H as [HC _ _]. destruct (at_ctx_sentinel m C _ HC) as (it & k & q & h & H). by rewrite (rd_Ok _ _ _ _ H).
  - apply (rep_node m C true) in H. by rewrite (rd_Ok _ _ _ _ H).
Qed.
Lemma rep_black m C t : rep m C t → isblack m (ptr t) = Ok (negb (color t)).
Proof. intros H. unfold isblack. by rewrite (rep_red _ _ _ H). Qed.

(** The sides and the sibling of a node *)
Definition top C : bool := match C with [] => true | _ => false end.
Lemma rep_up_node m C a c d l r : rep m C (T a c d l r) → rd parent m a = Ok (up C) ∧ rd left m a = Ok (ptr l) ∧ rd right m a = Ok (ptr r) ∧ isred m a = Ok c ∧ rd key m a = Ok d.1 ∧ a ≠ nil ∧
  ∃ n, m !! up C = Some n ∧ child (side C) n = a ∧ child (negb (side C)) n ≠ a ∧ (left n = up C ↔ top C = true).
Proof.
  intros H. pose proof (rep_node m C true a c d l r H) as Hn. rewrite !(rd_Ok _ _ _ _ Hn). unfold isred. rewrite (rd_Ok _ _ _ _ Hn). do 5 (split; [done|]).
  destruct H as [HC _ Hnd]. cbn [ptr locs] in *. apply NoDup_cons in Hnd as [Hnil Hnd]. apply NoDup_dj in Hnd as (HndC & Hdj & Hnd). rewrite not_elem_of_app, not_elem_of_cons in Hnil.
  assert (Ha : a ∉ nil :: clocs C) by (rewrite not_elem_of_cons; split; [naive_solver|]; intros Hin; apply (Hdj a Hin); set_solver).
  split; [set_solver|]. destruct (ctx_child m C a HC) as (n & E & Hc & Ho & _); [apply NoDup_cons; tauto|]. exists n. split; [done|]. split; [done|]. split; [intros E'; by rewrite E' in Ho|].
  destruct C as [|F C]; cbn [at_ctx up side top] in *.
  - destruct HC as (it & k & q & H). rewrite E in H. by injection H as ->.
  - destruct HC as (Hf & _). rewrite E in Hf. injection Hf as ->. split; [|done]. cbn [clocs fmap list_fmap concat] in *. apply not_elem_of_cons in Ha as [Ha1 Ha2].
    apply NoDup_cons in HndC as [HF _]. pose proof (ptr_in (ft F)). unfold nd. cbn. destruct (fs F); [intros ->; set_solver|]. intros E'. rewrite E' in *. destruct Hnil as (Hnil & _). cbn in Hnil. set_solver.
Qed.

Lemma rep_isleft m C a c d l r : rep m C (T a c d l r) → isleft m a = Ok (side C).
Proof.
  intros H. destruct (rep_up_node _ _ _ _ _ _ _ H) as (Hp & _ & _ & _ & _ & _ & n & Hn & Hc & Ho & _). unfold isleft. rewrite Hp. rbind. rewrite (rd_Ok _ _ _ _ Hn). rbind.
  unfold child in *. destruct (side C); cbn in *; [by rewrite bool_decide_true|by rewrite bool_decide_false].
Qed.
Lemma rep_isright m C a c d l r : rep m C (T a c d l r) → isright m a = Ok (negb (side C)).
Proof.
  intros H. destruct (rep_up_node _ _ _ _ _ _ _ H) as (Hp & _ & _ & _ & _ & _ & n & Hn & Hc & Ho & _). unfold isright. rewrite Hp. rbind. rewrite (rd_Ok _ _ _ _ Hn). rbind.
  unfold child in *. destruct (side C); cbn in *; [by rewrite bool_decide_false|by rewrite bool_decide_true].
Qed.
Lemma rep_isroot m C a c d l r : rep m C (T a c d l r) → isroot m a = Ok (top C).
Proof.
  intros H. destruct (rep_up_node _ _ _ _ _ _ _ H) as (Hp & _ & _ & _ & _ & _ & n & Hn & _ & _ & Ht). unfold isroot. rewrite Hp. rbind. rewrite (rd_Ok _ _ _ _ Hn). rbind. f_equal.
  destruct (top C); [apply bool_decide_true; tauto|apply bool_decide_false; naive_solver].
Qed.
Lemma rep_node_sentinel m C a c d l r : rep m C (T a c d l r) → issentinel m a = Ok false.
Proof.
  intros H. destruct (rep_up_node _ _ _ _ _ _ _ H) as (_ & Hl & _ & _ & _ & Hnil & _). unfold issentinel. rewrite Hl. rbind. rewrite bool_decide_false; [done|]. intros E.
  destruct H as [_ _ Hnd]. apply NoDup_cons in Hnd as [_ Hnd]. apply NoDup_dj in Hnd as (_ & _ & Hnd). cbn in Hnd. apply NoDup_cons in Hnd as [Hnd _]. pose proof (ptr_in l). set_solver.
Qed.
Lemma rep_issentinel m C t : rep m C t → issentinel m (ptr t) = Ok (match t with E => true | _ => false end).
Proof. intros H. destruct t; [by apply rep_sentinel in H|by apply rep_node_sentinel in H]. Qed.
Lemma rep_sibling m F C a c d l r : rep m (F :: C) (T a c d l r) → sibling m a = Ok (ptr (ft F)).
Proof.
  intros H. unfold sibling. rewrite (rep_isright _ _ _ _ _ _ _ H). rbind. destruct (rep_up_node _ _ _ _ _ _ _ H) as (Hp & _). rewrite Hp. rbind.
  destruct H as [(Hf & _) _ _]. cbn [up side]. by destruct (fs F); cbn [negb]; rewrite (rd_Ok _ _ _ _ Hf).
Qed.

(** ** Entries in order *)

Fixpoint elems t : list (loc * (K * option V)) := match t with E => [] | T a _ d l r => elems l ++ (a, d) :: elems r end.
Fixpoint pre C : list (loc * (K * option V)) :=
  match C with [] => [] | F :: C => pre C ++ (if fs F then [] else elems (ft F) ++ [(fa F, fd F)]) end.
Fixpoint post C : list (loc * (K * option V)) :=
  match C with [] => [] | F :: C => (if fs F then (fa F, fd F) :: elems (ft F) else []) ++ post C end.

Lemma elems_plug C t : elems (plug C t) = pre C ++ elems t ++ post C.
Proof.
  revert t. induction C as [|F C IH]; intros t; cbn [plug foldl pre post]; [by rewrite app_nil_r|]. change (foldl (λ t F, plug1 F t) (plug1 F t) C) with (plug C (plug1 F t)). rewrite IH.
  unfold plug1, mk. destruct (fs F); cbn [elems]; rewrite ?app_nil_r, <-?app_assoc; cbn; by rewrite <-?app_assoc.
Qed.

Lemma plug_app D C t : plug (D ++ C) t = plug C (plug D t).
Proof. apply foldl_app. Qed.

Lemma elems_locs t : (elems t).*1 ≡ₚ locs t.
Proof. induction t as [|a c d l IHl r IHr]; [done|]. cbn [elems locs]. rewrite fmap_app, fmap_cons, IHl, IHr. cbn. solve_Permutation. Qed.

(** ** Balance *)

(** Red nodes have black children, and every way down has [n] black nodes. *)
Fixpoint bal (n : nat) t : Prop :=
  match t with
  | E => n = 0%nat
  | T _ c _ l r => if c then color l = false ∧ color r = false ∧ bal n l ∧ bal n r else match n with O => False | S n => bal n l ∧ bal n r end
  end.
(** What a place needs: a tree of [n] black nodes, and a black one below a red node *)
Definition ccol C : bool := match C with [] => false | F :: _ => fc F end.
Fixpoint cbal (n : nat) C : Prop :=
  match C with
  | [] => True
  | F :: C => bal n (ft F) ∧ if fc F then color (ft F) = false ∧ ccol C = false ∧ cbal n C else cbal (S n) C
  end.

Lemma bal_mk n s a c d t u : bal n (mk s a c d t u) ↔ if c then color t = false ∧ color u = false ∧ bal n t ∧ bal n u else match n with O => False | S n => bal n t ∧ bal n u end.
Proof. destruct s, c, n; cbn; tauto. Qed.
Lemma color_mk s a c d t u : color (mk s a c d t u) = c.
Proof. by destruct s. Qed.

Lemma bal_plug n C t : bal n t → cbal n C → (color t = true → ccol C = false) → ∃ N, bal N (plug C t).
Proof.
  revert n t. induction C as [|F C IH]; intros n t Ht HC Hc; [by exists n|]. cbn [plug foldl cbal ccol] in *. destruct HC as [Hs HC]. unfold plug1. destruct (fc F) eqn:Ec.
  - destruct HC as (Hcs & HcC & HC). apply (IH n); [apply bal_mk; rewrite ?Ec; repeat split; try done; destruct (color t); [by specialize (Hc eq_refl)|done]|done|done].
  - apply (IH (S n)); [apply bal_mk; by split|done|by rewrite color_mk].
Qed.

Lemma bal_unplug N C t : bal N (plug C t) → ∃ n, bal n t ∧ cbal n C ∧ (color t = true → ccol C = false).
Proof.
  revert t. induction C as [|F C IH]; intros t H; [by exists N|]. cbn [plug foldl] in H. apply IH in H as (n & Ht & HC & Hc). unfold plug1 in *. rewrite color_mk in Hc. apply bal_mk in Ht. cbn [cbal ccol].
  destruct (fc F) eqn:Ec.
  - destruct Ht as (H1 & H2 & H3 & H4). exists n. split; [done|]. split; [split; [done|]; split; [done|]; split; [by apply Hc|done]|]. congruence.
  - destruct n as [|n]; [done|]. destruct Ht as [H1 H2]. exists n. auto.
Qed.

(** The height of a balanced tree is logarithmic: [n] black nodes on every way, at most as
    many red ones and one more, and at least [2 ^ n - 1] nodes. *)
Fixpoint height t : nat := match t with E => 0 | T _ _ _ l r => S (Nat.max (height l) (height r)) end.
Lemma bal_height n t : bal n t → (height t <= 2 * n + (if color t then 1 else 0))%nat ∧ (2 ^ n <= length (elems t) + 1)%nat.
Proof.
  revert n. induction t as [|a c d l IHl r IHr]; intros n; cbn [bal height elems color]; [intros ->; cbn; lia|]. rewrite length_app. cbn [length]. destruct c.
  - intros (Hl & Hr & H1 & H2). destruct (IHl n H1) as [A1 A2], (IHr n H2) as [B1 B2]. rewrite Hl in A1. rewrite Hr in B1. lia.
  - destruct n as [|n]; [done|]. intros (H1 & H2). destruct (IHl n H1) as [A1 A2], (IHr n H2) as [B1 B2]. rewrite Nat.pow_succ_r'. destruct (color l), (color r); lia.
Qed.

(** *** A new leaf *)

Lemma insert_leaf m C z d : rep m C E → z ∉ dom m → z ∉ nil :: clocs C →
  ∃ m', wr (set_child (side C) z) (<[z := Node d.2 d.1 (up C) nil nil true]> m) (up C) = Ok m' ∧ dom m' = {[z]} ∪ dom m ∧ rep m' C (T z true d E E).
Proof.
  intros [HC _ Hnd] Hz Hz'. cbn [ptr locs] in *. rewrite app_nil_r in Hnd. apply not_elem_of_cons in Hz' as [Hz1 Hz2]. pose proof (up_ne C z Hz1 Hz2) as Hup.
  destruct (ctx_child m C nil HC Hnd) as (n & Hn & _ & _ & HC'). specialize (HC' z). set (n0 := Node d.2 d.1 (up C) nil nil true).
  assert (Hn' : <[z := n0]> m !! up C = Some n) by by rewrite lookup_insert_ne. rewrite (wr_Ok _ _ _ _ Hn'). eexists. split; [done|]. split.
  - rewrite dom_insert_lookup_L by eauto. by rewrite dom_insert_L.
  - rewrite insert_insert_ne by done. constructor.
    + apply ctx_write; [done|done|exact HC'].
    + cbn. by rewrite lookup_insert_eq.
    + cbn. rewrite (Permutation_app_comm (clocs C)). cbn. apply NoDup_cons in Hnd as [? ?]. apply NoDup_cons. split; [set_solver|]. by apply NoDup_cons.
Qed.

(** The memory has room for the nodes: enough fuel for every walk *)
Lemma at_dom m p t : at_ m p t → ∀ a, a ∈ locs t → a ∈ dom m.
Proof.
  revert p. induction t as [|b c d l IHl r IHr]; intros p; cbn [at_ locs]; [set_solver|]. intros (Hb & Hl & Hr) a. rewrite elem_of_cons, elem_of_app.
  intros [->|[Hin|Hin]]; [by apply elem_of_dom_2 in Hb|by apply (IHl b)|by apply (IHr b)].
Qed.
Lemma plug_locs C t : locs (plug C t) ≡ₚ clocs C ++ locs t.
Proof.
  revert t. induction C as [|F C IH]; intros t; [done|]. cbn [plug foldl]. change (foldl (λ t F, plug1 F t) (plug1 F t) C) with (plug C (plug1 F t)). rewrite IH. unfold plug1. rewrite mk_locs. unfold clocs. cbn. solve_Permutation.
Qed.
Lemma rep_size m C t : rep m C t → (length (clocs C) + length (locs t) < size m)%nat.
Proof.
  intros H. apply rep_plug in H. pose proof (plug_locs C t) as HP. destruct H as [HC Ha Hnd]. cbn [clocs fmap list_fmap concat app up at_ctx] in *. destruct HC as (it & k & q & Hn).
  assert (Hsub : list_to_set (nil :: locs (plug C t)) ⊆ dom m).
  { intros a. rewrite elem_of_list_to_set, elem_of_cons. intros [->|Hin]; [by apply elem_of_dom_2 in Hn|by eapply at_dom]. }
  apply subseteq_size in Hsub. rewrite size_list_to_set in Hsub by done. rewrite size_dom in Hsub. cbn [length] in Hsub. rewrite HP, length_app in Hsub. lia.
Qed.
Lemma ctx_length C : (length C <= length (clocs C))%nat.
Proof. induction C as [|F C IH]; [done|]. unfold clocs in *. cbn. rewrite length_app. lia. Qed.
Lemma height_locs t : (height t <= length (locs t))%nat.
Proof. induction t as [|a c d l IHl r IHr]; cbn; [done|]. rewrite length_app. lia. Qed.

(** ** After an insertion *)

(** The tree is balanced again, with the same entries. *)
Definition balanced m (D : gset loc) (es : list (loc * (K * option V))) : Prop :=
  ∃ t N, rep m [] t ∧ bal N t ∧ elems t = es ∧ dom m = D.

Lemma plug_balanced m C t n : rep m C t → bal n t → cbal n C → (color t = true → ccol C = false) → balanced m (dom m) (elems (plug C t)).
Proof. intros Hr Ht HC Hc. destruct (bal_plug n C t Ht HC Hc) as [N HN]. exists (plug C t), N. split; [by apply (rep_plug m C t)|]. done. Qed.

Lemma and_then_Ok (a b : res bool) x y : a = Ok x → b = Ok y → and_then a b = Ok (x && y).
Proof. intros -> ->. by destruct x. Qed.

(** Two red nodes, one below the other, whose uncle is black, or none at all *)
Lemma insert_fix_Ok m Fy Fx C t n : rep m (Fy :: Fx :: C) t → color t = true → bal n t → cbal n (Fy :: Fx :: C) → fc Fy && color (ft Fx) = false →
  ∃ m', insert_fix m nil (fa Fx) (fa Fy) (ptr t) = Ok m' ∧ balanced m' (dom m) (elems (plug (Fy :: Fx :: C) t)).
Proof.
  intros Hrep Hred Hbal HC Hunc. destruct t as [|z cz dz l r]; [done|]. cbn in Hred. subst cz. destruct Fy as [sy y cy dy uy], Fx as [sx x cx dx ux]. cbn [fa fc ft fs fd] in *.
  pose proof (rep_zip _ _ _ _ Hrep) as Hy. unfold insert_fix.
  assert (Ery : isred m y = Ok cy) by (pose proof (rep_red _ _ _ Hy) as H; unfold plug1 in H; by rewrite mk_ptr, color_mk in H).
  rewrite (and_then_Ok _ _ cy true Ery (rep_red _ _ _ Hrep)). rbind. rewrite andb_true_r. destruct cy; [|exists m; split; [done|]; by apply (plug_balanced m _ _ n)].
  cbn in Hunc. destruct HC as (Huy & Hcuy & Hcx & Hux & HC). cbn in Hcx. subst cx.
  pose proof (rep_zip _ _ _ _ Hy) as Hx. unfold plug1 in Hx, Hy. cbn [fs fa fc fd ft] in Hx, Hy.
  assert (Hxn : x ≠ nil) by (destruct sx; by destruct (rep_up_node _ _ _ _ _ _ _ Hx) as (_ & _ & _ & _ & _ & Hn & _)).
  rewrite bool_decide_false by done.
  assert (Ely : isleft m y = Ok sx ∧ isright m y = Ok (negb sx)) by (destruct sy; split; [apply (rep_isleft _ _ _ _ _ _ _ Hy)|apply (rep_isright _ _ _ _ _ _ _ Hy)|apply (rep_isleft _ _ _ _ _ _ _ Hy)|apply (rep_isright _ _ _ _ _ _ _ Hy)]).
  destruct Ely as [Ely Eryt]. cbn [ptr]. pose proof (rep_isleft _ _ _ _ _ _ _ Hrep) as Elz. pose proof (rep_isright _ _ _ _ _ _ _ Hrep) as Erz. cbn [side fs] in Elz, Erz.
  rewrite (and_then_Ok _ _ _ _ Ely Elz), (and_then_Ok _ _ _ _ Eryt Erz).
  assert (Epx : rd parent m x = Ok (up C)) by (destruct sx; apply (rep_up_node _ _ _ _ _ _ _ Hx)).
  assert (Ec : or_else (Ok (sx && sy)) (Ok (negb sx && negb sy)) = Ok (eqb sx sy)) by (by destruct sx, sy). rewrite Ec. rbind. rewrite Epx. rbind. cbn [bal] in Hbal.
  destruct (eqb sx sy) eqn:Es.
  - apply eqb_prop in Es as <-. rewrite Elz. rbind. destruct (single_rotate_Ok m C sx y true dy (T z true dz l r) uy x false dx ux Hx) as (m1 & -> & Hd1 & H1). rbind.
    rewrite <-mk_neg in H1. destruct (set_red_child m1 C _ _ _ _ _ _ _ true _ _ _ _ H1) as (m2 & E2 & Hd2 & H2). unfold setred. rewrite E2. rbind. rewrite mk_neg in H2.
    destruct (set_red_Ok m2 C _ _ _ false _ _ _ H2) as (m3 & E3 & Hd3 & H3). unfold setblack. rewrite E3. exists m3. split; [done|].
    destruct (plug_balanced m3 C _ (S n) H3) as (t' & N & Hr' & Hb' & He' & Hd'); [apply bal_mk; split; [cbn; tauto|]; apply bal_mk; tauto|done|by rewrite color_mk|].
    exists t', N. split; [done|]. split; [done|]. split; [|congruence]. rewrite He'. cbn [plug foldl]. rewrite elems_plug.
    change (foldl (λ t F, plug1 F t) ?t C) with (plug C t). rewrite elems_plug. do 2 f_equal. unfold plug1, mk. destruct sx; cbn; rewrite <-?app_assoc; cbn; rewrite <-?app_assoc; done.
  - assert (sy = negb sx) as -> by (by destruct sx, sy). rewrite mk_neg, (tree_mk sx z) in Hx. set (t2 := if sx then l else r) in *. set (t3 := if sx then r else l) in *.
    destruct (double_rotate_Ok m C sx z true dz t2 t3 y true dy uy x false dx ux Hx) as (m1 & -> & Hd1 & H1). rbind.
    rewrite <-mk_neg in H1. destruct (set_red_child m1 C _ _ _ _ _ _ _ true _ _ _ _ H1) as (m2 & E2 & Hd2 & H2). unfold setred. rewrite E2. rbind. rewrite mk_neg in H2.
    destruct (set_red_Ok m2 C _ _ _ false _ _ _ H2) as (m3 & E3 & Hd3 & H3). unfold setblack. rewrite E3. exists m3. split; [done|].
    destruct (plug_balanced m3 C _ (S n) H3) as (t' & N & Hr' & Hb' & He' & Hd'); [apply bal_mk; split; apply bal_mk; unfold t2, t3; destruct sx; tauto|done|by rewrite color_mk|].
    exists t', N. split; [done|]. split; [done|]. split; [|congruence]. rewrite He'. cbn [plug foldl]. rewrite elems_plug.
    change (foldl (λ t F, plug1 F t) ?t C) with (plug C t). rewrite elems_plug. do 2 f_equal. unfold plug1, mk, t2, t3. destruct sx; cbn; rewrite <-?app_assoc; cbn; rewrite <-?app_assoc; done.
Qed.

(** The children of a node, and what the recolouring does to them *)
Lemma kids m C s x cx dx t u : rep m C (mk s x cx dx t u) →
  rd left m x = Ok (ptr (if s then t else u)) ∧ rd right m x = Ok (ptr (if s then u else t)) ∧ and_then (isred m (ptr (if s then t else u))) (isred m (ptr (if s then u else t))) = Ok (color t && color u).
Proof.
  intros H. pose proof (rep_node _ _ _ _ _ _ _ _ H) as Hn. rewrite !(rd_Ok _ _ _ _ Hn). pose proof (rep_unzip m (Fr s x cx dx u) C t H) as Ht. pose proof Ht as Hu. apply rep_swap in Hu. cbn [ft] in Hu.
  apply rep_red in Ht, Hu. destruct s; cbn; (split; [done|]; split; [done|]); erewrite and_then_Ok by done; [done|]. by rewrite andb_comm.
Qed.

Definition blacken t : tree := match t with E => E | T a _ d l r => T a false d l r end.

Lemma blacken_child m C s x cx dx t u : rep m C (mk s x cx dx t u) → color t = true → ∃ m', setblack m (ptr t) = Ok m' ∧ dom m' = dom m ∧ rep m' C (mk s x cx dx (blacken t) u).
Proof. intros H Hc. destruct t as [|a c d l r]; [done|]. exact (set_red_child m C s x cx dx true a c false d l r u H). Qed.

Lemma recolor_kids m C s x cx dx t u : rep m C (mk s x cx dx t u) → color t = true → color u = true →
  ∃ m1, setblack m (ptr (if s then u else t)) = Ok m1 ∧ ∃ m2, setblack m1 (ptr (if s then t else u)) = Ok m2 ∧ ∃ m3, setred m2 x = Ok m3 ∧ dom m3 = dom m ∧ rep m3 C (mk s x true dx (blacken t) (blacken u)).
Proof.
  intros H Ht Hu. assert (Hgen : ∀ s' t' u', rep m C (mk s' x cx dx t' u') → color t' = true → color u' = true → ∃ m1, setblack m (ptr t') = Ok m1 ∧ ∃ m2, setblack m1 (ptr u') = Ok m2 ∧ ∃ m3, setred m2 x = Ok m3 ∧ dom m3 = dom m ∧ rep m3 C (mk s' x true dx (blacken t') (blacken u'))).
  { clear. intros s' t' u' H Ht Hu. destruct (blacken_child _ _ _ _ _ _ _ _ H Ht) as (m1 & E1 & D1 & H1). exists m1. split; [done|]. rewrite <-mk_neg in H1.
    destruct (blacken_child _ _ _ _ _ _ _ _ H1 Hu) as (m2 & E2 & D2 & H2). exists m2. split; [done|]. rewrite mk_neg in H2.
    destruct (set_red_Ok _ _ _ _ _ true _ _ _ H2) as (m3 & E3 & D3 & H3). exists m3. split; [done|]. split; [congruence|done]. }
  destruct s; [|by apply Hgen]. rewrite <-mk_neg in H. apply Hgen in H as (m1 & E1 & m2 & E2 & m3 & E3 & D3 & H3); [|done|done]. exists m1. split; [done|]. exists m2. split; [done|]. exists m3. split; [done|]. split; [done|].
  by rewrite mk_neg in H3.
Qed.

(** A red node [z] at a place: its parent is [y], and [x] is above. *)
Definition up2 C : loc := match C with [] => nil | _ :: C => up C end.

Lemma rep_two m C F1 F2 t : rep m (F1 :: F2 :: C) t → rep m C (mk (fs F2) (fa F2) (fc F2) (fd F2) (plug1 F1 t) (ft F2)).
Proof. intros H. by apply rep_zip, rep_zip in H. Qed.

Lemma insert_loop_Ok fuel : ∀ m C t n, rep m C t → C ≠ [] → color t = true → bal n t → cbal n C → (length C < fuel)%nat →
  ∃ m', ('(m, (x, y, z)) ← recolor fuel m (up2 C) (up C) (ptr t); insert_fix m nil x y z) = Ok m' ∧ balanced m' (dom m) (elems (plug C t)).
Proof.
  induction fuel as [|fuel IH]; intros m C t n Hrep Hne Hred Hbal HC Hf; [lia|]. destruct C as [|Fy [|Fx C]]; [done| |]; cbn [recolor up2 up].
  - pose proof (rep_zip _ _ _ _ Hrep) as Hy. destruct Fy as [sy y cy dy uy]. unfold plug1 in Hy. cbn [fs fa fc fd ft] in *.
    assert (Hs : ∃ it k q, m !! nil = Some (Node it k q nil y false)) by (destruct Hy as [Hy _ _]; by rewrite mk_ptr in Hy). destruct Hs as (it & k & q & Hs).
    rewrite !(rd_Ok _ _ _ _ Hs). rbind. cbn [left right]. unfold isred at 1. rewrite (rd_Ok _ _ _ _ Hs). rbind. cbn [red and_then]. unfold and_then at 1. rbind. unfold insert_fix.
    assert (Ery : isred m y = Ok cy) by (pose proof (rep_red _ _ _ Hy) as H; by rewrite mk_ptr, color_mk in H).
    rewrite (and_then_Ok _ _ cy true Ery); [|by rewrite (rep_red _ _ _ Hrep), Hred]. rbind. rewrite andb_true_r. destruct HC as [Huy HC]. cbn [ft fc] in *.
    destruct cy; [|exists m; split; [done|]; by apply (plug_balanced m _ _ n)]. rewrite bool_decide_true by done.
    destruct (set_red_Ok m [] sy y true false dy t uy Hy) as (m1 & E1 & Hd1 & H1). unfold setblack. rewrite E1. exists m1. split; [done|].
    exists (mk sy y false dy t uy), (S n). split; [done|]. split; [by apply bal_mk|]. split; [|done]. unfold plug, plug1, mk. cbn. by destruct sy.
  - pose proof (rep_two _ _ _ _ _ Hrep) as Hx. destruct Fy as [sy y cy dy uy], Fx as [sx x cx dx ux]. unfold plug1 in Hx. cbn [fs fa fc fd ft] in *.
    destruct (kids m C sx x cx dx _ _ Hx) as (El & Er & Ered). rewrite El, Er. rbind. rewrite Ered, color_mk. rbind. destruct (cy && color ux) eqn:Eb.
    + apply andb_true_iff in Eb as [-> Hcu]. destruct HC as (Huy & Hcuy & Hcx & Hux & HC). cbn [fc ft ccol] in *. subst cx.
      destruct (recolor_kids m C sx x false dx _ _ Hx) as (m1 & E1 & m2 & E2 & m3 & E3 & Hd & H3); [by rewrite color_mk|done|]. rewrite E1. rbind. rewrite E2. rbind. rewrite E3. rbind.
      assert (Hy' : blacken (mk sy y true dy t uy) = mk sy y false dy t uy) by (by destruct sy). rewrite Hy' in H3. set (X := mk sx x true dx (mk sy y false dy t uy) (blacken ux)) in *.
      assert (HbX : bal (S n) X). { apply bal_mk. rewrite color_mk. split; [done|]. split; [by destruct ux|]. split; [by apply bal_mk|]. destruct ux; [done|]. cbn in Hcu, Hux |- *. subst. tauto. }
      assert (HeX : elems (plug C X) = elems (plug (Fr sy y true dy uy :: Fr sx x false dx ux :: C) t)).
      { cbn [plug foldl]. change (foldl (λ t F, plug1 F t) ?t C) with (plug C t). rewrite !elems_plug. do 2 f_equal. unfold X, plug1, mk. destruct sx, sy, ux; done. }
      assert (Hroot : isroot m3 x = Ok (top C)) by (unfold X in H3; destruct sx; apply (rep_isroot _ _ _ _ _ _ _ H3)). rewrite Hroot. rbind. destruct C as [|F C]; cbn [top].
      * rbind. assert (Ery : isred m3 y = Ok false).
        { pose proof (rep_unzip m3 (Fr sx x true dx (blacken ux)) [] (mk sy y false dy t uy) H3) as H. apply rep_red in H. by rewrite mk_ptr, color_mk in H. }
        unfold insert_fix, and_then. rewrite Ery. rbind. exists m3. split; [done|]. rewrite <-HeX, <-Hd. by apply (plug_balanced m3 [] X (S n)).
      * assert (Hpx : rd parent m3 x = Ok (fa F)) by (unfold X in H3; destruct sx; apply (rep_up_node _ _ _ _ _ _ _ H3)). rewrite Hpx. rbind.
        pose proof (rep_zip _ _ _ _ H3) as HF. assert (HpF : rd parent m3 (fa F) = Ok (up C)) by (unfold plug1 in HF; destruct (fs F); apply (rep_up_node _ _ _ _ _ _ _ HF)). rewrite HpF. rbind.
        destruct (IH m3 (F :: C) X (S n) H3) as (m' & E' & Hb'); [done|unfold X; by rewrite color_mk|done|done|cbn in *; lia|]. unfold X in E' at 1. rewrite mk_ptr in E'. cbn [up2 up] in E'.
        exists m'. split; [exact E'|]. by rewrite HeX, Hd in Hb'.
    + rbind. by apply (insert_fix_Ok m (Fr sy y cy dy uy) (Fr sx x cx dx ux) C t n).
Qed.

(** ** Neighbours *)

Lemma tree_E t : t = E ∨ t ≠ E.
Proof. destruct t; [by left|by right]. Qed.

(** The outermost node on side [s], with no child there *)
Lemma down_gen s m C t fuel (walk : nat → loc → res loc) :
  (∀ n x, walk (S n) x = (c ← rd (if s then left else right) m x; b ← issentinel m c; if b : bool then Ok x else walk n c)) →
  t ≠ E → rep m C t → (height t <= fuel)%nat →
  ∃ D a c d u, walk fuel (ptr t) = Ok a ∧ t = plug D (mk s a c d E u) ∧ Forall (λ F, fs F = s) D.
Proof.
  intros Hw. revert C t. induction fuel as [|fuel IH]; intros C t Hne Hrep Hf; [destruct t; cbn in Hf; [done|lia]|]. destruct t as [|a c d l r]; [done|]. cbn [ptr height] in *. rewrite Hw.
  rewrite (tree_mk s) in Hrep |- *. set (x := if s then l else r) in *. set (y := if s then r else l) in *.
  assert (Hx : rd (if s then left else right) m a = Ok (ptr x)) by (unfold x, y in *; destruct s; apply (rep_up_node _ _ _ _ _ _ _ Hrep)). rewrite Hx. rbind.
  pose proof (rep_unzip m (Fr s a c d y) C x Hrep) as Hx'. rewrite (rep_issentinel _ _ _ Hx'). rbind. destruct x as [|a' c' d' l' r'] eqn:Ex.
  - exists [], a, c, d, y. done.
  - destruct (IH (Fr s a c d y :: C) (T a' c' d' l' r')) as (D & b & cb & db & u & E' & Et & HD); [done|done|unfold x in Ex; destruct s; subst; cbn in *; lia|].
    exists (D ++ [Fr s a c d y]), b, cb, db, u. split; [exact E'|]. split; [by rewrite plug_app, <-Et|]. apply Forall_app. split; [done|by constructor].
Qed.

Lemma down_Ok s m C t fuel : t ≠ E → rep m C t → (height t <= fuel)%nat →
  ∃ D a c d u, down fuel (if s then left else right) m (ptr t) = Ok a ∧ t = plug D (mk s a c d E u) ∧ Forall (λ F, fs F = s) D.
Proof. apply (down_gen s m C t fuel (λ n x, down n (if s then left else right) m x)). done. Qed.

(** At the root of the tree the test on [rb] is the test for a sentinel. *)
Lemma down_to_Ok s m t fuel : t ≠ E → rep m [] t → (height t <= fuel)%nat →
  ∃ D a c d u, down_to fuel (if s then left else right) m nil (ptr t) = Ok a ∧ t = plug D (mk s a c d E u) ∧ Forall (λ F, fs F = s) D.
Proof.
  intros Hne Hrep Hf. destruct (down_Ok s m [] t fuel Hne Hrep Hf) as (D & a & c & d & u & E' & Hrest). exists D, a, c, d, u. split; [|done]. clear Hrest. rewrite <-E'.
  assert (Hgen : ∀ C t, rep m C t → t ≠ E → (height t <= fuel)%nat → down_to fuel (if s then left else right) m nil (ptr t) = down fuel (if s then left else right) m (ptr t)); [|by apply (Hgen [])].
  clear. induction fuel as [|fuel IH]; intros C t Hrep Hne Hf; [done|]. destruct t as [|a c d l r]; [done|]. cbn [ptr height down_to down] in *. rewrite (tree_mk s) in Hrep. set (x := if s then l else r) in *. set (y := if s then r else l) in *.
  assert (Hx : rd (if s then left else right) m a = Ok (ptr x)) by (unfold x, y in *; destruct s; apply (rep_up_node _ _ _ _ _ _ _ Hrep)). rewrite Hx. rbind.
  pose proof (rep_unzip m (Fr s a c d y) C x Hrep) as Hx'. rewrite (rep_issentinel _ _ _ Hx'). rbind. destruct x as [|a' c' d' l' r'] eqn:Ex; [by rewrite bool_decide_true|].
  destruct (rep_up_node _ _ _ _ _ _ _ Hx') as (_ & _ & _ & _ & _ & Hn & _). rewrite bool_decide_false by done. apply (IH (Fr s a c d y :: C)); [done|done|]. unfold x in Ex; destruct s; subst; cbn in *; lia.
Qed.

(** The first of the entries behind, the last of the entries before *)
Definition nextp (l : list (loc * (K * option V))) : loc := match l with [] => nil | e :: _ => e.1 end.
Definition prevp (l : list (loc * (K * option V))) : loc := default nil (fst <$> last l).

Lemma climb_right fuel : ∀ m C a c d l r, rep m C (T a c d l r) → (length C < fuel)%nat → climb fuel isright m a = Ok (nextp (post C)).
Proof.
  induction fuel as [|fuel IH]; intros m C a c d l r Hrep Hf; [lia|]. cbn [climb]. destruct (rep_up_node _ _ _ _ _ _ _ Hrep) as (Hp & _). rewrite Hp. rbind. destruct C as [|F C]; cbn [up].
  - rewrite (rep_sentinel _ _ _ Hrep). done.
  - pose proof (rep_zip _ _ _ _ Hrep) as HF. unfold plug1 in HF. assert (Hs : issentinel m (fa F) = Ok false) by (destruct (fs F); apply (rep_node_sentinel _ _ _ _ _ _ _ HF)). rewrite Hs. rbind.
    rewrite (rep_isright _ _ _ _ _ _ _ Hrep). rbind. cbn [side post]. destruct (fs F) eqn:Es; cbn [negb]; [done|]. cbn in Hf. apply (IH _ _ _ _ _ _ _ HF). lia.
Qed.
Lemma climb_left fuel : ∀ m C a c d l r, rep m C (T a c d l r) → (length C < fuel)%nat → climb fuel isleft m a = Ok (prevp (pre C)).
Proof.
  induction fuel as [|fuel IH]; intros m C a c d l r Hrep Hf; [lia|]. cbn [climb]. destruct (rep_up_node _ _ _ _ _ _ _ Hrep) as (Hp & _). rewrite Hp. rbind. destruct C as [|F C]; cbn [up].
  - rewrite (rep_sentinel _ _ _ Hrep). done.
  - pose proof (rep_zip _ _ _ _ Hrep) as HF. unfold plug1 in HF. assert (Hs : issentinel m (fa F) = Ok false) by (destruct (fs F); apply (rep_node_sentinel _ _ _ _ _ _ _ HF)). rewrite Hs. rbind.
    rewrite (rep_isleft _ _ _ _ _ _ _ Hrep). rbind. cbn [side pre]. destruct (fs F) eqn:Es.
    + rewrite app_nil_r. cbn in Hf. apply (IH _ _ _ _ _ _ _ HF). lia.
    + unfold prevp. by rewrite app_assoc, last_snoc.
Qed.

Lemma pre_left D : Forall (λ F, fs F = true) D → pre D = [].
Proof. induction 1 as [|F D HF _ IH]; [done|]. cbn. by rewrite IH, HF. Qed.
Lemma post_right D : Forall (λ F, fs F = false) D → post D = [].
Proof. induction 1 as [|F D HF _ IH]; [done|]. cbn. by rewrite IH, HF. Qed.

Lemma rb_first_Ok m t : rep m [] t → rb_first m nil = Ok (nextp (elems t)).
Proof.
  intros Hrep. unfold rb_first. pose proof Hrep as [(it & k & q & Hs) _ _]. rewrite (rd_Ok _ _ _ _ Hs). rbind. cbn [right]. destruct (tree_E t) as [->|Hne].
  - cbn [ptr down_to]. rewrite (rd_Ok _ _ _ _ Hs). rbind. cbn [left]. by rewrite bool_decide_true.
  - destruct (down_to_Ok true m t (S (size m)) Hne Hrep) as (D & a & c & d & u & E' & -> & HD); [pose proof (rep_size _ _ _ Hrep); pose proof (height_locs t); lia|]. rewrite E', elems_plug, (pre_left D HD). done.
Qed.

Lemma rb_next_Ok m C a c d l r : rep m C (T a c d l r) → rb_next m a = Ok (nextp (elems r ++ post C)).
Proof.
  intros Hrep. unfold rb_next. rewrite (rep_node_sentinel _ _ _ _ _ _ _ Hrep). rbind. destruct (rep_up_node _ _ _ _ _ _ _ Hrep) as (_ & _ & Hr & _). rewrite Hr. rbind. pose proof (rep_size _ _ _ Hrep) as Hsz. pose proof (ctx_length C).
  pose proof (rep_unzip m (Fr false a c d l) C r Hrep) as Hr'. rewrite (rep_issentinel _ _ _ Hr'). rbind. destruct (tree_E r) as [->|Hne].
  - cbn [negb]. by apply (climb_right _ m C a c d l E); [|lia].
  - destruct (down_Ok true m _ r (S (size m)) Hne Hr') as (D & b & cb & db & u & E' & -> & HD); [pose proof (height_locs r); cbn in Hsz; rewrite length_app in Hsz; lia|]. rewrite E', elems_plug, (pre_left D HD).
    destruct (plug D (mk true b cb db E u)); [done|]. done.
Qed.
Lemma rb_prev_Ok m C a c d l r : rep m C (T a c d l r) → rb_prev m a = Ok (prevp (pre C ++ elems l)).
Proof.
  intros Hrep. unfold rb_prev. rewrite (rep_node_sentinel _ _ _ _ _ _ _ Hrep). rbind. destruct (rep_up_node _ _ _ _ _ _ _ Hrep) as (_ & Hl & _). rewrite Hl. rbind. pose proof (rep_size _ _ _ Hrep) as Hsz. pose proof (ctx_length C).
  pose proof (rep_unzip m (Fr true a c d r) C l Hrep) as Hl'. rewrite (rep_issentinel _ _ _ Hl'). rbind. destruct (tree_E l) as [->|Hne].
  - cbn [negb elems]. rewrite app_nil_r. by apply (climb_left _ m C a c d E r); [|lia].
  - destruct (down_Ok false m _ l (S (size m)) Hne Hl') as (D & b & cb & db & u & E' & -> & HD); [pose proof (height_locs l); cbn in Hsz; rewrite length_app in Hsz; lia|].
    change (mk false b cb db E u) with (T b cb db u E) in *. rewrite elems_plug, (post_right D HD), app_nil_r. cbn [elems]. unfold prevp. rewrite !app_assoc, last_snoc. destruct (plug D (T b cb db u E)); [done|]. exact E'.
Qed.

(** ** Taking a node out *)

Definition sibp C : loc := match C with [] => nil | F :: _ => ptr (ft F) end.

(** The node above a place, which has the child [a] *)
Lemma above_Ok m C a : at_ctx m C a → NoDup (nil :: clocs C) → a ∉ nil :: clocs C →
  ∃ n, m !! up C = Some n ∧ bool_decide (left n = a) = side C ∧ child (negb (side C)) n = sibp C ∧
    ∀ x, set_child (side C) x n = (if side C then set_left x else set_right x) n ∧ at_ctx (<[up C := set_child (side C) x n]> m) C x.
Proof.
  intros HC Hnd Ha. destruct (ctx_child m C a HC Hnd) as (n & Hn & Hch & Hoth & HC'). exists n. split; [done|]. split; [|split; [|intros x; split; [by destruct (side C)|apply HC']]].
  - unfold child in *. destruct (side C); cbn in *; [by apply bool_decide_true|]. apply bool_decide_false. intros E'. by rewrite E' in Hoth.
  - destruct C as [|F C]; cbn [at_ctx up side sibp] in *; [destruct HC as (it & k & q & H); rewrite Hn in H; by injection H as ->|].
    destruct HC as (H & _). rewrite Hn in H. injection H as ->. unfold nd, child. by destruct (fs F).
Qed.

(** A tree in the place of another one *)
Lemma replace_hole m C a u p : at_ctx m C a → at_ m p u → NoDup (nil :: clocs C ++ locs u) → a ∉ nil :: clocs C →
  ∃ m1 m', wr (if side C then set_left (ptr u) else set_right (ptr u)) m (up C) = Ok m1 ∧ rd (if side C then right else left) m1 (up C) = Ok (sibp C) ∧ wr (set_parent (up C)) m1 (ptr u) = Ok m' ∧
    rep m' C u ∧ dom m' = dom m ∧ ∀ b, b ∉ nil :: clocs C ++ locs u → m' !! b = m !! b.
Proof.
  intros HC Hu Hnew Ha. pose proof Hnew as Hnd. nodup Hnd. assert (HndC : NoDup (nil :: clocs C)) by (by apply NoDup_cons). remember (dom m) as D eqn:HD. symmetry in HD.
  destruct (above_Ok m C a HC HndC) as (n & Hn & _ & Hsib & HC'); [by apply not_elem_of_cons|]. destruct (HC' (ptr u)) as [Es HC1]. clear HC HC'.
  rewrite (wr_Ok _ _ _ _ Hn), <-Es. set (m1 := <[up C := set_child (side C) (ptr u) n]> m) in *. exists m1.
  assert (Hu1 : at_ m1 p u) by (apply at_write; [disj|done]). assert (Hd1 : dom m1 = D) by (unfold m1; by rewrite dom_insert_lookup_L by eauto).
  destruct (at_root m1 p u C _ Hu1 HC1 Hnew) as (nu & Hnu & Hq). destruct (Hq (up C)) as (Hu2 & HC2 & _). eexists. split; [done|].
  split; [unfold m1; rewrite (rd_Ok _ _ _ _ (lookup_insert_eq _ _ _)); unfold child, set_child in *; by destruct (side C); cbn in *; rewrite Hsib|]. split; [by rewrite (wr_Ok _ _ _ _ Hnu)|].
  split; [by constructor|]. split; [by rewrite dom_insert_lookup_L by eauto|]. intros b Hb. pose proof (ptr_in u). pose proof (up_in C).
  rewrite lookup_insert_ne by set_solver. unfold m1. rewrite lookup_insert_ne; [done|]. set_solver.
Qed.

(** A node [y] in the place of [a] *)
Lemma replace_node m C a c d l r y ny : rep m C (T a c d l r) → m !! y = Some ny → y ∉ nil :: clocs C ++ locs (T a c d l r) →
  ∃ m', (∀ {B} (ret : mem → bool → res B), (p ← rd parent m a; m ← wr (set_parent p) m y;
         l ← rd left m a; m ← wr (set_parent y) m l;
         r ← rd right m a; m ← wr (set_parent y) m r;
         m ← wr (set_left l) m y; m ← wr (set_right r) m y;
         b ← isleft m a; m ← wr (if b : bool then set_left y else set_right y) m p;
         e ← isred m y; f ← isred m a; m ← wr (set_red f) m y; ret m (negb e)) = ret m' (negb (red ny))) ∧ dom m' = dom m ∧ rep m' C (T y c (key ny, item ny) l r) ∧ m' !! a = m !! a.
Proof.
  intros Hrep Hy Hyin. pose proof (rep_node m C true a c d l r Hrep) as Ha. destruct Hrep as [HC (_ & Hl & Hr) Hnd]. cbn [ptr] in HC. cbn [nd] in Ha.
  assert (HP : nil :: clocs C ++ locs (T a c d l r) ≡ₚ nil :: a :: clocs C ++ locs l ++ locs r) by (cbn; solve_Permutation).
  assert (Hnd' : NoDup (y :: nil :: a :: clocs C ++ locs l ++ locs r)) by (apply NoDup_cons; rewrite <-HP; done). clear Hyin Hnd HP.
  assert (Hnew : NoDup (nil :: clocs C ++ locs (T y c (key ny, item ny) l r))).
  { assert (HP' : a :: nil :: clocs C ++ locs (T y c (key ny, item ny) l r) ≡ₚ y :: nil :: a :: clocs C ++ locs l ++ locs r) by (cbn; solve_Permutation). rewrite <-HP' in Hnd'. by apply NoDup_cons in Hnd' as [_ ?]. }
  remember (dom m) as D eqn:HD. symmetry in HD. rewrite Ha. nodup Hnd'. assert (HndC : NoDup (nil :: clocs C)) by (by apply NoDup_cons).
  destruct ny as [iy ky py ly ry cy]. cbn [key item red] in *. read. write. read. reparent l. read. reparent r. write. write.
  match goal with HC : at_ctx ?mm C a |- _ => destruct (above_Ok mm C a HC HndC) as (nn & Hnn & Hs & _ & HC'); [apply not_elem_of_cons; split; disj|]; destruct (HC' y) as [Es HC1]; clear HC HC' end.
  unfold isleft. read. rewrite Hs. rewrite (wr_Ok _ _ _ _ Hnn). rbind.
  match goal with |- context [<[up C := ?n']> ?mm] => replace n' with (set_child (side C) y nn) by (rewrite Es; by destruct (side C)); carry mm (up C) (set_child (side C) y nn) end.
  match goal with Z : _ !! up C = Some (set_child (side C) y nn) |- _ => clear Z end. unfold isred. read. write. eexists. split; [done|]. split; [done|]. split; [|done]. constructor; [done|cbn; auto|done].
Qed.

(** The left child [y] of [a], which has no right child, in the place of [a] *)
Lemma replace_with_left m C a c d y cy dy ly r : rep m C (T a c d (T y cy dy ly E) r) →
  ∃ m', (∀ {B} (ret : mem → loc → bool → res B), (sib ← rd right m a; b ← isleft m a; p ← rd parent m a;
         m ← wr (if b : bool then set_left y else set_right y) m p; m ← wr (set_parent p) m y;
         r ← rd right m a; m ← wr (set_right r) m y; r ← rd right m y; m ← wr (set_parent y) m r;
         e ← isred m y; f ← isred m a; m ← wr (set_red f) m y; ret m sib (negb e)) = ret m' (ptr r) (negb cy)) ∧ dom m' = dom m ∧ rep m' C (T y c dy ly r) ∧ m' !! a = m !! a.
Proof.
  intros Hrep. pose proof (rep_node m C true a c d _ _ Hrep) as Ha. destruct Hrep as [HC (_ & (Hy & Hl & _) & Hr) Hnd]. cbn [ptr] in *. cbn [nd] in Ha.
  assert (HP : nil :: clocs C ++ locs (T a c d (T y cy dy ly E) r) ≡ₚ nil :: a :: y :: clocs C ++ locs ly ++ locs r) by (cbn; rewrite app_nil_r; solve_Permutation).
  rewrite HP in Hnd. assert (Hnew : NoDup (nil :: clocs C ++ locs (T y c dy ly r))).
  { assert (HP' : a :: nil :: clocs C ++ locs (T y c dy ly r) ≡ₚ nil :: a :: y :: clocs C ++ locs ly ++ locs r) by (cbn; solve_Permutation). rewrite <-HP' in Hnd. by apply NoDup_cons in Hnd as [_ ?]. }
  remember (dom m) as D eqn:HD. symmetry in HD. rewrite Ha. nodup Hnd. assert (HndC : NoDup (nil :: clocs C)) by (by apply NoDup_cons).
  destruct (above_Ok m C a HC HndC) as (n & Hn & Hs & _ & HC'); [apply not_elem_of_cons; split; disj|]. destruct (HC' y) as [Es HC1]. clear HC HC' HP.
  unfold isleft. read. rewrite Hs. rewrite (wr_Ok _ _ _ _ Hn). rbind.
  match goal with |- context [<[up C := ?n']> ?mm] => replace n' with (set_child (side C) y n) by (rewrite Es; by destruct (side C)); carry mm (up C) (set_child (side C) y n) end.
  match goal with Z : _ !! up C = Some (set_child (side C) y n) |- _ => clear Z end. write. read. write. read. reparent r. unfold isred. read. write. eexists. split; [done|]. split; [done|]. split; [|done].
  constructor; [done|cbn; auto|done].
Qed.

Lemma rep_app m D C t : rep m (D ++ C) t ↔ rep m C (plug D t).
Proof. rewrite (rep_plug m (D ++ C)), plug_app. by rewrite <-rep_plug. Qed.

Lemma setblack_Ok m C t : rep m C t → ∃ m', setblack m (ptr t) = Ok m' ∧ dom m' = dom m ∧ rep m' C (blacken t).
Proof.
  intros H. destruct t as [|a c d l r]; [|exact (set_red_Ok m C true a c false d l r H)]. exists m. split; [|done]. destruct H as [HC _ _]. destruct (at_ctx_sentinel m C _ HC) as (it & k & q & h & Hn).
  unfold setblack. cbn [ptr]. rewrite (wr_Ok _ _ _ _ Hn). f_equal. by apply insert_id.
Qed.

(** The frames of a place matter for the balance by their colours and siblings only. *)
Lemma cbal_rename D s a c d a' d' u C n : cbal n (D ++ Fr s a c d u :: C) ↔ cbal n (D ++ Fr s a' c d' u :: C).
Proof. revert n. induction D as [|F D IH]; intros n; [done|]. cbn [app cbal]. pose proof (IH n). pose proof (IH (S n)). assert (ccol (D ++ Fr s a c d u :: C) = ccol (D ++ Fr s a' c d' u :: C)) as -> by (by destruct D). destruct (fc F); tauto. Qed.

Lemma bal_0 t : bal 0 t → color t = false → t = E.
Proof. destruct t as [|a [] d l r]; done. Qed.

(** A place whose tree lost a node: it is balanced, or the tree has one black node less
    on every way than it should. *)
Definition lost (b : bool) C t : Prop := ∃ n, bal n t ∧ if b then cbal (S n) C else cbal n C ∧ (color t = true → ccol C = false).

(** The left neighbour of [a] is [y], without right child *)
Lemma lost_inner D C a c d r y cy dy ly N : bal N (plug (D ++ Fr true a c d r :: C) (T y cy dy ly E)) → lost (negb cy) (D ++ Fr true y c dy r :: C) ly.
Proof.
  intros H. apply bal_unplug in H as (n & Hy & HC & _). rewrite (cbal_rename _ _ _ _ _ y dy) in HC. destruct cy; cbn [bal negb] in *.
  - destruct Hy as (H1 & _ & H2 & _). exists n. split; [done|]. split; [done|]. congruence.
  - destruct n as [|n]; [done|]. destruct Hy as [H1 _]. by exists n.
Qed.

Lemma lost_outer C a c d r N : bal N (plug C (T a c d E r)) → lost (negb (c || color r)) C (blacken r).
Proof.
  intros H. apply bal_unplug in H as (n & Ha & HC & Hc). unfold lost. destruct c; cbn [bal negb orb color] in *.
  - destruct Ha as (_ & Hr & -> & H1). rewrite (bal_0 r H1 Hr). by exists 0%nat.
  - destruct n as [|n]; [done|]. destruct Ha as [-> H1]. destruct (color r) eqn:Er; cbn [negb].
    + exists 1%nat. destruct r as [|b cb db l' r']; [done|]. cbn in *. subst cb. split; [tauto|done].
    + rewrite (bal_0 r H1 Er). by exists 0%nat.
Qed.

Lemma plug_elems_inner D C a c d r y cy dy ly : Forall (λ F, fs F = false) D →
  elems (plug (D ++ Fr true y c dy r :: C) ly) = pre C ++ elems (plug D (T y cy dy ly E)) ++ elems r ++ post C.
Proof. intros HD. rewrite plug_app, !elems_plug. cbn [pre post fs fa fd ft elems]. rewrite (post_right D HD). rewrite ?app_nil_r, <-?app_assoc. cbn. by rewrite <-?app_assoc. Qed.

Lemma unlink_Ok m C a c d l r N : rep m C (T a c d l r) → bal N (plug C (T a c d l r)) →
  ∃ m' (b : bool) C' t', unlink m a = Ok (m', sibp C', b) ∧ dom m' = dom m ∧ rep m' C' t' ∧ elems (plug C' t') = pre C ++ elems l ++ elems r ++ post C ∧ lost b C' t'.
Proof.
  intros Hrep Hbal. unfold unlink. destruct (rep_up_node _ _ _ _ _ _ _ Hrep) as (Hp & Hl & Hr & _). rewrite Hl. rbind.
  pose proof (rep_unzip m (Fr true a c d r) C l Hrep) as Hl'. rewrite (rep_issentinel _ _ _ Hl'). rbind. pose proof (rep_node m C true a c d l r Hrep) as Ha.
  assert (HndT : NoDup (nil :: a :: clocs C ++ locs l ++ locs r)).
  { assert (HP : nil :: clocs C ++ locs (T a c d l r) ≡ₚ nil :: a :: clocs C ++ locs l ++ locs r) by (cbn; solve_Permutation). rewrite <-HP. apply Hrep. }
  destruct (tree_E l) as [->|Hne].
  - rewrite Hr. rbind. rewrite (rep_isleft _ _ _ _ _ _ _ Hrep). rbind. rewrite Hp. rbind. pose proof Hrep as [HC (_ & _ & Hra) _]. cbn [ptr] in HC.
    destruct (replace_hole m C a r a HC Hra) as (m1 & m2 & E1 & Es & E2 & H2 & Hd2 & Hfr); [clear -HndT; cbn in HndT; apply NoDup_cons in HndT as [H1 H2]; apply NoDup_cons in H2 as [_ H2]; apply NoDup_cons; set_solver|
      clear -HndT; cbn in HndT; apply NoDup_cons in HndT as [H1 H2]; apply NoDup_cons in H2 as [H2 _]; set_solver|].
    assert (Ha2 : m2 !! a = m !! a) by (apply Hfr; clear -HndT; cbn in HndT; apply NoDup_cons in HndT as [H1 H2]; apply NoDup_cons in H2 as [H2 _]; set_solver).
    assert (Era : isred m2 a = Ok c) by (unfold isred, rd; by rewrite Ha2, Ha). destruct (setblack_Ok m2 C r H2) as (m3 & E3 & Hd3 & H3).
    assert (Eor : or_else (isred m2 a) (isred m2 (ptr r)) = Ok (c || color r)) by (rewrite Era, (rep_red _ _ _ H2); by destruct c).
    exists m3, (negb (c || color r)), C, (blacken r). split.
    { destruct (side C); rewrite E1; rbind; rewrite Es; rbind; rewrite E2; rbind; rewrite Eor; rbind; rewrite E3; done. }
    split; [congruence|]. split; [done|]. split; [rewrite elems_plug; cbn; by destruct r|by eapply lost_outer].
  - destruct (down_Ok false m _ l (S (size m)) Hne Hl') as (D & y & cy & dy & ly & Ey & -> & HD); [pose proof (height_locs l); pose proof (rep_size _ _ _ Hl'); lia|]. change (mk false y cy dy E ly) with (T y cy dy ly E) in *.
    assert (Eprev : rb_prev m a = Ok y). { rewrite (rb_prev_Ok _ _ _ _ _ _ _ Hrep), elems_plug, (post_right D HD). cbn [elems]. unfold prevp. by rewrite app_nil_r, !app_assoc, last_snoc. }
    assert (Hlost : lost (negb cy) (D ++ Fr true y c dy r :: C) ly) by (eapply (lost_inner D C a c d); rewrite plug_app; exact Hbal).
    pose proof (plug_elems_inner D C a c d r y cy dy ly HD) as Hel. destruct (plug D (T y cy dy ly E)) as [|a0 c0 d0 l0 r0] eqn:Epl; [done|]. rewrite Eprev. rbind. rewrite <-Epl in *. clear a0 c0 d0 l0 r0 Epl.
    destruct D as [|F D].
    + cbn [plug foldl ptr] in *. rewrite bool_decide_true by done. destruct (replace_with_left m C a c d y cy dy ly r Hrep) as (m' & Ek & Hd' & H' & _). specialize (Ek _ (λ m0 (x : loc) (e : bool), Ok (m0, x, e))).
      exists m', (negb cy), ([] ++ Fr true y c dy r :: C), ly. split; [exact Ek|]. split; [done|]. split; [by apply rep_unzip|]. done.
    + apply (rep_app m (F :: D)) in Hl'. pose proof Hl' as Hy. cbn [app] in Hy. apply Forall_cons in HD as [HF HD].
      destruct (rep_up_node _ _ _ _ _ _ _ Hy) as (Hpy & Hly & _ & _ & _ & _ & nF & HnF & _). cbn [up] in Hpy, HnF. pose proof Hy as [HCy (Hny & Hatly & _) HndY]. cbn [ptr] in HCy.
      assert (HnF' : nF = nd (fd F) (up (D ++ Fr true a c d r :: C)) false y (ptr (ft F)) (fc F)) by (destruct HCy as (H & _); rewrite HF in H; congruence).
      assert (HP : nil :: clocs (F :: D ++ Fr true a c d r :: C) ++ locs (T y cy dy ly E) ≡ₚ y :: nil :: clocs (F :: D ++ Fr true a c d r :: C) ++ locs ly) by (cbn [locs]; rewrite app_nil_r; solve_Permutation).
      rewrite HP in HndY. apply NoDup_cons in HndY as [Hyin HndY].
      assert (Hptr : ptr (plug (F :: D) (T y cy dy ly E)) ≠ y).
      { intros E'. apply Hyin. rewrite <-E'. apply elem_of_cons. right. apply elem_of_app. left. clear. revert F. generalize (T y cy dy ly E). induction D as [|G D IH]; intros t F.
        - unfold plug. cbn. unfold plug1. rewrite mk_ptr. by left.
        - change (plug (F :: G :: D) t) with (plug (G :: D) (plug1 F t)). specialize (IH (plug1 F t) G). unfold clocs in *. cbn [app fmap list_fmap concat] in *. apply elem_of_cons. right. apply elem_of_app. right. exact IH. }
      rewrite bool_decide_false by congruence. rewrite Hpy. rbind. rewrite (rd_Ok _ _ _ _ HnF). rbind. rewrite Hly. rbind.
      destruct (replace_hole m (F :: D ++ Fr true a c d r :: C) y ly y HCy Hatly HndY) as (m1 & m2 & E1 & _ & E2 & H2 & Hd2 & Hfr); [intros Hin; apply Hyin; apply elem_of_cons; apply elem_of_cons in Hin as [Hin|Hin]; [by left|right; apply elem_of_app; by left]|]. cbn [side up] in E1, E2. rewrite HF in E1. rewrite E1. rbind. rewrite E2. rbind.
      assert (Hy2 : m2 !! y = Some (Node dy.2 dy.1 (fa F) (ptr ly) nil cy)) by (rewrite Hfr; done). pose proof (proj1 (rep_app m2 (F :: D) _ ly) H2) as H2'. apply rep_zip in H2'. unfold plug1 in H2'. cbn [fs fa fc fd ft mk] in H2'.
      destruct (replace_node m2 C a c d (plug (F :: D) ly) r y _ H2' Hy2) as (m' & Ek & Hd' & H' & _).
      { intros Hin. apply Hyin. assert (HPy : nil :: clocs (F :: D ++ Fr true a c d r :: C) ++ locs ly ≡ₚ nil :: clocs C ++ locs (T a c d (plug (F :: D) ly) r)).
        { change (F :: D ++ Fr true a c d r :: C) with ((F :: D) ++ Fr true a c d r :: C). unfold clocs at 1. rewrite fmap_app, concat_app. fold (clocs (F :: D)). cbn [fmap list_fmap concat fa ft locs]. fold (clocs C). rewrite plug_locs. solve_Permutation. }
        by rewrite HPy. }
      specialize (Ek _ (λ m0 (e : bool), Ok (m0, left nF, e))). exists m', (negb cy), ((F :: D) ++ Fr true y c dy r :: C), ly. split; [rewrite Ek; subst nF; done|]. split; [congruence|]. split; [|done].
      apply rep_app. apply rep_unzip. unfold plug1. cbn. destruct dy. exact H'.
Qed.

(** ** After a deletion *)

Lemma balanced_eq m D es D' es' : balanced m D es → D = D' → es = es' → balanced m D' es'.
Proof. by intros H -> ->. Qed.

(** A place whose tree is black and has one black node less than it should; the node above
    and the sibling, by the side [s] of the sibling *)
Record deficit m C p cp dp s S t n : Prop := Deficit {
  df_rep : rep m C (mk s p cp dp S t);
  df_t : bal n t ∧ color t = false;
  df_s : bal (Datatypes.S n) S;
  df_p : if cp then color S = false ∧ ccol C = false ∧ cbal (Datatypes.S n) C else cbal (Datatypes.S (Datatypes.S n)) C;
}.

Lemma deficit_intro m F C t n : rep m (F :: C) t → bal n t → color t = false → cbal (S n) (F :: C) → deficit m C (fa F) (fc F) (fd F) (negb (fs F)) (ft F) t n.
Proof. intros Hr Ht Hc [Hs HC]. constructor; [|done|done|done]. apply rep_zip in Hr. unfold plug1 in Hr. by rewrite mk_neg. Qed.

Lemma deficit_sib m C p cp dp s S t n : deficit m C p cp dp s S t n → rep m (Fr s p cp dp t :: C) S ∧ rep m (Fr (negb s) p cp dp S :: C) t.
Proof. intros [H _ _ _]. split; apply rep_unzip; unfold plug1; cbn; [done|by rewrite mk_neg]. Qed.

Lemma deficit_node m C p cp dp s S t n : deficit m C p cp dp s S t n → S ≠ E.
Proof. by intros [_ _ H _] ->. Qed.

(** The sibling with its children: [far] on its own side, [near] on the other one *)
Lemma sib_kids m C p cp dp s b cb db far near t n : deficit m C p cp dp s (mk s b cb db far near) t n →
  rd parent m b = Ok p ∧ rd left m b = Ok (ptr (if s then far else near)) ∧ rd right m b = Ok (ptr (if s then near else far)) ∧ isred m b = Ok cb ∧ isred m p = Ok cp ∧
  isleft m b = Ok s ∧ isright m b = Ok (negb s) ∧ rd parent m p = Ok (up C) ∧ isred m (ptr far) = Ok (color far) ∧ isred m (ptr near) = Ok (color near) ∧ isred m (ptr t) = Ok false.
Proof.
  intros H. destruct (deficit_sib _ _ _ _ _ _ _ _ _ H) as [HS Ht]. destruct (df_t _ _ _ _ _ _ _ _ _ H) as [_ Hct]. pose proof (df_rep _ _ _ _ _ _ _ _ _ H) as Hp.
  pose proof (rep_unzip m (Fr s b cb db near) _ far HS) as Hfar. pose proof Hfar as Hnear. apply rep_swap in Hnear. cbn [ft] in Hnear.
  rewrite (rep_red _ _ _ Hfar), (rep_red _ _ _ Hnear), (rep_red _ _ _ Ht), Hct.
  assert (HpF : rd parent m p = Ok (up C) ∧ isred m p = Ok cp) by (destruct s; destruct (rep_up_node _ _ _ _ _ _ _ Hp) as (H1 & _ & _ & H2 & _); done). destruct HpF as [-> ->].
  assert (Hb : rd parent m b = Ok p ∧ rd left m b = Ok (ptr (if s then far else near)) ∧ rd right m b = Ok (ptr (if s then near else far)) ∧ isred m b = Ok cb ∧ isleft m b = Ok s ∧ isright m b = Ok (negb s)).
  { destruct s; destruct (rep_up_node _ _ _ _ _ _ _ HS) as (H1 & H2 & H3 & H4 & _); rewrite (rep_isleft _ _ _ _ _ _ _ HS), (rep_isright _ _ _ _ _ _ _ HS); done. }
  destruct Hb as (-> & -> & -> & -> & -> & ->). repeat split.
Qed.

(** Colouring the sibling, the parent and the far child *)
Lemma deficit_color_sib m C p cp dp s b cb cb' db far near t : rep m C (mk s p cp dp (mk s b cb db far near) t) →
  ∃ m', wr (set_red cb') m b = Ok m' ∧ dom m' = dom m ∧ rep m' C (mk s p cp dp (mk s b cb' db far near) t).
Proof. apply set_red_child. Qed.
Lemma color_far m C p cp dp s b cb db far near t : rep m C (mk s p cp dp (mk s b cb db far near) t) →
  ∃ m', setblack m (ptr far) = Ok m' ∧ dom m' = dom m ∧ rep m' C (mk s p cp dp (mk s b cb db (blacken far) near) t).
Proof.
  intros H. apply (rep_unzip m (Fr s p cp dp t)), (rep_unzip m (Fr s b cb db near)) in H. destruct (setblack_Ok _ _ _ H) as (m' & E' & Hd & H'). exists m'. split; [done|]. split; [done|].
  by apply rep_zip, rep_zip in H'.
Qed.
Lemma color_near m C p cp dp s b cb db far a c c' d l r t : rep m C (mk s p cp dp (mk s b cb db far (mk s a c d l r)) t) →
  ∃ m', wr (set_red c') m a = Ok m' ∧ dom m' = dom m ∧ rep m' C (mk s p cp dp (mk s b cb db far (mk s a c' d l r)) t).
Proof.
  intros H. apply (rep_unzip m (Fr s p cp dp t)) in H. rewrite <-mk_neg in H. apply (rep_unzip m (Fr (negb s) b cb db far)) in H. destruct (set_red_Ok _ _ _ _ _ c' _ _ _ H) as (m' & E' & Hd & H'). exists m'. split; [done|]. split; [done|].
  apply rep_zip, rep_zip in H'. unfold plug1 in H'. cbn in H'. by rewrite mk_neg in H'.
Qed.

(** (c), (d) and (e) *)
Lemma delete_fix_Ok m C p cp dp s b db far near t n : deficit m C p cp dp s (mk s b false db far near) t n → (cp = false → color far || color near = true) →
  ∃ m', delete_fix m b = Ok m' ∧ balanced m' (dom m) (elems (plug C (mk s p cp dp (mk s b false db far near) t))).
Proof.
  intros Hdef Hkids. destruct (sib_kids _ _ _ _ _ _ _ _ _ _ _ _ _ Hdef) as (E1 & E2 & E3 & E4 & E5 & E6 & E7 & E8 & E9 & E10 & _). pose proof Hdef as [Hrep [Ht Hct] HS HC]. apply bal_mk in HS as [Hbf Hbn].
  unfold delete_fix. rewrite E1, E2, E3. rbind.
  assert (Eb : and_then (isred m p) (and_then (isblack m b) (and_then (isblack m (ptr (if s then far else near))) (isblack m (ptr (if s then near else far))))) = Ok (cp && (negb (color far) && negb (color near)))).
  { unfold isblack. rewrite E5, E4. destruct s; rewrite E9, E10; rbind; cbn; destruct cp, (color far), (color near); done. }
  rewrite Eb. rbind. destruct (cp && (negb (color far) && negb (color near))) eqn:Ec.
  - apply andb_true_iff in Ec as [-> Ec]. apply andb_true_iff in Ec as [Ef En]. apply negb_true_iff in Ef, En. destruct HC as (_ & HcC & HC).
    destruct (deficit_color_sib _ _ _ _ _ _ _ _ true _ _ _ _ Hrep) as (m1 & F1 & D1 & H1). unfold setred. rewrite F1. rbind.
    destruct (set_red_Ok _ _ _ _ _ false _ _ _ H1) as (m2 & F2 & D2 & H2). unfold setblack. rewrite F2. exists m2. split; [done|].
    eapply balanced_eq; [eapply (plug_balanced m2 C _ (S n) H2)|congruence|].
    + apply bal_mk. split; [|done]. apply bal_mk. done.
    + done.
    + by rewrite color_mk.
    + rewrite !elems_plug. do 2 f_equal. unfold mk. by destruct s.
  - rewrite E7. rbind. replace (if negb s then (ptr (if s then far else near), ptr (if s then near else far)) else (ptr (if s then near else far), ptr (if s then far else near))) with (ptr near, ptr far) by (by destruct s).
    rewrite E9. rbind. rewrite negb_involutive. destruct (color far) eqn:Ef.
    + rewrite E5. rbind. destruct (deficit_color_sib _ _ _ _ _ _ _ _ cp _ _ _ _ Hrep) as (m1 & F1 & D1 & H1). rewrite F1. rbind.
      destruct (set_red_Ok _ _ _ _ _ false _ _ _ H1) as (m2 & F2 & D2 & H2). change (wr (set_red false) m1 p) with (setblack m1 p) in F2. rewrite F2. rbind. destruct (color_far _ _ _ _ _ _ _ _ _ _ _ _ H2) as (m3 & F3 & D3 & H3). rewrite F3. rbind.
      assert (Eg : rd parent m3 p = Ok (up C)) by (destruct s; apply (rep_up_node _ _ _ _ _ _ _ H3)). rewrite Eg. rbind. destruct (single_rotate_Ok _ _ _ _ _ _ _ _ _ _ _ _ H3) as (m4 & F4 & D4 & H4). rewrite F4. exists m4. split; [done|].
      assert (Hbf' : bal (S n) (blacken far) ∧ color (blacken far) = false) by (destruct far as [|a c d l r]; [done|]; cbn in Ef, Hbf |- *; subst c; tauto). destruct Hbf' as [Hbf' Hcf'].
      eapply balanced_eq; [eapply (plug_balanced m4 C _ (if cp then S n else S (S n)) H4)|congruence|].
      * apply bal_mk. destruct cp; [rewrite color_mk|]; repeat split; try done; by apply bal_mk.
      * destruct cp; [by destruct HC as (_ & _ & HC)|done].
      * rewrite color_mk. intros ->. by destruct HC as (_ & HC & _).
      * rewrite !elems_plug. do 2 f_equal. unfold mk. destruct s, far; cbn; rewrite <-?app_assoc; cbn; rewrite <-?app_assoc; done.
    + rewrite E10. rbind. assert (En : color near = true) by (destruct cp; cbn in Ec; destruct (color near); try done; by specialize (Hkids eq_refl)). rewrite En. destruct near as [|a ca da l0 r0]; [done|]. cbn in En. subst ca.
      rewrite (tree_mk s a) in *. set (t2 := if s then l0 else r0) in *. set (t3 := if s then r0 else l0) in *. rewrite mk_ptr. rewrite E5. rbind.
      destruct (color_near _ _ _ _ _ _ _ _ _ _ _ _ cp _ _ _ _ Hrep) as (m1 & F1 & D1 & H1). rewrite F1. rbind. destruct (set_red_Ok _ _ _ _ _ false _ _ _ H1) as (m2 & F2 & D2 & H2). unfold setblack. rewrite F2. rbind.
      assert (Eg : rd parent m2 p = Ok (up C)) by (destruct s; apply (rep_up_node _ _ _ _ _ _ _ H2)). rewrite Eg. rbind. destruct (double_rotate_Ok _ _ _ _ _ _ _ _ _ _ _ _ _ _ _ _ H2) as (m3 & F3 & D3 & H3). rewrite F3. exists m3. split; [done|].
      apply bal_mk in Hbn as (Hc2 & Hc3 & Hb2 & Hb3).
      eapply balanced_eq; [eapply (plug_balanced m3 C _ (if cp then S n else S (S n)) H3)|congruence|].
      * apply bal_mk. destruct cp; rewrite ?color_mk; repeat split; try done; by apply bal_mk.
      * destruct cp; [by destruct HC as (_ & _ & HC)|done].
      * rewrite color_mk. intros ->. by destruct HC as (_ & HC & _).
      * rewrite !elems_plug. do 2 f_equal. unfold mk, t2, t3. destruct s; cbn; rewrite <-?app_assoc; cbn; rewrite <-?app_assoc; done.
Qed.

(** (b), then the rest *)
Lemma rotate_fix_Ok m C p cp dp s b cb db far near t n : deficit m C p cp dp s (mk s b cb db far near) t n → (cp = false → cb = false → color far || color near = true) →
  ∃ m', ('(m, sib) ← rotate_sibling m b; delete_fix m sib) = Ok m' ∧ balanced m' (dom m) (elems (plug C (mk s p cp dp (mk s b cb db far near) t))).
Proof.
  intros Hdef Hkids. destruct (sib_kids _ _ _ _ _ _ _ _ _ _ _ _ _ Hdef) as (E1 & E2 & E3 & E4 & E5 & E6 & E7 & E8 & E9 & E10 & _). pose proof Hdef as [Hrep [Ht Hct] HS HC].
  unfold rotate_sibling. assert (Eb : and_then (isred m b) (p ← rd parent m b; isblack m p) = Ok (cb && negb cp)) by (unfold isblack; rewrite E4, E1; rbind; rewrite E5; by destruct cb).
  rewrite Eb. rbind. destruct cb; cbn [andb].
  2: { rbind. apply delete_fix_Ok with (n := n); [done|]. intros ->. by apply Hkids. }
  destruct cp; cbn [negb]; [by rewrite color_mk in HC; destruct HC|]. rbind.
  destruct (deficit_color_sib _ _ _ _ _ _ _ _ false _ _ _ _ Hrep) as (m1 & F1 & D1 & H1). change (wr (set_red false) m b) with (setblack m b) in F1. rewrite F1. rbind.
  assert (Ep1 : rd parent m1 b = Ok p) by (pose proof (rep_unzip m1 (Fr s p false dp t) _ _ H1) as H; destruct s; apply (rep_up_node _ _ _ _ _ _ _ H)). rewrite Ep1. rbind.
  destruct (set_red_Ok _ _ _ _ _ true _ _ _ H1) as (m2 & F2 & D2 & H2). unfold setred. rewrite F2. rbind.
  assert (El2 : isleft m2 b = Ok s) by (pose proof (rep_unzip m2 (Fr s p true dp t) _ _ H2) as H; destruct s; apply (rep_isleft _ _ _ _ _ _ _ H)). rewrite El2. rbind.
  assert (Eg : rd parent m2 p = Ok (up C)) by (destruct s; apply (rep_up_node _ _ _ _ _ _ _ H2)). rewrite Eg. rbind.
  destruct (single_rotate_Ok _ _ _ _ _ _ _ _ _ _ _ _ H2) as (m3 & F3 & D3 & H3). rewrite F3. rbind.
  assert (H3' : rep m3 (Fr (negb s) b false db far :: C) (mk s p true dp near t)) by (apply rep_unzip; unfold plug1; cbn; by rewrite mk_neg).
  assert (Hk : ∃ r, rd (if s then right else left) m3 b = Ok r ∧ rd (if s then left else right) m3 r = Ok (ptr near)).
  { exists p. destruct s; split; [apply (rep_up_node _ _ _ _ _ _ _ H3)|apply (rep_up_node _ _ _ _ _ _ _ H3')|apply (rep_up_node _ _ _ _ _ _ _ H3)|apply (rep_up_node _ _ _ _ _ _ _ H3')]. } destruct Hk as (q & Eq1 & Eq2).
  assert (Ek : (if s then r ← rd right m3 b; sib ← rd left m3 r; Ok (m3, sib) else r ← rd left m3 b; sib ← rd right m3 r; Ok (m3, sib)) = Ok (m3, ptr near)) by (destruct s; rewrite Eq1; rbind; by rewrite Eq2). rewrite Ek. rbind.
  apply bal_mk in HS as (Hcf & Hcn & Hbf & Hbn). destruct near as [|a ca da l0 r0]; [done|]. cbn [color] in Hcn. subst ca. rewrite (tree_mk s a) in *. set (t2 := if s then l0 else r0) in *. set (t3 := if s then r0 else l0) in *. rewrite mk_ptr.
  destruct (delete_fix_Ok m3 (Fr (negb s) b false db far :: C) p true dp s a da t2 t3 t n) as (m' & E' & Hb').
  - constructor; [done|done|done|]. split; [by rewrite color_mk|]. split; [done|]. split; [done|]. done.
  - done.
  - exists m'. split; [done|]. eapply balanced_eq; [exact Hb'|congruence|]. cbn [plug foldl]. change (foldl (λ t F, plug1 F t) ?t C) with (plug C t). rewrite !elems_plug. do 2 f_equal. unfold plug1, mk, t2, t3. destruct s; cbn; rewrite <-?app_assoc; cbn; rewrite <-?app_assoc; done.
Qed.

(** The loop (a) and what follows *)
Lemma lift_Ok fuel : ∀ m F C t n, rep m (F :: C) t → bal n t → color t = false → cbal (S n) (F :: C) → (length C < fuel)%nat →
  ∃ m', ('(m, o) ← lift fuel m (ptr t) (ptr (ft F)); match o with None => Ok m | Some sib => '(m, sib) ← rotate_sibling m sib; delete_fix m sib end) = Ok m' ∧ balanced m' (dom m) (elems (plug (F :: C) t)).
Proof.
  induction fuel as [|fuel IH]; intros m F C t n Hrep Ht Hct HC Hf; [lia|]. pose proof (deficit_intro m F C t n Hrep Ht Hct HC) as Hdef. pose proof (deficit_node _ _ _ _ _ _ _ _ _ Hdef) as HSne.
  assert (Hel0 : plug (F :: C) t = plug C (mk (negb (fs F)) (fa F) (fc F) (fd F) (ft F) t)) by (cbn; unfold plug1; by rewrite mk_neg).
  destruct F as [sF p cp dp S0]. cbn [fs fa fc fd ft] in *. set (s := negb sF) in *. destruct S0 as [|b cb db l0 r0]; [done|]. rewrite (tree_mk s b) in *. set (far := if s then l0 else r0) in *. set (near := if s then r0 else l0) in *.
  destruct (sib_kids _ _ _ _ _ _ _ _ _ _ _ _ _ Hdef) as (E1 & E2 & E3 & E4 & E5 & E6 & E7 & E8 & E9 & E10 & E11). cbn [lift]. rewrite mk_ptr.
  assert (Eb : and_then (isblack m (ptr t)) (and_then (isblack m b) (and_then (p ← rd parent m b; isblack m p) (and_then (l ← rd left m b; isblack m l) (r ← rd right m b; isblack m r)))) =
    Ok (negb cb && (negb cp && (negb (color far) && negb (color near))))).
  { unfold isblack. rewrite E11, E4, E1, E2, E3. rbind. rewrite E5. destruct s; rewrite E9, E10; rbind; cbn; destruct cb, cp, (color far), (color near); done. }
  rewrite Eb. rbind. destruct (negb cb && (negb cp && (negb (color far) && negb (color near)))) eqn:Ec.
  2: { rbind. rewrite Hel0. apply rotate_fix_Ok with (n := n); [done|]. intros -> ->. cbn in Ec. destruct (color far), (color near); done. }
  destruct cb; [done|]. destruct cp; [done|]. destruct (color far) eqn:Ef; [done|]. destruct (color near) eqn:En; [done|]. clear Ec. pose proof Hdef as [Hr [_ _] HS HC']. cbn in HC'. apply bal_mk in HS as [Hbf Hbn].
  destruct (deficit_color_sib _ _ _ _ _ _ _ _ true _ _ _ _ Hr) as (m1 & F1 & D1 & H1). unfold setred. rewrite F1. rbind.
  assert (Ep1 : rd parent m1 b = Ok p) by (pose proof (rep_unzip m1 (Fr s p false dp t) _ _ H1) as H; destruct s; apply (rep_up_node _ _ _ _ _ _ _ H)). rewrite Ep1. rbind.
  assert (Eg : rd parent m1 p = Ok (up C)) by (destruct s; apply (rep_up_node _ _ _ _ _ _ _ H1)). rewrite Eg. rbind.
  set (t' := mk s p false dp (mk s b true db far near) t) in *. assert (Ht' : bal (S n) t') by (apply bal_mk; split; [by apply bal_mk|done]).
  assert (Hel : elems (plug C t') = elems (plug (Fr sF p false dp (mk s b false db far near) :: C) t)) by (rewrite Hel0, !elems_plug; do 2 f_equal; unfold t', mk; by destruct s).
  destruct C as [|F C]; cbn [up].
  - rewrite (rep_sentinel _ _ _ H1). rbind. exists m1. split; [done|]. eapply balanced_eq; [by apply (plug_balanced m1 [] t' (S n))|congruence|exact Hel].
  - pose proof (rep_zip _ _ _ _ H1) as HF. unfold plug1 in HF. assert (Hsen : issentinel m1 (fa F) = Ok false) by (destruct (fs F); apply (rep_node_sentinel _ _ _ _ _ _ _ HF)). rewrite Hsen. rbind.
    assert (Hsb : sibling m1 p = Ok (ptr (ft F))) by (unfold t' in H1; destruct s; apply (rep_sibling _ _ _ _ _ _ _ _ H1)). rewrite Hsb. rbind.
    destruct (IH m1 F C t' (S n) H1 Ht') as (m' & E' & Hb'); [unfold t'; by rewrite color_mk|done|cbn in Hf; lia|]. unfold t' in E' at 1. rewrite mk_ptr in E'. exists m'. split; [exact E'|]. eapply balanced_eq; [exact Hb'|congruence|exact Hel].
Qed.

(** ** Deletion *)

Lemma delete_frame m C t a : rep m C t → a ∉ nil :: clocs C ++ locs t → rep (delete a m) C t.
Proof.
  assert (Hat : ∀ t p, a ∉ locs t → at_ m p t → at_ (delete a m) p t).
  { clear. induction t as [|b c d l IHl r IHr]; intros p; cbn [locs at_]; [done|]. rewrite not_elem_of_cons, not_elem_of_app. intros (Hb & Hl & Hr) (Hn & H1 & H2). rewrite lookup_delete_ne by done. auto. }
  intros [HC Ha Hnd] Hin. apply not_elem_of_cons in Hin as [Hnil Hin]. apply not_elem_of_app in Hin as [Hin1 Hin2]. constructor; [|by apply Hat|done].
  clear Ha Hnd Hin2. revert HC. generalize (ptr t). induction C as [|F C IH]; intros h; cbn [at_ctx] in *.
  - intros (it & k & q & H). exists it, k, q. by rewrite lookup_delete_ne.
  - intros (H1 & H2 & H3). unfold clocs in Hin1. cbn in Hin1. rewrite not_elem_of_cons, not_elem_of_app in Hin1. destruct Hin1 as (Hn1 & Hn2 & Hn3). rewrite lookup_delete_ne by done. split; [done|]. split; [by apply Hat|by apply IH].
Qed.

Lemma delete_Ok m C a c d l r N isint : rep m C (T a c d l r) → bal N (plug C (T a c d l r)) →
  ∃ m', rb_delete m a isint = Ok m' ∧ balanced m' (if isint then dom m else dom m ∖ {[a]}) (pre C ++ elems l ++ elems r ++ post C).
Proof.
  intros Hrep Hbal. unfold rb_delete. rewrite (rep_node_sentinel _ _ _ _ _ _ _ Hrep). rbind. cbn [abort_if]. destruct (unlink_Ok m C a c d l r N Hrep Hbal) as (m1 & b & C' & t & E1 & Hd1 & H1 & Hel & n & Ht & Hlost).
  rewrite E1. rbind. set (m2 := if isint then m1 else delete a m1).
  assert (Hd2 : dom m2 = if isint then dom m else dom m ∖ {[a]}) by (unfold m2; destruct isint; [done|]; by rewrite dom_delete_L, Hd1).
  assert (H2 : rep m2 C' t).
  { unfold m2. destruct isint; [done|]. apply delete_frame; [done|]. destruct (rep_up_node _ _ _ _ _ _ _ Hrep) as (_ & _ & _ & _ & _ & Hn & _). rewrite not_elem_of_cons, <-plug_locs, <-elems_locs, Hel. split; [done|]. intros Hin.
    pose proof (rp_nodup _ _ _ Hrep) as Hnd. apply NoDup_cons in Hnd as [_ Hnd]. rewrite <-plug_locs, <-elems_locs, elems_plug in Hnd. cbn [elems] in Hnd.
    assert (HP : (pre C ++ (elems l ++ (a, d) :: elems r) ++ post C).*1 ≡ₚ a :: (pre C ++ elems l ++ elems r ++ post C).*1) by (rewrite !fmap_app, !fmap_cons; cbn; solve_Permutation).
    rewrite HP in Hnd. by apply NoDup_cons in Hnd as [? _]. }
  rewrite <-Hd2, <-Hel. clearbody m2. destruct b; cbn [negb].
  2: { destruct Hlost as [HC Hc]. exists m2. split; [done|]. by apply (plug_balanced m2 C' t n). }
  destruct C' as [|F C']; cbn [sibp].
  { rewrite (rep_sentinel _ _ _ H2). rbind. exists m2. split; [done|]. by apply (plug_balanced m2 [] t n). }
  pose proof (proj1 (rep_swap _ _ _ _) H2) as HS. assert (HSne : ft F ≠ E) by (intros E'; destruct Hlost as [Hl _]; by rewrite E' in Hl). rewrite (rep_issentinel _ _ _ HS). destruct (ft F) as [|b' cb db l' r'] eqn:EF; [done|]. rbind. cbn [ptr].
  rewrite (rep_sibling _ _ _ _ _ _ _ _ HS). rbind. cbn [swap ft]. rewrite (rep_red _ _ _ H2). rbind. destruct (color t) eqn:Ec.
  - destruct (setblack_Ok m2 _ t H2) as (m3 & E3 & Hd3 & H3). exists m3. split; [done|]. rewrite <-Hd3. eapply balanced_eq; [apply (plug_balanced m3 _ _ (S n) H3)|done|].
    + destruct t as [|? ct]; [done|]. cbn in Ec, Ht |- *. subst ct. tauto.
    + done.
    + by destruct t.
    + rewrite !elems_plug. by destruct t.
  - destruct (lift_Ok (S (size m2)) m2 F C' t n H2 Ht Ec Hlost) as (m' & E' & Hb'); [pose proof (rep_size _ _ _ H2); pose proof (ctx_length (F :: C')); cbn in *; lia|]. rewrite EF in E'. cbn [ptr] in E'. by exists m'.
Qed.

(** ** Walks over all nodes *)

Lemma pre_app D C : pre (D ++ C) = pre C ++ pre D.
Proof. induction D as [|F D IH]; cbn; [by rewrite app_nil_r|]. by rewrite IH, app_assoc. Qed.
Lemma post_app D C : post (D ++ C) = post D ++ post C.
Proof. induction D as [|F D IH]; cbn; [done|]. by rewrite IH, app_assoc. Qed.

(** The place of an entry *)
Lemma locate t : ∀ A e B, elems t = A ++ e :: B → ∃ C c l r, plug C (T e.1 c e.2 l r) = t ∧ pre C ++ elems l = A ∧ elems r ++ post C = B.
Proof.
  induction t as [|a c d l IHl r IHr]; intros A e B; cbn [elems]; [by destruct A|]. intros H. apply app_eq_app in H as (k & [[H1 H2]|[H1 H2]]).
  - destruct k as [|x k].
    + rewrite app_nil_r in H1. injection H2 as -> ->. exists [], c, l, r. cbn. by rewrite app_nil_r.
    + injection H2 as -> ->. apply IHl in H1 as (C & c' & l' & r' & Hp & Hpre & Hpost). exists (C ++ [Fr true a c d r]), c', l', r'. rewrite plug_app, Hp, pre_app, post_app. cbn. rewrite app_nil_r, app_assoc, Hpost. done.
  - destruct k as [|x k].
    + rewrite app_nil_r in H1. injection H2 as <- <-. exists [], c, l, r. cbn. by rewrite app_nil_r.
    + injection H2 as <- H2. apply IHr in H2 as (C & c' & l' & r' & Hp & Hpre & Hpost). exists (C ++ [Fr false a c d l]), c', l', r'. rewrite plug_app, Hp, pre_app, post_app. cbn. rewrite app_nil_r, <-app_assoc, Hpre, <-app_assoc, Hpost. done.
Qed.

(** The nodes of a tree, each with its place *)
Lemma locate_node m t A a d B : rep m [] t → elems t = A ++ (a, d) :: B → ∃ C c l r, rep m C (T a c d l r) ∧ plug C (T a c d l r) = t ∧ pre C ++ elems l = A ∧ elems r ++ post C = B.
Proof. intros Hrep H. destruct (locate t _ _ _ H) as (C & c & l & r & Hp & H1 & H2). cbn in Hp. exists C, c, l, r. split; [apply rep_plug; by rewrite Hp|done]. Qed.

Lemma nextp_nil m t B : rep m [] t → (∃ A, elems t = A ++ B) → bool_decide (nextp B = nil) = match B with [] => true | _ => false end.
Proof.
  intros Hrep [A HA]. destruct B as [|[a d] B]; [by apply bool_decide_true|]. destruct (locate_node m t A a d B Hrep HA) as (C & c & l & r & H & _). apply bool_decide_false. by destruct (rep_up_node _ _ _ _ _ _ _ H) as (_ & _ & _ & _ & _ & ? & _).
Qed.

Lemma rb_next_list m t A a d B : rep m [] t → elems t = A ++ (a, d) :: B → rb_next m a = Ok (nextp B).
Proof. intros Hrep HA. destruct (locate_node m t A a d B Hrep HA) as (C & c & l & r & H & _ & _ & <-). by apply rb_next_Ok in H. Qed.
Lemma rb_prev_list m t A a d B : rep m [] t → elems t = A ++ (a, d) :: B → rb_prev m a = Ok (prevp A).
Proof. intros Hrep HA. destruct (locate_node m t A a d B Hrep HA) as (C & c & l & r & H & _ & <- & _). by apply rb_prev_Ok in H. Qed.

Lemma traverse_loop_Ok fuel : ∀ m t A B, rep m [] t → elems t = A ++ B → (length B < fuel)%nat → traverse fuel m nil (nextp B) = Ok B.*1.
Proof.
  induction fuel as [|fuel IH]; intros m t A B Hrep HA Hf; [lia|]. cbn [traverse]. rewrite (nextp_nil m t B Hrep) by eauto. destruct B as [|[a d] B]; [done|]. cbn [nextp fst] in *.
  rewrite (rb_next_list m t A a d B Hrep HA). rbind. cbn in Hf. rewrite (IH m t (A ++ [(a, d)]) B Hrep); [done|by rewrite <-app_assoc|lia].
Qed.
Lemma elems_length t : length (elems t) = length (locs t).
Proof. rewrite <-(elems_locs t). by rewrite length_fmap. Qed.
Lemma rb_traverse_Ok m t : rep m [] t → rb_traverse m nil = Ok (elems t).*1.
Proof.
  intros Hrep. unfold rb_traverse. rewrite (rb_first_Ok m t Hrep). rbind. apply (traverse_loop_Ok _ m t []); [done|done|]. pose proof (rep_size _ _ _ Hrep). rewrite elems_length. lia.
Qed.
Lemma rb_count_Ok m t : rep m [] t → rb_count m nil = Ok (Z.of_nat (length (elems t))).
Proof. intros Hrep. unfold rb_count, assert_sentinel. rewrite (rep_sentinel _ _ _ Hrep). rbind. cbn [negb abort_if]. rewrite (rb_traverse_Ok m t Hrep). rbind. by rewrite length_fmap. Qed.

(** The way up from a node *)
Lemma path_Ok fuel : ∀ m C a c d l r, rep m C (T a c d l r) → (S (length C) < fuel)%nat → path fuel m nil a = Ok (a :: (fa <$> C)).
Proof.
  induction fuel as [|fuel IH]; intros m C a c d l r Hrep Hf; [lia|]. cbn [path]. destruct (rep_up_node _ _ _ _ _ _ _ Hrep) as (Hp & _ & _ & _ & _ & Hnil & _). rewrite bool_decide_false by done. rewrite Hp. rbind.
  destruct C as [|F C]; cbn [up fmap list_fmap].
  - destruct fuel as [|fuel]; [cbn in Hf; lia|]. cbn [path]. by rewrite bool_decide_true.
  - pose proof (rep_zip _ _ _ _ Hrep) as H. unfold plug1 in H. cbn in Hf. assert (E' : path fuel m nil (fa F) = Ok (fa F :: (fa <$> C))) by (destruct (fs F); eapply IH; try exact H; lia). rewrite E'. done.
Qed.
Lemma isleaf_Ok m C a c d l r : rep m C (T a c d l r) → isleaf m nil a = Ok (match l, r with E, E => true | _, _ => false end).
Proof.
  intros Hrep. unfold isleaf. destruct (rep_up_node _ _ _ _ _ _ _ Hrep) as (_ & Hl & Hr & _). rewrite Hl, Hr. rbind.
  assert (Hb : ∀ F u, rep m (F :: C) u → bool_decide (ptr u = nil) = match u with E => true | _ => false end).
  { intros F u Hu. destruct u as [|b c' d' l' r']; [by apply bool_decide_true|]. apply bool_decide_false. by destruct (rep_up_node _ _ _ _ _ _ _ Hu) as (_ & _ & _ & _ & _ & ? & _). }
  rewrite (Hb (Fr true a c d r) l), (Hb (Fr false a c d l) r); [by destruct l, r|by apply rep_up|by apply rep_up].
Qed.

Definition blacks C : nat := length (filter (λ F, fc F = false) C).
Lemma bal_blacks N C t : bal N (plug C t) → ∃ n, bal n t ∧ (n + blacks C = N)%nat ∧ (color t = true → ccol C = false).
Proof.
  revert t. induction C as [|F C IH]; intros t H; [exists N; cbn; auto|]. cbn [plug foldl] in H. apply IH in H as (n & Ht & HC & Hc). unfold plug1 in *. rewrite color_mk in Hc. apply bal_mk in Ht. unfold blacks in *. rewrite filter_cons. cbn [ccol].
  destruct (fc F) eqn:Ec.
  - rewrite decide_False by done. destruct Ht as (H1 & H2 & H3 & H4). exists n. split; [done|]. split; [done|]. congruence.
  - rewrite decide_True by done. destruct n as [|n]; [done|]. destruct Ht as [H1 H2]. exists n. split; [done|]. cbn. split; [lia|done].
Qed.

Lemma count_black_cons m x l : count_black m (x :: l) = (b ← isblack m x; c ← count_black m l; Ok (if b : bool then c + 1 else c)).
Proof. done. Qed.
Lemma check_path_cons m x l n : check_path m (x :: l) n =
  (v ← and_then (isred m x) (p ← rd parent m x; isred m p); if v : bool then Ok (n, false) else b ← isblack m x; check_path m l (if b : bool then n + 1 else n)).
Proof. done. Qed.
Lemma blacks_cons F C : blacks (F :: C) = ((if fc F then 0 else 1) + blacks C)%nat.
Proof. unfold blacks. rewrite filter_cons. by destruct (fc F). Qed.

Lemma count_black_Ok m C : ∀ a c d l r, rep m C (T a c d l r) → count_black m (a :: (fa <$> C)) = Ok (Z.of_nat (blacks C + (if c then 0 else 1))).
Proof.
  induction C as [|F C IH]; intros a c d l r Hrep; rewrite count_black_cons; pose proof (rep_black _ _ _ Hrep) as Hb; cbn [ptr color] in Hb; rewrite Hb; rbind.
  - by destruct c.
  - pose proof (rep_zip _ _ _ _ Hrep) as H. unfold plug1 in H.
    assert (E' : count_black m (fa F :: (fa <$> C)) = Ok (Z.of_nat (blacks C + (if fc F then 0 else 1)))) by (destruct (fs F); eapply IH; exact H). rewrite fmap_cons, E'. rbind.
    f_equal. rewrite blacks_cons. destruct c, (fc F); cbn; lia.
Qed.

Lemma check_path_Ok m C : ∀ a c d l r n N, rep m C (T a c d l r) → bal N (plug C (T a c d l r)) → check_path m (a :: (fa <$> C)) n = Ok (n + Z.of_nat (blacks C + (if c then 0 else 1)), true).
Proof.
  induction C as [|F C IH]; intros a c d l r n N Hrep Hbal; rewrite check_path_cons; destruct (bal_blacks _ _ _ Hbal) as (k & _ & _ & Hc); cbn [color ccol] in Hc;
    destruct (rep_up_node _ _ _ _ _ _ _ Hrep) as (Hp & _ & _ & Hr & _); unfold isblack; rewrite Hr, Hp; rbind; cbn [up].
  - destruct Hrep as [(it & k' & q & Hs) _ _]. unfold isred. rewrite (rd_Ok _ _ _ _ Hs). destruct c; rbind; cbn; do 2 f_equal; lia.
  - pose proof (rep_zip _ _ _ _ Hrep) as H. pose proof Hbal as Hbal'. cbn [plug foldl] in Hbal'. change (foldl (λ t F, plug1 F t) ?t C) with (plug C t) in Hbal'. unfold plug1 in H, Hbal'.
    assert (HrF : isred m (fa F) = Ok (fc F)) by (destruct (fs F); apply (rep_up_node _ _ _ _ _ _ _ H)). rewrite HrF.
    assert (E' : ∀ n, check_path m (fa F :: (fa <$> C)) n = Ok (n + Z.of_nat (blacks C + (if fc F then 0 else 1)), true)) by (intros; destruct (fs F); eapply IH; try exact H; exact Hbal').
    rewrite (and_then_Ok (Ok c) (Ok (fc F)) c (fc F)) by done. replace (c && fc F) with false by (destruct c; [by rewrite Hc|done]). rbind. rewrite fmap_cons, E'.
    do 2 f_equal. rewrite blacks_cons. destruct c, (fc F); cbn; lia.
Qed.

Definition node_of t a : Prop := ∃ C c d l r, plug C (T a c d l r) = t.
Lemma elems_nodes t : Forall (node_of t) (elems t).*1.
Proof. apply Forall_forall. intros a Ha. apply list_elem_of_fmap in Ha as ([b d] & -> & Hin). apply list_elem_of_split in Hin as (A & B & HA). destruct (locate t _ _ _ HA) as (C & c & l & r & Hp & _). by exists C, c, d, l, r. Qed.

(** The length of a way up is less than the fuel. *)
Lemma leaf_path m C a c d l r : rep m C (T a c d l r) → path (S (size m)) m nil a = Ok (a :: (fa <$> C)).
Proof. intros Hrep. eapply path_Ok; [done|]. pose proof (rep_size _ _ _ Hrep). pose proof (ctx_length C). cbn in *. lia. Qed.

Lemma check_loop_Ok m t N : rep m [] t → bal N t → ∀ xs (b : option Z), Forall (node_of t) xs → b = None ∨ b = Some (Z.of_nat N) → check_loop m nil xs b = Ok true.
Proof.
  intros Hrep Hbal. induction xs as [|x xs IH]; intros b Hxs Hb; cbn [check_loop]; [done|]. apply Forall_cons in Hxs as [(C & c & d & l & r & Hp) Hxs]. rewrite <-Hp in Hrep, Hbal. apply (rep_plug m C) in Hrep.
  rewrite (isleaf_Ok _ _ _ _ _ _ _ Hrep). rbind. destruct l; [destruct r; [|by apply IH]|by apply IH]. rewrite (leaf_path _ _ _ _ _ _ _ Hrep). rbind.
  destruct (bal_blacks _ _ _ Hbal) as (n & Hn & HN & _). assert (Hc : (blacks C + (if c then 0 else 1))%nat = N) by (cbn in Hn; destruct c, n as [|n]; try done; [lia|naive_solver lia|destruct Hn as [-> _]; lia]).
  assert (E1 : (match b with Some n => Ok n | None => count_black m (x :: (fa <$> C)) end) = Ok (Z.of_nat N)) by (destruct Hb as [-> | ->]; [rewrite (count_black_Ok _ _ _ _ _ _ _ Hrep); by rewrite Hc|done]). rewrite E1. rbind.
  rewrite (check_path_Ok _ _ _ _ _ _ _ 0 _ Hrep Hbal), Hc. rbind. rewrite Z.add_0_l, Z.eqb_refl. cbn [negb orb]. apply IH; [done|by right].
Qed.
Lemma rb_check_Ok m t N : rep m [] t → bal N t → rb_check m nil = Ok true.
Proof.
  intros Hrep Hbal. unfold rb_check, assert_sentinel. rewrite (rep_sentinel _ _ _ Hrep). rbind. cbn [negb abort_if]. rewrite (rb_traverse_Ok m t Hrep). rbind. eapply check_loop_Ok; [done|done|apply elems_nodes|by left].
Qed.

Lemma height_mk s a c d t u : height (mk s a c d t u) = S (Nat.max (height t) (height u)).
Proof. destruct s; cbn; lia. Qed.
Lemma height_plug C t : (length C + height t <= height (plug C t))%nat.
Proof. revert t. induction C as [|F C IH]; intros t; cbn [length plug foldl]; [done|]. specialize (IH (plug1 F t)). unfold plug1 in IH at 1. rewrite height_mk in IH. unfold plug in IH. lia. Qed.
Lemma deepest_leaf t : t ≠ E → ∃ C a c d, plug C (T a c d E E) = t ∧ S (length C) = height t.
Proof.
  induction t as [|a c d l IHl r IHr]; [done|]. intros _. destruct (decide (height r <= height l)%nat) as [Hle|Hle].
  - destruct l as [|a' c' d' l' r'].
    { destruct r; [|cbn in Hle; lia]. by exists [], a, c, d. }
    destruct IHl as (C & a0 & c0 & d0 & Hp & Hh); [done|]. exists (C ++ [Fr true a c d r]), a0, c0, d0. rewrite plug_app, Hp, length_app. cbn in *. split; [done|lia].
  - destruct r as [|a' c' d' l' r']; [cbn in Hle; lia|]. destruct IHr as (C & a0 & c0 & d0 & Hp & Hh); [done|]. exists (C ++ [Fr false a c d l]), a0, c0, d0. rewrite plug_app, Hp, length_app. cbn in *. split; [done|lia].
Qed.

Lemma height_loop_Ok m t : rep m [] t → ∀ xs h, Forall (node_of t) xs → ∃ h', height_loop m nil xs h = Ok h' ∧ h <= h' <= Z.max h (Z.of_nat (height t)) ∧
  ∀ C a c d, a ∈ xs → plug C (T a c d E E) = t → Z.of_nat (S (length C)) <= h'.
Proof.
  intros Hrep. induction xs as [|x xs IH]; intros h Hxs; cbn [height_loop]; [exists h; split; [done|]; split; [lia|set_solver]|]. apply Forall_cons in Hxs as [(C & c & d & l & r & Hp) Hxs].
  pose proof Hrep as Hx. rewrite <-Hp in Hx. apply (rep_plug m C) in Hx. rewrite (isleaf_Ok _ _ _ _ _ _ _ Hx). rbind.
  assert (Hother : ∀ C' c' d', plug C' (T x c' d' E E) = t → l = E ∧ r = E ∧ length C' = length C).
  { intros C' c' d' Hp'. pose proof Hrep as Hx'. rewrite <-Hp' in Hx'. apply (rep_plug m C') in Hx'. pose proof (leaf_path _ _ _ _ _ _ _ Hx') as E1. rewrite (leaf_path _ _ _ _ _ _ _ Hx) in E1. injection E1 as E1.
    pose proof (isleaf_Ok _ _ _ _ _ _ _ Hx') as E2. rewrite (isleaf_Ok _ _ _ _ _ _ _ Hx) in E2. apply (f_equal length) in E1. rewrite !length_fmap in E1. by destruct l, r. }
  assert (Hdec : (l = E ∧ r = E) ∨ ¬ (l = E ∧ r = E)) by (destruct (tree_E l), (tree_E r); tauto). destruct Hdec as [[-> ->]|Hne].
  - rewrite (leaf_path _ _ _ _ _ _ _ Hx). rbind. cbn [length]. rewrite length_fmap. set (h1 := if h <? Z.of_nat (S (length C)) then Z.of_nat (S (length C)) else h).
    destruct (IH h1 Hxs) as (h' & E' & Hh & Hall). exists h'. split; [exact E'|]. pose proof (height_plug C (T x c d E E)) as HC. rewrite Hp in HC. cbn in HC. assert (Hh1 : h <= h1 ∧ Z.of_nat (S (length C)) <= h1 ∧ h1 <= Z.max h (Z.of_nat (height t))) by (unfold h1; destruct (Z.ltb_spec h (Z.of_nat (S (length C)))); lia).
    split; [lia|]. intros C' a' c' d' Hin Hp'. apply elem_of_cons in Hin as [->|Hin]; [|by eapply Hall]. destruct (Hother _ _ _ Hp') as (_ & _ & ->). lia.
  - assert (E1 : (match l, r with E, E => true | _, _ => false end) = false) by (destruct l, r; naive_solver). rewrite E1. destruct (IH h Hxs) as (h' & E' & Hh & Hall). exists h'. split; [exact E'|]. split; [done|].
    intros C' a' c' d' Hin Hp'. apply elem_of_cons in Hin as [->|Hin]; [|by eapply Hall]. destruct (Hother _ _ _ Hp') as (-> & -> & _). by destruct Hne.
Qed.
Lemma rb_height_Ok m t : rep m [] t → rb_height m nil = Ok (Z.of_nat (height t)).
Proof.
  intros Hrep. unfold rb_height, assert_sentinel. rewrite (rep_sentinel _ _ _ Hrep). rbind. cbn [negb abort_if]. rewrite (rb_traverse_Ok m t Hrep). rbind. destruct (height_loop_Ok m t Hrep _ 0 (elems_nodes t)) as (h' & -> & Hh & Hall). f_equal.
  destruct (tree_E t) as [->|Hne]; [cbn in *; lia|]. destruct (deepest_leaf t Hne) as (C & a & c & d & Hp & Hd). assert (Hin : a ∈ (elems t).*1) by (rewrite <-Hp, elems_plug; cbn; rewrite fmap_app, fmap_cons; set_solver).
  specialize (Hall C a c d Hin Hp). lia.
Qed.

(** *** Deletion of the node of an entry, of all nodes, and of the tree *)

Lemma delete_entry m D A a d B isint : balanced m D (A ++ (a, d) :: B) → ∃ m', rb_delete m a isint = Ok m' ∧ balanced m' (if isint then D else D ∖ {[a]}) (A ++ B).
Proof.
  intros (t & N & Hrep & Hbal & Hel & <-). destruct (locate_node m t A a d B Hrep Hel) as (C & c & l & r & HC & Hp & <- & <-). rewrite <-Hp in Hbal. destruct (delete_Ok m C a c d l r N isint HC Hbal) as (m' & E' & Hb). exists m'. split; [done|].
  eapply balanced_eq; [exact Hb|done|by rewrite <-!app_assoc].
Qed.

Lemma clear_loop_Ok isint fuel : ∀ m D es, balanced m D es → (length es < fuel)%nat → ∃ m', clear_loop fuel m nil (nextp es) isint = Ok m' ∧ balanced m' (if isint then D else D ∖ list_to_set es.*1) [].
Proof.
  induction fuel as [|fuel IH]; intros m D es Hb Hf; [lia|]. pose proof Hb as (t & N & Hrep & Hbal & Hel & HD). cbn [clear_loop]. rewrite (nextp_nil m t es Hrep) by (by exists []). destruct es as [|[a d] es].
  - exists m. split; [done|]. eapply balanced_eq; [exact Hb|destruct isint; set_solver|done].
  - cbn [nextp fst]. rewrite (rb_next_list m t [] a d es Hrep Hel). rbind. destruct (delete_entry m D [] a d es isint Hb) as (m1 & E1 & Hb1). rewrite E1. rbind. cbn in Hf. destruct (IH m1 _ es Hb1) as (m' & E' & Hb'); [lia|]. exists m'. split; [exact E'|].
    eapply balanced_eq; [exact Hb'| |done]. destruct isint; [done|]. cbn. set_solver.
Qed.
Lemma rb_clear_Ok isint m D es : balanced m D es → ∃ m', rb_clear m nil isint = Ok m' ∧ balanced m' (if isint then D else D ∖ list_to_set es.*1) [].
Proof.
  intros Hb. pose proof Hb as (t & N & Hrep & Hbal & Hel & HD). unfold rb_clear. rewrite (rb_first_Ok m t Hrep). rbind. unfold assert_sentinel. rewrite (rep_sentinel _ _ _ Hrep). rbind. cbn [negb abort_if]. rewrite Hel.
  destruct (clear_loop_Ok isint (S (size m)) m D es Hb) as (m1 & E1 & (t1 & N1 & H1 & Hb1 & Hel1 & HD1)); [rewrite <-Hel, elems_length; pose proof (rep_size _ _ _ Hrep); lia|]. rewrite E1. rbind.
  assert (t1 = E) as -> by (destruct t1; [done|]; cbn in Hel1; by apply app_nil in Hel1 as [_ ?]). destruct H1 as [(it & k & q & Hs) _ Hnd]. cbn [ptr] in Hs.
  assert (Hin : nil ∈ dom m1) by (by apply elem_of_dom_2 in Hs). rewrite (wr_Ok _ _ _ _ Hs). rbind. rewrite (wr_Ok _ _ _ _ (lookup_insert_eq _ _ _)). rewrite insert_insert_eq. eexists. split; [done|]. exists E, 0%nat. split; [|split; [done|split; [done|]]].
  - constructor; [exists it, k, q; by rewrite lookup_insert_eq|done|done].
  - rewrite dom_insert_L, <-HD1. set_solver.
Qed.
Lemma rb_destroy_Ok isint m D es : balanced m D es → ∃ m', rb_destroy m nil isint = Ok m' ∧ dom m' = (if isint then D else D ∖ list_to_set es.*1) ∖ {[nil]}.
Proof. intros Hb. unfold rb_destroy. destruct (rb_clear_Ok isint m D es Hb) as (m1 & E1 & (t & N & _ & _ & _ & HD)). rewrite E1. rbind. eexists. split; [done|]. by rewrite dom_delete_L, HD. Qed.


(** ** Search *)

Section order.
Context (cmp : K → K → Z) (ok : K → Prop) `{!KeyCmp cmp ok}.

Lemma flip_on (a b : K) : ok a → ok b → (cmp a b < 0 ↔ 0 < cmp b a).
Proof. apply kc_flip. Qed.
Lemma trans_on (a b c : K) : ok a → ok b → ok c → cmp a b <= 0 → cmp b c <= 0 → cmp a c <= 0.
Proof. apply kc_trans. Qed.

Definition le (e e' : loc * (K * option V)) : Prop := cmp e.2.1 e'.2.1 <= 0.
Definition sorted (l : list (loc * (K * option V))) : Prop := StronglySorted le l ∧ Forall (λ e, ok e.2.1) l.

Lemma le_flip (a b : K) : ok a → ok b → (cmp a b <= 0 ↔ 0 <= cmp b a).
Proof. intros Ha Hb. pose proof (flip_on a b Ha Hb). pose proof (flip_on b a Hb Ha). lia. Qed.
Lemma lt_le_trans (a b c : K) : ok a → ok b → ok c → cmp a b < 0 → cmp b c <= 0 → cmp a c < 0.
Proof.
  intros Ha Hb Hc H1 H2. destruct (Z.lt_ge_cases (cmp a c) 0) as [|H3]; [done|]. apply (le_flip c a Hc Ha) in H3. pose proof (trans_on b c a Hb Hc Ha H2 H3).
  pose proof (flip_on a b Ha Hb). lia.
Qed.
Lemma ge_le_trans (a b c : K) : ok a → ok b → ok c → 0 <= cmp a b → cmp c b <= 0 → 0 <= cmp a c.
Proof. intros Ha Hb Hc H1 H2. apply (le_flip c a Hc Ha). apply (le_flip b a Hb Ha) in H1. by eapply (trans_on c b a). Qed.

(** Everything before a place is at most the key, everything behind is above it. *)
Definition between (k : K) C : Prop := Forall (λ e, 0 <= cmp k e.2.1) (pre C) ∧ Forall (λ e, cmp k e.2.1 < 0) (post C).

Lemma sorted_middle A e B : sorted (A ++ e :: B) → Forall (λ e', cmp e'.2.1 e.2.1 <= 0 ∧ ok e'.2.1) A ∧ ok e.2.1 ∧ Forall (λ e', cmp e.2.1 e'.2.1 <= 0 ∧ ok e'.2.1) B.
Proof.
  intros [Hs Hok]. rewrite Forall_app, Forall_cons in Hok. destruct Hok as (HA & He & HB). split; [|split; [done|]].
  - induction A as [|x A IH]; [done|]. cbn in Hs. apply StronglySorted_inv in Hs as [Hs Hx]. apply Forall_cons in HA as [Hx' HA]. constructor; [|by apply IH].
    rewrite Forall_app, Forall_cons in Hx. destruct Hx as (_ & Hx & _). by split.
  - induction A as [|x A IH]; [|apply StronglySorted_inv in Hs as [Hs _]; apply Forall_cons in HA as [_ HA]; by apply IH]. cbn in Hs. apply StronglySorted_inv in Hs as [_ Hx].
    apply Forall_and. by split.
Qed.

(** One step down: the place of the child on the side that the comparison says *)
Lemma between_step k C a c d l r : sorted (elems (plug C (T a c d l r))) → ok k → between k C →
  between k (if cmp k d.1 <? 0 then Fr true a c d r :: C else Fr false a c d l :: C).
Proof.
  intros Hs Hk [Hpre Hpost]. rewrite elems_plug in Hs. cbn [elems] in Hs. rewrite <-app_assoc in Hs. cbn in Hs. rewrite app_assoc in Hs. apply sorted_middle in Hs as (HA & Hd & HB). cbn [snd] in *.
  apply Forall_app in HA as [_ HA]. apply Forall_app in HB as [HB _]. destruct (Z.ltb_spec (cmp k d.1) 0) as [Hlt|Hge]; split; cbn [pre post fs fa fd ft]; rewrite ?app_nil_r; try done.
  - apply Forall_app. split; [|done]. constructor; [done|]. eapply Forall_impl; [exact HB|]. intros e [He1 He2]. by apply (lt_le_trans k d.1).
  - apply Forall_app. split; [done|]. apply Forall_app. split; [|by constructor]. eapply Forall_impl; [exact HA|]. intros e [He1 He2]. by apply (ge_le_trans k d.1).
Qed.

Lemma descend_Ok fuel : ∀ m C t k y, rep m C t → (height t < fuel)%nat → (t = E → y = up C) → sorted (elems (plug C t)) → ok k → between k C →
  (∀ F C', C = F :: C' → (cmp k (fd F).1 <? 0) = fs F) →
  ∃ C', descend cmp fuel m nil k (ptr t) y = Ok (up C') ∧ plug C' E = plug C t ∧ between k C' ∧ (∀ F C'', C' = F :: C'' → (cmp k (fd F).1 <? 0) = fs F).
Proof.
  induction fuel as [|fuel IH]; intros m C t k y Hrep Hf Hy Hs Hk Hb Hside; [lia|]. destruct t as [|a c d l r]; cbn [descend ptr].
  - rewrite bool_decide_true by done. exists C. rewrite (Hy eq_refl). done.
  - destruct (rep_up_node _ _ _ _ _ _ _ Hrep) as (_ & _ & _ & _ & _ & Hnil & _). rewrite bool_decide_false by done. rewrite (rep_node m C true a c d l r Hrep). cbn [deref]. rbind. cbn [nd key left right].
    cbn [height] in Hf. pose proof (between_step k C a c d l r Hs Hk Hb) as Hb'. destruct (cmp k d.1 <? 0) eqn:Ec.
    + destruct (IH m (Fr true a c d r :: C) l k a) as (C' & E' & Hp & Hrest); [by apply rep_up|lia|done|exact Hs|done|done| |].
      * intros F C' [= <- <-]. done.
      * exists C'. split; [exact E'|]. split; [exact Hp|exact Hrest].
    + destruct (IH m (Fr false a c d l :: C) r k a) as (C' & E' & Hp & Hrest); [by apply rep_up|lia|done|exact Hs|done|done| |].
      * intros F C' [= <- <-]. done.
      * exists C'. split; [exact E'|]. split; [exact Hp|exact Hrest].
Qed.

(** A search finds a node with the key, or there is none. *)
Lemma rb_find_loop_Ok fuel : ∀ m C t k (c : Z), rep m C t → (height t < fuel)%nat → sorted (elems (plug C t)) → ok k → between k C → Forall (λ e, cmp k e.2.1 ≠ 0) (pre C) →
  (∃ a d (c' : Z), find_loop cmp fuel m nil k (ptr t) c = Ok (a, c') ∧ c' = 0 ∧ a ≠ nil ∧ (a, d) ∈ elems t ∧ cmp k d.1 = 0 ∧ ∃ p l r co, m !! a = Some (Node d.2 d.1 p l r co)) ∨
  (∃ c' : Z, find_loop cmp fuel m nil k (ptr t) c = Ok (nil, c') ∧ Forall (λ e, cmp k e.2.1 ≠ 0) (elems (plug C t))).
Proof.
  induction fuel as [|fuel IH]; intros m C t k c Hrep Hf Hs Hk Hb Hpre; [lia|]. destruct t as [|a co d l r]; cbn [find_loop ptr].
  - right. rewrite bool_decide_true by done. exists c. split; [done|]. rewrite elems_plug. cbn [elems app]. apply Forall_app. split; [done|]. destruct Hb as [_ Hb]. eapply Forall_impl; [exact Hb|]. cbn. lia.
  - destruct (rep_up_node _ _ _ _ _ _ _ Hrep) as (_ & _ & _ & _ & _ & Hnil & _). pose proof (rep_node m C true a co d l r Hrep) as Hn. rewrite bool_decide_false by done. rewrite Hn. cbn [deref]. rbind. cbn [nd key left right].
    cbn [height] in Hf. pose proof (between_step k C a co d l r Hs Hk Hb) as Hb'. destruct (Z.eqb_spec (cmp k d.1) 0) as [Hz|Hnz].
    + left. exists a, d, (cmp k d.1). split; [done|]. split; [done|]. split; [done|]. split; [cbn; set_solver|]. split; [done|]. by repeat eexists.
    + destruct (cmp k d.1 <? 0) eqn:Ec.
      * destruct (IH m (Fr true a co d r :: C) l k (cmp k d.1)) as [(a' & d' & c' & E' & Hc & Ha & Hin & Hrest)|(c' & E' & Hall)]; [by apply rep_up|lia|exact Hs|done|done|cbn; by rewrite app_nil_r| |].
        -- left. exists a', d', c'. do 3 (split; [done|]). split; [cbn; set_solver|done].
        -- right. by exists c'.
      * assert (Hpre' : Forall (λ e, cmp k e.2.1 ≠ 0) (pre (Fr false a co d l :: C))).
        { cbn. rewrite !Forall_app. split; [done|]. split; [|by constructor].
          rewrite elems_plug in Hs. cbn [elems] in Hs. rewrite <-app_assoc in Hs. cbn in Hs. rewrite app_assoc in Hs. apply sorted_middle in Hs as (HA & Hd & _). apply Forall_app in HA as [_ HA].
          eapply Forall_impl; [exact HA|]. cbn [snd] in *. intros e [He1 He2] Hz. apply Z.ltb_ge in Ec. pose proof (trans_on k e.2.1 d.1 Hk He2 Hd ltac:(lia) He1). lia. }
        destruct (IH m (Fr false a co d l :: C) r k (cmp k d.1)) as [(a' & d' & c' & E' & Hc & Ha & Hin & Hrest)|(c' & E' & Hall)]; [by apply rep_up|lia|exact Hs|done|done|done| |].
        -- left. exists a', d', c'. do 3 (split; [done|]). split; [cbn; set_solver|done].
        -- right. by exists c'.
Qed.

(** ** Insertion *)

(** The rest of an insertion, once the new node is a leaf of the tree *)
Lemma insert_rest m C z d : rep m C (T z true d E E) → cbal 0 C →
  ∃ m', (b ← or_else (isroot m z) (p ← rd parent m z; isroot m p);
         if b : bool then r ← rd right m nil; m ← setblack m r; Ok (m, z)
         else y ← rd parent m z; x ← rd parent m y; '(m, (x, y, z')) ← recolor (S (size m)) m x y z; m ← insert_fix m nil x y z'; Ok (m, z)) = Ok (m', z) ∧
    balanced m' (dom m) (elems (plug C (T z true d E E))).
Proof.
  intros Hrep HC. rewrite (rep_isroot _ _ _ _ _ _ _ Hrep). destruct (rep_up_node _ _ _ _ _ _ _ Hrep) as (Hp & _). rewrite Hp. rbind. unfold or_else. destruct C as [|F [|F' C]]; cbn [top up].
  - rbind. destruct Hrep as [Hs Ha Hnd]. assert (Hrep : rep m [] (T z true d E E)) by done. destruct Hs as (it & k & q & Hs). rewrite (rd_Ok _ _ _ _ Hs). rbind. cbn [right ptr].
    destruct (set_red_Ok m [] true z true false d E E Hrep) as (m1 & E1 & Hd1 & H1). unfold setblack. rewrite E1. rbind. exists m1. split; [done|]. by exists (T z false d E E), 1%nat.
  - pose proof (rep_zip _ _ _ _ Hrep) as HF. unfold plug1 in HF. rbind. assert (Hroot : isroot m (fa F) = Ok true) by (destruct (fs F); apply (rep_isroot _ _ _ _ _ _ _ HF)). rewrite Hroot. rbind.
    assert (Hs : ∃ it k q, m !! nil = Some (Node it k q nil (fa F) false)) by (destruct HF as [HF _ _]; by rewrite mk_ptr in HF). destruct Hs as (it & k & q & Hs). rewrite (rd_Ok _ _ _ _ Hs). rbind. cbn [right].
    destruct (set_red_Ok _ _ _ _ _ false _ _ _ HF) as (m1 & E1 & Hd1 & H1). unfold setblack. rewrite E1. rbind. exists m1. split; [done|]. destruct HC as [HuF HC].
    exists (mk (fs F) (fa F) false (fd F) (T z true d E E) (ft F)), 1%nat. split; [done|]. split; [by apply bal_mk|]. split; [|done]. unfold plug, plug1, mk. cbn. by destruct (fs F).
  - pose proof (rep_zip _ _ _ _ Hrep) as HF. unfold plug1 in HF. rbind. assert (Hroot : isroot m (fa F) = Ok false) by (destruct (fs F); apply (rep_isroot _ _ _ _ _ _ _ HF)). rewrite Hroot. rbind.
    assert (HpF : rd parent m (fa F) = Ok (fa F')) by (destruct (fs F); apply (rep_up_node _ _ _ _ _ _ _ HF)). rewrite HpF. rbind.
    destruct (insert_loop_Ok (S (size m)) m (F :: F' :: C) (T z true d E E) 0 Hrep) as (m' & E' & Hb'); [done|done|done|done|pose proof (rep_size _ _ _ Hrep); pose proof (ctx_length (F :: F' :: C)); lia|].
    cbn [up2 up ptr] in E'. destruct (recolor _ _ _ _ _) as [[m1 [[x y] z']]|] eqn:E1; [|done]. rbind. cbn in E'. rewrite E'. rbind. by exists m'.
Qed.

Lemma insert_Ok m t N k it : rep m [] t → bal N t → sorted (elems t) → ok k →
  ∃ m' z A B, rb_insert_fnt cmp m nil k it = Ok (m', z) ∧ z ∉ dom m ∧ elems t = A ++ B ∧ balanced m' ({[z]} ∪ dom m) (A ++ (z, (k, it)) :: B) ∧
    Forall (λ e, 0 <= cmp k e.2.1) A ∧ Forall (λ e, cmp k e.2.1 < 0) B.
Proof.
  intros Hrep Hbal Hs Hk. unfold rb_insert_fnt. pose proof Hrep as [(it0 & k0 & q0 & Hsent) _ _]. rewrite (rd_Ok _ _ _ _ Hsent). rbind. cbn [right]. unfold assert_sentinel. rewrite (rep_sentinel _ _ _ Hrep). rbind. cbn [negb abort_if].
  destruct (descend_Ok (S (size m)) m [] t k (ptr t) Hrep) as (C & E & Hplug & Hbt & Hside); [pose proof (rep_size _ _ _ Hrep); pose proof (height_locs t); lia|by intros ->|done|done|by split|done|].
  rewrite E. rbind. cbn [plug foldl] in Hplug. pose proof Hrep as HrepC. rewrite <-Hplug in HrepC. apply (rep_plug m C RedBlack.E) in HrepC. rewrite <-Hplug in Hbal. apply bal_unplug in Hbal as (n & Hn & HC & _). cbn in Hn. subst n.
  set (z := malloc m). assert (Hz : z ∉ dom m) by apply malloc_fresh.
  assert (Hlocs : ∀ a, a ∈ nil :: clocs C → a ∈ dom m).
  { intros a Ha. apply (rep_plug m C) in HrepC. destruct HrepC as [(it1 & k1 & q1 & Hs1) Hat _]. apply elem_of_cons in Ha as [->|Ha]; [by apply elem_of_dom_2 in Hs1|].
    eapply (at_dom m _ _ Hat). rewrite plug_locs. apply elem_of_app. by left. }
  assert (Hz' : z ∉ nil :: clocs C) by (intros H; by apply Hz, Hlocs).
  destruct (insert_leaf m C z (k, it) HrepC Hz Hz') as (m1 & E1 & Hd1 & H1). cbn [fst snd] in E1.
  assert (El : (if bool_decide (up C = nil) then Ok false else k' ← rd key (<[z := Node it k (up C) nil nil true]> m) (up C); Ok (cmp k k' <? 0)) = Ok (side C)).
  { destruct C as [|F C]; cbn [up side]; [by rewrite bool_decide_true|]. pose proof (rep_zip _ _ _ _ HrepC) as HF. unfold plug1 in HF. pose proof (rep_node _ _ _ _ _ _ _ _ HF) as HnF.
    assert (fa F ≠ nil) by (destruct (fs F); apply (rep_up_node _ _ _ _ _ _ _ HF)). rewrite bool_decide_false by done.
    assert (HnF' : <[z := Node it k (fa F) nil nil true]> m !! fa F = Some (nd (fd F) (up C) (fs F) (ptr RedBlack.E) (ptr (ft F)) (fc F))) by (rewrite lookup_insert_ne; [done|intros Ez; apply Hz; rewrite Ez; by apply elem_of_dom_2 in HnF]).
    rewrite (rd_Ok _ _ _ _ HnF'). rbind. cbn [nd key]. by rewrite (Hside F C eq_refl). }
  rewrite El. rbind. assert (Ew : wr (if side C then set_left z else set_right z) (<[z := Node it k (up C) nil nil true]> m) (up C) = Ok m1) by (rewrite <-E1; unfold set_child; by destruct (side C)). rewrite Ew. rbind.
  destruct (insert_rest m1 C z (k, it) H1 HC) as (m' & E' & Hb'). exists m', z, (pre C), (post C). split; [exact E'|]. split; [done|]. split; [by rewrite <-Hplug, elems_plug|].
  rewrite elems_plug, Hd1 in Hb'. split; [exact Hb'|exact Hbt].
Qed.

Lemma insert_sorted A B z k it : sorted (A ++ B) → ok k → Forall (λ e, 0 <= cmp k e.2.1) A → Forall (λ e, cmp k e.2.1 < 0) B → sorted (A ++ (z, (k, it)) :: B).
Proof.
  intros [Hs Hok] Hk HA HB. apply Forall_app in Hok as [HokA HokB]. split; [|apply Forall_app; split; [done|by constructor]].
  induction A as [|e A IH]; cbn in *.
  - constructor; [done|]. eapply Forall_impl; [exact HB|]. unfold le. cbn. lia.
  - apply StronglySorted_inv in Hs as [Hs He]. apply Forall_cons in HA as [HeA HA]. apply Forall_cons in HokA as [Hoke HokA]. constructor; [by apply IH|]. rewrite Forall_app in He |- *. destruct He as [He1 He2].
    split; [done|]. constructor; [|done]. unfold le. cbn. by apply (le_flip e.2.1 k).
Qed.

(** ** Searches *)

Lemma rb_find_Ok m t k : rep m [] t → sorted (elems t) → ok k →
  (∃ a d p l r c, rb_find_fnt cmp m nil k = Ok (true, a) ∧ (a, d) ∈ elems t ∧ cmp k d.1 = 0 ∧ m !! a = Some (Node d.2 d.1 p l r c)) ∨
  (rb_find_fnt cmp m nil k = Ok (false, nil) ∧ Forall (λ e, cmp k e.2.1 ≠ 0) (elems t)).
Proof.
  intros Hrep Hs Hk. unfold rb_find_fnt, assert_sentinel. rewrite (rep_sentinel _ _ _ Hrep). pose proof Hrep as [(it0 & k0 & q0 & Hsent) _ _]. rewrite (rd_Ok _ _ _ _ Hsent). rbind. cbn [negb abort_if right].
  destruct (rb_find_loop_Ok (S (size m)) m [] t k 1 Hrep) as [(a & d & c' & E' & -> & Ha & Hin & Hz & p & l & r & co & Hn)|(c' & E' & Hall)];
    [pose proof (rep_size _ _ _ Hrep); pose proof (height_locs t); lia|done|done|by split|done| |].
  - left. exists a, d, p, l, r, co. rewrite E'. rbind. by rewrite bool_decide_false.
  - right. rewrite E'. rbind. by rewrite bool_decide_true.
Qed.

(** ** Operations on a sorted list of entries *)

Inductive lstep : list (K * option V) → op K V → list (K * option V) → Prop :=
| ls_insert A B k it : Forall (λ e, 0 <= cmp k e.1) A → Forall (λ e, cmp k e.1 < 0) B → lstep (A ++ B) (Insert k it) (A ++ (k, it) :: B)
| ls_delete A d B k : cmp k d.1 = 0 → lstep (A ++ d :: B) (Delete k) (A ++ B)
| ls_absent es k : Forall (λ e, cmp k e.1 ≠ 0) es → lstep es (Delete k) es.
Inductive lsteps : list (K * option V) → list (op K V) → list (K * option V) → Prop :=
| lss_nil es : lsteps es [] es
| lss_cons es o es1 os es2 : lstep es o es1 → lsteps es1 os es2 → lsteps es (o :: os) es2.

Definition tree_of m (es : list (loc * (K * option V))) : Prop := balanced m (dom m) es ∧ sorted es.

Lemma sorted_delete A e B : sorted (A ++ e :: B) → sorted (A ++ B).
Proof.
  intros [Hs Hok]. rewrite Forall_app, Forall_cons in Hok. destruct Hok as (HA & _ & HB). split; [|by apply Forall_app].
  clear HA HB. induction A as [|x A IH]; cbn in *; [by apply StronglySorted_inv in Hs as [? _]|]. apply StronglySorted_inv in Hs as [Hs Hx]. constructor; [by apply IH|]. rewrite Forall_app, Forall_cons in Hx. destruct Hx as (? & _ & ?). by apply Forall_app.
Qed.

(** What an operation does to the nodes in memory *)
Definition frees (isint : bool) (o : op K V) (D D' : gset loc) (es es' : list (loc * (K * option V))) : Prop :=
  if isint then size D' = (size D + inserted o)%nat else D' ∖ list_to_set es'.*1 = D ∖ list_to_set es.*1.

Lemma step_Ok isint m es o : tree_of m es → ok (op_key o) →
  ∃ m' es', rb_step cmp isint m nil o = Ok m' ∧ tree_of m' es' ∧ lstep es.*2 o es'.*2 ∧ frees isint o (dom m) (dom m') es es'.
Proof.
  intros [(t & N & Hrep & Hbal & <- & _) Hs] Hk. assert (Hnd : NoDup (elems t).*1) by (rewrite elems_locs; destruct Hrep as [_ _ Hnd]; by apply NoDup_cons in Hnd as [_ ?]).
  assert (Hin : ∀ a, a ∈ (elems t).*1 → a ∈ dom m) by (intros a Ha; rewrite elems_locs in Ha; eapply at_dom; [by destruct Hrep|done]). destruct o as [k it|k]; cbn [rb_step op_key] in *.
  - destruct (insert_Ok m t N k it Hrep Hbal Hs Hk) as (m' & z & A & B & E' & Hz & Hel & (t' & N' & H1 & H2 & H3 & H4) & HA & HB). rewrite E'. rbind. exists m', (A ++ (z, (k, it)) :: B). split; [done|]. rewrite Hel in *. split; [split|split].
    + by exists t', N'.
    + by apply insert_sorted.
    + rewrite !fmap_app, fmap_cons. cbn. constructor; by apply Forall_fmap.
    + rewrite H4. unfold frees. destruct isint; cbn [inserted]; [rewrite size_union, size_singleton by set_solver; lia|]. rewrite !fmap_app, fmap_cons, !list_to_set_app_L. cbn. set_solver.
  - destruct (rb_find_Ok m t k Hrep Hs Hk) as [(a & d & p & l & r & c & E' & Ha & Hz & Hn)|[E' Hall]]; rewrite E'; rbind.
    + apply list_elem_of_split in Ha as (A & B & Hel). assert (Hb : balanced m (dom m) (A ++ (a, d) :: B)) by (by exists t, N). destruct (delete_entry m _ A a d B isint Hb) as (m' & E1 & (t' & N' & H1 & H2 & H3 & H4)). exists m', (A ++ B). split; [done|]. rewrite Hel in *. split; [split|split].
      * by exists t', N'.
      * by eapply sorted_delete.
      * rewrite !fmap_app, fmap_cons. by constructor.
      * unfold frees. rewrite H4. destruct isint; [cbn; lia|]. rewrite !fmap_app, fmap_cons, !list_to_set_app_L. cbn. set_solver.
    + exists m, (elems t). split; [done|]. split; [split; [by exists t, N|done]|]. split; [constructor; by apply Forall_fmap|]. unfold frees. destruct isint; [cbn; lia|done].
Qed.

Lemma run_Ok isint os : ∀ m es, tree_of m es → Forall (λ o, ok (op_key o)) os →
  ∃ m' es', rb_run cmp isint m nil os = Ok m' ∧ tree_of m' es' ∧ lsteps es.*2 os es'.*2 ∧
    if isint then size (dom m') = (size (dom m) + sum_list (inserted <$> os))%nat else dom m' ∖ list_to_set es'.*1 = dom m ∖ list_to_set es.*1.
Proof.
  induction os as [|o os IH]; intros m es Ht Hos; cbn [rb_run].
  - exists m, es. split; [done|]. split; [done|]. split; [constructor|]. destruct isint; [cbn; lia|done].
  - apply Forall_cons in Hos as [Ho Hos]. destruct (step_Ok isint m es o Ht Ho) as (m1 & es1 & E1 & Ht1 & Hl1 & Hf1). rewrite E1. rbind. destruct (IH m1 es1 Ht1 Hos) as (m' & es' & E' & Ht' & Hl' & Hf'). exists m', es'. split; [done|]. split; [done|]. split; [by econstructor|].
    unfold frees in Hf1. destruct isint; [rewrite Hf', Hf1; cbn; lia|congruence].
Qed.


End order.

End proofs.

(** ** From the creation on *)

Section runs.
Context {K V : Type} (cmp : K → K → Z) (ok : K → Prop) `{!KeyCmp cmp ok}.
Implicit Types (m : gmap loc (node K V)) (es : list (K * option V)).

(** The key and the item of a node *)
Definition entry m x : res (K * option V) := rd (λ n, (key n, item n)) m x.

Lemma create_Ok m0 (junk : K) m rb : rb_create m0 junk = (m, rb) → tree_of rb cmp ok m [] ∧ rb ∉ dom m0 ∧ dom m = {[rb]} ∪ dom m0.
Proof.
  unfold rb_create. intros [= <- <-]. split; [|split; [apply malloc_fresh|by rewrite dom_insert_L]]. split; [|split; constructor]. exists E, 0%nat. split; [|done]. constructor; [|done|apply NoDup_singleton].
  cbn. do 3 eexists. by rewrite lookup_insert_eq.
Qed.

Lemma entry_in rb m t a d : rep rb m [] t → (a, d) ∈ elems t → entry m a = Ok d.
Proof. intros Hrep Ha. apply list_elem_of_split in Ha as (A & B & HA). destruct (locate_node rb m t A a d B Hrep HA) as (C & c & l & r & H & _). apply (rep_node rb m C true) in H. unfold entry. rewrite (rd_Ok _ _ _ _ H). by destruct d. Qed.

(** The answers of a tree with the entries [es] *)
Definition answers m rb es : Prop :=
  StronglySorted (λ e e', cmp e.1 e'.1 <= 0) es ∧
  (∃ xs, rb_traverse m rb = Ok xs ∧ Forall2 (λ x e, entry m x = Ok e) xs es) ∧
  rb_count m rb = Ok (Z.of_nat (length es)) ∧ rb_check m rb = Ok true ∧
  (∃ h, rb_height m rb = Ok h ∧ h <= 2 * Z.log2 (Z.of_nat (length es) + 1) + 1) ∧
  ∀ k, ok k → match rb_find_fnt cmp m rb k with
    | Ok (true, x) => ∃ e, e ∈ es ∧ cmp k e.1 = 0 ∧ entry m x = Ok e
    | Ok (false, x) => x = rb ∧ Forall (λ e, cmp k e.1 ≠ 0) es
    | Err _ => False
    end.

Lemma tree_height t N : bal N t → Z.of_nat (height (K:=K) (V:=V) t) <= 2 * Z.log2 (Z.of_nat (length (elems t)) + 1) + 1.
Proof.
  intros Hb. destruct (bal_height N t Hb) as [H1 H2]. assert (Z.of_nat N <= Z.log2 (Z.of_nat (length (elems t)) + 1)); [|destruct (color t); lia].
  apply Z.log2_le_pow2; [lia|]. change 2 with (Z.of_nat 2). rewrite <-Nat2Z.inj_pow. lia.
Qed.

Lemma tree_answers m rb les : tree_of rb cmp ok m les → answers m rb les.*2.
Proof.
  intros [(t & N & Hrep & Hbal & <- & _) Hs]. unfold answers. rewrite length_fmap. split; [|split; [|split; [|split; [|split]]]].
  - destruct Hs as [Hs _]. induction Hs as [|e es' Hs IH He]; constructor; [done|]. by apply Forall_fmap.
  - exists (elems t).*1. split; [by apply rb_traverse_Ok|]. apply Forall2_fmap, Forall_Forall2_diag, Forall_forall. intros [a d] Ha. by apply (entry_in rb m t).
  - by apply rb_count_Ok.
  - by apply (rb_check_Ok rb m t N).
  - exists (Z.of_nat (height t)). split; [by apply rb_height_Ok|by apply (tree_height t N)].
  - intros k Hk. destruct (rb_find_Ok rb cmp ok m t k Hrep Hs Hk) as [(a & d & p & l & r & c & -> & Ha & Hz & Hn)|[-> Hall]].
    + exists d. split; [by apply (list_elem_of_fmap_2 snd) in Ha|]. split; [done|by apply (entry_in rb m t)].
    + split; [done|]. by apply Forall_fmap.
Qed.

(** C6: whatever is inserted and deleted, no call reads a missing node or fails, and the tree answers as the sorted list of its
    entries does on which the same insertions and deletions are done: an insertion puts the new entry behind the equal ones,
    a deletion takes out an entry with the key if there is one, a traversal meets the entries in order, a search finds an entry
    with the key or there is none, [rb_count] is their number, [rb_check] returns 1, and the height is at most
    2 log2 (n + 1) + 1. *)
Theorem rb_tree_refines_sorted_list isint m0 (junk : K) m1 rb (os : list (op K V)) : rb_create m0 junk = (m1, rb) → Forall (λ o, ok (op_key o)) os →
  ∃ m es, rb_run cmp isint m1 rb os = Ok m ∧ lsteps cmp [] os es ∧ answers m rb es.
Proof.
  intros Hc Hos. destruct (create_Ok _ _ _ _ Hc) as [Ht _]. destruct (run_Ok rb cmp ok isint os m1 [] Ht Hos) as (m & les & E & Hm & Hl & _). exists m, les.*2. split; [done|]. split; [done|]. by apply tree_answers.
Qed.

(** The sentinel itself cannot be deleted: the assertion fails. *)
Lemma sentinel_stays m rb isint D les : balanced rb m D les → rb_delete m rb isint = Err Aborted.
Proof. intros (t & N & Hrep & _). unfold rb_delete. by rewrite (rep_sentinel _ _ _ _ Hrep). Qed.

(** C35: with [isint] cleared a tree frees what it took: after [rb_destroy] the memory is as large as before [rb_create], whatever was
    inserted and deleted. With [isint] set no node is ever freed: every insertion leaves one behind. [rb_delete] of the tree itself,
    which is how [base_destroy] gives up its tree, fails its assertion. *)
Theorem rb_destroy_frees_unless_isint isint m0 (junk : K) m1 rb (os : list (op K V)) : rb_create m0 junk = (m1, rb) → Forall (λ o, ok (op_key o)) os →
  ∃ m m', rb_run cmp isint m1 rb os = Ok m ∧ rb_delete m rb isint = Err Aborted ∧ rb_destroy m rb isint = Ok m' ∧
    if isint then size m' = (size m0 + sum_list (inserted <$> os))%nat else dom m' = dom m0.
Proof.
  intros Hc Hos. destruct (create_Ok _ _ _ _ Hc) as (Ht & Hrb & Hdom). destruct (run_Ok rb cmp ok isint os m1 [] Ht Hos) as (m & les & E & [Hm _] & _ & Hd). destruct (rb_destroy_Ok rb isint m (dom m) les Hm) as (m' & E' & Hd'). exists m, m'. split; [done|].
  split; [by apply (sentinel_stays m rb isint (dom m) les)|]. split; [done|].
  assert (Hin : rb ∈ dom m) by (destruct Hm as (t & N & [(it & k & q & Hs) _ _] & _); by apply elem_of_dom_2 in Hs). destruct isint.
  - rewrite <-size_dom, Hd', size_difference, size_singleton by set_solver. rewrite Hd, Hdom, size_union, size_singleton by set_solver. rewrite size_dom. lia.
  - rewrite Hd', Hd, Hdom. cbn. set_solver.
Qed.

End runs.


(** Ten nodes in, four out, and what is left. *)
Definition sample_ops : list (op Z Z) := ((λ k, Insert k (Some (10 * k))) <$> [5; 2; 8; 1; 9; 3; 7; 6; 4; 10]) ++ (Delete <$> [5; 1; 9; 4]).
Lemma sample_tree_ok : let '(m, rb) := rb_create ∅ 0 in
  (m ← rb_run int_cmp false m rb sample_ops; c ← rb_check m rb; h ← rb_height m rb; l ← rb_traverse m rb; ks ← foldr (λ x ks, k ← rd key m x; ks ← ks; Ok (k :: ks)) (Ok []) l; Ok (c, h, ks)) = Ok (true, 4, [2; 3; 6; 7; 8; 10]).
Proof. vm_compute. reflexivity. Qed.

Lemma rb_tree_refines_sorted_list_witness : let '(m1, rb) := rb_create ∅ 0 in
  ∃ m es, rb_run int_cmp false m1 rb sample_ops = Ok m ∧ lsteps int_cmp [] sample_ops es ∧ answers int_cmp (λ _, True) m rb es.
Proof. apply (rb_tree_refines_sorted_list int_cmp (λ _, True) false ∅ 0 _ _ sample_ops); [reflexivity|by repeat constructor]. Defined.

Lemma rb_destroy_frees_unless_isint_witness : let '(m1, rb) := rb_create ∅ 0 in
  ∃ m m', rb_run int_cmp true m1 rb sample_ops = Ok m ∧ rb_delete m rb true = Err Aborted ∧ rb_destroy m rb true = Ok m' ∧ size m' = 10%nat.
Proof.
  destruct (rb_destroy_frees_unless_isint int_cmp (λ _, True) true ∅ 0 _ _ sample_ops eq_refl) as (m & m' & H1 & H2 & H3 & H4); [by repeat constructor|]. exists m, m'. split; [exact H1|]. split; [exact H2|]. split; [exact H3|exact H4].
Defined.

End RedBlack.
