(* ===== verification/BlockManager.v ===== *)
(** * The block manager (blockmanager/base_block_manager.c, include/container.h)

    The base block manager owns every erase block of the device. A segment is
    one block of each of the 64 channels. Free blocks wait in a queue per
    channel, blocks handed out are in a max heap per channel keyed by their
    number of invalid pages, and a bitmap per block says which pages are valid.

    A pointer to a block is its index in [base_block]; segments are heap objects
    and live in [segs]. The queue is used through [FIFO], the red-black tree
    that finds a segment by its number through [IntMap], which RedBlackMap
    implements. The device is used through [Lower]. *)
From S2P Require Export Prelude Settings Queue MaxHeap BadBlock Lower.

Local Open Scope Z_scope.

(** ** The map from integers ([rb_create], [rb_insert_int], [rb_find_int],
    [rb_delete] of include/data_struct/redblack.h) *)

Class IntMap (V M : Type) := {
  im_create : M;
  im_insert : Z → V → M → M;
  im_find : Z → M → option V;
  im_delete : Z → M → M;
  im_find_create k : im_find k im_create = None;
  im_find_insert k j v m : im_find k m = None →
    im_find j (im_insert k v m) = if decide (k = j) then Some v else im_find j m;
  im_find_delete k j m : im_find j (im_delete k m) = if decide (k = j) then None else im_find j m;
}.

(** A concrete map, to run the model with. *)
#[export] Program Instance gmap_intmap (V : Type) : IntMap V (gmap Z V) := {|
  im_create := ∅;
  im_insert k v m := <[k := v]> m;
  im_find k m := m !! k;
  im_delete k m := delete k m
|}.
Next Obligation. intros. apply lookup_empty. Qed.
Next Obligation. intros V k j v m _. apply lookup_insert. Qed.
Next Obligation. intros V k j m. apply lookup_delete. Qed.

(** ** Data (include/container.h) *)

(** [__block]. The fields [max] and [private_data] are not used by the manager;
    [hptr] is the heap node of the block. *)
Record __block := Block {
  punit_num : Z; block_num : Z; now : Z; bitset : carray Z; invalid_number : Z; age : Z;
  seg_idx : Z; hptr : option nat; oob_list : carray (list Z) }.

(** [__segment] *)
Record __segment := Segment {
  s_seg_idx : Z; s_blocks : list Z; s_now : Z; s_max : Z; used_page_num : Z; invalid_blocks : Z }.

(** [__gsegment] *)
Record __gsegment := GSegment {
  g_blocks : list Z; g_now : Z; g_max : Z; invalidate_number : Z }.

Definition set_now v b :=
  Block (punit_num b) (block_num b) v (bitset b) (invalid_number b) (age b) (seg_idx b) (hptr b) (oob_list b).
Definition set_bitset v b :=
  Block (punit_num b) (block_num b) (now b) v (invalid_number b) (age b) (seg_idx b) (hptr b) (oob_list b).
Definition set_invalid v b :=
  Block (punit_num b) (block_num b) (now b) (bitset b) v (age b) (seg_idx b) (hptr b) (oob_list b).
Definition set_seg_idx v b :=
  Block (punit_num b) (block_num b) (now b) (bitset b) (invalid_number b) (age b) v (hptr b) (oob_list b).
Definition set_hptr v b :=
  Block (punit_num b) (block_num b) (now b) (bitset b) (invalid_number b) (age b) (seg_idx b) v (oob_list b).
Definition set_oob_list v b :=
  Block (punit_num b) (block_num b) (now b) (bitset b) (invalid_number b) (age b) (seg_idx b) (hptr b) v.

Definition OOB_LEN : Z := NPCINPAGE * 4.

(** A block of the [calloc]ed table, and its empty bitmap and spare areas. *)
Definition zero_bitset : carray Z := ca_new (_PPB / 8) 0.
Definition zero_oob : carray (list Z) := ca_new _PPB (replicate (Z.to_nat OOB_LEN) 0).
Definition zero_block : __block := Block 0 0 0 (ca_new 0 0) 0 0 0 None zero_oob.

(** ** Address arithmetic *)

Definition GETBLOCKIDX (v : Z) : Z := u32 (u32 (Z.shiftr v 14 * PUNIT) + v mod PUNIT).
Definition GETPAGEIDX (v : Z) : Z := Z.land (Z.shiftr v 6) 255.
Definition GETBLOCKPPA (b : __block) : Z := u32 (block_num b + punit_num b).
Definition PPAMAKER (b : __block) (idx : Z) : Z :=
  u32 (u32 (punit_num b + u32 (Z.shiftl idx 6)) + block_num b).

(** ** The callbacks given to the heap *)

Definition blocks := carray __block.
Definition base_mh_swap_hptr (aa bb : Z) (s : blocks) : blocks :=
  let temp := hptr (ca_at s aa) in
  let s := ca_upd s aa (set_hptr (hptr (ca_at s bb)) (ca_at s aa)) in
  ca_upd s bb (set_hptr temp (ca_at s bb)).
Definition base_mh_assign_hptr (aa : Z) (hn : nat) (s : blocks) : blocks :=
  ca_upd s aa (set_hptr (Some hn) (ca_at s aa)).
Definition base_get_cnt (s : blocks) (aa : Z) : Z := invalid_number (ca_at s aa).

(** ** Blocks in order *)

Section addresses.
Context `{Sg : Settings, !SettingsOk Sg}.

Definition NBLOCKS : Z := _NOS * PUNIT.

(** What holds of block [k] at all times: its place in the device, its counters
    within their width, its bitmap of 256 bits and its 256 spare areas. *)
Definition block_wf (k : Z) (b : __block) : Prop :=
  block_num b = k / PUNIT * _PPS ∧ punit_num b = k mod PUNIT ∧ 0 <= now b < 65536 ∧
  0 <= invalid_number b < 65536 ∧
  ca_len (bitset b) = _PPB / 8 ∧ (∀ i, 0 <= ca_at (bitset b) i < 256) ∧
  ca_len (oob_list b) = _PPB ∧ (∀ i, length (ca_at (oob_list b) i) = Z.to_nat OOB_LEN).

Definition blocks_wf (bs : blocks) : Prop :=
  ca_len bs = NBLOCKS ∧ ∀ k, 0 <= k < NBLOCKS → block_wf k (ca_at bs k).

Lemma NBLOCKS_eq : NBLOCKS = 512 * GIGAUNIT.
Proof. unfold NBLOCKS. rewrite NOS_eq. change PUNIT with 64. lia. Qed.

(** The arithmetic of page addresses: block [k], page [pg]. *)
Definition ppa_of (k pg : Z) : Z := k / PUNIT * _PPS + pg * PUNIT + k mod PUNIT.

Lemma ppa_of_range k pg : 0 <= k < NBLOCKS → 0 <= pg < 256 → 0 <= ppa_of k pg < _NOP.
Proof.
  unfold ppa_of. rewrite NBLOCKS_eq, NOP_eq. change PUNIT with 64. change _PPS with 16384.
  intros. Z.to_euclidean_division_equations. lia.
Qed.

Lemma GETBLOCKIDX_ppa_of k pg : 0 <= k < NBLOCKS → 0 <= pg < 256 → GETBLOCKIDX (ppa_of k pg) = k.
Proof.
  intros Hk Hp. pose proof (ppa_of_range k pg Hk Hp). unfold GETBLOCKIDX.
  rewrite shiftr_div by lia. change (2 ^ 14) with 16384.
  rewrite NBLOCKS_eq in Hk. rewrite NOP_eq in H. pose proof GIGAUNIT_range.
  unfold ppa_of in *. change PUNIT with 64 in *. change _PPS with 16384 in *.
  rewrite (u32_id (_ / _ * _)), u32_id; Z.to_euclidean_division_equations; lia.
Qed.

Lemma GETPAGEIDX_ppa_of k pg : 0 <= k < NBLOCKS → 0 <= pg < 256 → GETPAGEIDX (ppa_of k pg) = pg.
Proof.
  intros Hk Hp. unfold GETPAGEIDX. change 255 with (Z.ones 8).
  rewrite land_mask, shiftr_div by lia. change (2 ^ 8) with 256. change (2 ^ 6) with 64.
  unfold ppa_of. change PUNIT with 64. change _PPS with 16384.
  Z.to_euclidean_division_equations. lia.
Qed.

(** Every address is a page of one block. *)
Lemma ppa_of_inv ppa :
  0 <= ppa < _NOP →
  0 <= GETBLOCKIDX ppa < NBLOCKS ∧ 0 <= GETPAGEIDX ppa < 256 ∧
  ppa_of (GETBLOCKIDX ppa) (GETPAGEIDX ppa) = ppa.
Proof.
  intros H. assert (∃ k pg, 0 <= k < NBLOCKS ∧ 0 <= pg < 256 ∧ ppa = ppa_of k pg) as (k & pg & Hk & Hp & ->).
  { exists (ppa / 16384 * 64 + ppa mod 64), (ppa / 64 mod 256). unfold ppa_of.
    rewrite NBLOCKS_eq. rewrite NOP_eq in H. change PUNIT with 64. change _PPS with 16384.
    Z.to_euclidean_division_equations. lia. }
  rewrite GETBLOCKIDX_ppa_of, GETPAGEIDX_ppa_of by done. done.
Qed.

Lemma PPAMAKER_eq k pg b :
  0 <= k < NBLOCKS → block_wf k b → 0 <= pg < 256 → PPAMAKER b pg = ppa_of k pg.
Proof.
  intros Hk (Hbn & Hpn & _) Hp. pose proof (ppa_of_range k pg Hk Hp) as Hr. unfold PPAMAKER.
  rewrite Hbn, Hpn, shiftl_mul by lia. change (2 ^ 6) with 64. rewrite NOP_eq in Hr.
  pose proof GIGAUNIT_range. unfold ppa_of in *. change PUNIT with 64 in *. change _PPS with 16384 in *.
  pose proof (Z.mod_pos_bound k 64). pose proof (Z.div_pos k 64).
  rewrite (u32_id (pg * 64)), (u32_id (_ + pg * 64)), u32_id by lia. lia.
Qed.

Lemma GETBLOCKPPA_eq k b : 0 <= k < NBLOCKS → block_wf k b → GETBLOCKPPA b = ppa_of k 0.
Proof.
  intros Hk Hb. rewrite <-(PPAMAKER_eq k 0 b Hk Hb) by lia.
  destruct Hb as (Hbn & Hpn & _). unfold GETBLOCKPPA, PPAMAKER. rewrite Hbn, Hpn.
  change (u32 (Z.shiftl 0 6)) with 0. change PUNIT with 64. pose proof (Z.mod_pos_bound k 64).
  rewrite Z.add_0_r, (u32_id (k mod 64)) by lia. f_equal. lia.
Qed.

End addresses.

Module BlockManager.
Section bm.
Context `{Sg : Settings} {Q Mp : Type} `{!FIFO Z Q} `{!IntMap loc Mp}.

Record channel := Channel { free_block : Q; max_heap : MaxHeap.mh (D:=Z) }.

(** [bbm_pri], with the segments that are allocated. *)
Record bbm_pri := Bm {
  base_block : blocks; base_channel : list channel; seg_map : Mp; seg_map_idx : Z;
  segs : gmap loc __segment }.

Definition with_blocks (b : blocks) (p : bbm_pri) : bbm_pri :=
  Bm b (base_channel p) (seg_map p) (seg_map_idx p) (segs p).
Definition with_channels (c : list channel) (p : bbm_pri) : bbm_pri :=
  Bm (base_block p) c (seg_map p) (seg_map_idx p) (segs p).
Definition with_segs (s : gmap loc __segment) (p : bbm_pri) : bbm_pri :=
  Bm (base_block p) (base_channel p) (seg_map p) (seg_map_idx p) s.

(** Update a block through its pointer. *)
Definition upd_block (p : bbm_pri) (i : Z) (f : __block → __block) : res bbm_pri :=
  b ← ca_get (base_block p) i;
  bs ← ca_set (base_block p) i (f b);
  Ok (with_blocks bs p).

(** Update a segment through its pointer. *)
Definition upd_seg (p : bbm_pri) (s : loc) (f : __segment → __segment) : res bbm_pri :=
  g ← deref (segs p !! s); Ok (with_segs (<[s := f g]> (segs p)) p).

(** ** Creation *)

(** The blocks of one segment: [n] of them from [block_idx] on, punit [j]. *)
Fixpoint create_punits (n : nat) (bs : blocks) (block_idx seg j : Z) : res blocks :=
  match n with
  | O => Ok bs
  | S n' =>
    b ← ca_get bs block_idx;
    bs ← ca_set bs block_idx
           (Block (u32 j) (u32 seg) (now b) zero_bitset (invalid_number b) (age b)
              (seg_idx b) (hptr b) (oob_list b));
    create_punits n' bs (block_idx + 1) seg (j + 1)
  end.

Fixpoint create_segs (n : nat) (c : BadBlock.bb_checker) (bs : blocks) (block_idx : Z)
  : res (blocks * BadBlock.bb_checker) :=
  match n with
  | O => Ok (bs, c)
  | S n' =>
    '(seg, c) ← BadBlock.bb_checker_get_segid c;
    bs ← create_punits (Z.to_nat PUNIT) bs block_idx (s32 seg) 0;
    create_segs n' c bs (block_idx + PUNIT)
  end.

(** The free blocks of channel [i], from segment [j] on. *)
Fixpoint fill_queue (n : nat) (q : Q) (i j : Z) : res Q :=
  match n with
  | O => Ok q
  | S n' => '(_, q) ← fifo_enqueue (j * BPS + i mod BPS) q; fill_queue n' q i (j + 1)
  end.

Fixpoint create_channels (n : nat) (i : Z) : res (list channel) :=
  match n with
  | O => Ok []
  | S n' =>
    q ← fill_queue (Z.to_nat (_NOB / BPS)) (fifo_init (_NOB / BPS)) i 0;
    cs ← create_channels n' (i + 1);
    Ok (Channel q (MaxHeap.mh_init (Z.to_nat (_NOB / BPS))) :: cs)
  end.

(** [base_create] after [bb_checker_start] has set up the checker [c]. *)
Definition base_create (c : BadBlock.bb_checker) : res (bbm_pri * BadBlock.bb_checker) :=
  '(bs, c) ← create_segs (Z.to_nat _NOS) c (ca_new (_NOS * PUNIT) zero_block) 0;
  cs ← create_channels (Z.to_nat PUNIT) 0;
  Ok (Bm bs cs im_create 0 ∅, c).

(** ** Segments *)

Definition base_get_block (p : bbm_pri) (s : loc) : res (Z * bbm_pri) :=
  g ← deref (segs p !! s);
  abort_if (s_now g + 1 >? s_max g)
  (p ← upd_seg p s (λ g, Segment (s_seg_idx g) (s_blocks g) (u16 (s_now g + 1)) (s_max g)
                            (used_page_num g) (invalid_blocks g));
   b ← deref (s_blocks g !! Z.to_nat (s_now g));
   Ok (b, p)).

(** Append block [b] to the heap of channel [i]. *)
Definition heap_append (p : bbm_pri) (i : nat) (b : Z) : res bbm_pri :=
  c ← deref (base_channel p !! i);
  '(h, bs) ← MaxHeap.mh_insert_append base_mh_assign_hptr (base_block p) (max_heap c) b;
  Ok (with_channels (<[i := Channel (free_block c) h]> (base_channel p)) (with_blocks bs p)).

(** The loop of [base_get_segment] from channel [i] on. A missing block is
    appended to the heap, where the back-pointer callback dereferences it,
    before the loop tests it. *)
Fixpoint take_blocks (n : nat) (p : bbm_pri) (isreserve : bool) (i : nat) : res (list Z * bbm_pri) :=
  match n with
  | O => Ok ([], p)
  | S n' =>
    c ← deref (base_channel p !! i);
    '(o, q) ← fifo_dequeue (free_block c);
    let p := with_channels (<[i := Channel q (max_heap c)]> (base_channel p)) p in
    match o with
    | None => if isreserve then Err Aborted else Err Undefined
    | Some b =>
      p ← (if isreserve then Ok p else heap_append p i b);
      p ← upd_block p b (set_seg_idx (u32 (seg_map_idx p)));
      '(bs, p) ← take_blocks n' p isreserve (S i);
      Ok (b :: bs, p)
    end
  end.

Definition base_get_segment (p : bbm_pri) (isreserve : bool) : res (loc * bbm_pri) :=
  let res := malloc (segs p) in
  '(bs, p) ← take_blocks (Z.to_nat BPS) p isreserve 0;
  let idx := u32 (seg_map_idx p) in
  let g := Segment idx bs 0 BPS 0 0 in
  Ok (res, Bm (base_block p) (base_channel p) (im_insert idx res (seg_map p))
             (seg_map_idx p + 1) (<[res := g]> (segs p))).

(** [for_each_block] over the blocks [bs] of channels [i], [i+1], ... After the last block
    the macro also reads [segs->blocks[BPS]], one beyond the end of the array; the value is
    not used, and this read is not modelled. *)
Fixpoint append_blocks (p : bbm_pri) (bs : list Z) (i : nat) : res bbm_pri :=
  match bs with
  | [] => Ok p
  | b :: bs => p ← heap_append p i b; append_blocks p bs (S i)
  end.

Definition base_change_reserve (p : bbm_pri) (reserve : loc) : res (loc * bbm_pri) :=
  '(res, p) ← base_get_segment p true;
  g ← deref (segs p !! reserve);
  p ← append_blocks p (s_blocks g) 0;
  Ok (res, p).

Definition base_is_gc_needed (p : bbm_pri) : res bool :=
  c ← deref (base_channel p !! 0%nat);
  Ok (fifo_size (free_block c) =? 0).

(** ** Garbage collection *)

(** The loop of [base_get_gc_target]. *)
Fixpoint take_victims (n : nat) (p : bbm_pri) (i : nat) : res (list Z * bbm_pri) :=
  match n with
  | O => Ok ([], p)
  | S n' =>
    c ← deref (base_channel p !! i);
    '(h, bs) ← MaxHeap.mh_construct base_get_cnt base_mh_swap_hptr (base_block p) (max_heap c);
    '(o, h, bs) ← MaxHeap.mh_get_max base_get_cnt base_mh_swap_hptr bs h;
    let p := with_channels (<[i := Channel (free_block c) h]> (base_channel p)) (with_blocks bs p) in
    match o with
    | None => Err Aborted
    | Some b => '(l, p) ← take_victims n' p (S i); Ok (b :: l, p)
    end
  end.

Definition base_get_gc_target (p : bbm_pri) : res (__gsegment * bbm_pri) :=
  '(bs, p) ← take_victims (Z.to_nat BPS) p 0;
  Ok (GSegment bs 0 0 0, p).

Context {L : Type} `{!Lower L}.

(** One block of [base_trim_segment]: erase it, clear its bitmap, counters and
    spare areas, give it back to the free queue of channel [i], and free its
    segment when all of the segment's blocks are gone. *)
Definition trim_block (p : bbm_pri) (l : L) (i : nat) (k : Z) : res (bbm_pri * L) :=
  b ← ca_get (base_block p) k;
  l ← low_trim_a_block (GETBLOCKPPA b) l;
  p ← upd_block p k (λ b, set_oob_list zero_oob (set_bitset zero_bitset (set_now 0 (set_invalid 0 b))));
  c ← deref (base_channel p !! i);
  '(_, q) ← fifo_enqueue k (free_block c);
  let p := with_channels (<[i := Channel q (max_heap c)]> (base_channel p)) p in
  target_seg ← deref (im_find (seg_idx b) (seg_map p));
  g ← deref (segs p !! target_seg);
  let n := u8 (invalid_blocks g + 1) in
  if n =? BPS then
    Ok (Bm (base_block p) (base_channel p) (im_delete (seg_idx b) (seg_map p)) (seg_map_idx p)
          (delete target_seg (segs p)), l)
  else
    p ← upd_seg p target_seg (λ g, Segment (s_seg_idx g) (s_blocks g) (s_now g) (s_max g)
                                      (used_page_num g) n);
    Ok (p, l).

Fixpoint trim_blocks (p : bbm_pri) (l : L) (i : nat) (bs : list Z) : res (bbm_pri * L) :=
  match bs with
  | [] => Ok (p, l)
  | k :: bs => '(p, l) ← trim_block p l i k; trim_blocks p l (S i) bs
  end.

Definition base_trim_segment (p : bbm_pri) (gs : __gsegment) (l : L) : res (bbm_pri * L) :=
  trim_blocks p l 0 (g_blocks gs).

(** ** The bitmap *)

(** The byte and the bit of page [ppa] in the bitmap of its block. *)
Definition bit_byte (ppa : Z) : Z := GETPAGEIDX ppa / 8.
Definition bit_mask (ppa : Z) : Z := Z.shiftl 1 (GETPAGEIDX ppa mod 8).

Definition base_is_valid_page (p : bbm_pri) (ppa : Z) : res bool :=
  b ← ca_get (base_block p) (GETBLOCKIDX ppa);
  x ← ca_get (bitset b) (bit_byte ppa);
  Ok (negb (Z.land x (bit_mask ppa) =? 0)).

Definition base_is_invalid_page (p : bbm_pri) (ppa : Z) : res bool :=
  r ← base_is_valid_page p ppa; Ok (negb r).

(** Replace the byte of page [ppa]. *)
Definition set_byte (p : bbm_pri) (ppa x : Z) : res bbm_pri :=
  b ← ca_get (base_block p) (GETBLOCKIDX ppa);
  bits ← ca_set (bitset b) (bit_byte ppa) (u8 x);
  upd_block p (GETBLOCKIDX ppa) (set_bitset bits).

Definition base_populate_bit (p : bbm_pri) (ppa : Z) : res (Z * bbm_pri) :=
  b ← ca_get (base_block p) (GETBLOCKIDX ppa);
  x ← ca_get (bitset b) (bit_byte ppa);
  let res := if Z.land x (bit_mask ppa) =? 0 then 1 else 0 in
  p ← set_byte p ppa (Z.lor x (bit_mask ppa));
  Ok (res, p).

Definition base_unpopulate_bit (p : bbm_pri) (ppa : Z) : res (Z * bbm_pri) :=
  b ← ca_get (base_block p) (GETBLOCKIDX ppa);
  x ← ca_get (bitset b) (bit_byte ppa);
  let res := if Z.land x (bit_mask ppa) =? 0 then 0 else 1 in
  p ← set_byte p ppa (Z.land x (Z.lnot (bit_mask ppa)));
  p ← upd_block p (GETBLOCKIDX ppa) (λ b, set_invalid (u16 (invalid_number b + 1)) b);
  Ok (res, p).

Definition base_erase_bit (p : bbm_pri) (ppa : Z) : res (Z * bbm_pri) :=
  b ← ca_get (base_block p) (GETBLOCKIDX ppa);
  x ← ca_get (bitset b) (bit_byte ppa);
  let res := if Z.land x (bit_mask ppa) =? 0 then 0 else 1 in
  p ← set_byte p ppa (Z.land x (Z.lnot (bit_mask ppa)));
  abort_if ((0 <=? ppa) && (ppa <? _PPS * MAPPART_SEGS) && (invalid_number b >? _PPB)) (Ok (res, p)).

(** ** The spare area *)

Definition base_set_oob (p : bbm_pri) (data : list Z) (len ppa : Z) : res bbm_pri :=
  b ← ca_get (base_block p) (GETBLOCKIDX ppa);
  d ← ca_get (oob_list b) (GETPAGEIDX ppa);
  d ← memcpy d data (Z.to_nat len);
  o ← ca_set (oob_list b) (GETPAGEIDX ppa) d;
  upd_block p (GETBLOCKIDX ppa) (set_oob_list o).

Definition base_get_oob (p : bbm_pri) (ppa : Z) : res (list Z) :=
  b ← ca_get (base_block p) (GETBLOCKIDX ppa);
  ca_get (oob_list b) (GETPAGEIDX ppa).

Definition base_release_segment (p : bbm_pri) (s : loc) : bbm_pri :=
  with_segs (delete s (segs p)) p.

(** ** Handing out pages *)

(** The block in position [i] of a segment. *)
Definition seg_block (g : __segment) (i : Z) : res Z :=
  if i <? 0 then Err Undefined else deref (s_blocks g !! Z.to_nat i).

(** [res=b->block_num; res+=page<<6; res+=b->punit_num;] on an [int]. *)
Definition page_number (b : __block) (page : Z) : Z :=
  s32 (s32 (s32 (block_num b) + u32 (Z.shiftl page 6)) + punit_num b).

Definition base_get_page_num (p : bbm_pri) (s : loc) : res (Z * bbm_pri) :=
  g ← deref (segs p !! s);
  full ← (if s_now g =? 0 then
            k ← seg_block g (BPS - 1); b ← ca_get (base_block p) k; Ok (now b =? _PPB)
          else Ok false);
  if full : bool then Ok (-1, p)
  else
    let blocknumber := s_now g in
    let n := u16 (s_now g + 1) in
    let n := if n =? BPS then 0 else n in
    k ← seg_block g blocknumber;
    b ← ca_get (base_block p) k;
    let page := now b in
    p ← upd_block p k (λ b, set_now (u16 (now b + 1)) b);
    p ← upd_seg p s (λ g, Segment (s_seg_idx g) (s_blocks g) n (s_max g) (u32 (used_page_num g + 1))
                             (invalid_blocks g));
    abort_if (page >? _PPB) (Ok (page_number b page, p)).

Definition base_pick_page_num (p : bbm_pri) (s : loc) : res (Z * bbm_pri) :=
  g ← deref (segs p !! s);
  full ← (if s_now g =? 0 then
            k ← seg_block g (BPS - 1); b ← ca_get (base_block p) k; Ok (now b =? _PPB)
          else Ok false);
  if full : bool then Ok (-1, p)
  else
    let blocknumber := s_now g in
    p ← (if s_now g =? BPS then
           upd_seg p s (λ g, Segment (s_seg_idx g) (s_blocks g) 0 (s_max g) (used_page_num g)
                                (invalid_blocks g))
         else Ok p);
    k ← seg_block g blocknumber;
    b ← ca_get (base_block p) k;
    let page := now b in
    abort_if (page >? _PPB) (Ok (page_number b page, p)).

(** [enum layout_type] *)
Definition MASTER_SEGMENT : Z := 0.
Definition MASTER_BLOCK : Z := 1.
Definition MASTER_PAGE : Z := 2.

Definition base_check_full (p : bbm_pri) (active : loc) (type : Z) : res bool :=
  if (type =? MASTER_PAGE) || (type =? MASTER_BLOCK) then
    g ← deref (segs p !! active);
    k ← seg_block g (BPS - 1);
    b ← ca_get (base_block p) k;
    Ok (now b =? _PPB)
  else Ok false.

Definition base_pick_block (page_num : Z) : Z := GETBLOCKIDX page_num.

End bm.

Arguments channel Q : clear implicits.
Arguments bbm_pri Q Mp : clear implicits.

Section facts.
Context `{Sg : Settings, !SettingsOk Sg} {Q Mp : Type} `{!FIFO Z Q} `{!IntMap loc Mp}.
Implicit Types p : bbm_pri Q Mp.

(** ** The bitmap is a set of page addresses *)

(** The bit of page [q]. *)
Definition page_bit p (q : Z) : bool :=
  Z.testbit (ca_at (bitset (ca_at (base_block p) (GETBLOCKIDX q))) (bit_byte q)) (GETPAGEIDX q mod 8).

Lemma mask_test x n : 0 <= n → (Z.land x (Z.shiftl 1 n) =? 0) = negb (Z.testbit x n).
Proof.
  intros Hn. rewrite Z.shiftl_1_l. destruct (Z.testbit x n) eqn:E; simpl.
  - apply Z.eqb_neq. intros H. assert (Z.testbit (Z.land x (2 ^ n)) n = false) as Hf by (rewrite H; apply Z.bits_0).
    rewrite Z.land_spec, E, Z.pow2_bits_true in Hf by done. done.
  - apply Z.eqb_eq. apply Z.bits_inj'. intros k Hk. rewrite Z.land_spec, Z.bits_0.
    destruct (decide (k = n)) as [->|Hne]; [by rewrite E|].
    rewrite Z.pow2_bits_false by done. apply andb_false_r.
Qed.

Lemma byte_range_iff x : 0 <= x → (x < 256 ↔ ∀ k, 8 <= k → Z.testbit x k = false).
Proof.
  intros Hx. split.
  - intros Hlt k Hk. apply Z.bits_above_log2; [done|].
    destruct (decide (x = 0)) as [->|]; [simpl; lia|].
    apply Z.log2_lt_pow2; [lia|]. eapply Z.lt_le_trans; [exact Hlt|].
    change 256 with (2 ^ 8). apply Z.pow_le_mono_r; lia.
  - intros Hb. destruct (decide (x = 0)) as [->|]; [lia|].
    change 256 with (2 ^ 8). apply Z.log2_lt_pow2; [lia|].
    destruct (Z.lt_ge_cases (Z.log2 x) 8) as [|Hge]; [done|].
    specialize (Hb _ Hge). rewrite Z.bit_log2 in Hb by lia. done.
Qed.

Lemma byte_lor x n : 0 <= x < 256 → 0 <= n < 8 → 0 <= Z.lor x (Z.shiftl 1 n) < 256.
Proof.
  intros Hx Hn. assert (0 <= Z.shiftl 1 n) by (apply Z.shiftl_nonneg; lia).
  split; [apply Z.lor_nonneg; lia|]. apply byte_range_iff; [apply Z.lor_nonneg; lia|].
  intros k Hk. rewrite Z.lor_spec, Z.shiftl_1_l, Z.pow2_bits_false by lia.
  rewrite (proj1 (byte_range_iff x (proj1 Hx)) (proj2 Hx)) by done. done.
Qed.

Lemma byte_clear x n : 0 <= x < 256 → 0 <= Z.land x (Z.lnot (Z.shiftl 1 n)) < 256.
Proof.
  intros Hx. split; [apply Z.land_nonneg; lia|]. apply byte_range_iff; [apply Z.land_nonneg; lia|].
  intros k Hk. rewrite Z.land_spec.
  rewrite (proj1 (byte_range_iff x (proj1 Hx)) (proj2 Hx)) by done. done.
Qed.

Lemma bit_place q :
  0 <= q < _NOP → 0 <= GETBLOCKIDX q < NBLOCKS ∧ 0 <= bit_byte q < _PPB / 8 ∧ 0 <= GETPAGEIDX q mod 8 < 8.
Proof.
  intros Hq. destruct (ppa_of_inv q Hq) as (Hb & Hp & _). split; [done|].
  unfold bit_byte. change (_PPB / 8) with 32. split; Z.to_euclidean_division_equations; lia.
Qed.

(** Two addresses with the same block, byte and bit are the same. *)
Lemma bit_place_inj q r :
  0 <= q < _NOP → 0 <= r < _NOP → GETBLOCKIDX q = GETBLOCKIDX r → bit_byte q = bit_byte r →
  GETPAGEIDX q mod 8 = GETPAGEIDX r mod 8 → q = r.
Proof.
  intros Hq Hr Hb Hy Hm. destruct (ppa_of_inv q Hq) as (_ & _ & <-).
  destruct (ppa_of_inv r Hr) as (_ & _ & <-). rewrite Hb. f_equal.
  unfold bit_byte in Hy. rewrite (Z.div_mod (GETPAGEIDX q) 8), (Z.div_mod (GETPAGEIDX r) 8) by done.
  congruence.
Qed.

Lemma upd_block_Ok p k f :
  blocks_wf (base_block p) → 0 <= k < NBLOCKS →
  upd_block p k f = Ok (with_blocks (ca_upd (base_block p) k (f (ca_at (base_block p) k))) p).
Proof.
  intros [Hl _] Hk. unfold upd_block. rewrite ca_get_in by lia; simpl. by rewrite ca_set_in by lia.
Qed.

Lemma blocks_wf_upd bs k b : blocks_wf bs → block_wf k b → blocks_wf (ca_upd bs k b).
Proof.
  intros [Hl Hw] Hb. split; [done|]. intros j Hj. rewrite ca_at_upd. case_decide; subst; auto.
Qed.

Lemma is_valid_Ok p q :
  blocks_wf (base_block p) → 0 <= q < _NOP → base_is_valid_page p q = Ok (page_bit p q).
Proof.
  intros [Hl Hw] Hq. destruct (bit_place q Hq) as (Hb & Hy & Hm). unfold base_is_valid_page.
  rewrite ca_get_in by lia; rbind. destruct (Hw _ Hb) as (_ & _ & _ & _ & Hbl & _).
  rewrite ca_get_in by lia; rbind. unfold bit_mask. rewrite mask_test by lia.
  by rewrite negb_involutive.
Qed.

(** Writing a byte changes the bits of that byte only. *)
Lemma set_byte_spec p q x :
  blocks_wf (base_block p) → 0 <= q < _NOP → 0 <= x < 256 →
  ∃ p', set_byte p q x = Ok p' ∧ blocks_wf (base_block p') ∧
    p' = with_blocks (ca_upd (base_block p) (GETBLOCKIDX q)
           (set_bitset (ca_upd (bitset (ca_at (base_block p) (GETBLOCKIDX q))) (bit_byte q) x)
              (ca_at (base_block p) (GETBLOCKIDX q)))) p.
Proof.
  intros Hwf Hq Hx. pose proof Hwf as [Hl Hw]. destruct (bit_place q Hq) as (Hb & Hy & Hm).
  unfold set_byte. rewrite ca_get_in by lia; rbind.
  pose proof (Hw _ Hb) as (H1 & H2 & H3 & H4 & Hbl & Hby & H5 & H6).
  rewrite ca_set_in by lia; rbind. rewrite upd_block_Ok by done. rewrite u8_id by done.
  eexists. split; [done|]. split; [|done]. apply blocks_wf_upd; [done|].
  unfold block_wf; simpl. split_and!; try done; try lia.
  - intros i. rewrite ca_at_upd. case_decide; [lia|apply Hby].
Qed.

(** The bits after the byte of [q] was replaced by [x], which differs from it in
    at most the bit of [q]. *)
Lemma page_bit_set_byte p q x r :
  0 <= q < _NOP → 0 <= r < _NOP →
  (∀ n, 0 <= n → n ≠ GETPAGEIDX q mod 8 → Z.testbit x n =
     Z.testbit (ca_at (bitset (ca_at (base_block p) (GETBLOCKIDX q))) (bit_byte q)) n) →
  page_bit (with_blocks (ca_upd (base_block p) (GETBLOCKIDX q)
           (set_bitset (ca_upd (bitset (ca_at (base_block p) (GETBLOCKIDX q))) (bit_byte q) x)
              (ca_at (base_block p) (GETBLOCKIDX q)))) p) r =
  if decide (r = q) then Z.testbit x (GETPAGEIDX q mod 8) else page_bit p r.
Proof.
  intros Hq Hr Hx. unfold page_bit; simpl. rewrite ca_at_upd.
  destruct (decide (GETBLOCKIDX q = GETBLOCKIDX r)) as [Eb|Nb].
  - cbn [set_bitset bitset]. rewrite ca_at_upd. destruct (decide (bit_byte q = bit_byte r)) as [Ey|Ny].
    + case_decide as E; [by subst|]. rewrite Hx, Eb, Ey; [done|apply bit_place; done|].
      intros Hm. apply E. by apply bit_place_inj.
    + case_decide; [by subst|]. by rewrite Eb.
  - case_decide; [by subst|done].
Qed.

Definition unpop_block (b : __block) : __block := set_invalid (u16 (invalid_number b + 1)) b.

Lemma populate_Ok p q :
  blocks_wf (base_block p) → 0 <= q < _NOP →
  ∃ p', base_populate_bit p q = Ok ((if page_bit p q then 0 else 1), p') ∧
    blocks_wf (base_block p') ∧
    (∀ r, 0 <= r < _NOP → page_bit p' r = if decide (r = q) then true else page_bit p r).
Proof.
  intros Hwf Hq. pose proof Hwf as [Hl Hw]. destruct (bit_place q Hq) as (Hb & Hy & Hm).
  unfold base_populate_bit. rewrite ca_get_in by lia; rbind.
  pose proof (Hw _ Hb) as (_ & _ & _ & _ & Hbl & Hby & _).
  rewrite ca_get_in by lia; rbind. unfold bit_mask. rewrite mask_test by lia.
  destruct (set_byte_spec p q (Z.lor (ca_at (bitset (ca_at (base_block p) (GETBLOCKIDX q))) (bit_byte q))
    (Z.shiftl 1 (GETPAGEIDX q mod 8)))) as (p' & -> & Hwf' & ->); [done..|by apply byte_lor|]. rbind.
  eexists. split; [unfold page_bit; by destruct (Z.testbit _ _)|]. split; [done|].
  intros r Hr. rewrite page_bit_set_byte; try done.
  - case_decide; [|done]. rewrite Z.lor_spec, Z.shiftl_1_l, Z.pow2_bits_true by lia. apply orb_true_r.
  - intros n Hn0 Hn. rewrite Z.lor_spec, Z.shiftl_1_l, Z.pow2_bits_false by done. apply orb_false_r.
Qed.

(** The bits after clearing the bit of [q]. *)
Lemma clear_bit_Ok p q :
  blocks_wf (base_block p) → 0 <= q < _NOP →
  ∃ p', set_byte p q (Z.land (ca_at (bitset (ca_at (base_block p) (GETBLOCKIDX q))) (bit_byte q))
                        (Z.lnot (bit_mask q))) = Ok p' ∧
    blocks_wf (base_block p') ∧
    (∀ r, 0 <= r < _NOP → page_bit p' r = if decide (r = q) then false else page_bit p r) ∧
    (∀ k, invalid_number (ca_at (base_block p') k) = invalid_number (ca_at (base_block p) k)).
Proof.
  intros Hwf Hq. pose proof Hwf as [Hl Hw]. destruct (bit_place q Hq) as (Hb & Hy & Hm).
  pose proof (Hw _ Hb) as (_ & _ & _ & _ & Hbl & Hby & _). unfold bit_mask.
  destruct (set_byte_spec p q (Z.land (ca_at (bitset (ca_at (base_block p) (GETBLOCKIDX q))) (bit_byte q))
    (Z.lnot (Z.shiftl 1 (GETPAGEIDX q mod 8))))) as (p' & -> & Hwf' & ->); [done..|by apply byte_clear|].
  eexists. split; [done|]. split; [done|]. split.
  - intros r Hr. rewrite page_bit_set_byte; try done.
    + case_decide; [|done]. rewrite Z.land_spec, Z.lnot_spec, Z.shiftl_1_l, Z.pow2_bits_true by lia.
      apply andb_false_r.
    + intros n Hn0 Hn. rewrite Z.land_spec, Z.lnot_spec, Z.shiftl_1_l, Z.pow2_bits_false by done.
      apply andb_true_r.
  - intros k. simpl. rewrite ca_at_upd. case_decide; by subst.
Qed.

Lemma unpopulate_Ok p q :
  blocks_wf (base_block p) → 0 <= q < _NOP →
  ∃ p', base_unpopulate_bit p q = Ok ((if page_bit p q then 1 else 0), p') ∧
    blocks_wf (base_block p') ∧
    (∀ r, 0 <= r < _NOP → page_bit p' r = if decide (r = q) then false else page_bit p r) ∧
    (∀ k, invalid_number (ca_at (base_block p') k) =
       if decide (k = GETBLOCKIDX q) then u16 (invalid_number (ca_at (base_block p) k) + 1)
       else invalid_number (ca_at (base_block p) k)).
Proof.
  intros Hwf Hq. pose proof Hwf as [Hl Hw]. destruct (bit_place q Hq) as (Hb & Hy & Hm).
  unfold base_unpopulate_bit. rewrite ca_get_in by lia; rbind.
  pose proof (Hw _ Hb) as (_ & _ & _ & _ & Hbl & Hby & _).
  rewrite ca_get_in by lia; rbind. unfold bit_mask at 1. rewrite mask_test by lia.
  destruct (clear_bit_Ok p q Hwf Hq) as (p1 & -> & Hwf1 & Hbits & Hinv); rbind.
  rewrite upd_block_Ok by done; rbind. eexists.
  split; [unfold page_bit; by destruct (Z.testbit _ _)|]. split; [|split].
  - apply blocks_wf_upd; [done|]. destruct Hwf1 as [_ Hw1].
    destruct (Hw1 _ Hb) as (? & ? & ? & ? & ? & ? & ? & ?). unfold block_wf; simpl. split_and!; try done; try lia.
    + apply Z.mod_pos_bound. lia.
    + apply Z.mod_pos_bound. lia.
  - intros r Hr. rewrite <-Hbits by done. unfold page_bit; simpl. rewrite ca_at_upd. case_decide as E; [|done].
    rewrite E. done.
  - intros k. simpl. rewrite ca_at_upd. repeat case_decide; subst; try done; simpl; by rewrite Hinv.
Qed.

Lemma erase_Ok p q :
  blocks_wf (base_block p) → 0 <= q < _NOP →
  invalid_number (ca_at (base_block p) (GETBLOCKIDX q)) <= _PPB →
  ∃ p', base_erase_bit p q = Ok ((if page_bit p q then 1 else 0), p') ∧
    blocks_wf (base_block p') ∧
    (∀ r, 0 <= r < _NOP → page_bit p' r = if decide (r = q) then false else page_bit p r) ∧
    (∀ k, invalid_number (ca_at (base_block p') k) = invalid_number (ca_at (base_block p) k)).
Proof.
  intros Hwf Hq Hinv. pose proof Hwf as [Hl Hw]. destruct (bit_place q Hq) as (Hb & Hy & Hm).
  unfold base_erase_bit. rewrite ca_get_in by lia; rbind.
  pose proof (Hw _ Hb) as (_ & _ & _ & _ & Hbl & Hby & _).
  rewrite ca_get_in by lia; rbind. unfold bit_mask at 1. rewrite mask_test by lia.
  destruct (clear_bit_Ok p q Hwf Hq) as (p1 & -> & Hwf1 & Hbits & Hcnt); rbind.
  rewrite Z.gtb_ltb, (proj2 (Z.ltb_ge _PPB _)), andb_false_r by done. exists p1.
  split; [unfold page_bit; by destruct (Z.testbit _ _)|]. done.
Qed.

(** ** The spare area *)

(** The spare area of page [q]. *)
Definition page_oob p (q : Z) : list Z :=
  ca_at (oob_list (ca_at (base_block p) (GETBLOCKIDX q))) (GETPAGEIDX q).

Lemma get_oob_Ok p q :
  blocks_wf (base_block p) → 0 <= q < _NOP → base_get_oob p q = Ok (page_oob p q).
Proof.
  intros [Hl Hw] Hq. destruct (ppa_of_inv q Hq) as (Hb & Hp & _). unfold base_get_oob.
  rewrite ca_get_in by lia; rbind. destruct (Hw _ Hb) as (_ & _ & _ & _ & _ & _ & Hol & _).
  rewrite ca_get_in by (rewrite Hol; exact Hp). done.
Qed.

Lemma set_oob_Ok p data q :
  blocks_wf (base_block p) → 0 <= q < _NOP → (length data <= Z.to_nat OOB_LEN)%nat →
  ∃ p', base_set_oob p data (Z.of_nat (length data)) q = Ok p' ∧ blocks_wf (base_block p') ∧
    (∀ r, 0 <= r < _NOP → page_bit p' r = page_bit p r) ∧
    (∀ r, 0 <= r < _NOP → page_oob p' r =
       if decide (r = q) then data ++ drop (length data) (page_oob p q) else page_oob p r) ∧
    (∀ k, invalid_number (ca_at (base_block p') k) = invalid_number (ca_at (base_block p) k)).
Proof.
  intros Hwf Hq Hlen. pose proof Hwf as [Hl Hw]. destruct (ppa_of_inv q Hq) as (Hb & Hp & _).
  unfold base_set_oob. rewrite ca_get_in by lia; rbind.
  pose proof (Hw _ Hb) as (H1 & H2 & H3 & H4 & H5 & H6 & Hol & Hoo).
  rewrite ca_get_in by (rewrite Hol; exact Hp); rbind. rewrite Nat2Z.id, memcpy_all by (rewrite Hoo; done).
  rbind. rewrite ca_set_in by (rewrite Hol; exact Hp); rbind. rewrite upd_block_Ok by done.
  eexists. split; [done|]. split; [|split; [|split]].
  - apply blocks_wf_upd; [done|]. unfold block_wf; cbn [set_oob_list oob_list now invalid_number bitset block_num punit_num].
    split; [done|]. split; [done|]. split; [done|]. split; [done|]. split; [done|]. split; [done|].
    split; [done|]. intros i. rewrite ca_at_upd. case_decide; [|apply Hoo].
    rewrite length_app, length_drop, Hoo. lia.
  - intros r _. unfold page_bit; cbn [with_blocks base_block]. rewrite ca_at_upd. case_decide as E; [|done].
    by rewrite E.
  - intros r Hr. unfold page_oob; cbn [with_blocks base_block]. rewrite ca_at_upd.
    destruct (decide (GETBLOCKIDX q = GETBLOCKIDX r)) as [Eb|Nb].
    + cbn [set_oob_list oob_list]. rewrite ca_at_upd. rewrite <-Eb. case_decide as Ep.
      * rewrite decide_True; [done|]. destruct (ppa_of_inv r Hr) as (_ & _ & <-).
        destruct (ppa_of_inv q Hq) as (_ & _ & <-). congruence.
      * rewrite decide_False by congruence. done.
    + rewrite decide_False by congruence. done.
  - intros k. cbn [with_blocks base_block]. rewrite ca_at_upd. by case_decide; subst.
Qed.

(** ** Handing out the pages of a segment *)

(** Segment [s] consists of the blocks [ks], and [n] of its pages have been
    handed out, round robin over the blocks. *)
Definition seg_at p (s : loc) (ks : list Z) (n : Z) : Prop :=
  length ks = 64%nat ∧ NoDup ks ∧ Forall (λ k, 0 <= k < NBLOCKS) ks ∧
  (∃ g, segs p !! s = Some g ∧ s_blocks g = ks ∧ s_now g = n mod 64) ∧
  ∀ i k, ks !! i = Some k →
    now (ca_at (base_block p) k) = n / 64 + (if decide (Z.of_nat i < n mod 64) then 1 else 0).

(** The [n]-th page of a segment. *)
Definition nth_page (ks : list Z) (n : Z) : Z :=
  ppa_of (default 0 (ks !! Z.to_nat (n mod 64))) (n / 64).

Lemma seg_block_Ok g i k :
  0 <= i → s_blocks g !! Z.to_nat i = Some k → seg_block g i = Ok k.
Proof. intros Hi Hk. unfold seg_block. rewrite (proj2 (Z.ltb_ge _ _)) by done. by rewrite Hk. Qed.

Lemma page_number_eq k pg b :
  0 <= k < NBLOCKS → block_wf k b → 0 <= pg < 256 → page_number b pg = ppa_of k pg.
Proof.
  intros Hk (Hbn & Hpn & _) Hp. pose proof (ppa_of_range k pg Hk Hp) as Hr. unfold page_number.
  rewrite Hbn, Hpn, shiftl_mul by lia. change (2 ^ 6) with 64. rewrite NOP_eq in Hr.
  pose proof GIGAUNIT_range. unfold ppa_of in *. change PUNIT with 64 in *. change _PPS with 16384 in *.
  pose proof (Z.mod_pos_bound k 64). pose proof (Z.div_pos k 64).
  rewrite (u32_id (pg * 64)), (s32_id (k / 64 * 16384)),
    (s32_id (k / 64 * 16384 + pg * 64)), s32_id by lia. lia.
Qed.

Lemma get_page_num_full p s ks :
  blocks_wf (base_block p) → seg_at p s ks 16384 → base_get_page_num p s = Ok (-1, p).
Proof.
  intros [Hl Hw] (Hlen & Hnd & Hr & (g & Hg & Hgb & Hgn) & Hnow).
  unfold base_get_page_num. rewrite Hg. cbn [deref]. rbind. rewrite Hgn. change (16384 mod 64) with 0.
  destruct (lookup_lt_is_Some_2 ks 63) as [k Hk]; [lia|].
  assert (0 <= k < NBLOCKS) by (rewrite Forall_lookup in Hr; by eapply Hr).
  rewrite (seg_block_Ok g (BPS - 1) k); [|done|by rewrite Hgb]. rbind.
  rewrite Z.eqb_refl, ca_get_in by lia; rbind. rewrite (Hnow 63%nat k Hk). done.
Qed.

Lemma get_page_num_Ok p s ks n :
  blocks_wf (base_block p) → seg_at p s ks n → 0 <= n < 16384 →
  ∃ p', base_get_page_num p s = Ok (nth_page ks n, p') ∧ blocks_wf (base_block p') ∧
    seg_at p' s ks (n + 1) ∧
    (∃ k g', ks !! Z.to_nat (n mod 64) = Some k ∧
       p' = with_segs (<[s := g']> (segs p))
              (with_blocks (ca_upd (base_block p) k (set_now (n / 64 + 1) (ca_at (base_block p) k))) p)).
Proof.
  intros Hwf Hseg Hn. pose proof Hwf as [Hl Hw].
  pose proof Hseg as (Hlen & Hnd & Hr & (g & Hg & Hgb & Hgn) & Hnow).
  pose proof (Z.mod_pos_bound n 64 ltac:(lia)) as Hmod.
  destruct (lookup_lt_is_Some_2 ks (Z.to_nat (n mod 64))) as [k Hk]; [lia|].
  destruct (lookup_lt_is_Some_2 ks 63) as [k63 Hk63]; [lia|].
  rewrite Forall_lookup in Hr. pose proof (Hr _ _ Hk) as Hkr. pose proof (Hr _ _ Hk63) as Hkr63.
  pose proof (Hnow _ _ Hk) as Hnk. rewrite Z2Nat.id, decide_False, Z.add_0_r in Hnk by lia.
  unfold base_get_page_num. rewrite Hg. cbn [deref]. rbind. rewrite Hgn.
  assert (Hpg : 0 <= n / 64 < 256) by (Z.to_euclidean_division_equations; lia).
  assert (Hfull : (if n mod 64 =? 0 then
     k ← seg_block g (BPS - 1); b ← ca_get (base_block p) k; Ok (now b =? _PPB) else Ok false) = Ok false).
  { destruct (Z.eqb_spec (n mod 64) 0) as [E|]; [|done].
    rewrite (seg_block_Ok g (BPS - 1) k63); [|done|by rewrite Hgb]. rbind.
    rewrite ca_get_in by lia; rbind. rewrite (Hnow _ _ Hk63), decide_False by lia.
    f_equal. apply Z.eqb_neq. change _PPB with 256. lia. }
  rewrite Hfull; rbind. rewrite (seg_block_Ok g (n mod 64) k); [|lia|by rewrite Hgb]. rbind.
  rewrite ca_get_in by lia; rbind. rewrite upd_block_Ok by done. rbind. rewrite Hnk, (u16_id (_ + 1)) by lia.
  unfold upd_seg. cbn [with_blocks segs]. rewrite Hg. cbn [deref]. rbind.
  rewrite Z.gtb_ltb, (proj2 (Z.ltb_ge _ _)) by (change _PPB with 256; lia). cbn [abort_if].
  rewrite (page_number_eq k) by auto. unfold nth_page at 1. rewrite Hk. cbn [default id].
  eexists. split; [done|].
  set (n' := if _ =? BPS then _ else _).
  assert (Hn' : n' = (n + 1) mod 64).
  { unfold n'. rewrite u16_id by lia. change BPS with 64.
    destruct (Z.eqb_spec (n mod 64 + 1) 64); Z.to_euclidean_division_equations; lia. }
  split; [|split].
  - apply blocks_wf_upd; [done|]. destruct (Hw _ Hkr) as (? & ? & ? & ? & ? & ? & ? & ?).
    unfold block_wf, set_now. cbn. split_and!; try done; try lia.
  - split; [done|]. split; [done|]. split; [by apply Forall_lookup|]. split.
    + eexists. cbn [with_segs segs]. rewrite lookup_insert_eq. done.
    + intros i j Hij. cbn [with_segs with_blocks base_block]. rewrite ca_at_upd.
      destruct (decide (k = j)) as [->|Hne].
      * assert (i = Z.to_nat (n mod 64)) as -> by (by eapply NoDup_lookup).
        cbn [set_now now]. case_decide; Z.to_euclidean_division_equations; lia.
      * rewrite (Hnow _ _ Hij). assert (i ≠ Z.to_nat (n mod 64)) by congruence.
        assert (i < 64)%nat by (rewrite <-Hlen; by eapply lookup_lt_Some).
        repeat case_decide; Z.to_euclidean_division_equations; lia.
  - by eexists k, _.
Qed.

(** ** Creation *)

(** Block [k] after creation. *)
Definition fresh_block (k : Z) : __block :=
  Block (k mod PUNIT) (k / PUNIT * _PPS) 0 zero_bitset 0 0 0 None zero_oob.

Lemma create_punits_spec n : ∀ bs idx seg j,
  0 <= idx → idx + Z.of_nat n <= ca_len bs → (∀ k, idx <= k → ca_at bs k = zero_block) →
  ∃ bs', create_punits n bs idx seg j = Ok bs' ∧ ca_len bs' = ca_len bs ∧
    ∀ k, ca_at bs' k =
      if decide (idx <= k < idx + Z.of_nat n)
      then Block (u32 (j + (k - idx))) (u32 seg) 0 zero_bitset 0 0 0 None zero_oob
      else ca_at bs k.
Proof.
  induction n as [|n IH]; intros bs idx seg j Hi Hlen Hz; cbn [create_punits].
  - exists bs. split_and!; try done. intros k. by rewrite decide_False by lia.
  - rewrite ca_get_in by lia; rbind. rewrite ca_set_in by lia; rbind. rewrite (Hz idx) by lia.
    destruct (IH (ca_upd bs idx (Block (u32 j) (u32 seg) 0 zero_bitset 0 0 0 None zero_oob))
      (idx + 1) seg (j + 1)) as (bs' & E & Hl & Hat).
    { lia. } { rewrite ca_len_upd. lia. }
    { intros k Hk. rewrite ca_at_upd_ne by lia. apply Hz. lia. }
    exists bs'. split_and!; [exact E|by rewrite Hl|]. intros k. rewrite Hat, ca_at_upd.
    destruct (decide (idx + 1 <= k < idx + 1 + Z.of_nat n)).
    + rewrite decide_True by lia. by replace (j + 1 + (k - (idx + 1))) with (j + (k - idx)) by lia.
    + destruct (decide (idx = k)) as [->|].
      * rewrite decide_True by lia. by rewrite Z.sub_diag, Z.add_0_r.
      * by rewrite decide_False by lia.
Qed.

Lemma create_segs_spec n : ∀ c bs idx,
  (∀ i, 0 <= i < _RNOS → BadBlock.origin_segnum (ca_at (BadBlock.ent c) i) = i * _PPS) →
  ca_len (BadBlock.ent c) = _RNOS → 0 <= BadBlock.assign c → BadBlock.assign c + Z.of_nat n <= _RNOS →
  0 <= idx → idx = BadBlock.assign c * PUNIT → idx + Z.of_nat n * PUNIT <= ca_len bs →
  (∀ k, idx <= k → ca_at bs k = zero_block) → (∀ k, 0 <= k < idx → ca_at bs k = fresh_block k) →
  ∃ bs' c', create_segs n c bs idx = Ok (bs', c') ∧ ca_len bs' = ca_len bs ∧
    ∀ k, 0 <= k < idx + Z.of_nat n * PUNIT → ca_at bs' k = fresh_block k.
Proof.
  induction n as [|n IH]; intros c bs idx Ho Hlen Ha Har Hi0 Hidx Hroom Hz Hf; cbn [create_segs].
  - exists bs, c. split_and!; try done. intros k Hk. apply Hf. lia.
  - unfold BadBlock.bb_checker_get_segid. rewrite ca_get_in by lia; rbind. rewrite Ho by lia.
    assert (Hs : s32 (BadBlock.assign c * _PPS) = BadBlock.assign c * _PPS).
    { apply s32_id. change _PPS with 16384. change _RNOS with 4096 in *. lia. }
    rewrite Hs. change PUNIT with 64 in *.
    destruct (create_punits_spec (Z.to_nat 64) bs idx (BadBlock.assign c * _PPS) 0)
      as (bs1 & -> & Hl1 & Hat1); [done|lia|done|]. rbind.
    match goal with |- context [create_segs n ?c1 bs1 _] =>
      destruct (IH c1 bs1 (idx + 64)) as (bs2 & c2 & -> & Hl2 & Hat2);
        cbn [BadBlock.ent BadBlock.assign] in *; try done; try lia end.
    + rewrite u32_id; change _RNOS with 4096 in *; lia.
    + rewrite u32_id; change _RNOS with 4096 in *; lia.
    + rewrite u32_id; change _RNOS with 4096 in *; lia.
    + intros k Hk. rewrite Hat1, decide_False by lia. apply Hz. lia.
    + intros k Hk. rewrite Hat1. change (Z.of_nat (Z.to_nat 64)) with 64.
      case_decide; [|apply Hf; lia]. unfold fresh_block. change PUNIT with 64. rewrite Hidx in *.
      assert (k / 64 = BadBlock.assign c ∧ k mod 64 = k - BadBlock.assign c * 64) as [-> ->]
        by (Z.to_euclidean_division_equations; lia).
      rewrite !u32_id; [by rewrite Z.add_0_l| |]; change _PPS with 16384; change _RNOS with 4096 in *; lia.
    + exists bs2, c2. split_and!; [done|by rewrite Hl2|]. intros k Hk. apply Hat2. lia.
Qed.

Lemma fresh_block_wf k : block_wf k (fresh_block k).
Proof.
  unfold block_wf, fresh_block. cbn [block_num punit_num now invalid_number bitset oob_list].
  split_and!; done.
Qed.

Lemma fill_queue_spec n : ∀ q i j cap xs,
  fifo_repr q cap xs → Z.of_nat (length xs + n) <= cap →
  ∃ q', fill_queue n q i j = Ok q' ∧
    fifo_repr q' cap (xs ++ ((λ k, (j + Z.of_nat k) * BPS + i mod BPS) <$> seq 0 n)).
Proof.
  induction n as [|n IH]; intros q i j cap xs Hq Hcap; cbn [fill_queue].
  - exists q. split; [done|]. by rewrite app_nil_r.
  - destruct (fifo_enqueue_spec q cap xs (j * BPS + i mod BPS) Hq) as (q1 & -> & Hq1); [lia|]. rbind.
    destruct (IH q1 i (j + 1) cap _ Hq1) as (q2 & -> & Hq2); [rewrite length_app; simpl; lia|].
    exists q2. split; [done|]. rewrite <-app_assoc in Hq2. cbn [app] in Hq2.
    rewrite <-cons_seq, fmap_cons, Z.add_0_r, <-fmap_S_seq, <-list_fmap_compose.
    erewrite list_fmap_ext; [exact Hq2|]. intros _ k _. unfold compose. do 2 f_equal. lia.
Qed.

(** All the blocks of channel [i], one of each segment. *)
Definition chan_blocks (i : nat) : list Z :=
  (λ k, (0 + Z.of_nat k) * BPS + Z.of_nat i mod BPS) <$> seq 0 (Z.to_nat (_NOB / BPS)).

Lemma create_channels_spec n : ∀ i,
  ∃ cs, create_channels (Q:=Q) n (Z.of_nat i) = Ok cs ∧ length cs = n ∧
    ∀ j c, cs !! j = Some c → fifo_repr (free_block c) (_NOB / BPS) (chan_blocks (i + j)) ∧
      max_heap c = MaxHeap.mh_init (Z.to_nat (_NOB / BPS)).
Proof.
  assert (Hnb : 0 <= _NOB / BPS).
  { unfold _NOB. rewrite Z.mul_comm, Z.div_mul by done. pose proof NOS_range. lia. }
  induction n as [|n IH]; intros i; cbn [create_channels]; [by exists []|].
  destruct (fill_queue_spec (Z.to_nat (_NOB / BPS)) (fifo_init (_NOB / BPS)) (Z.of_nat i) 0 (_NOB / BPS) [])
    as (q & -> & Hq); [by apply fifo_init_spec|simpl; lia|]. rbind.
  replace (Z.of_nat i + 1) with (Z.of_nat (S i)) by lia.
  destruct (IH (S i)) as (cs & -> & Hl & Hcs); rbind. eexists. split; [done|].
  split; [simpl; lia|]. intros [|j] c Hc; cbn in Hc.
  - injection Hc as <-. rewrite Nat.add_0_r. done.
  - rewrite Nat.add_succ_r. by apply (Hcs j).
Qed.

(** A checker as [bb_checker_start] leaves it. *)
Definition checker_ready (c : BadBlock.bb_checker) : Prop :=
  ca_len (BadBlock.ent c) = _RNOS ∧ BadBlock.assign c = 0 ∧
  ∀ i, 0 <= i < _RNOS → BadBlock.origin_segnum (ca_at (BadBlock.ent c) i) = i * _PPS.

Lemma base_create_Ok c :
  checker_ready c →
  ∃ p c', base_create (Q:=Q) (Mp:=Mp) c = Ok (p, c') ∧ blocks_wf (base_block p) ∧
    (∀ k, 0 <= k < NBLOCKS → ca_at (base_block p) k = fresh_block k) ∧
    length (base_channel p) = 64%nat ∧
    (∀ i ch, base_channel p !! i = Some ch → fifo_repr (free_block ch) (_NOB / BPS) (chan_blocks i) ∧
       max_heap ch = MaxHeap.mh_init (Z.to_nat (_NOB / BPS))) ∧
    seg_map p = im_create ∧ seg_map_idx p = 0 ∧ segs p = ∅.
Proof.
  intros (Hlen & Ha & Ho). pose proof NOS_range as HN. unfold base_create.
  destruct (create_segs_spec (Z.to_nat _NOS) c (ca_new (_NOS * PUNIT) zero_block) 0)
    as (bs & c' & -> & Hl & Hat); try done; rewrite ?Ha; try done;
    try (change _RNOS with 4096; cbn [ca_new ca_len]; lia).
  rbind. pose proof (create_channels_spec (Z.to_nat PUNIT) 0) as Hcc. change (Z.of_nat 0) with 0 in Hcc.
  destruct Hcc as (cs & -> & Hcl & Hcs); rbind.
  assert (Hfresh : ∀ k, 0 <= k < NBLOCKS → ca_at bs k = fresh_block k).
  { intros k Hk. apply Hat. unfold NBLOCKS in Hk. lia. }
  eexists _, _. split; [done|]. cbn [base_block base_channel seg_map seg_map_idx segs].
  split; [|split; [done|split; [done|split; [|done]]]].
  - split; [by rewrite Hl|]. intros k Hk. rewrite Hfresh by done. apply fresh_block_wf.
  - intros i ch Hch. apply (Hcs i ch Hch).
Qed.

(** ** Client programs *)

(** Calls on the bitmap, and the same calls on a set of page addresses. *)
Inductive bop := Populate (q : Z) | Unpopulate (q : Z) | IsValid (q : Z) | IsInvalid (q : Z).

Definition bop_page (o : bop) : Z :=
  match o with Populate q | Unpopulate q | IsValid q | IsInvalid q => q end.

Definition bstep (o : bop) p : res (Z * bbm_pri Q Mp) :=
  match o with
  | Populate q => base_populate_bit p q
  | Unpopulate q => base_unpopulate_bit p q
  | IsValid q => r ← base_is_valid_page p q; Ok (Z.b2z r, p)
  | IsInvalid q => r ← base_is_invalid_page p q; Ok (Z.b2z r, p)
  end.

Fixpoint brun (os : list bop) p : res (list Z * bbm_pri Q Mp) :=
  match os with
  | [] => Ok ([], p)
  | o :: os => '(r, p) ← bstep o p; '(rs, p) ← brun os p; Ok (r :: rs, p)
  end.

Definition set_step (o : bop) (V : gset Z) : Z * gset Z :=
  match o with
  | Populate q => (Z.b2z (bool_decide (q ∉ V)), V ∪ {[q]})
  | Unpopulate q => (Z.b2z (bool_decide (q ∈ V)), V ∖ {[q]})
  | IsValid q => (Z.b2z (bool_decide (q ∈ V)), V)
  | IsInvalid q => (Z.b2z (bool_decide (q ∉ V)), V)
  end.

Fixpoint set_run (os : list bop) (V : gset Z) : list Z * gset Z :=
  match os with
  | [] => ([], V)
  | o :: os => let '(r, V) := set_step o V in let '(rs, V) := set_run os V in (r :: rs, V)
  end.

(** [V] is the set of valid pages. *)
Definition valid_set p (V : gset Z) : Prop := ∀ q, 0 <= q < _NOP → (q ∈ V ↔ page_bit p q = true).

Lemma valid_bool p V q :
  valid_set p V → 0 <= q < _NOP → bool_decide (q ∈ V) = page_bit p q.
Proof.
  intros HV Hq. specialize (HV q Hq). case_bool_decide; destruct (page_bit p q); naive_solver.
Qed.

Lemma invalid_bool p V q :
  valid_set p V → 0 <= q < _NOP → bool_decide (q ∉ V) = negb (page_bit p q).
Proof. intros HV Hq. rewrite <-(valid_bool p V q HV Hq). by repeat case_bool_decide. Qed.

Lemma fresh_valid_set p :
  (∀ k, 0 <= k < NBLOCKS → ca_at (base_block p) k = fresh_block k) → valid_set p ∅.
Proof.
  intros Hf q Hq. split; [by intros ?%not_elem_of_empty|]. unfold page_bit.
  rewrite Hf by (by apply bit_place). unfold fresh_block, zero_bitset. cbn [bitset].
  rewrite ca_at_new, Z.bits_0. done.
Qed.

Lemma bstep_refines o p V :
  blocks_wf (base_block p) → valid_set p V → 0 <= bop_page o < _NOP →
  ∃ p', bstep o p = Ok (fst (set_step o V), p') ∧ blocks_wf (base_block p') ∧
    valid_set p' (snd (set_step o V)).
Proof.
  intros Hwf HV Hq. destruct o as [q|q|q|q]; cbn [bop_page bstep set_step fst snd] in *.
  - destruct (populate_Ok p q Hwf Hq) as (p' & -> & Hwf' & Hb). exists p'.
    rewrite (invalid_bool p) by done. split_and!; [by destruct (page_bit p q)|done|].
    intros r Hr. rewrite Hb by done. specialize (HV r Hr). case_decide; set_solver.
  - destruct (unpopulate_Ok p q Hwf Hq) as (p' & -> & Hwf' & Hb & _). exists p'.
    rewrite (valid_bool p) by done. split_and!; [by destruct (page_bit p q)|done|].
    intros r Hr. rewrite Hb by done. specialize (HV r Hr). case_decide; set_solver.
  - rewrite is_valid_Ok, (valid_bool p) by done. by exists p.
  - unfold base_is_invalid_page. rewrite is_valid_Ok, (invalid_bool p) by done. by exists p.
Qed.

Lemma brun_refines os : ∀ p V,
  blocks_wf (base_block p) → valid_set p V → Forall (λ o, 0 <= bop_page o < _NOP) os →
  ∃ p', brun os p = Ok (fst (set_run os V), p') ∧ blocks_wf (base_block p') ∧
    valid_set p' (snd (set_run os V)).
Proof.
  induction os as [|o os IH]; intros p V Hwf HV Hos; [by exists p|].
  apply Forall_cons in Hos as [Ho Hos]. cbn [brun set_run].
  destruct (bstep_refines o p V Hwf HV Ho) as (p1 & -> & Hwf1 & HV1); rbind.
  destruct (set_step o V) as [r V1]. cbn [fst snd] in *.
  destruct (IH p1 V1 Hwf1 HV1 Hos) as (p2 & -> & Hwf2 & HV2); rbind.
  destruct (set_run os V1) as [rs V2]. by exists p2.
Qed.

(** [n] calls of [base_get_page_num]. *)
Fixpoint get_pages (n : nat) p (s : loc) : res (list Z * bbm_pri Q Mp) :=
  match n with
  | O => Ok ([], p)
  | S n => '(x, p) ← base_get_page_num p s; '(xs, p) ← get_pages n p s; Ok (x :: xs, p)
  end.

Lemma get_pages_spec ks s n : ∀ p m,
  blocks_wf (base_block p) → seg_at p s ks m → 0 <= m → m + Z.of_nat n <= 16384 →
  ∃ p', get_pages n p s = Ok (nth_page ks <$> seqZ m (Z.of_nat n), p') ∧ blocks_wf (base_block p') ∧
    seg_at p' s ks (m + Z.of_nat n).
Proof.
  induction n as [|n IH]; intros p m Hwf Hs Hm Hle; cbn [get_pages].
  - exists p. by rewrite Z.add_0_r.
  - destruct (get_page_num_Ok p s ks m Hwf Hs) as (p1 & -> & Hwf1 & Hs1 & _); [lia|]. rbind.
    destruct (IH p1 (m + 1) Hwf1 Hs1) as (p2 & -> & Hwf2 & Hs2); [lia..|]. rbind.
    exists p2. rewrite (seqZ_cons m) by lia. rewrite fmap_cons.
    replace (Z.pred (Z.of_nat (S n))) with (Z.of_nat n) by lia.
    replace (m + Z.of_nat (S n)) with (m + 1 + Z.of_nat n) by lia. by rewrite <-Z.add_1_r.
Qed.

Lemma nth_page_inj ks a b :
  length ks = 64%nat → NoDup ks → Forall (λ k, 0 <= k < NBLOCKS) ks →
  0 <= a < 16384 → 0 <= b < 16384 → nth_page ks a = nth_page ks b → a = b.
Proof.
  intros Hlen Hnd Hr Ha Hb. unfold nth_page.
  destruct (lookup_lt_is_Some_2 ks (Z.to_nat (a mod 64))) as [k Hk]; [pose proof (Z.mod_pos_bound a 64); lia|].
  destruct (lookup_lt_is_Some_2 ks (Z.to_nat (b mod 64))) as [j Hj]; [pose proof (Z.mod_pos_bound b 64); lia|].
  rewrite Forall_lookup in Hr. pose proof (Hr _ _ Hk). pose proof (Hr _ _ Hj).
  rewrite Hk, Hj. cbn [default id]. intros E.
  assert (Hpg : 0 <= a / 64 < 256 ∧ 0 <= b / 64 < 256) by (Z.to_euclidean_division_equations; lia).
  assert (Ek : k = j).
  { rewrite <-(GETBLOCKIDX_ppa_of k (a / 64)), <-(GETBLOCKIDX_ppa_of j (b / 64)) by tauto. by rewrite E. }
  assert (Ep : a / 64 = b / 64).
  { rewrite <-(GETPAGEIDX_ppa_of k (a / 64)), <-(GETPAGEIDX_ppa_of j (b / 64)) by tauto. by rewrite E. }
  subst j. assert (Z.to_nat (a mod 64) = Z.to_nat (b mod 64)) by (by eapply NoDup_lookup).
  pose proof (Z.mod_pos_bound a 64). pose proof (Z.mod_pos_bound b 64).
  rewrite (Z.div_mod a 64), (Z.div_mod b 64) by done. lia.
Qed.

End facts.

(** ** Properties *)

(** C25: addresses round trip. The address that [PPAMAKER] and the page counter of
    a segment compute for page [pg] of block [k] is an address of the device,
    and [GETBLOCKIDX] and [GETPAGEIDX] recover block and page from it; and every
    address of the device is the address of the page they compute. *)
Theorem ppa_round_trip `{Sg : Settings, !SettingsOk Sg} (bs : blocks) :
  blocks_wf bs →
  (∀ k pg, 0 <= k < NBLOCKS → 0 <= pg < _PPB →
     let ppa := PPAMAKER (ca_at bs k) pg in
     0 <= ppa < _NOP ∧ GETBLOCKIDX ppa = k ∧ GETPAGEIDX ppa = pg ∧
     page_number (ca_at bs k) pg = ppa) ∧
  (∀ ppa, 0 <= ppa < _NOP →
     0 <= GETBLOCKIDX ppa < NBLOCKS ∧ PPAMAKER (ca_at bs (GETBLOCKIDX ppa)) (GETPAGEIDX ppa) = ppa).
Proof.
  intros [Hl Hw]. split.
  - intros k pg Hk Hp ppa. change _PPB with 256 in Hp. unfold ppa. rewrite (PPAMAKER_eq k) by auto.
    split_and!; [apply ppa_of_range; done..| | |].
    + by apply GETBLOCKIDX_ppa_of.
    + by apply GETPAGEIDX_ppa_of.
    + by apply page_number_eq; auto.
  - intros ppa Hp. destruct (ppa_of_inv ppa Hp) as (Hk & Hg & E). split; [done|].
    rewrite (PPAMAKER_eq (GETBLOCKIDX ppa)) by auto. done.
Qed.

(** The blocks a new 1 GB manager starts with. *)
Lemma ppa_round_trip_witness :
  let bs := CArr 512 zero_block (list_to_map ((λ k, (k, fresh_block k)) <$> seqZ 0 512)) in
  (∀ k pg, 0 <= k < NBLOCKS (Sg:=settings_1) → 0 <= pg < _PPB →
     let ppa := PPAMAKER (ca_at bs k) pg in
     0 <= ppa < _NOP (S:=settings_1) ∧ GETBLOCKIDX ppa = k ∧ GETPAGEIDX ppa = pg ∧
     page_number (ca_at bs k) pg = ppa) ∧
  (∀ ppa, 0 <= ppa < _NOP (S:=settings_1) →
     0 <= GETBLOCKIDX ppa < NBLOCKS (Sg:=settings_1) ∧
     PPAMAKER (ca_at bs (GETBLOCKIDX ppa)) (GETPAGEIDX ppa) = ppa).
Proof.
  assert (SettingsOk settings_1) by (constructor; simpl; lia).
  apply (ppa_round_trip (Sg:=settings_1)). split; [rewrite NBLOCKS_eq; done|].
  intros k Hk. rewrite NBLOCKS_eq in Hk. cbn [GIGAUNIT settings_1] in Hk. unfold ca_at. cbn [ca_map ca_fill].
  rewrite (elem_of_list_to_map_1 _ k (fresh_block k)); [apply fresh_block_wf| |].
  - rewrite <-list_fmap_compose. cbn. rewrite list_fmap_id. apply NoDup_seqZ.
  - apply list_elem_of_fmap. exists k. split; [done|]. rewrite elem_of_seqZ. lia.
Defined.

(** C22: the bitmaps implement a set of page addresses. Any sequence of
    [base_populate_bit], [base_unpopulate_bit], [base_is_valid_page] and
    [base_is_invalid_page] on addresses of the device returns exactly what the
    same sequence returns on a set, starting from the set of valid pages. *)
Theorem bitmap_refines_set `{Sg : Settings, !SettingsOk Sg} {Q Mp : Type} `{!FIFO Z Q, !IntMap loc Mp}
    (p : bbm_pri Q Mp) (V : gset Z) (os : list bop) :
  blocks_wf (base_block p) → valid_set p V → Forall (λ o, 0 <= bop_page o < _NOP) os →
  ∃ p', brun os p = Ok (fst (set_run os V), p') ∧ blocks_wf (base_block p') ∧
    valid_set p' (snd (set_run os V)).
Proof. apply brun_refines. Qed.

(** The checker of a device without a bad-block check is ready. *)
Lemma unfixed_ready : checker_ready BadBlock.unfixed.
Proof.
  destruct BadBlock.unfixed_device as [[Hl Hd] _]. split_and!; [exact Hl|vm_compute; reflexivity|].
  intros i Hi. by apply Hd.
Qed.

(** A new 1 GB manager. *)
Lemma bitmap_refines_set_witness :
  let os := [Populate 70; IsValid 70; IsValid 71; Populate 70; Unpopulate 70; IsInvalid 70] in
  ∃ p c', base_create (Sg:=settings_1) (Q:=Queue.queue Z) (Mp:=gmap Z loc) BadBlock.unfixed = Ok (p, c') ∧
  ∃ p', brun os p = Ok ([1; 1; 0; 0; 1; 1], p').
Proof.
  intros os. assert (SettingsOk settings_1) by (constructor; simpl; lia).
  destruct (base_create_Ok (Sg:=settings_1) (Q:=Queue.queue Z) (Mp:=gmap Z loc) BadBlock.unfixed unfixed_ready)
    as (p & c' & E & Hwf & Hfresh & _).
  exists p, c'. split; [exact E|]. clear E.
  pose proof (fresh_valid_set (Sg:=settings_1) p Hfresh) as HV.
  destruct (bitmap_refines_set (Sg:=settings_1) p ∅ os Hwf HV) as (p' & E' & _).
  { repeat (apply Forall_cons; split; [rewrite NOP_eq; simpl; lia|]). constructor. }
  exists p'. rewrite E'. f_equal.
Defined.

(** The spare area keeps the logical address of a page. After
    [base_set_oob] stored a 32-bit address for page [q], [base_get_oob] of [q]
    starts with these four bytes, the spare areas of the other pages, the
    bitmap and the counters of invalid pages are as before. *)
Theorem oob_round_trip `{Sg : Settings, !SettingsOk Sg} {Q Mp : Type} `{!FIFO Z Q, !IntMap loc Mp}
    (p : bbm_pri Q Mp) (lba q : Z) :
  blocks_wf (base_block p) → 0 <= q < _NOP → 0 <= lba < 2 ^ 32 →
  ∃ p', base_set_oob p (le32_bytes lba) 4 q = Ok p' ∧
    (oob ← base_get_oob p' q; le32_read oob) = Ok lba ∧
    (∀ r, 0 <= r < _NOP → r ≠ q → base_get_oob p' r = base_get_oob p r) ∧
    (∀ r, 0 <= r < _NOP → base_is_valid_page p' r = base_is_valid_page p r).
Proof.
  intros Hwf Hq Hlba.
  destruct (set_oob_Ok p (le32_bytes lba) q Hwf Hq) as (p' & E & Hwf' & Hb & Ho & _).
  { rewrite le32_bytes_length. vm_compute. lia. }
  exists p'. split; [done|]. split; [|split].
  - rewrite get_oob_Ok by done. rbind. rewrite Ho by done. rewrite decide_True by done.
    by apply le32_read_bytes.
  - intros r Hr Hne. rewrite !get_oob_Ok by done. rewrite Ho by done. by rewrite decide_False.
  - intros r Hr. rewrite !is_valid_Ok by done. by rewrite Hb.
Qed.

Lemma oob_round_trip_witness :
  ∃ p c', base_create (Sg:=settings_1) (Q:=Queue.queue Z) (Mp:=gmap Z loc) BadBlock.unfixed = Ok (p, c') ∧
  ∃ p', base_set_oob p (le32_bytes 123456) 4 70 = Ok p' ∧
    (oob ← base_get_oob p' 70; le32_read oob) = Ok 123456.
Proof.
  assert (SettingsOk settings_1) by (constructor; simpl; lia).
  destruct (base_create_Ok (Sg:=settings_1) (Q:=Queue.queue Z) (Mp:=gmap Z loc) BadBlock.unfixed unfixed_ready)
    as (p & c' & E & Hwf & _).
  exists p, c'. split; [exact E|]. clear E.
  destruct (oob_round_trip (Sg:=settings_1) p 123456 70 Hwf) as (p' & E1 & E2 & _);
    [rewrite NOP_eq; simpl; lia|lia|].
  by exists p'.
Defined.

(** C19: a segment hands out each of its pages once. From a segment whose blocks
    are empty, the first 16384 calls of [base_get_page_num] return 16384
    different addresses, all of them pages of the segment's blocks, going round
    the 64 channels; every later call returns -1 and changes nothing. *)
Theorem segment_hands_out_each_page_once `{Sg : Settings, !SettingsOk Sg} {Q Mp : Type}
    `{!FIFO Z Q, !IntMap loc Mp} (p : bbm_pri Q Mp) (s : loc) (ks : list Z) :
  blocks_wf (base_block p) → seg_at p s ks 0 →
  ∃ pages p', get_pages (Z.to_nat _PPS) p s = Ok (pages, p') ∧ NoDup pages ∧
    Forall (λ x, 0 <= x < _NOP ∧ GETBLOCKIDX x ∈ ks) pages ∧
    base_get_page_num p' s = Ok (-1, p').
Proof.
  intros Hwf Hs. pose proof Hs as (Hlen & Hnd & Hr & _).
  destruct (get_pages_spec ks s (Z.to_nat _PPS) p 0 Hwf Hs) as (p' & -> & Hwf' & Hs'); [lia|vm_compute; done|].
  change (Z.of_nat (Z.to_nat _PPS)) with 16384 in *.
  eexists _, p'. split; [done|]. split; [|split].
  - apply NoDup_fmap_2_strong; [|apply NoDup_seqZ]. intros a b Ha%elem_of_seqZ Hb%elem_of_seqZ.
    apply nth_page_inj; try done; lia.
  - apply Forall_fmap, Forall_forall. intros n Hn%elem_of_seqZ. unfold compose, nth_page.
    destruct (lookup_lt_is_Some_2 ks (Z.to_nat (n mod 64))) as [k Hk]; [pose proof (Z.mod_pos_bound n 64); lia|].
    rewrite Hk. cbn [default id]. rewrite Forall_lookup in Hr. pose proof (Hr _ _ Hk).
    assert (0 <= n / 64 < 256) by (Z.to_euclidean_division_equations; lia).
    split; [by apply ppa_of_range|]. rewrite GETBLOCKIDX_ppa_of by done. by eapply list_elem_of_lookup_2.
  - by eapply get_page_num_full.
Qed.

(** The first segment of a new 1 GB manager. *)
Lemma segment_hands_out_each_page_once_witness :
  ∃ p c', base_create (Sg:=settings_1) (Q:=Queue.queue Z) (Mp:=gmap Z loc) BadBlock.unfixed = Ok (p, c') ∧
  ∃ pages p', get_pages (Z.to_nat _PPS) (with_segs {[1%positive := Segment 0 (seqZ 0 64) 0 64 0 0]} p) 1%positive
      = Ok (pages, p') ∧ NoDup pages ∧
    Forall (λ x, 0 <= x < _NOP (S:=settings_1) ∧ GETBLOCKIDX x ∈ seqZ 0 64) pages ∧
    base_get_page_num p' 1%positive = Ok (-1, p').
Proof.
  assert (SettingsOk settings_1) by (constructor; simpl; lia).
  destruct (base_create_Ok (Sg:=settings_1) (Q:=Queue.queue Z) (Mp:=gmap Z loc) BadBlock.unfixed unfixed_ready)
    as (p & c' & E & Hwf & Hfresh & _).
  exists p, c'. split; [exact E|]. clear E.
  apply (segment_hands_out_each_page_once (Sg:=settings_1)); [done|].
  split; [vm_compute; done|]. split; [apply NoDup_seqZ|].
  assert (Hr : Forall (λ k, 0 <= k < NBLOCKS (Sg:=settings_1)) (seqZ 0 64)).
  { apply Forall_forall. intros k Hk%elem_of_seqZ. rewrite NBLOCKS_eq. simpl. lia. }
  split; [done|]. split.
  - eexists. cbn [with_segs segs]. rewrite lookup_singleton_eq. done.
  - intros i k Hk. rewrite Forall_lookup in Hr. cbn [with_segs base_block].
    rewrite Hfresh by (by eapply Hr). rewrite decide_False by (change (0 mod 64) with 0; lia). done.
Defined.

End BlockManager.
