(* ===== verification/RedBlackMap.v ===== *)
(** * The users of the red-black tree

    A tree whose keys are all different is a finite map ([holds]). Three parts of the
    system use one: the block managers find a segment by its number
    (blockmanager/base_block_manager.c), through the interface [IntMap], which the tree
    implements here; the request manager of the host interface keeps the writes
    under way (interface/interface.c, [interface_pq] and [KVSSD] defined); and the emulator
    build of the LSM-tree keeps the key of each page (algorithm/Lsmtree/data_simul.c). *)
From S2P Require Export Prelude Settings Queue RedBlack BlockManager.

Local Open Scope Z_scope.

Module RedBlackMap.
Import RedBlack.

(** Keys that compare as equal are equal. *)
Class KeyEq {K} (cmp : K → K → Z) (ok : K → Prop) : Prop := {
  ke_cmp :: KeyCmp cmp ok;
  ke_eq a b : ok a → ok b → cmp a b = 0 → a = b;
}.
#[export] Instance int_cmp_eq : KeyEq int_cmp (λ _, True).
Proof. split; [apply _|]. unfold int_cmp. intros; lia. Qed.
#[export] Instance KEYCMP_key_eq : KeyEq KEYCMP key_wf.
Proof. split; [apply _|]. intros a b Ha Hb. by apply KEYCMP_order. Qed.

(** ** A tree as a map *)

Section holds.
Context {K V : Type} `{Countable K} (cmp : K → K → Z) (ok : K → Prop) `{!KeyEq cmp ok}.
Implicit Types (m : gmap loc (node K V)) (rb : loc) (k : K) (it : option V) (M : gmap K (option V)).

Definition holds m rb M : Prop := ∃ les, tree_of rb cmp ok m les ∧ NoDup les.*2.*1 ∧ M = list_to_map les.*2.

Lemma cmp_refl k : ok k → cmp k k = 0.
Proof. intros Hk. pose proof (kc_flip (cmp:=cmp) k k Hk Hk). lia. Qed.

Lemma holds_create m0 junk : holds (rb_create m0 junk).1 (rb_create m0 junk).2 ∅.
Proof. destruct (create_Ok cmp ok m0 junk _ _ (surjective_pairing (rb_create m0 junk))) as [Ht _]. exists []. split; [done|]. split; [constructor|done]. Qed.

(** A search, with the entry it finds *)
Lemma holds_search m rb les k : tree_of rb cmp ok m les → NoDup les.*2.*1 → ok k →
  (∃ x it A B, rb_find_fnt cmp m rb k = Ok (true, x) ∧ entry m x = Ok (k, it) ∧ les = A ++ (x, (k, it)) :: B) ∨ (rb_find_fnt cmp m rb k = Ok (false, rb) ∧ k ∉ les.*2.*1).
Proof.
  intros [(t & N & Hrep & Hbal & <- & _) Hs] Hnd Hk. pose proof Hs as [_ Hok]. rewrite Forall_forall in Hok. destruct (rb_find_Ok rb cmp ok m t k Hrep Hs Hk) as [(a & [k' it] & p & l & r & c & E & Ha & Hz & Hn)|[E Hall]].
  - left. assert (Hkk : k = k') by (apply (ke_eq (cmp:=cmp) (ok:=ok)); [done|by apply (Hok (a, (k', it)))|done]). subst k'. pose proof Ha as (A & B & Hel)%list_elem_of_split. exists a, it, A, B. split; [done|]. split; [by apply (entry_in rb m t)|done].
  - right. split; [done|]. intros Hin. apply list_elem_of_fmap in Hin as (d & -> & Hin). apply list_elem_of_fmap in Hin as (e & -> & Hin). rewrite Forall_forall in Hall. apply (Hall e Hin). apply cmp_refl. by apply Hok.
Qed.

Lemma map_middle les A (x : loc) k it B : les = A ++ (x, (k, it)) :: B → NoDup les.*2.*1 →
  NoDup (A ++ B).*2.*1 ∧ k ∉ (A ++ B).*2.*1 ∧ (list_to_map les.*2 : gmap K (option V)) = <[k := it]> (list_to_map (A ++ B).*2).
Proof.
  intros -> Hnd. assert (HP : (A ++ (x, (k, it)) :: B).*2 ≡ₚ (k, it) :: (A ++ B).*2) by (rewrite !fmap_app, fmap_cons; cbn; solve_Permutation). pose proof Hnd as Hnd'. rewrite HP in Hnd'. cbn in Hnd'. apply NoDup_cons in Hnd' as [Hk Hnd']. split; [done|]. split; [done|].
  by rewrite (list_to_map_proper _ _ Hnd HP).
Qed.

Lemma holds_find m rb M k : holds m rb M → ok k →
  match M !! k with
  | Some it => ∃ x, rb_find_fnt cmp m rb k = Ok (true, x) ∧ rd item m x = Ok it ∧ ∀ isint, ∃ m', rb_delete m x isint = Ok m' ∧ holds m' rb (delete k M)
  | None => rb_find_fnt cmp m rb k = Ok (false, rb)
  end.
Proof.
  intros (les & Ht & Hnd & ->) Hk. destruct (holds_search m rb les k Ht Hnd Hk) as [(x & it & A & B & E & He & Hles)|[E Hin]].
  - destruct (map_middle les A x k it B Hles Hnd) as (Hnd' & Hk' & HM). rewrite HM, lookup_insert_eq. exists x. split; [done|]. split.
    { unfold entry, rd in *. destruct (m !! x); [|done]. cbn in *. by injection He as _ ->. }
    intros isint. destruct Ht as [Hb Hs]. rewrite Hles in Hb, Hs. destruct (delete_entry rb m _ A x (k, it) B isint Hb) as (m' & E' & (t & N & H1 & H2 & H3 & H4)). exists m'. split; [done|]. exists (A ++ B). split; [|split; [done|]].
    + split; [by exists t, N|by eapply sorted_delete].
    + rewrite delete_insert_id; [done|]. by apply not_elem_of_list_to_map_1.
  - rewrite (not_elem_of_list_to_map_1 _ _ Hin). exact E.
Qed.

Lemma holds_insert m rb M k it : holds m rb M → ok k → M !! k = None → ∃ m' x, rb_insert_fnt cmp m rb k it = Ok (m', x) ∧ holds m' rb (<[k := it]> M).
Proof.
  intros (les & [(t & N & Hrep & Hbal & <- & _) Hs] & Hnd & ->) Hk Hnone. apply not_elem_of_list_to_map_2 in Hnone.
  destruct (insert_Ok rb cmp ok m t N k it Hrep Hbal Hs Hk) as (m' & z & A & B & E & Hz & Hel & (t' & N' & H1 & H2 & H3 & H4) & HA & HB). exists m', z. split; [done|]. rewrite Hel in *. exists (A ++ (z, (k, it)) :: B).
  assert (HP : (A ++ (z, (k, it)) :: B).*2 ≡ₚ (k, it) :: (A ++ B).*2) by (rewrite !fmap_app, fmap_cons; cbn; solve_Permutation). assert (Hnd' : NoDup (A ++ (z, (k, it)) :: B).*2.*1) by (rewrite HP; cbn; by apply NoDup_cons).
  split; [split; [by exists t', N'|by apply (insert_sorted cmp ok)]|]. split; [done|]. by rewrite (list_to_map_proper _ _ Hnd' HP).
Qed.

End holds.

(** [rb_find_str] answers as a search with [KEYCMP]. *)
Lemma rb_find_str_Ok {V} (m : gmap loc (node str_key V)) rb M k : holds KEYCMP key_wf m rb M → key_wf k → rb_find_str m rb k = rb_find_fnt KEYCMP m rb k.
Proof.
  intros (les & [(t & N & Hrep & Hbal & <- & _) Hs] & _) Hk. unfold rb_find_str, rb_find_fnt, assert_sentinel. rewrite (rep_sentinel _ _ _ _ Hrep). pose proof Hrep as [(it0 & k0 & q0 & Hsent) _ _]. rewrite (rd_Ok _ _ _ _ Hsent). rbind. cbn [negb abort_if right].
  destruct (rb_find_loop_Ok rb KEYCMP key_wf (S (size m)) m [] t k 1 Hrep) as [(a & d & c' & E' & -> & Ha & Hin & Hz & p & l & r & co & Hn)|(c' & E' & Hall)];
    [pose proof (rep_size _ _ _ _ Hrep); pose proof (height_locs t); lia|done|done|by split|done| |]; rewrite E'; rbind.
  - rewrite (rd_Ok _ _ _ _ Hn). rbind. by destruct (KEYTEST k _).
  - rewrite (rd_Ok _ _ _ _ Hsent). rbind. by rewrite bool_decide_true.
Qed.

(** ** The segment map of the block managers *)

Section segments.
Context {V : Type}.
Abbreviation mem := (gmap loc (node Z V)).
Implicit Types (s : mem * loc) (m : mem) (k : Z) (v : V).

(** The calls of the block managers: a search takes the item of the node, an insertion is of
    a new number, and a deletion is of the node that a search found. *)
Definition seg_find k s : res (option V) := '(b, x) ← rb_find_int s.1 s.2 k; if b : bool then rd item s.1 x else Ok None.
Definition seg_insert k v s : res (mem * loc) :=
  '(b, _) ← rb_find_int s.1 s.2 k;
  if b : bool then Ok s else '(m, _) ← rb_insert_int s.1 s.2 k (Some v); Ok (m, s.2).
Definition seg_delete k s : res (mem * loc) :=
  '(b, x) ← rb_find_int s.1 s.2 k;
  if b : bool then m ← rb_delete s.1 x true; Ok (m, s.2) else Ok s.

Definition is_map s (M : gmap Z V) : Prop := holds int_cmp (λ _, True) s.1 s.2 (Some <$> M).

Lemma seg_find_Ok k s M : is_map s M → seg_find k s = Ok (M !! k).
Proof.
  intros H. unfold seg_find, rb_find_int. pose proof (holds_find int_cmp (λ _, True) _ _ _ k H I) as Hf. rewrite lookup_fmap in Hf. destruct (M !! k) as [v|]; cbn in Hf; [|by rewrite Hf].
  destruct Hf as (x & E & Hx & _). rewrite E. rbind. done.
Qed.
Lemma seg_insert_Ok k v s M : is_map s M → ∃ s', seg_insert k v s = Ok s' ∧ is_map s' (match M !! k with Some _ => M | None => <[k := v]> M end).
Proof.
  intros H. unfold seg_insert, rb_find_int, rb_insert_int. pose proof (holds_find int_cmp (λ _, True) _ _ _ k H I) as Hf. rewrite lookup_fmap in Hf. destruct (M !! k) as [w|] eqn:E; cbn in Hf.
  - destruct Hf as (x & -> & _). rbind. by exists s.
  - rewrite Hf. rbind. destruct (holds_insert int_cmp (λ _, True) _ _ _ k (Some v) H I) as (m' & x & E' & Hm); [by rewrite lookup_fmap, E|]. rewrite E'. rbind. exists (m', s.2). split; [done|]. unfold is_map. by rewrite fmap_insert.
Qed.
Lemma seg_delete_Ok k s M : is_map s M → ∃ s', seg_delete k s = Ok s' ∧ is_map s' (delete k M).
Proof.
  intros H. unfold seg_delete, rb_find_int. pose proof (holds_find int_cmp (λ _, True) _ _ _ k H I) as Hf. rewrite lookup_fmap in Hf. destruct (M !! k) as [w|] eqn:E; cbn in Hf.
  - destruct Hf as (x & -> & _ & Hd). rbind. destruct (Hd true) as (m' & -> & Hm). rbind. exists (m', s.2). split; [done|]. unfold is_map. by rewrite fmap_delete.
  - rewrite Hf. rbind. exists s. split; [done|]. by rewrite delete_id.
Qed.

(** A tree that is a map *)
Definition seg_map : Type := { s : mem * loc | ∃ M, is_map s M }.
Definition or_same s (r : res (mem * loc)) : mem * loc := match r with Ok s' => s' | Err _ => s end.

Lemma insert_is_map k v s : (∃ M, is_map s M) → ∃ M, is_map (or_same s (seg_insert k v s)) M.
Proof. intros [M H]. destruct (seg_insert_Ok k v s M H) as (s' & -> & Hs). eauto. Qed.
Lemma delete_is_map k s : (∃ M, is_map s M) → ∃ M, is_map (or_same s (seg_delete k s)) M.
Proof. intros [M H]. destruct (seg_delete_Ok k s M H) as (s' & -> & Hs). eauto. Qed.
Lemma create_is_map : ∃ M, is_map (rb_create ∅ 0) M.
Proof. exists ∅. unfold is_map. rewrite fmap_empty. apply (holds_create int_cmp). Qed.

(** The tree implements the interface that the block managers' theorems are proved against. *)
#[local] Program Instance rb_intmap : IntMap V seg_map := {|
  im_create := exist _ (rb_create ∅ 0) create_is_map;
  im_insert k v w := exist _ (or_same (`w) (seg_insert k v (`w))) (insert_is_map k v _ (proj2_sig w));
  im_find k w := match seg_find k (`w) with Ok o => o | Err _ => None end;
  im_delete k w := exist _ (or_same (`w) (seg_delete k (`w))) (delete_is_map k _ (proj2_sig w));
|}.
Next Obligation. intros k. cbn. rewrite (seg_find_Ok k _ ∅); [done|]. unfold is_map. rewrite fmap_empty. apply (holds_create int_cmp). Qed.
Next Obligation.
  intros k j v [s [M H]]. cbn. rewrite (seg_find_Ok k s M H). intros Hnone. destruct (seg_insert_Ok k v s M H) as (s' & E & Hs). rewrite E. cbn. rewrite Hnone in Hs. rewrite (seg_find_Ok j _ _ Hs), (seg_find_Ok j _ _ H). apply lookup_insert.
Qed.
Next Obligation.
  intros k j [s [M H]]. cbn. destruct (seg_delete_Ok k s M H) as (s' & E & Hs). rewrite E. cbn. rewrite (seg_find_Ok j _ _ Hs), (seg_find_Ok j _ _ H). apply lookup_delete.
Qed.

End segments.

(** ** The keys of the pages of the emulator (algorithm/Lsmtree/data_simul.c) *)

Section simul.
Implicit Types (m : gmap loc (node Z str_key)) (rb : loc) (ppa : Z) (M : gmap Z (option str_key)).

Definition lsm_simul_put m rb ppa (key : str_key) : res (gmap loc (node Z str_key)) := '(m, _) ← rb_insert_int m rb ppa (Some key); Ok m.
Definition lsm_simul_get m rb ppa : res (option str_key) := '(_, x) ← rb_find_int m rb ppa; rd item m x.
Definition lsm_simul_del m rb ppa : res (gmap loc (node Z str_key)) := '(_, x) ← rb_find_int m rb ppa; rb_delete m x true.

(** The key of a page that was put is found until it is deleted; a page that is not there cannot be deleted. *)
Lemma lsm_simul_Ok m rb M ppa : holds int_cmp (λ _, True) m rb M →
  match M !! ppa with
  | Some o => lsm_simul_get m rb ppa = Ok o ∧ ∃ m', lsm_simul_del m rb ppa = Ok m' ∧ holds int_cmp (λ _, True) m' rb (delete ppa M)
  | None => lsm_simul_del m rb ppa = Err Aborted ∧ ∀ key, ∃ m', lsm_simul_put m rb ppa key = Ok m' ∧ holds int_cmp (λ _, True) m' rb (<[ppa := Some key]> M)
  end.
Proof.
  intros Hh. unfold lsm_simul_get, lsm_simul_del, lsm_simul_put, rb_find_int, rb_insert_int. pose proof (holds_find int_cmp (λ _, True) _ _ _ ppa Hh I) as Hf. destruct (M !! ppa) as [o|] eqn:E.
  - destruct Hf as (x & -> & Hx & Hd). rbind. split; [done|]. apply Hd.
  - rewrite Hf. rbind. split; [destruct Hh as (les & [Hb _] & _); by eapply sentinel_stays|]. intros key. destruct (holds_insert int_cmp (λ _, True) _ _ _ ppa (Some key) Hh I E) as (m' & x & E' & Hm). rewrite E'. rbind. eauto.
Qed.

End simul.

End RedBlackMap.
