(* ===== verification/HostQueue.v ===== *)
(** * The request queues of the host interface (interface/interface.c, interface/threading.h,
      include/utils/cond_lock.c)

    Clients make requests, the main thread hands them to the translation layer, which ends
    them or puts them back to be tried again. Writes wait in [req_q], other requests in [req_rq],
    requests that are tried again in [retry_q]. A red-black tree, [qmanager], has the writes that wait:
    a read of such a key is answered at once, and so is a write. [flying] bounds the requests under
    way, [inf_cond] counts the wake-ups of the main thread.

    The threads are interleaved at each call that takes a lock: [producers] are the clients inside
    [assign_req], each with the place it has reached, and [consumer] is the place of the main
    thread inside [p_main] and [get_next_request]. A client at its last place, [ARelease], has put its
    request in a queue and wakes the main thread next. A label of [hstep] says which thread goes on;
    [None] is a thread that waits. The build is one with [KVSSD], [CDF] and [interface_pq]. The
    translation layer is the environment: it ends the requests it was given, in any order, or
    has them tried again, and the answer of its [write] is part of the label. [write_stop] is
    also cleared from outside ([LUnstop]). *)
From S2P Require Export Prelude Settings Queue Lower RedBlack RedBlackMap.

Local Open Scope Z_scope.

Module HostQueue.
Import RedBlack RedBlackMap.

Definition FS_RMW_T : Z := 7.
(** The types that [p_main] hands to the translation layer *)
Definition handed_types : list Z := [1; 2; 3; 7; 8; 9; 10; 11; 12; 13; 14; 15; 16; 17; 18].
Definition QSIZE : Z := 1024.
Definition QDEPTH : Z := 64.

(** The fields of [struct request] that the interface uses; [rid] is the request's address. *)
Record request (V : Type) := Req { rid : Z; rtype : Z; rkey : str_key; rvalue : V; isstart : bool; type_ftl : Z }.
Arguments Req {V} _ _ _ _ _ _.
Arguments rid {V} _.
Arguments rtype {V} _.
Arguments rkey {V} _.
Arguments rvalue {V} _.
Arguments isstart {V} _.
Arguments type_ftl {V} _.

(** ** Counting locks *)

Record cl_lock := Cl { zero_lock : bool; cnt : Z; now : Z }.
Definition cl_init (cnt : Z) (zero_lock : bool) : cl_lock := Cl zero_lock cnt 0.
(** [None] is a thread that waits. *)
Definition cl_grap (c : cl_lock) : option cl_lock :=
  if zero_lock c then if now c =? 0 then None else Some (Cl (zero_lock c) (cnt c) (now c - 1))
  else if now c =? cnt c then None else Some (Cl (zero_lock c) (cnt c) (now c + 1)).
Definition cl_release (c : cl_lock) : cl_lock := Cl (zero_lock c) (cnt c) (if zero_lock c then now c + 1 else now c - 1).

Section host.
Context {V Q : Type} `{!FIFO (request V) Q}.
Abbreviation request := (request V).
Implicit Types (r : request).

Definition set_type_ftl t r : request := Req (rid r) (rtype r) (rkey r) (rvalue r) (isstart r) t.
Definition set_isstart b r : request := Req (rid r) (rtype r) (rkey r) (rvalue r) b (type_ftl r).
Definition to_write v r : request := Req (rid r) FS_SET_T (rkey r) v (isstart r) (type_ftl r).

(** [struct processor]; the nodes of its tree are in [qm_mem]. *)
Record processor := Proc { req_q : Q; retry_q : Q; req_rq : Q; qm_mem : gmap loc (node str_key request); qmanager : loc }.
Implicit Types (t : processor).
Definition with_req_q q t : processor := Proc q (retry_q t) (req_rq t) (qm_mem t) (qmanager t).
Definition with_retry_q q t : processor := Proc (req_q t) q (req_rq t) (qm_mem t) (qmanager t).
Definition with_req_rq q t : processor := Proc (req_q t) (retry_q t) q (qm_mem t) (qmanager t).
Definition with_qm m t : processor := Proc (req_q t) (retry_q t) (req_rq t) m (qmanager t).

(** ** The writes that wait *)

(** The key of a request that is found is freed with the request, which is ended next. *)
Definition qmanager_write_checking t r : res (bool * processor) :=
  '(b, _) ← rb_find_str (qm_mem t) (qmanager t) (rkey r);
  if b : bool then Ok (true, t)
  else '(m, _) ← rb_insert_str (qm_mem t) (qmanager t) (rkey r) (Some r); Ok (false, with_qm m t).

Definition qmanager_read_checking t r : res bool := '(b, _) ← rb_find_str (qm_mem t) (qmanager t) (rkey r); Ok b.

Definition qmanager_delete t r : res (bool * processor) :=
  '(b, finding) ← rb_find_str (qm_mem t) (qmanager t) (rkey r);
  if b : bool then m ← rb_delete (qm_mem t) finding false; Ok (true, with_qm m t) else Err Aborted.

(** The code takes no lock here; the tree is read in one step. *)
Definition qmanager_find_by_algo t (key : str_key) : res (option request) :=
  '(b, finding) ← rb_find_str (qm_mem t) (qmanager t) key;
  if b : bool then rd item (qm_mem t) finding else Ok None.

(** ** The threads *)

(** Where a client is in [assign_req]: at the top of the loop, before the [q_enqueue] of a write
    or of another request, before [cl_release] *)
Inductive apc := AStart | AEnqW | AEnqR | ARelease.
#[global] Instance apc_eq_dec : EqDecision apc.
Proof. solve_decision. Defined.

(** Where the main thread is: before [cl_grap]; in [get_next_request] before the [q_dequeue] of
    [retry_q], of [req_rq], before the test of [write_stop], before the [q_dequeue] of [req_q], before
    [qmanager_delete]; with no request; with the request it hands over *)
Inductive cpc := CGrab | CRetry | CRead | CStop | CWrite | CDelete (r : request) | CNone | CHave (r : request).

(** [made] has the addresses of all requests that clients made, [out] the requests that the translation layer has,
    [ended] those whose [end_req] was called. *)
Record host := Host { pr : processor; flying : cl_lock; inf_cond : cl_lock; write_stop : bool;
  producers : list (request * apc); consumer : cpc; out : list request; ended : list request; made : list Z }.

Definition inf_init (junk : str_key) : host :=
  let '(m, rb) := rb_create ∅ junk in
  Host (Proc (fifo_init QSIZE) (fifo_init QSIZE) (fifo_init QSIZE) m rb) (cl_init QDEPTH false) (cl_init QDEPTH true) false [] CGrab [] [] [].

(** [inf_end_req] of a request that is done *)
Definition end_req (h : host) r : host :=
  Host (pr h) (cl_release (flying h)) (inf_cond h) (write_stop h) (producers h) (consumer h) (out h) (ended h ++ [r]) (made h).
Definition with_pr t (h : host) : host :=
  Host t (flying h) (inf_cond h) (write_stop h) (producers h) (consumer h) (out h) (ended h) (made h).
Definition with_producers ps (h : host) : host :=
  Host (pr h) (flying h) (inf_cond h) (write_stop h) ps (consumer h) (out h) (ended h) (made h).
Definition with_cond c (h : host) : host :=
  Host (pr h) (flying h) c (write_stop h) (producers h) (consumer h) (out h) (ended h) (made h).
Definition with_consumer c (h : host) : host :=
  Host (pr h) (flying h) (inf_cond h) (write_stop h) (producers h) c (out h) (ended h) (made h).
Definition with_stop b (h : host) : host :=
  Host (pr h) (flying h) (inf_cond h) b (producers h) (consumer h) (out h) (ended h) (made h).
Definition with_out o (h : host) : host :=
  Host (pr h) (flying h) (inf_cond h) (write_stop h) (producers h) (consumer h) o (ended h) (made h).

(** [assign_req]: the client goes on from [pc] to the next lock. [h] has the other clients. *)
Definition assign_req (h : host) r (pc : apc) : res host :=
  let go pc h := with_producers ((r, pc) :: producers h) h in
  match pc with
  | AStart =>
    if rtype r =? FS_SET_T then
      '(b, t) ← qmanager_write_checking (pr h) r;
      Ok (if b : bool then end_req (with_pr t h) r else go AEnqW (with_pr t h))
    else if rtype r =? FS_GET_T then
      b ← qmanager_read_checking (pr h) r;
      Ok (if b : bool then end_req h (if negb (isstart r) then set_type_ftl 10 r else r) else go AEnqR h)
    else Ok (go AEnqR h)
  | AEnqW => '(b, q) ← fifo_enqueue r (req_q (pr h)); Ok (go (if b : bool then ARelease else AStart) (with_pr (with_req_q q (pr h)) h))
  | AEnqR => '(b, q) ← fifo_enqueue r (req_rq (pr h)); Ok (go (if b : bool then ARelease else AStart) (with_pr (with_req_rq q (pr h)) h))
  | ARelease => Ok (with_cond (cl_release (inf_cond h)) h)
  end.

(** [get_next_request] and [p_main]. [force] stands for [force_write_start || sync_apps], [stop] for
    the answer of [algo->write]. *)
Definition main_step (h : host) (force stop : bool) : res (option host) :=
  match consumer h with
  | CGrab => Ok (c ← cl_grap (inf_cond h); Some (with_consumer CRetry (with_cond c h)))
  | CRetry =>
    let h := if force || (write_stop h && (fifo_size (req_q (pr h)) =? QDEPTH)) then with_stop false h else h in
    '(o, q) ← fifo_dequeue (retry_q (pr h));
    Ok (Some (with_consumer (match o with Some r => CHave r | None => CRead end) (with_pr (with_retry_q q (pr h)) h)))
  | CRead =>
    '(o, q) ← fifo_dequeue (req_rq (pr h));
    Ok (Some (with_consumer (match o with Some r => CHave r | None => CStop end) (with_pr (with_req_rq q (pr h)) h)))
  | CStop => Ok (Some (with_consumer (if negb (fifo_size (retry_q (pr h)) =? 0) || write_stop h then CNone else CWrite) h))
  | CWrite =>
    '(o, q) ← fifo_dequeue (req_q (pr h));
    Ok (Some (with_consumer (match o with Some r => CDelete r | None => CNone end) (with_pr (with_req_q q (pr h)) h)))
  | CDelete r => '(_, t) ← qmanager_delete (pr h) r; Ok (Some (with_consumer (CHave r) (with_pr t h)))
  | CNone => Ok (Some (with_consumer CGrab (with_cond (cl_release (inf_cond h)) h)))
  | CHave r =>
    let r := set_isstart true r in
    let h := with_consumer CGrab h in
    Ok (Some (if bool_decide (rtype r ∈ handed_types) then with_out (out h ++ [r]) (if rtype r =? FS_SET_T then with_stop stop h else h)
              else end_req h r))
  end.

(** [inf_end_req], called by the translation layer: a read-modify-write becomes a write. [v] is the value that was
    read, with the new bytes copied into it. *)
Definition inf_end_req (h : host) r (v : V) : host :=
  if rtype r =? FS_RMW_T then with_producers ((to_write v r, AStart) :: producers h) h else end_req h r.

(** [inf_assign_try], up to its [cl_release] *)
Definition inf_assign_try (h : host) r : res (bool * host) :=
  '(b, q) ← fifo_enqueue r (retry_q (pr h));
  let h := with_pr (with_retry_q q (pr h)) h in
  Ok (if b : bool then (true, with_producers ((r, ARelease) :: producers h) h) else (false, h)).

(** [inf_make_req]: a client that makes a request. [inf_make_mreq_apps] and
    [inf_iter_req_apps], which call [assign_req] without [cl_grap], have no callers in the
    repository and are not modelled. *)
Definition inf_make_req (h : host) r : option host :=
  c ← cl_grap (flying h);
  Some (Host (pr h) c (inf_cond h) (write_stop h) ((set_isstart false r, AStart) :: producers h) (consumer h) (out h) (ended h) (rid r :: made h)).

Inductive label := LMake (r : request) | LAssign (i : nat) | LMain (force stop : bool) | LEnd (i : nat) (v : V) | LRetry (i : nat) | LUnstop.

(** One step of a thread; [None] when it waits or there is no such thread. *)
Definition hstep (h : host) (l : label) : res (option host) :=
  match l with
  | LMake r => Ok (inf_make_req h r)
  | LAssign i =>
    match producers h !! i with
    | Some (r, pc) => h ← assign_req (with_producers (delete i (producers h)) h) r pc; Ok (Some h)
    | None => Ok None
    end
  | LMain force stop => main_step h force stop
  | LEnd i v => Ok (r ← out h !! i; Some (inf_end_req (with_out (delete i (out h)) h) r v))
  | LRetry i =>
    match out h !! i with
    | Some r => '(b, h') ← inf_assign_try h r; Ok (Some (if b : bool then with_out (delete i (out h')) h' else h'))
    | None => Ok None
    end
  | LUnstop => Ok (Some (with_stop false h))
  end.
Fixpoint hrun (h : host) (ls : list label) : res host :=
  match ls with [] => Ok h | l :: ls => o ← hstep h l; hrun (default h o) ls end.

(** ** The tree *)

(** The tree has exactly the writes [l], one for each key. *)
Definition by_key (l : list request) : gmap str_key request := list_to_map ((λ r, (rkey r, r)) <$> l).
Definition tree_ok t (l : list request) : Prop := NoDup (rkey <$> l) ∧ holds KEYCMP key_wf (qm_mem t) (qmanager t) (Some <$> by_key l).

Lemma by_key_keys l : ((λ r, (rkey r, r)) <$> l).*1 = rkey <$> l.
Proof. by rewrite <-list_fmap_compose. Qed.
Lemma by_key_None l k : by_key l !! k = None ↔ k ∉ rkey <$> l.
Proof. unfold by_key. rewrite <-by_key_keys. split; [apply not_elem_of_list_to_map_2|apply not_elem_of_list_to_map_1]. Qed.
Lemma tree_ok_perm t l l' : l ≡ₚ l' → tree_ok t l → tree_ok t l'.
Proof.
  intros HP [Hnd Hh]. split; [by rewrite <-HP|]. replace (by_key l') with (by_key l); [done|]. unfold by_key. apply list_to_map_proper; [by rewrite by_key_keys|by rewrite HP].
Qed.

Lemma find_pending t l k : tree_ok t l → key_wf k →
  match by_key l !! k with
  | Some r => ∃ x, rb_find_str (qm_mem t) (qmanager t) k = Ok (true, x) ∧ rd item (qm_mem t) x = Ok (Some r) ∧
      ∃ m', rb_delete (qm_mem t) x false = Ok m' ∧ holds KEYCMP key_wf m' (qmanager t) (Some <$> delete k (by_key l))
  | None => rb_find_str (qm_mem t) (qmanager t) k = Ok (false, qmanager t)
  end.
Proof.
  intros [Hnd Hh] Hk. rewrite (rb_find_str_Ok _ _ _ k Hh Hk). pose proof (holds_find KEYCMP key_wf _ _ _ k Hh Hk) as Hf. rewrite lookup_fmap in Hf. destruct (by_key l !! k) as [r|]; cbn in Hf; [|done].
  destruct Hf as (x & E & Hx & Hd). exists x. split; [done|]. split; [done|]. rewrite fmap_delete. apply Hd.
Qed.

Lemma write_check_Ok t l r : tree_ok t l → key_wf (rkey r) →
  (rkey r ∈ rkey <$> l ∧ qmanager_write_checking t r = Ok (true, t)) ∨ (∃ m, qmanager_write_checking t r = Ok (false, with_qm m t) ∧ tree_ok (with_qm m t) (r :: l)).
Proof.
  intros Ht Hk. pose proof (find_pending t l _ Ht Hk) as Hf. unfold qmanager_write_checking. destruct (by_key l !! rkey r) as [r'|] eqn:E.
  - left. destruct Hf as (x & -> & _). rbind. split; [|done]. destruct (decide (rkey r ∈ rkey <$> l)) as [|Hn]; [done|]. apply by_key_None in Hn. congruence.
  - right. rewrite Hf. rbind. destruct Ht as [Hnd Hh]. destruct (holds_insert KEYCMP key_wf _ _ _ (rkey r) (Some r) Hh Hk) as (m & x & E' & Hm); [by rewrite lookup_fmap, E|]. unfold rb_insert_str. rewrite E'. rbind. exists m. split; [done|].
    apply by_key_None in E. split; [by apply NoDup_cons|]. cbn. unfold by_key in *. cbn. by rewrite fmap_insert.
Qed.
Lemma read_check_Ok t l r : tree_ok t l → key_wf (rkey r) → qmanager_read_checking t r = Ok (bool_decide (rkey r ∈ rkey <$> l)).
Proof.
  intros Ht Hk. pose proof (find_pending t l _ Ht Hk) as Hf. unfold qmanager_read_checking. destruct (by_key l !! rkey r) as [r'|] eqn:E.
  - destruct Hf as (x & -> & _). rbind. rewrite bool_decide_true; [done|]. destruct (decide (rkey r ∈ rkey <$> l)) as [|Hn]; [done|]. apply by_key_None in Hn. congruence.
  - rewrite Hf. rbind. rewrite bool_decide_false; [done|]. by apply by_key_None.
Qed.
Lemma qm_delete_Ok t l r : tree_ok t (r :: l) → key_wf (rkey r) → ∃ m, qmanager_delete t r = Ok (true, with_qm m t) ∧ tree_ok (with_qm m t) l.
Proof.
  intros Ht Hk. pose proof (find_pending t _ _ Ht Hk) as Hf. unfold qmanager_delete, by_key in *. cbn in Hf. rewrite lookup_insert_eq in Hf. destruct Hf as (x & E1 & _ & m & E2 & Hm). rewrite E1. rbind. rewrite E2. rbind. exists m. split; [done|]. destruct Ht as [Hnd _]. cbn in Hnd. apply NoDup_cons in Hnd as [Hn Hnd].
  split; [done|]. cbn. fold (by_key l) in Hm |- *. by rewrite delete_insert_id in Hm by (by apply by_key_None).
Qed.
Lemma find_by_algo_Ok t l k : tree_ok t l → key_wf k → qmanager_find_by_algo t k = Ok (by_key l !! k).
Proof.
  intros Ht Hk. pose proof (find_pending t l _ Ht Hk) as Hf. unfold qmanager_find_by_algo. destruct (by_key l !! k) as [r'|] eqn:E; [destruct Hf as (x & E1 & E2 & _); rewrite E1; rbind; by rewrite E2|by rewrite Hf].
Qed.

(** ** The invariant *)

Definition at_pc (pc : apc) (ps : list (request * apc)) : list request := fst <$> filter (λ x, x.2 = pc) ps.

Lemma at_pc_same pc r ps : at_pc pc ((r, pc) :: ps) = r :: at_pc pc ps.
Proof. unfold at_pc. by rewrite filter_cons_True. Qed.
Lemma at_pc_other pc r pc' ps : pc' ≠ pc → at_pc pc ((r, pc') :: ps) = at_pc pc ps.
Proof. intros Hne. unfold at_pc. by rewrite filter_cons_False. Qed.
#[global] Instance at_pc_proper pc : Proper (Permutation ==> Permutation) (at_pc pc).
Proof. intros ps ps' H. unfold at_pc. by rewrite H. Qed.

(** The requests the main thread holds, the write it has taken out of [req_q] but not out of the tree, and
    the wake-up it has used but not found a request for *)
Definition held (c : cpc) : list request := match c with CDelete r | CHave r => [r] | _ => [] end.
Definition leaving (c : cpc) : list request := match c with CDelete r => [r] | _ => [] end.
Definition token (c : cpc) : Z := match c with CRetry | CRead | CStop | CWrite | CNone => 1 | _ => 0 end.

(** The queues have the writes [wq], the other requests [rq] and the requests [yq] that are tried again. *)
Definition waiting (ps : list (request * apc)) : list request := at_pc AStart ps ++ at_pc AEnqW ps ++ at_pc AEnqR ps.
Definition live (h : host) wq rq yq : list request := waiting (producers h) ++ wq ++ rq ++ yq ++ held (consumer h) ++ out h.
Definition pending (h : host) wq : list request := at_pc AEnqW (producers h) ++ wq ++ leaving (consumer h).

Record hinv (h : host) (wq rq yq : list request) : Prop := Hinv {
  hi_wq : fifo_repr (req_q (pr h)) QSIZE wq;
  hi_rq : fifo_repr (req_rq (pr h)) QSIZE rq;
  hi_yq : fifo_repr (retry_q (pr h)) QSIZE yq;
  (** every request made is with one owner, or was ended once *)
  hi_conserved : made h ≡ₚ rid <$> ended h ++ live h wq rq yq;
  hi_flying : flying h = Cl false QDEPTH (Z.of_nat (length (live h wq rq yq)));
  hi_bound : Z.of_nat (length (live h wq rq yq)) <= QDEPTH;
  (** the tree has the writes that wait, one for each key *)
  hi_keys : Forall (λ r, key_wf (rkey r)) (live h wq rq yq);
  hi_tree : tree_ok (pr h) (pending h wq);
  (** every request in a queue has its wake-up, which is there, about to come, or being used *)
  hi_tokens : zero_lock (inf_cond h) = true ∧ 0 <= now (inf_cond h) ∧
    now (inf_cond h) + Z.of_nat (length (at_pc ARelease (producers h))) + token (consumer h) = Z.of_nat (length wq + length rq + length yq);
}.

Lemma hinv_init junk : hinv (inf_init junk) [] [] [].
Proof.
  unfold inf_init. pose proof (holds_create KEYCMP key_wf (V:=request) ∅ junk) as Hh. destruct (rb_create ∅ junk) as [m rb].
  constructor; cbn; try (by apply fifo_init_spec); try done. split; [constructor|]. unfold by_key. cbn. by rewrite fmap_empty.
Qed.

(** The order of the clients and of the requests the translation layer has does not matter. *)
Lemma hinv_perm h wq rq yq ps o : producers h ≡ₚ ps → out h ≡ₚ o → hinv h wq rq yq → hinv (with_out o (with_producers ps h)) wq rq yq.
Proof.
  intros Hp Ho [H1 H2 H3 Hc Hf Hb Hk Ht Htok].
  assert (HL : live h wq rq yq ≡ₚ live (with_out o (with_producers ps h)) wq rq yq) by (unfold live, waiting; cbn; by rewrite Hp, Ho).
  assert (HP : pending h wq ≡ₚ pending (with_out o (with_producers ps h)) wq) by (unfold pending; cbn; by rewrite Hp).
  constructor; try done; cbn -[live]; [by rewrite <-HL|by rewrite <-HL|by rewrite <-HL|by rewrite <-HL|by eapply tree_ok_perm|by rewrite <-Hp].
Qed.

Ltac hcbn := unfold live, pending, waiting in *; cbn [pr flying inf_cond write_stop producers consumer out ended made with_pr with_producers with_cond with_consumer with_stop with_out end_req
  req_q retry_q req_rq qm_mem qmanager with_req_q with_retry_q with_req_rq with_qm held leaving token app cl_release zero_lock cnt now mbind option_bind from_option id] in *; rewrite ?at_pc_same, ?at_pc_other in * by done.
(** The parts of the invariant that only count and permute requests *)
Ltac hlen := repeat first [progress rewrite ?length_app in * | progress cbn [length] in *]; lia.
Ltac hpart :=
  match goal with
  | Hc : ?ma ≡ₚ rid <$> _ |- _ ≡ₚ rid <$> _ => rewrite Hc; repeat first [rewrite fmap_app | rewrite fmap_cons | rewrite fmap_nil]; cbn [rid set_type_ftl set_isstart to_write]; solve_Permutation
  | |- _ = Cl _ _ _ => unfold cl_release; cbn [zero_lock cnt now]; f_equal; hlen
  | Ht : tree_ok ?t ?l |- tree_ok _ _ => first [exact Ht | eapply tree_ok_perm; [|exact Ht]; solve_Permutation]
  | |- Forall _ _ => repeat first [rewrite Forall_app in * | rewrite Forall_cons in * | rewrite Forall_nil in *]; cbn [rkey set_type_ftl set_isstart to_write] in *; tauto
  | |- _ ∧ _ => split; [done|]; hlen
  | |- _ <= _ => hlen
  | _ => assumption
  end.

Lemma assign_step_Ok h wq rq yq r pc ps : hinv h wq rq yq → producers h = (r, pc) :: ps →
  ∃ h' wq' rq', assign_req (with_producers ps h) r pc = Ok h' ∧ hinv h' wq' rq' yq.
Proof.
  intros [H1 H2 H3 Hc Hf Hb Hk Ht (Hz & Hnow & Htok)] Hps. destruct h as [t fl [zl cn nw] ws pd co ou en ma]. cbn in Hps, Hz. subst pd zl. hcbn. subst fl.
  destruct pc; cbn [assign_req]; hcbn.
  - assert (Hrk : key_wf (rkey r)) by (repeat first [rewrite Forall_app in Hk | rewrite Forall_cons in Hk]; tauto). destruct (rtype r =? FS_SET_T).
    + destruct (write_check_Ok t _ r Ht Hrk) as [[_ E]|(m & E & Ht')]; rewrite E; rbind; eexists _, wq, rq; (split; [done|]); constructor; hcbn; hpart.
    + destruct (rtype r =? FS_GET_T).
      * rewrite (read_check_Ok t _ r Ht Hrk). rbind. destruct (bool_decide _); eexists _, wq, rq; (split; [done|]); constructor; hcbn; destruct (isstart r); cbn [negb]; hpart.
      * eexists _, wq, rq; (split; [done|]); constructor; hcbn; hpart.
  - assert (Hlen : Z.of_nat (length wq) < QSIZE) by (unfold QDEPTH, QSIZE in *; hlen). destruct (fifo_enqueue_spec _ _ _ r H1 Hlen) as (q & E & Hq). rewrite E. rbind. eexists _, (wq ++ [r]), rq; (split; [done|]); constructor; hcbn; hpart.
  - assert (Hlen : Z.of_nat (length rq) < QSIZE) by (unfold QDEPTH, QSIZE in *; hlen). destruct (fifo_enqueue_spec _ _ _ r H2 Hlen) as (q & E & Hq). rewrite E. rbind. eexists _, wq, (rq ++ [r]); (split; [done|]); constructor; hcbn; hpart.
  - eexists _, wq, rq; (split; [done|]); constructor; hcbn; hpart.
Qed.

Lemma main_step_Ok h wq rq yq force stop : hinv h wq rq yq → ∃ o wq' rq' yq', main_step h force stop = Ok o ∧ hinv (default h o) wq' rq' yq'.
Proof.
  intros Hi. pose proof Hi as [H1 H2 H3 Hc Hf Hb Hk Ht (Hz & Hnow & Htok)]. destruct h as [t fl [zl cn nw] ws ps co ou en ma]. cbn in Hz. subst zl. unfold main_step. destruct co; hcbn; subst fl.
  - unfold cl_grap. cbn [zero_lock now cnt]. destruct (Z.eqb_spec nw 0); eexists _, wq, rq, yq; (split; [done|]); [exact Hi|]. constructor; hcbn; hpart.
  - set (b := force || _). destruct yq as [|x yq].
    + assert (E : fifo_dequeue (retry_q t) = Ok (None, retry_q t)) by (by eapply fifo_dequeue_empty). destruct b; cbn [with_stop pr]; rewrite E; rbind; eexists _, wq, rq, []; (split; [done|]); constructor; hcbn; hpart.
    + destruct (fifo_dequeue_spec _ _ _ _ H3) as (q & E & Hq). destruct b; cbn [with_stop pr]; rewrite E; rbind; eexists _, wq, rq, yq; (split; [done|]); constructor; hcbn; hpart.
  - destruct rq as [|x rq].
    + rewrite (fifo_dequeue_empty _ _ H2). rbind. eexists _, wq, [], yq. split; [done|]. constructor; hcbn; hpart.
    + destruct (fifo_dequeue_spec _ _ _ _ H2) as (q & E & Hq). rewrite E. rbind. eexists _, wq, rq, yq. split; [done|]. constructor; hcbn; hpart.
  - eexists _, wq, rq, yq. split; [done|]. destruct (_ || _); constructor; hcbn; hpart.
  - destruct wq as [|x wq].
    + rewrite (fifo_dequeue_empty _ _ H1). rbind. eexists _, [], rq, yq. split; [done|]. constructor; hcbn; hpart.
    + destruct (fifo_dequeue_spec _ _ _ _ H1) as (q & E & Hq). rewrite E. rbind. eexists _, wq, rq, yq. split; [done|]. constructor; hcbn; hpart.
  - assert (Hrk : key_wf (rkey r)) by (repeat first [rewrite Forall_app in Hk | rewrite Forall_cons in Hk]; tauto).
    assert (Ht' : tree_ok t (r :: at_pc AEnqW ps ++ wq)) by hpart. destruct (qm_delete_Ok t _ r Ht' Hrk) as (m & E & Hm). rewrite E. rbind. eexists _, wq, rq, yq. split; [done|]. constructor; hcbn; hpart.
  - eexists _, wq, rq, yq. split; [done|]. constructor; hcbn; hpart.
  - eexists _, wq, rq, yq. split; [done|]. destruct (bool_decide _); [destruct (rtype _ =? _)|]; constructor; hcbn; hpart.
Qed.

Lemma end_req_Ok h wq rq yq r o v : hinv h wq rq yq → out h = r :: o → hinv (inf_end_req (with_out o h) r v) wq rq yq.
Proof.
  intros [H1 H2 H3 Hc Hf Hb Hk Ht (Hz & Hnow & Htok)] Ho. destruct h as [t fl [zl cn nw] ws ps co ou en ma]. cbn in Hz, Ho. subst zl ou. unfold inf_end_req. hcbn. subst fl. destruct (rtype r =? FS_RMW_T); constructor; hcbn; hpart.
Qed.
Lemma retry_Ok h wq rq yq r o : hinv h wq rq yq → out h = r :: o → ∃ h', inf_assign_try h r = Ok (true, h') ∧ hinv (with_out o h') wq rq (yq ++ [r]).
Proof.
  intros [H1 H2 H3 Hc Hf Hb Hk Ht (Hz & Hnow & Htok)] Ho. destruct h as [t fl [zl cn nw] ws ps co ou en ma]. cbn in Hz, Ho. subst zl ou. unfold inf_assign_try. hcbn. subst fl.
  assert (Hlen : Z.of_nat (length yq) < QSIZE) by (unfold QDEPTH, QSIZE in *; hlen). destruct (fifo_enqueue_spec _ _ _ r H3 Hlen) as (q & E & Hq). rewrite E. rbind. eexists. split; [done|]. constructor; hcbn; hpart.
Qed.
Lemma make_Ok h wq rq yq r : hinv h wq rq yq → key_wf (rkey r) → hinv (default h (inf_make_req h r)) wq rq yq.
Proof.
  intros Hi Hr. pose proof Hi as [H1 H2 H3 Hc Hf Hb Hk Ht (Hz & Hnow & Htok)]. unfold inf_make_req. rewrite Hf. unfold cl_grap. cbn [zero_lock now cnt]. destruct (Z.eqb_spec (Z.of_nat (length (live h wq rq yq))) QDEPTH) as [|Hne]; [done|].
  destruct h as [t fl [zl cn nw] ws ps co ou en ma]. cbn in Hz. subst zl. hcbn. subst fl. constructor; hcbn; hpart.
Qed.

Definition label_ok (l : label) : Prop := match l with LMake r => key_wf (rkey r) | _ => True end.

Lemma hstep_Ok h wq rq yq l : hinv h wq rq yq → label_ok l → ∃ o wq' rq' yq', hstep h l = Ok o ∧ hinv (default h o) wq' rq' yq'.
Proof.
  intros Hi Hl. destruct l as [r|i|force stop|i v|i|]; cbn [hstep].
  - eexists _, wq, rq, yq. split; [done|]. by apply make_Ok.
  - destruct (producers h !! i) as [[r pc]|] eqn:Ei; [|by eexists None, wq, rq, yq].
    pose proof (hinv_perm h wq rq yq ((r, pc) :: delete i (producers h)) (out h) (delete_Permutation _ _ _ Ei) (Permutation_refl _) Hi) as Hi'. destruct (assign_step_Ok _ _ _ _ r pc (delete i (producers h)) Hi' eq_refl) as (h' & wq' & rq' & E & Hh).
    assert (E' : assign_req (with_producers (delete i (producers h)) h) r pc = Ok h') by (rewrite <-E; by destruct h). rewrite E'. rbind. by exists (Some h'), wq', rq', yq.
  - by apply (main_step_Ok h wq rq yq).
  - destruct (out h !! i) as [r|] eqn:Ei; [|by eexists None, wq, rq, yq]. eexists _, wq, rq, yq. split; [done|].
    pose proof (hinv_perm h wq rq yq (producers h) (r :: delete i (out h)) (Permutation_refl _) (delete_Permutation _ _ _ Ei) Hi) as Hi'. pose proof (end_req_Ok _ _ _ _ r (delete i (out h)) v Hi' eq_refl) as H. by destruct h.
  - destruct (out h !! i) as [r|] eqn:Ei; [|by eexists None, wq, rq, yq].
    pose proof (hinv_perm h wq rq yq (producers h) (r :: delete i (out h)) (Permutation_refl _) (delete_Permutation _ _ _ Ei) Hi) as Hi'. destruct (retry_Ok _ _ _ _ r (delete i (out h)) Hi' eq_refl) as (h' & E & Hh).
    unfold inf_assign_try in *. destruct h as [t fl ic ws ps co ou en ma]. cbn in *. destruct (fifo_enqueue r (retry_q t)) as [[b q]|] eqn:Eq; [|done]. cbn in *. destruct b; [|done]. injection E as <-. eexists _, wq, rq, (yq ++ [r]). split; [done|]. exact Hh.
  - eexists _, wq, rq, yq. split; [done|]. destruct h. by destruct Hi.
Qed.

Lemma hrun_Ok ls : ∀ h wq rq yq, hinv h wq rq yq → Forall label_ok ls → ∃ h' wq' rq' yq', hrun h ls = Ok h' ∧ hinv h' wq' rq' yq'.
Proof.
  induction ls as [|l ls IH]; intros h wq rq yq Hi Hls; [by exists h, wq, rq, yq|]. apply Forall_cons in Hls as [Hl Hls]. destruct (hstep_Ok h wq rq yq l Hi Hl) as (o & wq' & rq' & yq' & E & Ho). cbn [hrun]. rewrite E. rbind. by apply (IH _ wq' rq' yq').
Qed.

(** A main thread that waits has nothing to do. *)
Lemma wakes_up h wq rq yq force stop : hinv h wq rq yq → main_step h force stop = Ok None → wq ++ rq ++ yq ≠ [] → at_pc ARelease (producers h) ≠ [].
Proof.
  intros [_ _ _ _ _ _ _ _ (Hz & Hnow & Htok)] E Hne Hrel. rewrite Hrel in Htok. unfold main_step in E. destruct (consumer h); cbn in Htok.
  - unfold cl_grap in E. rewrite Hz in E. destruct (Z.eqb_spec (now (inf_cond h)) 0) as [E0|]; [|done]. destruct wq, rq, yq; cbn in *; try done; lia.
  - destruct (_ || _); cbn in E; destruct (fifo_dequeue _) as [[[] ?]|]; done.
  - destruct (fifo_dequeue _) as [[[] ?]|]; done.
  - done.
  - destruct (fifo_dequeue _) as [[[] ?]|]; done.
  - destruct (qmanager_delete _ _) as [[]|]; done.
  - done.
  - done.
Qed.


(** C34: a write is dropped while another write of its key waits. In every reachable state, when a client brings a write and [qmanager]
    has a write of the same key, the new request is ended at once: it is in no queue, the tree still has the old request, and
    the translation layer is never given the new value. *)
Theorem second_write_is_dropped junk ls h i r r' : Forall label_ok ls → hrun (inf_init junk) ls = Ok h →
  producers h !! i = Some (r, AStart) → rtype r = FS_SET_T → qmanager_find_by_algo (pr h) (rkey r) = Ok (Some r') →
  ∃ h', hstep h (LAssign i) = Ok (Some h') ∧ ended h' = ended h ++ [r] ∧ pr h' = pr h ∧ out h' = out h ∧ producers h' = delete i (producers h).
Proof.
  intros Hls Hrun Hi Hset Hfind. destruct (hrun_Ok ls _ _ _ _ (hinv_init junk) Hls) as (h0 & wq & rq & yq & E & [_ _ _ _ _ _ Hk Ht _]). rewrite Hrun in E. injection E as <-.
  assert (Hrk : key_wf (rkey r)).
  { rewrite Forall_forall in Hk. apply (Hk r). unfold live, waiting. rewrite (delete_Permutation _ _ _ Hi), at_pc_same. set_solver. }
  rewrite (find_by_algo_Ok _ _ _ Ht Hrk) in Hfind. injection Hfind as Hfind. pose proof (find_pending _ _ _ Ht Hrk) as Hf. rewrite Hfind in Hf. destruct Hf as (x & E & _).
  cbn [hstep]. rewrite Hi. cbn [assign_req]. rewrite Hset, Z.eqb_refl. cbn [pr with_producers]. unfold qmanager_write_checking. rewrite E. rbind. eexists. split; [done|]. done.
Qed.

End host.

(** Two writes of a key and a read of another: the second write is ended while the first waits. *)
Definition sample_req (i ty k v : Z) : request Z := Req i ty (Key 1 [k]) v false 0.
Definition sample_labels : list (label (V:=Z)) :=
  [LMake (sample_req 1 1 7 100); LAssign 0; LAssign 0; LAssign 0; LMake (sample_req 2 2 8 0); LAssign 0; LMake (sample_req 3 1 7 200)].
Definition sample_host : host (V:=Z) (Q:=Queue.queue (request Z)) :=
  match hrun (inf_init (Key 0 [])) sample_labels with Ok h => h | Err _ => inf_init (Key 0 []) end.


Lemma second_write_is_dropped_witness : ∃ h', hstep sample_host (LAssign 0) = Ok (Some h') ∧ ended h' = ended sample_host ++ [sample_req 3 1 7 200] ∧ pr h' = pr sample_host ∧ out h' = out sample_host ∧ producers h' = delete 0%nat (producers sample_host).
Proof.
  apply (second_write_is_dropped (Key 0 []) sample_labels sample_host 0 (sample_req 3 1 7 200) (sample_req 1 1 7 100)).
  - repeat constructor; cbn; lia.
  - vm_compute. reflexivity.
  - vm_compute. reflexivity.
  - reflexivity.
  - vm_compute. reflexivity.
Defined.

End HostQueue.
