(* ===== verification/BlockInventory.v ===== *)
(** * The inventory of the block manager

    Which blocks are free, which can be collected, and which are out of both
    (the reserve segment, and the victims of a running collection): the
    operations of [BlockManager] move blocks between these pools and never lose
    or duplicate one. The moves are proved once, and the operations that take
    and give back segments are shown to be built from them. *)
From stdpp Require Import functions.
From S2P Require Export Prelude Settings Queue MaxHeap BadBlock Lower PosixMemory BlockManager.
Import BlockManager.

Local Open Scope Z_scope.

Module Inventory.
Section inventory.
Context `{Sg : Settings, !SettingsOk Sg} {Q Mp : Type} `{!FIFO Z Q} `{!IntMap loc Mp}.
Implicit Types (p : bbm_pri Q Mp) (c : channel Q) (F H O : nat → list Z).

(** ** Pools *)

(** Channel [c] has the free blocks [fs], oldest first, and the collectable
    blocks [hs] in its heap. *)
Definition chan_ok c (fs hs : list Z) : Prop :=
  fifo_repr (free_block c) _NOS fs ∧ MaxHeap.wf (max_heap c) (length hs) ∧
  MaxHeap.max (max_heap c) = _NOS ∧ MaxHeap.elems (MaxHeap.body (max_heap c)) ≡ₚ hs.

(** The three pools of each channel make up its blocks: free, collectable, out. *)
Definition inv p F H O : Prop :=
  blocks_wf (base_block p) ∧ length (base_channel p) = 64%nat ∧
  ∀ i, (i < 64)%nat → ∃ c, base_channel p !! i = Some c ∧ chan_ok c (F i) (H i) ∧
    F i ++ H i ++ O i ≡ₚ chan_blocks i.

(** Only the back pointers into the heaps differ. *)
Definition same_but_hptr (bs bs' : blocks) : Prop :=
  ca_len bs' = ca_len bs ∧ ∀ k, set_hptr None (ca_at bs' k) = set_hptr None (ca_at bs k).

(** Only channels and back pointers differ. *)
Definition chan_frame p p' : Prop :=
  same_but_hptr (base_block p) (base_block p') ∧ seg_map p' = seg_map p ∧
  seg_map_idx p' = seg_map_idx p ∧ segs p' = segs p.

Lemma same_but_hptr_refl bs : same_but_hptr bs bs.
Proof. done. Qed.

Lemma same_but_hptr_trans bs1 bs2 bs3 :
  same_but_hptr bs1 bs2 → same_but_hptr bs2 bs3 → same_but_hptr bs1 bs3.
Proof. intros [? E1] [? E2]. split; [congruence|]. intros k. by rewrite E2. Qed.

Lemma chan_frame_trans p1 p2 p3 : chan_frame p1 p2 → chan_frame p2 p3 → chan_frame p1 p3.
Proof.
  intros (? & ? & ? & ?) (? & ? & ? & ?). split_and!; try congruence.
  by eapply same_but_hptr_trans.
Qed.

Lemma hptr_fields b b' :
  set_hptr None b' = set_hptr None b →
  punit_num b' = punit_num b ∧ block_num b' = block_num b ∧ now b' = now b ∧ bitset b' = bitset b ∧
  invalid_number b' = invalid_number b ∧ seg_idx b' = seg_idx b ∧ oob_list b' = oob_list b.
Proof. unfold set_hptr. intros [=]. by split_and!. Qed.

Lemma same_hptr_wf bs bs' : same_but_hptr bs bs' → blocks_wf bs → blocks_wf bs'.
Proof.
  intros [Hl Hs] [Hlen Hw]. split; [congruence|]. intros k Hk.
  destruct (hptr_fields _ _ (Hs k)) as (E1 & E2 & E3 & E4 & E5 & _ & E7).
  unfold block_wf. rewrite E1, E2, E3, E4, E5, E7. by apply Hw.
Qed.

Lemma same_hptr_upd bs k v : same_but_hptr bs (ca_upd bs k (set_hptr v (ca_at bs k))).
Proof. split; [done|]. intros j. rewrite ca_at_upd. by case_decide; subst. Qed.

Lemma swap_same bs a b s : same_but_hptr bs s → same_but_hptr bs (base_mh_swap_hptr a b s).
Proof.
  intros Hs. unfold base_mh_swap_hptr. eapply same_but_hptr_trans; [done|].
  eapply same_but_hptr_trans; [apply same_hptr_upd|]. apply same_hptr_upd.
Qed.

Lemma swap_keys a b s d : base_get_cnt (base_mh_swap_hptr a b s) d = base_get_cnt s d.
Proof. unfold base_get_cnt. by apply hptr_fields, (swap_same s a b s). Qed.

Lemma assign_keys x i s d : base_get_cnt (base_mh_assign_hptr x i s) d = base_get_cnt s d.
Proof. unfold base_get_cnt. by apply hptr_fields, (same_hptr_upd s x (Some i)). Qed.

(** ** The blocks of a channel *)

Lemma NOB_BPS : _NOB / BPS = _NOS.
Proof. unfold _NOB. rewrite Z.mul_comm. by apply Z.div_mul. Qed.

Lemma chan_blocks_length i : length (chan_blocks i) = Z.to_nat _NOS.
Proof. unfold chan_blocks. by rewrite length_fmap, length_seq, NOB_BPS. Qed.

Lemma elem_of_chan_blocks i k : (i < 64)%nat →
  k ∈ chan_blocks i ↔ 0 <= k < NBLOCKS ∧ k mod 64 = Z.of_nat i.
Proof.
  intros Hi. unfold chan_blocks. rewrite list_elem_of_fmap, NOB_BPS. unfold NBLOCKS.
  change BPS with 64. change PUNIT with 64. rewrite (Z.mod_small (Z.of_nat i)) by lia. split.
  - intros (j & -> & Hj%elem_of_seq). split; [lia|].
    rewrite Z.add_comm, Z.add_0_l, Z.mod_add, Z.mod_small by lia. done.
  - intros [Hk Hm]. exists (Z.to_nat (k / 64)). rewrite elem_of_seq.
    Z.to_euclidean_division_equations. lia.
Qed.

Lemma NoDup_chan_blocks i : NoDup (chan_blocks i).
Proof.
  unfold chan_blocks. apply NoDup_fmap_2; [|apply NoDup_seq]. intros a b. change BPS with 64. lia.
Qed.

Lemma inv_chan p F H O i : inv p F H O → (i < 64)%nat →
  NoDup (F i ++ H i ++ O i) ∧
  (∀ k, k ∈ F i ++ H i ++ O i ↔ 0 <= k < NBLOCKS ∧ k mod 64 = Z.of_nat i) ∧
  Z.of_nat (length (F i) + length (H i) + length (O i)) = _NOS.
Proof.
  intros (_ & _ & Hc) Hi. destruct (Hc i Hi) as (c & _ & _ & Hp). split_and!.
  - rewrite Hp. apply NoDup_chan_blocks.
  - intros k. rewrite Hp. by apply elem_of_chan_blocks.
  - apply Permutation_length in Hp. rewrite !length_app, chan_blocks_length in Hp.
    pose proof NOS_range. lia.
Qed.

(** Replace one channel and the pools of that channel. *)
Lemma inv_upd p p' F H O i c' fs hs os :
  inv p F H O → (i < 64)%nat → blocks_wf (base_block p') →
  base_channel p' = <[i := c']> (base_channel p) → chan_ok c' fs hs →
  fs ++ hs ++ os ≡ₚ F i ++ H i ++ O i →
  inv p' (<[i := fs]> F) (<[i := hs]> H) (<[i := os]> O).
Proof.
  intros (_ & Hl & Hc) Hi Hwf' Ech Hok Hp. split; [done|]. split; [by rewrite Ech, length_insert|].
  intros j Hj. rewrite Ech. destruct (Hc j Hj) as (c & Ec & Hcj & Hpj).
  destruct (decide (j = i)) as [->|Hne].
  - exists c'. rewrite !fn_lookup_insert. rewrite list_lookup_insert_eq by lia. by rewrite Hp.
  - exists c. rewrite !fn_lookup_insert_ne, list_lookup_insert_ne by done. done.
Qed.

(** ** The four moves *)

Lemma dequeue_move p F H O i x fs :
  inv p F H O → (i < 64)%nat → F i = x :: fs →
  ∃ c q, base_channel p !! i = Some c ∧ fifo_dequeue (free_block c) = Ok (Some x, q) ∧
    inv (with_channels (<[i := Channel q (max_heap c)]> (base_channel p)) p)
      (<[i := fs]> F) (<[i := H i]> H) (<[i := x :: O i]> O).
Proof.
  intros Hinv Hi Ex. pose proof Hinv as (Hwf & _ & Hc). destruct (Hc i Hi) as (c & Ec & (Hf & Hh) & Hp).
  rewrite Ex in Hf. destruct (fifo_dequeue_spec _ _ _ _ Hf) as (q & Eq & Hq).
  exists c, q. split_and!; try done.
  apply (inv_upd p _ F H O i (Channel q (max_heap c))); try done.
  rewrite Ex. simpl. rewrite !app_assoc. by rewrite <-Permutation_middle.
Qed.

Lemma enqueue_move p F H O i x os :
  inv p F H O → (i < 64)%nat → O i ≡ₚ x :: os →
  ∃ c q, base_channel p !! i = Some c ∧ fifo_enqueue x (free_block c) = Ok (true, q) ∧
    inv (with_channels (<[i := Channel q (max_heap c)]> (base_channel p)) p)
      (<[i := F i ++ [x]]> F) (<[i := H i]> H) (<[i := os]> O).
Proof.
  intros Hinv Hi Ex. pose proof Hinv as (Hwf & _ & Hc). destruct (Hc i Hi) as (c & Ec & (Hf & Hh) & Hp).
  destruct (inv_chan _ _ _ _ i Hinv Hi) as (_ & _ & Hn).
  rewrite Ex in Hn. simpl in Hn.
  destruct (fifo_enqueue_spec _ _ _ x Hf) as (q & Eq & Hq); [lia|].
  exists c, q. split_and!; try done.
  apply (inv_upd p _ F H O i (Channel q (max_heap c))); try done.
  rewrite Ex, <-app_assoc. simpl. by rewrite (Permutation_middle (H i) os x).
Qed.

Lemma append_move p F H O i x os :
  inv p F H O → (i < 64)%nat → O i ≡ₚ x :: os →
  ∃ p', heap_append p i x = Ok p' ∧ chan_frame p p' ∧
    inv p' (<[i := F i]> F) (<[i := x :: H i]> H) (<[i := os]> O).
Proof.
  intros Hinv Hi Ex. pose proof Hinv as (Hwf & _ & Hc).
  destruct (Hc i Hi) as (c & Ec & (Hf & Hh & Hm & He) & Hp).
  destruct (inv_chan _ _ _ _ i Hinv Hi) as (_ & _ & Hn). rewrite Ex in Hn. simpl in Hn.
  unfold heap_append. rewrite Ec. cbn [deref]. rbind.
  destruct (MaxHeap.mh_insert_append_spec base_mh_assign_hptr (base_block p) (max_heap c) (length (H i)) x)
    as (h' & -> & Hw & Hm' & He'); [done|lia|]. rbind.
  assert (Hs : same_but_hptr (base_block p) (base_mh_assign_hptr x (S (length (H i))) (base_block p)))
    by apply same_hptr_upd.
  eexists. split; [done|]. split; [by split_and!|].
  apply (inv_upd p _ F H O i (Channel (free_block c) h')); try done.
  - by eapply same_hptr_wf.
  - split_and!; cbn [free_block max_heap]; try done; [congruence|]. by rewrite He', He.
  - rewrite Ex. simpl. by rewrite <-!Permutation_middle.
Qed.

(** Taking the victim: the collectable block with the most invalid pages. *)
Lemma victim_move p F H O i :
  inv p F H O → (i < 64)%nat → H i ≠ [] →
  ∃ c h bs x h' bs', base_channel p !! i = Some c ∧
    MaxHeap.mh_construct base_get_cnt base_mh_swap_hptr (base_block p) (max_heap c) = Ok (h, bs) ∧
    MaxHeap.mh_get_max base_get_cnt base_mh_swap_hptr bs h = Ok (Some x, h', bs') ∧
    same_but_hptr (base_block p) bs' ∧ x ∈ H i ∧
    (∀ y, y ∈ H i → base_get_cnt (base_block p) y <= base_get_cnt (base_block p) x) ∧
    ∃ hs, H i ≡ₚ x :: hs ∧
      inv (with_channels (<[i := Channel (free_block c) h']> (base_channel p)) (with_blocks bs' p))
        (<[i := F i]> F) (<[i := hs]> H) (<[i := x :: O i]> O).
Proof.
  intros Hinv Hi Hne. pose proof Hinv as (Hwf & _ & Hc). pose proof Hwf as [_ Hbw].
  destruct (Hc i Hi) as (c & Ec & (Hf & Hh & Hm & He) & Hp).
  destruct (inv_chan _ _ _ _ i Hinv Hi) as (_ & Hin & _).
  assert (Hkeys : ∀ s b, same_but_hptr (base_block p) s → MaxHeap.elems b ≡ₚ H i → MaxHeap.keys_ok base_get_cnt s b).
  { intros s b Hs Hb. apply MaxHeap.elems_keys. intros d Hd. rewrite Hb in Hd.
    unfold base_get_cnt. destruct (hptr_fields _ _ (proj2 Hs d)) as (_ & _ & _ & _ & -> & _).
    assert (0 <= d < NBLOCKS) by (apply Hin; set_solver). destruct (Hbw d) as (_ & _ & _ & ? & _); [done|lia]. }
  destruct (MaxHeap.mh_construct_spec base_get_cnt base_mh_swap_hptr swap_keys (base_block p) (max_heap c) (length (H i)))
    as (h & bs & E1 & Hw1 & [Hm1 Hbag] & Hk1 & Hok1); [done|by apply Hkeys|].
  assert (Hs1 : same_but_hptr (base_block p) bs)
    by (by apply (MaxHeap.mh_construct_pres _ _ (same_but_hptr (base_block p)) (swap_same _) _ _ _ _ E1)).
  apply MaxHeap.elems_data in Hbag. rewrite He in Hbag.
  destruct (length (H i)) as [|n] eqn:En; [by destruct (H i)|].
  destruct (MaxHeap.mh_get_max_spec base_get_cnt base_mh_swap_hptr swap_keys bs h n)
    as (x & h' & bs' & E2 & Hw2 & Hm2 & He2 & Hk2 & Hmax & _); [done|by apply Hkeys| |].
  { intros m Hm0 c0 a b Hc0 Ha Hb. rewrite !Hk1. by apply (Hok1 m Hm0 c0). }
  assert (Hs2 : same_but_hptr (base_block p) bs')
    by (by apply (MaxHeap.mh_get_max_pres _ _ (same_but_hptr (base_block p)) (swap_same _) _ _ _ _ _ E2)).
  rewrite Hbag in He2.
  exists c, h, bs, x, h', bs'. split_and!; try done.
  - rewrite He2. by left.
  - intros y Hy. rewrite <-!Hk1. apply Hmax. by rewrite Hbag.
  - eexists. split; [done|]. apply (inv_upd p _ F H O i (Channel (free_block c) h')); try done.
    + by eapply same_hptr_wf.
    + split_and!; cbn [free_block max_heap]; try done; [|congruence].
      apply Permutation_length in He2. simpl in He2. by replace (length _) with n by lia.
    + rewrite He2. simpl. by rewrite <-!Permutation_middle.
Qed.

(** ** Segments and their blocks *)

(** The blocks that are not free. *)
Definition live_ok F (lv : gset Z) : Prop :=
  ∀ k, k ∈ lv ↔ 0 <= k < NBLOCKS ∧ k ∉ F (Z.to_nat (k mod 64)).

(** The live blocks of segment number [x]. *)
Definition of_seg p (lv : gset Z) (x : Z) : gset Z :=
  filter (λ k, seg_idx (ca_at (base_block p) k) = x) lv.

(** The segment table counts, for every segment, the blocks given back: a
    segment is in the table until its last block is. [pend] are the blocks
    taken for a segment that is not in the table yet. *)
Definition seg_inv p (lv pend : gset Z) : Prop :=
  0 <= seg_map_idx p ∧
  (∀ k, k ∈ lv → k ∉ pend → ∃ s, im_find (seg_idx (ca_at (base_block p) k)) (seg_map p) = Some s) ∧
  (∀ k, k ∈ pend → k ∈ lv ∧ seg_idx (ca_at (base_block p) k) = seg_map_idx p) ∧
  (∀ x s, im_find x (seg_map p) = Some s → 0 <= x < seg_map_idx p ∧
     ∃ g, segs p !! s = Some g ∧ 0 <= invalid_blocks g < BPS ∧
       invalid_blocks g + Z.of_nat (size (of_seg p lv x)) = BPS) ∧
  (∀ x y s, im_find x (seg_map p) = Some s → im_find y (seg_map p) = Some s → x = y).

Lemma of_seg_frame p p' lv x :
  (∀ k, k ∈ lv → seg_idx (ca_at (base_block p') k) = seg_idx (ca_at (base_block p) k)) →
  of_seg p' lv x = of_seg p lv x.
Proof.
  intros E. unfold of_seg. apply set_eq. intros k. rewrite !elem_of_filter.
  split; intros [? ?]; (split; [|done]); specialize (E k); intuition congruence.
Qed.

(** Steps that leave the table, the segment numbers and the counts alone. *)
Lemma seg_inv_frame p p' lv pend :
  (∀ k, seg_idx (ca_at (base_block p') k) = seg_idx (ca_at (base_block p) k)) →
  seg_map p' = seg_map p → seg_map_idx p' = seg_map_idx p →
  (∀ s g, segs p !! s = Some g → ∃ g', segs p' !! s = Some g' ∧ invalid_blocks g' = invalid_blocks g) →
  seg_inv p lv pend → seg_inv p' lv pend.
Proof.
  intros Es Em Ei Eg (H0 & H1 & H2 & H3 & H4). unfold seg_inv. rewrite Em, Ei.
  split_and!; try done.
  - intros k. rewrite Es. apply H1.
  - intros k. rewrite Es. apply H2.
  - intros x s Hx. destruct (H3 x s Hx) as (? & g & Hg & ? & ?). split; [done|].
    destruct (Eg s g Hg) as (g' & ? & Ein). exists g'. rewrite Ein, (of_seg_frame p p') by done. done.
Qed.

Lemma seg_inv_chan p p' lv pend : chan_frame p p' → seg_inv p lv pend → seg_inv p' lv pend.
Proof.
  intros (Hs & Em & Ei & Eg). apply seg_inv_frame; try done.
  - intros k. apply hptr_fields, Hs.
  - intros s g. rewrite Eg. eauto.
Qed.

(** A free block is taken for the segment under construction. *)
Lemma seg_take p p' lv pend x :
  seg_inv p lv pend → x ∉ lv → 
  (∀ k, seg_idx (ca_at (base_block p') k) =
     if decide (x = k) then seg_map_idx p else seg_idx (ca_at (base_block p) k)) →
  seg_map p' = seg_map p → seg_map_idx p' = seg_map_idx p → segs p' = segs p →
  seg_inv p' (lv ∪ {[x]}) (pend ∪ {[x]}).
Proof.
  intros (H0 & H1 & H2 & H3 & H4) Hx Es Em Ei Eg. unfold seg_inv. rewrite Em, Ei, Eg.
  split_and!; try done.
  - intros k Hk Hkp. assert (k ≠ x) by set_solver. rewrite Es, decide_False by done. apply H1; set_solver.
  - intros k Hk. rewrite Es. case_decide; [set_solver|]. destruct (H2 k) as [? ?]; set_solver.
  - intros y s Hy. destruct (H3 y s Hy) as (Hr & g & Hg & Hi & Hc). split; [done|]. exists g.
    replace (of_seg p' (lv ∪ {[x]}) y) with (of_seg p lv y); [done|].
    apply set_eq. intros k. unfold of_seg. rewrite !elem_of_filter, elem_of_union, elem_of_singleton, Es.
    destruct (decide (x = k)) as [->|]; [|set_solver]. split; [set_solver|]. intros [? ?]. lia.
Qed.

(** The segment under construction enters the table. *)
Lemma seg_close p lv pend r g :
  seg_inv p lv pend → size pend = 64%nat → invalid_blocks g = 0 → segs p !! r = None →
  seg_inv (Bm (base_block p) (base_channel p) (im_insert (seg_map_idx p) r (seg_map p))
             (seg_map_idx p + 1) (<[r := g]> (segs p))) lv ∅.
Proof.
  intros (H0 & H1 & H2 & H3 & H4) Hsz Hg Hr.
  assert (Hnone : im_find (seg_map_idx p) (seg_map p) = None).
  { destruct (im_find _ _) as [s|] eqn:E; [|done]. apply H3 in E as [? _]. lia. }
  assert (Hfind : ∀ j, im_find j (im_insert (seg_map_idx p) r (seg_map p)) =
    if decide (seg_map_idx p = j) then Some r else im_find j (seg_map p)) by (intros; by apply im_find_insert).
  assert (Hnr : ∀ x, im_find x (seg_map p) ≠ Some r).
  { intros x E. apply H3 in E as (_ & g' & E & _). congruence. }
  unfold seg_inv. cbn [base_block seg_map seg_map_idx segs]. split_and!; [lia| |set_solver| |].
  - intros k Hk _. rewrite Hfind. case_decide; [by eauto|]. apply H1; [done|].
    intros Hp. destruct (H2 k Hp) as [_ ?]. congruence.
  - intros x s. rewrite Hfind. case_decide as E.
    + intros [= <-]. subst x. split; [lia|]. exists g. rewrite lookup_insert_eq, Hg.
      change BPS with 64. split_and!; try done.
      replace (of_seg _ lv (seg_map_idx p)) with pend; [lia|].
      apply set_eq. intros k. unfold of_seg. rewrite elem_of_filter. cbn [base_block].
      split; [intros Hk; by destruct (H2 k Hk)|]. intros [Ek Hk].
      destruct (decide (k ∈ pend)) as [|Hn]; [done|]. destruct (H1 k Hk Hn) as [s Hs].
      rewrite Ek in Hs. congruence.
    + intros Hx. destruct (H3 x s Hx) as (? & g' & ? & ? & ?). split; [lia|]. exists g'.
      rewrite lookup_insert_ne by congruence. done.
  - intros x y s. rewrite !Hfind. repeat case_decide; intros Hx Hy; simplify_eq; try done.
    + by destruct (Hnr y).
    + by destruct (Hnr x).
    + by eapply H4.
Qed.

(** A block of segment [s] is given back; the segment leaves the table with its
    last block. *)
Lemma seg_give p p' lv k s g :
  seg_inv p lv ∅ → k ∈ lv → im_find (seg_idx (ca_at (base_block p) k)) (seg_map p) = Some s →
  segs p !! s = Some g →
  (∀ j, seg_idx (ca_at (base_block p') j) = seg_idx (ca_at (base_block p) j)) →
  seg_map_idx p' = seg_map_idx p →
  (if invalid_blocks g + 1 =? BPS
   then seg_map p' = im_delete (seg_idx (ca_at (base_block p) k)) (seg_map p) ∧ segs p' = delete s (segs p)
   else seg_map p' = seg_map p ∧
     ∃ g', invalid_blocks g' = invalid_blocks g + 1 ∧ segs p' = <[s := g']> (segs p)) →
  seg_inv p' (lv ∖ {[k]}) ∅.
Proof.
  intros (H0 & H1 & H2 & H3 & H4) Hk Hs Hg Es Ei Hcase. set (x := seg_idx (ca_at (base_block p) k)) in *.
  assert (Hcnt : ∀ y, Z.of_nat (size (of_seg p' (lv ∖ {[k]}) y)) =
    Z.of_nat (size (of_seg p lv y)) - (if decide (y = x) then 1 else 0)).
  { intros y. rewrite (of_seg_frame p p') by done. unfold of_seg. case_decide as E.
    - assert (Hkx : k ∈ (filter (λ k, seg_idx (ca_at (base_block p) k) = y) lv)) by (apply elem_of_filter; done).
      replace (filter _ (lv ∖ {[k]})) with
        ((filter (λ k, seg_idx (ca_at (base_block p) k) = y) lv) ∖ {[k]}) by set_solver.
      pose proof (size_difference (filter (λ k, seg_idx (ca_at (base_block p) k) = y) lv) {[k]}) as Hd.
      rewrite size_singleton in Hd.
      assert (1 <= size (filter (λ k, seg_idx (ca_at (base_block p) k) = y) lv))%nat.
      { rewrite <-(size_singleton (C:=gset Z) k). apply subseteq_size. set_solver. }
      rewrite Hd by set_solver. lia.
    - replace (filter _ (lv ∖ {[k]})) with (filter (λ k, seg_idx (ca_at (base_block p) k) = y) lv); [lia|].
      apply set_eq. intros j. rewrite !elem_of_filter, elem_of_difference, elem_of_singleton.
      split; [|tauto]. intros [Ej Hj]. split_and!; try done. intros ->. done. }
  destruct (H3 x s Hs) as (Hxr & g0 & Hg0 & Hgi & Hgc). rewrite Hg in Hg0. injection Hg0 as <-.
  destruct (Z.eqb_spec (invalid_blocks g + 1) BPS) as [E|E]; unfold seg_inv; rewrite Ei.
  - destruct Hcase as [Em Eg]. rewrite Em, Eg.
    assert (Hfind : ∀ j, im_find j (im_delete x (seg_map p)) =
      if decide (x = j) then None else im_find j (seg_map p)) by (intros; apply im_find_delete).
    assert (Hempty : of_seg p lv x = {[k]}).
    { symmetry. apply set_subseteq_size_eq; [|rewrite size_singleton; lia].
      unfold of_seg. intros j ->%elem_of_singleton. by apply elem_of_filter. }
    split_and!; try done.
    + intros j Hj _. rewrite Es, Hfind. case_decide as Ej.
      * exfalso. assert (Hin : j ∈ of_seg p lv x) by (apply elem_of_filter; set_solver).
        rewrite Hempty in Hin. set_solver.
      * apply H1; set_solver.
    + intros y t. rewrite Hfind. case_decide as Ey; [done|]. intros Hy.
      destruct (H3 y t Hy) as (? & g' & Hg' & ? & ?). split; [done|]. exists g'.
      rewrite Hcnt, decide_False, Z.sub_0_r by done.
      rewrite lookup_delete_ne; [done|]. intros ->. apply Ey. by eapply H4.
    + intros y z t. rewrite !Hfind. repeat case_decide; try done. apply H4.
  - destruct Hcase as [Em (g' & Hg' & Eg)]. rewrite Em, Eg. split_and!; try done.
    + intros j Hj _. rewrite Es. apply H1; set_solver.
    + intros y t Hy. destruct (H3 y t Hy) as (? & g1 & Hg1 & ? & ?). split; [done|]. rewrite Hcnt.
      case_decide as Ey.
      * subst y. rewrite Hs in Hy. injection Hy as <-. rewrite Hg in Hg1. injection Hg1 as <-.
        exists g'. rewrite lookup_insert_eq. split_and!; try done; lia.
      * exists g1. rewrite lookup_insert_ne; [split_and!; try done; lia|].
        intros <-. apply Ey. by eapply H4.
Qed.

(** ** Taking a segment *)

(** The block a list of blocks for channels [i], [i+1], ... has for channel [j]. *)
Definition pick (bs : list Z) (i j : nat) : list Z :=
  if decide (i <= j)%nat then option_list (bs !! (j - i)%nat) else [].

Lemma pick_nil i j : pick [] i j = [].
Proof. unfold pick. by case_decide. Qed.
Lemma pick_here b bs i : pick (b :: bs) i i = [b].
Proof. unfold pick. rewrite decide_True, Nat.sub_diag by done. done. Qed.
Lemma pick_there b bs i j : i ≠ j → pick (b :: bs) i j = pick bs (S i) j.
Proof.
  intros Hne. unfold pick. destruct (decide (S i <= j)%nat).
  - rewrite decide_True by lia. by replace (j - i)%nat with (S (j - S i)) by lia.
  - by rewrite decide_False by lia.
Qed.
Lemma pick_before bs i j : (j < i)%nat → pick bs i j = [].
Proof. intros. unfold pick. by rewrite decide_False by lia. Qed.

Lemma elem_of_pick bs i j k : k ∈ pick bs i j ↔ (i <= j)%nat ∧ bs !! (j - i)%nat = Some k.
Proof.
  unfold pick. case_decide; [|split; [by intros ?%not_elem_of_nil|lia]].
  destruct (bs !! (j - i)%nat) as [b|]; simpl.
  - rewrite list_elem_of_singleton. naive_solver.
  - split; [by intros ?%not_elem_of_nil|]. by intros [_ ?].
Qed.

Lemma inv_ext p F H O F' H' O' :
  inv p F H O → (∀ i, (i < 64)%nat → F' i = F i ∧ H' i = H i ∧ O' i ≡ₚ O i) → inv p F' H' O'.
Proof.
  intros (Hw & Hl & Hc) E. split_and!; try done. intros i Hi.
  destruct (E i Hi) as (EF & EH & EO), (Hc i Hi) as (c & Ec & Hok & Hp). exists c. by rewrite EF, EH, EO.
Qed.

(** Only back pointers and segment numbers differ. *)
Definition same_but_links (bs bs' : blocks) : Prop :=
  ∀ k, set_seg_idx 0 (set_hptr None (ca_at bs' k)) = set_seg_idx 0 (set_hptr None (ca_at bs k)).

Lemma same_links_hptr bs bs' : same_but_hptr bs bs' → same_but_links bs bs'.
Proof. intros [_ E] k. by rewrite E. Qed.

Lemma blocks_wf_seg_idx bs k v :
  blocks_wf bs → 0 <= k < NBLOCKS → blocks_wf (ca_upd bs k (set_seg_idx v (ca_at bs k))).
Proof. intros Hw Hk. apply blocks_wf_upd; [done|]. by apply Hw. Qed.

(** One turn of the loop of [base_get_segment]. *)
Lemma take_one p F H O lv pend r i x fs :
  inv p F H O → live_ok F lv → seg_inv p lv pend → (i < 64)%nat → F i = x :: fs →
  seg_map_idx p < 2 ^ 31 →
  ∃ c q p1 p', base_channel p !! i = Some c ∧ fifo_dequeue (free_block c) = Ok (Some x, q) ∧
    (if r : bool then Ok (with_channels (<[i := Channel q (max_heap c)]> (base_channel p)) p)
     else heap_append (with_channels (<[i := Channel q (max_heap c)]> (base_channel p)) p) i x) = Ok p1 ∧
    seg_map_idx p1 = seg_map_idx p ∧
    upd_block p1 x (set_seg_idx (u32 (seg_map_idx p1))) = Ok p' ∧
    inv p' (<[i := fs]> F) (if r then H else <[i := x :: H i]> H) (if r then <[i := x :: O i]> O else O) ∧
    live_ok (<[i := fs]> F) (lv ∪ {[x]}) ∧ seg_inv p' (lv ∪ {[x]}) (pend ∪ {[x]}) ∧ (x ∉ lv) ∧
    seg_map p' = seg_map p ∧ seg_map_idx p' = seg_map_idx p ∧ segs p' = segs p ∧
    same_but_links (base_block p) (base_block p') ∧
    (∀ k, k ≠ x → seg_idx (ca_at (base_block p') k) = seg_idx (ca_at (base_block p) k)).
Proof.
  intros Hinv Hlive Hseg Hi Ex Hidx. destruct (dequeue_move p F H O i x fs Hinv Hi Ex) as (c & q & Ec & Eq & Hinv1).
  set (p0 := with_channels _ p) in *. exists c, q.
  destruct (inv_chan _ _ _ _ i Hinv Hi) as (Hnd & Hin & _).
  assert (Hx : 0 <= x < NBLOCKS ∧ x mod 64 = Z.of_nat i) by (apply Hin; rewrite Ex; set_solver).
  assert (Hxl : x ∉ lv).
  { intros Hx'. apply Hlive in Hx' as [_ Hx']. destruct Hx as [_ ->] in Hx'. rewrite Nat2Z.id, Ex in Hx'.
    set_solver. }
  assert (∃ p1, (if r then Ok p0 else heap_append p0 i x) = Ok p1 ∧ chan_frame p p1 ∧
    inv p1 (<[i := fs]> F) (if r then H else <[i := x :: H i]> H) (if r then <[i := x :: O i]> O else O))
    as (p1 & E1 & Hfr & Hinv2).
  { destruct r.
    - exists p0. split_and!; try done. eapply inv_ext; [done|]. intros j Hj.
      destruct (decide (i = j)) as [->|]; rewrite ?fn_lookup_insert, ?fn_lookup_insert_ne by done; done.
    - destruct (append_move p0 _ _ _ i x (O i) Hinv1 Hi) as (p1 & E & Hf & Hinv2);
        [by rewrite fn_lookup_insert|].
      exists p1. split_and!; try done; try apply Hf. eapply inv_ext; [done|]. intros j Hj.
      destruct (decide (i = j)) as [->|]; rewrite ?fn_lookup_insert, ?fn_lookup_insert_ne by done; done. }
  pose proof Hfr as (Hsame & Em & Ei & Eg). pose proof Hinv2 as (Hwf1 & _ & _).
  exists p1. rewrite (upd_block_Ok p1 x _ Hwf1 (proj1 Hx)). rewrite Ei, u32_id by (destruct Hseg as [? _]; lia).
  eexists. split_and!; try done; [|..].
  - destruct Hinv2 as (Hw & Hl & Hc). split; [|done]. exact (blocks_wf_seg_idx _ x _ Hw (proj1 Hx)).
  - intros k. rewrite elem_of_union, elem_of_singleton. unfold live_ok in Hlive. rewrite Hlive.
    destruct (decide (k = x)) as [->|Hkx].
    + destruct Hx as [Hx ->]. rewrite Nat2Z.id, fn_lookup_insert. split; [|set_solver].
      intros _. split; [done|]. rewrite Ex in Hnd. apply NoDup_cons in Hnd as [Hn _]. set_solver.
    + destruct (decide (Z.to_nat (k mod 64) = i)) as [->|].
      * rewrite fn_lookup_insert, Ex. set_solver.
      * rewrite fn_lookup_insert_ne by done. set_solver.
  - apply (seg_take p); try done.
    + intros k. cbn [with_blocks base_block]. rewrite ca_at_upd. case_decide as E; [done|].
      apply hptr_fields, Hsame.
  - intros k. cbn [with_blocks base_block]. rewrite ca_at_upd. case_decide as E; [subst k|].
    + etrans; [|apply (same_links_hptr _ _ Hsame)]. done.
    + apply (same_links_hptr _ _ Hsame).
  - intros k Hk. cbn [with_blocks base_block]. rewrite ca_at_upd_ne by done. apply hptr_fields, Hsame.
Qed.

Definition heap_gain (r : bool) (bs : list Z) (i : nat) H : nat → list Z :=
  λ j, (if r then [] else pick bs i j) ++ H j.
Definition out_gain (r : bool) (bs : list Z) (i : nat) O : nat → list Z :=
  λ j, (if r then pick bs i j else []) ++ O j.

Lemma take_blocks_spec r n : ∀ i p F H O lv pend,
  (i + n = 64)%nat → inv p F H O → live_ok F lv → seg_inv p lv pend → seg_map_idx p < 2 ^ 31 →
  (∀ j, (i <= j < 64)%nat → F j ≠ []) →
  ∃ bs p' F' lv' pend', take_blocks n p r i = Ok (bs, p') ∧ length bs = n ∧
    inv p' F' (heap_gain r bs i H) (out_gain r bs i O) ∧
    (∀ j, (j < 64)%nat → F j = pick bs i j ++ F' j) ∧
    live_ok F' lv' ∧ seg_inv p' lv' pend' ∧ size pend' = (size pend + n)%nat ∧
    (∀ k, k ∈ bs → k ∈ pend') ∧ pend ⊆ pend' ∧
    seg_map p' = seg_map p ∧ seg_map_idx p' = seg_map_idx p ∧ segs p' = segs p ∧
    same_but_links (base_block p) (base_block p') ∧
    (∀ k, k ∈ lv → k ∈ lv' ∧ seg_idx (ca_at (base_block p') k) = seg_idx (ca_at (base_block p) k)).
Proof.
  induction n as [|n IH]; intros i p F H O lv pend Hin Hinv Hlive Hseg Hidx Hne; cbn [take_blocks].
  { exists [], p, F, lv, pend. split_and!; try done; try lia.
    - eapply inv_ext; [done|]. intros j Hj. unfold heap_gain, out_gain. rewrite pick_nil. by destruct r.
    - intros j Hj. by rewrite pick_nil.
    - intros k Hk. by apply not_elem_of_nil in Hk. }
  destruct (F i) as [|x fs] eqn:Ex; [by destruct (Hne i ltac:(lia))|].
  destruct (take_one p F H O lv pend r i x fs) as
    (c & q & p1 & p2 & Ec & Eq & E1 & Ei1 & E2 & Hinv2 & Hlive2 & Hseg2 & Hxl & Em & Ei & Eg & Hsame & Hidx2);
    try done; try lia.
  rewrite Ec. cbn [deref]. rbind. rewrite Eq. rbind. rewrite E1. rbind. rewrite E2. rbind.
  destruct (IH (S i) p2 _ _ _ (lv ∪ {[x]}) (pend ∪ {[x]}) ltac:(lia) Hinv2 Hlive2 Hseg2) as
    (bs & p3 & F3 & lv3 & pend3 & -> & Hlen & Hinv3 & HF3 & Hlive3 & Hseg3 & Hsz3 & Hbs3 & Hp3 & Em3 & Ei3 & Eg3 & Hsame3 & Hidx3);
    [lia| |].
  { intros j Hj. rewrite fn_lookup_insert_ne by lia. apply Hne. lia. }
  rbind. exists (x :: bs), p3, F3, lv3, pend3.
  assert (x ∉ pend) by (intros Hx; destruct Hseg as (_ & _ & H2 & _); by destruct (H2 x Hx)).
  split_and!; try done; try congruence.
  - simpl. lia.
  - eapply inv_ext; [done|]. intros j Hj. unfold heap_gain, out_gain. split; [done|].
    destruct (decide (i = j)) as [<-|Hij].
    + rewrite pick_here, pick_before by lia. destruct r; rewrite ?fn_lookup_insert; done.
    + rewrite pick_there by done. destruct r; rewrite ?fn_lookup_insert_ne by done; done.
  - intros j Hj. specialize (HF3 j Hj). destruct (decide (i = j)) as [<-|Hij].
    + rewrite fn_lookup_insert, pick_before in HF3 by lia. simpl in HF3. rewrite pick_here, Ex, HF3. done.
    + rewrite fn_lookup_insert_ne in HF3 by done. by rewrite pick_there.
  - rewrite Hsz3, size_union, size_singleton by set_solver. lia.
  - intros k [->|Hk]%elem_of_cons; [set_solver|]. by apply Hbs3.
  - set_solver.
  - intros k Hk. destruct (Hidx3 k) as [? ->]; [set_solver|]. split; [done|].
    apply Hidx2. intros ->. done.
Qed.

(** [base_get_segment] takes the oldest free block of every channel. *)
Lemma get_segment_Ok r p F H O lv :
  inv p F H O → live_ok F lv → seg_inv p lv ∅ → seg_map_idx p < 2 ^ 31 →
  (∀ j, (j < 64)%nat → F j ≠ []) →
  ∃ bs s p' F' lv', base_get_segment p r = Ok (s, p') ∧ length bs = 64%nat ∧
    inv p' F' (heap_gain r bs 0 H) (out_gain r bs 0 O) ∧
    (∀ j, (j < 64)%nat → F j = pick bs 0 j ++ F' j) ∧
    live_ok F' lv' ∧ seg_inv p' lv' ∅ ∧ (segs p !! s = None) ∧
    segs p' = <[s := Segment (seg_map_idx p) bs 0 BPS 0 0]> (segs p) ∧
    im_find (seg_map_idx p) (seg_map p') = Some s ∧
    (∀ k, k ∈ bs → seg_idx (ca_at (base_block p') k) = seg_map_idx p) ∧
    (∀ x t, im_find x (seg_map p) = Some t → im_find x (seg_map p') = Some t) ∧
    (∀ k, k ∈ lv → k ∈ lv' ∧ seg_idx (ca_at (base_block p') k) = seg_idx (ca_at (base_block p) k)) ∧
    seg_map_idx p' = seg_map_idx p + 1 ∧ same_but_links (base_block p) (base_block p').
Proof.
  intros Hinv Hlive Hseg Hidx Hne.
  destruct (take_blocks_spec r 64 0 p F H O lv ∅) as
    (bs & p1 & F1 & lv1 & pend & E & Hlen & Hinv1 & HF1 & Hlive1 & Hseg1 & Hsz & Hbs & _ & Em & Ei & Eg & Hsame & Hidx1);
    try done.
  { intros j Hj. apply Hne. lia. }
  assert (Hi0 : 0 <= seg_map_idx p) by apply Hseg.
  unfold base_get_segment. replace (Z.to_nat BPS) with 64%nat by reflexivity. rewrite E. rbind.
  rewrite Em, Ei, Eg, u32_id by lia.
  set (s := malloc (segs p)). assert (Hs : segs p !! s = None) by (apply not_elem_of_dom, malloc_fresh).
  assert (Hfind : ∀ j, im_find j (im_insert (seg_map_idx p) s (seg_map p)) =
    if decide (seg_map_idx p = j) then Some s else im_find j (seg_map p)).
  { intros j. apply im_find_insert. destruct (im_find _ _) as [t|] eqn:Et; [|done].
    destruct Hseg as (_ & _ & _ & H3 & _). apply H3 in Et as [? _]. lia. }
  exists bs, s. eexists _, F1, lv1. split; [done|]. cbn [base_block base_channel seg_map seg_map_idx segs].
  split_and!; try done.
  - rewrite <-Em, <-Ei, <-Eg. apply (seg_close p1 lv1 pend); try done. by rewrite Eg.
  - rewrite Hfind. by rewrite decide_True.
  - intros k Hk. rewrite <-Ei. destruct Hseg1 as (_ & _ & H2 & _). by apply H2, Hbs.
  - intros x t Hx. rewrite Hfind, decide_False; [done|]. intros <-.
    destruct Hseg as (_ & _ & _ & H3 & _). apply H3 in Hx as [? _]. lia.
Qed.

(** ** Victims *)

Lemma take_victims_spec n : ∀ i p F H O,
  (i + n = 64)%nat → inv p F H O → (∀ j, (i <= j < 64)%nat → H j ≠ []) →
  ∃ bs p' H', take_victims n p i = Ok (bs, p') ∧ length bs = n ∧
    inv p' F H' (λ j, pick bs i j ++ O j) ∧ (∀ j, (j < 64)%nat → H j ≡ₚ pick bs i j ++ H' j) ∧
    (∀ j x y, x ∈ pick bs i j → y ∈ H j →
       base_get_cnt (base_block p) y <= base_get_cnt (base_block p) x) ∧
    chan_frame p p'.
Proof.
  induction n as [|n IH]; intros i p F H O Hin Hinv Hne; cbn [take_victims].
  { exists [], p, H. split_and!; try done.
    - eapply inv_ext; [done|]. intros j Hj. by rewrite pick_nil.
    - intros j Hj. by rewrite pick_nil.
    - intros j x y Hx. rewrite pick_nil in Hx. by apply not_elem_of_nil in Hx. }
  destruct (victim_move p F H O i Hinv) as (c & h & bs & x & h' & bs' & Ec & E1 & E2 & Hs & Hx & Hmax & hs & Hhs & Hinv1);
    [lia|apply Hne; lia|].
  rewrite Ec. cbn [deref]. rbind. rewrite E1. rbind. rewrite E2. rbind.
  set (p1 := with_channels _ _) in *.
  assert (Hfr : chan_frame p p1) by (by split_and!).
  destruct (IH (S i) p1 _ _ _ ltac:(lia) Hinv1) as (vs & p2 & H2 & E3 & Hlen & Hinv2 & HH2 & Hmax2 & Hfr2).
  { intros j Hj. rewrite fn_lookup_insert_ne by lia. apply Hne. lia. }
  rewrite E3. rbind. exists (x :: vs), p2, H2. split_and!; try done; try (simpl; lia).
  - eapply inv_ext; [exact Hinv2|]. intros j Hj. destruct (decide (i = j)) as [<-|Hij].
    + rewrite !fn_lookup_insert, pick_here, pick_before by lia. done.
    + rewrite !fn_lookup_insert_ne, pick_there by done. done.
  - intros j Hj. specialize (HH2 j Hj). destruct (decide (i = j)) as [<-|Hij].
    + rewrite fn_lookup_insert, pick_before in HH2 by lia. by rewrite pick_here, Hhs, HH2.
    + rewrite fn_lookup_insert_ne in HH2 by done. by rewrite pick_there.
  - intros j a b Ha Hb. destruct (decide (i = j)) as [<-|Hij].
    + rewrite pick_here in Ha. apply list_elem_of_singleton in Ha as ->. by apply Hmax.
    + rewrite pick_there in Ha by done. specialize (Hmax2 j a b Ha).
      rewrite fn_lookup_insert_ne in Hmax2 by done. specialize (Hmax2 Hb). unfold base_get_cnt in *.
      destruct (hptr_fields _ _ (proj2 Hs a)) as (_ & _ & _ & _ & Ea & _).
      destruct (hptr_fields _ _ (proj2 Hs b)) as (_ & _ & _ & _ & Eb & _).
      unfold p1 in Hmax2. cbn [with_channels with_blocks base_block] in Hmax2. congruence.
  - by eapply chan_frame_trans.
Qed.

(** ** The reserve becomes collectable *)

Lemma append_blocks_spec bs : ∀ i p F H O R,
  (i + length bs = 64)%nat → inv p F H O → (∀ j, (j < 64)%nat → O j ≡ₚ pick bs i j ++ R j) →
  ∃ p', append_blocks p bs i = Ok p' ∧ inv p' F (λ j, pick bs i j ++ H j) R ∧ chan_frame p p'.
Proof.
  induction bs as [|b bs IH]; intros i p F H O R Hin Hinv HO; cbn [append_blocks].
  { exists p. split_and!; try done. eapply inv_ext; [done|]. intros j Hj. rewrite HO, !pick_nil by done. done. }
  simpl in Hin. destruct (append_move p F H O i b (R i) Hinv) as (p1 & E1 & Hfr1 & Hinv1); [lia| |].
  { rewrite HO by lia. by rewrite pick_here. }
  rewrite E1. rbind.
  destruct (IH (S i) p1 _ _ _ R ltac:(lia) Hinv1) as (p2 & E2 & Hinv2 & Hfr2).
  { intros j Hj. destruct (decide (i = j)) as [<-|Hij].
    - rewrite fn_lookup_insert, pick_before by lia. done.
    - rewrite fn_lookup_insert_ne by done. rewrite HO, pick_there by done. done. }
  exists p2. split_and!; try done; [|by eapply chan_frame_trans].
  eapply inv_ext; [exact Hinv2|]. intros j Hj. destruct (decide (i = j)) as [<-|Hij].
  - rewrite !fn_lookup_insert, pick_here, pick_before by lia. done.
  - rewrite !fn_lookup_insert_ne, pick_there by done. done.
Qed.

(** ** Giving blocks back *)

Context {L : Type} `{!Lower L} `{!LowerOk L}.

Definition cleared (b : __block) : __block :=
  set_oob_list zero_oob (set_bitset zero_bitset (set_now 0 (set_invalid 0 b))).

(** The table entries of the segments other than number [x] are kept. *)
Definition other_segs_kept p p' (x : Z) : Prop :=
  ∀ y t, y ≠ x → im_find y (seg_map p) = Some t →
    im_find y (seg_map p') = Some t ∧ segs p' !! t = segs p !! t.

(** The effect of giving back block [k] on blocks and device. *)
Definition block_erased p (l : L) p' (l' : L) (k : Z) : Prop :=
  (∀ j, ca_at (base_block p') j =
     if decide (j = k) then cleared (ca_at (base_block p) k) else ca_at (base_block p) j) ∧
  (∀ q, 0 <= q < _NOP → low_page l' q = if decide (GETBLOCKIDX q = k) then None else low_page l q).

Lemma block_of_page k q :
  0 <= k < NBLOCKS → 0 <= q < _NOP →
  (q / _PPS = ppa_of k 0 / _PPS ∧ q mod PUNIT = ppa_of k 0 mod PUNIT) ↔ GETBLOCKIDX q = k.
Proof.
  intros Hk Hq. destruct (ppa_of_inv q Hq) as (Hb & Hp & E). rewrite <-E at 1 2.
  unfold ppa_of. change _PPS with 16384. change PUNIT with 64.
  split; [|intros ->]; Z.to_euclidean_division_equations; lia.
Qed.

Lemma cleared_wf k b : block_wf k b → block_wf k (cleared b).
Proof. intros (? & ? & _). unfold block_wf, cleared. cbn. split_and!; try done. Qed.

Lemma trim_one p (l : L) F H O lv i k os :
  inv p F H O → live_ok F lv → seg_inv p lv ∅ → low_wf l → (i < 64)%nat → O i ≡ₚ k :: os →
  ∃ p' l', trim_block p l i k = Ok (p', l') ∧
    inv p' (<[i := F i ++ [k]]> F) (<[i := H i]> H) (<[i := os]> O) ∧
    live_ok (<[i := F i ++ [k]]> F) (lv ∖ {[k]}) ∧ seg_inv p' (lv ∖ {[k]}) ∅ ∧ low_wf l' ∧
    block_erased p l p' l' k ∧ seg_map_idx p' = seg_map_idx p ∧
    other_segs_kept p p' (seg_idx (ca_at (base_block p) k)) ∧ k ∈ lv.
Proof.
  intros Hinv Hlive Hseg Hl Hi Ex. destruct (inv_chan _ _ _ _ i Hinv Hi) as (Hnd & Hin & _).
  assert (Hk : 0 <= k < NBLOCKS ∧ k mod 64 = Z.of_nat i) by (apply Hin; rewrite Ex; set_solver).
  destruct Hk as [Hk Hkm].
  assert (Hkl : k ∈ lv).
  { apply Hlive. split; [done|]. rewrite Hkm, Nat2Z.id. rewrite Ex in Hnd.
    apply NoDup_app in Hnd as (_ & Hd & _). intros Hkf. apply (Hd k Hkf). set_solver. }
  pose proof Hinv as (Hwf & _ & _). pose proof Hwf as [Hlen Hbw].
  unfold trim_block. rewrite ca_get_in by lia; rbind. rewrite (GETBLOCKPPA_eq k) by auto.
  destruct (low_trim_a_block_ok l (ppa_of k 0) Hl) as (l' & -> & Hl' & Hpages).
  { apply ppa_of_range; lia. }
  { unfold ppa_of. change _PPS with 16384. change PUNIT with 64. Z.to_euclidean_division_equations. lia. }
  rbind. rewrite upd_block_Ok by done. rbind. fold (cleared (ca_at (base_block p) k)).
  set (p1 := with_blocks _ p).
  assert (Hinv1 : inv p1 F H O).
  { destruct Hinv as (_ & Hcl & Hc). split; [|done]. apply blocks_wf_upd; [done|]. by apply cleared_wf, Hbw. }
  destruct (enqueue_move p1 F H O i k os Hinv1 Hi Ex) as (c & q & Ec & Eq & Hinv2).
  rewrite Ec. cbn [deref]. rbind. rewrite Eq. rbind.
  destruct Hseg as (H0 & H1 & H2 & H3 & H4) eqn:HsegE. clear HsegE.
  destruct (H1 k Hkl ltac:(set_solver)) as [s Hs]. destruct (H3 _ s Hs) as (Hxr & g & Hg & Hgi & Hgc).
  cbn [with_channels seg_map segs]. change (seg_map p1) with (seg_map p). change (segs p1) with (segs p).
  rewrite Hs. cbn [deref]. rbind. rewrite Hg. cbn [deref]. rbind. change BPS with 64 in Hgi.
  rewrite u8_id by lia.
  assert (Hblk : ∀ j, ca_at (base_block p1) j = if decide (j = k) then cleared (ca_at (base_block p) k)
    else ca_at (base_block p) j).
  { intros j. unfold p1. cbn [with_blocks base_block]. rewrite ca_at_upd. repeat case_decide; congruence. }
  assert (Hsi : ∀ j, seg_idx (ca_at (base_block p1) j) = seg_idx (ca_at (base_block p) j)).
  { intros j. rewrite Hblk. by case_decide; subst. }
  assert (Hlive' : live_ok (<[i := F i ++ [k]]> F) (lv ∖ {[k]})).
  { intros j. rewrite elem_of_difference, elem_of_singleton. unfold live_ok in Hlive. rewrite Hlive.
    destruct (decide (Z.to_nat (j mod 64) = i)) as [->|].
    - rewrite fn_lookup_insert. set_solver.
    - rewrite fn_lookup_insert_ne by done. split; [tauto|]. intros [? ?]. split; [done|]. intros ->.
      rewrite Hkm in *. lia. }
  assert (Hpg : ∀ q, 0 <= q < _NOP → low_page l' q = if decide (GETBLOCKIDX q = k) then None else low_page l q).
  { intros q0 Hq0. rewrite Hpages by done. pose proof (block_of_page k q0 Hk Hq0).
    repeat case_decide; naive_solver. }
  destruct (Z.eqb_spec (invalid_blocks g + 1) BPS) as [E|E].
  - eexists _, l'. split; [done|]. split_and!; try done.
    + apply (seg_give p _ lv k s g); try done. cbn [segs seg_map base_block with_channels].
      by rewrite (proj2 (Z.eqb_eq _ _)).
    + intros y t Hy Ht. cbn [segs seg_map with_channels]. rewrite im_find_delete, decide_False by congruence.
      split; [done|]. apply lookup_delete_ne. intros <-. apply Hy. by eapply H4.
  - unfold upd_seg. cbn [with_channels segs]. change (segs p1) with (segs p). rewrite Hg. cbn [deref]. rbind.
    eexists _, l'. split; [done|]. split_and!; try done.
    + apply (seg_give p _ lv k s g); try done. rewrite (proj2 (Z.eqb_neq _ _)) by done.
      split; [done|]. eexists. split; [|done]. done.
    + intros y t Hy Ht. cbn [segs seg_map with_channels with_segs]. split; [done|].
      apply lookup_insert_ne. intros <-. apply Hy. by eapply H4.
Qed.

Definition blocks_erased p (l : L) p' (l' : L) (bs : list Z) : Prop :=
  (∀ j, ca_at (base_block p') j =
     if decide (j ∈ bs) then cleared (ca_at (base_block p) j) else ca_at (base_block p) j) ∧
  (∀ q, 0 <= q < _NOP → low_page l' q = if decide (GETBLOCKIDX q ∈ bs) then None else low_page l q).

Lemma erased_cons p (l : L) p1 l1 p2 l2 k bs :
  block_erased p l p1 l1 k → blocks_erased p1 l1 p2 l2 bs → blocks_erased p l p2 l2 (k :: bs).
Proof.
  intros [Hb1 Hl1] [Hb2 Hl2]. split.
  - intros j. rewrite Hb2, Hb1. destruct (decide (j = k)) as [->|Hne].
    + rewrite (decide_True (P := k ∈ k :: bs)) by left. by case_decide.
    + destruct (decide (j ∈ bs)).
      * by rewrite decide_True by (by right).
      * rewrite decide_False; [done|]. by intros [|]%elem_of_cons.
  - intros q Hq. rewrite Hl2, Hl1 by done. destruct (decide (GETBLOCKIDX q = k)) as [->|Hne].
    + rewrite (decide_True (P := k ∈ k :: bs)) by left. by case_decide.
    + destruct (decide (GETBLOCKIDX q ∈ bs)).
      * by rewrite decide_True by (by right).
      * rewrite decide_False; [done|]. by intros [|]%elem_of_cons.
Qed.

(** The table entries of the segments without a block in [bs] are kept. *)
Definition segs_kept p p' (bs : list Z) : Prop :=
  ∀ y t, (∀ k, k ∈ bs → seg_idx (ca_at (base_block p) k) ≠ y) → im_find y (seg_map p) = Some t →
    im_find y (seg_map p') = Some t ∧ segs p' !! t = segs p !! t.

Lemma trim_blocks_spec bs : ∀ i p (l : L) F H O R lv,
  (i + length bs = 64)%nat → inv p F H O → live_ok F lv → seg_inv p lv ∅ → low_wf l →
  (∀ j, (j < 64)%nat → O j ≡ₚ pick bs i j ++ R j) →
  ∃ p' l' F' lv', trim_blocks p l i bs = Ok (p', l') ∧ inv p' F' H R ∧
    (∀ j, (j < 64)%nat → F' j = F j ++ pick bs i j) ∧ live_ok F' lv' ∧ seg_inv p' lv' ∅ ∧ low_wf l' ∧
    blocks_erased p l p' l' bs ∧ seg_map_idx p' = seg_map_idx p ∧ segs_kept p p' bs.
Proof.
  induction bs as [|k bs IH]; intros i p l F H O R lv Hin Hinv Hlive Hseg Hl HO; cbn [trim_blocks].
  { exists p, l, F, lv. split_and!; try done.
    - eapply inv_ext; [done|]. intros j Hj. rewrite HO, pick_nil by done. done.
    - intros j Hj. by rewrite pick_nil, app_nil_r. }
  simpl in Hin. destruct (trim_one p l F H O lv i k (R i)) as
    (p1 & l1 & E1 & Hinv1 & Hlive1 & Hseg1 & Hl1 & Her1 & Ei1 & Hk1 & _); try done; [lia| |].
  { rewrite HO by lia. by rewrite pick_here. }
  rewrite E1. rbind.
  destruct (IH (S i) p1 l1 _ _ _ R (lv ∖ {[k]}) ltac:(lia) Hinv1 Hlive1 Hseg1 Hl1) as
    (p2 & l2 & F2 & lv2 & E2 & Hinv2 & HF2 & Hlive2 & Hseg2 & Hl2 & Her2 & Ei2 & Hk2).
  { intros j Hj. destruct (decide (i = j)) as [<-|Hij].
    - rewrite fn_lookup_insert, pick_before by lia. done.
    - rewrite fn_lookup_insert_ne by done. rewrite HO, pick_there by done. done. }
  exists p2, l2, F2, lv2. split_and!; try done; [| |by eapply erased_cons|congruence|].
  - eapply inv_ext; [exact Hinv2|]. intros j Hj. destruct (decide (i = j)) as [<-|Hij].
    + by rewrite fn_lookup_insert.
    + by rewrite fn_lookup_insert_ne.
  - intros j Hj. rewrite HF2 by done. destruct (decide (i = j)) as [<-|Hij].
    + rewrite fn_lookup_insert, pick_here, pick_before by lia. by rewrite app_nil_r.
    + rewrite fn_lookup_insert_ne, pick_there by done. done.
  - intros y t Hy Ht. destruct (Hk1 y t) as [Ht1 Eg1]; [|done|].
    { intros ->. apply (Hy k); [by left|done]. }
    destruct (Hk2 y t) as [Ht2 Eg2]; [|done|].
    { intros j Hj. destruct Her1 as [Hb _]. rewrite Hb. case_decide; subst; apply Hy; by right. }
    split; [done|]. congruence.
Qed.

End inventory.

(** ** The manager as a state machine *)

Section machine.
Context `{Sg : Settings, !SettingsOk Sg} {Q Mp L : Type} `{!FIFO Z Q} `{!IntMap loc Mp}
  `{!Lower L} `{!LowerOk L}.

(** The manager and the device, the segment a translation layer keeps in reserve
    and the victims of a collection that is running. *)
Record mgr := Mgr { m_bm : bbm_pri Q Mp; m_dev : L; m_reserve : option loc; m_victims : option __gsegment }.

(** The calls of a translation layer. A run of the machine takes less than 2^31
    segments, the range of the [int] that numbers them. *)
Inductive mstep : mgr → mgr → Prop :=
| Get p l r v s p' :
    seg_map_idx p < 2 ^ 31 - 1 → base_get_segment p false = Ok (s, p') →
    mstep (Mgr p l r v) (Mgr p' l r v)
| Reserve p l v s p' :
    seg_map_idx p < 2 ^ 31 - 1 → base_get_segment p true = Ok (s, p') →
    mstep (Mgr p l None v) (Mgr p' l (Some s) v)
| ChangeReserve p l r v s p' :
    seg_map_idx p < 2 ^ 31 - 1 → base_change_reserve p r = Ok (s, p') →
    mstep (Mgr p l (Some r) v) (Mgr p' l (Some s) v)
| Target p l r g p' :
    base_get_gc_target p = Ok (g, p') → mstep (Mgr p l r None) (Mgr p' l r (Some g))
| Trim p l r g p' l' :
    base_trim_segment p g l = Ok (p', l') → mstep (Mgr p l r (Some g)) (Mgr p' l' r None)
| Page p l r v s x p' :
    base_get_page_num p s = Ok (x, p') → mstep (Mgr p l r v) (Mgr p' l r v)
| Bits p l r v o x p' :
    0 <= bop_page o < _NOP → bstep o p = Ok (x, p') → mstep (Mgr p l r v) (Mgr p' l r v)
| Oob p l r v d q p' :
    0 <= q < _NOP → (length d <= Z.to_nat OOB_LEN)%nat →
    base_set_oob p d (Z.of_nat (length d)) q = Ok p' → mstep (Mgr p l r v) (Mgr p' l r v)
| Device p l l' r v :
    low_wf l' → mstep (Mgr p l r v) (Mgr p l' r v).

Inductive reachable (m0 : mgr) : mgr → Prop :=
| reach_refl : reachable m0 m0
| reach_step m m' : reachable m0 m → mstep m m' → reachable m0 m'.

(** The segment in reserve is in the table, with the blocks [rl], all numbered
    with the segment's number. *)
Definition reserve_ok (p : bbm_pri Q Mp) (r : option loc) (rl : option (list Z)) : Prop :=
  match r, rl with
  | None, None => True
  | Some s, Some bs => ∃ g, segs p !! s = Some g ∧ s_blocks g = bs ∧ length bs = 64%nat ∧
      im_find (s_seg_idx g) (seg_map p) = Some s ∧
      ∀ k, k ∈ bs → seg_idx (ca_at (base_block p) k) = s_seg_idx g
  | _, _ => False
  end.

(** The blocks outside the pools of free and collectable blocks. *)
Definition outs (rl vl : option (list Z)) : nat → list Z :=
  λ j, pick (default [] rl) 0 j ++ pick (default [] vl) 0 j.

(** The invariant: the pools, all channels with equally many free and equally
    many collectable blocks, and the accounting of segments. *)
Definition minv (m : mgr) : Prop :=
  ∃ F H lv rl, inv (m_bm m) F H (outs rl (g_blocks <$> m_victims m)) ∧ live_ok F lv ∧
    seg_inv (m_bm m) lv ∅ ∧ low_wf (m_dev m) ∧ reserve_ok (m_bm m) (m_reserve m) rl ∧
    (∀ g, m_victims m = Some g → length (g_blocks g) = 64%nat) ∧
    (∃ nf nh, ∀ i, (i < 64)%nat → length (F i) = nf ∧ length (H i) = nh) ∧
    seg_map_idx (m_bm m) < 2 ^ 31.

(** *** Steps that only touch pages *)

(** Channels and table are untouched, segments keep their blocks, numbers and
    counts, blocks keep their segment. *)
Definition page_frame (p p' : bbm_pri Q Mp) : Prop :=
  base_channel p' = base_channel p ∧ seg_map p' = seg_map p ∧ seg_map_idx p' = seg_map_idx p ∧
  (∀ k, seg_idx (ca_at (base_block p') k) = seg_idx (ca_at (base_block p) k)) ∧
  (∀ s g, segs p !! s = Some g → ∃ g', segs p' !! s = Some g' ∧
     invalid_blocks g' = invalid_blocks g ∧ s_blocks g' = s_blocks g ∧ s_seg_idx g' = s_seg_idx g).

Lemma page_frame_trans (p1 p2 p3 : bbm_pri Q Mp) : page_frame p1 p2 → page_frame p2 p3 → page_frame p1 p3.
Proof.
  intros (E1 & E2 & E3 & E4 & E5) (D1 & D2 & D3 & D4 & D5). split_and!; try congruence.
  intros s g Hg. destruct (E5 s g Hg) as (g1 & Hg1 & ? & ? & ?).
  destruct (D5 s g1 Hg1) as (g2 & ? & ? & ? & ?). exists g2. split_and!; congruence.
Qed.

Lemma upd_block_frame (p p' : bbm_pri Q Mp) k f :
  upd_block p k f = Ok p' → (∀ b, seg_idx (f b) = seg_idx b) → page_frame p p'.
Proof.
  unfold upd_block. intros E Hf. apply res_bind_Ok in E as (b & Eb & E).
  apply res_bind_Ok in E as (bs & Ebs & E). injection E as <-.
  apply ca_get_Ok in Eb as [_ ->]. apply ca_set_Ok in Ebs as [_ ->].
  split_and!; try done; [|by eauto]. intros j. cbn [with_blocks base_block]. rewrite ca_at_upd.
  case_decide; [subst; apply Hf|done].
Qed.

Lemma upd_seg_frame (p p' : bbm_pri Q Mp) s f :
  upd_seg p s f = Ok p' →
  (∀ g, invalid_blocks (f g) = invalid_blocks g ∧ s_blocks (f g) = s_blocks g ∧ s_seg_idx (f g) = s_seg_idx g) →
  page_frame p p' ∧ base_block p' = base_block p.
Proof.
  unfold upd_seg. intros E Hf. apply res_bind_Ok in E as (g & Eg & E). apply deref_Ok in Eg. injection E as <-.
  split; [|done]. split_and!; try done. intros t g' Hg'. cbn [with_segs segs].
  destruct (decide (s = t)) as [->|].
  - rewrite lookup_insert_eq. rewrite Eg in Hg'. injection Hg' as <-. exists (f g). split; [done|]. apply Hf.
  - rewrite lookup_insert_ne by done. by exists g'.
Qed.

Lemma set_byte_frame (p p' : bbm_pri Q Mp) q x : set_byte p q x = Ok p' → page_frame p p'.
Proof.
  unfold set_byte. intros E. apply res_bind_Ok in E as (b & _ & E). apply res_bind_Ok in E as (bits & _ & E).
  by apply upd_block_frame in E.
Qed.

Lemma page_frame_refl (p : bbm_pri Q Mp) : page_frame p p.
Proof. split_and!; try done. by eauto. Qed.

Lemma bstep_frame (p p' : bbm_pri Q Mp) o x : bstep o p = Ok (x, p') → page_frame p p'.
Proof.
  intros E. destruct o as [q|q|q|q]; cbn [bstep] in E.
  - unfold base_populate_bit in E. do 2 apply res_bind_Ok in E as (? & _ & E).
    apply res_bind_Ok in E as (p1 & E1 & E). injection E as _ <-. by eapply set_byte_frame.
  - unfold base_unpopulate_bit in E. do 2 apply res_bind_Ok in E as (? & _ & E).
    apply res_bind_Ok in E as (p1 & E1 & E). apply res_bind_Ok in E as (p2 & E2 & E). injection E as _ <-.
    eapply page_frame_trans; [by eapply set_byte_frame|]. by eapply upd_block_frame.
  - apply res_bind_Ok in E as (? & _ & E). injection E as _ <-. apply page_frame_refl.
  - apply res_bind_Ok in E as (? & _ & E). injection E as _ <-. apply page_frame_refl.
Qed.

Lemma set_oob_frame (p p' : bbm_pri Q Mp) d n q : base_set_oob p d n q = Ok p' → page_frame p p'.
Proof.
  unfold base_set_oob. intros E. do 4 apply res_bind_Ok in E as (? & _ & E). by apply upd_block_frame in E.
Qed.

Lemma get_page_frame (p p' : bbm_pri Q Mp) s x :
  blocks_wf (base_block p) → base_get_page_num p s = Ok (x, p') →
  page_frame p p' ∧ blocks_wf (base_block p').
Proof.
  intros Hwf E. unfold base_get_page_num in E. apply res_bind_Ok in E as (g & _ & E).
  apply res_bind_Ok in E as (full & _ & E). destruct full; [injection E as _ <-; by split; [apply page_frame_refl|]|].
  apply res_bind_Ok in E as (k & _ & E). apply res_bind_Ok in E as (b & Eb & E).
  apply res_bind_Ok in E as (p1 & E1 & E). apply res_bind_Ok in E as (p2 & E2 & E).
  apply abort_if_Ok in E as [_ E]. injection E as _ <-.
  destruct (upd_seg_frame _ _ _ _ E2) as [Hf2 Eb2]; [done|].
  split; [eapply page_frame_trans; [by eapply upd_block_frame|done]|].
  rewrite Eb2. pose proof Hwf as [Hlen Hbw].
  assert (Hk : 0 <= k < NBLOCKS) by (apply ca_get_Ok in Eb as [? _]; lia).
  rewrite upd_block_Ok in E1 by done. injection E1 as <-. apply blocks_wf_upd; [done|].
  destruct (Hbw k Hk) as (? & ? & ? & ? & ?). unfold block_wf. split; [done|]. split; [done|].
  split; [apply Z.mod_pos_bound; lia|]. done.
Qed.

(** *** Steps on the data of pages *)

(** A step that changes neither page counters, segments nor channels. *)
Definition data_frame (p p' : bbm_pri Q Mp) : Prop :=
  page_frame p p' ∧ (∀ k, now (ca_at (base_block p') k) = now (ca_at (base_block p) k)) ∧ segs p' = segs p.

Lemma data_frame_trans (p1 p2 p3 : bbm_pri Q Mp) : data_frame p1 p2 → data_frame p2 p3 → data_frame p1 p3.
Proof.
  intros (H1 & H2 & H3) (G1 & G2 & G3). split_and!; [by eapply page_frame_trans| |congruence].
  intros k. by rewrite G2.
Qed.

Lemma upd_block_data (p p' : bbm_pri Q Mp) k g :
  upd_block p k g = Ok p' → (∀ b, seg_idx (g b) = seg_idx b ∧ now (g b) = now b) → data_frame p p'.
Proof.
  intros E Hg. split; [apply (upd_block_frame _ _ _ _ E); intros b; apply Hg|].
  unfold upd_block in E. apply res_bind_Ok in E as (b & Eb & E). apply res_bind_Ok in E as (bs & Ebs & E).
  injection E as <-. apply ca_get_Ok in Eb as [_ ->]. apply ca_set_Ok in Ebs as [_ ->].
  split; [|done]. intros j. cbn [with_blocks base_block]. rewrite ca_at_upd.
  case_decide; [subst; apply Hg|done].
Qed.

Lemma set_byte_data (p p' : bbm_pri Q Mp) q x : set_byte p q x = Ok p' → data_frame p p'.
Proof.
  unfold set_byte. intros E. apply res_bind_Ok in E as (b & _ & E). apply res_bind_Ok in E as (bits & _ & E).
  by apply upd_block_data in E.
Qed.

Lemma populate_data (p p' : bbm_pri Q Mp) q x : base_populate_bit p q = Ok (x, p') → data_frame p p'.
Proof.
  unfold base_populate_bit. intros E. do 2 apply res_bind_Ok in E as (? & _ & E).
  apply res_bind_Ok in E as (p1 & E1 & E). injection E as _ <-. by eapply set_byte_data.
Qed.

Lemma unpopulate_data (p p' : bbm_pri Q Mp) q x : base_unpopulate_bit p q = Ok (x, p') → data_frame p p'.
Proof.
  unfold base_unpopulate_bit. intros E. do 2 apply res_bind_Ok in E as (? & _ & E).
  apply res_bind_Ok in E as (p1 & E1 & E). apply res_bind_Ok in E as (p2 & E2 & E). injection E as _ <-.
  eapply data_frame_trans; [by eapply set_byte_data|]. by eapply upd_block_data.
Qed.

Lemma set_oob_data (p p' : bbm_pri Q Mp) d n q : base_set_oob p d n q = Ok p' → data_frame p p'.
Proof.
  unfold base_set_oob. intros E. do 4 apply res_bind_Ok in E as (? & _ & E). by apply upd_block_data in E.
Qed.

Lemma minv_frame (p p' : bbm_pri Q Mp) (l : L) r v :
  page_frame p p' → blocks_wf (base_block p') → minv (Mgr p l r v) → minv (Mgr p' l r v).
Proof.
  intros (Ec & Em & Ei & Es & Eg) Hwf (F & H & lv & rl & (_ & Hlen & Hc) & Hlive & Hseg & Hl & Hr & Hv & Hn & Hi).
  cbn [m_bm m_dev m_reserve m_victims] in *. exists F, H, lv, rl. cbn [m_bm m_dev m_reserve m_victims].
  split_and!; try done; try congruence.
  - split; [done|]. rewrite Ec. done.
  - eapply seg_inv_frame; [..|done]; try done. intros s g Hg. destruct (Eg s g Hg) as (g' & ? & ? & _). eauto.
  - unfold reserve_ok in *. destruct r as [s|], rl as [bs|]; try done.
    destruct Hr as (g & Hg & Hb & Hbl & Hf & Hk). destruct (Eg s g Hg) as (g' & Hg' & _ & Eb & Ex).
    exists g'. rewrite Em, Eb, Ex. split_and!; try done. intros k Hk'. rewrite Es. auto.
Qed.

(** *** Steps that move segments *)

(** With no free block in channel 0 a segment cannot be taken. *)
Lemma take_blocks_empty n (p : bbm_pri Q Mp) F H O r :
  inv p F H O → F 0%nat = [] → take_blocks (S n) p r 0 = Err (if r : bool then Aborted else Undefined).
Proof.
  intros (_ & _ & Hc) E0. destruct (Hc 0%nat ltac:(lia)) as (c & Ec & (Hf & _) & _).
  cbn [take_blocks]. rewrite Ec. cbn [deref]. rbind.
  rewrite E0 in Hf. rewrite (fifo_dequeue_empty _ _ Hf). rbind. by destruct r.
Qed.

Lemma get_segment_empty (p : bbm_pri Q Mp) F H O r :
  inv p F H O → F 0%nat = [] →
  base_get_segment p r = Err (if r : bool then Aborted else Undefined).
Proof.
  intros Hinv E0. unfold base_get_segment. 
  remember (Z.to_nat BPS) as n eqn:En. destruct n as [|n]; [done|]. clear En.
  by rewrite (take_blocks_empty n p F H O r Hinv E0).
Qed.

(** The bookkeeping around a successful [base_get_segment]. *)
Lemma get_segment_minv r (p p' : bbm_pri Q Mp) s F H O lv nf nh :
  inv p F H O → live_ok F lv → seg_inv p lv ∅ → seg_map_idx p < 2 ^ 31 - 1 →
  (∀ i, (i < 64)%nat → length (F i) = nf ∧ length (H i) = nh) →
  base_get_segment p r = Ok (s, p') →
  ∃ bs F' lv', length bs = 64%nat ∧ inv p' F' (heap_gain r bs 0 H) (out_gain r bs 0 O) ∧
    live_ok F' lv' ∧ seg_inv p' lv' ∅ ∧ seg_map_idx p' < 2 ^ 31 ∧
    (∃ nf nh, ∀ i, (i < 64)%nat → length (F' i) = nf ∧ length (heap_gain r bs 0 H i) = nh) ∧
    reserve_ok p' (Some s) (Some bs) ∧ segs p !! s = None ∧
    segs p' = <[s := Segment (seg_map_idx p) bs 0 BPS 0 0]> (segs p) ∧
    (∀ x t, im_find x (seg_map p) = Some t → im_find x (seg_map p') = Some t) ∧
    (∀ k, k ∈ lv → seg_idx (ca_at (base_block p') k) = seg_idx (ca_at (base_block p) k)).
Proof.
  intros Hinv Hlive Hseg Hidx Hn E.
  assert (Hne : ∀ j, (j < 64)%nat → F j ≠ []).
  { intros j Hj Ej. destruct (Hn j Hj) as [Hjn _]. rewrite Ej in Hjn. simpl in Hjn.
    destruct (Hn 0%nat ltac:(lia)) as [H0n _]. rewrite <-Hjn in H0n. apply length_zero_iff_nil in H0n.
    rewrite (get_segment_empty p F H O r Hinv H0n) in E. done. }
  destruct (get_segment_Ok r p F H O lv Hinv Hlive Hseg ltac:(lia) Hne) as
    (bs & s0 & p0 & F' & lv' & E' & Hlen & Hinv' & HF & Hlive' & Hseg' & Hs & Es & Ef & Eb & Hm & Hlv & Ei & _).
  rewrite E' in E. injection E as <- <-. exists bs, F', lv'.
  assert (Hpick : ∀ i, (i < 64)%nat → length (pick bs 0 i) = 1%nat).
  { intros i Hi. unfold pick. rewrite decide_True by lia.
    destruct (lookup_lt_is_Some_2 bs (i - 0)%nat) as [b ->]; [lia|done]. }
  split_and!; try done; try lia.
  - exists (nf - 1)%nat, (nh + if r then 0 else 1)%nat. intros i Hi. destruct (Hn i Hi) as [HnF HnH].
    rewrite (HF i Hi), length_app, Hpick in HnF by done. split; [lia|].
    unfold heap_gain. rewrite length_app. destruct r; [simpl; lia|]. rewrite Hpick by done. lia.
  - eexists. rewrite Es, lookup_insert_eq. done.
  - intros k Hk. by apply Hlv.
Qed.

(** The reserve survives a step that keeps its entry. *)
Lemma reserve_keep (p p' : bbm_pri Q Mp) r rl lv F H O s0 g0 :
  reserve_ok p r rl → segs p !! s0 = None → segs p' = <[s0 := g0]> (segs p) →
  (∀ x t, im_find x (seg_map p) = Some t → im_find x (seg_map p') = Some t) →
  (∀ k, k ∈ lv → seg_idx (ca_at (base_block p') k) = seg_idx (ca_at (base_block p) k)) →
  inv p F H O → live_ok F lv → (∀ j k, k ∈ pick (default [] rl) 0 j → k ∈ O j) →
  reserve_ok p' r rl.
Proof.
  intros Hr Hs0 Es Hm Hidx Hinv Hlive Hsub. destruct r as [s|], rl as [bs|]; try done.
  destruct Hr as (g & Hg & Hb & Hbl & Hf & Hk). exists g. rewrite Es, lookup_insert_ne by congruence.
  split_and!; try done; [by apply Hm|]. intros k Hk'. rewrite Hidx; [by apply Hk|].
  apply list_elem_of_lookup in Hk' as [i Hi]. assert (i < 64)%nat by (rewrite <-Hbl; by eapply lookup_lt_Some).
  assert (HkO : k ∈ O i).
  { apply Hsub, elem_of_pick. simpl. rewrite Nat.sub_0_r. by split; [lia|]. }
  destruct (inv_chan _ _ _ _ i Hinv ltac:(done)) as (Hnd & Hin & _).
  destruct (proj1 (Hin k)) as [Hkr Hkm]; [set_solver|]. apply Hlive. split; [done|].
  rewrite Hkm, Nat2Z.id. apply NoDup_app in Hnd as (_ & Hd & _). intros HkF. apply (Hd k HkF). set_solver.
Qed.

Lemma minv_get (p p' : bbm_pri Q Mp) (l : L) r v s :
  seg_map_idx p < 2 ^ 31 - 1 → base_get_segment p false = Ok (s, p') →
  minv (Mgr p l r v) → minv (Mgr p' l r v).
Proof.
  intros Hidx E (F & H & lv & rl & Hinv & Hlive & Hseg & Hl & Hr & Hv & (nf & nh & Hn) & Hi).
  cbn [m_bm m_dev m_reserve m_victims] in *.
  destruct (get_segment_minv false p p' s F H _ lv nf nh Hinv Hlive Hseg Hidx Hn E) as
    (bs & F' & lv' & Hlen & Hinv' & Hlive' & Hseg' & Hi' & Hn' & _ & Hs & Es & Hm & Hk).
  exists F', (heap_gain false bs 0 H), lv', rl. cbn [m_bm m_dev m_reserve m_victims].
  split_and!; try done.
  eapply (reserve_keep p); try done. intros j k Hjk. unfold outs. apply elem_of_app. by left.
Qed.

Lemma minv_reserve (p p' : bbm_pri Q Mp) (l : L) v s :
  seg_map_idx p < 2 ^ 31 - 1 → base_get_segment p true = Ok (s, p') →
  minv (Mgr p l None v) → minv (Mgr p' l (Some s) v).
Proof.
  intros Hidx E (F & H & lv & rl & Hinv & Hlive & Hseg & Hl & Hr & Hv & (nf & nh & Hn) & Hi).
  cbn [m_bm m_dev m_reserve m_victims] in *. destruct rl; [done|].
  destruct (get_segment_minv true p p' s F H _ lv nf nh Hinv Hlive Hseg Hidx Hn E) as
    (bs & F' & lv' & Hlen & Hinv' & Hlive' & Hseg' & Hi' & Hn' & Hres & _).
  exists F', (heap_gain true bs 0 H), lv', (Some bs). cbn [m_bm m_dev m_reserve m_victims].
  split_and!; done.
Qed.

Lemma minv_change (p p' : bbm_pri Q Mp) (l : L) r v s :
  seg_map_idx p < 2 ^ 31 - 1 → base_change_reserve p r = Ok (s, p') →
  minv (Mgr p l (Some r) v) → minv (Mgr p' l (Some s) v).
Proof.
  intros Hidx E (F & H & lv & rl & Hinv & Hlive & Hseg & Hl & Hr & Hv & (nf & nh & Hn) & Hi).
  cbn [m_bm m_dev m_reserve m_victims] in *. destruct rl as [old|]; [|done].
  destruct Hr as (g & Hg & Hb & Hbl & _).
  unfold base_change_reserve in E. apply res_bind_Ok in E as ([s1 p1] & E1 & E).
  destruct (get_segment_minv true p p1 s1 F H _ lv nf nh Hinv Hlive Hseg Hidx Hn E1) as
    (bs & F' & lv' & Hlen & Hinv1 & Hlive' & Hseg1 & Hi1 & (nf' & nh' & Hn') & Hres & Hs1 & Es & _).
  rewrite Es, lookup_insert_ne, Hg in E by congruence. cbn [deref] in E. revert E. rbind. intros E.
  rewrite Hb in E.
  destruct (append_blocks_spec old 0 p1 F' (heap_gain true bs 0 H) _ (outs (Some bs) (g_blocks <$> v)) Hbl Hinv1)
    as (p2 & E2 & Hinv2 & Hfr).
  { intros j Hj. unfold out_gain, outs. simpl. rewrite !app_assoc. f_equiv. apply Permutation_app_comm. }
  rewrite E2 in E. injection E as <- <-. pose proof Hfr as (Hsame & Em & Ei & Eg).
  exists F', (λ j, pick old 0 j ++ heap_gain true bs 0 H j), lv', (Some bs). cbn [m_bm m_dev m_reserve m_victims].
  split_and!; try done; try congruence.
  - by eapply seg_inv_chan.
  - destruct Hres as (g1 & Hg1 & ? & ? & Hf1 & Hk1). exists g1. rewrite Eg, Em. split_and!; try done.
    intros k Hk. rewrite <-(Hk1 k Hk). apply hptr_fields, Hsame.
  - exists nf', (S nh'). intros i Hi0. destruct (Hn' i Hi0) as [-> HnH]. split; [done|].
    rewrite length_app, HnH. unfold pick. rewrite decide_True by lia.
    destruct (lookup_lt_is_Some_2 old (i - 0)%nat) as [b ->]; [lia|done].
Qed.

(** With no collectable block in channel 0 there is no victim. *)
Lemma take_victims_empty n (p : bbm_pri Q Mp) F H O x :
  inv p F H O → H 0%nat = [] → take_victims (S n) p 0 ≠ Ok x.
Proof.
  intros (_ & _ & Hc) E0 E. destruct (Hc 0%nat ltac:(lia)) as (c & Ec & (_ & Hw & _) & _).
  rewrite E0 in Hw. cbn [take_victims] in E. rewrite Ec in E. cbn [deref] in E. revert E. rbind. intros E.
  assert (Hk : MaxHeap.keys_ok base_get_cnt (base_block p) (MaxHeap.body (max_heap c))).
  { intros i d Hd. destruct Hw as (_ & Hf & _). assert (1 <= i <= 0)%nat; [|lia]. apply Hf. eauto. }
  destruct (MaxHeap.mh_construct_spec base_get_cnt base_mh_swap_hptr swap_keys _ _ 0 Hw Hk)
    as (h & bs & E1 & Hw1 & _). rewrite E1 in E. revert E. rbind. intros E.
  apply res_bind_Ok in E as ([[o h'] bs'] & E2 & E).
  apply MaxHeap.mh_get_max_empty in E2; [|apply Hw1]. by subst o.
Qed.

Lemma gc_target_victims (p : bbm_pri Q Mp) g p' :
  base_get_gc_target p = Ok (g, p') → ∃ x, take_victims (Z.to_nat BPS) p 0 = Ok x.
Proof.
  unfold base_get_gc_target. generalize (Z.to_nat BPS). intros n E.
  apply res_bind_Ok in E as (x & E & _). by exists x.
Qed.

Lemma gc_target_eq n (p p1 : bbm_pri Q Mp) bs :
  Z.to_nat BPS = n → take_victims n p 0 = Ok (bs, p1) → base_get_gc_target p = Ok (GSegment bs 0 0 0, p1).
Proof. intros <- E. unfold base_get_gc_target. by rewrite E. Qed.

Lemma gc_target_empty (p : bbm_pri Q Mp) F H O g p' :
  inv p F H O → H 0%nat = [] → base_get_gc_target p ≠ Ok (g, p').
Proof.
  intros Hinv E0 [x E]%gc_target_victims. revert E. generalize (eq_refl (Z.to_nat BPS)).
  generalize (Z.to_nat BPS) at 1 3 as n. intros [|n] En; [done|].
  by apply (take_victims_empty n p F H O x Hinv E0).
Qed.

Lemma minv_target (p p' : bbm_pri Q Mp) (l : L) r g :
  base_get_gc_target p = Ok (g, p') → minv (Mgr p l r None) → minv (Mgr p' l r (Some g)).
Proof.
  intros E (F & H & lv & rl & Hinv & Hlive & Hseg & Hl & Hr & _ & (nf & nh & Hn) & Hi).
  cbn [m_bm m_dev m_reserve m_victims] in *.
  assert (Hne : ∀ j, (0 <= j < 64)%nat → H j ≠ []).
  { intros j Hj Ej. destruct (Hn j ltac:(lia)) as [_ Hjn]. rewrite Ej in Hjn. simpl in Hjn.
    destruct (Hn 0%nat ltac:(lia)) as [_ H0n]. rewrite <-Hjn in H0n. apply length_zero_iff_nil in H0n.
    by apply (gc_target_empty p F H _ g p' Hinv H0n). }
  destruct (take_victims_spec 64 0 p F H _ eq_refl Hinv Hne) as (bs & p1 & H' & E1 & Hlen & Hinv1 & HH & _ & Hfr).
  rewrite (gc_target_eq 64 p p1 bs eq_refl E1) in E. injection E as <- <-. pose proof Hfr as (Hsame & Em & Ei & Eg).
  exists F, H', lv, rl. cbn [m_bm m_dev m_reserve m_victims]. split_and!; try done; try congruence.
  - eapply inv_ext; [exact Hinv1|]. intros j Hj. unfold outs. simpl. rewrite pick_nil, app_nil_r.
    split_and!; try done. apply Permutation_app_comm.
  - by eapply seg_inv_chan.
  - unfold reserve_ok in *. destruct r as [s|], rl as [old|]; try done.
    destruct Hr as (g1 & ? & ? & ? & ? & Hk1). exists g1. rewrite Eg, Em. split_and!; try done.
    intros k Hk. rewrite <-(Hk1 k Hk). apply hptr_fields, Hsame.
  - by intros ? [= <-].
  - exists nf, (nh - 1)%nat. intros i Hi0. destruct (Hn i Hi0) as [-> HnH]. split; [done|].
    specialize (HH i Hi0). apply Permutation_length in HH. rewrite length_app in HH. unfold pick in HH.
    rewrite decide_True in HH by lia. destruct (lookup_lt_is_Some_2 bs (i - 0)%nat) as [b Hb]; [lia|].
    rewrite Hb in HH. simpl in HH. lia.
Qed.

(** No block outside the reserve has the number of the reserve segment. *)
Lemma reserve_alone (p : bbm_pri Q Mp) lv F H O s bs g k :
  inv p F H O → live_ok F lv → seg_inv p lv ∅ →
  im_find (s_seg_idx g) (seg_map p) = Some s → length bs = 64%nat →
  (∀ k, k ∈ bs → seg_idx (ca_at (base_block p) k) = s_seg_idx g) →
  (∀ k, k ∈ bs → k ∈ lv) → NoDup bs → k ∈ lv → k ∉ bs → seg_idx (ca_at (base_block p) k) ≠ s_seg_idx g.
Proof.
  intros Hinv Hlive (_ & _ & _ & H3 & _) Hf Hbl Hk Hsub Hnd Hkl Hkb E.
  destruct (H3 _ _ Hf) as (_ & g0 & _ & Hgi & Hgc). change BPS with 64 in *.
  assert (Hle : (size (list_to_set (C:=gset Z) (k :: bs)) <= size (of_seg p lv (s_seg_idx g)))%nat).
  { apply subseteq_size. intros j Hj%elem_of_list_to_set. apply elem_of_filter.
    apply elem_of_cons in Hj as [->|Hj]; [done|]. auto. }
  rewrite size_list_to_set in Hle by (by constructor). simpl in Hle. lia.
Qed.

Lemma minv_trim (p p' : bbm_pri Q Mp) (l l' : L) r g :
  base_trim_segment p g l = Ok (p', l') → minv (Mgr p l r (Some g)) →
  minv (Mgr p' l' r None) ∧ blocks_erased p l p' l' (g_blocks g).
Proof.
  intros E (F & H & lv & rl & Hinv & Hlive & Hseg & Hl & Hr & Hv & (nf & nh & Hn) & Hi).
  cbn [m_bm m_dev m_reserve m_victims] in *. specialize (Hv g eq_refl). unfold base_trim_segment in E.
  destruct (trim_blocks_spec (g_blocks g) 0 p l F H _ (outs rl None) lv Hv Hinv Hlive Hseg Hl) as
    (p1 & l1 & F1 & lv1 & E1 & Hinv1 & HF1 & Hlive1 & Hseg1 & Hl1 & Her & Ei & Hkept).
  { intros j Hj. unfold outs. simpl. rewrite pick_nil, app_nil_r. apply Permutation_app_comm. }
  rewrite E1 in E. injection E as <- <-. split; [|done].
  exists F1, H, lv1, rl. cbn [m_bm m_dev m_reserve m_victims]. split_and!; try done; try congruence.
  - unfold reserve_ok in *. destruct r as [s|], rl as [bs|]; try done.
    destruct Hr as (g1 & Hg1 & Hb1 & Hbl & Hf1 & Hk1).
    assert (Hchan : ∀ (xs : list Z) i k, xs !! i = Some k → length xs = 64%nat →
       (∀ j, k ∈ pick xs 0 j → k ∈ outs (Some bs) (Some (g_blocks g)) j) → k ∈ lv ∧ k mod 64 = Z.of_nat i).
    { intros xs i k Hik Hxl Hsub. assert (i < 64)%nat by (rewrite <-Hxl; by eapply lookup_lt_Some).
      destruct (inv_chan _ _ _ _ i Hinv ltac:(done)) as (Hnd & Hin & _).
      assert (HkO : k ∈ outs (Some bs) (Some (g_blocks g)) i).
      { apply Hsub, elem_of_pick. rewrite Nat.sub_0_r. by split; [lia|]. }
      destruct (proj1 (Hin k)) as [Hkr Hkm]; [rewrite !elem_of_app; by right; right|].
      split; [|done]. apply Hlive. split; [done|]. rewrite Hkm, Nat2Z.id.
      apply NoDup_app in Hnd as (_ & Hd & _). intros HkF. apply (Hd k HkF). rewrite elem_of_app. by right. }
    assert (Hbs : ∀ i k, bs !! i = Some k → k ∈ lv ∧ k mod 64 = Z.of_nat i).
    { intros i k Hik. apply (Hchan bs); try done. intros j Hj. unfold outs. simpl. rewrite elem_of_app. by left. }
    assert (Hvs : ∀ i k, g_blocks g !! i = Some k → k ∈ lv ∧ k mod 64 = Z.of_nat i).
    { intros i k Hik. apply (Hchan (g_blocks g)); try done. intros j Hj. unfold outs. simpl. rewrite elem_of_app. by right. }
    assert (Hdisj : ∀ k, k ∈ g_blocks g → k ∉ bs).
    { intros k Hkv Hkb. apply list_elem_of_lookup in Hkv as [i Hi1], Hkb as [j Hj1].
      destruct (Hvs i k Hi1) as [_ Hm1]. destruct (Hbs j k Hj1) as [_ Hm2].
      assert (i = j) as -> by lia. assert (j < 64)%nat by (rewrite <-Hbl; by eapply lookup_lt_Some).
      destruct (inv_chan _ _ _ _ j Hinv ltac:(done)) as (Hnd & _ & _). unfold outs in Hnd. simpl in Hnd.
      apply NoDup_app in Hnd as (_ & _ & Hnd). apply NoDup_app in Hnd as (_ & _ & Hnd).
      apply NoDup_app in Hnd as (_ & Hd & _). apply (Hd k); apply elem_of_pick; rewrite Nat.sub_0_r; by split; [lia|]. }
    assert (Hndb : NoDup bs).
    { apply NoDup_alt. intros i j k Hi1 Hj1. destruct (Hbs i k Hi1), (Hbs j k Hj1). lia. }
    destruct (Hkept (s_seg_idx g1) s) as [Hf2 Eg2]; [|done|].
    { intros k Hk. apply (reserve_alone p lv F H (outs (Some bs) (Some (g_blocks g))) s bs g1); try done.
      - intros j Hj. apply list_elem_of_lookup in Hj as [i Hi1]. by destruct (Hbs i j Hi1).
      - apply list_elem_of_lookup in Hk as [i Hi1]. by destruct (Hvs i k Hi1).
      - by apply Hdisj. }
    exists g1. rewrite Eg2. split_and!; try done. intros k Hk. destruct Her as [Hblk _]. rewrite Hblk.
    rewrite decide_False; [by apply Hk1|]. intros Hkv. by apply (Hdisj k).
  - exists (S nf), nh. intros i Hi0. destruct (Hn i Hi0) as [HnF ->]. split; [|done].
    rewrite (HF1 i Hi0), length_app, HnF. unfold pick. rewrite decide_True by lia.
    destruct (lookup_lt_is_Some_2 (g_blocks g) (i - 0)%nat) as [b ->]; [lia|]. simpl. lia.
Qed.

Lemma mstep_minv m m' : mstep m m' → minv m → minv m'.
Proof.
  intros Hstep Hm. destruct Hstep.
  - by eapply minv_get.
  - by eapply minv_reserve.
  - by eapply minv_change.
  - by eapply minv_target.
  - by eapply minv_trim.
  - pose proof Hm as (F & HH & lv & rl & (Hwf & _) & _). cbn [m_bm] in Hwf.
    edestruct get_page_frame as [? ?]; [done|done|]. by eapply minv_frame.
  - pose proof Hm as (F & HH & lv & rl & (Hwf & _) & _). cbn [m_bm] in Hwf.
    eapply minv_frame; [by eapply bstep_frame| |done]. destruct o as [q|q|q|q]; cbn [bstep bop_page] in *.
    + destruct (populate_Ok p q Hwf) as (p1 & E & ? & _); [done|]. congruence.
    + destruct (unpopulate_Ok p q Hwf) as (p1 & E & ? & _); [done|]. congruence.
    + apply res_bind_Ok in H0 as (? & _ & [= _ <-]). done.
    + apply res_bind_Ok in H0 as (? & _ & [= _ <-]). done.
  - pose proof Hm as (F & HH & lv & rl & (Hwf & _) & _). cbn [m_bm] in Hwf.
    eapply minv_frame; [by eapply set_oob_frame| |done].
    destruct (set_oob_Ok p d q Hwf) as (p1 & E & ? & _); [done..|]. congruence.
  - destruct Hm as (F & HH & lv & rl & ? & ? & ? & _ & ?). by exists F, HH, lv, rl.
Qed.

Lemma reachable_minv m0 m : reachable m0 m → minv m0 → minv m.
Proof. induction 1; [done|]. intros. eapply mstep_minv; eauto. Qed.

(** *** Progress *)

Lemma created_inv c p c' :
  checker_ready c → base_create (Q:=Q) (Mp:=Mp) c = Ok (p, c') →
  inv p chan_blocks (λ _, []) (λ _, []) ∧ live_ok chan_blocks ∅ ∧ seg_inv p ∅ ∅ ∧ seg_map_idx p = 0 ∧
  (∀ k, 0 <= k < NBLOCKS → ca_at (base_block p) k = fresh_block k).
Proof.
  intros Hc E. destruct (base_create_Ok (Q:=Q) (Mp:=Mp) c Hc) as
    (p0 & c0 & E0 & Hwf & Hfresh & Hlen & Hch & Em & Ei & Eg).
  rewrite E0 in E. injection E as <- <-. rewrite NOB_BPS in Hch. split_and!; try done.
  - split_and!; try done. intros i Hi. destruct (lookup_lt_is_Some_2 (base_channel p0) i) as [ch Hi']; [lia|].
    destruct (Hch i ch Hi') as [Hf Hh]. exists ch. split; [done|].
    destruct (MaxHeap.mh_init_wf (D:=Z) (Z.to_nat _NOS)) as [Hw He]. pose proof NOS_range.
    split; [|by rewrite app_nil_r]. unfold chan_ok. rewrite Hh. split_and!; try done; [|by rewrite He].
    cbn [MaxHeap.mh_init MaxHeap.max]. lia.
  - intros k. split; [set_solver|]. intros [Hk Hn]. exfalso. apply Hn.
    pose proof (Z.mod_pos_bound k 64). apply elem_of_chan_blocks; [lia|]. split; [done|lia].
  - unfold seg_inv. rewrite Em, Ei, Eg. split_and!; try done; try set_solver.
    + intros x s Hx. by rewrite im_find_create in Hx.
    + intros x y s Hx. by rewrite im_find_create in Hx.
Qed.

Lemma created_minv c p c' (l : L) :
  checker_ready c → base_create (Q:=Q) (Mp:=Mp) c = Ok (p, c') → low_wf l → minv (Mgr p l None None).
Proof.
  intros Hc E Hl. destruct (created_inv c p c' Hc E) as (Hinv & Hlive & Hseg & Ei & _).
  exists chan_blocks, (λ _, []), ∅, None. cbn [m_bm m_dev m_reserve m_victims].
  split_and!; try done; try (rewrite Ei; lia).
  by exists (Z.to_nat _NOS), 0%nat; intros i Hi; rewrite chan_blocks_length.
Qed.

(** The counter of channel 0 speaks for all channels. *)
Lemma gc_needed_spec (p : bbm_pri Q Mp) (l : L) r v :
  minv (Mgr p l r v) → ∃ F H lv rl, inv p F H (outs rl (g_blocks <$> v)) ∧ live_ok F lv ∧ seg_inv p lv ∅ ∧
    base_is_gc_needed p = Ok (bool_decide (F 0%nat = [])) ∧ (F 0%nat ≠ [] → ∀ j, (j < 64)%nat → F j ≠ []).
Proof.
  intros (F & H & lv & rl & Hinv & Hlive & Hseg & _ & _ & _ & (nf & nh & Hn) & _). cbn [m_bm m_victims] in *.
  exists F, H, lv, rl. split_and!; try done.
  - destruct Hinv as (_ & _ & Hc). destruct (Hc 0%nat ltac:(lia)) as (c & Ec & (Hf & _) & _).
    unfold base_is_gc_needed. rewrite Ec. cbn [deref]. rbind. rewrite (fifo_size_spec _ _ _ Hf). f_equal.
    case_bool_decide as E; [by rewrite E|]. apply Z.eqb_neq. destruct (F 0%nat); [done|]. simpl. lia.
  - intros H0 j Hj E. destruct (Hn j Hj) as [Hjn _], (Hn 0%nat ltac:(lia)) as [H0n _].
    rewrite E in Hjn. simpl in Hjn. rewrite <-Hjn in H0n. by apply length_zero_iff_nil in H0n.
Qed.

(** The victims and what is left. *)
Lemma gc_target_spec (p : bbm_pri Q Mp) (l : L) r :
  minv (Mgr p l r None) → ∀ c0, base_channel p !! 0%nat = Some c0 → 0 < MaxHeap.size (max_heap c0) →
  ∃ g p', base_get_gc_target p = Ok (g, p') ∧ length (g_blocks g) = 64%nat ∧
    ∀ i b, g_blocks g !! i = Some b → ∃ c, base_channel p !! i = Some c ∧
      b ∈ MaxHeap.elems (MaxHeap.body (max_heap c)) ∧
      ∀ b', b' ∈ MaxHeap.elems (MaxHeap.body (max_heap c)) →
        invalid_number (ca_at (base_block p) b') <= invalid_number (ca_at (base_block p) b).
Proof.
  intros (F & H & lv & rl & Hinv & _ & _ & _ & _ & _ & (nf & nh & Hn) & _) c0 Ec0 Hsz. cbn [m_bm m_victims] in *.
  pose proof Hinv as (_ & _ & Hc).
  assert (Hne : ∀ j, (0 <= j < 64)%nat → H j ≠ []).
  { intros j Hj E. destruct (Hn j ltac:(lia)) as [_ Hjn], (Hn 0%nat ltac:(lia)) as [_ H0n].
    rewrite E in Hjn. simpl in Hjn. destruct (Hc 0%nat ltac:(lia)) as (c & Ec & (_ & (Hs & _) & _) & _).
    rewrite Ec0 in Ec. injection Ec as <-. lia. }
  destruct (take_victims_spec 64 0 p F H _ eq_refl Hinv Hne) as (bs & p1 & H' & E1 & Hlen & _ & HH & Hmax & _).
  exists (GSegment bs 0 0 0), p1. split; [by apply (gc_target_eq 64)|]. split; [done|].
  cbn [g_blocks]. intros i b Hb. assert (Hi : (i < 64)%nat) by (rewrite <-Hlen; by eapply lookup_lt_Some).
  destruct (Hc i Hi) as (c & Ec & (_ & _ & _ & He) & _). exists c. split; [done|].
  assert (Hpb : b ∈ pick bs 0 i) by (apply elem_of_pick; rewrite Nat.sub_0_r; split; [lia|done]).
  split.
  - rewrite He, (HH i Hi). apply elem_of_app. by left.
  - intros b' Hb'. rewrite He in Hb'. by apply (Hmax i b b').
Qed.

Lemma trim_spec (p : bbm_pri Q Mp) (l : L) r g :
  minv (Mgr p l r (Some g)) →
  ∃ p' l', base_trim_segment p g l = Ok (p', l') ∧ minv (Mgr p' l' r None) ∧ blocks_erased p l p' l' (g_blocks g).
Proof.
  intros Hm. pose proof Hm as (F & H & lv & rl & Hinv & Hlive & Hseg & Hl & _ & Hv & _).
  cbn [m_bm m_dev m_reserve m_victims] in *. specialize (Hv g eq_refl).
  destruct (trim_blocks_spec (g_blocks g) 0 p l F H _ (outs rl None) lv Hv Hinv Hlive Hseg Hl) as
    (p1 & l1 & F1 & lv1 & E1 & _).
  { intros j Hj. unfold outs. simpl. rewrite pick_nil, app_nil_r. apply Permutation_app_comm. }
  exists p1, l1. split; [done|]. by apply minv_trim.
Qed.

(** Every new manager can hand out a segment and choose victims. *)
Lemma first_run c (l : L) :
  checker_ready c → low_wf l →
  ∃ (p : bbm_pri Q Mp) c' s p1 g p2, base_create c = Ok (p, c') ∧
    base_is_gc_needed p = Ok false ∧ seg_map_idx p < 2 ^ 31 - 1 ∧ base_get_segment p false = Ok (s, p1) ∧
    (∃ c0, base_channel p1 !! 0%nat = Some c0 ∧ 0 < MaxHeap.size (max_heap c0)) ∧
    base_get_gc_target p1 = Ok (g, p2).
Proof.
  intros Hc Hl. destruct (base_create_Ok (Q:=Q) (Mp:=Mp) c Hc) as (p & c' & E & _ & _ & _ & Hch & _ & Ei & _).
  pose proof (created_minv c p c' l Hc E Hl) as Hm.
  destruct (gc_needed_spec p l None None Hm) as (F & H & lv & rl & Hinv & Hlive & Hseg & Hgc & Hne).
  assert (HF0 : F 0%nat ≠ []).
  { intros E0. pose proof Hinv as (_ & _ & Hcs). destruct (Hcs 0%nat ltac:(lia)) as (ch & Ech & (Hf & _) & _).
    destruct (Hch 0%nat ch Ech) as [Hf' _]. apply fifo_size_spec in Hf, Hf'. rewrite Hf, E0 in Hf'.
    rewrite chan_blocks_length in Hf'. pose proof NOS_range. simpl in Hf'. lia. }
  destruct (get_segment_Ok false p F H _ lv Hinv Hlive Hseg) as
    (bs & s & p1 & F1 & lv1 & E1 & Hbl & Hinv1 & _); [rewrite Ei; lia|by apply Hne|].
  pose proof (minv_get p p1 l None None s ltac:(rewrite Ei; lia) E1 Hm) as Hm1.
  assert (Hsz : ∃ c0, base_channel p1 !! 0%nat = Some c0 ∧ 0 < MaxHeap.size (max_heap c0)).
  { destruct Hinv1 as (_ & _ & Hc1). destruct (Hc1 0%nat ltac:(lia)) as (c0 & Ec0 & (_ & (Hs & _) & _) & _).
    exists c0. split; [done|]. rewrite Hs. unfold heap_gain. rewrite length_app. unfold pick.
    rewrite decide_True by lia. destruct (lookup_lt_is_Some_2 bs (0 - 0)%nat) as [b ->]; [lia|]. simpl. lia. }
  pose proof Hsz as (c0 & Ec0 & Hpos).
  destruct (gc_target_spec p1 l None Hm1 c0 Ec0 Hpos) as (g & p2 & E2 & _).
  exists p, c', s, p1, g, p2. split_and!; try done; [|rewrite Ei; lia].
  rewrite Hgc. by rewrite bool_decide_false.
Qed.

End machine.

(** ** Properties *)

(** The blocks of the reserve segment. *)
Definition reserve_blocks {Q Mp L} (m : mgr (Q:=Q) (Mp:=Mp) (L:=L)) : list Z :=
  match m_reserve m with
  | Some s => match segs (m_bm m) !! s with Some g => s_blocks g | None => [] end
  | None => []
  end.
Definition victim_blocks {Q Mp L} (m : mgr (Q:=Q) (Mp:=Mp) (L:=L)) : list Z :=
  match m_victims m with Some g => g_blocks g | None => [] end.

(** C13: no block is lost or handed out twice. Whatever a translation layer does
    with a new manager, at every moment each channel's blocks are, each exactly
    once, in its free queue, in its heap, in the reserve segment or among the
    victims of the running collection; and all channels have the same number of
    free blocks. *)
Theorem no_block_is_lost `{Sg : Settings, !SettingsOk Sg} {Q Mp L : Type} `{!FIFO Z Q, !IntMap loc Mp}
    `{!Lower L, !LowerOk L} (c c' : BadBlock.bb_checker) (p : bbm_pri Q Mp) (l : L) m :
  checker_ready c → base_create c = Ok (p, c') → low_wf l → reachable (Mgr p l None None) m →
  ∃ nf, ∀ i, (i < 64)%nat → ∃ ch fs, base_channel (m_bm m) !! i = Some ch ∧
    fifo_repr (free_block ch) _NOS fs ∧ length fs = nf ∧
    fs ++ MaxHeap.elems (MaxHeap.body (max_heap ch)) ++ option_list (reserve_blocks m !! i)
       ++ option_list (victim_blocks m !! i) ≡ₚ chan_blocks i.
Proof.
  intros Hc E Hl Hr. apply reachable_minv in Hr; [|by eapply created_minv].
  destruct Hr as (F & H & lv & rl & (_ & _ & Hch) & _ & _ & _ & Hres & _ & (nf & nh & Hn) & _).
  exists nf. intros i Hi. destruct (Hch i Hi) as (ch & Ech & (Hf & _ & _ & He) & Hp).
  exists ch, (F i). destruct (Hn i Hi) as [HnF _]. split_and!; try done. rewrite <-Hp, He.
  assert (Ho : option_list (reserve_blocks m !! i) ++ option_list (victim_blocks m !! i)
    = outs rl (g_blocks <$> m_victims m) i); [|by rewrite Ho].
  unfold outs, pick. rewrite !decide_True, Nat.sub_0_r by lia. f_equal.
  - unfold reserve_blocks. unfold reserve_ok in Hres. destruct (m_reserve m) as [s|], rl as [bs|]; try done.
    destruct Hres as (g & -> & -> & _). done.
  - unfold victim_blocks. by destruct (m_victims m).
Qed.

(** A new 1 GB manager over a new memory device, one segment taken, its blocks
    chosen as victims. *)
#[local] Existing Instance settings_1.
Definition sample_dev : PosixMemory.posix := PosixMemory.posix_create 0.

Definition sample_run := first_run (Q:=Queue.queue Z) (Mp:=gmap Z loc)
  BadBlock.unfixed sample_dev unfixed_ready PosixMemory.posix_create_wf.

Lemma no_block_is_lost_witness :
  ∃ p c' (p1 : bbm_pri (Queue.queue Z) (gmap Z loc)), base_create (Q:=Queue.queue Z) (Mp:=gmap Z loc) BadBlock.unfixed = Ok (p, c') ∧
  ∃ nf, ∀ i, (i < 64)%nat → ∃ ch fs, base_channel p1 !! i = Some ch ∧
    fifo_repr (free_block ch) _NOS fs ∧ length fs = nf ∧
    fs ++ MaxHeap.elems (MaxHeap.body (max_heap ch)) ++ [] ++ [] ≡ₚ chan_blocks i.
Proof.
  destruct sample_run as (p & c' & s & p1 & g & p2 & E & _ & Hi & E1 & _). exists p, c', p1.
  split; [exact E|].
  refine (no_block_is_lost BadBlock.unfixed c' p sample_dev (Mgr p1 sample_dev None None)
    unfixed_ready E PosixMemory.posix_create_wf _).
  eapply reach_step; [apply reach_refl|]. exact (Get _ _ _ _ _ _ Hi E1).
Defined.

(** C14: one test protects all channels. In every reachable state, if
    [base_is_gc_needed], which looks at channel 0 only, answers no, then
    [base_get_segment] finds a free block in every channel and succeeds, for an
    active and for a reserve segment alike; if it answers yes, [base_get_segment]
    fails: it aborts for a reserve segment, and for an active one it passes a
    NULL block to the heap. *)
Theorem gc_test_protects_get_segment `{Sg : Settings, !SettingsOk Sg} {Q Mp L : Type}
    `{!FIFO Z Q, !IntMap loc Mp} `{!Lower L, !LowerOk L} (c c' : BadBlock.bb_checker) (p : bbm_pri Q Mp)
    (l : L) m (isreserve : bool) :
  checker_ready c → base_create c = Ok (p, c') → low_wf l → reachable (Mgr p l None None) m →
  seg_map_idx (m_bm m) < 2 ^ 31 - 1 →
  (base_is_gc_needed (m_bm m) = Ok false ∧ ∃ s p', base_get_segment (m_bm m) isreserve = Ok (s, p')) ∨
  (base_is_gc_needed (m_bm m) = Ok true ∧
   base_get_segment (m_bm m) isreserve = Err (if isreserve then Aborted else Undefined)).
Proof.
  intros Hc E Hl Hr Hidx. apply reachable_minv in Hr; [|by eapply created_minv].
  destruct m as [q l' r v]. cbn [m_bm] in *.
  destruct (gc_needed_spec q l' r v Hr) as (F & H & lv & rl & Hinv & Hlive & Hseg & Hgc & Hne).
  rewrite Hgc. case_bool_decide as E0.
  - right. split; [done|]. by eapply get_segment_empty.
  - left. split; [done|]. destruct (get_segment_Ok isreserve q F H _ lv Hinv Hlive Hseg) as (? & s & p' & ? & ? & ? & _);
      [lia|by apply Hne|]. by exists s, p'.
Qed.

Lemma gc_test_protects_get_segment_witness :
  ∃ p c' (p1 : bbm_pri (Queue.queue Z) (gmap Z loc)), base_create (Q:=Queue.queue Z) (Mp:=gmap Z loc) BadBlock.unfixed = Ok (p, c') ∧
  ((base_is_gc_needed p1 = Ok false ∧ ∃ s p', base_get_segment p1 true = Ok (s, p')) ∨
   (base_is_gc_needed p1 = Ok true ∧ base_get_segment p1 true = Err Aborted)).
Proof.
  destruct sample_run as (p & c' & s & p1 & g & p2 & E & _ & Hi & E1 & _). exists p, c', p.
  split; [exact E|].
  refine (gc_test_protects_get_segment BadBlock.unfixed c' p sample_dev (Mgr p sample_dev None None) true
    unfixed_ready E PosixMemory.posix_create_wf (reach_refl _) Hi).
Defined.

(** C17: the victims of garbage collection are the blocks with the most invalid
    pages. In a reachable state with no collection running and something to
    collect, [base_get_gc_target] returns one block per channel, each of them a
    collectable block of its channel with the largest number of invalid pages. *)
Theorem gc_victims_are_most_invalid `{Sg : Settings, !SettingsOk Sg} {Q Mp L : Type}
    `{!FIFO Z Q, !IntMap loc Mp} `{!Lower L, !LowerOk L} (c c' : BadBlock.bb_checker) (p q : bbm_pri Q Mp)
    (l l' : L) r c0 :
  checker_ready c → base_create c = Ok (p, c') → low_wf l →
  reachable (Mgr p l None None) (Mgr q l' r None) →
  base_channel q !! 0%nat = Some c0 → 0 < MaxHeap.size (max_heap c0) →
  ∃ g q', base_get_gc_target q = Ok (g, q') ∧ length (g_blocks g) = 64%nat ∧
    ∀ i b, g_blocks g !! i = Some b → ∃ ch, base_channel q !! i = Some ch ∧
      b ∈ MaxHeap.elems (MaxHeap.body (max_heap ch)) ∧
      ∀ b', b' ∈ MaxHeap.elems (MaxHeap.body (max_heap ch)) →
        invalid_number (ca_at (base_block q) b') <= invalid_number (ca_at (base_block q) b).
Proof.
  intros Hc E Hl Hr. apply reachable_minv in Hr; [|by eapply created_minv].
  by apply (gc_target_spec q l' r).
Qed.

Lemma gc_victims_are_most_invalid_witness :
  ∃ p c' (q : bbm_pri (Queue.queue Z) (gmap Z loc)), base_create (Q:=Queue.queue Z) (Mp:=gmap Z loc) BadBlock.unfixed = Ok (p, c') ∧
  ∃ g q', base_get_gc_target q = Ok (g, q') ∧ length (g_blocks g) = 64%nat ∧
    ∀ i b, g_blocks g !! i = Some b → ∃ ch, base_channel q !! i = Some ch ∧
      b ∈ MaxHeap.elems (MaxHeap.body (max_heap ch)) ∧
      ∀ b', b' ∈ MaxHeap.elems (MaxHeap.body (max_heap ch)) →
        invalid_number (ca_at (base_block q) b') <= invalid_number (ca_at (base_block q) b).
Proof.
  destruct sample_run as (p & c' & s & p1 & g & p2 & E & _ & Hi & E1 & (c0 & Ec0 & Hpos) & _).
  exists p, c', p1. split; [exact E|].
  refine (gc_victims_are_most_invalid BadBlock.unfixed c' p p1 sample_dev sample_dev None c0
    unfixed_ready E PosixMemory.posix_create_wf _ Ec0 Hpos).
  eapply reach_step; [apply reach_refl|]. exact (Get _ _ _ _ _ _ Hi E1).
Defined.

(** C16: trimming erases the victims and nothing else. In a reachable state with
    victims [g], [base_trim_segment] succeeds; afterwards every page of a victim
    block is erased on the device and invalid in the bitmap, and the contents
    and validity of all other pages are unchanged. *)
Theorem trim_erases_exactly_the_victims `{Sg : Settings, !SettingsOk Sg} {Q Mp L : Type}
    `{!FIFO Z Q, !IntMap loc Mp} `{!Lower L, !LowerOk L} (c c' : BadBlock.bb_checker) (p q : bbm_pri Q Mp)
    (l l1 : L) r g :
  checker_ready c → base_create c = Ok (p, c') → low_wf l →
  reachable (Mgr p l None None) (Mgr q l1 r (Some g)) →
  ∃ q' l2, base_trim_segment q g l1 = Ok (q', l2) ∧
    ∀ ppa, 0 <= ppa < _NOP →
      (GETBLOCKIDX ppa ∈ g_blocks g → low_page l2 ppa = None ∧ base_is_valid_page q' ppa = Ok false) ∧
      (GETBLOCKIDX ppa ∉ g_blocks g →
         low_page l2 ppa = low_page l1 ppa ∧ base_is_valid_page q' ppa = base_is_valid_page q ppa).
Proof.
  intros Hc E Hl Hr. apply reachable_minv in Hr; [|by eapply created_minv].
  destruct (trim_spec q l1 r g Hr) as (q' & l2 & E2 & Hm' & [Hb Hp]). exists q', l2. split; [done|].
  destruct Hr as (? & ? & ? & ? & (Hwf & _) & _). destruct Hm' as (? & ? & ? & ? & (Hwf' & _) & _).
  cbn [m_bm] in *. intros ppa Hppa. rewrite !is_valid_Ok by done. rewrite Hp by done.
  unfold page_bit. rewrite Hb. split; intros Hin.
  - rewrite !decide_True by done. split; [done|]. cbn [cleared set_oob_list set_bitset bitset].
    unfold zero_bitset. by rewrite ca_at_new, Z.bits_0.
  - by rewrite !decide_False by done.
Qed.

Lemma trim_erases_exactly_the_victims_witness :
  ∃ p c' (q : bbm_pri (Queue.queue Z) (gmap Z loc)) g, base_create (Q:=Queue.queue Z) (Mp:=gmap Z loc) BadBlock.unfixed = Ok (p, c') ∧
  ∃ q' l2, base_trim_segment q g sample_dev = Ok (q', l2) ∧
    ∀ ppa, 0 <= ppa < _NOP →
      (GETBLOCKIDX ppa ∈ g_blocks g → low_page l2 ppa = None ∧ base_is_valid_page q' ppa = Ok false) ∧
      (GETBLOCKIDX ppa ∉ g_blocks g →
         low_page l2 ppa = low_page sample_dev ppa ∧ base_is_valid_page q' ppa = base_is_valid_page q ppa).
Proof.
  destruct sample_run as (p & c' & s & p1 & g & p2 & E & _ & Hi & E1 & _ & E2).
  exists p, c', p2, g. split; [exact E|].
  refine (trim_erases_exactly_the_victims BadBlock.unfixed c' p p2 sample_dev sample_dev None g
    unfixed_ready E PosixMemory.posix_create_wf _).
  eapply reach_step; [|exact (Target _ _ _ _ _ E2)].
  eapply reach_step; [apply reach_refl|]. exact (Get _ _ _ _ _ _ Hi E1).
Defined.

End Inventory.
