(* ===== verification/PageFtl.v ===== *)
(** * The page-level translation layer (algorithm/Page_ftl)

    [map.c] keeps, for every logical page, the physical page it was last written
    to; [gc.c] copies the valid pages of the victim blocks to the reserve
    segment and erases the victims; [page.c] serves read and write requests. The
    layer runs over the block manager ([BlockManager]) and a device ([Lower]).

    The requests of the collector complete at once, so every entry of its list
    of reads is done when it is looked at and the list is served in order. *)
From S2P Require Export Prelude Settings Queue BadBlock Lower BlockManager BlockInventory PosixMemory.
Import BlockManager Inventory.

Local Open Scope Z_scope.

Module PageFtl.
Section ftl.
Context `{Sg : Settings} {Q Mp L : Type} `{!FIFO Z Q} `{!IntMap loc Mp} `{!Lower L}.

(** ** State *)

(** [pm_body]; the fields [isfull] and [assign_page] are not used. *)
Record pm_body := Body { mapping : carray Z; reserve : loc; active : loc }.

(** The layer with its block manager and device. *)
Record ftl := Ftl { bm : bbm_pri Q Mp; li : L; body : pm_body }.

(** [gc_value], once its read is done. *)
Record gc_value := GcValue { gv_ppa : Z; gv_value : value_set }.

(** ** gc.c: validity *)

Definition invalidate_ppa (p : bbm_pri Q Mp) (ppa : Z) : res (bbm_pri Q Mp) :=
  '(_, p) ← base_unpopulate_bit p ppa; Ok p.

Definition validate_ppa (p : bbm_pri Q Mp) (ppa lba : Z) : res (bbm_pri Q Mp) :=
  '(_, p) ← base_populate_bit p ppa;
  base_set_oob p (le32_bytes lba) 4 ppa.

(** ** map.c *)

Definition page_map_create (p : bbm_pri Q Mp) (l : L) : res ftl :=
  let m := ca_new _NOP UINT_MAX in
  '(r, p) ← base_get_segment p true;
  '(a, p) ← base_get_segment p false;
  Ok (Ftl p l (Body m r a)).

Definition page_map_pick (f : ftl) (lba : Z) : res Z :=
  r ← ca_get (mapping (body f)) lba;
  abort_if (r =? UINT_MAX) (Ok r).

Definition page_map_gc_update (f : ftl) (lba ppa : Z) : res (Z * ftl) :=
  '(r, p) ← base_get_page_num (bm f) (reserve (body f));
  let r := u32 r in
  p ← invalidate_ppa p ppa;
  p ← validate_ppa p r lba;
  Ok (r, Ftl p (li f) (body f)).

(** ** gc.c: the collector *)

(** [send_req] for a read: the page in a fresh buffer. *)
Definition send_read (f : ftl) (ppa : Z) : res (gc_value * ftl) :=
  v ← inf_get_valueset false None FS_MALLOC_R PAGESIZE;
  '(v, l) ← low_read GCDR ppa PAGESIZE v (li f);
  Ok (GcValue ppa v, Ftl (bm f) l (body f)).

(** [send_req] for a write of a page that was read. *)
Definition send_write (f : ftl) (ppa : Z) (gv : gc_value) : res ftl :=
  l ← low_write GCDW ppa PAGESIZE (gv_value gv) (li f);
  Ok (Ftl (bm f) l (body f)).

(** The pages of the victims in the order of [for_each_page_in_seg]: page [pidx]
    of each block, then the next page. *)
Fixpoint gc_read_blocks (f : ftl) (bs : list Z) (pidx : Z) : res (list gc_value * ftl) :=
  match bs with
  | [] => Ok ([], f)
  | k :: bs =>
    b ← ca_get (base_block (bm f)) k;
    let page := PPAMAKER b pidx in
    inv ← base_is_invalid_page (bm f) page;
    if inv : bool then gc_read_blocks f bs pidx
    else
      '(gv, f) ← send_read f page;
      '(gvs, f) ← gc_read_blocks f bs pidx;
      Ok (gv :: gvs, f)
  end.

Fixpoint gc_read_pages (n : nat) (f : ftl) (bs : list Z) (pidx : Z) : res (list gc_value * ftl) :=
  match n with
  | O => Ok ([], f)
  | S n =>
    '(gvs, f) ← gc_read_blocks f bs pidx;
    '(gvs', f) ← gc_read_pages n f bs (pidx + 1);
    Ok (gvs ++ gvs', f)
  end.

(** The second loop of [do_gc]: move every page that was read. *)
Fixpoint gc_move (f : ftl) (gvs : list gc_value) : res ftl :=
  match gvs with
  | [] => Ok f
  | gv :: gvs =>
    oob ← base_get_oob (bm f) (gv_ppa gv);
    lba ← le32_read oob;
    '(ppa, f) ← page_map_gc_update f lba (gv_ppa gv);
    f ← send_write f ppa gv;
    gc_move f gvs
  end.

Definition do_gc (f : ftl) : res ftl :=
  '(target, p) ← base_get_gc_target (bm f);
  '(gvs, f) ← gc_read_pages (Z.to_nat _PPB) (Ftl p (li f) (body f)) (g_blocks target) 0;
  f ← gc_move f gvs;
  '(p, l) ← base_trim_segment (bm f) target (li f);
  let active := reserve (body f) in
  '(r, p) ← base_change_reserve p (reserve (body f));
  Ok (Ftl p l (Body (mapping (body f)) r active)).

(** ** map.c: assigning a page *)

(** The loop at label [retry]; a fresh segment has a page, so two turns are
    enough. *)
Fixpoint assign_retry (fuel : nat) (f : ftl) : res (Z * ftl) :=
  match fuel with
  | O => Err OutOfFuel
  | S fuel' =>
    '(r, p) ← base_get_page_num (bm f) (active (body f));
    let r := u32 r in
    if r =? UINT_MAX then
      '(a, p) ← base_get_segment p false;
      assign_retry fuel' (Ftl p (li f) (Body (mapping (body f)) (reserve (body f)) a))
    else Ok (r, Ftl p (li f) (body f))
  end.

Definition page_map_assign (f : ftl) (lba : Z) : res (Z * ftl) :=
  full ← base_check_full (bm f) (active (body f)) MASTER_PAGE;
  f ← (if full : bool then
         gc ← base_is_gc_needed (bm f);
         if gc : bool then do_gc f else Ok f
       else Ok f);
  old ← ca_get (mapping (body f)) lba;
  p ← (if old =? UINT_MAX then Ok (bm f) else invalidate_ppa (bm f) old);
  '(r, f) ← assign_retry 2 (Ftl p (li f) (body f));
  p ← validate_ppa (bm f) r lba;
  m ← ca_set (mapping (body f)) lba r;
  Ok (r, Ftl p (li f) (Body m (reserve (body f)) (active (body f)))).

(** ** page.c *)

(** [page_create], given the manager and the device. *)
Definition page_create (p : bbm_pri Q Mp) (l : L) : res ftl := page_map_create p l.

(** A request is its key and its buffer; the reply of a read is the buffer. *)
Definition page_read (f : ftl) (key : Z) (v : value_set) : res (value_set * ftl) :=
  ppa ← page_map_pick f key;
  '(v, l) ← low_read DATAR ppa PAGESIZE v (li f);
  Ok (v, Ftl (bm f) l (body f)).

(** The key is copied over the first bytes of the buffer. *)
Definition page_write (f : ftl) (key : Z) (v : value_set) : res ftl :=
  buf ← memcpy (value v) (le32_bytes key) 4;
  '(ppa, f) ← page_map_assign f key;
  l ← low_write DATAW ppa PAGESIZE (VS buf (dmatag v)) (li f);
  Ok (Ftl (bm f) l (body f)).

Definition page_remove (f : ftl) (key : Z) : res ftl :=
  l ← low_trim_block key (li f);
  Ok (Ftl (bm f) l (body f)).

End ftl.

Arguments ftl Q Mp L : clear implicits.

(** ** Correctness until the first collection *)

Section correct.
Context `{Sg : Settings, !SettingsOk Sg} {Q Mp L : Type} `{!FIFO Z Q} `{!IntMap loc Mp}
  `{!Lower L} `{!LowerOk L}.
Implicit Types (p : bbm_pri Q Mp) (l : L) (f : ftl Q Mp L) (M : gmap Z (list Z)).

(** *** Steps on the data of pages *)

(** The spare area is not touched by the bitmap. *)
Lemma set_byte_oob p p' q x r : set_byte p q x = Ok p' → page_oob p' r = page_oob p r.
Proof.
  unfold set_byte, upd_block. intros E. apply res_bind_Ok in E as (b & Eb & E).
  apply res_bind_Ok in E as (bits & _ & E). apply res_bind_Ok in E as (b' & Eb' & E).
  apply res_bind_Ok in E as (bs & Ebs & E). injection E as <-. apply ca_get_Ok in Eb' as [_ ->].
  apply ca_set_Ok in Ebs as [_ ->]. unfold page_oob. cbn [with_blocks base_block]. rewrite ca_at_upd.
  case_decide as E; [by rewrite <-E|done].
Qed.

Lemma invalidate_Ok p q :
  blocks_wf (base_block p) → 0 <= q < _NOP →
  ∃ p', invalidate_ppa p q = Ok p' ∧ blocks_wf (base_block p') ∧ data_frame p p' ∧
    (∀ r, 0 <= r < _NOP → page_bit p' r = if decide (r = q) then false else page_bit p r) ∧
    (∀ r, page_oob p' r = page_oob p r).
Proof.
  intros Hwf Hq. destruct (unpopulate_Ok p q Hwf Hq) as (p' & E & Hwf' & Hb & _).
  exists p'. unfold invalidate_ppa. rewrite E. split_and!; try done; [by eapply unpopulate_data|].
  intros r. unfold base_unpopulate_bit in E. do 2 apply res_bind_Ok in E as (? & _ & E).
  apply res_bind_Ok in E as (p1 & E1 & E). apply res_bind_Ok in E as (p2 & E2 & E). injection E as _ <-.
  rewrite <-(set_byte_oob p p1 _ _ r E1). unfold upd_block in E2.
  apply res_bind_Ok in E2 as (b & Eb & E2). apply res_bind_Ok in E2 as (bs & Ebs & E2). injection E2 as <-.
  apply ca_get_Ok in Eb as [_ ->]. apply ca_set_Ok in Ebs as [_ ->].
  unfold page_oob. cbn [with_blocks base_block]. rewrite ca_at_upd. case_decide as E; [by rewrite <-E|done].
Qed.

Lemma validate_Ok p q lba :
  blocks_wf (base_block p) → 0 <= q < _NOP → 
  ∃ p', validate_ppa p q lba = Ok p' ∧ blocks_wf (base_block p') ∧ data_frame p p' ∧
    (∀ r, 0 <= r < _NOP → page_bit p' r = if decide (r = q) then true else page_bit p r) ∧
    (∀ r, 0 <= r < _NOP → page_oob p' r =
       if decide (r = q) then le32_bytes lba ++ drop 4 (page_oob p q) else page_oob p r).
Proof.
  intros Hwf Hq. destruct (populate_Ok p q Hwf Hq) as (p1 & E1 & Hwf1 & Hb1).
  destruct (set_oob_Ok p1 (le32_bytes lba) q Hwf1 Hq) as (p2 & E2 & Hwf2 & Hb2 & Ho2 & _).
  { rewrite le32_bytes_length. vm_compute. lia. }
  rewrite le32_bytes_length in E2, Ho2. change (Z.of_nat 4) with 4 in E2.
  assert (Ho1 : ∀ r, page_oob p1 r = page_oob p r).
  { intros r. unfold base_populate_bit in E1. do 2 apply res_bind_Ok in E1 as (? & _ & E1).
    apply res_bind_Ok in E1 as (p0 & E0 & E1). injection E1 as _ <-. by eapply set_byte_oob. }
  exists p2. unfold validate_ppa. rewrite E1. rbind. split_and!; try done.
  - eapply data_frame_trans; [by eapply populate_data|by eapply set_oob_data].
  - intros r Hr. by rewrite Hb2, Hb1 by done.
  - intros r Hr. rewrite Ho2 by done. by rewrite !Ho1.
Qed.

(** *** Space *)

(** The manager while segment [a], with the blocks [ks], is being filled: [n] of
    its pages are in use, [nf] segments are free, and free blocks are empty.
    Only pages below a block's page counter can have been written. *)
Definition space_inv p l (a : loc) (ks : list Z) (n nf : Z) : Prop :=
  ∃ F H O lv, inv p F H O ∧ live_ok F lv ∧ seg_inv p lv ∅ ∧
    (∀ i, (i < 64)%nat → Z.of_nat (length (F i)) = nf ∧ ∀ k, k ∈ F i → now (ca_at (base_block p) k) = 0) ∧
    seg_map_idx p + nf = _NOS ∧ seg_at p a ks n ∧ 0 <= n <= 16384 ∧ (∀ k, k ∈ ks → k ∈ lv) ∧
    low_wf l ∧
    (∀ q, 0 <= q < _NOP → low_page l q ≠ None → GETPAGEIDX q < now (ca_at (base_block p) (GETBLOCKIDX q))).

Lemma space_wf p l a ks n nf : space_inv p l a ks n nf → blocks_wf (base_block p) ∧ low_wf l.
Proof. intros (F & H & O & lv & (? & _) & _ & _ & _ & _ & _ & _ & _ & ? & _). done. Qed.

Lemma inv_frame p p' F H O : page_frame p p' → blocks_wf (base_block p') → inv p F H O → inv p' F H O.
Proof. intros (Ec & _) Hwf (_ & Hl & Hc). split; [done|]. by rewrite Ec. Qed.

Lemma seg_inv_page p p' lv pend : page_frame p p' → seg_inv p lv pend → seg_inv p' lv pend.
Proof.
  intros (Ec & Em & Ei & Es & Eg). apply seg_inv_frame; try done.
  intros s g Hg. destruct (Eg s g Hg) as (g' & ? & ? & _). eauto.
Qed.

Lemma space_data p p' l a ks n nf :
  data_frame p p' → blocks_wf (base_block p') → space_inv p l a ks n nf → space_inv p' l a ks n nf.
Proof.
  intros (Hf & Hnow & Hs) Hwf (F & H & O & lv & Hinv & Hlive & Hseg & HF & Hnf & Hat & Hn & Hks & Hl & Hd).
  exists F, H, O, lv. split_and!; try done; try lia.
  - by eapply inv_frame.
  - by eapply seg_inv_page.
  - intros i Hi. split; [by apply HF|]. intros k Hk. rewrite Hnow. by apply (HF i Hi).
  - destruct Hf as (_ & _ & -> & _). done.
  - destruct Hat as (? & ? & ? & ? & Hk). unfold seg_at. rewrite Hs. split_and!; try done.
    intros i k Hik. rewrite Hnow. by apply Hk.
  - intros q Hq. rewrite Hnow. by apply Hd.
Qed.

Lemma space_device p l l' a ks n nf :
  low_wf l' → (∀ q, 0 <= q < _NOP → low_page l' q ≠ None →
    low_page l q ≠ None ∨ GETPAGEIDX q < now (ca_at (base_block p) (GETBLOCKIDX q))) →
  space_inv p l a ks n nf → space_inv p l' a ks n nf.
Proof.
  intros Hl' Hq (F & H & O & lv & ? & ? & ? & ? & ? & ? & ? & ? & _ & Hd).
  exists F, H, O, lv. split_and!; try done; try lia.
  intros q Hr Hp. destruct (Hq q Hr Hp) as [?|?]; [by apply Hd|done].
Qed.

(** Taking the next page of the active segment. *)
Lemma space_page p l a ks n nf :
  space_inv p l a ks n nf → n < 16384 →
  ∃ r p', base_get_page_num p a = Ok (r, p') ∧ 0 <= r < _NOP ∧ low_page l r = None ∧
    GETPAGEIDX r < now (ca_at (base_block p') (GETBLOCKIDX r)) ∧
    (∀ q, page_bit p' q = page_bit p q) ∧ (∀ q, page_oob p' q = page_oob p q) ∧
    space_inv p' l a ks (n + 1) nf.
Proof.
  intros (F & H & O & lv & Hinv & Hlive & Hseg & HF & Hnf & Hat & Hn & Hks & Hl & Hd) Hlt.
  pose proof Hinv as (Hwf & _ & _).
  destruct (get_page_num_Ok p a ks n Hwf Hat) as (p' & E & Hwf' & Hat' & k & g' & Hk & Ep); [lia|].
  destruct (get_page_frame p p' a _ Hwf E) as [Hf _].
  pose proof Hat as (Hlen & Hnd & Hr & _ & Hnow).
  assert (Hkr : 0 <= k < NBLOCKS) by (rewrite Forall_lookup in Hr; by eapply Hr).
  assert (Hpg : 0 <= n / 64 < 256) by (Z.to_euclidean_division_equations; lia).
  assert (Er : nth_page ks n = ppa_of k (n / 64)) by (unfold nth_page; by rewrite Hk).
  pose proof (Hnow _ _ Hk) as Hnk. rewrite Z2Nat.id in Hnk by (apply Z.mod_pos_bound; lia).
  rewrite decide_False in Hnk by lia.
  assert (Hblk : ∀ j, ca_at (base_block p') j = if decide (k = j) then set_now (n / 64 + 1) (ca_at (base_block p) k)
    else ca_at (base_block p) j) by (intros j; rewrite Ep; cbn [with_segs with_blocks base_block]; apply ca_at_upd).
  exists (nth_page ks n), p'. split; [done|]. rewrite Er, GETBLOCKIDX_ppa_of, GETPAGEIDX_ppa_of by done.
  split; [by apply ppa_of_range|]. split; [|split; [|split; [|split]]].
  - destruct (low_page l (ppa_of k (n / 64))) eqn:El; [|done]. exfalso.
    pose proof (Hd _ (ppa_of_range k (n / 64) Hkr Hpg)) as Hx. rewrite El in Hx.
    rewrite GETBLOCKIDX_ppa_of, GETPAGEIDX_ppa_of in Hx by done. specialize (Hx ltac:(done)). lia.
  - rewrite Hblk, decide_True by done. cbn [set_now now]. lia.
  - intros q. unfold page_bit. rewrite Hblk. case_decide as Ek; [by rewrite <-Ek|done].
  - intros q. unfold page_oob. rewrite Hblk. case_decide as Ek; [by rewrite <-Ek|done].
  - exists F, H, O, lv. split_and!; try done; try lia.
    + by eapply inv_frame.
    + by eapply seg_inv_page.
    + intros i Hi. destruct (HF i Hi) as [HFl HF0]. split; [done|]. intros j Hj. rewrite Hblk.
      case_decide as Ek; [|by apply HF0]. subst j. exfalso.
      assert (Hkl : k ∈ lv) by (apply Hks; by eapply list_elem_of_lookup_2).
      apply Hlive in Hkl as [_ Hkl].
      destruct (inv_chan _ _ _ _ i Hinv Hi) as (_ & Hin & _).
      destruct (proj1 (Hin k)) as [_ Hm]; [apply elem_of_app; by left|]. rewrite Hm, Nat2Z.id in Hkl. done.
    + destruct Hf as (_ & _ & -> & _). done.
    + intros q Hq Hp. specialize (Hd q Hq Hp). rewrite Hblk. case_decide as Ek; [|done].
      cbn [set_now now]. rewrite <-Ek in Hd. lia.
Qed.

(** The part of [space_inv] that does not speak of an active segment. *)
Definition pool_inv p l (nf : Z) : Prop :=
  ∃ F H O lv, inv p F H O ∧ live_ok F lv ∧ seg_inv p lv ∅ ∧
    (∀ i, (i < 64)%nat → Z.of_nat (length (F i)) = nf ∧ ∀ k, k ∈ F i → now (ca_at (base_block p) k) = 0) ∧
    seg_map_idx p + nf = _NOS ∧ low_wf l ∧
    (∀ q, 0 <= q < _NOP → low_page l q ≠ None → GETPAGEIDX q < now (ca_at (base_block p) (GETBLOCKIDX q))).

Lemma space_pool p l a ks n nf : space_inv p l a ks n nf → pool_inv p l nf.
Proof. intros (F & H & O & lv & ? & ? & ? & ? & ? & ? & ? & ? & ? & ?). by exists F, H, O, lv. Qed.

(** Starting a new segment. *)
Lemma pool_segment r p l nf :
  pool_inv p l nf → 0 < nf →
  ∃ s p' ks', base_get_segment p r = Ok (s, p') ∧
    (∀ q, page_bit p' q = page_bit p q) ∧ (∀ q, page_oob p' q = page_oob p q) ∧
    space_inv p' l s ks' 0 (nf - 1).
Proof.
  intros (F & H & O & lv & Hinv & Hlive & Hseg & HF & Hnf & Hl & Hd) Hlt.
  pose proof NOS_range as HNOS.
  assert (Hne : ∀ j, (j < 64)%nat → F j ≠ []).
  { intros j Hj E. destruct (HF j Hj) as [Hjl _]. rewrite E in Hjl. simpl in Hjl. lia. }
  assert (Hi0 : 0 <= seg_map_idx p) by apply Hseg.
  destruct (get_segment_Ok r p F H O lv Hinv Hlive Hseg ltac:(lia) Hne) as
    (bs & s & p' & F' & lv' & E & Hlen & Hinv' & HF' & Hlive' & Hseg' & Hs & Es & Ef & Eb & Hm & Hlv & Ei & Hsame).
  assert (Hfld : ∀ k, now (ca_at (base_block p') k) = now (ca_at (base_block p) k) ∧
    bitset (ca_at (base_block p') k) = bitset (ca_at (base_block p) k) ∧
    oob_list (ca_at (base_block p') k) = oob_list (ca_at (base_block p) k)).
  { intros k. specialize (Hsame k). unfold set_seg_idx, set_hptr in Hsame. cbn in Hsame. injection Hsame. auto. }
  exists s, p', bs. split; [done|]. split; [|split].
  { intros q. unfold page_bit. by destruct (Hfld (GETBLOCKIDX q)) as (_ & -> & _). }
  { intros q. unfold page_oob. by destruct (Hfld (GETBLOCKIDX q)) as (_ & _ & ->). }
  assert (Hbs : ∀ i k, bs !! i = Some k → (i < 64)%nat ∧ k ∈ F i).
  { intros i k Hik. assert (Hi : (i < 64)%nat) by (rewrite <-Hlen; by eapply lookup_lt_Some).
    split; [done|]. rewrite (HF' i Hi). apply elem_of_app. left. apply elem_of_pick.
    rewrite Nat.sub_0_r. split; [lia|done]. }
  assert (Hbm : ∀ i k, bs !! i = Some k → 0 <= k < NBLOCKS ∧ k mod 64 = Z.of_nat i).
  { intros i k Hik. destruct (Hbs i k Hik) as [Hi HkF]. destruct (inv_chan _ _ _ _ i Hinv Hi) as (_ & Hin & _).
    apply Hin. apply elem_of_app. by left. }
  exists F', (heap_gain r bs 0 H), (out_gain r bs 0 O), lv'. split_and!; try done; try lia.
  - intros i Hi. destruct (HF i Hi) as [HFl HF0]. rewrite (HF' i Hi), length_app in HFl.
    assert (Hp1 : length (pick bs 0 i) = 1%nat).
    { unfold pick. rewrite decide_True by lia. destruct (lookup_lt_is_Some_2 bs (i - 0)%nat) as [b ->]; [lia|done]. }
    split; [lia|]. intros k Hk. destruct (Hfld k) as (-> & _). apply HF0. rewrite (HF' i Hi). apply elem_of_app. by right.
  - split; [done|]. split.
    { apply NoDup_alt. intros i j k Hi1 Hj1. destruct (Hbm i k Hi1), (Hbm j k Hj1). lia. }
    split; [apply Forall_lookup; intros i k Hik; by apply (Hbm i k)|]. split.
    + eexists. rewrite Es, lookup_insert_eq. done.
    + intros i k Hik. change (0 / 64) with 0. change (0 mod 64) with 0. rewrite decide_False by lia.
      destruct (Hfld k) as (-> & _). destruct (Hbs i k Hik) as [Hi HkF]. by apply (HF i Hi).
  - intros k Hk. apply list_elem_of_lookup in Hk as [i Hik]. destruct (Hbm i k Hik) as [Hkr Hkm].
    destruct (Hbs i k Hik) as [Hi _]. apply Hlive'. split; [done|]. rewrite Hkm, Nat2Z.id. intros HkF.
    destruct (inv_chan _ _ _ _ i Hinv Hi) as (Hnd & _). rewrite (HF' i Hi) in Hnd.
    apply NoDup_app in Hnd as (Hnd & _). apply NoDup_app in Hnd as (_ & Hdis & _). apply (Hdis k); [|done].
    apply elem_of_pick. rewrite Nat.sub_0_r. split; [lia|done].
  - intros q Hq Hp. destruct (Hfld (GETBLOCKIDX q)) as (-> & _). by apply Hd.
Qed.

(** The loop at [retry] finds a page if one is left. *)
Lemma assign_retry_Ok f ks n nf :
  space_inv (bm f) (li f) (active (body f)) ks n nf → 0 <= nf → 0 < nf * 16384 + (16384 - n) →
  ∃ r f', assign_retry 2 f = Ok (r, f') ∧ 0 <= r < _NOP ∧ low_page (li f) r = None ∧
    GETPAGEIDX r < now (ca_at (base_block (bm f')) (GETBLOCKIDX r)) ∧
    (∀ q, page_bit (bm f') q = page_bit (bm f) q) ∧ (∀ q, page_oob (bm f') q = page_oob (bm f) q) ∧
    li f' = li f ∧ mapping (body f') = mapping (body f) ∧
    ∃ ks' n' nf', space_inv (bm f') (li f') (active (body f')) ks' n' nf' ∧ 0 <= nf' ∧
      nf' * 16384 + (16384 - n') = nf * 16384 + (16384 - n) - 1.
Proof.
  intros Hs Hnf0 Hrem. pose proof NOP_range as HNOP.
  assert (Hn : 0 <= n <= 16384) by (destruct Hs as (? & ? & ? & ? & ? & ? & ? & ? & ? & ? & ? & ?); done).
  cbn [assign_retry]. destruct (decide (n < 16384)) as [Hlt|Hge].
  - destruct (space_page _ _ _ _ _ _ Hs Hlt) as (r & p' & E & Hr & Hnone & Hnow & Hb & Ho & Hs').
    rewrite E. rbind. rewrite u32_id by lia. rewrite (proj2 (Z.eqb_neq r UINT_MAX)) by (change UINT_MAX with 4294967295; lia).
    eexists r, _. split; [done|]. cbn [bm li body]. split_and!; try done; try lia.
    exists ks, (n + 1), nf. split_and!; try done; lia.
  - assert (n = 16384) as -> by lia.
    destruct (space_wf _ _ _ _ _ _ Hs) as [Hwf _].
    rewrite (get_page_num_full (bm f) (active (body f)) ks Hwf)
      by (destruct Hs as (? & ? & ? & ? & ? & ? & ? & ? & ? & ? & _); done).
    rbind. change (u32 (-1) =? UINT_MAX) with true. cbn iota.
    destruct (pool_segment false _ _ _ (space_pool _ _ _ _ _ _ Hs) ltac:(lia)) as (s & p1 & ks' & E1 & Hb1 & Ho1 & Hs1).
    rewrite E1. rbind. cbn [bm li body active].
    destruct (space_page _ _ _ _ _ _ Hs1 ltac:(lia)) as (r & p' & E & Hr & Hnone & Hnow & Hb & Ho & Hs').
    rewrite E. rbind. rewrite u32_id by lia. rewrite (proj2 (Z.eqb_neq r UINT_MAX)) by (change UINT_MAX with 4294967295; lia).
    eexists r, _. split; [done|]. cbn [bm li body mapping active]. split_and!; try done; try lia.
    + intros q. by rewrite Hb, Hb1.
    + intros q. by rewrite Ho, Ho1.
    + exists ks', (0 + 1), (nf - 1). split_and!; try done; lia.
Qed.

(** *** Data *)

(** The mapping points, for every logical page that was written, to a page of
    the device that holds its content and names it in the spare area; different
    logical pages are on different pages, and the valid pages are exactly the
    pages the mapping points to. *)
Definition data_inv f M : Prop :=
  ca_len (mapping (body f)) = _NOP ∧
  (∀ a v, M !! a = Some v → 0 <= a < _NOP) ∧
  (∀ a, 0 <= a < _NOP → M !! a = None → ca_at (mapping (body f)) a = UINT_MAX) ∧
  (∀ a v, M !! a = Some v → ∃ q, ca_at (mapping (body f)) a = q ∧ 0 <= q < _NOP ∧
     low_page (li f) q = Some v ∧ page_bit (bm f) q = true ∧ le32_read (page_oob (bm f) q) = Ok a) ∧
  (∀ q, 0 <= q < _NOP → page_bit (bm f) q = true → ∃ a v, M !! a = Some v ∧ ca_at (mapping (body f)) a = q).

Definition ftl_inv f M (rem : Z) : Prop :=
  data_inv f M ∧ ∃ ks n nf, space_inv (bm f) (li f) (active (body f)) ks n nf ∧ 0 <= nf ∧
    rem = nf * 16384 + (16384 - n).

(** Two logical pages on one page would name it twice. *)
Lemma data_inj f M a b v w :
  data_inv f M → M !! a = Some v → M !! b = Some w →
  ca_at (mapping (body f)) a = ca_at (mapping (body f)) b → a = b.
Proof.
  intros (_ & _ & _ & Hm & _) Ha Hb E. destruct (Hm a v Ha) as (q & Eq & _ & _ & _ & H1).
  destruct (Hm b w Hb) as (q' & Eq' & _ & _ & _ & H2). congruence.
Qed.

(** A segment is reported full exactly when its last page was handed out. *)
Lemma check_full_Ok p l a ks n nf :
  space_inv p l a ks n nf → base_check_full p a MASTER_PAGE = Ok (n =? 16384).
Proof.
  intros (F & H & O & lv & (Hwf & _) & _ & _ & _ & _ & Hat & Hn & _).
  destruct Hat as (Hlen & _ & Hr & (g & Hg & Hgb & _) & Hnow). destruct Hwf as [Hbl _].
  unfold base_check_full. change ((MASTER_PAGE =? MASTER_PAGE) || _) with true. cbn iota.
  rewrite Hg. cbn [deref]. rbind. destruct (lookup_lt_is_Some_2 ks 63) as [k Hk]; [lia|].
  assert (0 <= k < NBLOCKS) by (rewrite Forall_lookup in Hr; by eapply Hr).
  rewrite (seg_block_Ok g (BPS - 1) k); [|done|by rewrite Hgb]. rbind. rewrite ca_get_in by lia. rbind.
  rewrite (Hnow _ _ Hk). pose proof (Z.mod_pos_bound n 64 ltac:(lia)). rewrite decide_False by lia.
  f_equal. change _PPB with 256. apply Bool.eq_iff_eq_true. rewrite !Z.eqb_eq.
  Z.to_euclidean_division_equations. lia.
Qed.

Lemma gc_needed_Ok p l a ks n nf :
  space_inv p l a ks n nf → base_is_gc_needed p = Ok (nf =? 0).
Proof.
  intros (F & H & O & lv & (_ & _ & Hc) & _ & _ & HF & _).
  destruct (Hc 0%nat ltac:(lia)) as (c & Ec & (Hf & _) & _). unfold base_is_gc_needed. rewrite Ec.
  cbn [deref]. rbind. rewrite (fifo_size_spec _ _ _ Hf). by destruct (HF 0%nat ltac:(lia)) as [-> _].
Qed.

Lemma page_read_Ok f M rem a v buf :
  ftl_inv f M rem → M !! a = Some v → length (value buf) = Z.to_nat PAGESIZE → dmatag buf ≠ -1 →
  ∃ f', page_read f a buf = Ok (VS v (dmatag buf), f') ∧ ftl_inv f' M rem.
Proof.
  intros [Hdata (ks & n & nf & Hs & Hnf & Hrem)] Ha Hlen Hd. pose proof Hdata as (Hl & Hr & Hun & Hm & Hv).
  destruct (space_wf _ _ _ _ _ _ Hs) as [_ Hlow]. destruct (Hm a v Ha) as (q & Eq & Hq & Hpq & Hbit & Hoob).
  pose proof NOP_range. unfold page_read, page_map_pick. rewrite ca_get_in by (rewrite Hl; by eapply Hr).
  rbind. rewrite Eq, (proj2 (Z.eqb_neq q UINT_MAX)) by (change UINT_MAX with 4294967295; lia). cbn [abort_if]. rbind.
  destruct (low_read_ok (li f) DATAR q buf v Hlow Hq Hlen Hd Hpq) as (l' & -> & Hlow' & Hsame). rbind.
  eexists. split; [done|]. split.
  - split_and!; try done. intros a' v' Ha'. destruct (Hm a' v' Ha') as (q' & ? & ? & ? & ? & ?).
    exists q'. cbn [li bm body]. rewrite Hsame. done.
  - exists ks, n, nf. split_and!; try done. cbn [li bm body]. eapply space_device; [done| |done].
    intros q' _. rewrite Hsame. by left.
Qed.

Lemma page_read_unwritten f M rem a buf :
  ftl_inv f M rem → 0 <= a < _NOP → M !! a = None → page_read f a buf = Err Aborted.
Proof.
  intros [(Hl & _ & Hun & _) _] Ha Hnone. unfold page_read, page_map_pick.
  rewrite ca_get_in by lia. rbind. by rewrite (Hun a Ha Hnone).
Qed.

Lemma data_frame_refl p : data_frame p p.
Proof.
  split; [|done]. unfold page_frame. split_and!; try done. intros s g Hg. by exists g.
Qed.

(** The page that held the old content is no longer valid. *)
Lemma forget_old f M a :
  data_inv f M → blocks_wf (base_block (bm f)) → 0 <= a < _NOP →
  ∃ p', (if ca_at (mapping (body f)) a =? UINT_MAX then Ok (bm f)
         else invalidate_ppa (bm f) (ca_at (mapping (body f)) a)) = Ok p' ∧
    blocks_wf (base_block p') ∧ data_frame (bm f) p' ∧
    (∀ q, 0 <= q < _NOP → page_bit p' q = true ↔ page_bit (bm f) q = true ∧ q ≠ ca_at (mapping (body f)) a) ∧
    (∀ q, page_oob p' q = page_oob (bm f) q).
Proof.
  intros (Hl & Hr & Hun & Hm & Hv) Hwf Ha. pose proof NOP_range as HNOP.
  destruct (M !! a) as [v|] eqn:Ea.
  - destruct (Hm a v Ea) as (q & -> & Hq & _).
    rewrite (proj2 (Z.eqb_neq q UINT_MAX)) by (change UINT_MAX with 4294967295; lia).
    destruct (invalidate_Ok (bm f) q Hwf Hq) as (p' & E & Hwf' & Hf & Hb & Ho).
    exists p'. split_and!; try done. intros r Hr'. rewrite (Hb r Hr'). case_decide; naive_solver.
  - rewrite (Hun a Ha Ea). change (UINT_MAX =? UINT_MAX) with true. exists (bm f).
    split_and!; try done; [apply data_frame_refl|]. intros q Hq. split; [|naive_solver]. intros. split; [done|].
    change UINT_MAX with 4294967295. lia.
Qed.

Lemma page_map_assign_Ok f M rem a :
  ftl_inv f M rem → 0 < rem → 0 <= a < _NOP →
  ∃ r f', page_map_assign f a = Ok (r, f') ∧ 0 <= r < _NOP ∧ low_page (li f) r = None ∧ li f' = li f ∧
    mapping (body f') = ca_upd (mapping (body f)) a r ∧
    (∀ q, 0 <= q < _NOP → page_bit (bm f') q = true ↔
       q = r ∨ page_bit (bm f) q = true ∧ q ≠ ca_at (mapping (body f)) a) ∧
    (∀ q, 0 <= q < _NOP → q ≠ r → page_oob (bm f') q = page_oob (bm f) q) ∧
    le32_read (page_oob (bm f') r) = Ok a ∧
    GETPAGEIDX r < now (ca_at (base_block (bm f')) (GETBLOCKIDX r)) ∧
    ∃ ks n nf, space_inv (bm f') (li f') (active (body f')) ks n nf ∧ 0 <= nf ∧ rem - 1 = nf * 16384 + (16384 - n).
Proof.
  intros [Hdata (ks & n & nf & Hs & Hnf & ->)] Hrem Ha. pose proof NOP_range as HNOP.
  destruct (space_wf _ _ _ _ _ _ Hs) as [Hwf Hlow]. pose proof Hdata as (Hl & _).
  unfold page_map_assign. rewrite (check_full_Ok _ _ _ _ _ _ Hs), (gc_needed_Ok _ _ _ _ _ _ Hs). rbind.
  replace (if n =? 16384 then _ else Ok f) with (Ok f); [|destruct (Z.eqb_spec n 16384); [|done];
    destruct (Z.eqb_spec nf 0); [lia|done]].
  rbind. rewrite ca_get_in by lia. rbind.
  destruct (forget_old f M a Hdata Hwf Ha) as (p1 & -> & Hwf1 & Hf1 & Hb1 & Ho1). rbind.
  pose proof (space_data _ _ _ _ _ _ _ Hf1 Hwf1 Hs) as Hs1.
  destruct (assign_retry_Ok (Ftl p1 (li f) (body f)) ks n nf Hs1 Hnf Hrem)
    as (r & f2 & -> & Hr & Hnone & Hnow & Hb2 & Ho2 & Eli & Em & ks' & n' & nf' & Hs2 & Hnf' & Hrem').
  cbn [bm li body] in *. rbind. destruct (space_wf _ _ _ _ _ _ Hs2) as [Hwf2 _].
  destruct (validate_Ok (bm f2) r a Hwf2 Hr) as (p3 & -> & Hwf3 & Hf3 & Hb3 & Ho3). rbind.
  rewrite Em, ca_set_in by lia. rbind. eexists r, _. split; [done|]. cbn [bm li body mapping active].
  split_and!; try done; try lia.
  - intros q Hq. rewrite (Hb3 q Hq). case_decide; [naive_solver|]. rewrite Hb2, (Hb1 q Hq). naive_solver.
  - intros q Hq Hqr. rewrite (Ho3 q Hq), decide_False by done. by rewrite Ho2.
  - rewrite (Ho3 r Hr), decide_True by done. apply le32_read_bytes. lia.
  - destruct Hf3 as (_ & -> & _). done.
  - exists ks', n', nf'. split_and!; [by eapply space_data|done|lia].
Qed.

(** Once the page is on the device the layer is consistent again. *)
Lemma page_write_Ok f M rem a v :
  ftl_inv f M rem → 0 < rem → 0 <= a < _NOP → length (value v) = Z.to_nat PAGESIZE → dmatag v ≠ -1 →
  ∃ f', page_write f a v = Ok f' ∧ ftl_inv f' (<[a := le32_bytes a ++ drop 4 (value v)]> M) (rem - 1).
Proof.
  intros Hinv Hrem Ha Hlen Hd. pose proof Hinv as [(Hl & Hr & Hun & Hm & Hv) _].
  pose proof NOP_range as HNOP. unfold page_write.
  assert (Hlen4 : (4 <= length (value v))%nat) by (rewrite Hlen; vm_compute; lia).
  replace (memcpy (value v) (le32_bytes a) 4) with (Ok (le32_bytes a ++ drop 4 (value v)))
    by (symmetry; by apply (memcpy_all (value v) (le32_bytes a))).
  rbind. set (w := le32_bytes a ++ drop 4 (value v)).
  assert (Hw : length w = Z.to_nat PAGESIZE).
  { unfold w. rewrite length_app, length_drop, le32_bytes_length. lia. }
  destruct (page_map_assign_Ok f M rem a Hinv Hrem Ha) as
    (r & f1 & -> & Hrr & Hnone & Eli & Em' & Hb & Ho & Hor & Hnow & ks & n & nf & Hs & Hnf & Hrem').
  rbind. destruct (space_wf _ _ _ _ _ _ Hs) as [_ Hlow].
  destruct (low_write_ok (li f1) DATAW r (VS w (dmatag v)) Hlow Hrr Hw Hd ltac:(by rewrite Eli))
    as (l' & -> & Hlow' & Hpg). rbind. eexists. split; [done|]. cbn [value] in Hpg.
  split; [|exists ks, n, nf; cbn [bm li body]; split_and!; try done; eapply space_device; [done| |done];
    intros q _; rewrite Hpg; case_decide; [subst q; by right|by left]].
  assert (Hmap : ∀ b, ca_at (mapping (body f1)) b = if decide (a = b) then r else ca_at (mapping (body f)) b)
    by (intros b; rewrite Em', ca_at_upd; done).
  split_and!; cbn [bm li body].
  - rewrite Em', ca_len_upd. done.
  - intros b x Hb'. destruct (decide (a = b)) as [<-|]; [done|]. rewrite lookup_insert_ne in Hb' by done. by eapply Hr.
  - intros b Hbr Hb'. rewrite Hmap. case_decide; [subst b; by rewrite lookup_insert_eq in Hb'|].
    rewrite lookup_insert_ne in Hb' by done. by apply Hun.
  - intros b x Hbx. rewrite Hmap. case_decide as Hab.
    + subst b. rewrite lookup_insert_eq in Hbx. injection Hbx as <-. exists r. rewrite Hpg, decide_True by done.
      split_and!; try done; try lia. apply Hb; [done|by left].
    + rewrite lookup_insert_ne in Hbx by done. destruct (Hm b x Hbx) as (q & Eq & Hq & Hpq & Hbq & Hoq).
      assert (q ≠ r) by (intros ->; congruence). exists q. rewrite Hpg, decide_False, Eli, Ho by done.
      split_and!; try done; try lia. apply Hb; [done|]. right. split; [done|]. intros Eqa. apply Hab.
      destruct (M !! a) as [va|] eqn:Ea.
      * eapply (data_inj f M); [exact (proj1 Hinv)|done|done|congruence].
      * rewrite (Hun a Ha Ea) in Eqa. change UINT_MAX with 4294967295 in Eqa. lia.
  - intros q Hq Hbq. apply Hb in Hbq as [->|[Hbq Hqa]]; [|destruct (Hv q Hq Hbq) as (b & x & Hbx & Eb)|done].
    + exists a, w. rewrite lookup_insert_eq, Hmap, decide_True by done. done.
    + assert (a ≠ b) by (intros ->; done). exists b, x. rewrite lookup_insert_ne, Hmap, decide_False by done. done.
Qed.

(** A new manager and an erased device. *)
Lemma created_pool c p c' l :
  checker_ready c → base_create (Q:=Q) (Mp:=Mp) c = Ok (p, c') → low_wf l →
  (∀ q, 0 <= q < _NOP → low_page l q = None) → pool_inv p l _NOS.
Proof.
  intros Hc E Hl Hempty. destruct (created_inv c p c' Hc E) as (Hinv & Hlive & Hseg & Ei & Hfresh).
  clear E. pose proof NOS_range as HNOS. exists chan_blocks, (λ _, []), (λ _, []), ∅.
  split; [exact Hinv|]. split; [exact Hlive|]. split; [exact Hseg|].
  split; [|split; [lia|split; [exact Hl|]]].
  - intros i Hi. split; [rewrite chan_blocks_length; lia|]. intros k Hk. apply elem_of_chan_blocks in Hk as [Hk _]; [|lia].
    by rewrite Hfresh.
  - intros q Hq Hp. by rewrite Hempty in Hp.
Qed.

Lemma page_create_Ok c p c' l :
  checker_ready c → base_create (Q:=Q) (Mp:=Mp) c = Ok (p, c') → low_wf l →
  (∀ q, 0 <= q < _NOP → low_page l q = None) →
  ∃ f, page_create p l = Ok f ∧ ftl_inv f ∅ ((_NOS - 1) * _PPS).
Proof.
  intros Hc E Hl Hempty. pose proof NOS_range as HNOS. pose proof NOP_range as HNOP.
  pose proof (created_pool c p c' l Hc E Hl Hempty) as Hpool.
  destruct (created_inv c p c' Hc E) as (_ & _ & _ & _ & Hfresh). clear E.
  destruct (pool_segment true p l _NOS Hpool ltac:(lia)) as (r & p1 & ks1 & E1 & Hb1 & _ & Hs1).
  destruct (pool_segment false p1 l (_NOS - 1) (space_pool _ _ _ _ _ _ Hs1) ltac:(lia)) as (a & p2 & ks2 & E2 & Hb2 & _ & Hs2).
  unfold page_create, page_map_create. rewrite E1. rbind. rewrite E2. rbind. eexists. split; [reflexivity|].
  split; [|exists ks2, 0, (_NOS - 1 - 1); cbn [bm li body active]; split_and!; [exact Hs2|lia|change _PPS with 16384; lia]].
  split_and!; cbn [bm li body mapping].
  - reflexivity.
  - intros a' v Ha'. by rewrite lookup_empty in Ha'.
  - intros a' _ _. by rewrite ca_at_new.
  - intros a' v Ha'. by rewrite lookup_empty in Ha'.
  - intros q Hq Hbit. rewrite Hb2, Hb1 in Hbit. exfalso.
    pose proof (fresh_valid_set p Hfresh) as HV. apply (HV q Hq) in Hbit. set_solver.
Qed.

(** *** Client programs *)

(** A client of the layer writes and reads whole pages. *)
Inductive request := Write (key : Z) (data : list Z) | Read (key : Z).

Definition request_ok (r : request) : Prop :=
  match r with
  | Write a d => 0 <= a < _NOP ∧ length d = Z.to_nat PAGESIZE
  | Read a => 0 <= a < _NOP
  end.

(** The replies to the reads of a program. *)
Fixpoint serve (rs : list request) f : res (list (list Z)) :=
  match rs with
  | [] => Ok []
  | Write a d :: rs => f ← page_write f a (VS d 0); serve rs f
  | Read a :: rs =>
    buf ← inf_get_valueset false None FS_MALLOC_R PAGESIZE;
    '(v, f) ← page_read f a buf;
    out ← serve rs f;
    Ok (value v :: out)
  end.

(** The same program on an array of pages: a page reads as it was last written,
    with its address in its first four bytes; reading a page that was not
    written is an error. *)
Fixpoint serve_spec (rs : list request) M : res (list (list Z)) :=
  match rs with
  | [] => Ok []
  | Write a d :: rs => serve_spec rs (<[a := le32_bytes a ++ drop 4 d]> M)
  | Read a :: rs =>
    match M !! a with
    | None => Err Aborted
    | Some v => out ← serve_spec rs M; Ok (v :: out)
    end
  end.

Fixpoint writes (rs : list request) : Z :=
  match rs with [] => 0 | Write _ _ :: rs => writes rs + 1 | Read _ :: rs => writes rs end.

Lemma writes_nonneg rs : 0 <= writes rs.
Proof. induction rs as [|[]]; simpl; lia. Qed.

Lemma serve_Ok rs : ∀ f M rem,
  ftl_inv f M rem → Forall request_ok rs → writes rs <= rem → serve rs f = serve_spec rs M.
Proof.
  induction rs as [|[a d|a] rs IH]; intros f M rem Hinv Hrs Hw; [done| |];
    apply Forall_cons in Hrs as [Hr Hrs]; pose proof (writes_nonneg rs) as Hw0; cbn [serve serve_spec writes] in *.
  - destruct Hr as [Ha Hd]. destruct (page_write_Ok f M rem a (VS d 0) Hinv) as (f' & -> & Hinv'); try done; try lia.
    rbind. cbn [value] in Hinv'. apply (IH f' _ (rem - 1)); [done|done|lia].
  - change (inf_get_valueset false None FS_MALLOC_R PAGESIZE) with (Ok (VS (replicate (Z.to_nat PAGESIZE) 0) 0)). rbind.
    destruct (M !! a) as [v|] eqn:Ea.
    + destruct (page_read_Ok f M rem a v (VS (replicate (Z.to_nat PAGESIZE) 0) 0) Hinv Ea) as (f' & -> & Hinv');
        [cbn [value]; apply length_replicate|done|]. rbind. cbn [value]. by rewrite (IH f' M rem).
    + by rewrite (page_read_unwritten f M rem).
Qed.

End correct.
End PageFtl.

(** ** Properties *)

Section properties.
Import PageFtl.

(** C3: until the device is full the page-level translation layer is an array of
    pages. Over any device that meets the driver's contract, from a new manager
    and an erased device, every program of page reads and writes with at most
    [(_NOS - 1) * _PPS] writes gets the replies of an array: a read returns what
    was last written to its logical page (the page's own number in its first
    four bytes), however often other pages were overwritten, and reading a page
    that was never written aborts. *)
Theorem page_ftl_refines_page_array `{Sg : Settings, !SettingsOk Sg} {Q Mp L : Type} `{!FIFO Z Q}
    `{!IntMap loc Mp} `{!Lower L} `{!LowerOk L} c c' (p : bbm_pri Q Mp) (l : L) (rs : list request) :
  checker_ready c → base_create c = Ok (p, c') → low_wf l → (∀ q, 0 <= q < _NOP → low_page l q = None) →
  Forall request_ok rs → writes rs <= (_NOS - 1) * _PPS →
  (f ← page_create p l; serve rs f) = serve_spec rs ∅.
Proof.
  intros Hc E Hl Hempty Hrs Hw. destruct (page_create_Ok c p c' l Hc E Hl Hempty) as (f & -> & Hinv).
  rbind. by apply (serve_Ok rs f ∅ ((_NOS - 1) * _PPS)).
Qed.

#[local] Existing Instance settings_1.

Definition sample_page (x : Z) : list Z := replicate (Z.to_nat PAGESIZE) x.
Definition sample_requests : list request :=
  [Write 5 (sample_page 7); Write 9 (sample_page 8); Write 5 (sample_page 1); Read 5; Read 9].

(** A 1 GB device in memory. *)
Lemma page_ftl_refines_page_array_witness :
  ∃ (p : bbm_pri (Queue.queue Z) (gmap Z loc)) c', base_create BadBlock.unfixed = Ok (p, c') ∧
    (f ← page_create p sample_dev; serve sample_requests f) =
      Ok [le32_bytes 5 ++ drop 4 (sample_page 1); le32_bytes 9 ++ drop 4 (sample_page 8)].
Proof.
  destruct (base_create_Ok (Q:=Queue.queue Z) (Mp:=gmap Z loc) BadBlock.unfixed unfixed_ready) as (p & c' & E & _).
  exists p, c'. split; [exact E|].
  rewrite (page_ftl_refines_page_array BadBlock.unfixed c' p sample_dev sample_requests unfixed_ready E).
  - clear E. vm_compute. reflexivity.
  - clear E. apply PosixMemory.posix_create_wf.
  - clear E. intros q Hq. reflexivity.
  - clear E. repeat (apply Forall_cons; split); try (split; [rewrite NOP_eq; simpl; lia|reflexivity]);
      try (unfold request_ok; rewrite NOP_eq; simpl; lia); try by apply Forall_nil.
  - clear E. vm_compute. done.
Defined.

End properties.
