(* ===== verification/Sha256.v ===== *)
(** * SHA-256 (include/utils/sha256.c)

    The hash function behind the hash-based translation layers: they place a key
    at an address derived from its digest. The context is a record, [uint32_t]
    arithmetic is reduced with [u32]; [TransformFunction] reads the 64 bytes at
    its second argument. The second part states the function of FIPS 180-4, with
    its constants computed from the roots of the primes, and shows that any
    sequence of updates computes it. *)
From S2P Require Export Prelude.

Local Open Scope Z_scope.

Module Sha256.

(** ** Words *)

Definition ror (value bits : Z) : Z := Z.lor (Z.shiftr value bits) (u32 (Z.shiftl value (32 - bits))).

Definition STORE32H (x : Z) : list Z :=
  [u8 (Z.shiftr x 24); u8 (Z.shiftr x 16); u8 (Z.shiftr x 8); u8 x].

Definition STORE64H (x : Z) : list Z :=
  [u8 (Z.shiftr x 56); u8 (Z.shiftr x 48); u8 (Z.shiftr x 40); u8 (Z.shiftr x 32);
   u8 (Z.shiftr x 24); u8 (Z.shiftr x 16); u8 (Z.shiftr x 8); u8 x].

Definition LOAD32H (y : list Z) (i : nat) : Z :=
  Z.lor (Z.lor (Z.lor (Z.shiftl (Z.land (y !!! i) 255) 24) (Z.shiftl (Z.land (y !!! (i + 1)%nat) 255) 16))
    (Z.shiftl (Z.land (y !!! (i + 2)%nat) 255) 8)) (Z.land (y !!! (i + 3)%nat) 255).

(** [K], in the rows of the source. *)
Definition SHA_K : list Z := concat [
  [0x428a2f98; 0x71374491; 0xb5c0fbcf; 0xe9b5dba5; 0x3956c25b];
  [0x59f111f1; 0x923f82a4; 0xab1c5ed5; 0xd807aa98; 0x12835b01];
  [0x243185be; 0x550c7dc3; 0x72be5d74; 0x80deb1fe; 0x9bdc06a7];
  [0xc19bf174; 0xe49b69c1; 0xefbe4786; 0x0fc19dc6; 0x240ca1cc];
  [0x2de92c6f; 0x4a7484aa; 0x5cb0a9dc; 0x76f988da; 0x983e5152];
  [0xa831c66d; 0xb00327c8; 0xbf597fc7; 0xc6e00bf3; 0xd5a79147];
  [0x06ca6351; 0x14292967; 0x27b70a85; 0x2e1b2138; 0x4d2c6dfc];
  [0x53380d13; 0x650a7354; 0x766a0abb; 0x81c2c92e; 0x92722c85];
  [0xa2bfe8a1; 0xa81a664b; 0xc24b8b70; 0xc76c51a3; 0xd192e819];
  [0xd6990624; 0xf40e3585; 0x106aa070; 0x19a4c116; 0x1e376c08];
  [0x2748774c; 0x34b0bcb5; 0x391c0cb3; 0x4ed8aa4a; 0x5b9cca4f];
  [0x682e6ff3; 0x748f82ee; 0x78a5636f; 0x84c87814; 0x8cc70208];
  [0x90befffa; 0xa4506ceb; 0xbef9a3f7; 0xc67178f2]].

Definition BLOCK_SIZE : nat := 64.

Definition Ch (x y z : Z) : Z := Z.lxor z (Z.land x (Z.lxor y z)).
Definition Maj (x y z : Z) : Z := Z.lor (Z.land (Z.lor x y) z) (Z.land x y).
Definition R (x n : Z) : Z := Z.shiftr (Z.land x 0xFFFFFFFF) n.
Definition Sigma0 (x : Z) : Z := Z.lxor (Z.lxor (ror x 2) (ror x 13)) (ror x 22).
Definition Sigma1 (x : Z) : Z := Z.lxor (Z.lxor (ror x 6) (ror x 11)) (ror x 25).
Definition Gamma0 (x : Z) : Z := Z.lxor (Z.lxor (ror x 7) (ror x 18)) (R x 3).
Definition Gamma1 (x : Z) : Z := Z.lxor (Z.lxor (ror x 17) (ror x 19)) (R x 10).

(** ** The context *)

Record Sha256Context := Ctx { ctx_length : Z; state : list Z; curlen : nat; buf : list Z }.

(** ** Compressing a block *)

(** One iteration of the loop "Compress": [Sha256Round] and the rotation of
    [S]. *)
Definition Sha256Round (W : list Z) (i : nat) (S : list Z) : list Z :=
  match S with
  | [a; b; c; d; e; f; g; h] =>
    let t0 := u32 (h + Sigma1 e + Ch e f g + SHA_K !!! i + W !!! i) in
    let t1 := u32 (Sigma0 a + Maj a b c) in
    let d := u32 (d + t0) in
    let h := u32 (t0 + t1) in
    [h; a; b; c; d; e; f; g]
  | _ => S
  end.

Fixpoint sha_rounds (n i : nat) (W S : list Z) : list Z :=
  match n with O => S | Datatypes.S n => sha_rounds n (i + 1) W (Sha256Round W i S) end.

(** The loop that fills [W[16..63]]; [W] grows by one word per turn. *)
Fixpoint sha_fill (n i : nat) (W : list Z) : list Z :=
  match n with
  | O => W
  | S n => sha_fill n (i + 1)
      (W ++ [u32 (Gamma1 (W !!! (i - 2)%nat) + W !!! (i - 7)%nat + Gamma0 (W !!! (i - 15)%nat) + W !!! (i - 16)%nat)])
  end.

Definition sha_load (Buffer : list Z) : list Z := (λ i, LOAD32H Buffer (4 * i)) <$> seq 0 16.

Definition TransformFunction (st : list Z) (Buffer : list Z) : list Z :=
  let W := sha_fill 48 16 (sha_load Buffer) in
  zip_with (λ x y, u32 (x + y)) st (sha_rounds 64 0 W st).

(** ** The public functions *)

(** [Sha256Initialise]; [b] is what the buffer holds before. *)
Definition Sha256Initialise (b : list Z) : Sha256Context :=
  Ctx 0 [0x6A09E667; 0xBB67AE85; 0x3C6EF372; 0xA54FF53A; 0x510E527F; 0x9B05688C; 0x1F83D9AB; 0x5BE0CD19] 0 b.

(** [memcpy] into the middle of the buffer. *)
Definition put_at (b : list Z) (i : nat) (d : list Z) : list Z := take i b ++ d ++ drop (i + length d) b.

(** The loop of [Sha256Update]; every turn consumes a byte or empties a full
    buffer, so [length Buffer + 1] turns are enough. *)
Fixpoint update_loop (fuel : nat) (c : Sha256Context) (Buffer : list Z) : res Sha256Context :=
  match fuel with
  | O => Err OutOfFuel
  | S fuel =>
    if (length Buffer =? 0)%nat then Ok c
    else if (curlen c =? 0)%nat && (BLOCK_SIZE <=? length Buffer)%nat then
      update_loop fuel (Ctx (u64 (ctx_length c + 64 * 8)) (TransformFunction (state c) (take BLOCK_SIZE Buffer))
        (curlen c) (buf c)) (drop BLOCK_SIZE Buffer)
    else
      let n := Nat.min (length Buffer) (BLOCK_SIZE - curlen c) in
      let b := put_at (buf c) (curlen c) (take n Buffer) in
      let cl := (curlen c + n)%nat in
      if (cl =? BLOCK_SIZE)%nat then
        update_loop fuel (Ctx (u64 (ctx_length c + 8 * 64)) (TransformFunction (state c) b) 0 b) (drop n Buffer)
      else update_loop fuel (Ctx (ctx_length c) (state c) cl b) (drop n Buffer)
  end.

Definition Sha256Update (c : Sha256Context) (Buffer : list Z) : res Sha256Context :=
  if (64 <? curlen c)%nat then Ok c else update_loop (length Buffer + 2) c Buffer.

(** Zero bytes up to index [n]. *)
Definition pad_to (n : nat) (b : list Z) (cl : nat) : list Z := put_at b cl (replicate (n - cl) 0).

(** [Sha256Finalise]; [None] when the context is not usable and the digest is
    left alone. *)
Definition Sha256Finalise (c : Sha256Context) : option (list Z) :=
  if (64 <=? curlen c)%nat then None
  else
    let len := u64 (ctx_length c + Z.of_nat (curlen c) * 8) in
    let b := put_at (buf c) (curlen c) [0x80] in
    let cl := (curlen c + 1)%nat in
    let '(st, b, cl) :=
      if (56 <? cl)%nat then
        let b := pad_to 64 b cl in (TransformFunction (state c) b, b, 0%nat)
      else (state c, b, cl) in
    let b := pad_to 56 b cl in
    let b := put_at b 56 (STORE64H len) in
    let st := TransformFunction st b in
    Some (st ≫= STORE32H).

Definition Sha256Calculate (junk Buffer : list Z) : res (option (list Z)) :=
  c ← Sha256Update (Sha256Initialise junk) Buffer;
  Ok (Sha256Finalise c).

(** ** FIPS 180-4 *)

Module Fips.

Definition ROTR (n x : Z) : Z := Z.lor (Z.shiftr x n) (Z.shiftl x (32 - n) `mod` 2 ^ 32).
Definition SHR (n x : Z) : Z := Z.shiftr x n.
Definition ch (x y z : Z) : Z := Z.lxor (Z.land x y) (Z.land (Z.lnot x) z).
Definition maj (x y z : Z) : Z := Z.lxor (Z.lxor (Z.land x y) (Z.land x z)) (Z.land y z).
Definition S0 (x : Z) : Z := Z.lxor (Z.lxor (ROTR 2 x) (ROTR 13 x)) (ROTR 22 x).
Definition S1 (x : Z) : Z := Z.lxor (Z.lxor (ROTR 6 x) (ROTR 11 x)) (ROTR 25 x).
Definition s0 (x : Z) : Z := Z.lxor (Z.lxor (ROTR 7 x) (ROTR 18 x)) (SHR 3 x).
Definition s1 (x : Z) : Z := Z.lxor (Z.lxor (ROTR 17 x) (ROTR 19 x)) (SHR 10 x).

(** Sums are modulo [2^32]. *)
Definition add (xs : list Z) : Z := foldr Z.add 0 xs `mod` 2 ^ 32.

(** The message schedule as a sliding window of 16 words. *)
Fixpoint schedule (n : nat) (win : list Z) : list Z :=
  match n with
  | O => []
  | S n => (win !!! 0%nat) :: schedule n (drop 1 win ++
      [add [s1 (win !!! 14%nat); win !!! 9%nat; s0 (win !!! 1%nat); win !!! 0%nat]])
  end.

Definition round (S : list Z) (kw : Z * Z) : list Z :=
  match S with
  | [a; b; c; d; e; f; g; h] =>
    let T1 := add [h; S1 e; ch e f g; kw.1; kw.2] in
    let T2 := add [S0 a; maj a b c] in
    [add [T1; T2]; a; b; c; add [d; T1]; e; f; g]
  | _ => S
  end.

(** Big-endian words of a block. *)
Definition word (b : list Z) (i : nat) : Z :=
  2 ^ 24 * (b !!! (4 * i)%nat) + 2 ^ 16 * (b !!! (4 * i + 1)%nat) + 2 ^ 8 * (b !!! (4 * i + 2)%nat) + (b !!! (4 * i + 3)%nat).

(** The constants: the first 32 bits of the fractional parts of the cube roots of
    the first 64 primes, and of the square roots of the first 8. [root k x] is the
    integer [k]-th root of [x], bit by bit from the highest. *)
Definition is_prime (n : Z) : bool := forallb (λ d, negb (n `mod` d =? 0)) (seqZ 2 (n - 2)).
Definition primes : list Z := filter is_prime (seqZ 2 310).
Fixpoint root (k : Z) (bits : nat) (r x : Z) : Z :=
  match bits with
  | O => r
  | S b => let r' := r + 2 ^ Z.of_nat b in root k b (if r' ^ k <=? x then r' else r) x
  end.
Definition frac_root (k p : Z) : Z := root k 36 0 (p * 2 ^ (32 * k)) `mod` 2 ^ 32.
Definition K : list Z := frac_root 3 <$> primes.
Definition H0 : list Z := frac_root 2 <$> take 8 primes.

Definition compress (H : list Z) (b : list Z) : list Z :=
  zip_with (λ x y, add [x; y]) H (foldl round H (zip K (schedule 64 (word b <$> seq 0 16)))).

(** The padded message: a one bit, zeros, and the length in bits on 64 bits. *)
Definition be (n : nat) (x : Z) : list Z := reverse ((λ i, (x / 2 ^ (8 * Z.of_nat i)) `mod` 256) <$> seq 0 n).
Definition pad (m : list Z) : list Z :=
  m ++ [128] ++ replicate (Z.to_nat ((55 - Z.of_nat (length m)) `mod` 64)) 0 ++ be 8 (8 * Z.of_nat (length m)).

(** The message in blocks of 64 bytes. *)
Fixpoint blocks (fuel : nat) (m : list Z) : list (list Z) :=
  match fuel with
  | O => []
  | S fuel => if (length m <? 64)%nat then [] else take 64 m :: blocks fuel (drop 64 m)
  end.

Definition sha256 (m : list Z) : list Z :=
  let p := pad m in foldl compress H0 (blocks (length p) p) ≫= be 4.

End Fips.

(** The digest of "abc", from the standard. *)
Example abc_digest : Fips.sha256 [97; 98; 99] =
  Fips.be 4 0xba7816bf ++ Fips.be 4 0x8f01cfea ++ Fips.be 4 0x414140de ++ Fips.be 4 0x5dae2223 ++
  Fips.be 4 0xb00361a3 ++ Fips.be 4 0x96177a9c ++ Fips.be 4 0xb410ff61 ++ Fips.be 4 0xf20015ad.
Proof. vm_compute. reflexivity. Qed.

(** ** The compression function is the one of the standard *)

Lemma Ch_fips x y z : Ch x y z = Fips.ch x y z.
Proof.
  apply Z.bits_inj'. intros n Hn. unfold Ch, Fips.ch.
  rewrite !Z.lxor_spec, !Z.land_spec, Z.lxor_spec, Z.lnot_spec by done.
  by destruct (Z.testbit x n), (Z.testbit y n), (Z.testbit z n).
Qed.

Lemma Maj_fips x y z : Maj x y z = Fips.maj x y z.
Proof.
  apply Z.bits_inj'. intros n _. unfold Maj, Fips.maj.
  rewrite Z.lor_spec, !Z.lxor_spec, !Z.land_spec, Z.lor_spec.
  by destruct (Z.testbit x n), (Z.testbit y n), (Z.testbit z n).
Qed.

Lemma R_fips x n : 0 <= x < 2 ^ 32 → R x n = Fips.SHR n x.
Proof. intros. unfold R, Fips.SHR. change 0xFFFFFFFF with (Z.ones 32). by rewrite Z.land_ones, Z.mod_small. Qed.

Lemma lor_add x n y : 0 <= n → 0 <= y < 2 ^ n → Z.lor (x * 2 ^ n) y = x * 2 ^ n + y.
Proof.
  intros Hn Hy. pose proof (Z.add_lor_land (x * 2 ^ n) y) as HA.
  cut (Z.land (x * 2 ^ n) y = 0); [lia|]. apply Z.bits_inj'. intros k Hk.
  rewrite Z.land_spec, Z.bits_0, <-Z.shiftl_mul_pow2 by done. destruct (Z.lt_ge_cases k n) as [Hlt|Hge].
  - by rewrite Z.shiftl_spec_low.
  - destruct (decide (y = 0)) as [->|]; [by rewrite Z.bits_0, andb_false_r|].
    rewrite (Z.bits_above_log2 y k), andb_false_r; [done|lia|].
    apply Z.log2_lt_pow2; [lia|]. eapply Z.lt_le_trans; [apply Hy|]. apply Z.pow_le_mono_r; lia.
Qed.

Lemma LOAD32H_word b i :
  Forall (λ x, 0 <= x < 256) b → (4 * i + 3 < length b)%nat → LOAD32H b (4 * i) = Fips.word b i.
Proof.
  intros Hb Hi. unfold LOAD32H, Fips.word.
  assert (Hx : ∀ j, (j < length b)%nat → 0 <= b !!! j < 256).
  { intros j Hj. rewrite Forall_lookup in Hb. eapply Hb. by apply list_lookup_lookup_total_lt. }
  pose proof (Hx (4 * i)%nat ltac:(lia)). pose proof (Hx (4 * i + 1)%nat ltac:(lia)).
  pose proof (Hx (4 * i + 2)%nat ltac:(lia)). pose proof (Hx (4 * i + 3)%nat ltac:(lia)).
  change 255 with (Z.ones 8). rewrite !Z.land_ones, !Z.mod_small, !Z.shiftl_mul_pow2 by lia.
  rewrite (lor_add _ 24) by lia.
  replace (_ * 2 ^ 24 + _ * 2 ^ 16) with ((2 ^ 8 * (b !!! (4 * i)%nat) + b !!! (4 * i + 1)%nat) * 2 ^ 16) by lia.
  rewrite (lor_add _ 16) by lia.
  replace (_ * 2 ^ 16 + _ * 2 ^ 8) with ((2 ^ 16 * (b !!! (4 * i)%nat) + 2 ^ 8 * (b !!! (4 * i + 1)%nat) + b !!! (4 * i + 2)%nat) * 2 ^ 8) by lia.
  rewrite (lor_add _ 8) by lia. lia.
Qed.

Lemma add_range xs : 0 <= Fips.add xs < 2 ^ 32.
Proof. apply Z.mod_pos_bound. lia. Qed.

(** The window of the schedule comes out first. *)
Lemma schedule_take k : ∀ win, (k <= length win)%nat → Fips.schedule k win = take k win.
Proof.
  induction k as [|k IH]; intros win Hk; [done|]. destruct win as [|x win]; simpl in Hk; [lia|].
  cbn [Fips.schedule]. change (drop 1 (x :: win)) with win. change (take (S k) (x :: win)) with (x :: take k win).
  f_equal. rewrite IH by (rewrite length_app; lia).
  by rewrite take_app_le by lia.
Qed.

Lemma sha_fill_schedule n : ∀ i W,
  (16 <= i)%nat → length W = i → Forall (λ x, 0 <= x < 2 ^ 32) W →
  sha_fill n i W = take (i - 16) W ++ Fips.schedule (n + 16) (drop (i - 16) W).
Proof.
  induction n as [|n IH]; intros i W Hi HW Hr.
  - rewrite (schedule_take (0 + 16)) by (rewrite length_drop; lia).
    rewrite (take_ge (drop _ _)) by (rewrite length_drop; lia). by rewrite take_drop.
  - assert (HR : ∀ j, (j < i)%nat → 0 <= W !!! j < 2 ^ 32).
    { intros j Hj. rewrite Forall_lookup in Hr. eapply Hr. apply list_lookup_lookup_total_lt. lia. }
    cbn [sha_fill]. rewrite IH; [|lia|rewrite length_app; simpl; lia|].
    2: { apply Forall_app. split; [done|]. apply Forall_singleton. apply Z.mod_pos_bound. lia. }
    replace (S n + 16)%nat with (S (n + 16)) by lia. cbn [Fips.schedule].
    rewrite !lookup_total_drop, drop_drop.
    replace (i - 16 + 14)%nat with (i - 2)%nat by lia. replace (i - 16 + 9)%nat with (i - 7)%nat by lia.
    replace (i - 16 + 1)%nat with (i - 15)%nat by lia. rewrite Nat.add_0_r.
    replace (i + 1 - 16)%nat with (S (i - 16)) by lia.
    rewrite take_app_le, drop_app_le by lia.
    rewrite (take_S_r W (i - 16) (W !!! (i - 16)%nat)) by (apply list_lookup_lookup_total_lt; lia).
    rewrite <-app_assoc. cbn [app]. do 2 f_equal. replace (S (i - 16)) with (i - 15)%nat by lia. do 3 f_equal.
    unfold Gamma0, Gamma1, Fips.add, u32. rewrite !R_fips by (apply HR; lia). cbn [foldr]. f_equal.
    unfold Fips.s0, Fips.s1, ror, Fips.ROTR, u32. lia.
Qed.

Lemma round_fips W i S :
  Sha256Round W i S = Fips.round S (SHA_K !!! i, W !!! i).
Proof.
  unfold Sha256Round, Fips.round. do 8 (destruct S as [|? S]; [done|]). destruct S; [|done].
  unfold Fips.add, u32. cbn [foldr fst snd]. rewrite Ch_fips, Maj_fips.
  repeat (f_equal; try (unfold Sigma0, Sigma1, Fips.S0, Fips.S1, ror, Fips.ROTR, u32; rewrite ?Z.add_0_r, ?Z.add_assoc)).
Qed.

Lemma sha_rounds_fips n : ∀ i W S,
  (i + n <= length W)%nat → (i + n <= length SHA_K)%nat →
  sha_rounds n i W S = foldl Fips.round S (take n (drop i (zip SHA_K W))).
Proof.
  induction n as [|n IH]; intros i W S HW HK; [done|]. cbn [sha_rounds].
  rewrite round_fips, IH by lia.
  rewrite (drop_S (zip SHA_K W) (SHA_K !!! i, W !!! i) i).
  - cbn [take foldl]. by rewrite Nat.add_1_r.
  - apply lookup_zip_with_Some. exists (SHA_K !!! i), (W !!! i).
    split_and!; [done| |]; apply list_lookup_lookup_total_lt; lia.
Qed.

Lemma schedule_length n : ∀ win, length (Fips.schedule n win) = n.
Proof. induction n; intros win; simpl; [done|]. by f_equal. Qed.

Lemma word_range b i :
  Forall (λ x, 0 <= x < 256) b → (4 * i + 3 < length b)%nat → 0 <= Fips.word b i < 2 ^ 32.
Proof.
  intros Hb Hi. unfold Fips.word.
  assert (Hx : ∀ j, (j < length b)%nat → 0 <= b !!! j < 256).
  { intros j Hj. rewrite Forall_lookup in Hb. eapply Hb. by apply list_lookup_lookup_total_lt. }
  pose proof (Hx (4 * i)%nat ltac:(lia)). pose proof (Hx (4 * i + 1)%nat ltac:(lia)).
  pose proof (Hx (4 * i + 2)%nat ltac:(lia)). pose proof (Hx (4 * i + 3)%nat ltac:(lia)). lia.
Qed.

(** The table of the source and the standard's constants. *)
Lemma K_table : Fips.K = SHA_K.
Proof. vm_compute. reflexivity. Qed.

Lemma initial_state : Fips.H0 = state (Sha256Initialise []).
Proof. vm_compute. reflexivity. Qed.

Lemma transform_fips st b :
  Forall (λ x, 0 <= x < 256) b → length b = 64%nat → TransformFunction st b = Fips.compress st b.
Proof.
  intros Hb Hlen. unfold TransformFunction, Fips.compress. rewrite K_table.
  assert (HL : sha_load b = Fips.word b <$> seq 0 16).
  { apply list_fmap_ext. intros j i Hi. apply lookup_seq in Hi as [-> ?]. apply LOAD32H_word; [done|lia]. }
  rewrite HL, (sha_fill_schedule 48 16).
  - rewrite drop_0, take_0, app_nil_l. change (48 + 16)%nat with 64%nat.
    rewrite sha_rounds_fips by (rewrite ?schedule_length; vm_compute; lia).
    rewrite drop_0, take_ge by (rewrite length_zip_with, schedule_length; vm_compute; lia).
    apply zip_with_ext; [|done|done]. intros x y. unfold Fips.add, u32. cbn [foldr]. by rewrite Z.add_0_r.
  - lia.
  - by rewrite length_fmap, length_seq.
  - apply Forall_fmap, Forall_forall. intros i Hi%elem_of_seq. simpl. apply word_range; [done|lia].
Qed.

(** ** Updates *)

Lemma put_at_length b i d : (i + length d <= length b)%nat → length (put_at b i d) = length b.
Proof. intros. unfold put_at. rewrite !length_app, length_take, length_drop. lia. Qed.

Lemma put_at_take b i d : (i <= length b)%nat → take (i + length d) (put_at b i d) = take i b ++ d.
Proof.
  intros. unfold put_at. rewrite app_assoc. rewrite take_app_length'; [done|].
  rewrite length_app, length_take. lia.
Qed.

Definition H0 : list Z := state (Sha256Initialise []).

(** The context after the bytes [m]: the state has absorbed the full blocks, the
    buffer holds the rest. *)
Definition ctx_inv (c : Sha256Context) (m : list Z) : Prop :=
  ∃ bs r, m = concat bs ++ r ∧ Forall (λ b, length b = 64%nat) bs ∧ (length r < 64)%nat ∧
    state c = foldl TransformFunction H0 bs ∧ curlen c = length r ∧ length (buf c) = 64%nat ∧
    take (length r) (buf c) = r ∧ ctx_length c = u64 (512 * Z.of_nat (length bs)).

Lemma u64_count n : u64 (u64 (512 * Z.of_nat n) + 512) = u64 (512 * Z.of_nat (n + 1)).
Proof. unfold u64. rewrite Zplus_mod_idemp_l. f_equal. lia. Qed.

Lemma foldl_snoc {A B} (f : A → B → A) a l x : foldl f a (l ++ [x]) = f (foldl f a l) x.
Proof. by rewrite foldl_app. Qed.

(** A block has been absorbed. *)
Lemma absorb bs b :
  Forall (λ b, length b = 64%nat) bs → length b = 64%nat → ∀ c',
  state c' = TransformFunction (foldl TransformFunction H0 bs) b → curlen c' = 0%nat → length (buf c') = 64%nat →
  ctx_length c' = u64 (u64 (512 * Z.of_nat (length bs)) + 512) → ctx_inv c' (concat bs ++ b).
Proof.
  intros Hbs Hb c' Hs Hc Hbuf Hl. exists (bs ++ [b]), []. rewrite concat_app, foldl_snoc, length_app. simpl.
  rewrite !app_nil_r. split_and!; try done; [apply Forall_app; split; [done|by apply Forall_singleton]|lia|].
  by rewrite Hl, u64_count.
Qed.

Lemma update_loop_inv fuel : ∀ c m Buffer,
  ctx_inv c m → (length Buffer < fuel)%nat →
  ∃ c', update_loop fuel c Buffer = Ok c' ∧ ctx_inv c' (m ++ Buffer).
Proof.
  induction fuel as [|fuel IH]; intros c m Buffer Hc Hf; [lia|]. cbn [update_loop].
  destruct (Nat.eqb_spec (length Buffer) 0) as [E|Hne].
  { apply length_zero_iff_nil in E as ->. exists c. by rewrite app_nil_r. }
  pose proof Hc as (bs & r & Hm & Hbs & Hr & Hst & Hcl & Hbuf & Htk & Hln).
  rewrite Hcl. change BLOCK_SIZE with 64%nat.
  destruct (Nat.eqb_spec (length r) 0) as [Er|Hr0]; cbn [andb]; [destruct (Nat.leb_spec 64 (length Buffer))|].
  1: { apply length_zero_iff_nil in Er as ->. rewrite app_nil_r in Hm.
    destruct (IH (Ctx (u64 (ctx_length c + 64 * 8)) (TransformFunction (state c) (take 64 Buffer)) (length (@nil Z)) (buf c))
      (m ++ take 64 Buffer) (drop 64 Buffer)) as (c' & E & Hi).
    - subst m. apply absorb; [done|rewrite length_take; lia|by rewrite Hst|done|done|by rewrite Hln].
    - rewrite length_drop. lia.
    - exists c'. split; [done|]. by rewrite <-app_assoc, take_drop in Hi. }
  all: set (n := Nat.min (length Buffer) (64 - length r)); set (b := put_at (buf c) (length r) (take n Buffer)).
  all: assert (Hn : (0 < n <= length Buffer ∧ length r + n <= 64)%nat) by (unfold n; lia).
  all: assert (Htn : length (take n Buffer) = n) by (rewrite length_take; lia).
  all: assert (Hb : length b = 64%nat) by (unfold b; rewrite put_at_length; lia).
  all: assert (Hbt : take (length r + n) b = r ++ take n Buffer)
    by (rewrite <-Htk at 2; rewrite <-Htn at 1; apply put_at_take; lia).
  all: destruct (Nat.eqb_spec (length r + n) 64) as [E64|N64].
  all: try (destruct (IH (Ctx (u64 (ctx_length c + 8 * 64)) (TransformFunction (state c) b) 0 b)
        (m ++ take n Buffer) (drop n Buffer)) as (c' & E & Hi);
      [subst m; rewrite <-app_assoc, <-Hbt, E64, (take_ge b) by lia;
       apply absorb; [done|done|by rewrite Hst|done|done|by rewrite Hln]
      |rewrite length_drop; lia
      |exists c'; split; [done|]; by rewrite <-app_assoc, take_drop in Hi]).
  all: destruct (IH (Ctx (ctx_length c) (state c) (length r + n) b) (m ++ take n Buffer) (drop n Buffer)) as (c' & E & Hi);
    [exists bs, (r ++ take n Buffer); cbn [state curlen buf ctx_length];
     rewrite length_app, Htn; subst m; split_and!; try done; [by rewrite app_assoc|lia]
    |rewrite length_drop; lia
    |exists c'; split; [done|]; by rewrite <-app_assoc, take_drop in Hi].
Qed.

Lemma update_inv c m Buffer :
  ctx_inv c m → ∃ c', Sha256Update c Buffer = Ok c' ∧ ctx_inv c' (m ++ Buffer).
Proof.
  intros Hc. pose proof Hc as (bs & r & _ & _ & Hr & _ & Hcl & _). unfold Sha256Update.
  rewrite (proj2 (Nat.ltb_ge 64 (curlen c))) by lia. apply update_loop_inv; [done|lia].
Qed.

(** Several updates. *)
Fixpoint updates (c : Sha256Context) (chunks : list (list Z)) : res Sha256Context :=
  match chunks with
  | [] => Ok c
  | d :: chunks => c ← Sha256Update c d; updates c chunks
  end.

Lemma updates_inv chunks : ∀ c m,
  ctx_inv c m → ∃ c', updates c chunks = Ok c' ∧ ctx_inv c' (m ++ concat chunks).
Proof.
  induction chunks as [|d chunks IH]; intros c m Hc; simpl; [exists c; by rewrite app_nil_r|].
  destruct (update_inv c m d Hc) as (c1 & -> & Hc1). destruct (IH c1 _ Hc1) as (c' & E & Hc').
  exists c'. rewrite app_assoc. done.
Qed.

(** ** Padding *)

Lemma STORE64H_be x : STORE64H x = Fips.be 8 x.
Proof. unfold STORE64H, Fips.be, u8. rewrite !Z.shiftr_div_pow2 by done. cbn. by rewrite Z.div_1_r. Qed.

Lemma STORE32H_be x : STORE32H x = Fips.be 4 x.
Proof. unfold STORE32H, Fips.be, u8. rewrite !Z.shiftr_div_pow2 by done. cbn. by rewrite Z.div_1_r. Qed.

Lemma be_bytes n x : Forall (λ b, 0 <= b < 256) (Fips.be n x).
Proof.
  unfold Fips.be. apply Forall_reverse, Forall_fmap, Forall_forall. intros i _. simpl. apply Z.mod_pos_bound. lia.
Qed.

Lemma blocks_concat bs : ∀ fuel,
  Forall (λ b, length b = 64%nat) bs → (length bs <= fuel)%nat → Fips.blocks fuel (concat bs) = bs.
Proof.
  induction bs as [|b bs IH]; intros fuel Hbs Hf; [by destruct fuel|].
  apply Forall_cons in Hbs as [Hb Hbs]. destruct fuel as [|fuel]; simpl in Hf; [lia|]. cbn [Fips.blocks concat].
  rewrite (proj2 (Nat.ltb_ge _ 64)) by (rewrite length_app; lia).
  rewrite take_app_length', drop_app_length' by done. f_equal. apply IH; [done|lia].
Qed.

Lemma concat_length64 bs : Forall (λ b : list Z, length b = 64%nat) bs → length (concat bs) = (64 * length bs)%nat.
Proof. induction 1 as [|b bs Hb _ IH]; [done|]. simpl. rewrite length_app, Hb, IH. lia. Qed.

Lemma transforms_fips bs : ∀ st,
  Forall (λ b, length b = 64%nat) bs → Forall (λ b, 0 <= b < 256) (concat bs) →
  foldl Fips.compress st bs = foldl TransformFunction st bs.
Proof.
  induction bs as [|b bs IH]; intros st Hbs Hby; cbn [foldl concat] in *; [reflexivity|].
  apply Forall_cons in Hbs as [Hb Hbs]. apply Forall_app in Hby as [Hb1 Hby].
  rewrite <-transform_fips by assumption. apply IH; assumption.
Qed.

Lemma sha256_of_blocks m bs :
  Fips.pad m = concat bs → Forall (λ b, length b = 64%nat) bs → Forall (λ b, 0 <= b < 256) (Fips.pad m) →
  Fips.sha256 m = foldl TransformFunction H0 bs ≫= STORE32H.
Proof.
  intros Ep Hbs Hby. unfold Fips.sha256. rewrite Ep in *.
  rewrite blocks_concat by (rewrite ?concat_length64 by done; first [done|lia]).
  rewrite (list_bind_ext (Fips.be 4) STORE32H _ (foldl Fips.compress Fips.H0 bs));
    [|intros; by rewrite STORE32H_be|done].
  rewrite initial_state. fold H0. by rewrite transforms_fips by done.
Qed.

Lemma pad_bytes m : Forall (λ b, 0 <= b < 256) m → Forall (λ b, 0 <= b < 256) (Fips.pad m).
Proof.
  intros Hm. unfold Fips.pad. repeat (apply Forall_app; split); [done|by apply Forall_singleton| |apply be_bytes].
  apply Forall_replicate. lia.
Qed.

(** Appending to the used part of the buffer. *)
Lemma put_at_used b i d x :
  take i b = x → length x = i → (i + length d <= 64)%nat → length b = 64%nat →
  take (i + length d) (put_at b i d) = x ++ d ∧ length (put_at b i d) = 64%nat.
Proof. intros <- ? ? ?. rewrite put_at_take, put_at_length by lia. done. Qed.

Lemma finalise_inv c m :
  ctx_inv c m → Forall (λ b, 0 <= b < 256) m → 8 * Z.of_nat (length m) < 2 ^ 64 →
  Sha256Finalise c = Some (Fips.sha256 m).
Proof.
  intros (bs & r & Hm & Hbs & Hr & Hst & Hcl & Hbuf & Htk & Hln) Hby HL. unfold Sha256Finalise.
  rewrite Hcl, (proj2 (Nat.leb_gt 64 (length r))) by lia.
  assert (Hlm : length m = (64 * length bs + length r)%nat) by (subst m; rewrite length_app, concat_length64; done).
  replace (u64 (ctx_length c + Z.of_nat (length r) * 8)) with (8 * Z.of_nat (length m)).
  2: { rewrite Hln. unfold u64. rewrite Zplus_mod_idemp_l, Z.mod_small; lia. }
  rewrite STORE64H_be. set (lenb := Fips.be 8 _). assert (Hlb : length lenb = 8%nat) by done.
  destruct (put_at_used (buf c) (length r) [0x80] r Htk eq_refl ltac:(simpl; lia) Hbuf) as [Ht1 Hl1].
  change (length [128]) with 1%nat in Ht1. set (b1 := put_at (buf c) _ _) in *.
  assert (Hr1 : length (r ++ [128]) = (length r + 1)%nat) by (by rewrite length_app).
  assert (Hpad : ∀ z, Z.to_nat ((55 - Z.of_nat (length m)) mod 64) = z →
    Fips.pad m = concat bs ++ (r ++ [128]) ++ replicate z 0 ++ lenb).
  { intros z <-. unfold Fips.pad. fold lenb. rewrite Hm at 1. by rewrite !app_assoc. }
  destruct (Nat.ltb_spec 56 (length r + 1)) as [Hgt|Hle].
  - destruct (put_at_used b1 (length r + 1) (replicate (64 - (length r + 1)) 0) _ Ht1 Hr1) as [Ht2 Hl2];
      [rewrite length_replicate; lia|done|]. rewrite length_replicate in Ht2.
    fold (pad_to 64 b1 (length r + 1)) in Ht2, Hl2. set (b2 := pad_to 64 b1 _) in *.
    rewrite take_ge in Ht2 by lia.
    destruct (put_at_used b2 0 (replicate (56 - 0) 0) [] eq_refl eq_refl) as [Ht3 Hl3];
      [rewrite length_replicate; lia|done|]. rewrite length_replicate in Ht3. fold (pad_to 56 b2 0) in Ht3, Hl3.
    set (b3 := pad_to 56 b2 0) in *. cbn zeta iota.
    destruct (put_at_used b3 56 lenb (replicate 56 0) Ht3 eq_refl) as [Ht4 Hl4]; [lia|done|].
    rewrite take_ge in Ht4 by lia. f_equal. rewrite Hst, <-!foldl_snoc. symmetry. apply sha256_of_blocks.
    + rewrite (Hpad (64 - (length r + 1) + 56)%nat) by (Z.to_euclidean_division_equations; lia).
      rewrite !concat_app. cbn [concat]. rewrite !app_nil_r, Ht2, Ht4, replicate_add, <-!app_assoc. done.
    + repeat (apply Forall_app; split); [done|by apply Forall_singleton|by apply Forall_singleton].
    + by apply pad_bytes.
  - destruct (put_at_used b1 (length r + 1) (replicate (56 - (length r + 1)) 0) _ Ht1 Hr1) as [Ht2 Hl2];
      [rewrite length_replicate; lia|done|]. rewrite length_replicate in Ht2.
    fold (pad_to 56 b1 (length r + 1)) in Ht2, Hl2. set (b2 := pad_to 56 b1 _) in *.
    replace (length r + 1 + (56 - (length r + 1)))%nat with 56%nat in Ht2 by lia. cbn zeta iota.
    destruct (put_at_used b2 56 lenb _ Ht2) as [Ht4 Hl4];
      [rewrite length_app, Hr1, length_replicate; lia|lia|done|].
    rewrite take_ge in Ht4 by lia. f_equal. rewrite Hst, <-!foldl_snoc. symmetry. apply sha256_of_blocks.
    + rewrite (Hpad (56 - (length r + 1))%nat) by (Z.to_euclidean_division_equations; lia).
      rewrite !concat_app. cbn [concat]. rewrite !app_nil_r, Ht4, <-!app_assoc. done.
    + repeat (apply Forall_app; split); [done|by apply Forall_singleton].
    + by apply pad_bytes.
Qed.

Lemma initialise_inv junk : length junk = 64%nat → ctx_inv (Sha256Initialise junk) [].
Proof. intros. exists [], []. split_and!; try done. simpl. lia. Qed.

(** C15: any way of feeding a message to the hash gives its SHA-256 digest. For
    every sequence of chunks whose bits can be counted on 64 bits, the updates
    with these chunks succeed and the digest that [Sha256Finalise] stores is the
    one FIPS 180-4 defines for the concatenation of the chunks: where the chunks
    are cut, and what the context's buffer held before, do not matter. *)
Theorem sha256_updates_give_standard_digest junk chunks :
  length junk = 64%nat → Forall (λ b, 0 <= b < 256) (concat chunks) →
  8 * Z.of_nat (length (concat chunks)) < 2 ^ 64 →
  ∃ c, updates (Sha256Initialise junk) chunks = Ok c ∧
    Sha256Finalise c = Some (Fips.sha256 (concat chunks)).
Proof.
  intros Hj Hb HL. destruct (updates_inv chunks _ [] (initialise_inv junk Hj)) as (c & E & Hc).
  exists c. split; [done|]. by apply finalise_inv.
Qed.

Lemma sha256_updates_give_standard_digest_witness :
  ∃ c, updates (Sha256Initialise (replicate 64 170)) [[97]; []; [98; 99]] = Ok c ∧
    Sha256Finalise c = Some (Fips.sha256 [97; 98; 99]).
Proof.
  apply (sha256_updates_give_standard_digest (replicate 64 170) [[97]; []; [98; 99]]); [done| |vm_compute; done].
  repeat (apply Forall_cons; split; [lia|]). apply Forall_nil. done.
Defined.

End Sha256.
