(* ===== verification/Bloom.v ===== *)
(** * The Bloom filter of the LSM tree (algorithm/Lsmtree/bloomfilter.c)

    A filter has [m] bits in an array of [char]; a key sets [k] of them. The
    number of bits and of probes come from floating-point formulas of the C
    library, which are arguments of [bf_init]. *)
From S2P Require Export Prelude Settings.

Local Open Scope Z_scope.
Local Open Scope c_scope.

Module Bloom.

(** ** Bits of a [char] *)

Definition BITSET (input offset : Z) : Z :=
  let test := s8 (Z.shiftl 1 offset) in Z.lor input test.

Definition BITGET (input offset : Z) : bool :=
  let test := s8 (Z.shiftl 1 offset) in negb (Z.land input test =? 0).

(** ** Hash functions *)

Definition rotl32 (x r : Z) : Z := Z.lor (x <<u r) (x >>u (32 - r)).

Definition fmix32 (h : Z) : Z :=
  let h := Z.lxor h (h >>u 16) in
  let h := h *u 0x85ebca6b in
  let h := Z.lxor h (h >>u 13) in
  let h := h *u 0xc2b2ae35 in
  Z.lxor h (h >>u 16).

Definition murmur_c1 : Z := 0xcc9e2d51.
Definition murmur_c2 : Z := 0x1b873593.

(** [k1 *= c1; k1 = ROTL32(k1,15); k1 *= c2;] *)
Definition murmur_mix (k1 : Z) : Z := (rotl32 (k1 *u murmur_c1) 15) *u murmur_c2.

(** The loop over the four-byte blocks. *)
Fixpoint murmur_blocks (n : nat) (data : list Z) (h1 : Z) : res Z :=
  match n with
  | O => Ok h1
  | S n =>
    k1 ← le32_read data;
    let h1 := Z.lxor h1 (murmur_mix k1) in
    let h1 := rotl32 h1 13 in
    let h1 := (h1 *u 5) +u 0xe6546b64 in
    murmur_blocks n (drop 4 data) h1
  end.

(** The cases 3, 2 and 1 fall through. *)
Definition murmur_tail (tail : list Z) (n h1 : Z) : res Z :=
  k1 ← (if n =? 3 then t ← deref (tail !! 2%nat); Ok (Z.shiftl t 16) else Ok 0);
  k1 ← (if 2 <=? n then t ← deref (tail !! 1%nat); Ok (Z.lxor k1 (Z.shiftl t 8)) else Ok k1);
  if 1 <=? n then t ← deref (tail !! 0%nat); Ok (Z.lxor h1 (murmur_mix (Z.lxor k1 t))) else Ok h1.

Definition MurmurHash3_x86_32 (key : list Z) (len seed : Z) : res Z :=
  let nblocks := len / 4 in
  h1 ← murmur_blocks (Z.to_nat nblocks) key seed;
  h1 ← murmur_tail (drop (Z.to_nat (4 * nblocks)) key) (Z.land len 3) h1;
  Ok (fmix32 (Z.lxor h1 len)).

Definition hashfunction (key : Z) : Z :=
  let key := Z.lxor key (key >>u 15) in
  let key := key *u 0x2c1b3c6d in
  let key := Z.lxor key (key >>u 12) in
  let key := key *u 0x297a2d39 in
  Z.lxor key (key >>u 15).

(** ** The filter *)

Record BF := Bf { bf_k : Z; bf_m : Z; targetsize : Z; bf_n : Z; body : carray Z }.

(** [m / 8] bytes, one more if a bit is left over. *)
Definition bf_bytes (m : Z) : Z := m / 8 + (if m mod 8 =? 0 then 0 else 1).

(** [bf_init]: [fpr_gt_1], [bits] and [probes] are the floating-point test and
    formulas; [m] is computed from [entry] and the rate, [k] from [m]. *)
Definition bf_init {F : Type} (fpr_gt_1 : F → bool) (bits : Z → F → Z) (probes : Z → Z → Z)
    (entry : Z) (fpr : F) : option BF :=
  if fpr_gt_1 fpr then None
  else
    let m := bits entry fpr in
    let k := probes m entry in
    let targetsize := bf_bytes m in
    Some (Bf k m targetsize entry (ca_new targetsize 0)).

Definition bf_bits {F : Type} (fpr_gt_1 : F → bool) (bits : Z → F → Z) (entry : Z) (fpr : F) : Z :=
  if fpr_gt_1 fpr then 0 else bf_bytes (bits entry fpr).

Definition bf_cpy (src : option BF) : option BF := src.

(** The bit of probe [i], from the hash [th] of the key; the [KVSSD] build of
    the LSM tree. *)
Definition bf_probe (b : BF) (th i : Z) : res (Z * Z) :=
  let h := hashfunction (Z.lor th (i <<u 7)) in
  if bf_m b =? 0 then Err Undefined
  else let h := u32 (h mod bf_m b) in Ok (h / 8, h mod 8).

Definition KV_SEED : Z := 2.

Fixpoint bf_set_loop (n : nat) (th i : Z) (b : BF) : res BF :=
  match n with
  | O => Ok b
  | S n =>
    '(block, offset) ← bf_probe b th i;
    x ← ca_get (body b) block;
    body' ← ca_set (body b) block (BITSET x offset);
    bf_set_loop n th (i + 1) (Bf (bf_k b) (bf_m b) (targetsize b) (bf_n b) body')
  end.

Definition bf_set (input : option BF) (k : str_key) : res BF :=
  match input with
  | None => Err Aborted
  | Some b =>
    th ← MurmurHash3_x86_32 (key k) (len k) KV_SEED;
    bf_set_loop (Z.to_nat (bf_k b)) th 0 b
  end.

Fixpoint bf_check_loop (n : nat) (th i : Z) (b : BF) : res bool :=
  match n with
  | O => Ok true
  | S n =>
    '(block, offset) ← bf_probe b th i;
    x ← ca_get (body b) block;
    if BITGET x offset then bf_check_loop n th (i + 1) b else Ok false
  end.

Definition bf_check (input : option BF) (k : str_key) : res bool :=
  match input with
  | None => Ok true
  | Some b =>
    th ← MurmurHash3_x86_32 (key k) (len k) KV_SEED;
    bf_check_loop (Z.to_nat (bf_k b)) th 0 b
  end.

(** The value of the reference implementation for "hello" and seed 0. *)
Example murmur_hello : MurmurHash3_x86_32 [104; 101; 108; 108; 111] 5 0 = Ok 0x248bfa47.
Proof. vm_compute. reflexivity. Qed.

(** ** Bits *)

Definition char_bits : list Z := seqZ (-128) 256.

Lemma char_bits_in x : -128 <= x < 128 → x ∈ char_bits.
Proof. intros. apply elem_of_seqZ. lia. Qed.

(** All 256 characters and all pairs of offsets. *)
Lemma bit_table :
  forallb (λ x, forallb (λ o, forallb (λ o',
    (-128 <=? BITSET x o) && (BITSET x o <? 128) &&
    eqb (BITGET (BITSET x o) o') (Z.eqb o o' || BITGET x o')) (seqZ 0 8)) (seqZ 0 8)) char_bits = true.
Proof. vm_compute. reflexivity. Qed.

Lemma bitset_spec x o o' :
  -128 <= x < 128 → 0 <= o < 8 → 0 <= o' < 8 →
  -128 <= BITSET x o < 128 ∧ BITGET (BITSET x o) o' = Z.eqb o o' || BITGET x o'.
Proof.
  intros Hx Ho Ho'. pose proof bit_table as T. rewrite forallb_forall in T.
  specialize (T x). rewrite <-list_elem_of_In in T. specialize (T (char_bits_in x Hx)).
  rewrite forallb_forall in T. specialize (T o). rewrite <-list_elem_of_In, elem_of_seqZ in T.
  specialize (T ltac:(lia)). rewrite forallb_forall in T. specialize (T o').
  rewrite <-list_elem_of_In, elem_of_seqZ in T. specialize (T ltac:(lia)).
  apply andb_true_iff in T as [T1 T2]. apply andb_true_iff in T1 as [T1 T3].
  apply Bool.eqb_prop in T2. split; [lia|done].
Qed.

(** ** Filters *)

Definition bf_wf (b : BF) : Prop :=
  0 < bf_m b ∧ ca_len (body b) = bf_bytes (bf_m b) ∧ ∀ i, -128 <= ca_at (body b) i < 128.

(** Bit [j] of the array. *)
Definition bf_bit (b : BF) (block offset : Z) : bool := BITGET (ca_at (body b) block) offset.

(** [b'] has the bits of [b] and the same parameters. *)
Definition bf_le (b b' : BF) : Prop :=
  bf_k b' = bf_k b ∧ bf_m b' = bf_m b ∧
  ∀ block offset, 0 <= offset < 8 → bf_bit b block offset = true → bf_bit b' block offset = true.

#[global] Instance bf_le_preorder : PreOrder bf_le.
Proof.
  split; [done|]. intros b1 b2 b3 (E1 & E2 & H12) (F1 & F2 & H23). split_and!; [congruence|congruence|]. auto.
Qed.

Lemma le32_read_Ok l : (4 <= length l)%nat → ∃ x, le32_read l = Ok x.
Proof. intros H. do 4 (destruct l; simpl in H; [lia|]). by eexists. Qed.

Lemma murmur_blocks_Ok n : ∀ data h, (4 * n <= length data)%nat → ∃ h', murmur_blocks n data h = Ok h'.
Proof.
  induction n as [|n IH]; intros data h Hd; [by eexists|]. cbn [murmur_blocks].
  destruct (le32_read_Ok data) as [x ->]; [lia|]. rbind. apply IH. rewrite length_drop. lia.
Qed.

Lemma murmur_tail_Ok tail n h : 0 <= n <= 3 → n <= Z.of_nat (length tail) → ∃ h', murmur_tail tail n h = Ok h'.
Proof.
  intros Hn Ht. unfold murmur_tail. assert (n = 0 ∨ n = 1 ∨ n = 2 ∨ n = 3) as [->|[->|[->| ->]]] by lia;
  destruct tail as [|t0 [|t1 [|t2 tail]]]; simpl in Ht; try lia; simpl; by eexists.
Qed.

(** Every key has a hash. *)
Lemma murmur_Ok k : key_wf k → ∃ th, MurmurHash3_x86_32 (key k) (len k) KV_SEED = Ok th.
Proof.
  intros (Hl & Hlt & _). unfold MurmurHash3_x86_32.
  destruct (murmur_blocks_Ok (Z.to_nat (len k / 4)) (key k) KV_SEED) as [h1 ->].
  { Z.to_euclidean_division_equations. lia. }
  rbind. change 3 with (Z.ones 2). rewrite Z.land_ones by done.
  destruct (murmur_tail_Ok (drop (Z.to_nat (4 * (len k / 4))) (key k)) (len k mod 2 ^ 2) h1) as [h2 ->];
    [| |rbind; by eexists].
  - pose proof (Z.mod_pos_bound (len k) (2 ^ 2) ltac:(lia)). lia.
  - rewrite length_drop. change (2 ^ 2) with 4. Z.to_euclidean_division_equations. lia.
Qed.

(** The probed bit lies in the array. *)
Lemma bf_probe_Ok b th i :
  bf_wf b → ∃ block offset, bf_probe b th i = Ok (block, offset) ∧ 0 <= offset < 8 ∧ 0 <= block < ca_len (body b).
Proof.
  intros (Hm & Hlen & _). unfold bf_probe. rewrite (proj2 (Z.eqb_neq (bf_m b) 0)) by lia.
  set (h := hashfunction _ mod bf_m b). assert (Hh : 0 <= h < bf_m b) by (apply Z.mod_pos_bound; lia).
  assert (Hu : 0 <= u32 h < bf_m b).
  { unfold u32. pose proof (Z.mod_pos_bound h (2 ^ 32) ltac:(lia)). pose proof (Z.mod_le h (2 ^ 32)). lia. }
  eexists _, _. split; [done|]. split; [apply Z.mod_pos_bound; lia|]. rewrite Hlen. unfold bf_bytes.
  destruct (Z.eqb_spec (bf_m b mod 8) 0); Z.to_euclidean_division_equations; lia.
Qed.

(** Probing looks at the parameters only. *)
Lemma bf_probe_le b b' th i : bf_le b b' → bf_probe b' th i = bf_probe b th i.
Proof. intros (_ & Em & _). unfold bf_probe. by rewrite Em. Qed.

Lemma bf_set_loop_Ok n th : ∀ i b,
  bf_wf b → ∃ b', bf_set_loop n th i b = Ok b' ∧ bf_wf b' ∧ bf_le b b' ∧ bf_check_loop n th i b' = Ok true.
Proof.
  induction n as [|n IH]; intros i b Hwf; [exists b; by repeat (split; [done|])|]. cbn [bf_set_loop].
  destruct (bf_probe_Ok b th i Hwf) as (block & offset & Hp & Ho & Hb). rewrite Hp. rbind.
  rewrite ca_get_in by done. rbind. rewrite ca_set_in by done. rbind.
  set (b1 := Bf _ _ _ _ _). pose proof Hwf as (Hm & Hlen & Hch).
  assert (Hwf1 : bf_wf b1).
  { split_and!; [done|done|]. intros j. unfold b1. cbn [body]. rewrite ca_at_upd.
    case_decide; [|apply Hch]. apply (bitset_spec _ _ 0); [apply Hch|lia|lia]. }
  assert (Hle1 : bf_le b b1).
  { split_and!; [done|done|]. intros bk o Hoo. unfold bf_bit, b1. cbn [body]. rewrite ca_at_upd.
    case_decide as E; [|done]. subst bk. intros Hbit. destruct (bitset_spec (ca_at (body b) block) offset o) as [_ ->];
      [apply Hch|lia|lia|]. by rewrite Hbit, orb_true_r. }
  destruct (IH (i + 1) b1 Hwf1) as (b' & -> & Hwf' & Hle' & Hck). exists b'.
  assert (Hle : bf_le b b') by (etrans; eassumption). split_and!; try done.
  cbn [bf_check_loop]. rewrite (bf_probe_le b b' th i Hle), Hp. rbind.
  rewrite ca_get_in; [|destruct Hwf' as (_ & -> & _); destruct Hle as (_ & -> & _); lia]. rbind.
  replace (BITGET _ _) with true; [done|]. symmetry. apply Hle'; [lia|]. unfold bf_bit, b1. cbn [body].
  rewrite ca_at_upd, decide_True by done. destruct (bitset_spec (ca_at (body b) block) offset offset) as [_ ->];
    [apply Hch|lia|lia|]. by rewrite Z.eqb_refl.
Qed.

Lemma bf_check_loop_mono n th : ∀ i b b',
  bf_wf b → bf_wf b' → bf_le b b' → bf_check_loop n th i b = Ok true → bf_check_loop n th i b' = Ok true.
Proof.
  induction n as [|n IH]; intros i b b' Hwf Hwf' Hle; [done|]. cbn [bf_check_loop].
  rewrite (bf_probe_le b b' th i Hle). destruct (bf_probe_Ok b th i Hwf) as (block & offset & -> & Ho & Hb). rbind.
  assert (Hb' : 0 <= block < ca_len (body b')).
  { destruct Hwf as (_ & E & _), Hwf' as (_ & -> & _), Hle as (_ & -> & _). by rewrite <-E. }
  rewrite !ca_get_in by done. rbind. pose proof Hle as (_ & _ & Hbits). specialize (Hbits block offset Ho). unfold bf_bit in Hbits.
  destruct (BITGET (ca_at (body b) block) offset); [|done]. rewrite Hbits by done. by apply IH.
Qed.

Lemma bf_set_Ok b k :
  bf_wf b → key_wf k → ∃ b', bf_set (Some b) k = Ok b' ∧ bf_wf b' ∧ bf_le b b' ∧ bf_check (Some b') k = Ok true.
Proof.
  intros Hwf Hk. unfold bf_set, bf_check. destruct (murmur_Ok k Hk) as [th ->]. rbind.
  destruct (bf_set_loop_Ok (Z.to_nat (bf_k b)) th 0 b Hwf) as (b' & -> & Hwf' & Hle & Hck).
  exists b'. split_and!; try done. by destruct Hle as (-> & _).
Qed.

Lemma bf_check_mono b b' k :
  bf_wf b → bf_wf b' → bf_le b b' → bf_check (Some b) k = Ok true → bf_check (Some b') k = Ok true.
Proof.
  intros Hwf Hwf' Hle. unfold bf_check. destruct (MurmurHash3_x86_32 _ _ _) as [th|]; [|done]. rbind.
  pose proof Hle as (-> & _). by apply bf_check_loop_mono.
Qed.

Lemma bf_check_Ok b k : bf_wf b → key_wf k → ∃ v, bf_check (Some b) k = Ok v.
Proof.
  intros Hwf Hk. unfold bf_check. destruct (murmur_Ok k Hk) as [th ->]. rbind. generalize 0 as i. induction (Z.to_nat (bf_k b)) as [|n IH]; intros i; [by exists true|].
  cbn [bf_check_loop]. destruct (bf_probe_Ok b th i Hwf) as (block & offset & -> & Ho & Hb). rbind. rewrite ca_get_in by done. rbind.
  destruct (BITGET _ _); [apply IH|by exists false].
Qed.

(** Setting a list of keys. *)
Fixpoint bf_sets (b : BF) (ks : list str_key) : res BF :=
  match ks with [] => Ok b | k :: ks => b ← bf_set (Some b) k; bf_sets b ks end.

Lemma bf_sets_Ok ks : ∀ b,
  bf_wf b → Forall key_wf ks →
  ∃ b', bf_sets b ks = Ok b' ∧ bf_wf b' ∧ bf_le b b' ∧ ∀ k, k ∈ ks → bf_check (Some b') k = Ok true.
Proof.
  induction ks as [|k ks IH]; intros b Hwf Hks; [exists b; do 3 (split; [done|]); by intros ? ?%elem_of_nil|].
  apply Forall_cons in Hks as [Hk Hks]. cbn [bf_sets].
  destruct (bf_set_Ok b k Hwf Hk) as (b1 & -> & Hwf1 & Hle1 & Hck1). rbind.
  destruct (IH b1 Hwf1 Hks) as (b' & E & Hwf' & Hle' & Hck'). exists b'. split_and!; try done; [by etrans|].
  intros k' [->|Hin]%elem_of_cons; [by apply (bf_check_mono b1)|by apply Hck'].
Qed.

Lemma bf_init_wf {F} (gt1 : F → bool) bits probes entry fpr b :
  0 < bits entry fpr → bf_init gt1 bits probes entry fpr = Some b →
  bf_wf b ∧ bf_k b = probes (bits entry fpr) entry ∧ ∀ i, ca_at (body b) i = 0.
Proof.
  unfold bf_init. intros Hm. destruct (gt1 fpr); [done|]. intros [= <-]. by split_and!.
Qed.

Lemma bf_empty_check b k :
  bf_wf b → key_wf k → 0 < bf_k b → (∀ i, ca_at (body b) i = 0) → bf_check (Some b) k = Ok false.
Proof.
  intros Hwf Hk Hn H0. unfold bf_check. destruct (murmur_Ok k Hk) as [th ->]. rbind.
  destruct (Z.to_nat (bf_k b)) as [|n] eqn:E; [lia|]. cbn [bf_check_loop].
  destruct (bf_probe_Ok b th 0 Hwf) as (block & offset & -> & Ho & Hb). rbind.
  rewrite ca_get_in by done. rbind. by rewrite H0.
Qed.

(** C20: the Bloom filter has no false negatives. A new filter with at least one
    bit and one probe contains no key; whatever keys are then set, all of them
    are found in the filter and in its copies, in any order of setting; keys
    found before later keys are set are still found afterwards. *)
Theorem bloom_no_false_negative {F} (gt1 : F → bool) bits probes entry fpr b ks1 ks2 :
  bf_init gt1 bits probes entry fpr = Some b → 0 < bits entry fpr → 0 < probes (bits entry fpr) entry →
  Forall key_wf ks1 → Forall key_wf ks2 →
  (∀ k, key_wf k → bf_check (Some b) k = Ok false) ∧
  ∃ b1 b2, bf_sets b ks1 = Ok b1 ∧ bf_sets b1 ks2 = Ok b2 ∧
    (∀ k, k ∈ ks1 ++ ks2 → bf_check (bf_cpy (Some b2)) k = Ok true) ∧
    (∀ k, bf_check (Some b1) k = Ok true → bf_check (Some b2) k = Ok true).
Proof.
  intros Hb Hm Hp H1 H2. destruct (bf_init_wf gt1 bits probes entry fpr b Hm Hb) as (Hwf & Ek & H0).
  split; [intros k Hk; apply bf_empty_check; [done|done|lia|done]|].
  destruct (bf_sets_Ok ks1 b Hwf H1) as (b1 & E1 & Hwf1 & _ & Hc1).
  destruct (bf_sets_Ok ks2 b1 Hwf1 H2) as (b2 & E2 & Hwf2 & Hle & Hc2).
  exists b1, b2. split_and!; try done.
  - intros k [Hk|Hk]%elem_of_app; [by apply (bf_check_mono b1); auto|by apply Hc2].
  - intros k. by apply bf_check_mono.
Qed.

Lemma bloom_no_false_negative_witness :
  let b := Bf 7 960 120 100 (ca_new 120 0) in
  ∃ b1 b2, bf_sets b [Key 2 [97; 98]] = Ok b1 ∧ bf_sets b1 [Key 1 [99]] = Ok b2 ∧
    bf_check (bf_cpy (Some b2)) (Key 2 [97; 98]) = Ok true.
Proof.
  intros b. destruct (bloom_no_false_negative (λ _ : Z, false) (λ _ _, 960) (λ _ _, 7) 100 1 b
    [Key 2 [97; 98]] [Key 1 [99]]) as [_ (b1 & b2 & E1 & E2 & Hc & _)].
  - vm_compute. reflexivity.
  - lia.
  - lia.
  - apply Forall_singleton. split_and!; try done. repeat (apply Forall_cons; split; [lia|]). by apply Forall_nil.
  - apply Forall_singleton. split_and!; try done. repeat (apply Forall_cons; split; [lia|]). by apply Forall_nil.
  - exists b1, b2. split; [exact E1|]. split; [exact E2|]. clear E1 E2. apply Hc. cbn [app]. by left.
Defined.

End Bloom.
