(* ===== verification/Partition.v ===== *)
(** * The partition block manager (blockmanager/partition/pt_block_manager.c)

    The demand-paged translation layers keep translation pages and data pages in
    different segments: the partition manager splits the segments of the device
    into ranges, each with its own free queues and heaps. It shares the block
    table, the bitmaps, the spare areas and the page counters with the base
    manager, so its state is that of the base manager with the arrays
    [p_channel[pnum][i]] flattened: channel [i] of partition [pnum] is entry
    [pnum * BPS + i] of [base_channel]. *)
From S2P Require Export Prelude Settings Queue MaxHeap BadBlock Lower BlockManager.
Import BlockManager.

Local Open Scope Z_scope.

Module Partition.

Section pt.
Context `{Sg : Settings} {Q Mp : Type} `{!FIFO Z Q} `{!IntMap loc Mp}.

(** [p_info]; [p_channel] is in the base manager. *)
Record p_info := PInfo {
  pnum : Z; now_assign : list Z; max_assign : list Z; from : list Z; to : list Z }.

Record pbm := Pbm { pt_bm : bbm_pri Q Mp; pinfo : p_info }.

(** Entry [i] of a partition's channels. *)
Definition p_channel (pn : Z) (i : nat) : nat := (Z.to_nat (pn * BPS) + i)%nat.

Definition with_assign (pi : p_info) (l : list Z) : p_info := PInfo (pnum pi) l (max_assign pi) (from pi) (to pi).

(** ** The heaps' callbacks *)

Definition pt_mh_swap_hptr (aa bb : Z) (s : blocks) : blocks :=
  let temp := hptr (ca_at s aa) in
  let s := ca_upd s aa (set_hptr (hptr (ca_at s bb)) (ca_at s aa)) in
  ca_upd s bb (set_hptr temp (ca_at s bb)).
Definition pt_mh_assign_hptr (aa : Z) (hn : nat) (s : blocks) : blocks :=
  ca_upd s aa (set_hptr (Some hn) (ca_at s aa)).
Definition pt_get_cnt (s : blocks) (aa : Z) : Z := age (ca_at s aa).

(** ** Creation *)

(** The free blocks of punit [j] of the segments [k], [k+1], ... *)
Fixpoint fill_part (n : nat) (q : Q) (k j : Z) : res Q :=
  match n with
  | O => Ok q
  | S n => '(_, q) ← fifo_enqueue (k * BPS + j mod BPS) q; fill_part n q (k + 1) j
  end.

(** The channels of the segments [start] to [end - 1], punit [j] on. *)
Fixpoint part_channels (n : nat) (start fin j : Z) : res (list (channel Q)) :=
  match n with
  | O => Ok []
  | S n =>
    q ← fill_part (Z.to_nat (fin - start)) (fifo_init (fin - start)) start j;
    cs ← part_channels n start fin (j + 1);
    Ok (Channel q (MaxHeap.mh_init (Z.to_nat (fin - start))) :: cs)
  end.

(** The loop over the partitions: the channels and the bounds of each. *)
Fixpoint create_parts (epn : list Z) (start : Z) : res (list (channel Q) * list (Z * Z)) :=
  match epn with
  | [] => Ok ([], [])
  | e :: epn =>
    let fin := start + e in
    cs ← part_channels (Z.to_nat PUNIT) start fin 0;
    '(cs', r) ← create_parts epn fin;
    Ok (cs ++ cs', (start, fin - 1) :: r)
  end.

(** [pbm_create] after [bb_checker_start] has set up the checker; [epn] has the
    number of segments of each partition. The [printf] of the ranges, which reads
    [base_block] at -1 when the first partition is empty, is left out. *)
Definition pbm_create (c : BadBlock.bb_checker) (epn : list Z) : res (pbm * BadBlock.bb_checker) :=
  '(bs, c) ← create_segs (Z.to_nat _NOS) c (ca_new (_NOS * PUNIT) zero_block) 0;
  '(cs, r) ← create_parts epn 0;
  let c := BadBlock.Checker (BadBlock.ent c) (BadBlock.back_index c) (BadBlock.start_block c) (BadBlock.assign c)
             (BadBlock.max c) false in
  Ok (Pbm (Bm bs cs im_create 0 ∅)
        (PInfo (Z.of_nat (length epn)) (replicate (length epn) 0) epn r.*1 r.*2), c).

(** ** Segments *)

(** [mh_insert_append] into the heap of a channel. *)
Definition pt_heap_append (p : bbm_pri Q Mp) (i : nat) (b : Z) : res (bbm_pri Q Mp) :=
  c ← deref (base_channel p !! i);
  '(h, bs) ← MaxHeap.mh_insert_append pt_mh_assign_hptr (base_block p) (max_heap c) b;
  Ok (with_channels (<[i := Channel (free_block c) h]> (base_channel p)) (with_blocks bs p)).

(** The loop of [pbm_pt_get_segment] from channel [i] on. *)
Fixpoint pt_take_blocks (n : nat) (p : bbm_pri Q Mp) (pn : Z) (isreserve : bool) (i : nat)
  : res (list Z * bbm_pri Q Mp) :=
  match n with
  | O => Ok ([], p)
  | S n =>
    c ← deref (base_channel p !! p_channel pn i);
    '(o, q) ← fifo_dequeue (free_block c);
    let p := with_channels (<[p_channel pn i := Channel q (max_heap c)]> (base_channel p)) p in
    match o with
    | None => Err Aborted
    | Some b =>
      p ← (if negb isreserve && (pn =? DATA_S) then pt_heap_append p (p_channel pn i) b else Ok p);
      p ← (if pn =? DATA_S then upd_block p b (set_seg_idx (u32 (seg_map_idx p))) else Ok p);
      '(bs, p) ← pt_take_blocks n p pn isreserve (S i);
      Ok (b :: bs, p)
    end
  end.

(** [pbm_pt_get_segment]. A segment of the map partition has no number: its
    [seg_idx] and [invalid_blocks] are not set and never read. *)
Definition pbm_pt_get_segment (s : pbm) (pn : Z) (isreserve : bool) : res (loc * pbm) :=
  let res := malloc (segs (pt_bm s)) in
  '(bs, p) ← pt_take_blocks (Z.to_nat BPS) (pt_bm s) pn isreserve 0;
  let p := if pn =? DATA_S then
      let idx := u32 (seg_map_idx p) in
      Bm (base_block p) (base_channel p) (im_insert idx res (seg_map p)) (seg_map_idx p + 1)
        (<[res := Segment idx bs 0 BPS 0 0]> (segs p))
    else with_segs (<[res := Segment 0 bs 0 BPS 0 0]> (segs p)) p in
  na ← deref (now_assign (pinfo s) !! Z.to_nat pn);
  ma ← deref (max_assign (pinfo s) !! Z.to_nat pn);
  abort_if (na >? ma)
  (Ok (res, Pbm p (with_assign (pinfo s) (<[Z.to_nat pn := na + 1]> (now_assign (pinfo s)))))).

(** [for_each_block] over the blocks of a segment of partition [pn], without its read one beyond
    the end of the array, whose value is not used. *)
Fixpoint pt_append_blocks (p : bbm_pri Q Mp) (pn : Z) (bs : list Z) (i : nat) : res (bbm_pri Q Mp) :=
  match bs with
  | [] => Ok p
  | b :: bs => p ← pt_heap_append p (p_channel pn i) b; pt_append_blocks p pn bs (S i)
  end.

Definition pbm_change_pt_reserve (s : pbm) (pt_num : Z) (reserve : loc) : res (loc * pbm) :=
  '(res, s) ← pbm_pt_get_segment s pt_num true;
  if pt_num =? DATA_S then
    g ← deref (segs (pt_bm s) !! reserve);
    p ← pt_append_blocks (pt_bm s) pt_num (s_blocks g) 0;
    Ok (res, Pbm p (pinfo s))
  else Ok (res, s).

(** ** Garbage collection *)

(** The data partition: the oldest block of every channel. *)
Fixpoint pt_take_victims (n : nat) (p : bbm_pri Q Mp) (pn : Z) (i : nat) : res (list Z * bbm_pri Q Mp) :=
  match n with
  | O => Ok ([], p)
  | S n =>
    c ← deref (base_channel p !! p_channel pn i);
    '(h, bs) ← MaxHeap.mh_construct pt_get_cnt pt_mh_swap_hptr (base_block p) (max_heap c);
    '(o, h, bs) ← MaxHeap.mh_get_max pt_get_cnt pt_mh_swap_hptr bs h;
    let p := with_channels (<[p_channel pn i := Channel (free_block c) h]> (base_channel p)) (with_blocks bs p) in
    match o with
    | None => Err Aborted
    | Some b => '(l, p) ← pt_take_victims n p pn (S i); Ok (b :: l, p)
    end
  end.

(** [now_invalid] of segment [i] after its blocks [j], [j+1], ... *)
Fixpoint seg_invalid (n : nat) (bs : blocks) (i j now_invalid : Z) : res Z :=
  match n with
  | O => Ok now_invalid
  | S n => b ← ca_get bs (i * BPS + j); seg_invalid n bs i (j + 1) (now_invalid + invalid_number b)
  end.

(** The map partition: the segment with the most invalid pages. *)
Fixpoint pt_scan (n : nat) (bs : blocks) (i max_invalid target_seg : Z) : res (Z * Z) :=
  match n with
  | O => Ok (target_seg, max_invalid)
  | S n =>
    now_invalid ← seg_invalid (Z.to_nat BPS) bs i 0 0;
    abort_if (now_invalid >? _PPS)
    (if now_invalid >? max_invalid then pt_scan n bs (i + 1) now_invalid i
     else pt_scan n bs (i + 1) max_invalid target_seg)
  end.

(** The sum of the victims' invalid pages. *)
Fixpoint victims_invalid (bs : blocks) (l : list Z) : res Z :=
  match l with
  | [] => Ok 0
  | k :: l => b ← ca_get bs k; r ← victims_invalid bs l; Ok (invalid_number b + r)
  end.

Definition pbm_pt_get_gc_target (s : pbm) (pn : Z) : res (__gsegment * pbm) :=
  if pn =? DATA_S then
    '(bs, p) ← pt_take_victims (Z.to_nat BPS) (pt_bm s) pn 0;
    n ← victims_invalid (base_block p) bs;
    Ok (GSegment bs 0 BPS n, Pbm p (pinfo s))
  else
    f ← deref (from (pinfo s) !! Z.to_nat pn);
    t ← deref (to (pinfo s) !! Z.to_nat pn);
    '(target, n) ← pt_scan (Z.to_nat (t + 1 - f)) (base_block (pt_bm s)) f 0 0;
    abort_if ((pn =? MAP_S) && (n =? 0))
    (Ok (GSegment ((λ j, target * BPS + Z.of_nat j) <$> seq 0 (Z.to_nat BPS)) 0 BPS n, s)).

Context {L : Type} `{!Lower L}.

(** The last block of a data segment frees the segment. *)
Definition pt_drop_block (p : bbm_pri Q Mp) (idx : Z) : res (bbm_pri Q Mp) :=
  target_seg ← deref (im_find idx (seg_map p));
  g ← deref (segs p !! target_seg);
  let n := u8 (invalid_blocks g + 1) in
  if n =? BPS then
    Ok (Bm (base_block p) (base_channel p) (im_delete idx (seg_map p)) (seg_map_idx p) (delete target_seg (segs p)))
  else
    upd_seg p target_seg (λ g, Segment (s_seg_idx g) (s_blocks g) (s_now g) (s_max g) (used_page_num g) n).

(** Back to the free queue of channel [i] of the partition. *)
Definition pt_enqueue (p : bbm_pri Q Mp) (i : nat) (k : Z) : res (bbm_pri Q Mp) :=
  c ← deref (base_channel p !! i);
  '(_, q) ← fifo_enqueue k (free_block c);
  Ok (with_channels (<[i := Channel q (max_heap c)]> (base_channel p)) p).

Fixpoint pt_trim_blocks (p : bbm_pri Q Mp) (l : L) (pn : Z) (i : nat) (ks : list Z) : res (bbm_pri Q Mp * L) :=
  match ks with
  | [] => Ok (p, l)
  | k :: ks =>
    b ← ca_get (base_block p) k;
    l ← low_trim_a_block (GETBLOCKPPA b) l;
    p ← upd_block p k (λ b, set_oob_list zero_oob (set_bitset zero_bitset (set_now 0 (set_invalid 0 b))));
    p ← pt_enqueue p (p_channel pn i) k;
    p ← (if pn =? DATA_S then pt_drop_block p (seg_idx b) else Ok p);
    pt_trim_blocks p l pn (S i) ks
  end.

Definition pbm_pt_trim_segment (s : pbm) (pn : Z) (target : __gsegment) (l : L) : res (pbm * L) :=
  '(p, l) ← pt_trim_blocks (pt_bm s) l pn 0 (g_blocks target);
  na ← deref (now_assign (pinfo s) !! Z.to_nat pn);
  abort_if (na - 1 <? 0)
  (Ok (Pbm p (with_assign (pinfo s) (<[Z.to_nat pn := na - 1]> (now_assign (pinfo s)))), l)).

Definition pbm_pt_remain_page (s : pbm) (active : loc) (pt_num : Z) : res Z :=
  c ← deref (base_channel (pt_bm s) !! p_channel pt_num 0);
  g ← deref (segs (pt_bm s) !! active);
  Ok (s32 (s32 (fifo_size (free_block c) * _PPS) + (_PPS - used_page_num g))).

Definition pbm_pt_isgc_needed (s : pbm) (pt_num : Z) : res bool :=
  c ← deref (base_channel (pt_bm s) !! p_channel pt_num 0);
  Ok (fifo_size (free_block c) =? 0).

(** The loop of [pbm_reserve_to_free]. *)
Fixpoint pt_free_blocks (p : bbm_pri Q Mp) (pn : Z) (i : nat) (ks : list Z) : res (bbm_pri Q Mp) :=
  match ks with
  | [] => Ok p
  | k :: ks =>
    b ← ca_get (base_block p) k;
    abort_if (negb (invalid_number b =? 0))
    (p ← upd_block p k (λ b, set_now 0 (set_invalid 0 b));
     p ← pt_enqueue p (p_channel pn i) k;
     p ← (if pn =? DATA_S then pt_drop_block p (seg_idx b) else Ok p);
     pt_free_blocks p pn (S i) ks)
  end.

(** [pbm_reserve_to_free]; the segment itself is freed at the end. For a data
    segment the loop has freed it already when its last block was returned. *)
Definition pbm_reserve_to_free (s : pbm) (pn : Z) (reserve : loc) : res pbm :=
  g ← deref (segs (pt_bm s) !! reserve);
  p ← pt_free_blocks (pt_bm s) pn 0 (s_blocks g);
  p ← (_ ← deref (segs p !! reserve); Ok (base_release_segment p reserve));
  na ← deref (now_assign (pinfo s) !! Z.to_nat pn);
  Ok (Pbm p (with_assign (pinfo s) (<[Z.to_nat pn := na - 1]> (now_assign (pinfo s))))).

End pt.
Arguments pbm Q Mp : clear implicits.

(** ** Creation *)

Section create.
Context `{Sg : Settings, !SettingsOk Sg} {Q Mp : Type} `{!FIFO Z Q} `{!IntMap loc Mp}.

(** Block [i] of the segments [start] to [start + e - 1]. *)
Definition part_blocks (start e : Z) (i : nat) : list Z :=
  (λ k, (start + Z.of_nat k) * BPS + Z.of_nat i mod BPS) <$> seq 0 (Z.to_nat e).

(** The first segment of partition [pn]. *)
Definition part_start (epn : list Z) (pn : nat) : Z := foldr Z.add 0 (take pn epn).

Lemma fill_part_eq n : ∀ (q : Q) k j, fill_part n q k j = fill_queue n q j k.
Proof.
  induction n as [|n IH]; intros q k j; [done|]. cbn [fill_part fill_queue].
  destruct (fifo_enqueue _ q) as [[? q']|]; [|done]. rbind. apply IH.
Qed.

Lemma part_channels_spec n start e : ∀ j,
  0 <= e → ∃ cs, part_channels (Q:=Q) n start (start + e) (Z.of_nat j) = Ok cs ∧ length cs = n ∧
    ∀ i ch, cs !! i = Some ch → fifo_repr (free_block ch) e (part_blocks start e (j + i)) ∧
      max_heap ch = MaxHeap.mh_init (Z.to_nat e).
Proof.
  induction n as [|n IH]; intros j He; cbn [part_channels]; [by exists []|].
  replace (start + e - start) with e by lia. rewrite fill_part_eq.
  destruct (fill_queue_spec (Z.to_nat e) (fifo_init e) (Z.of_nat j) start e []) as (q & -> & Hq);
    [by apply fifo_init_spec|simpl; lia|]. rbind.
  replace (Z.of_nat j + 1) with (Z.of_nat (S j)) by lia.
  destruct (IH (S j) He) as (cs & -> & Hl & Hcs). rbind. eexists. split; [done|].
  split; [simpl; lia|]. intros [|i] c Hc; cbn in Hc.
  - injection Hc as <-. rewrite Nat.add_0_r. done.
  - rewrite Nat.add_succ_r. by apply (Hcs i).
Qed.

Lemma create_parts_spec epn : ∀ start,
  Forall (λ e, 0 <= e) epn →
  ∃ cs r, create_parts (Q:=Q) epn start = Ok (cs, r) ∧ length cs = (64 * length epn)%nat ∧
    ∀ pn e, epn !! pn = Some e →
      let st := start + part_start epn pn in
      r !! pn = Some (st, st + e - 1) ∧
      ∀ i, (i < 64)%nat → ∃ ch, cs !! (64 * pn + i)%nat = Some ch ∧
        fifo_repr (free_block ch) e (part_blocks st e i) ∧ max_heap ch = MaxHeap.mh_init (Z.to_nat e).
Proof.
  induction epn as [|e epn IH]; intros start Hepn; cbn [create_parts].
  { exists [], []. by split_and!. }
  apply Forall_cons in Hepn as [He Hepn].
  destruct (part_channels_spec (Z.to_nat PUNIT) start e 0 He) as (cs & E & Hl & Hcs).
  change (Z.of_nat 0) with 0 in E. rewrite E. rbind.
  destruct (IH (start + e) Hepn) as (cs' & r & -> & Hl' & Hparts). rbind. change (Z.to_nat PUNIT) with 64%nat in Hl.
  eexists _, _. split; [done|]. split; [rewrite length_app, Hl, Hl'; simpl; lia|].
  intros [|pn] e' He'; cbn in He'.
  - injection He' as <-. change (part_start (e :: epn) 0) with 0. rewrite Z.add_0_r. split; [done|].
    intros i Hi. destruct (lookup_lt_is_Some_2 cs i) as [ch Hch]; [lia|]. exists ch.
    rewrite Nat.mul_0_r, Nat.add_0_l, lookup_app_l by lia. split; [done|]. by apply (Hcs i).
  - change (part_start (e :: epn) (S pn)) with (e + part_start epn pn).
    destruct (Hparts pn e' He') as [Hr Hch]. rewrite Z.add_assoc. split; [done|].
    intros i Hi. rewrite lookup_app_r by lia. rewrite Hl.
    replace (64 * S pn + i - 64)%nat with (64 * pn + i)%nat by lia. by apply Hch.
Qed.

Lemma elem_of_part_blocks st e i k :
  (i < 64)%nat → k ∈ part_blocks st e i ↔ st <= k / 64 < st + e ∧ k mod 64 = Z.of_nat i.
Proof.
  intros Hi. unfold part_blocks. rewrite list_elem_of_fmap. change BPS with 64.
  rewrite (Z.mod_small (Z.of_nat i)) by lia. split.
  - intros (j & -> & Hj%elem_of_seq). Z.to_euclidean_division_equations. lia.
  - intros [Hk Hm]. exists (Z.to_nat (k / 64 - st)). rewrite elem_of_seq.
    Z.to_euclidean_division_equations. lia.
Qed.

Lemma p_channel_eq pn i : p_channel (Z.of_nat pn) i = (64 * pn + i)%nat.
Proof. unfold p_channel. change BPS with 64. lia. Qed.

(** A new manager: fresh blocks, no segment, and for every partition its range,
    its full queues and its empty heaps. *)
Lemma pbm_create_spec (c : BadBlock.bb_checker) (epn : list Z) :
  checker_ready c → Forall (λ e, 0 <= e) epn →
  ∃ (s : pbm Q Mp) c', pbm_create c epn = Ok (s, c') ∧ blocks_wf (base_block (pt_bm s)) ∧
    (∀ k, 0 <= k < NBLOCKS → ca_at (base_block (pt_bm s)) k = fresh_block k) ∧
    now_assign (pinfo s) = replicate (length epn) 0 ∧ max_assign (pinfo s) = epn ∧
    ∀ pn e, epn !! pn = Some e →
      from (pinfo s) !! pn = Some (part_start epn pn) ∧ to (pinfo s) !! pn = Some (part_start epn pn + e - 1) ∧
      ∀ i, (i < 64)%nat → ∃ ch, base_channel (pt_bm s) !! p_channel (Z.of_nat pn) i = Some ch ∧
        fifo_repr (free_block ch) e (part_blocks (part_start epn pn) e i) ∧ max_heap ch = MaxHeap.mh_init (Z.to_nat e).
Proof.
  intros (Hlen & Ha & Ho) Hepn. pose proof NOS_range as HN. unfold pbm_create.
  destruct (create_segs_spec (Z.to_nat _NOS) c (ca_new (_NOS * PUNIT) zero_block) 0)
    as (bs & c' & -> & Hl & Hat); try done; rewrite ?Ha; try done;
    try (change _RNOS with 4096; cbn [ca_new ca_len]; lia).
  rbind. destruct (create_parts_spec epn 0 Hepn) as (cs & r & -> & Hcl & Hparts). rbind.
  assert (Hfresh : ∀ k, 0 <= k < NBLOCKS → ca_at bs k = fresh_block k) by (intros k Hk; apply Hat; unfold NBLOCKS in Hk; lia).
  eexists _, _. split; [done|]. cbn [pt_bm base_block pinfo from to base_channel now_assign max_assign].
  split; [split; [by rewrite Hl|]; intros k Hk; rewrite Hfresh by done; apply fresh_block_wf|]. split; [done|].
  split; [done|]. split; [done|]. intros pn e He. destruct (Hparts pn e He) as [Hr Hch]. cbn zeta in Hr, Hch. rewrite Z.add_0_l in Hr, Hch.
  rewrite !list_lookup_fmap, Hr. split; [done|]. split; [done|]. intros i Hi. rewrite p_channel_eq. by apply Hch.
Qed.

End create.

(** ** The victim of the map partition *)

Section victim.
Context `{Sg : Settings, !SettingsOk Sg} {Q Mp : Type} `{!FIFO Z Q} `{!IntMap loc Mp}.

(** The invalid pages of segment [i]. *)
Definition invalid_of (bs : blocks) (i : Z) : Z :=
  foldr Z.add 0 ((λ j, invalid_number (ca_at bs (i * BPS + Z.of_nat j))) <$> seq 0 64).

Lemma seg_invalid_spec n : ∀ bs i j acc,
  0 <= i * BPS + Z.of_nat j → i * BPS + Z.of_nat (j + n) <= ca_len bs →
  seg_invalid n bs i (Z.of_nat j) acc =
    Ok (acc + foldr Z.add 0 ((λ j, invalid_number (ca_at bs (i * BPS + Z.of_nat j))) <$> seq j n)).
Proof.
  induction n as [|n IH]; intros bs i j acc Hlo Hhi; cbn [seg_invalid]; [by rewrite Z.add_0_r|].
  rewrite ca_get_in by lia. rbind. replace (Z.of_nat j + 1) with (Z.of_nat (S j)) by lia.
  rewrite IH by lia. cbn [seq fmap list_fmap foldr]. f_equal. lia.
Qed.

Lemma seg_invalid_Ok bs i :
  0 <= i → i * BPS + 64 <= ca_len bs → seg_invalid (Z.to_nat BPS) bs i 0 0 = Ok (invalid_of bs i).
Proof.
  intros Hi Hl. change 0 with (Z.of_nat 0) at 1. change (Z.to_nat BPS) with 64%nat.
  rewrite seg_invalid_spec by (change BPS with 64 in *; lia). done.
Qed.

(** The scan keeps the first segment with the most invalid pages. *)
Lemma pt_scan_spec n : ∀ bs i m t,
  0 <= i → (i + Z.of_nat n) * BPS <= ca_len bs → (∀ k, i <= k < i + Z.of_nat n → invalid_of bs k <= _PPS) →
  ∃ t' m', pt_scan n bs i m t = Ok (t', m') ∧ m <= m' ∧ (∀ k, i <= k < i + Z.of_nat n → invalid_of bs k <= m') ∧
    (m' = m ∧ t' = t ∨ m < m' ∧ i <= t' < i + Z.of_nat n ∧ invalid_of bs t' = m').
Proof.
  induction n as [|n IH]; intros bs i m t Hi Hl Hs.
  { exists t, m. split_and!; try done; [lia|]. by left. }
  cbn [pt_scan]. rewrite seg_invalid_Ok by (change BPS with 64 in *; lia). rbind.
  assert (Hle : invalid_of bs i <= _PPS) by (apply Hs; lia).
  rewrite Z.gtb_ltb, (proj2 (Z.ltb_ge _PPS (invalid_of bs i))) by done. cbn [abort_if].
  rewrite Z.gtb_ltb. destruct (Z.ltb_spec m (invalid_of bs i)) as [Hgt|Hng].
  - destruct (IH bs (i + 1) (invalid_of bs i) i) as (t' & m' & E & Hm & Hall & Hcase); [lia|lia|intros k Hk; apply Hs; lia|].
    exists t', m'. split_and!; try done; [lia| |].
    + intros k Hk. destruct (decide (k = i)) as [->|]; [lia|]. apply Hall. lia.
    + right. destruct Hcase as [[-> ->]|(? & ? & ?)]; split_and!; lia.
  - destruct (IH bs (i + 1) m t) as (t' & m' & E & Hm & Hall & Hcase); [lia|lia|intros k Hk; apply Hs; lia|].
    exists t', m'. split_and!; try done.
    + intros k Hk. destruct (decide (k = i)) as [->|]; [lia|]. apply Hall. lia.
    + destruct Hcase as [[-> ->]|(? & ? & ?)]; [by left|right; split_and!; lia].
Qed.

End victim.

(** ** Giving a reserve back *)

Section reserve.
Context `{Sg : Settings, !SettingsOk Sg} {Q Mp : Type} `{!FIFO Z Q} `{!IntMap loc Mp}.
Implicit Types p : bbm_pri Q Mp.

Lemma upd_block_same p p' k f :
  upd_block p k f = Ok p' → (∀ b, seg_idx (f b) = seg_idx b) →
  seg_map p' = seg_map p ∧ segs p' = segs p ∧ ∀ j, seg_idx (ca_at (base_block p') j) = seg_idx (ca_at (base_block p) j).
Proof.
  unfold upd_block. intros E Hf. apply res_bind_Ok in E as (b & Eb & E). apply res_bind_Ok in E as (bs & Ebs & E).
  injection E as <-. apply ca_get_Ok in Eb as [_ ->]. apply ca_set_Ok in Ebs as [_ ->].
  split_and!; try done. intros j. cbn [with_blocks base_block]. rewrite ca_at_upd. case_decide; [by subst; rewrite Hf|done].
Qed.

Lemma pt_enqueue_same p p' i k :
  pt_enqueue p i k = Ok p' → seg_map p' = seg_map p ∧ segs p' = segs p ∧ base_block p' = base_block p.
Proof.
  unfold pt_enqueue. intros E. apply res_bind_Ok in E as (c & _ & E). apply res_bind_Ok in E as ([? q] & _ & E).
  by injection E as <-.
Qed.

(** When the last block of a data segment is returned, the segment is freed. *)
Lemma pt_free_blocks_frees idx r ks : ∀ p p' i g,
  (∀ k, k ∈ ks → seg_idx (ca_at (base_block p) k) = idx) → im_find idx (seg_map p) = Some r →
  segs p !! r = Some g → 0 <= invalid_blocks g → invalid_blocks g + Z.of_nat (length ks) = 64 → ks ≠ [] →
  pt_free_blocks p DATA_S i ks = Ok p' → segs p' !! r = None.
Proof.
  induction ks as [|k ks IH]; intros p p' i g Hks Hfind Hg H0 Hlen Hne E; [done|]. clear Hne. cbn [pt_free_blocks] in E.
  change (DATA_S =? DATA_S) with true in E. cbn iota in E. simpl length in Hlen.
  apply res_bind_Ok in E as (b & Eb & E). apply ca_get_Ok in Eb as [_ ->]. apply abort_if_Ok in E as [_ E].
  apply res_bind_Ok in E as (p1 & E1 & E). apply res_bind_Ok in E as (p2 & E2 & E).
  apply upd_block_same in E1 as (Em1 & Es1 & Ei1); [|done]. apply pt_enqueue_same in E2 as (Em2 & Es2 & Eb2).
  apply res_bind_Ok in E as (p3 & E3 & E). unfold pt_drop_block in E3.
  rewrite (Hks k), Em2, Em1, Hfind, Es2, Es1 in E3 by (apply elem_of_cons; by left). cbn [deref] in E3.
  revert E3. rbind. rewrite Hg. cbn [deref]. rbind.
  assert (Hn : u8 (invalid_blocks g + 1) = invalid_blocks g + 1) by (unfold u8; apply Z.mod_small; lia).
  rewrite Hn. change BPS with 64. destruct (Z.eqb_spec (invalid_blocks g + 1) 64) as [E64|N64]; intros E3.
  - destruct ks; [|simpl in Hlen; lia]. cbn [pt_free_blocks] in E. injection E as <-. injection E3 as <-.
    cbn [segs]. apply lookup_delete_eq.
  - unfold upd_seg in E3. rewrite Es2, Es1, Hg in E3. cbn [deref] in E3. revert E3. rbind. intros [= <-].
    destruct ks as [|k' ks]; [simpl in Hlen; lia|].
    refine (IH _ p' (S i) _ _ _ (lookup_insert_eq _ _ _) _ _ _ E); cbn [with_segs base_block seg_map invalid_blocks];
      [|by rewrite Em2, Em1|lia|lia|done].
    intros j Hj. rewrite Eb2, Ei1. apply Hks. apply elem_of_cons. by right.
Qed.

End reserve.

(** ** Properties *)

(** C23: creation splits the device. With a ready bad-block checker and at most as
    many segments as the device has, [pbm_create] succeeds; partition [pn]
    starts where the one before it ends, its channel [i] starts with an empty
    heap and a queue of exactly the blocks [i] of its own segments, no block is
    in the queues of two partitions, and a partition needs collection from the
    start only if it has no segment. *)
Theorem partitions_split_the_device `{Sg : Settings, !SettingsOk Sg} {Q Mp : Type} `{!FIFO Z Q} `{!IntMap loc Mp}
    (c : BadBlock.bb_checker) (epn : list Z) :
  checker_ready c → Forall (λ e, 0 <= e) epn → foldr Z.add 0 epn <= _NOS →
  ∃ (s : pbm Q Mp) c', pbm_create c epn = Ok (s, c') ∧ blocks_wf (base_block (pt_bm s)) ∧
    (∀ pn e, epn !! pn = Some e →
       from (pinfo s) !! pn = Some (part_start epn pn) ∧ to (pinfo s) !! pn = Some (part_start epn pn + e - 1) ∧
       pbm_pt_isgc_needed s (Z.of_nat pn) = Ok (e =? 0) ∧
       ∀ i, (i < 64)%nat → ∃ ch, base_channel (pt_bm s) !! p_channel (Z.of_nat pn) i = Some ch ∧
         fifo_repr (free_block ch) e (part_blocks (part_start epn pn) e i) ∧
         max_heap ch = MaxHeap.mh_init (Z.to_nat e)) ∧
    (∀ pn pn' e e' i i' k, epn !! pn = Some e → epn !! pn' = Some e' → (i < 64)%nat → (i' < 64)%nat →
       k ∈ part_blocks (part_start epn pn) e i → k ∈ part_blocks (part_start epn pn') e' i' → pn = pn' ∧ i = i').
Proof.
  intros Hc Hepn Hsum. destruct (pbm_create_spec (Q:=Q) (Mp:=Mp) c epn Hc Hepn) as (s & c' & E & Hwf & _ & _ & _ & Hparts).
  exists s, c'. split; [done|]. split; [done|]. split.
  - intros pn e He. destruct (Hparts pn e He) as (Hfr & Hto & Hch). split; [done|]. split; [done|]. split; [|done].
    unfold pbm_pt_isgc_needed. destruct (Hch 0%nat ltac:(lia)) as (ch & -> & Hf & _). cbn [deref]. rbind.
    rewrite (fifo_size_spec _ _ _ Hf). unfold part_blocks. rewrite length_fmap, length_seq.
    rewrite Forall_lookup in Hepn. specialize (Hepn pn e He). f_equal. simpl in Hepn. by rewrite Z2Nat.id.
  - intros pn pn' e e' i i' k He He' Hi Hi' Hk Hk'.
    apply elem_of_part_blocks in Hk as [Hk Hm]; [|done]. apply elem_of_part_blocks in Hk' as [Hk' Hm']; [|done].
    split; [|lia].
    assert (Hmono : ∀ a b x, epn !! a = Some x → (a < b)%nat → part_start epn a + x <= part_start epn b).
    { clear -Hepn. induction Hepn as [|y l Hy Hl IH]; intros a b x Hx Hab; [done|].
      unfold part_start in *. destruct b as [|b]; [lia|]. destruct a as [|a]; cbn in Hx |- *.
      - injection Hx as ->. clear IH. assert (0 <= foldr Z.add 0 (take b l)); [|lia].
        clear -Hl. revert b. induction Hl as [|z l Hz _ IH']; intros [|b]; simpl; try lia. specialize (IH' b). lia.
      - specialize (IH a b x Hx ltac:(lia)). lia. }
    destruct (Nat.lt_trichotomy pn pn') as [Hlt|[->|Hgt]]; [|done|].
    + specialize (Hmono pn pn' e He Hlt). lia.
    + specialize (Hmono pn' pn e' He' Hgt). lia.
Qed.

Lemma partitions_split_the_device_witness :
  ∃ (s : pbm (Queue.queue Z) (gmap Z loc)) c',
    pbm_create (Sg:=settings_1) BadBlock.unfixed [1; 7] = Ok (s, c') ∧ pbm_pt_isgc_needed s 1 = Ok false.
Proof.
  destruct (partitions_split_the_device (Sg:=settings_1) (Q:=Queue.queue Z) (Mp:=gmap Z loc) BadBlock.unfixed [1; 7]
    unfixed_ready) as (s & c' & E & _ & Hp & _).
  - repeat (apply Forall_cons; split; [lia|]). by apply Forall_nil.
  - rewrite NOS_eq. simpl. lia.
  - exists s, c'. split; [exact E|]. clear E. destruct (Hp 1%nat 7 eq_refl) as (_ & _ & H & _). exact H.
Defined.

(** C24: the victim of the map partition is its dirtiest segment. If no segment
    counts more invalid pages than it has pages, [pbm_pt_get_gc_target] of the
    map partition aborts exactly when none of its pages is invalid; otherwise it
    returns the 64 blocks of a segment of the partition that no other segment of
    the partition beats in invalid pages, with that number, and changes
    nothing. *)
Theorem map_victim_is_most_invalid `{Sg : Settings, !SettingsOk Sg} {Q Mp : Type} `{!FIFO Z Q} `{!IntMap loc Mp}
    (s : pbm Q Mp) (f t : Z) :
  from (pinfo s) !! 0%nat = Some f → to (pinfo s) !! 0%nat = Some t → 0 <= f → f <= t + 1 →
  (t + 1) * BPS <= ca_len (base_block (pt_bm s)) →
  (∀ k, f <= k <= t → 0 <= invalid_of (base_block (pt_bm s)) k <= _PPS) →
  ((∀ k, f <= k <= t → invalid_of (base_block (pt_bm s)) k = 0) → pbm_pt_get_gc_target s MAP_S = Err Aborted) ∧
  (∀ d, f <= d <= t → invalid_of (base_block (pt_bm s)) d ≠ 0 →
    ∃ k, f <= k <= t ∧
      pbm_pt_get_gc_target s MAP_S =
        Ok (GSegment ((λ j, k * BPS + Z.of_nat j) <$> seq 0 64) 0 BPS (invalid_of (base_block (pt_bm s)) k), s) ∧
      ∀ k', f <= k' <= t → invalid_of (base_block (pt_bm s)) k' <= invalid_of (base_block (pt_bm s)) k).
Proof.
  intros Hf Ht Hf0 Hft Hlen Hinv. change BPS with 64 in Hlen.
  destruct (pt_scan_spec (Z.to_nat (t + 1 - f)) (base_block (pt_bm s)) f 0 0) as (t' & m & E & Hm & Hall & Hcase);
    [done|change BPS with 64; lia|intros k Hk; apply Hinv; lia|].
  unfold pbm_pt_get_gc_target. change (MAP_S =? DATA_S) with false. cbn iota. change (Z.to_nat MAP_S) with 0%nat.
  rewrite Hf, Ht. cbn [deref]. rbind. rewrite E. rbind. change (MAP_S =? MAP_S) with true. cbn [andb]. split.
  - intros H0. destruct Hcase as [[-> ->]|(Hm0 & Hr & Em)]; [done|]. rewrite H0 in Em by lia. lia.
  - intros d Hd Hne. assert (Hdm : invalid_of (base_block (pt_bm s)) d <= m) by (apply Hall; lia).
    specialize (Hinv d Hd) as Hd0. destruct Hcase as [[-> ->]|(Hm0 & Hr & Em)]; [lia|].
    exists t'. split; [lia|]. rewrite (proj2 (Z.eqb_neq m 0)) by lia. cbn [abort_if]. rewrite Em.
    split; [done|]. intros k' Hk'. apply Hall. lia.
Qed.

(** The first segment of a device of 512 blocks, with one invalid page. *)
Lemma map_victim_is_most_invalid_witness :
  let bs := ca_upd (ca_new 512 zero_block) 5 (set_invalid 1 zero_block) in
  let s : pbm (Queue.queue Z) (gmap Z loc) := Pbm (Bm bs [] ∅ 0 ∅) (PInfo 2 [0; 0] [1; 7] [0; 1] [0; 7]) in
  ∃ k, 0 <= k <= 0 ∧ ∃ g, pbm_pt_get_gc_target s MAP_S = Ok (g, s) ∧ invalidate_number g = 1.
Proof.
  intros bs s.
  destruct (map_victim_is_most_invalid (Sg:=settings_1) s 0 0) as [_ H]; try done; try lia.
  - intros k Hk. replace k with 0 by lia. vm_compute. split; discriminate.
  - destruct (H 0) as (k & Hk & E & _); [lia|vm_compute; discriminate|].
    exists k. split; [done|]. eexists. split; [exact E|]. replace k with 0 by lia. vm_compute. reflexivity.
Defined.

(** C40: giving back a reserve data segment frees it twice. For every data segment
    none of whose blocks was returned before, whenever the loop of
    [pbm_reserve_to_free] returns the blocks, it frees the segment with the last
    one, and [free(reserve)] after the loop frees the same segment again: the
    call is undefined behaviour. *)
Theorem reserve_to_free_frees_data_segment_twice `{Sg : Settings, !SettingsOk Sg} {Q Mp : Type} `{!FIFO Z Q}
    `{!IntMap loc Mp} (s : pbm Q Mp) (reserve : loc) (g : __segment) (idx : Z) (p : bbm_pri Q Mp) :
  segs (pt_bm s) !! reserve = Some g → length (s_blocks g) = 64%nat → invalid_blocks g = 0 →
  (∀ k, k ∈ s_blocks g → seg_idx (ca_at (base_block (pt_bm s)) k) = idx) →
  im_find idx (seg_map (pt_bm s)) = Some reserve →
  pt_free_blocks (pt_bm s) DATA_S 0 (s_blocks g) = Ok p →
  segs p !! reserve = None ∧ pbm_reserve_to_free s DATA_S reserve = Err Undefined.
Proof.
  intros Hg Hlen H0 Hidx Hfind Ep. assert (Hfree : segs p !! reserve = None).
  { rewrite (pt_free_blocks_frees idx reserve (s_blocks g) (pt_bm s) p 0 g); try done; try lia. intros E. by rewrite E in Hlen. }
  split; [done|]. unfold pbm_reserve_to_free. rewrite Hg. cbn [deref]. rbind. rewrite Ep. rbind. by rewrite Hfree.
Qed.

(** A data segment of blocks 64 to 127. *)
Lemma reserve_to_free_frees_data_segment_twice_witness :
  let r : loc := malloc (∅ : gmap loc __segment) in
  let ch := Channel (fifo_init 7) (MaxHeap.mh_init 7) in
  let s : pbm (Queue.queue Z) (gmap Z loc) :=
    Pbm (Bm (ca_new 512 zero_block) (replicate 128 ch) {[0 := r]} 1 {[r := Segment 0 (seqZ 64 64) 0 64 0 0]})
      (PInfo 2 [0; 1] [1; 7] [0; 1] [0; 7]) in
  pbm_reserve_to_free s DATA_S r = Err Undefined.
Proof.
  intros r ch s. assert (Hex : is_Some (match pt_free_blocks (pt_bm s) DATA_S 0 (seqZ 64 64) with Ok p => Some p | Err _ => None end))
    by (vm_compute; eexists; reflexivity).
  destruct (pt_free_blocks (pt_bm s) DATA_S 0 (seqZ 64 64)) as [p|f] eqn:Ep; [|by destruct Hex].
  destruct (reserve_to_free_frees_data_segment_twice (Sg:=settings_1) s r (Segment 0 (seqZ 64 64) 0 64 0 0) 0 p) as [_ E].
  - unfold s. cbn [pt_bm segs]. apply lookup_singleton_eq.
  - vm_compute. reflexivity.
  - reflexivity.
  - intros k _. reflexivity.
  - reflexivity.
  - exact Ep.
  - exact E.
Defined.

End Partition.
