(* ===== verification/DemandUtil.v ===== *)
(** * The demand-paged FTL: keys, addresses and small tables
    (algorithm/demand/utility.c, d_htable.c, dvalue.c, parts of demand.c)

    The hash-based build ([HASH_KVSSD]): a key is hashed with SHA-256, and the
    probe number of the request selects the logical page address that may hold
    it. With [DVALUE] a page is divided into 16 grains and addresses count
    grains. *)
From S2P Require Export Prelude Settings Sha256 BlockManager Lower.
Import BlockManager.

Local Open Scope Z_scope.

Module DemandUtil.

(** ** Parameters (include/demand_settings.h, d_param.h, utility.h) *)

Definition ENTRY_SIZE : Z := 4.
Definition EPP : Z := PAGESIZE / ENTRY_SIZE.
Definition GRAINED_UNIT : Z := PIECE.
Definition GRAIN_PER_PAGE : Z := PAGESIZE / GRAINED_UNIT.
Definition MAX_HASH_COLLISION : Z := 1024.
Definition FP_SIZE : Z := 0.

(** [c] is an [int]: its square overflows, which is undefined in C, only from 46341 on, and
    storing a key after more than [MAX_HASH_COLLISION] probes aborts; here it wraps. *)
Definition QUADRATIC_PROBING (h c : Z) : Z := u32 (u32 (h + c) + s32 (c * c)).
Definition PROBING_FUNC := QUADRATIC_PROBING.
Definition IS_INITIAL_PPA (x : Z) : bool := x =? UINT32_MAX.
Definition IDX (x : Z) : Z := x / EPP.
Definition OFFSET (x : Z) : Z := x mod EPP.
Definition PPA_TO_PGA (ppa offset : Z) : Z := u32 (u32 (ppa * GRAIN_PER_PAGE) + offset).
Definition G_IDX (x : Z) : Z := x / GRAIN_PER_PAGE.
Definition G_OFFSET (x : Z) : Z := x mod GRAIN_PER_PAGE.

(** ** Requests *)

(** [jump_t], [hash_cmp_t], [page_t], [rw_t] *)
Inductive jump_t := GOTO_LOAD | GOTO_LIST | GOTO_EVICT | GOTO_COMPLETE | GOTO_READ | GOTO_WRITE | GOTO_UPDATE.
Inductive hash_cmp_t := HASH_KEY_INITIAL | HASH_KEY_NONE | HASH_KEY_SAME | HASH_KEY_DIFF.
Inductive page_t := DATA | MAP.
#[export] Instance page_t_eq_dec : EqDecision page_t.
Proof. solve_decision. Defined.
Inductive rw_t := READ | WRITE.

Record hash_params := HParams { hp_hash : Z; hp_cnt : Z; hp_find : hash_cmp_t; hp_lpa : Z }.

(** ** Hashing keys (demand.c) *)

(** Word [i] of a digest, most significant byte first. *)
Definition be_word (d : list Z) (i : nat) : Z :=
  Z.lor (Z.lor (Z.lor (Z.shiftl (d !!! (4 * i)%nat) 24) (Z.shiftl (d !!! (4 * i + 1)%nat) 16))
    (Z.shiftl (d !!! (4 * i + 2)%nat) 8)) (d !!! (4 * i + 3)%nat).

(** The same with the bytes in the opposite order. *)
Definition le_word (d : list Z) (i : nat) : Z :=
  Z.lor (Z.lor (Z.lor (d !!! (4 * i)%nat) (Z.shiftl (d !!! (4 * i + 1)%nat) 8))
    (Z.shiftl (d !!! (4 * i + 2)%nat) 16)) (Z.shiftl (d !!! (4 * i + 3)%nat) 24).

Definition digest_of (junk bytes : list Z) : res (list Z) :=
  c ← Sha256.Sha256Update (Sha256.Sha256Initialise junk) bytes;
  deref (Sha256.Sha256Finalise c).

(** [hashing_key]: the exclusive or of the eight words of the digest; [junk] is
    the uninitialised buffer of the context on the stack. *)
Definition hashing_key (junk : list Z) (k : str_key) : res Z :=
  d ← digest_of junk (take (Z.to_nat (len k)) (key k));
  Ok (u32 (foldr Z.lxor 0 (be_word d <$> seq 0 8))).

Definition hashing_key_fp (junk : list Z) (k : str_key) : res Z :=
  d ← digest_of junk (take (Z.to_nat (len k)) (key k));
  Ok (Z.land (u32 (foldr Z.lxor 0 (le_word d <$> seq 0 8))) (Z.shiftl 1 FP_SIZE - 1)).

Definition make_hash_params (junk : list Z) (k : str_key) : res hash_params :=
  h ← hashing_key junk k;
  Ok (HParams h 0 HASH_KEY_INITIAL 0).

(** [get_lpa]: the address of probe [cnt]; it is stored in the parameters. *)
Definition get_lpa (nr_valid_tentries : Z) (h : hash_params) : res (Z * hash_params) :=
  let m := u32 (nr_valid_tentries - 1) in
  if m =? 0 then Err Undefined
  else
    let lpa := u32 (PROBING_FUNC (hp_hash h) (hp_cnt h) mod m + 1) in
    Ok (lpa, HParams (hp_hash h) (hp_cnt h) (hp_find h) lpa).

(** ** Keys and values in buffers *)

Definition copy_key_from_key (src : str_key) : res str_key :=
  if (Z.to_nat (len src) <=? length (key src))%nat then Ok (Key (len src) (take (Z.to_nat (len src)) (key src)))
  else Err Undefined.

(** The key stored at the start of grain [offset]: its length, then its bytes. *)
Definition copy_key_from_value (dvalue : bool) (src : value_set) (offset : Z) : res str_key :=
  let ptr := if dvalue then drop (Z.to_nat (offset * GRAINED_UNIT)) (value src) else value src in
  match ptr with
  | [] => Err Undefined
  | n :: rest => if (Z.to_nat n <=? length rest)%nat then Ok (Key n (take (Z.to_nat n) rest)) else Err Undefined
  end.

Definition copy_key_from_grain (src : value_set) (offset : Z) : res str_key := copy_key_from_value true src offset.

Definition copy_value (dst src : value_set) (size : Z) : res value_set :=
  v ← memcpy (value dst) (value src) (Z.to_nat size); Ok (VS v (dmatag dst)).

Definition copy_value_onlykey (dst src : value_set) : res value_set :=
  n ← deref (head (value src));
  v ← memcpy (value dst) (value src) 1;
  rest ← memcpy (drop 1 v) (drop 1 (value src)) (Z.to_nat n);
  Ok (VS (take 1 v ++ rest) (dmatag dst)).

(** ** In-flight parameters *)

(** A request or a write-buffer entry is known by its parameters; NULL is
    [None]. [req] or [wb_entry] is present, and its [params] may be. *)
Record carrier := Carrier { c_params : option jump_t }.

(** [get_iparams] of the one that is present: the parameters exist afterwards;
    fresh ones have no defined jump ([j0]). *)
Definition get_iparams (j0 : jump_t) (req wb_entry : option carrier) : res (option carrier * option carrier) :=
  match req, wb_entry with
  | Some r, _ => Ok (Some (Carrier (Some (default j0 (c_params r)))), wb_entry)
  | None, Some w => Ok (None, Some (Carrier (Some (default j0 (c_params w)))))
  | None, None => Err Aborted
  end.

Definition free_iparams (req wb_entry : option carrier) : option carrier * option carrier :=
  match req, wb_entry with
  | Some (Carrier (Some _)), _ => (Some (Carrier None), wb_entry)
  | _, Some (Carrier (Some _)) => (req, Some (Carrier None))
  | _, _ => (req, wb_entry)
  end.

(** ** Statistics *)

(** [hash_collision_logging]; the counters are arrays of [MAX_HASH_COLLISION]
    entries. *)
Definition hash_collision_logging (cnt : Z) (type : rw_t) (r w : carray Z) : res (Z * carray Z * carray Z) :=
  if cnt >? MAX_HASH_COLLISION then Ok (1, r, w)
  else
    match type with
    | READ => n ← ca_get r cnt; r ← ca_set r cnt (u64 (n + 1)); Ok (0, r, w)
    | WRITE => n ← ca_get w cnt; w ← ca_set w cnt (u64 (n + 1)); Ok (0, r, w)
    end.

Definition wb_lpa_compare (lpa_a lpa_b : Z) : Z :=
  if lpa_a <? lpa_b then -1 else if lpa_a =? lpa_b then 0 else if lpa_a >? lpa_b then 1 else 0.

(** ** The spare area *)

Section oob.
Context `{Sg : Settings} {Q Mp : Type} `{!FIFO Z Q} `{!IntMap loc Mp}.

(** [lpa_list[offset] = lpa] in the spare area of a page: sixteen 32-bit
    addresses. *)
Definition set_oob (dvalue : bool) (p : bbm_pri Q Mp) (lpa ppa : Z) (type : page_t) : res (bbm_pri Q Mp) :=
  let '(offset, ppa) :=
    match type with
    | DATA => if dvalue then (G_OFFSET ppa, G_IDX ppa) else (0, ppa)
    | MAP => (0, ppa)
    end in
  o ← base_get_oob p ppa;
  rest ← memcpy (drop (Z.to_nat (4 * offset)) o) (le32_bytes lpa) 4;
  base_set_oob p (take (Z.to_nat (4 * offset)) o ++ rest) 64 ppa.

(** The address stored for grain [offset] of a page. *)
Definition oob_lpa (o : list Z) (offset : Z) : res Z := le32_read (drop (Z.to_nat (4 * offset)) o).

Definition set_oob_bulk (p : bbm_pri Q Mp) (lpa_list : list Z) (ppa : Z) : res (bbm_pri Q Mp) :=
  base_set_oob p lpa_list 64 ppa.

End oob.

(** ** The table of a flush (d_htable.c)

    A bucket is its chain of items, without the head node. *)

Record d_htable := HTable { bucket : carray (list Z); ht_max : Z }.

Definition d_htable_init (max : Z) : d_htable := HTable (ca_new max []) max.

Definition d_htable_insert (ht : d_htable) (ppa lpa : Z) : res d_htable :=
  if ht_max ht =? 0 then Err Undefined
  else
    hn ← ca_get (bucket ht) (ppa mod ht_max ht);
    b ← ca_set (bucket ht) (ppa mod ht_max ht) (hn ++ [lpa]);
    Ok (HTable b (ht_max ht)).

(** Walk the chain. *)
Fixpoint chain_find (hn : list Z) (lpa : Z) : bool :=
  match hn with [] => false | x :: hn => if x =? lpa then true else chain_find hn lpa end.

Definition d_htable_find (ht : d_htable) (ppa lpa : Z) : res Z :=
  if ht_max ht =? 0 then Err Undefined
  else hn ← ca_get (bucket ht) (ppa mod ht_max ht); Ok (if chain_find hn lpa then 1 else 0).

(** ** Grains (dvalue.c) *)

Definition grain_bitmap := carray bool.

Definition grain_create (nr_grains : Z) : grain_bitmap := ca_new nr_grains false.

Definition is_valid_grain (g : grain_bitmap) (pga : Z) : res Z :=
  b ← ca_get g pga; Ok (if b : bool then 1 else 0).

Definition validate_grain (g : grain_bitmap) (pga : Z) : res (Z * grain_bitmap) :=
  b ← ca_get g pga;
  g ← ca_set g pga true;
  Ok (if b : bool then 1 else 0, g).

Definition invalidate_grain (g : grain_bitmap) (pga : Z) : res (Z * grain_bitmap) :=
  b ← ca_get g pga;
  g ← ca_set g pga false;
  Ok (if b : bool then 0 else 1, g).

(** The loop of [contains_valid_grain] from grain [pga] on. *)
Fixpoint any_grain (n : nat) (g : grain_bitmap) (pga : Z) : res bool :=
  match n with
  | O => Ok false
  | S n => v ← is_valid_grain g pga; if negb (v =? 0) then Ok true else any_grain n g (u32 (pga + 1))
  end.

Section grains.
Context `{Sg : Settings} {Q Mp : Type} `{!FIFO Z Q} `{!IntMap loc Mp}.

Definition contains_valid_grain (p : bbm_pri Q Mp) (g : grain_bitmap) (ppa : Z) : res Z :=
  b ← any_grain (Z.to_nat GRAIN_PER_PAGE) g (u32 (ppa * GRAIN_PER_PAGE));
  if b : bool then Ok 1
  else v ← base_is_valid_page p ppa; abort_if v (Ok 0).

End grains.

(** ** Addresses *)

Lemma get_lpa_Ok nr h :
  2 <= nr < 2 ^ 31 → ∃ lpa, get_lpa nr h = Ok (lpa, HParams (hp_hash h) (hp_cnt h) (hp_find h) lpa) ∧ 1 <= lpa <= nr - 1.
Proof.
  intros Hnr. unfold get_lpa. rewrite (u32_id (nr - 1)) by lia. rewrite (proj2 (Z.eqb_neq (nr - 1) 0)) by lia.
  eexists. split; [done|]. set (x := PROBING_FUNC _ _). pose proof (Z.mod_pos_bound x (nr - 1) ltac:(lia)).
  rewrite u32_id by lia. lia.
Qed.

Lemma digest_of_Ok junk bytes :
  length junk = 64%nat → Forall (λ b, 0 <= b < 256) bytes → (length bytes < 256)%nat →
  digest_of junk bytes = Ok (Sha256.Fips.sha256 bytes).
Proof.
  intros Hj Hb Hl. unfold digest_of.
  destruct (Sha256.update_inv (Sha256.Sha256Initialise junk) [] bytes (Sha256.initialise_inv junk Hj)) as (c & -> & Hc).
  rbind. rewrite (Sha256.finalise_inv c bytes); [done|done|done|lia].
Qed.

(** The words of the standard digest, combined. *)
Definition key_hash (bytes : list Z) : Z := u32 (foldr Z.lxor 0 (be_word (Sha256.Fips.sha256 bytes) <$> seq 0 8)).

Lemma make_hash_params_Ok (junk : list Z) (k : str_key) : length junk = 64%nat → key_wf k →
  make_hash_params junk k = Ok (HParams (key_hash (key k)) 0 HASH_KEY_INITIAL 0).
Proof.
  intros Hj (Hl & Hlt & Hb). unfold make_hash_params, hashing_key.
  rewrite Hl, Nat2Z.id, firstn_all. by rewrite (digest_of_Ok junk (key k) Hj Hb) by lia.
Qed.

(** C31: every key has an address for every probe. In the hash-based FTL, a key's
    hash is the exclusive or of the words of its SHA-256 digest, whatever the
    stack held; for every probe number [cnt] and every mapping table of at least
    two entries, [get_lpa] gives an address from 1 to the last entry: never 0,
    which marks unused grains in the spare area, and always inside the table. *)
Theorem every_probe_has_an_address (junk : list Z) (k : str_key) (tpages cnt : Z) :
  length junk = 64%nat → key_wf k → 1 <= tpages < 2 ^ 20 →
  ∃ h, make_hash_params junk k = Ok h ∧ hp_hash h = key_hash (key k) ∧ hp_cnt h = 0 ∧
    ∃ lpa h', get_lpa (tpages * EPP) (HParams (hp_hash h) cnt (hp_find h) (hp_lpa h)) = Ok (lpa, h') ∧
      1 <= lpa < tpages * EPP ∧ 0 <= IDX lpa < tpages ∧ 0 <= OFFSET lpa < EPP ∧ hp_lpa h' = lpa.
Proof.
  intros Hj Hk Ht. rewrite (make_hash_params_Ok junk k Hj Hk).
  eexists. split; [done|]. split; [done|]. split; [done|]. cbn [hp_hash hp_find hp_lpa].
  change EPP with 2048. destruct (get_lpa_Ok (tpages * 2048) (HParams (key_hash (key k)) cnt HASH_KEY_INITIAL 0))
    as (lpa & E & Hr); [lia|]. eexists lpa, _. split; [exact E|]. cbn [hp_lpa]. unfold IDX, OFFSET. change EPP with 2048.
  split; [lia|]. split; [Z.to_euclidean_division_equations; lia|]. split; [apply Z.mod_pos_bound; lia|done].
Qed.

Lemma every_probe_has_an_address_witness :
  ∃ h, make_hash_params (replicate 64 0) (Key 3 [97; 98; 99]) = Ok h ∧ hp_hash h = key_hash [97; 98; 99].
Proof.
  assert (Hk : key_wf (Key 3 [97; 98; 99])).
  { split_and!; try done. repeat (apply Forall_cons; split; [lia|]). by apply Forall_nil. }
  destruct (every_probe_has_an_address (replicate 64 0) (Key 3 [97; 98; 99]) 64 2 (length_replicate _ _) Hk ltac:(lia))
    as (h & E & Eh & _). exists h. split; [exact E|exact Eh].
Defined.

(** ** The collision counters *)

(** The collision counters are overrun by one. Up to [MAX_HASH_COLLISION - 1]
    probes are counted in their own cell and more than [MAX_HASH_COLLISION] are
    ignored, but exactly [MAX_HASH_COLLISION] probes pass the guard and index
    the cell behind the array. *)
Theorem collision_counter_overrun (r w : carray Z) (t : rw_t) :
  ca_len r = MAX_HASH_COLLISION → ca_len w = MAX_HASH_COLLISION →
  hash_collision_logging MAX_HASH_COLLISION t r w = Err Undefined ∧
  (∀ cnt, cnt > MAX_HASH_COLLISION → hash_collision_logging cnt t r w = Ok (1, r, w)) ∧
  (∀ cnt, 0 <= cnt < MAX_HASH_COLLISION → ∃ r' w', hash_collision_logging cnt t r w = Ok (0, r', w') ∧
     match t with
     | READ => ca_at r' cnt = u64 (ca_at r cnt + 1) ∧ w' = w
     | WRITE => ca_at w' cnt = u64 (ca_at w cnt + 1) ∧ r' = r
     end).
Proof.
  intros Hr Hw. unfold hash_collision_logging. split_and!.
  - rewrite Z.gtb_ltb, Z.ltb_irrefl. unfold ca_get, ca_in. rewrite Hr, Hw. by destruct t.
  - intros cnt Hc. rewrite Z.gtb_ltb, (proj2 (Z.ltb_lt _ _)) by lia. done.
  - intros cnt Hc. rewrite Z.gtb_ltb, (proj2 (Z.ltb_ge MAX_HASH_COLLISION cnt)) by lia.
    destruct t; rewrite ca_get_in by lia; rbind; rewrite ca_set_in by lia; rbind;
      eexists _, _; (split; [done|]); by rewrite ca_at_upd, decide_True.
Qed.

Lemma collision_counter_overrun_witness :
  hash_collision_logging MAX_HASH_COLLISION WRITE (ca_new 1024 0) (ca_new 1024 0) = Err Undefined.
Proof. by apply (collision_counter_overrun (ca_new 1024 0) (ca_new 1024 0) WRITE). Defined.

(** ** The table of a flush *)

Lemma chain_find_spec hn lpa : chain_find hn lpa = true ↔ lpa ∈ hn.
Proof.
  induction hn as [|x hn IH]; simpl; [split; [done|by intros ?%elem_of_nil]|].
  rewrite elem_of_cons. destruct (Z.eqb_spec x lpa); [naive_solver|]. rewrite IH. naive_solver.
Qed.

Fixpoint ht_inserts (ht : d_htable) (l : list (Z * Z)) : res d_htable :=
  match l with [] => Ok ht | (ppa, lpa) :: l => ht ← d_htable_insert ht ppa lpa; ht_inserts ht l end.

(** What the chain of bucket [b] holds after a list of insertions. *)
Definition ht_chain (max : Z) (l : list (Z * Z)) (b : Z) : list Z := (filter (λ x, x.1 mod max = b) l).*2.

Lemma ht_inserts_spec max l' : ∀ l ht,
  0 < max → ht_max ht = max → ca_len (bucket ht) = max → (∀ b, ca_at (bucket ht) b = ht_chain max l' b) →
  ∃ ht', ht_inserts ht l = Ok ht' ∧ ht_max ht' = max ∧ ca_len (bucket ht') = max ∧
    ∀ b, ca_at (bucket ht') b = ht_chain max (l' ++ l) b.
Proof.
  intros l. revert l'. induction l as [|[ppa lpa] l IH]; intros l' ht Hmax Hm Hlen Hb; cbn [ht_inserts].
  { exists ht. by rewrite app_nil_r. }
  unfold d_htable_insert. rewrite Hm, (proj2 (Z.eqb_neq max 0)) by lia.
  pose proof (Z.mod_pos_bound ppa max Hmax). rewrite ca_get_in by lia. rbind. rewrite ca_set_in by lia. rbind.
  destruct (IH (l' ++ [(ppa, lpa)]) (HTable (ca_upd (bucket ht) (ppa mod max) (ca_at (bucket ht) (ppa mod max) ++ [lpa])) max))
    as (ht' & E & Hm' & Hlen' & Hb'); [done|done|done| |].
  - intros b. cbn [bucket]. rewrite ca_at_upd, !Hb. unfold ht_chain. rewrite filter_app, fmap_app. f_equal.
    case_decide as Eb.
    + subst b. f_equal. by rewrite filter_cons_True.
    + rewrite filter_cons_False by done. by rewrite app_nil_r.
  - exists ht'. rewrite <-app_assoc in Hb'. done.
Qed.

(** The table of a flush answers whether an address was just written. In a
    table of [max > 0] buckets, after any list of insertions, [d_htable_find]
    of [(ppa, lpa)] answers 1 exactly when [lpa] was inserted with a page in the
    same bucket; in particular every inserted pair is found. *)
Theorem htable_find_spec (max : Z) (l : list (Z * Z)) (ppa lpa : Z) :
  0 < max →
  ∃ ht, ht_inserts (d_htable_init max) l = Ok ht ∧
    d_htable_find ht ppa lpa =
      Ok (if decide (Exists (λ x, x.1 mod max = ppa mod max ∧ x.2 = lpa) l) then 1 else 0).
Proof.
  intros Hmax. destruct (ht_inserts_spec max [] l (d_htable_init max)) as (ht & E & Hm & Hlen & Hb); try done.
  exists ht. split; [done|]. unfold d_htable_find. rewrite Hm, (proj2 (Z.eqb_neq max 0)) by lia.
  pose proof (Z.mod_pos_bound ppa max Hmax). rewrite ca_get_in by lia. rbind. f_equal. rewrite Hb. cbn [app].
  assert (Hiff : lpa ∈ ht_chain max l (ppa mod max) ↔ Exists (λ x, x.1 mod max = ppa mod max ∧ x.2 = lpa) l).
  { unfold ht_chain. rewrite list_elem_of_fmap, Exists_exists. split.
    - intros (x & -> & [Hx Hin]%list_elem_of_filter). eauto.
    - intros (x & Hin & Hx & <-). exists x. split; [done|]. by apply list_elem_of_filter. }
  destruct (chain_find _ lpa) eqn:Ec.
  - rewrite decide_True; [done|]. by apply Hiff, chain_find_spec.
  - rewrite decide_False; [done|]. intros Hx%Hiff%chain_find_spec. congruence.
Qed.

Lemma htable_find_spec_witness :
  ∃ ht, ht_inserts (d_htable_init 512) [(3, 7); (515, 9)] = Ok ht ∧ d_htable_find ht 3 9 = Ok 1.
Proof.
  destruct (htable_find_spec 512 [(3, 7); (515, 9)] 3 9) as (ht & E & F); [lia|]. exists ht. split; [exact E|].
  rewrite F. vm_compute. reflexivity.
Defined.

(** ** The spare area of a page of grains *)

Section oob_facts.
Context `{Sg : Settings, !SettingsOk Sg} {Q Mp : Type} `{!FIFO Z Q} `{!IntMap loc Mp}.
Implicit Types p : bbm_pri Q Mp.

(** [le32_read] looks at four bytes. *)
Lemma le32_read_ext l l' : (∀ i, (i < 4)%nat → l !! i = l' !! i) → le32_read l = le32_read l'.
Proof.
  intros H. pose proof (H 0%nat ltac:(lia)) as H0. pose proof (H 1%nat ltac:(lia)) as H1.
  pose proof (H 2%nat ltac:(lia)) as H2. pose proof (H 3%nat ltac:(lia)) as H3.
  destruct l as [|a [|b [|c [|d l]]]], l' as [|a' [|b' [|c' [|d' l']]]]; simpl in *; congruence.
Qed.

(** The spare area with one address replaced. *)
Definition oob_put (o : list Z) (off : nat) (lpa : Z) : list Z :=
  take (4 * off) o ++ le32_bytes lpa ++ drop 4 (drop (4 * off) o).

Lemma oob_put_read o off off' lpa :
  length o = 64%nat → (off < 16)%nat → (off' < 16)%nat → 0 <= lpa < 2 ^ 32 →
  oob_lpa (oob_put o off lpa) (Z.of_nat off') = if decide (off' = off) then Ok lpa else oob_lpa o (Z.of_nat off').
Proof.
  intros Hl Ho Ho' Hlpa. unfold oob_lpa, oob_put. replace (Z.to_nat (4 * Z.of_nat off')) with (4 * off')%nat by lia.
  case_decide as E.
  - subst off'. rewrite drop_app_length' by (rewrite length_take; lia). by apply le32_read_bytes.
  - apply le32_read_ext. intros i Hi. rewrite !lookup_drop.
    destruct (Nat.lt_ge_cases (4 * off' + i) (4 * off)) as [Hlt|Hge].
    + rewrite lookup_app_l by (rewrite length_take; lia). by rewrite lookup_take_lt.
    + rewrite lookup_app_r by (rewrite length_take; lia). rewrite length_take, Hl.
      rewrite lookup_app_r by (rewrite le32_bytes_length; lia). rewrite le32_bytes_length, !lookup_drop. f_equal. lia.
Qed.

Lemma page_oob_length p q : blocks_wf (base_block p) → 0 <= q < _NOP → length (page_oob p q) = 64%nat.
Proof.
  intros [_ Hw] Hq. destruct (ppa_of_inv q Hq) as (Hb & _). destruct (Hw _ Hb) as (_ & _ & _ & _ & _ & _ & _ & Hl). apply Hl.
Qed.

Lemma set_oob_grain_Ok p lpa pga :
  blocks_wf (base_block p) → 0 <= pga < _NOP * GRAIN_PER_PAGE → 0 <= lpa < 2 ^ 32 →
  ∃ p', set_oob true p lpa pga DATA = Ok p' ∧ blocks_wf (base_block p') ∧
    (∀ q, 0 <= q < _NOP → page_bit p' q = page_bit p q) ∧
    ∀ q, 0 <= q < _NOP → page_oob p' q =
      if decide (q = G_IDX pga) then oob_put (page_oob p q) (Z.to_nat (G_OFFSET pga)) lpa else page_oob p q.
Proof.
  intros Hwf Hp Hlpa. unfold G_IDX, G_OFFSET. change GRAIN_PER_PAGE with 16 in *.
  assert (Hpr : 0 <= pga / 16 < _NOP) by (Z.to_euclidean_division_equations; lia).
  pose proof (Z.mod_pos_bound pga 16 ltac:(lia)) as Hoff.
  unfold set_oob. unfold G_OFFSET, G_IDX. change GRAIN_PER_PAGE with 16.
  rewrite (get_oob_Ok p (pga / 16) Hwf Hpr). rbind. pose proof (page_oob_length p (pga / 16) Hwf Hpr) as Hlen.
  set (o := page_oob p (pga / 16)) in *.
  replace (Z.to_nat (4 * (pga mod 16))) with (4 * Z.to_nat (pga mod 16))%nat by lia.
  assert (Hcpy := memcpy_all (drop (4 * Z.to_nat (pga mod 16)) o) (le32_bytes lpa)).
  rewrite le32_bytes_length in Hcpy. rewrite Hcpy by (rewrite length_drop; lia). rbind. fold (oob_put o (Z.to_nat (pga mod 16)) lpa).
  assert (Hol : length (oob_put o (Z.to_nat (pga mod 16)) lpa) = 64%nat).
  { unfold oob_put. rewrite !length_app, length_take, !length_drop, le32_bytes_length. lia. }
  destruct (set_oob_Ok p (oob_put o (Z.to_nat (pga mod 16)) lpa) (pga / 16) Hwf Hpr) as (p' & E & Hwf' & Hb & Ho & _).
  { rewrite Hol. change (Z.to_nat OOB_LEN) with 64%nat. lia. }
  rewrite Hol in E, Ho. change (Z.of_nat 64) with 64 in E. rewrite E. exists p'. split_and!; try done.
  intros q Hq. rewrite (Ho q Hq). case_decide as Eq; [|done]. subst q.
  rewrite drop_ge by (fold o; lia). by rewrite app_nil_r.
Qed.

End oob_facts.

(** The spare area keeps one logical address per grain. After [set_oob] of
    grain [pga], the address read back for grain [q] is the new one if [q] is
    [pga] and the old one for every other grain, of the same page or of another;
    the validity of pages does not change. *)
Theorem grain_oob_round_trip `{Sg : Settings, !SettingsOk Sg} {Q Mp : Type} `{!FIFO Z Q} `{!IntMap loc Mp}
    (p : bbm_pri Q Mp) (lpa pga : Z) :
  blocks_wf (base_block p) → 0 <= pga < _NOP * GRAIN_PER_PAGE → 0 <= lpa < 2 ^ 32 →
  ∃ p', set_oob true p lpa pga DATA = Ok p' ∧
    (∀ q, 0 <= q < _NOP → base_is_valid_page p' q = base_is_valid_page p q) ∧
    ∀ q, 0 <= q < _NOP * GRAIN_PER_PAGE →
      (o ← base_get_oob p' (G_IDX q); oob_lpa o (G_OFFSET q)) =
        if decide (q = pga) then Ok lpa else (o ← base_get_oob p (G_IDX q); oob_lpa o (G_OFFSET q)).
Proof.
  intros Hwf Hp Hlpa. destruct (set_oob_grain_Ok p lpa pga Hwf Hp Hlpa) as (p' & E & Hwf' & Hb & Ho).
  exists p'. split; [done|]. split.
  - intros q Hq. by rewrite (is_valid_Ok p' q Hwf' Hq), (is_valid_Ok p q Hwf Hq), Hb.
  - intros q Hq. unfold G_IDX, G_OFFSET in *. change GRAIN_PER_PAGE with 16 in *.
    assert (Hqr : 0 <= q / 16 < _NOP) by (Z.to_euclidean_division_equations; lia).
    rewrite (get_oob_Ok p' (q / 16) Hwf' Hqr), (get_oob_Ok p (q / 16) Hwf Hqr). rbind.
    pose proof (page_oob_length p (q / 16) Hwf Hqr) as Hlen.
    rewrite (Ho _ Hqr). pose proof (Z.mod_pos_bound q 16 ltac:(lia)). pose proof (Z.mod_pos_bound pga 16 ltac:(lia)).
    case_decide as Eq.
    + replace (q mod 16) with (Z.of_nat (Z.to_nat (q mod 16))) by lia.
      rewrite oob_put_read by (try done; lia).
      repeat case_decide; try done; exfalso; Z.to_euclidean_division_equations; lia.
    + rewrite decide_False; [done|]. intros ->. done.
Qed.

Lemma grain_oob_round_trip_witness :
  ∃ (p : bbm_pri (Queue.queue Z) (gmap Z loc)) c', base_create (Sg:=settings_1) BadBlock.unfixed = Ok (p, c') ∧
  ∃ p', set_oob true p 77 1605 DATA = Ok p' ∧
    (o ← base_get_oob p' (G_IDX 1605); oob_lpa o (G_OFFSET 1605)) = Ok 77.
Proof.
  destruct (base_create_Ok (Sg:=settings_1) (Q:=Queue.queue Z) (Mp:=gmap Z loc) BadBlock.unfixed unfixed_ready)
    as (p & c' & E & Hwf & _).
  exists p, c'. split; [exact E|]. clear E.
  assert (Hr : 0 <= 1605 < _NOP (S:=settings_1) * GRAIN_PER_PAGE) by (rewrite NOP_eq; change GRAIN_PER_PAGE with 16; simpl; lia).
  destruct (grain_oob_round_trip (Sg:=settings_1) p 77 1605 Hwf Hr ltac:(lia)) as (p' & E1 & _ & E2).
  exists p'. split; [exact E1|]. rewrite (E2 1605 Hr). by rewrite decide_True.
Defined.

End DemandUtil.
