(* ===== verification/DemandCache.v ===== *)
(** * The mapping caches of the demand-paged FTL
    (algorithm/demand/cache.h, coarse.c, fine.c)

    The mapping table is divided into translation pages of [EPP] entries. The
    coarse-grained cache keeps whole translation pages, at most
    [max_cached_tpages] of them, in the order of an LRU list; the fine-grained
    cache counts single entries. A translation page that is not cached is read
    from the device, and an evicted page that was changed is written to a new
    one. The entries themselves stay in [mem_table], which a cached page's [pt]
    points into.

    A request and an entry of the write buffer are [waiter]s: what a request
    does when it is continued ([jump]) is in [jumps]. The page allocator and the
    device are used through the class [Pages]. The field [t_ppa] of the entries
    is an array of its own because a collection of translation pages rewrites
    it. *)
From stdpp Require Import functions.
From S2P Require Export Prelude Settings Queue Lru DemandUtil Lower.
Import DemandUtil.

Local Open Scope Z_scope.

(** ** Pages, as the caches use them (page.c, the device) *)

(** [pg_get_tpage] can move translation pages and then changes [t_ppa]s. Reads
    and writes of translation pages carry no content. *)
Class Pages (P : Type) := {
  pg_get_tpage : P → carray Z → res (Z * P * carray Z);
  pg_invalidate_map : Z → P → res (Z * P);
  pg_set_oob_map : Z → Z → P → res P;
  pg_read : Z → Z → P → res P;
  pg_write : Z → Z → P → res P;
}.

(** The contract while no collection is needed: [n] translation pages can be
    handed out, the pages of [used] have been handed out and written. *)
Class PagesOk (P : Type) `{!Pages P} := {
  pg_inv : P → Z → gset Z → Prop;
  pg_get_tpage_ok p n used ts : pg_inv p n used → 0 < n →
    ∃ ppa p', pg_get_tpage p ts = Ok (ppa, p', ts) ∧ (ppa ∉ used) ∧ 0 <= ppa < UINT32_MAX ∧
      (∃ p'', pg_write MAPPINGW ppa p' = Ok p'' ∧
         ∀ idx, 0 <= idx < 2 ^ 32 → ∃ p''', pg_set_oob_map idx ppa p'' = Ok p''' ∧ pg_inv p''' (n - 1) ({[ppa]} ∪ used));
  pg_invalidate_map_ok p n used ppa : pg_inv p n used → ppa ∈ used →
    ∃ r p', pg_invalidate_map ppa p = Ok (r, p') ∧ pg_inv p' n used;
  pg_read_ok p n used ty ppa : pg_inv p n used → ppa ∈ used → ∃ p', pg_read ty ppa p = Ok p' ∧ pg_inv p' n used;
}.

Module DemandCache.

(** ** Data *)

Inductive cmt_state_t := CLEAN | DIRTY.
#[export] Instance cmt_state_eq_dec : EqDecision cmt_state_t.
Proof. solve_decision. Defined.

(** Who waits for a translation page: a request or an entry of the write buffer. *)
Inductive waiter := WReq (r : loc) | WEntry (e : loc).
#[export] Instance waiter_eq_dec : EqDecision waiter.
Proof. solve_decision. Defined.
#[export] Instance waiter_countable : Countable waiter.
Proof.
  refine (inj_countable' (λ w, match w with WReq r => inl r | WEntry e => inr e end)
    (λ x, match x with inl r => WReq r | inr e => WEntry e end) _). by intros [].
Defined.

(** [cmt_struct]. [pt] says whether the pointer is set; it always points to
    [mem_table[idx]]. [is_cached] and [cached_cnt] are used by the fine-grained
    cache, [wait_q] and [dirty_cnt] by none. *)
Record cmt_struct (Qw : Type) := Cmt {
  idx : Z; pt : bool; lru_ptr : option loc; state : cmt_state_t; is_flying : bool; retry_q : Qw;
  is_cached : carray bool; cached_cnt : Z }.
Arguments Cmt {Qw} _ _ _ _ _ _ _ _.
Arguments idx {Qw} _.
Arguments pt {Qw} _.
Arguments lru_ptr {Qw} _.
Arguments state {Qw} _.
Arguments is_flying {Qw} _.
Arguments retry_q {Qw} _.
Arguments is_cached {Qw} _.
Arguments cached_cnt {Qw} _.

Record cache_stat := Stat { cache_hit : Z; cache_miss : Z; clean_evict : Z; dirty_evict : Z; blocked_miss : Z }.
Record cache_env := Env { nr_valid_tpages : Z; nr_valid_tentries : Z; max_cached_tpages : Z; max_cached_tentries : Z }.

(** The cache ([cache_env], [cache_member], [cache_stat]), the page layer, and
    what the caches do to requests: the jumps, the queue of entries to retry,
    the requests handed back to the interface, the device requests on their
    way. *)
Record cache (P Qw : Type) := Cache {
  env : cache_env; cmt : carray (cmt_struct Qw); t_ppa : carray Z; mem_table : carray (carray Z);
  lru : Lru.LRU Z; nr_cached_tpages : Z; nr_cached_tentries : Z; stat : cache_stat;
  pages : P; jumps : gmap waiter jump_t; wb_retry_q : Qw; assigned : list loc; flying : list (Z * option waiter) }.
Arguments Cache {P Qw} _ _ _ _ _ _ _ _ _ _ _ _ _.
Arguments env {P Qw} _.
Arguments cmt {P Qw} _.
Arguments t_ppa {P Qw} _.
Arguments mem_table {P Qw} _.
Arguments lru {P Qw} _.
Arguments nr_cached_tpages {P Qw} _.
Arguments nr_cached_tentries {P Qw} _.
Arguments stat {P Qw} _.
Arguments pages {P Qw} _.
Arguments jumps {P Qw} _.
Arguments wb_retry_q {P Qw} _.
Arguments assigned {P Qw} _.
Arguments flying {P Qw} _.

Section ops.
Context {P Qw : Type} `{!Pages P} `{!FIFO waiter Qw}.
#[local] Abbreviation cache := (cache P Qw).
#[local] Abbreviation cmt_struct := (cmt_struct Qw).
Implicit Types (c : cache) (m : cmt_struct) (w : option waiter).

(** ** Field updates *)

Definition with_cmt (x : carray cmt_struct) c := Cache (env c) x (t_ppa c) (mem_table c) (lru c) (nr_cached_tpages c)
  (nr_cached_tentries c) (stat c) (pages c) (jumps c) (wb_retry_q c) (assigned c) (flying c).
Definition with_t_ppa (x : carray Z) c := Cache (env c) (cmt c) x (mem_table c) (lru c) (nr_cached_tpages c)
  (nr_cached_tentries c) (stat c) (pages c) (jumps c) (wb_retry_q c) (assigned c) (flying c).
Definition with_table (x : carray (carray Z)) c := Cache (env c) (cmt c) (t_ppa c) x (lru c) (nr_cached_tpages c)
  (nr_cached_tentries c) (stat c) (pages c) (jumps c) (wb_retry_q c) (assigned c) (flying c).
Definition with_lru (x : Lru.LRU Z) c := Cache (env c) (cmt c) (t_ppa c) (mem_table c) x (nr_cached_tpages c)
  (nr_cached_tentries c) (stat c) (pages c) (jumps c) (wb_retry_q c) (assigned c) (flying c).
Definition with_tpages (x : Z) c := Cache (env c) (cmt c) (t_ppa c) (mem_table c) (lru c) x
  (nr_cached_tentries c) (stat c) (pages c) (jumps c) (wb_retry_q c) (assigned c) (flying c).
Definition with_tentries (x : Z) c := Cache (env c) (cmt c) (t_ppa c) (mem_table c) (lru c) (nr_cached_tpages c)
  x (stat c) (pages c) (jumps c) (wb_retry_q c) (assigned c) (flying c).
Definition with_stat (x : cache_stat) c := Cache (env c) (cmt c) (t_ppa c) (mem_table c) (lru c) (nr_cached_tpages c)
  (nr_cached_tentries c) x (pages c) (jumps c) (wb_retry_q c) (assigned c) (flying c).
Definition with_pages (x : P) c := Cache (env c) (cmt c) (t_ppa c) (mem_table c) (lru c) (nr_cached_tpages c)
  (nr_cached_tentries c) (stat c) x (jumps c) (wb_retry_q c) (assigned c) (flying c).
Definition with_flying (x : list (Z * option waiter)) c := Cache (env c) (cmt c) (t_ppa c) (mem_table c) (lru c)
  (nr_cached_tpages c) (nr_cached_tentries c) (stat c) (pages c) (jumps c) (wb_retry_q c) (assigned c) x.
Definition with_jumps (x : gmap waiter jump_t) c := Cache (env c) (cmt c) (t_ppa c) (mem_table c) (lru c)
  (nr_cached_tpages c) (nr_cached_tentries c) (stat c) (pages c) x (wb_retry_q c) (assigned c) (flying c).
Definition with_retry (q : Qw) (a : list loc) c := Cache (env c) (cmt c) (t_ppa c) (mem_table c) (lru c)
  (nr_cached_tpages c) (nr_cached_tentries c) (stat c) (pages c) (jumps c) q a (flying c).

Definition set_pt b (m : cmt_struct) : cmt_struct := Cmt (idx m) b (lru_ptr m) (state m) (is_flying m) (retry_q m) (is_cached m) (cached_cnt m).
Definition set_lru_ptr p (m : cmt_struct) : cmt_struct := Cmt (idx m) (pt m) p (state m) (is_flying m) (retry_q m) (is_cached m) (cached_cnt m).
Definition set_state s (m : cmt_struct) : cmt_struct := Cmt (idx m) (pt m) (lru_ptr m) s (is_flying m) (retry_q m) (is_cached m) (cached_cnt m).
Definition set_flying b (m : cmt_struct) : cmt_struct := Cmt (idx m) (pt m) (lru_ptr m) (state m) b (retry_q m) (is_cached m) (cached_cnt m).
Definition set_retry_q q (m : cmt_struct) : cmt_struct := Cmt (idx m) (pt m) (lru_ptr m) (state m) (is_flying m) q (is_cached m) (cached_cnt m).
Definition set_cached a n (m : cmt_struct) : cmt_struct := Cmt (idx m) (pt m) (lru_ptr m) (state m) (is_flying m) (retry_q m) a n.

(** [cmbr->cmt[i]] and an assignment to one of its fields. *)
Definition get_cmt c (i : Z) : res cmt_struct := ca_get (cmt c) i.
Definition upd_cmt c (i : Z) (f : cmt_struct → cmt_struct) : res cache :=
  m ← ca_get (cmt c) i; a ← ca_set (cmt c) i (f m); Ok (with_cmt a c).

(** [mem_table[i][j]] *)
Definition get_entry c (i j : Z) : res Z := t ← ca_get (mem_table c) i; ca_get t j.
Definition set_entry c (i j x : Z) : res cache :=
  t ← ca_get (mem_table c) i; t ← ca_set t j x; a ← ca_set (mem_table c) i t; Ok (with_table a c).

(** [get_iparams(req, wb_entry)->jump = j] *)
Definition set_jump c w (j : jump_t) : res cache :=
  match w with None => Err Aborted | Some w => Ok (with_jumps (<[w := j]> (jumps c)) c) end.

(** [inf_get_valueset(NULL, type, PAGESIZE)] and the device call: the driver gets
    a request of this type for this waiter. *)
Definition issue_read c (ty ppa : Z) w : res cache :=
  _ ← inf_get_valueset false None FS_MALLOC_R PAGESIZE;
  p ← pg_read ty ppa (pages c);
  Ok (with_flying (flying c ++ [(ty, w)]) (with_pages p c)).
Definition issue_write c (ty ppa : Z) w : res cache :=
  _ ← inf_get_valueset false None FS_MALLOC_W PAGESIZE;
  p ← pg_write ty ppa (pages c);
  Ok (with_flying (flying c ++ [(ty, w)]) (with_pages p c)).

(** ** Creation *)

(** [cg_env_init], [fg_env_init]; [dvalue] says whether [DVALUE] is defined. *)
Definition PFTLMEMORY `{Settings} : Z := TOTALSIZE / K.
Definition env_init `{Settings} (dvalue : bool) (nr_pages max_entries : Z) : cache_env :=
  let nr_tpages := nr_pages / EPP + (if nr_pages mod EPP =? 0 then 0 else 1) in
  let f := if dvalue then GRAIN_PER_PAGE / 2 else 1 in
  Env (nr_tpages * f) (nr_tpages * EPP * f) (PFTLMEMORY / PAGESIZE) max_entries.
Definition cg_env_init `{Settings} (dvalue : bool) (nr_pages : Z) : cache_env := env_init dvalue nr_pages 0.
Definition fg_env_init `{Settings} (dvalue : bool) (nr_pages : Z) : cache_env :=
  env_init dvalue nr_pages (PFTLMEMORY / (ENTRY_SIZE + 4 + 4)).

(** A new entry of the table. The fine-grained cache allocates [is_cached]. *)
Definition new_cmt (wb_flush_size i : Z) (fine : bool) : cmt_struct :=
  Cmt i false None CLEAN false (fifo_init wb_flush_size) (ca_new (if fine then EPP else 0) false) 0.

Fixpoint init_cmts (n : nat) (wb_flush_size i : Z) (fine : bool) (a : carray cmt_struct) : res (carray cmt_struct) :=
  match n with
  | O => Ok a
  | S n => a ← ca_set a i (new_cmt wb_flush_size i fine); init_cmts n wb_flush_size (i + 1) fine a
  end.

(** [cg_member_init] and [cg_create]. *)
Definition cg_member_init (e : cache_env) (wb_flush_size : Z) (p : P) : res cache :=
  let n := nr_valid_tpages e in
  a ← init_cmts (Z.to_nat n) wb_flush_size 0 false (ca_new n (new_cmt wb_flush_size 0 false));
  Ok (Cache e a (ca_new n UINT32_MAX) (ca_new n (ca_new EPP UINT32_MAX)) Lru.lru_init 0 0 (Stat 0 0 0 0 0)
        p ∅ (fifo_init wb_flush_size) [] []).
Definition cg_create `{Settings} (dvalue : bool) (nr_pages wb_flush_size : Z) (p : P) : res cache :=
  cg_member_init (cg_env_init dvalue nr_pages) wb_flush_size p.

(** The loop of [fg_member_init]: every translation page is in the LRU list from
    the start. *)
Fixpoint fg_push_all (n : nat) (i : Z) c : res cache :=
  match n with
  | O => Ok c
  | S n =>
    '(p, l) ← Lru.lru_push (lru c) i;
    c ← upd_cmt (with_lru l c) i (set_lru_ptr (Some p));
    fg_push_all n (i + 1) c
  end.

Definition fg_member_init (e : cache_env) (wb_flush_size : Z) (p : P) : res cache :=
  let n := nr_valid_tpages e in
  a ← init_cmts (Z.to_nat n) wb_flush_size 0 true (ca_new n (new_cmt wb_flush_size 0 true));
  fg_push_all (Z.to_nat n) 0
    (Cache e a (ca_new n UINT32_MAX) (ca_new n (ca_new EPP UINT32_MAX)) Lru.lru_init 0 0 (Stat 0 0 0 0 0)
       p ∅ (fifo_init wb_flush_size) [] []).

Definition fg_create `{Settings} (dvalue : bool) (nr_pages wb_flush_size : Z) (p : P) : res cache :=
  fg_member_init (fg_env_init dvalue nr_pages) wb_flush_size p.

(** ** Operations both caches share *)

(** [cg_load], [fg_load] *)
Definition cg_load c (lpa : Z) w : res (Z * cache) :=
  m ← get_cmt c (IDX lpa);
  t ← ca_get (t_ppa c) (IDX lpa);
  if IS_INITIAL_PPA t then Ok (0, c)
  else
    c ← set_jump c w GOTO_LIST;
    c ← issue_read c MAPPINGR t w;
    c ← upd_cmt c (IDX lpa) (set_flying true);
    Ok (1, c).

(** [cg_wait_if_flying], [fg_wait_if_flying] *)
Definition cg_wait_if_flying c (lpa : Z) w : res (Z * cache) :=
  m ← get_cmt c (IDX lpa);
  if is_flying m then
    let s := stat c in
    let c := with_stat (Stat (cache_hit s) (cache_miss s) (clean_evict s) (dirty_evict s) (u64 (blocked_miss s + 1))) c in
    match w with
    | None => Err Aborted
    | Some w =>
      '(_, q) ← fifo_enqueue w (retry_q m);
      c ← upd_cmt c (IDX lpa) (set_retry_q q);
      Ok (1, c)
    end
  else Ok (0, c).

(** [cg_touch], [fg_touch] *)
Definition cg_touch c (lpa : Z) : res cache :=
  m ← get_cmt c (IDX lpa);
  l ← Lru.lru_update (lru c) (lru_ptr m);
  Ok (with_lru l c).

Definition cg_get_cmt c (lpa : Z) : res cmt_struct := get_cmt c (IDX lpa).

(** The hit and miss counters. *)
Definition count_hit c (hit : bool) : cache :=
  let s := stat c in
  with_stat (if hit then Stat (u64 (cache_hit s + 1)) (cache_miss s) (clean_evict s) (dirty_evict s) (blocked_miss s)
             else Stat (cache_hit s) (u64 (cache_miss s + 1)) (clean_evict s) (dirty_evict s) (blocked_miss s)) c.
Definition count_evict c (dirty : bool) : cache :=
  let s := stat c in
  with_stat (if dirty then Stat (cache_hit s) (cache_miss s) (clean_evict s) (u64 (dirty_evict s + 1)) (blocked_miss s)
             else Stat (cache_hit s) (cache_miss s) (u64 (clean_evict s + 1)) (dirty_evict s) (blocked_miss s)) c.

(** Hand a waiter of [retry_q] back: the queue is read as requests or as entries
    of the write buffer, like the one that listed the page up. *)
Definition hand_back c (as_req : bool) (x : waiter) (j : jump_t) : res cache :=
  match as_req, x with
  | true, WReq r => c ← set_jump c (Some x) j; Ok (with_retry (wb_retry_q c) (assigned c ++ [r]) c)
  | false, WEntry _ =>
    c ← set_jump c (Some x) j;
    '(_, q) ← fifo_enqueue x (wb_retry_q c);
    Ok (with_retry q (assigned c) c)
  | _, _ => Err Undefined
  end.

(** ** The coarse-grained cache *)

Definition cg_is_full c : bool := nr_cached_tpages c >=? max_cached_tpages (env c).

Definition cg_is_hit c (lpa : Z) : res (bool * cache) :=
  m ← get_cmt c (IDX lpa);
  Ok (pt m, count_hit c (pt m)).

Definition cg_get_pte c (lpa : Z) : res Z :=
  m ← get_cmt c (IDX lpa);
  if pt m then get_entry c (idx m) (OFFSET lpa) else get_entry c (IDX lpa) (OFFSET lpa).

Definition cg_update c (lpa pte : Z) : res cache :=
  m ← get_cmt c (IDX lpa);
  if pt m then
    c ← set_entry c (idx m) (OFFSET lpa) pte;
    t ← ca_get (t_ppa c) (IDX lpa);
    c ← (if negb (IS_INITIAL_PPA t) && bool_decide (state m = CLEAN) then
           '(_, p) ← pg_invalidate_map t (pages c); Ok (with_pages p c)
         else Ok c);
    c ← upd_cmt c (IDX lpa) (set_state DIRTY);
    l ← Lru.lru_update (lru c) (lru_ptr m);
    Ok (with_lru l c)
  else set_entry c (IDX lpa) (OFFSET lpa) pte.

(** Evicting the victim [v]: 1 if its page had to be written. *)
Definition cg_evict c (v : Z) w : res (Z * cache) :=
  m ← get_cmt c v;
  c ← upd_cmt c v (λ m, set_pt false (set_lru_ptr None m));
  if decide (state m = DIRTY) then
    let c := count_evict c true in
    c ← set_jump c w GOTO_COMPLETE;
    '(t, p, ts) ← pg_get_tpage (pages c) (t_ppa c);
    ts ← ca_set ts v t;
    let c := with_t_ppa ts (with_pages p c) in
    c ← upd_cmt c v (set_state CLEAN);
    c ← issue_write c MAPPINGW t w;
    p ← pg_set_oob_map (idx m) t (pages c);
    Ok (1, with_pages p c)
  else Ok (0, count_evict c false).

(** The loop that empties [retry_q]. *)
Fixpoint cg_drain (fuel : nat) c (i : Z) (as_req : bool) : res cache :=
  match fuel with
  | O => Err OutOfFuel
  | S fuel =>
    m ← get_cmt c i;
    '(o, q) ← fifo_dequeue (retry_q m);
    c ← upd_cmt c i (set_retry_q q);
    match o with
    | None => Ok c
    | Some x => c ← hand_back c as_req x GOTO_COMPLETE; cg_drain fuel c i as_req
    end
  end.

(** What follows the page's arrival. *)
Definition cg_wake c (i : Z) w : res cache :=
  m ← get_cmt c i;
  if is_flying m then
    c ← upd_cmt c i (set_flying false);
    match w with
    | Some (WReq _) => cg_drain (Z.to_nat (fifo_size (retry_q m)) + 1) c i true
    | Some (WEntry _) => cg_drain (Z.to_nat (fifo_size (retry_q m)) + 1) c i false
    | None => Ok c
    end
  else Ok c.

Definition cg_list_up c (lpa : Z) w : res (Z * cache) :=
  m ← get_cmt c (IDX lpa);
  '(rc, c) ←
    (if cg_is_full c then
       '(o, l) ← Lru.lru_pop (lru c);
       v ← deref o;
       cg_evict (with_tpages (nr_cached_tpages c - 1) (with_lru l c)) v w
     else Ok (0, c));
  c ← upd_cmt c (IDX lpa) (set_pt true);
  '(p, l) ← Lru.lru_push (lru c) (IDX lpa);
  c ← upd_cmt (with_lru l c) (IDX lpa) (set_lru_ptr (Some p));
  let c := with_tpages (nr_cached_tpages c + 1) c in
  c ← cg_wake c (IDX lpa) w;
  Ok (rc, c).

(** ** The fine-grained cache *)

Definition fg_is_full c : bool := nr_cached_tentries c >=? max_cached_tentries (env c).

Definition entry_cached c (lpa : Z) : res bool :=
  m ← get_cmt c (IDX lpa); ca_get (is_cached m) (OFFSET lpa).

Definition fg_is_hit c (lpa : Z) : res (bool * cache) :=
  b ← entry_cached c lpa; Ok (b, count_hit c b).

Definition fg_get_pte c (lpa : Z) : res Z :=
  _ ← entry_cached c lpa;
  get_entry c (IDX lpa) (OFFSET lpa).

Definition mark_cached c (lpa : Z) : res cache :=
  m ← get_cmt c (IDX lpa);
  a ← ca_set (is_cached m) (OFFSET lpa) true;
  upd_cmt c (IDX lpa) (set_cached a (u32 (cached_cnt m + 1))).

Definition fg_update c (lpa pte : Z) : res cache :=
  m ← get_cmt c (IDX lpa);
  c ← set_entry c (IDX lpa) (OFFSET lpa) pte;
  b ← ca_get (is_cached m) (OFFSET lpa);
  if b : bool then upd_cmt c (IDX lpa) (set_state DIRTY) else mark_cached c lpa.

(** [fg_list_up] when the cache is full. *)
Definition fg_evict c w : res (Z * cache) :=
  '(o, l) ← Lru.lru_pop (lru c);
  v ← deref o;
  let c := with_lru l c in
  m ← get_cmt c v;
  '(rc, c) ←
    (if decide (state m = DIRTY) then
       let c := count_evict c true in
       t ← ca_get (t_ppa c) v;
       c ← (if IS_INITIAL_PPA t then Ok c
            else c ← issue_read c MAPPINGR t None; '(_, p) ← pg_invalidate_map t (pages c); Ok (with_pages p c));
       c ← set_jump c w GOTO_COMPLETE;
       '(t, p, ts) ← pg_get_tpage (pages c) (t_ppa c);
       ts ← ca_set ts v t;
       let c := with_t_ppa ts (with_pages p c) in
       c ← upd_cmt c v (set_state CLEAN);
       c ← issue_write c MAPPINGW t w;
       p ← pg_set_oob_map (idx m) t (pages c);
       Ok (1, with_pages p c)
     else Ok (0, count_evict c false));
  c ← upd_cmt c v (λ m, set_cached (ca_new EPP false) 0 m);
  let c := with_tentries (s32 (nr_cached_tentries c - cached_cnt m)) c in
  '(p, l) ← Lru.lru_push (lru c) v;
  c ← upd_cmt (with_lru l c) v (set_lru_ptr (Some p));
  Ok (rc, c).

(** A waiter whose entry fits is cached and completed, the others load again.
    [lpa_of] is [get_lpa] of the waiter's key and parameters. *)
Fixpoint fg_drain (lpa_of : waiter → Z) (fuel : nat) c (i : Z) (as_req : bool) : res cache :=
  match fuel with
  | O => Err OutOfFuel
  | S fuel =>
    m ← get_cmt c i;
    '(o, q) ← fifo_dequeue (retry_q m);
    c ← upd_cmt c i (set_retry_q q);
    match o with
    | None => Ok c
    | Some x =>
      c ← (if fg_is_full c then hand_back c as_req x GOTO_LOAD
           else
             m ← get_cmt c i;
             a ← ca_set (is_cached m) (OFFSET (lpa_of x)) true;
             c ← upd_cmt c i (set_cached a (u32 (cached_cnt m + 1)));
             hand_back (with_tentries (nr_cached_tentries c + 1) c) as_req x GOTO_COMPLETE);
      fg_drain lpa_of fuel c i as_req
    end
  end.

Definition fg_list_up (lpa_of : waiter → Z) c (lpa : Z) w : res (Z * cache) :=
  '(rc, c) ← (if fg_is_full c then fg_evict c w else Ok (0, c));
  c ← mark_cached c lpa;
  let c := with_tentries (nr_cached_tentries c + 1) c in
  m ← get_cmt c (IDX lpa);
  c ← (if is_flying m then
         c ← upd_cmt c (IDX lpa) (set_flying false);
         match w with
         | Some (WReq _) => fg_drain lpa_of (Z.to_nat (fifo_size (retry_q m)) + 1) c (IDX lpa) true
         | Some (WEntry _) => fg_drain lpa_of (Z.to_nat (fifo_size (retry_q m)) + 1) c (IDX lpa) false
         | None => Ok c
         end
       else Ok c);
  Ok (rc, c).

End ops.

(** ** The coarse-grained cache is a mapping table with a recency list *)

Section coarse.
Context {P Qw : Type} `{!Pages P} `{!FIFO waiter Qw} `{!PagesOk P}.
Implicit Types (c : cache P Qw) (w : option waiter) (rs : list Z) (M : Z → Z) (used : gset Z).

(** The recency list after using page [i]. *)
Definition to_front (i : Z) rs : list Z := if decide (i ∈ rs) then i :: filter (λ j, j ≠ i) rs else rs.

(** [rs] are the cached translation pages, most recently used first; [M] is the
    mapping table. *)
Record cg_rep c rs M (n : Z) used : Prop := CgRep {
  rep_int : nr_valid_tpages (env c) < 2 ^ 31;
  rep_cmt : ca_len (cmt c) = nr_valid_tpages (env c);
  rep_ts : ca_len (t_ppa c) = nr_valid_tpages (env c);
  rep_mem : ca_len (mem_table c) = nr_valid_tpages (env c);
  rep_max : 0 < max_cached_tpages (env c);
  rep_row i : 0 <= i < nr_valid_tpages (env c) → ca_len (ca_at (mem_table c) i) = EPP ∧ idx (ca_at (cmt c) i) = i;
  rep_M i j : 0 <= i < nr_valid_tpages (env c) → 0 <= j < EPP → ca_at (ca_at (mem_table c) i) j = M (i * EPP + j);
  rep_nd : NoDup rs;
  rep_rs i : i ∈ rs → 0 <= i < nr_valid_tpages (env c);
  rep_nr : nr_cached_tpages c = Z.of_nat (length rs);
  rep_le : Z.of_nat (length rs) <= max_cached_tpages (env c);
  rep_lru : ∃ R, R.*2 = rs ∧ Lru.lru_repr (lru c) R ∧
    ∀ i a, 0 <= i < nr_valid_tpages (env c) → lru_ptr (ca_at (cmt c) i) = Some a ↔ (a, i) ∈ R;
  rep_pt i : 0 <= i < nr_valid_tpages (env c) → pt (ca_at (cmt c) i) = bool_decide (i ∈ rs);
  rep_tp i : 0 <= i < nr_valid_tpages (env c) → ca_at (t_ppa c) i = UINT32_MAX ∨ ca_at (t_ppa c) i ∈ used;
  rep_pages : pg_inv (pages c) n used;
  rep_q i : 0 <= i < nr_valid_tpages (env c) → ∃ cap ws, fifo_repr (retry_q (ca_at (cmt c) i)) cap ws;
  rep_wq : ∃ cap ws, fifo_repr (wb_retry_q c) cap ws;
}.

(** The queues are left alone. *)
Definition quiet c c' : Prop :=
  env c' = env c ∧ (∀ j, retry_q (ca_at (cmt c') j) = retry_q (ca_at (cmt c) j)) ∧ wb_retry_q c' = wb_retry_q c.

(** A translation page that has no page on the device and was not changed was so
    before, and a changed one was changed before. *)
Definition blank c (i : Z) : Prop := ca_at (t_ppa c) i = UINT32_MAX ∧ state (ca_at (cmt c) i) = CLEAN.
Definition tidy c c' : Prop :=
  ∀ i, (blank c' i → blank c i) ∧ (state (ca_at (cmt c') i) = DIRTY → state (ca_at (cmt c) i) = DIRTY).

Lemma tidy_refl c : tidy c c.
Proof. by intros i. Qed.
Lemma tidy_trans c1 c2 c3 : tidy c1 c2 → tidy c2 c3 → tidy c1 c3.
Proof. intros H1 H2 i. destruct (H1 i), (H2 i). auto. Qed.
Lemma tidy_same c c' : t_ppa c' = t_ppa c → (∀ i, state (ca_at (cmt c') i) = state (ca_at (cmt c) i)) → tidy c c'.
Proof. intros Et Es i. unfold blank. by rewrite Et, Es. Qed.

(** The addresses of the table. *)
Definition lpa_ok c (lpa : Z) : Prop := 0 <= lpa < nr_valid_tpages (env c) * EPP.

Lemma lpa_place c lpa : lpa_ok c lpa →
  0 <= IDX lpa < nr_valid_tpages (env c) ∧ 0 <= OFFSET lpa < EPP ∧ lpa = IDX lpa * EPP + OFFSET lpa.
Proof.
  unfold lpa_ok, IDX, OFFSET. change EPP with 2048. intros. Z.to_euclidean_division_equations. lia.
Qed.

Lemma get_cmt_Ok c rs M n used i :
  cg_rep c rs M n used → 0 <= i < nr_valid_tpages (env c) → get_cmt c i = Ok (ca_at (cmt c) i).
Proof. intros Hr Hi. apply ca_get_in. rewrite (rep_cmt _ _ _ _ _ Hr). done. Qed.

Lemma upd_cmt_Ok c i f :
  ca_len (cmt c) = nr_valid_tpages (env c) → 0 <= i < nr_valid_tpages (env c) →
  upd_cmt c i f = Ok (with_cmt (ca_upd (cmt c) i (f (ca_at (cmt c) i))) c).
Proof. intros Hl Hi. unfold upd_cmt. rewrite ca_get_in by lia. rbind. by rewrite ca_set_in by lia. Qed.

Lemma get_entry_Ok c rs M n used lpa :
  cg_rep c rs M n used → lpa_ok c lpa → get_entry c (IDX lpa) (OFFSET lpa) = Ok (M lpa).
Proof.
  intros Hr Hl. destruct (lpa_place c lpa Hl) as (Hi & Ho & E). unfold get_entry.
  rewrite ca_get_in by (rewrite (rep_mem _ _ _ _ _ Hr); done). rbind.
  rewrite ca_get_in by (rewrite (proj1 (rep_row _ _ _ _ _ Hr _ Hi)); done).
  rewrite (rep_M _ _ _ _ _ Hr _ _ Hi Ho). by rewrite <-E.
Qed.

Lemma set_entry_rep c rs M n used lpa x :
  cg_rep c rs M n used → lpa_ok c lpa →
  ∃ c', set_entry c (IDX lpa) (OFFSET lpa) x = Ok c' ∧ cg_rep c' rs (<[lpa := x]> M) n used ∧
    cmt c' = cmt c ∧ t_ppa c' = t_ppa c ∧ lru c' = lru c ∧ env c' = env c ∧ pages c' = pages c ∧ wb_retry_q c' = wb_retry_q c.
Proof.
  intros Hr Hl. destruct (lpa_place c lpa Hl) as (Hi & Ho & E). unfold set_entry.
  rewrite ca_get_in by (rewrite (rep_mem _ _ _ _ _ Hr); done). rbind.
  rewrite ca_set_in by (rewrite (proj1 (rep_row _ _ _ _ _ Hr _ Hi)); done). rbind.
  rewrite ca_set_in by (rewrite (rep_mem _ _ _ _ _ Hr); done). rbind.
  eexists. split; [done|]. split; [|done]. destruct Hr. constructor; cbn [with_table env cmt t_ppa mem_table lru
    nr_cached_tpages pages wb_retry_q]; try done.
  - intros i Hi'. rewrite ca_at_upd. split; [|by apply rep_row0]. case_decide; [subst; by apply rep_row0|by apply rep_row0].
  - intros i j Hi' Hj. rewrite ca_at_upd. case_decide as Ei.
    + subst i. rewrite ca_at_upd. case_decide as Ej.
      * subst j. rewrite <-E. by rewrite fn_lookup_insert.
      * rewrite fn_lookup_insert_ne; [by apply rep_M0|]. rewrite E. change EPP with 2048 in *. lia.
    + rewrite fn_lookup_insert_ne; [by apply rep_M0|]. rewrite E. change EPP with 2048 in *. lia.
Qed.

(** Changing an entry without touching its place, its pointers or its queue. *)
Lemma upd_cmt_rep c rs M n used i f :
  cg_rep c rs M n used → 0 <= i < nr_valid_tpages (env c) →
  (∀ m : cmt_struct Qw, idx (f m) = idx m ∧ pt (f m) = pt m ∧ lru_ptr (f m) = lru_ptr m) →
  (∃ cap ws, fifo_repr (retry_q (f (ca_at (cmt c) i))) cap ws) →
  ∃ c', upd_cmt c i f = Ok c' ∧ cg_rep c' rs M n used ∧
    c' = with_cmt (ca_upd (cmt c) i (f (ca_at (cmt c) i))) c.
Proof.
  intros Hr Hi Hf Hq. rewrite (upd_cmt_Ok c i f (rep_cmt _ _ _ _ _ Hr) Hi). eexists. split; [done|]. split; [|done].
  destruct Hr. constructor; cbn [with_cmt env cmt t_ppa mem_table lru nr_cached_tpages pages wb_retry_q]; try done.
  - intros j Hj. rewrite ca_at_upd. split; [by apply rep_row0|]. case_decide; [subst|by apply rep_row0].
    rewrite (proj1 (Hf _)). by apply rep_row0.
  - destruct rep_lru0 as (R & HR & Hl & Hp). exists R. split_and!; try done. intros j a Hj. rewrite ca_at_upd.
    case_decide; [subst|by apply Hp]. destruct (Hf (ca_at (cmt c) j)) as (_ & _ & ->). by apply Hp.
  - intros j Hj. rewrite ca_at_upd. case_decide; [subst|by apply rep_pt0].
    destruct (Hf (ca_at (cmt c) j)) as (_ & -> & _). by apply rep_pt0.
  - intros j Hj. rewrite ca_at_upd. case_decide; [by subst|by apply rep_q0].
Qed.

(** Effects outside the table. *)
Lemma rep_frame c c' rs M n n' used used' :
  cg_rep c rs M n used → env c' = env c → cmt c' = cmt c → t_ppa c' = t_ppa c → mem_table c' = mem_table c →
  lru c' = lru c → nr_cached_tpages c' = nr_cached_tpages c → wb_retry_q c' = wb_retry_q c →
  pg_inv (pages c') n' used' → used ⊆ used' → cg_rep c' rs M n' used'.
Proof.
  intros [] Ee Ec Et Em El En Ew Hp Hu. constructor; rewrite ?Ee, ?Ec, ?Et, ?Em, ?El, ?En, ?Ew; try done.
  intros i Hi. destruct (rep_tp0 i Hi); [by left|right; set_solver].
Qed.

(** *** Recency *)

Lemma lru_node_in (R : list (loc * Z)) a i : (a, i) ∈ R → NoDup R.*2 →
  ∃ l1 l2, R = l1 ++ (a, i) :: l2 ∧ filter (λ j, j ≠ i) R.*2 = l1.*2 ++ l2.*2.
Proof.
  intros Hin Hnd. apply list_elem_of_split in Hin as (l1 & l2 & ->). exists l1, l2. split; [done|].
  rewrite fmap_app in *. csimpl in *. apply NoDup_app in Hnd as (_ & Hd & Hnd). apply NoDup_cons in Hnd as [Hn _].
  rewrite filter_app, filter_cons_False by naive_solver.
  f_equal; apply filter_all; apply Forall_forall; intros x Hx ->; [|done].
  apply (Hd i Hx). apply elem_of_cons. by left.
Qed.

Lemma touch_rep c rs M n used i :
  cg_rep c rs M n used → 0 <= i < nr_valid_tpages (env c) →
  ∃ l, Lru.lru_update (lru c) (lru_ptr (ca_at (cmt c) i)) = Ok l ∧
    cg_rep (with_lru l c) (to_front i rs) M n used.
Proof.
  intros Hr Hi. destruct (rep_lru _ _ _ _ _ Hr) as (R & HR & Hl & Hp). unfold to_front.
  destruct (lru_ptr (ca_at (cmt c) i)) as [a|] eqn:Ea.
  - apply Hp in Ea as Hin; [|done]. pose proof (rep_nd _ _ _ _ _ Hr) as Hnd. rewrite <-HR in Hnd.
    destruct (lru_node_in R a i Hin Hnd) as (l1 & l2 & ER & Hfil).
    rewrite ER in Hl. destruct (Lru.lru_update_repr (lru c) l1 a i l2 Hl) as (l & El & Hl').
    exists l. split; [done|]. rewrite decide_True by (rewrite <-HR; apply list_elem_of_fmap; by exists (a, i)).
    assert (Hperm : i :: filter (λ j, j ≠ i) rs ≡ₚ rs).
    { rewrite <-HR at 1. rewrite Hfil, <-HR, ER, fmap_app. csimpl. apply Permutation_middle. }
    destruct Hr. constructor; cbn [with_lru env cmt t_ppa mem_table lru nr_cached_tpages pages wb_retry_q]; try done.
    + by rewrite Hperm.
    + intros j. rewrite Hperm. apply rep_rs0.
    + by rewrite (Permutation_length Hperm).
    + by rewrite (Permutation_length Hperm).
    + exists ((a, i) :: l1 ++ l2). split; [|split; [done|]].
      * csimpl. rewrite fmap_app. f_equal. by rewrite <-HR, Hfil.
      * intros j b Hj. rewrite (Hp j b Hj), ER. by rewrite Permutation_middle.
    + intros j Hj. rewrite (rep_pt0 j Hj). apply bool_decide_ext. by rewrite Hperm.
  - exists (lru c). split; [done|]. rewrite decide_False; [by destruct c|].
    intros Hin. rewrite <-HR in Hin. apply list_elem_of_fmap in Hin as ([a j] & E & Hin). cbn in E. subst j. apply Hp in Hin; [|done].
    congruence.
Qed.

Lemma cg_touch_rep c rs M n used lpa :
  cg_rep c rs M n used → lpa_ok c lpa →
  ∃ c', cg_touch c lpa = Ok c' ∧ cg_rep c' (to_front (IDX lpa) rs) M n used ∧ quiet c c'.
Proof.
  intros Hr Hl. destruct (lpa_place c lpa Hl) as (Hi & _). unfold cg_touch.
  rewrite (get_cmt_Ok c rs M n used _ Hr Hi). rbind.
  destruct (touch_rep c rs M n used (IDX lpa) Hr Hi) as (l & -> & Hr'). rbind. by eexists.
Qed.

Lemma cg_get_pte_Ok c rs M n used lpa :
  cg_rep c rs M n used → lpa_ok c lpa → cg_get_pte c lpa = Ok (M lpa).
Proof.
  intros Hr Hl. destruct (lpa_place c lpa Hl) as (Hi & _). unfold cg_get_pte.
  rewrite (get_cmt_Ok c rs M n used _ Hr Hi). rbind. rewrite (proj2 (rep_row _ _ _ _ _ Hr _ Hi)).
  rewrite (get_entry_Ok c rs M n used) by done. by destruct (pt _).
Qed.

Lemma cg_is_hit_Ok c rs M n used lpa :
  cg_rep c rs M n used → lpa_ok c lpa →
  ∃ c', cg_is_hit c lpa = Ok (bool_decide (IDX lpa ∈ rs), c') ∧ cg_rep c' rs M n used ∧ quiet c c'.
Proof.
  intros Hr Hl. destruct (lpa_place c lpa Hl) as (Hi & _). unfold cg_is_hit.
  rewrite (get_cmt_Ok c rs M n used _ Hr Hi). rbind. rewrite (rep_pt _ _ _ _ _ Hr _ Hi).
  eexists. split; [done|]. split; [|done]. eapply rep_frame; [exact Hr|..]; try done. apply Hr.
Qed.

Lemma cg_update_rep c rs M n used lpa x :
  cg_rep c rs M n used → lpa_ok c lpa →
  ∃ c', cg_update c lpa x = Ok c' ∧ cg_rep c' (to_front (IDX lpa) rs) (<[lpa := x]> M) n used ∧ quiet c c'.
Proof.
  intros Hr Hl. destruct (lpa_place c lpa Hl) as (Hi & _). unfold cg_update.
  rewrite (get_cmt_Ok c rs M n used _ Hr Hi). rbind. rewrite (proj2 (rep_row _ _ _ _ _ Hr _ Hi)).
  rewrite (rep_pt _ _ _ _ _ Hr _ Hi). destruct (set_entry_rep c rs M n used lpa x Hr Hl) as
    (c1 & E1 & Hr1 & Ec & Et & El & Ee & Ep & Ew). case_bool_decide as Hin.
  2: { exists c1. split; [done|]. split; [unfold to_front; by rewrite decide_False|]. split_and!; [done|by rewrite Ec|done]. }
  rewrite E1. rbind. rewrite ca_get_in by (rewrite (rep_ts _ _ _ _ _ Hr1), Ee; done). rbind.
  assert (∃ p, (if negb (IS_INITIAL_PPA (ca_at (t_ppa c1) (IDX lpa))) &&
            bool_decide (state (ca_at (cmt c) (IDX lpa)) = CLEAN)
         then '(_, p) ← pg_invalidate_map (ca_at (t_ppa c1) (IDX lpa)) (pages c1); Ok (with_pages p c1) else Ok c1)
      = Ok (with_pages p c1) ∧ pg_inv p n used) as (p & -> & Hp).
  { pose proof (rep_pages _ _ _ _ _ Hr1) as Hp1. destruct (negb _ && _) eqn:Eb; [|exists (pages c1); by destruct c1].
    apply andb_true_iff in Eb as [Eb _]. unfold IS_INITIAL_PPA in Eb.
    destruct (rep_tp _ _ _ _ _ Hr1 (IDX lpa)) as [Ht|Ht]; [by rewrite Ee|by rewrite Ht in Eb|].
    destruct (pg_invalidate_map_ok (pages c1) n used _ Hp1 Ht) as (r & p & -> & Hp). exists p. by rbind. }
  rbind. assert (Hr2 : cg_rep (with_pages p c1) rs (<[lpa := x]> M) n used) by (by eapply rep_frame).
  destruct (upd_cmt_rep (with_pages p c1) rs (<[lpa := x]> M) n used (IDX lpa) (set_state DIRTY) Hr2) as (c3 & -> & Hr3 & Ec3);
    [cbn [with_pages env]; by rewrite Ee|done|apply (rep_q _ _ _ _ _ Hr2); cbn [with_pages env]; by rewrite Ee|].
  rbind. assert (Hptr : lru_ptr (ca_at (cmt c3) (IDX lpa)) = lru_ptr (ca_at (cmt c) (IDX lpa))).
  { rewrite Ec3. cbn [with_cmt with_pages cmt]. rewrite ca_at_upd, decide_True by done. by rewrite Ec. }
  assert (Ee3 : env c3 = env c) by (by rewrite Ec3).
  destruct (touch_rep c3 rs (<[lpa := x]> M) n used (IDX lpa) Hr3) as (l & El3 & Hr4); [by rewrite Ee3|].
  rewrite Hptr in El3. rewrite El3. rbind. eexists. split; [done|]. split; [done|]. split; [exact Ee3|]. rewrite Ec3.
  split; [|exact Ew]. intros j. cbn [with_cmt with_pages with_lru cmt]. rewrite ca_at_upd, Ec. case_decide; by subst.
Qed.

Lemma cg_load_rep c rs M n used lpa x :
  cg_rep c rs M n used → lpa_ok c lpa →
  ∃ c', cg_load c lpa (Some x) = Ok ((if ca_at (t_ppa c) (IDX lpa) =? UINT32_MAX then 0 else 1), c') ∧
    cg_rep c' rs M n used ∧ quiet c c'.
Proof.
  intros Hr Hl. destruct (lpa_place c lpa Hl) as (Hi & _). unfold cg_load.
  rewrite (get_cmt_Ok c rs M n used _ Hr Hi). rbind.
  rewrite ca_get_in by (rewrite (rep_ts _ _ _ _ _ Hr); done). rbind. unfold IS_INITIAL_PPA.
  destruct (Z.eqb_spec (ca_at (t_ppa c) (IDX lpa)) UINT32_MAX) as [Et|Et]; [by exists c|].
  cbn [set_jump]. rbind. unfold issue_read.
  change (inf_get_valueset false None FS_MALLOC_R PAGESIZE) with (Ok (VS (replicate (Z.to_nat PAGESIZE) 0) 0)). rbind.
  destruct (rep_tp _ _ _ _ _ Hr _ Hi) as [|Hu]; [done|].
  destruct (pg_read_ok (pages c) n used MAPPINGR _ (rep_pages _ _ _ _ _ Hr) Hu) as (p & E & Hp).
  cbn [with_jumps pages]. rewrite E. rbind.
  set (c1 := with_flying _ _). assert (Hr1 : cg_rep c1 rs M n used) by (by eapply rep_frame).
  destruct (upd_cmt_rep c1 rs M n used (IDX lpa) (set_flying true) Hr1 Hi) as (c' & -> & Hr' & ->);
    [done|apply (rep_q _ _ _ _ _ Hr1 _ Hi)|]. rbind. eexists. split; [done|]. split; [done|].
  split; [done|]. split; [|done]. intros j. subst c1. cbn [with_cmt with_pages with_flying with_jumps cmt]. rewrite ca_at_upd. case_decide; by subst.
Qed.

(** *** Eviction *)

(** The least recently used page leaves the list. *)
Lemma unlist_rep c rs v M n used :
  cg_rep c (rs ++ [v]) M n used →
  ∃ l c1, Lru.lru_pop (lru c) = Ok (Some v, l) ∧
    upd_cmt (with_tpages (nr_cached_tpages c - 1) (with_lru l c)) v (λ m, set_pt false (set_lru_ptr None m)) = Ok c1 ∧
    cg_rep c1 rs M n used ∧ env c1 = env c ∧ t_ppa c1 = t_ppa c ∧ pages c1 = pages c ∧
    (∀ j, is_flying (ca_at (cmt c1) j) = is_flying (ca_at (cmt c) j) ∧ retry_q (ca_at (cmt c1) j) = retry_q (ca_at (cmt c) j)) ∧
    wb_retry_q c1 = wb_retry_q c ∧ jumps c1 = jumps c ∧ assigned c1 = assigned c ∧ flying c1 = flying c ∧ tidy c c1.
Proof.
  intros Hr. pose proof (rep_rs _ _ _ _ _ Hr v) as Hv. specialize (Hv ltac:(apply elem_of_app; right; by apply list_elem_of_singleton)).
  pose proof (rep_nd _ _ _ _ _ Hr) as Hnd. apply NoDup_app in Hnd as (Hnd & Hd & _).
  assert (Hvn : v ∉ rs) by (intros Hx; apply (Hd v Hx); by apply list_elem_of_singleton).
  destruct (rep_lru _ _ _ _ _ Hr) as (R & HR & Hl & Hp).
  destruct R as [|[a v'] R _] using rev_ind; [by destruct rs|]. rewrite fmap_app in HR. csimpl in HR.
  apply app_inj_tail in HR as [HR ->]. destruct (Lru.lru_pop_repr (lru c) R a v Hl) as (l & El & Hl').
  exists l. rewrite upd_cmt_Ok by first [apply (rep_cmt _ _ _ _ _ Hr)|done].
  eexists. split; [done|]. split; [done|]. cbn [with_cmt with_tpages with_lru cmt env t_ppa pages wb_retry_q jumps assigned flying].
  split; [|split_and!; try done; [|apply tidy_same; [done|]]; intros j; cbn; rewrite ca_at_upd; case_decide; by subst].
  destruct Hr. rewrite length_app in *. simpl in *.
  constructor; cbn [with_cmt with_tpages with_lru cmt env t_ppa mem_table lru nr_cached_tpages pages wb_retry_q]; try done.
  - intros i Hi. split; [by apply rep_row0|]. rewrite ca_at_upd. case_decide; [subst|]; by apply rep_row0.
  - intros i Hi. apply rep_rs0. apply elem_of_app. by left.
  - lia.
  - lia.
  - exists R. split_and!; try done. intros i b Hi. rewrite ca_at_upd.
    assert (Hnd2 : NoDup (R ++ [(a, v)]).*2).
    { rewrite fmap_app. csimpl. rewrite HR. apply NoDup_app. split_and!; try done. apply NoDup_singleton. }
    case_decide as E.
    + subst i. cbn. split; [done|]. intros Hin. exfalso. apply Hvn. rewrite <-HR. apply list_elem_of_fmap. by exists (b, v).
    + rewrite (Hp i b Hi), elem_of_app, list_elem_of_singleton. split; [|by left]. intros [|[= -> ->]]; done.
  - intros i Hi. rewrite ca_at_upd. case_decide as E.
    + subst i. cbn. symmetry. by apply bool_decide_eq_false.
    + rewrite (rep_pt0 i Hi). apply bool_decide_ext. rewrite elem_of_app, list_elem_of_singleton. naive_solver.
  - intros i Hi. rewrite ca_at_upd. case_decide; [subst; cbn; by apply rep_q0|by apply rep_q0].
Qed.

(** A changed page is written before it is forgotten. *)
Lemma cg_evict_rep c rs v M n used x :
  cg_rep c (rs ++ [v]) M n used → 0 < n →
  ∃ l rc c', Lru.lru_pop (lru c) = Ok (Some v, l) ∧
    cg_evict (with_tpages (nr_cached_tpages c - 1) (with_lru l c)) v (Some x) = Ok (rc, c') ∧
    rc = (if decide (state (ca_at (cmt c) v) = DIRTY) then 1 else 0) ∧
    (∃ n' used', cg_rep c' rs M n' used' ∧ n - 1 <= n') ∧ env c' = env c ∧
    (∀ j, is_flying (ca_at (cmt c') j) = is_flying (ca_at (cmt c) j) ∧ retry_q (ca_at (cmt c') j) = retry_q (ca_at (cmt c) j)) ∧
    wb_retry_q c' = wb_retry_q c ∧ assigned c' = assigned c ∧ tidy c c' ∧ state (ca_at (cmt c') v) = CLEAN ∧
    jumps c' = (if rc =? 0 then jumps c else <[x := GOTO_COMPLETE]> (jumps c)) ∧
    flying c' = flying c ++ (if rc =? 0 then [] else [(MAPPINGW, Some x)]).
Proof.
  intros Hr Hn. pose proof (rep_rs _ _ _ _ _ Hr v) as Hv. specialize (Hv ltac:(apply elem_of_app; right; by apply list_elem_of_singleton)).
  destruct (unlist_rep c rs v M n used Hr) as (l & c1 & El & E1 & Hr1 & Ee & Et & Ep & Hq & Ew & Ej & Ea & Efl & Htd).
  exists l. unfold cg_evict, get_cmt. cbn [with_tpages with_lru cmt]. rewrite ca_get_in by (rewrite (rep_cmt _ _ _ _ _ Hr); done).
  rbind. rewrite E1. rbind. destruct (decide (state (ca_at (cmt c) v) = DIRTY)) as [Hd|Hc].
  2: { eexists 0, _. split; [done|]. split; [done|]. split; [done|].
       assert (Hcl : state (ca_at (cmt c1) v) = CLEAN).
       { destruct (state (ca_at (cmt c1) v)) eqn:Es; [done|]. destruct Hc. by apply (Htd v). }
       split; [|by rewrite app_nil_r]. exists n, used. split; [|lia]. eapply rep_frame; [exact Hr1|..]; try done. apply Hr1. }
  cbn [set_jump]. rbind. cbn [count_evict with_stat with_jumps pages t_ppa].
  destruct (pg_get_tpage_ok (pages c1) n used (t_ppa c1) (rep_pages _ _ _ _ _ Hr1) Hn) as
    (t & p1 & Egt & Htn & Htr & p2 & Ew2 & Hoob).
  rewrite Egt. rbind. rewrite ca_set_in by (rewrite (rep_ts _ _ _ _ _ Hr1), Ee; done). rbind.
  rewrite upd_cmt_Ok by (cbn; rewrite ?(rep_cmt _ _ _ _ _ Hr1), ?Ee; done). rbind. unfold issue_write.
  change (inf_get_valueset false None FS_MALLOC_W PAGESIZE) with (Ok (VS (replicate (Z.to_nat PAGESIZE) 0) 0)). rbind.
  cbn [with_cmt with_pages with_t_ppa pages]. rewrite Ew2. rbind. cbn [with_flying with_pages pages].
  rewrite (proj2 (rep_row _ _ _ _ _ Hr v Hv)).
  destruct (Hoob v) as (p3 & Eo & Hp3); [pose proof (rep_int _ _ _ _ _ Hr); lia|].
  rewrite Eo. rbind. eexists 1, _. split; [done|]. split; [done|]. split; [done|].
  split; [|split; [exact Ee|split; [|split; [done|split; [done|split; [|split; [|split]]]]]]].
  - exists (n - 1), ({[t]} ∪ used). split; [|lia]. destruct Hr1.
    constructor; cbn [with_pages with_flying with_cmt with_t_ppa with_jumps with_stat count_evict env cmt t_ppa mem_table
      lru nr_cached_tpages pages wb_retry_q]; try done.
    + intros i Hi. split; [by apply rep_row0|]. rewrite ca_at_upd. case_decide; [subst|]; by apply rep_row0.
    + destruct rep_lru0 as (R & ? & ? & Hp). exists R. split_and!; try done. intros i a Hi. rewrite ca_at_upd.
      case_decide; [subst|]; by apply Hp.
    + intros i Hi. rewrite ca_at_upd. case_decide; [subst|]; by apply rep_pt0.
    + intros i Hi. rewrite ca_at_upd. case_decide; [right; set_solver|]. destruct (rep_tp0 i Hi); [by left|right; set_solver].
    + intros i Hi. rewrite ca_at_upd. case_decide; [subst|]; by apply rep_q0.
  - intros j. cbn [with_pages with_flying with_cmt with_t_ppa with_jumps with_stat count_evict cmt]. rewrite ca_at_upd.
    case_decide; [subst|]; apply Hq.
  - intros j. unfold blank. cbn [with_pages with_flying with_cmt with_t_ppa with_jumps with_stat count_evict cmt t_ppa]. rewrite !ca_at_upd.
    case_decide as Ev; [|apply (Htd j)]. split; [intros [E0 _]; lia|done].
  - cbn [with_pages with_flying with_cmt with_t_ppa with_jumps with_stat count_evict cmt]. by rewrite ca_at_upd, decide_True.
  - cbn. by rewrite Ej.
  - cbn. by rewrite Efl.
Qed.

(** *** Listing a page *)

Lemma list_rep c rs i M n used :
  cg_rep c rs M n used → 0 <= i < nr_valid_tpages (env c) → i ∉ rs → Z.of_nat (length rs) < max_cached_tpages (env c) →
  ∃ c', (c1 ← upd_cmt c i (set_pt true);
         '(p, l) ← Lru.lru_push (lru c1) i;
         c2 ← upd_cmt (with_lru l c1) i (set_lru_ptr (Some p));
         Ok (with_tpages (nr_cached_tpages c2 + 1) c2)) = Ok c' ∧
    cg_rep c' (i :: rs) M n used ∧ env c' = env c ∧
    (∀ j, is_flying (ca_at (cmt c') j) = is_flying (ca_at (cmt c) j) ∧ retry_q (ca_at (cmt c') j) = retry_q (ca_at (cmt c) j)) ∧
    wb_retry_q c' = wb_retry_q c ∧ assigned c' = assigned c ∧ jumps c' = jumps c ∧ flying c' = flying c ∧ tidy c c'.
Proof.
  intros Hr Hi Hn Hmax. rewrite upd_cmt_Ok by first [apply (rep_cmt _ _ _ _ _ Hr)|done]. rbind. cbn [with_cmt lru].
  destruct (rep_lru _ _ _ _ _ Hr) as (R & HR & Hl & Hp).
  destruct (Lru.lru_push_repr (lru c) R i Hl) as (a & l & -> & Ha & Hl'). rbind.
  rewrite upd_cmt_Ok by first [apply (rep_cmt _ _ _ _ _ Hr)|done]. rbind.
  eexists. split; [done|]. cbn [with_tpages with_cmt with_lru cmt env wb_retry_q assigned jumps].
  split; [|split; [done|split; [|split; [done|split; [done|split; [done|split; [done|]]]]]]].
  - destruct Hr. constructor; cbn [with_tpages with_cmt with_lru cmt env t_ppa mem_table lru nr_cached_tpages pages wb_retry_q];
      try done.
    + intros j Hj. split; [by apply rep_row0|]. rewrite !ca_at_upd. repeat case_decide; subst; try done; by apply rep_row0.
    + by apply NoDup_cons.
    + intros j [->|Hj]%elem_of_cons; [done|by apply rep_rs0].
    + simpl. lia.
    + simpl. lia.
    + exists ((a, i) :: R). csimpl. rewrite HR. split_and!; try done. intros j b Hj. rewrite !ca_at_upd.
      destruct (decide (i = j)) as [<-|Hne].
      * rewrite decide_True by done. cbn. split.
        -- intros [= ->]. apply elem_of_cons. by left.
        -- intros [[= ->]|Hin]%elem_of_cons; [done|]. exfalso. apply Hn. rewrite <-HR. apply list_elem_of_fmap. by exists (b, i).
      * rewrite (Hp j b Hj), elem_of_cons. split; [by right|]. intros [[= -> ->]|]; done.
    + intros j Hj. rewrite !ca_at_upd. destruct (decide (i = j)) as [<-|Hne].
      * rewrite decide_True by done. cbn. symmetry. apply bool_decide_eq_true. apply elem_of_cons. by left.
      * rewrite (rep_pt0 j Hj). apply bool_decide_ext. rewrite elem_of_cons. naive_solver.
    + intros j Hj. rewrite !ca_at_upd. repeat case_decide; subst; try done; by apply rep_q0.
  - intros j. rewrite !ca_at_upd. by repeat case_decide; subst.
  - apply tidy_same; [done|]. intros j. cbn. rewrite !ca_at_upd. by repeat case_decide; subst.
Qed.

(** *** Waking *)

(** Waiters of the kind of the one that lists the page up. *)
Definition same_kind (w x : waiter) : Prop :=
  match w, x with WReq _, WReq _ => True | WEntry _, WEntry _ => True | _, _ => False end.
Definition is_req (w : waiter) : bool := match w with WReq _ => true | WEntry _ => false end.
Definition req_of (w : waiter) : option loc := match w with WReq r => Some r | WEntry _ => None end.

(** The retry queue of page [i] holds [ws], the queue of entries to retry [es]. *)
Definition waiting c (i : Z) (ws es : list waiter) : Prop :=
  (∃ cap, fifo_repr (retry_q (ca_at (cmt c) i)) cap ws) ∧
  ∃ cap, fifo_repr (wb_retry_q c) cap es ∧ Z.of_nat (length es + length ws) <= cap.

(** What waking a list of waiters does to the jumps. *)
Definition completed (ws : list waiter) (j : gmap waiter jump_t) : gmap waiter jump_t :=
  foldl (λ j x, <[x := GOTO_COMPLETE]> j) j ws.

Lemma completed_other ws x : ∀ j, x ∉ ws → completed ws j !! x = j !! x.
Proof.
  unfold completed. induction ws as [|y ws IH]; intros j Hx; [done|]. apply not_elem_of_cons in Hx as [Hn Hx]. cbn.
  rewrite IH by done. by rewrite lookup_insert_ne.
Qed.

Lemma cg_drain_rep (w : waiter) ws : ∀ fuel c rs M n used i es,
  cg_rep c rs M n used → 0 <= i < nr_valid_tpages (env c) → waiting c i ws es → Forall (same_kind w) ws →
  (length ws < fuel)%nat →
  ∃ c', cg_drain fuel c i (is_req w) = Ok c' ∧ cg_rep c' rs M n used ∧ env c' = env c ∧
    waiting c' i [] (if is_req w then es else es ++ ws) ∧ jumps c' = completed ws (jumps c) ∧
    assigned c' = assigned c ++ omap req_of ws ∧
    (∀ j, is_flying (ca_at (cmt c') j) = is_flying (ca_at (cmt c) j)) ∧
    (∀ j, j ≠ i → retry_q (ca_at (cmt c') j) = retry_q (ca_at (cmt c) j)) ∧ flying c' = flying c ∧ tidy c c' ∧ (ws = [] → wb_retry_q c' = wb_retry_q c).
Proof.
  induction ws as [|x ws IH]; intros [|fuel] c rs M n used i es Hr Hi ((cap & Hq) & cap' & Hw & Hroom) Hk Hf; simpl in Hf; try lia.
  - cbn [cg_drain]. rewrite (get_cmt_Ok _ _ _ _ _ _ Hr Hi). rbind. rewrite (fifo_dequeue_empty _ _ Hq). rbind.
    destruct (upd_cmt_rep c rs M n used i (set_retry_q (retry_q (ca_at (cmt c) i))) Hr Hi) as (c' & -> & Hr' & Ec');
      [done|by eauto|]. rbind. exists c'. split; [done|]. split; [done|]. rewrite Ec'. cbn [with_cmt env jumps assigned].
    split; [done|]. split; [|split; [done|split; [by rewrite app_nil_r|split; [|split; [|split; [done|]]]]]]; [split|..].
    + exists cap. cbn [with_cmt cmt]. by rewrite ca_at_upd, decide_True.
    + exists cap'. rewrite app_nil_r. by destruct (is_req w).
    + intros j. cbn [with_cmt cmt]. rewrite ca_at_upd. case_decide; by subst.
    + intros j Hj. cbn [with_cmt cmt]. by rewrite ca_at_upd, decide_False.
    + split; [|done]. apply tidy_same; [done|]. intros j. cbn [with_cmt cmt]. rewrite ca_at_upd. by case_decide; subst.
  - apply Forall_cons in Hk as [Hx Hk]. cbn [cg_drain]. rewrite (get_cmt_Ok _ _ _ _ _ _ Hr Hi). rbind.
    destruct (fifo_dequeue_spec _ _ _ _ Hq) as (q & -> & Hq'). rbind.
    destruct (upd_cmt_rep c rs M n used i (set_retry_q q) Hr Hi) as (c1 & -> & Hr1 & Ec1); [done|by eauto|]. rbind.
    assert (∃ c2, hand_back c1 (is_req w) x GOTO_COMPLETE = Ok c2 ∧ cg_rep c2 rs M n used ∧ env c2 = env c ∧
      waiting c2 i ws (if is_req w then es else es ++ [x]) ∧ jumps c2 = <[x := GOTO_COMPLETE]> (jumps c) ∧
      assigned c2 = assigned c ++ omap req_of [x] ∧ cmt c2 = cmt c1 ∧ t_ppa c2 = t_ppa c1 ∧ flying c2 = flying c1)
      as (c2 & -> & Hr2 & Ee2 & Hw2 & Ej2 & Ea2 & Ecm & Etm & Efm).
    { assert (Hcmt : ∀ q', retry_q (ca_at (ca_upd (cmt c) i (set_retry_q q' (ca_at (cmt c) i))) i) = q')
        by (intros; by rewrite ca_at_upd, decide_True). simpl length in Hroom.
      destruct w as [r|e], x as [r'|e']; try done; cbn [hand_back is_req set_jump]; rbind; subst c1.
      - eexists. split; [done|]. split; [|split; [done|split; [|split; [done|split; done]]]].
        + eapply rep_frame; [exact Hr1|..]; try done. apply Hr1.
        + split; [exists cap|exists cap']; cbn; [by rewrite Hcmt|]. split; [done|lia].
      - cbn [with_jumps with_cmt wb_retry_q]. destruct (fifo_enqueue_spec _ _ _ (WEntry e') Hw) as (q2 & -> & Hq2); [lia|]. rbind.
        eexists. split; [done|]. split; [|split; [done|split; [|split; [done|split; [cbn; by rewrite app_nil_r|done]]]]].
        + destruct Hr1. constructor; cbn [with_retry with_jumps with_cmt env cmt t_ppa mem_table lru nr_cached_tpages pages wb_retry_q];
            try done. by eauto.
        + split; [exists cap|exists cap']; cbn; [by rewrite Hcmt|]. split; [done|]. rewrite length_app. simpl. lia. }
    rbind. destruct (IH fuel c2 rs M n used i _ Hr2 ltac:(by rewrite Ee2) Hw2 Hk ltac:(lia)) as
      (c' & -> & Hr' & Ee' & Hw' & Ej' & Ea' & Ef' & Eq' & Efl' & Htd' & _).
    exists c'. split; [done|]. split; [done|]. split; [congruence|]. split; [|split; [|split; [|split; [|split; [|split]]]]].
    + destruct (is_req w); [done|]. by rewrite <-app_assoc in Hw'.
    + by rewrite Ej', Ej2.
    + rewrite Ea', Ea2, <-app_assoc. f_equal. by rewrite <-omap_app.
    + intros j. rewrite Ef', Ecm, Ec1. cbn [with_cmt cmt]. rewrite ca_at_upd. case_decide; by subst.
    + intros j Hj. rewrite (Eq' j Hj), Ecm, Ec1. cbn [with_cmt cmt]. by rewrite ca_at_upd, decide_False.
    + by rewrite Efl', Efm, Ec1.
    + split; [|done]. eapply tidy_trans; [|exact Htd']. apply tidy_same; [by rewrite Etm, Ec1|]. intros j. rewrite Ecm, Ec1. cbn [with_cmt cmt].
      rewrite ca_at_upd. by case_decide; subst.
Qed.

Lemma cg_wake_rep c rs M n used i (w : waiter) ws es :
  cg_rep c rs M n used → 0 <= i < nr_valid_tpages (env c) → waiting c i ws es → Forall (same_kind w) ws →
  ∃ c', cg_wake c i (Some w) = Ok c' ∧ cg_rep c' rs M n used ∧ env c' = env c ∧
    is_flying (ca_at (cmt c') i) = false ∧ (∀ j, j ≠ i → is_flying (ca_at (cmt c') j) = is_flying (ca_at (cmt c) j)) ∧
    flying c' = flying c ∧ tidy c c' ∧ (ws = [] → wb_retry_q c' = wb_retry_q c) ∧
    if is_flying (ca_at (cmt c) i) then
      waiting c' i [] (if is_req w then es else es ++ ws) ∧ jumps c' = completed ws (jumps c) ∧
      assigned c' = assigned c ++ omap req_of ws ∧
      (∀ j, j ≠ i → retry_q (ca_at (cmt c') j) = retry_q (ca_at (cmt c) j))
    else c' = c.
Proof.
  intros Hr Hi Hwt Hk. unfold cg_wake. rewrite (get_cmt_Ok _ _ _ _ _ _ Hr Hi). rbind.
  destruct (is_flying (ca_at (cmt c) i)) eqn:Ef; [|exists c; split_and!; try done; apply tidy_refl].
  pose proof Hwt as ((cap & Hq) & cap' & Hw & Hroom). rewrite (fifo_size_spec _ _ _ Hq).
  destruct (upd_cmt_rep c rs M n used i (set_flying false) Hr Hi) as (c1 & -> & Hr1 & Ec1); [done|by eauto|]. rbind.
  destruct (cg_drain_rep w ws (Z.to_nat (Z.of_nat (length ws)) + 1) c1 rs M n used i es Hr1) as
    (c' & E & Hr' & Ee & Hw' & Ej & Ea & Efl & Eq & Efg & Htd & Hwq); [by rewrite Ec1| |done|lia|].
  { subst c1. split; [exists cap|exists cap']; cbn [with_cmt cmt wb_retry_q]; [by rewrite ca_at_upd, decide_True|done]. }
  exists c'. assert (Hfl : is_flying (ca_at (cmt c') i) = false).
  { rewrite Efl, Ec1. cbn [with_cmt cmt]. by rewrite ca_at_upd, decide_True. }
  rewrite Ec1 in Ee, Ej, Ea, Efg. split; [by destruct w|]. do 3 (split; [done|]). split.
  { intros j Hj. rewrite Efl, Ec1. cbn [with_cmt cmt]. by rewrite ca_at_upd, decide_False. }
  split; [done|]. split.
  { eapply tidy_trans; [|exact Htd]. apply tidy_same; [by rewrite Ec1|]. intros j. rewrite Ec1. cbn [with_cmt cmt]. rewrite ca_at_upd. by case_decide; subst. }
  split; [intros ->; by rewrite Hwq, Ec1|]. split; [done|]. split; [done|]. split; [done|]. intros j Hj. rewrite (Eq j Hj), Ec1. cbn [with_cmt cmt]. by rewrite ca_at_upd, decide_False.
Qed.

(** The cached pages after page [i] was listed in a cache of [max] pages. *)
Definition listed (max i : Z) rs : list Z := i :: take (Z.to_nat max - 1) rs.

Lemma cg_list_up_rep c rs M n used lpa (w : waiter) ws es :
  cg_rep c rs M n used → lpa_ok c lpa → IDX lpa ∉ rs → 0 < n → waiting c (IDX lpa) ws es → Forall (same_kind w) ws →
  ∃ rc c', cg_list_up c lpa (Some w) = Ok (rc, c') ∧ env c' = env c ∧
    (∃ n' used', cg_rep c' (listed (max_cached_tpages (env c)) (IDX lpa) rs) M n' used' ∧ n - 1 <= n') ∧
    is_flying (ca_at (cmt c') (IDX lpa)) = false ∧
    (∀ j, j ≠ IDX lpa → retry_q (ca_at (cmt c') j) = retry_q (ca_at (cmt c) j)) ∧
    (∀ j, j ≠ IDX lpa → is_flying (ca_at (cmt c') j) = is_flying (ca_at (cmt c) j)) ∧
    tidy c c' ∧ (∀ j, state (ca_at (cmt c') j) = DIRTY → j ∈ rs → j ∈ take (Z.to_nat (max_cached_tpages (env c)) - 1) rs) ∧
    (ws = [] → wb_retry_q c' = wb_retry_q c) ∧ flying c' = flying c ++ (if rc =? 0 then [] else [(MAPPINGW, Some w)]) ∧
    (∀ x, x ∉ ws → jumps c' !! x = (if rc =? 0 then jumps c else <[w := GOTO_COMPLETE]> (jumps c)) !! x) ∧
    if is_flying (ca_at (cmt c) (IDX lpa)) then
      waiting c' (IDX lpa) [] (if is_req w then es else es ++ ws) ∧ (∀ x, x ∈ ws → jumps c' !! x = Some GOTO_COMPLETE) ∧
      assigned c' = assigned c ++ omap req_of ws
    else waiting c' (IDX lpa) ws es ∧ assigned c' = assigned c.
Proof.
  intros Hr Hl Hnin Hn Hwt Hk. destruct (lpa_place c lpa Hl) as (Hi & _). unfold cg_list_up.
  rewrite (get_cmt_Ok _ _ _ _ _ _ Hr Hi). rbind. pose proof (rep_le _ _ _ _ _ Hr) as Hle. pose proof (rep_max _ _ _ _ _ Hr) as Hmax.
  assert (∃ rc c1, (if cg_is_full c then '(o, l) ← Lru.lru_pop (lru c); v ← deref o;
       cg_evict (with_tpages (nr_cached_tpages c - 1) (with_lru l c)) v (Some w) else Ok (0, c)) = Ok (rc, c1) ∧
    env c1 = env c ∧ (∃ n' used', cg_rep c1 (take (Z.to_nat (max_cached_tpages (env c)) - 1) rs) M n' used' ∧ n - 1 <= n') ∧
    (∀ j, is_flying (ca_at (cmt c1) j) = is_flying (ca_at (cmt c) j) ∧ retry_q (ca_at (cmt c1) j) = retry_q (ca_at (cmt c) j)) ∧
    wb_retry_q c1 = wb_retry_q c ∧ assigned c1 = assigned c ∧ tidy c c1 ∧
    (∀ j, state (ca_at (cmt c1) j) = DIRTY → j ∈ rs → j ∈ take (Z.to_nat (max_cached_tpages (env c)) - 1) rs) ∧
    jumps c1 = (if rc =? 0 then jumps c else <[w := GOTO_COMPLETE]> (jumps c)) ∧
    flying c1 = flying c ++ (if rc =? 0 then [] else [(MAPPINGW, Some w)]))
    as (rc & c1 & -> & Ee & (n' & used' & Hr1 & Hn') & Hsame & Ewq & Eas & Htd1 & Hdt1 & Ej1 & Efl1).
  { assert (Efull : cg_is_full c = bool_decide (max_cached_tpages (env c) <= Z.of_nat (length rs))).
    { unfold cg_is_full. rewrite (rep_nr _ _ _ _ _ Hr). case_bool_decide; lia. }
    rewrite Efull. case_bool_decide.
    - destruct rs as [|v rs _] using rev_ind; [simpl in *; lia|]. rewrite length_app in *. simpl length in *.
      destruct (cg_evict_rep c rs v M n used w Hr Hn) as (l & rc & c1 & El & E1 & _ & Hrep & Ee & Hs & Ew & Ea & Htd & Hcl & Ej & Efl).
      rewrite El. rbind. cbn [deref]. rbind. exists rc, c1.
      rewrite take_app_le, take_ge by lia. split_and!; try done.
      intros j Hd [Hj|Hj%list_elem_of_singleton]%elem_of_app; [done|]. subst j. congruence.
    - exists 0, c. rewrite take_ge by lia. split_and!; try done; [exists n, used; split; [done|lia]|by rewrite app_nil_r]. }
  rbind. destruct (list_rep c1 (take (Z.to_nat (max_cached_tpages (env c)) - 1) rs) (IDX lpa) M n' used' Hr1) as
    (c2 & E2 & Hr2 & Ee2 & Hsame2 & Ewq2 & Eas2 & Ej2 & Efl2 & Htd2); [by rewrite Ee| |rewrite length_take, Ee; lia|].
  { intros Hin. apply Hnin. eapply elem_of_take in Hin as (? & ? & _). by eapply list_elem_of_lookup_2. }
  apply res_bind_Ok in E2 as (d1 & -> & E2). rbind. apply res_bind_Ok in E2 as ([p l] & -> & E2). rbind.
  apply res_bind_Ok in E2 as (d2 & -> & E2). injection E2 as E2. rbind. rewrite E2.
  destruct (Hsame (IDX lpa)) as [Hf1 Hq1]. destruct (Hsame2 (IDX lpa)) as [Hf2 Hq2].
  destruct (cg_wake_rep c2 _ M n' used' (IDX lpa) w ws es Hr2) as (c' & -> & Hr' & Ee' & Hfl & Hflo & Efl' & Htd' & Hwq' & Hwk);
    [by rewrite Ee2, Ee| |done|].
  { unfold waiting. by rewrite Hq2, Hq1, Ewq2, Ewq. }
  rbind. exists rc, c'. split; [done|]. split; [congruence|]. split; [by exists n', used'|]. split; [done|].
  assert (Hsame3 : ∀ j, retry_q (ca_at (cmt c2) j) = retry_q (ca_at (cmt c) j))
    by (intros j; rewrite (proj2 (Hsame2 j)); apply Hsame).
  assert (Hflj : ∀ j, j ≠ IDX lpa → is_flying (ca_at (cmt c') j) = is_flying (ca_at (cmt c) j)).
  { intros j Hj. rewrite (Hflo j Hj), (proj1 (Hsame2 j)). apply Hsame. }
  assert (Htd : tidy c c') by (eapply tidy_trans; [exact Htd1|]; by eapply tidy_trans).
  assert (Hdt : ∀ j, state (ca_at (cmt c') j) = DIRTY → j ∈ rs → j ∈ take (Z.to_nat (max_cached_tpages (env c)) - 1) rs).
  { intros j Hd. apply Hdt1. apply (Htd2 j), (Htd' j), Hd. }
  assert (Hwq : ws = [] → wb_retry_q c' = wb_retry_q c) by (intros ->; rewrite Hwq' by done; congruence).
  assert (Hfly : flying c' = flying c ++ (if rc =? 0 then [] else [(MAPPINGW, Some w)])) by congruence.
  rewrite Hf2, Hf1 in Hwk. destruct (is_flying (ca_at (cmt c) (IDX lpa))).
  2: { subst c'. split; [by auto|]. do 5 (split; [done|]). split; [intros x _; by rewrite Ej2, Ej1|].
       split; [|congruence]. unfold waiting. by rewrite Hq2, Hq1, Ewq2, Ewq. }
  destruct Hwk as (Hw' & Ej & Ea & Eq). split; [intros j Hj; by rewrite (Eq j Hj)|]. do 5 (split; [done|]).
  split; [intros x Hx; by rewrite Ej, completed_other, Ej2, Ej1|]. split; [done|]. split; [|congruence].
  rewrite Ej. clear. generalize (jumps c2). unfold completed. induction ws as [|y ws IH] using rev_ind; intros j x Hx; [by apply elem_of_nil in Hx|].
  rewrite foldl_app. cbn. apply elem_of_app in Hx as [Hx|Hx%list_elem_of_singleton].
  - destruct (decide (y = x)) as [->|]; [by rewrite lookup_insert_eq|]. rewrite lookup_insert_ne by done. by apply IH.
  - subst. by rewrite lookup_insert_eq.
Qed.

(** *** Creation *)

Lemma init_cmts_spec fine wb n : ∀ i (a : carray (cmt_struct Qw)), 0 <= i → i + Z.of_nat n <= ca_len a →
  ∃ a', init_cmts n wb i fine a = Ok a' ∧ ca_len a' = ca_len a ∧
    ∀ j, ca_at a' j = if decide (i <= j < i + Z.of_nat n) then new_cmt wb j fine else ca_at a j.
Proof.
  induction n as [|n IH]; intros i a Hi Hn; cbn [init_cmts].
  - exists a. split_and!; [done..|]. intros j. by rewrite decide_False by lia.
  - rewrite ca_set_in by lia. rbind. destruct (IH (i + 1) (ca_upd a i (new_cmt wb i fine))) as (a' & -> & El & Ea);
      [lia|rewrite ca_len_upd; lia|]. exists a'. split_and!; [done|done|]. intros j. rewrite Ea, ca_at_upd.
    repeat case_decide; subst; first [done|lia].
Qed.

(** No one waits. *)
Definition idle c : Prop :=
  (∀ i, 0 <= i < nr_valid_tpages (env c) → ∃ cap, fifo_repr (retry_q (ca_at (cmt c) i)) cap []) ∧
  ∃ cap, fifo_repr (wb_retry_q c) cap [].

Lemma idle_quiet c c' : quiet c c' → idle c → idle c'.
Proof. intros (Ee & Eq & Ew) [H1 H2]. split; rewrite ?Ee, ?Ew; [|done]. intros i Hi. rewrite Eq. auto. Qed.

Lemma cg_member_init_rep e wb p n :
  0 <= nr_valid_tpages e < 2 ^ 31 → 0 < max_cached_tpages e → 0 <= wb → pg_inv p n ∅ →
  ∃ c, cg_member_init e wb p = Ok c ∧ env c = e ∧ cg_rep c [] (λ _, UINT32_MAX) n ∅ ∧ idle c ∧
    (∀ i, 0 <= i < nr_valid_tpages e → retry_q (ca_at (cmt c) i) = fifo_init wb) ∧ wb_retry_q c = fifo_init wb.
Proof.
  intros Hn Hm Hwb Hp. unfold cg_member_init.
  destruct (init_cmts_spec false wb (Z.to_nat (nr_valid_tpages e)) 0
    (ca_new (nr_valid_tpages e) (new_cmt wb 0 false))) as (a & -> & El & Ea); [lia|simpl; lia|]. rbind.
  assert (Hat : ∀ i, 0 <= i < nr_valid_tpages e → ca_at a i = new_cmt wb i false)
    by (intros i Hi; rewrite Ea; by rewrite decide_True by lia).
  eexists. split; [done|]. split; [done|]. split; [|split].
  - constructor; cbn [env cmt t_ppa mem_table lru nr_cached_tpages pages wb_retry_q]; try done; try lia.
    + intros i Hi. rewrite ca_at_new, (Hat i Hi). done.
    + constructor.
    + intros i Hi. by apply elem_of_nil in Hi.
    + simpl. lia.
    + exists []. split_and!; [done|apply Lru.lru_init_repr|]. intros i b Hi. rewrite (Hat i Hi), elem_of_nil. done.
    + intros i Hi. by rewrite (Hat i Hi).
    + intros i Hi. left. apply ca_at_new.
    + intros i Hi. rewrite (Hat i Hi). exists wb, []. by apply fifo_init_spec.
    + exists wb, []. by apply fifo_init_spec.
  - split; cbn [env cmt wb_retry_q]; [intros i Hi; rewrite (Hat i Hi)|]; exists wb; by apply fifo_init_spec.
  - split; [|done]. intros i Hi. cbn [cmt]. by rewrite (Hat i Hi).
Qed.

Lemma cg_member_init_blank e wb (p : P) c : cg_member_init e wb p = Ok c → 0 <= nr_valid_tpages e →
  (∀ i, state (ca_at (cmt c) i) = CLEAN ∧ is_flying (ca_at (cmt c) i) = false) ∧
  jumps c = ∅ ∧ flying c = [] ∧ assigned c = [] ∧ pages c = p.
Proof.
  intros E Hn. unfold cg_member_init in E. destruct (init_cmts_spec false wb (Z.to_nat (nr_valid_tpages e)) 0
    (ca_new (nr_valid_tpages e) (new_cmt (Qw:=Qw) wb 0 false))) as (a & E1 & _ & Ea); [lia|simpl; lia|].
  rewrite E1 in E. injection E as <-. split; [|done]. intros i. cbn [cmt]. rewrite Ea, ca_at_new. by case_decide.
Qed.

(** *** Runs *)

(** An access through the cache: a hit touches the page; on a miss its page is
    read from the device and listed before the next operation. *)
Definition cg_access c (lpa : Z) (w : waiter) : res (bool * cache P Qw) :=
  '(h, c) ← cg_is_hit c lpa;
  if h : bool then c ← cg_touch c lpa; Ok (h, c)
  else '(_, c) ← cg_load c lpa (Some w); '(_, c) ← cg_list_up c lpa (Some w); Ok (h, c).

Inductive cop := Access (lpa : Z) (w : waiter) | GetPte (lpa : Z) | Update (lpa x : Z).
Definition cop_lpa (o : cop) : Z := match o with Access l _ => l | GetPte l => l | Update l _ => l end.

Definition cstep (o : cop) c : res (Z * cache P Qw) :=
  match o with
  | Access lpa w => '(h, c) ← cg_access c lpa w; Ok (Z.b2z h, c)
  | GetPte lpa => x ← cg_get_pte c lpa; Ok (x, c)
  | Update lpa x => c ← cg_update c lpa x; Ok (0, c)
  end.
Fixpoint crun (os : list cop) c : res (list Z * cache P Qw) :=
  match os with
  | [] => Ok ([], c)
  | o :: os => '(x, c) ← cstep o c; '(xs, c) ← crun os c; Ok (x :: xs, c)
  end.

(** The specification: the table, and the pages in the order of their last use. *)
Definition astep (max : Z) (o : cop) rs M : Z * list Z * (Z → Z) :=
  match o with
  | Access lpa _ =>
    if decide (IDX lpa ∈ rs) then (1, to_front (IDX lpa) rs, M) else (0, listed max (IDX lpa) rs, M)
  | GetPte lpa => (M lpa, rs, M)
  | Update lpa x => (0, to_front (IDX lpa) rs, <[lpa := x]> M)
  end.
Fixpoint arun (max : Z) (os : list cop) rs M : list Z * list Z :=
  match os with
  | [] => ([], rs)
  | o :: os => let '(x, rs, M) := astep max o rs M in let '(xs, rs) := arun max os rs M in (x :: xs, rs)
  end.

Lemma cg_access_rep c rs M n used lpa (w : waiter) :
  cg_rep c rs M n used → idle c → lpa_ok c lpa → 0 < n →
  ∃ c' n' used', cg_access c lpa w = Ok (bool_decide (IDX lpa ∈ rs), c') ∧ n - 1 <= n' ∧ env c' = env c ∧ idle c' ∧
    cg_rep c' (if decide (IDX lpa ∈ rs) then to_front (IDX lpa) rs else listed (max_cached_tpages (env c)) (IDX lpa) rs) M n' used'.
Proof.
  intros Hr Hid Hl Hn. unfold cg_access. destruct (cg_is_hit_Ok c rs M n used lpa Hr Hl) as (c1 & -> & Hr1 & Hq1). rbind.
  apply (idle_quiet c c1 Hq1) in Hid. destruct Hq1 as (Ee1 & _).
  assert (Hl1 : lpa_ok c1 lpa) by (unfold lpa_ok; by rewrite Ee1).
  rewrite <-decide_bool_decide. case_decide as Hin.
  - destruct (cg_touch_rep c1 rs M n used lpa Hr1 Hl1) as (c2 & -> & Hr2 & Hq2). rbind.
    exists c2, n, used. split_and!; [done|lia|rewrite <-Ee1; apply Hq2|by eapply idle_quiet|done].
  - destruct (cg_load_rep c1 rs M n used lpa w Hr1 Hl1) as (c2 & -> & Hr2 & Hq2). rbind.
    apply (idle_quiet c1 c2 Hq2) in Hid. destruct Hq2 as (Ee2 & _).
    assert (Hl2 : lpa_ok c2 lpa) by (unfold lpa_ok; by rewrite Ee2).
    destruct (lpa_place c2 lpa Hl2) as (Hi & _). destruct Hid as [Hid (cap & Hwq)].
    assert (Hwt : waiting c2 (IDX lpa) [] []).
    { split; [by apply Hid|]. exists cap. split; [done|]. apply fifo_cap in Hwq. done. }
    destruct (cg_list_up_rep c2 rs M n used lpa w [] [] Hr2 Hl2 Hin Hn Hwt (Forall_nil_2 _)) as
      (rc & c3 & -> & Ee3 & (n' & used' & Hr3 & Hn') & _ & Hother & _ & _ & _ & _ & _ & _ & Hwt3). rbind.
    exists c3, n', used'. rewrite Ee2, Ee1 in Hr3. split_and!; [done|done|congruence| |done].
    assert (Hw3 : waiting c3 (IDX lpa) [] []) by (destruct (is_flying _), w; naive_solver).
    destruct Hw3 as [(cap1 & Hq) (cap2 & Hw & _)]. split; [|by eauto]. intros i Hi3. rewrite Ee3 in Hi3.
    destruct (decide (i = IDX lpa)) as [->|Hne]; [by eauto|]. rewrite (Hother i Hne). by apply Hid.
Qed.

Lemma crun_rep os : ∀ c rs M n used,
  cg_rep c rs M n used → idle c → Forall (λ o, lpa_ok c (cop_lpa o)) os → Z.of_nat (length os) <= n →
  ∃ c' M' n' used', crun os c = Ok ((arun (max_cached_tpages (env c)) os rs M).1, c') ∧
    cg_rep c' (arun (max_cached_tpages (env c)) os rs M).2 M' n' used' ∧ env c' = env c.
Proof.
  induction os as [|o os IH]; intros c rs M n used Hr Hid Hall Hn; cbn [crun arun].
  - exists c, M, n, used. done.
  - apply Forall_cons in Hall as [Hl Hall]. simpl length in Hn.
    assert (∃ c1 n1 used1, cstep o c = Ok ((astep (max_cached_tpages (env c)) o rs M).1.1, c1) ∧ n - 1 <= n1 ∧
      env c1 = env c ∧ idle c1 ∧ cg_rep c1 (astep (max_cached_tpages (env c)) o rs M).1.2
        (astep (max_cached_tpages (env c)) o rs M).2 n1 used1) as (c1 & n1 & used1 & -> & Hn1 & Ee1 & Hid1 & Hr1).
    { destruct o as [lpa w|lpa|lpa x]; cbn [cstep astep cop_lpa] in *.
      - destruct (cg_access_rep c rs M n used lpa w Hr Hid Hl ltac:(lia)) as (c1 & n1 & used1 & -> & Hn1 & Ee & Hid1 & Hr1).
        rbind. exists c1, n1, used1. case_decide; [rewrite bool_decide_true by done|rewrite bool_decide_false by done]; done.
      - rewrite (cg_get_pte_Ok c rs M n used lpa Hr Hl). rbind. exists c, n, used. split_and!; first [done|lia].
      - destruct (cg_update_rep c rs M n used lpa x Hr Hl) as (c1 & -> & Hr1 & Hq). rbind. exists c1, n, used.
        split_and!; [done|lia|apply Hq|by eapply idle_quiet|done]. }
    rbind. destruct (astep (max_cached_tpages (env c)) o rs M) as [[x rs1] M1]. cbn [fst snd] in *.
    destruct (IH c1 rs1 M1 n1 used1 Hr1 Hid1) as (c' & M' & n' & used' & -> & Hr' & Ee'); [|lia|].
    { eapply Forall_impl; [exact Hall|]. intros o' Ho'. unfold lpa_ok. by rewrite Ee1. }
    rbind. rewrite Ee1 in Hr' |- *. exists c', M', n', used'.
    destruct (arun (max_cached_tpages (env c)) os rs1 M1) as [xs rs']. split_and!; [done|done|congruence].
Qed.

(** *** Waiting *)

(** Several waiters ask for a page on its way. *)
Fixpoint cg_wait_all c (lpa : Z) (ws : list waiter) : res (list Z * cache P Qw) :=
  match ws with
  | [] => Ok ([], c)
  | w :: ws => '(x, c) ← cg_wait_if_flying c lpa (Some w); '(xs, c) ← cg_wait_all c lpa ws; Ok (x :: xs, c)
  end.

Lemma cg_wait_rep ws : ∀ c rs M n used lpa cap ws0,
  cg_rep c rs M n used → lpa_ok c lpa → is_flying (ca_at (cmt c) (IDX lpa)) = true →
  fifo_repr (retry_q (ca_at (cmt c) (IDX lpa))) cap ws0 → Z.of_nat (length ws0 + length ws) <= cap →
  ∃ c', cg_wait_all c lpa ws = Ok (replicate (length ws) 1, c') ∧ cg_rep c' rs M n used ∧ env c' = env c ∧
    is_flying (ca_at (cmt c') (IDX lpa)) = true ∧ fifo_repr (retry_q (ca_at (cmt c') (IDX lpa))) cap (ws0 ++ ws) ∧
    wb_retry_q c' = wb_retry_q c ∧ assigned c' = assigned c.
Proof.
  induction ws as [|w ws IH]; intros c rs M n used lpa cap ws0 Hr Hl Hf Hq Hcap; cbn [cg_wait_all].
  - exists c. rewrite app_nil_r. done.
  - simpl length in Hcap. destruct (lpa_place c lpa Hl) as (Hi & _). unfold cg_wait_if_flying at 1.
    rewrite (get_cmt_Ok _ _ _ _ _ _ Hr Hi). rbind. rewrite Hf.
    destruct (fifo_enqueue_spec _ _ _ w Hq) as (q & -> & Hq'); [lia|]. rbind.
    set (c1 := with_stat _ c). assert (Hr1 : cg_rep c1 rs M n used) by (eapply rep_frame; [exact Hr|..]; try done; apply Hr).
    destruct (upd_cmt_rep c1 rs M n used (IDX lpa) (set_retry_q q) Hr1 Hi) as (c2 & -> & Hr2 & Ec2); [done|by eauto|]. rbind.
    destruct (IH c2 rs M n used lpa cap (ws0 ++ [w])) as (c' & -> & Hr' & Ee & Hf' & Hq2 & Ew & Ea);
      [done|by rewrite Ec2|by rewrite Ec2; cbn [with_cmt cmt]; rewrite ca_at_upd, decide_True
      |by rewrite Ec2; cbn [with_cmt cmt]; rewrite ca_at_upd, decide_True|rewrite length_app; simpl; lia|].
    rbind. exists c'. rewrite Ec2 in Ee, Ew, Ea. rewrite <-app_assoc in Hq2. done.
Qed.

End coarse.

(** ** The fine-grained cache *)

Section fine.
Context {P Qw : Type} `{!Pages P} `{!FIFO waiter Qw}.
Implicit Types (c : cache P Qw).

(** The arrays have their sizes. *)
Record fg_shape c : Prop := FgShape {
  shape_cmt : ca_len (cmt c) = nr_valid_tpages (env c);
  shape_mem : ca_len (mem_table c) = nr_valid_tpages (env c);
  shape_row i : 0 <= i < nr_valid_tpages (env c) →
    ca_len (ca_at (mem_table c) i) = EPP ∧ ca_len (is_cached (ca_at (cmt c) i)) = EPP }.

(** The entry of [lpa] is marked as cached. *)
Definition marked c (lpa : Z) : bool := ca_at (is_cached (ca_at (cmt c) (IDX lpa))) (OFFSET lpa).

Lemma fg_is_hit_Ok c lpa : fg_shape c → lpa_ok c lpa → fg_is_hit c lpa = Ok (marked c lpa, count_hit c (marked c lpa)).
Proof.
  intros [] Hl. destruct (lpa_place c lpa Hl) as (Hi & Ho & _). unfold fg_is_hit, entry_cached, get_cmt.
  rewrite ca_get_in by lia. rbind. rewrite ca_get_in by (rewrite (proj2 (shape_row0 _ Hi)); done). done.
Qed.

Lemma fg_update_Ok c lpa x :
  fg_shape c → lpa_ok c lpa →
  ∃ c', fg_update c lpa x = Ok c' ∧ fg_shape c' ∧ env c' = env c ∧ nr_cached_tentries c' = nr_cached_tentries c ∧
    (marked c lpa = false →
      cached_cnt (ca_at (cmt c') (IDX lpa)) = u32 (cached_cnt (ca_at (cmt c) (IDX lpa)) + 1)) ∧
    ∀ l, lpa_ok c l → marked c' l = bool_decide (l = lpa) || marked c l.
Proof.
  intros [] Hl. destruct (lpa_place c lpa Hl) as (Hi & Ho & E). destruct (shape_row0 _ Hi) as [Hrow Hcache].
  unfold fg_update, set_entry, get_cmt. rewrite !ca_get_in by lia. rbind. rewrite ca_set_in by lia. rbind.
  rewrite ca_set_in by lia. rbind. rewrite ca_get_in by lia. rbind. cbn [with_table env cmt].
  assert (Hplace : ∀ l, lpa_ok c l → l ≠ lpa → IDX l = IDX lpa → OFFSET l ≠ OFFSET lpa).
  { intros l Hl' Hne E1 E2. apply Hne. destruct (lpa_place c l Hl') as (_ & _ & E'). congruence. }
  destruct (ca_at (is_cached (ca_at (cmt c) (IDX lpa))) (OFFSET lpa)) eqn:Eb; fold (marked c lpa) in Eb.
  - rewrite upd_cmt_Ok by (cbn [with_table cmt env]; done). eexists. split; [done|].
    cbn [with_table with_cmt env cmt nr_cached_tentries mem_table].
    split; [constructor; cbn [with_table with_cmt env cmt mem_table]; try done|].
    { intros i Hi'. rewrite !ca_at_upd. destruct (shape_row0 i Hi'). repeat case_decide; subst; done. }
    do 2 (split; [done|]). split; [congruence|]. intros l Hl'. unfold marked. cbn [with_table with_cmt env cmt]. rewrite ca_at_upd.
    case_bool_decide as El; [subst l; by rewrite decide_True|]. cbn [orb]. case_decide as Ei; [|done]. by rewrite <-Ei.
  - unfold mark_cached, get_cmt. cbn [with_table cmt]. rewrite ca_get_in by lia. rbind. rewrite ca_set_in by lia. rbind.
    rewrite upd_cmt_Ok by (cbn [with_table cmt env]; done). eexists. split; [done|].
    cbn [with_table with_cmt env cmt nr_cached_tentries mem_table].
    split; [constructor; cbn [with_table with_cmt env cmt mem_table]; try done|].
    { intros i Hi'. rewrite !ca_at_upd. destruct (shape_row0 i Hi'). repeat case_decide; subst; done. }
    do 2 (split; [done|]). split; [by rewrite ca_at_upd, decide_True|].
    intros l Hl'. unfold marked. cbn [with_table with_cmt env cmt]. rewrite ca_at_upd. case_bool_decide as El.
    + subst l. rewrite decide_True by done. cbn. by rewrite ca_at_upd, decide_True.
    + cbn [orb]. case_decide as Ei; [|done]. cbn. rewrite ca_at_upd, decide_False; [by rewrite <-Ei|]. intros E2.
      by apply (Hplace l Hl' El).
Qed.

(** Updates of several entries. *)
Fixpoint fg_updates c (us : list (Z * Z)) : res (cache P Qw) :=
  match us with [] => Ok c | (lpa, x) :: us => c ← fg_update c lpa x; fg_updates c us end.

Lemma fg_updates_Ok us : ∀ c,
  fg_shape c → Forall (λ u, lpa_ok c u.1) us →
  ∃ c', fg_updates c us = Ok c' ∧ fg_shape c' ∧ env c' = env c ∧ nr_cached_tentries c' = nr_cached_tentries c ∧
    ∀ l, lpa_ok c l → marked c' l = bool_decide (l ∈ us.*1) || marked c l.
Proof.
  induction us as [|[lpa x] us IH]; intros c Hs Hus; cbn [fg_updates].
  - exists c. split_and!; try done.
  - apply Forall_cons in Hus as [Hl Hus]. destruct (fg_update_Ok c lpa x Hs Hl) as (c1 & -> & Hs1 & Ee & En & _ & Hm). rbind.
    destruct (IH c1 Hs1) as (c' & -> & Hs' & Ee' & En' & Hm').
    { eapply Forall_impl; [exact Hus|]. intros u Hu. unfold lpa_ok. by rewrite Ee. }
    exists c'. split_and!; [done|done|congruence|congruence|]. intros l Hl'. rewrite (Hm' l), (Hm l Hl') by (unfold lpa_ok; by rewrite Ee).
    rewrite orb_assoc. f_equal. apply eq_bool_prop_intro. rewrite orb_True, !bool_decide_spec. csimpl. rewrite elem_of_cons. tauto.
Qed.

Lemma fg_push_all_shape n : ∀ i c, fg_shape c → 0 <= i → i + Z.of_nat n <= nr_valid_tpages (env c) →
  (∃ R, Lru.lru_repr (lru c) R) →
  ∃ c', fg_push_all n i c = Ok c' ∧ fg_shape c' ∧ env c' = env c ∧ nr_cached_tentries c' = nr_cached_tentries c.
Proof.
  induction n as [|n IH]; intros i c Hs Hi Hn (R & HR); cbn [fg_push_all]; [by exists c|].
  destruct (Lru.lru_push_repr (lru c) R i HR) as (a & l & -> & _ & HR'). rbind. pose proof Hs as [].
  rewrite upd_cmt_Ok by (cbn [with_lru cmt env]; lia). rbind. cbn [with_lru cmt].
  edestruct (IH (i + 1)) as (c' & -> & Hs' & Ee & En); [|lia|cbn; lia|cbn; by eauto|exists c'; done].
  constructor; cbn [with_lru with_cmt env cmt mem_table]; try done. intros j Hj. rewrite ca_at_upd.
  case_decide; [subst|]; by apply shape_row0.
Qed.

Lemma fg_member_init_shape e wb p : 0 <= nr_valid_tpages e →
  ∃ c, fg_member_init e wb p = Ok c ∧ fg_shape c ∧ env c = e ∧ nr_cached_tentries c = 0.
Proof.
  intros Hn. unfold fg_member_init.
  destruct (init_cmts_spec true wb (Z.to_nat (nr_valid_tpages e)) 0
    (ca_new (nr_valid_tpages e) (new_cmt wb 0 true))) as (a & -> & El & Ea); [lia|simpl; lia|]. rbind.
  edestruct (fg_push_all_shape (Z.to_nat (nr_valid_tpages e)) 0) as (c & -> & Hs & Ee & En);
    [|lia|cbn; lia|cbn; exists []; apply Lru.lru_init_repr|by eauto].
  constructor; cbn [env cmt mem_table]; try done. intros i Hi. by rewrite ca_at_new, Ea, decide_True by lia.
Qed.

End fine.

(** ** Properties *)

(** The simplest pages: they are numbered from 0 and never reclaimed. *)
Record flat_pages := Flat { flat_next : Z }.
#[export] Instance flat_pages_ops : Pages flat_pages := {|
  pg_get_tpage p ts := if flat_next p <? 1048576 then Ok (flat_next p, Flat (flat_next p + 1), ts) else Err Aborted;
  pg_invalidate_map ppa p := Ok (1, p);
  pg_set_oob_map i ppa p := Ok p;
  pg_read ty ppa p := if ppa <? flat_next p then Ok p else Err Undefined;
  pg_write ty ppa p := if ppa <? flat_next p then Ok p else Err Undefined |}.

#[export] Program Instance flat_pages_ok : PagesOk flat_pages := {|
  pg_inv p n used := 0 <= flat_next p ∧ n = 1048576 - flat_next p ∧ ∀ ppa, ppa ∈ used → 0 <= ppa < flat_next p |}.
Next Obligation.
  intros [k] n used ts (Hk & Hn & Hu) Hpos. cbn in *. exists k, (Flat (k + 1)).
  rewrite (proj2 (Z.ltb_lt k 1048576)) by lia. split; [done|]. split; [intros H; apply Hu in H; lia|].
  split; [change UINT32_MAX with 4294967295; lia|]. exists (Flat (k + 1)).
  split; [cbn; by rewrite (proj2 (Z.ltb_lt k (k + 1))) by lia|]. intros i Hi. eexists. split; [done|]. cbn.
  split; [lia|]. split; [lia|]. intros q [->%elem_of_singleton|Hq]%elem_of_union; [lia|]. apply Hu in Hq. lia.
Qed.
Next Obligation. intros p n used ppa Hi Hin. by exists 1, p. Qed.
Next Obligation.
  intros [k] n used ty ppa (Hk & Hn & Hu) Hin. pose proof (Hu ppa Hin). cbn in *. exists (Flat k).
  by rewrite (proj2 (Z.ltb_lt ppa k)) by lia.
Qed.

Lemma env_range `{Sg : Settings, !SettingsOk Sg} dvalue nr_pages m :
  0 <= nr_pages <= _NOP → 0 <= nr_valid_tpages (env_init dvalue nr_pages m) < 2 ^ 31 ∧
    0 < max_cached_tpages (env_init dvalue nr_pages m).
Proof.
  intros Hp. pose proof GIGAUNIT_range as Hg. rewrite NOP_eq in Hp.
  cbn [env_init nr_valid_tpages max_cached_tpages]. unfold PFTLMEMORY, TOTALSIZE. change EPP with 2048. change PAGESIZE with 8192.
  change (GRAIN_PER_PAGE / 2) with 8. change (2 ^ 31) with 2147483648. change G with (1024 * 8192 * 128). change K with 1024.
  split; [destruct (nr_pages mod 2048 =? 0), dvalue; Z.to_euclidean_division_equations; lia|].
  rewrite Z.div_div by lia. apply Z.div_str_pos. lia.
Qed.

(** C8: The coarse-grained cache is the mapping table with an LRU list of bounded
    length: any sequence of accesses, lookups and updates on a new cache runs to
    the end when the page layer can hand out one translation page per operation;
    each access hits exactly when its translation page is among the last
    [max_cached_tpages] used ones, each lookup returns the last update of its
    entry (also across evictions and reloads), and at the end the cached pages are
    those of the specification, at most [max_cached_tpages]. *)
Theorem coarse_cache_is_an_lru_table `{Sg : Settings, !SettingsOk Sg} {P Qw : Type} `{!Pages P} `{!FIFO waiter Qw}
    `{!PagesOk P} (dvalue : bool) (nr_pages wb : Z) (p : P) (n : Z) (os : list cop) :
  0 <= nr_pages <= _NOP → 0 <= wb → pg_inv p n ∅ → Z.of_nat (length os) <= n →
  Forall (λ o, 0 <= cop_lpa o < nr_valid_tpages (cg_env_init dvalue nr_pages) * EPP) os →
  let max := max_cached_tpages (cg_env_init dvalue nr_pages) in
  ∃ c c', cg_create (Qw:=Qw) dvalue nr_pages wb p = Ok c ∧
    crun os c = Ok ((arun max os [] (λ _, UINT32_MAX)).1, c') ∧
    (∀ i, 0 <= i < nr_valid_tpages (env c') →
      pt (ca_at (cmt c') i) = bool_decide (i ∈ (arun max os [] (λ _, UINT32_MAX)).2)) ∧
    nr_cached_tpages c' = Z.of_nat (length (arun max os [] (λ _, UINT32_MAX)).2) ∧ nr_cached_tpages c' <= max.
Proof.
  intros Hp Hwb Hinv Hn Hos max. destruct (env_range dvalue nr_pages 0 Hp) as [Hv Hm].
  destruct (cg_member_init_rep (cg_env_init dvalue nr_pages) wb p n Hv Hm Hwb Hinv) as (c & Ec & Ee & Hr & Hid & _).
  destruct (crun_rep os c [] (λ _, UINT32_MAX) n ∅ Hr Hid) as (c' & M' & n' & used' & E & Hr' & Ee'); [|done|].
  { eapply Forall_impl; [exact Hos|]. intros o Ho. unfold lpa_ok. by rewrite Ee. }
  exists c, c'. rewrite Ee in E, Hr'. split; [done|]. split; [done|]. split; [apply Hr'|]. split; [apply Hr'|].
  rewrite (rep_nr _ _ _ _ _ Hr'). pose proof (rep_le _ _ _ _ _ Hr') as Hle. by rewrite Ee', Ee in Hle.
Qed.

Lemma coarse_cache_is_an_lru_table_witness :
  let os := [Access 5 (WReq 1%positive); Update 5 77; Access 5000 (WReq 2%positive); GetPte 5; Access 5 (WReq 3%positive); GetPte 6] in
  ∃ c c', cg_create (H:=settings_1) (Qw:=Queue.queue waiter) false 8192 8 (Flat 0) = Ok c ∧
    crun os c = Ok ([0; 0; 0; 77; 1; UINT32_MAX], c').
Proof.
  intros os. destruct (coarse_cache_is_an_lru_table (Sg:=settings_1) (Qw:=Queue.queue waiter) false 8192 8 (Flat 0) 1048576 os)
    as (c & c' & Ec & E & _).
  - rewrite NOP_eq. vm_compute. intuition discriminate.
  - lia.
  - split_and!; [done|done|]. intros q Hq. by apply elem_of_empty in Hq.
  - vm_compute. discriminate.
  - repeat constructor; vm_compute; discriminate.
  - exists c, c'. split; [exact Ec|]. exact E.
Defined.



(** C33: The fine-grained cache does not count the entries that [fg_update] adds:
    any number of updates leaves [nr_cached_tentries] as it was although every
    updated entry is a hit afterwards, so the cache never becomes full by them and
    holds more entries than [max_cached_tentries]; a single update of an entry that
    was not cached adds one to the page's [cached_cnt], which a later eviction
    subtracts from the total. *)
Theorem fine_cache_does_not_count_updates {P Qw : Type} `{!Pages P} `{!FIFO waiter Qw} (c : cache P Qw)
    (lpa x : Z) (us : list (Z * Z)) :
  fg_shape c → lpa_ok c lpa → Forall (λ u, lpa_ok c u.1) us →
  (∃ c', fg_updates c us = Ok c' ∧ nr_cached_tentries c' = nr_cached_tentries c ∧ fg_is_full c' = fg_is_full c ∧
    ∀ l, l ∈ us.*1 → ∃ c'', fg_is_hit c' l = Ok (true, c'')) ∧
  (marked c lpa = false → ∃ c', fg_update c lpa x = Ok c' ∧ nr_cached_tentries c' = nr_cached_tentries c ∧
    cached_cnt (ca_at (cmt c') (IDX lpa)) = u32 (cached_cnt (ca_at (cmt c) (IDX lpa)) + 1)).
Proof.
  intros Hs Hl Hus. split.
  - destruct (fg_updates_Ok us c Hs Hus) as (c' & E & Hs' & Ee & En & Hm). exists c'. unfold fg_is_full. rewrite Ee, En.
    split_and!; try done. intros l Hin. assert (Hok : lpa_ok c l).
    { apply list_elem_of_fmap in Hin as (u & -> & Hu). by apply (proj1 (Forall_forall _ _) Hus). }
    eexists. rewrite fg_is_hit_Ok by (first [done|unfold lpa_ok; by rewrite Ee]). rewrite (Hm l Hok).
    rewrite bool_decide_true by done. done.
  - intros Hm. destruct (fg_update_Ok c lpa x Hs Hl) as (c' & E & _ & _ & En & Hc & _). exists c'. split_and!; auto.
Qed.

Lemma fine_cache_does_not_count_updates_witness :
  ∃ (c c' : cache flat_pages (Queue.queue waiter)),
    fg_create (H:=settings_1) false 8192 8 (Flat 0) = Ok c ∧
    fg_updates c [(5, 1); (5000, 2); (6, 3)] = Ok c' ∧ nr_cached_tentries c' = 0.
Proof.
  destruct (fg_member_init_shape (Qw:=Queue.queue waiter) (fg_env_init (H:=settings_1) false 8192) 8 (Flat 0)) as
    (c & E & Hs & Ee & En); [by vm_compute|].
  assert (Hok : ∀ l, 0 <= l < 8192 → lpa_ok c l).
  { intros l Hl. unfold lpa_ok. rewrite Ee. change (nr_valid_tpages _ * EPP) with 8192. done. }
  destruct (fine_cache_does_not_count_updates c 5 1 [(5, 1); (5000, 2); (6, 3)] Hs) as [(c' & E' & En' & _) _].
  - apply Hok. lia.
  - repeat constructor; apply Hok; cbn; lia.
  - exists c, c'. split; [exact E|]. split; [exact E'|]. congruence.
Defined.

End DemandCache.
