(* ===== verification/Skiplist.v ===== *)
(** * The skip list (algorithm/Lsmtree/skiplist.c)

    The memtable of the LSM-tree and the write buffer of the demand-paged FTL are
    skip lists of keys. A node of level [n] is linked on the levels 1 to [n]; the
    header, whose key is larger than all others, closes every level to a cycle.

    The nodes live in a [store]; the random numbers that [getLevel] draws are a
    parameter. Values that [malloc] leaves indeterminate are [None]. The storage of
    keys and value sets, which the list frees, is not modelled; keys are compared
    through the laws of the class [KeyOrder]. *)
From Stdlib Require Import Sorting.Sorted.
From S2P Require Export Prelude Settings Queue.

Local Open Scope Z_scope.

Module Skiplist.

(** ** Data *)

Definition MAX_L : nat := 30.
Definition PROB : Z := 4.
Definition MAXKEYSIZE : Z := 255.
Definition key_max : str_key := Key MAXKEYSIZE (replicate (Z.to_nat MAXKEYSIZE) 255).

(** [KEYLEN(a)]: the key and a [ppa_t]. *)
Definition KEYLEN (a : str_key) : Z := len a + 4.

(** What the list uses of a [value_set]. *)
Record vset := VSet { vlength : Z; bytes : list Z }.

Record snode := SNode {
  ppa : option Z; skey : str_key; slevel : nat; value : option vset; isvalid : option bool;
  links : list (option loc); back : option loc }.

(** The heap, the number of draws of [rand()] so far, and the pages that were
    invalidated. *)
Record store := Store { nodes : gmap loc snode; draws : nat; invalidated : list Z }.

Record skiplist := Skl { level : nat; size : Z; all_length : Z; data_size : Z; header : loc }.

Definition set_links l n := SNode (ppa n) (skey n) (slevel n) (value n) (isvalid n) l (back n).
Definition set_back b n := SNode (ppa n) (skey n) (slevel n) (value n) (isvalid n) (links n) b.
Definition set_data p v b n := SNode p (skey n) (slevel n) v b (links n) (back n).

Definition with_nodes m h := Store m (draws h) (invalidated h).
Definition set_level l s := Skl l (size s) (all_length s) (data_size s) (header s).

(** ** Access *)

Definition node (h : store) (a : loc) : res snode := deref (nodes h !! a).
Definition upd_node (h : store) (a : loc) (f : snode → snode) : res store :=
  n ← node h a; Ok (with_nodes (<[a := f n]> (nodes h)) h).

(** [a->list[i]] as it is, for reading, and for writing within the array. *)
Definition nxt (h : store) (a : loc) (i : nat) : option loc := n ← nodes h !! a; mjoin (links n !! i).
Definition get_link (h : store) (a : loc) (i : nat) : res loc := deref (nxt h a i).
Definition set_link (h : store) (a : loc) (i : nat) (b : loc) : res store :=
  n ← node h a;
  if (i <? length (links n))%nat then Ok (with_nodes (<[a := set_links (<[i := Some b]> (links n)) n]> (nodes h)) h)
  else Err Undefined.

Section ops.
Variable rand : nat → Z.

(** [skiplist_init]; [junk] is what [malloc] left in [data_size]. *)
Definition header_links (a : loc) : list (option loc) := replicate MAX_L (Some a) ++ [None].
Definition skiplist_init (h : store) (junk : Z) : skiplist * store :=
  let a := malloc (nodes h) in
  (Skl 1 0 0 junk a,
   with_nodes (<[a := SNode None key_max 0 None None (header_links a) (Some a)]> (nodes h)) h).

(** ** Searching *)

(** [while(test(KEYCMP(x->list[i]->key,key))) x=x->list[i];] *)
Fixpoint walk (fuel : nat) (h : store) (x : loc) (i : nat) (key : str_key) (test : Z → bool) : res loc :=
  match fuel with
  | O => Err OutOfFuel
  | S fuel =>
    y ← get_link h x i;
    n ← node h y;
    if test (KEYCMP (skey n) key) then walk fuel h y i key test else Ok x
  end.

Definition fuel_of (h : store) : nat := S (map_size (nodes h)).

(** The loop over the levels, down from [lv], with the array [update]. *)
Fixpoint descend (lv : nat) (h : store) (x : loc) (key : str_key) (test : Z → bool) (update : gmap nat loc)
    : res (loc * gmap nat loc) :=
  match lv with
  | O => Ok (x, update)
  | S lv' =>
    x ← walk (fuel_of h) h x lv key test;
    descend lv' h x key test (<[lv := x]> update)
  end.

Definition below (z : Z) : bool := z <? 0.
Definition upto (z : Z) : bool := z <=? 0.

Definition search (h : store) (s : skiplist) (key : str_key) (test : Z → bool) : res (loc * gmap nat loc) :=
  descend (level s) h (header s) key test ∅.

Definition skiplist_find (h : store) (s : skiplist) (key : str_key) : res (option loc) :=
  if size s =? 0 then Ok None
  else
    '(x, _) ← search h s key below;
    y ← get_link h x 1;
    n ← node h y;
    if KEYTEST (skey n) key then Ok (Some y) else Ok None.

Definition skiplist_find_lowerbound (h : store) (s : skiplist) (key : str_key) : res (option loc) :=
  if size s =? 0 then Ok None
  else '(x, _) ← search h s key below; y ← get_link h x 1; Ok (Some y).

Definition skiplist_range_search (h : store) (s : skiplist) (key : str_key) : res (option loc) :=
  if size s =? 0 then Ok None
  else
    '(bf, _) ← search h s key upto;
    x ← get_link h bf 1;
    nb ← node h bf;
    nx ← node h x;
    if (KEYCMP (skey nb) key <=? 0) && (KEYCMP key (skey nx) <? 0) then Ok (Some bf)
    else
      f ← get_link h (header s) 1;
      nf ← node h f;
      if KEYCMP key (skey nf) <=? 0 then Ok (Some f) else Ok None.

Definition skiplist_strict_range_search (h : store) (s : skiplist) (key : str_key) : res (option loc) :=
  if size s =? 0 then Ok None
  else
    '(bf, _) ← search h s key upto;
    x ← get_link h bf 1;
    nb ← node h bf;
    nx ← node h x;
    if (KEYCMP (skey nb) key <=? 0) && (KEYCMP key (skey nx) <? 0) then Ok (Some bf)
    else if KEYCMP (skey nb) key_max =? 0 then Ok (Some x)
    else Ok None.

(** ** Inserting *)

(** [getLevel]; the loop ends at [MAX_L - 1] at the latest. *)
Fixpoint level_loop (fuel : nat) (d lv : nat) : nat * nat :=
  match fuel with
  | O => (lv, d)
  | S fuel =>
    if rand d mod PROB =? 1 then
      if (MAX_L <=? lv + 2)%nat then (S lv, S (S d)) else level_loop fuel (S d) (S lv)
    else (lv, S d)
  end.
Definition getLevel (h : store) : nat * store :=
  let '(lv, d) := level_loop MAX_L (draws h) 1 in (lv, Store (nodes h) d (invalidated h)).

(** [for(i=list->level+1; i<=level; i++) update[i]=list->header;] *)
Definition raise_update (s : skiplist) (lv : nat) (update : gmap nat loc) : gmap nat loc :=
  foldr (λ i u, <[i := header s]> u) update (seq (S (level s)) (lv - level s)).

(** [for(i=1; i<=level; i++){ x->list[i]=update[i]->list[i]; update[i]->list[i]=x; }] *)
Fixpoint link_levels (n i : nat) (update : gmap nat loc) (x : loc) (h : store) : res store :=
  match n with
  | O => Ok h
  | S n =>
    u ← deref (update !! i);
    b ← get_link h u i;
    h ← set_link h x i b;
    h ← set_link h u i x;
    link_levels n (S i) update x h
  end.

(** The part of the insertions that makes a node for a new key. *)
Definition insert_node (h : store) (s : skiplist) (update : gmap nat loc) (key : str_key) (p : option Z)
    (v : option vset) (valid : option bool) : res (loc * store * skiplist) :=
  let '(lv, h) := getLevel h in
  let update := raise_update s lv update in
  let s := set_level (Nat.max (level s) lv) s in
  let x := malloc (nodes h) in
  let h := with_nodes (<[x := SNode p key lv v valid (replicate (S lv) None) None]> (nodes h)) h in
  h ← link_levels lv 1 update x h;
  y ← get_link h x 1;
  ny ← node h y;
  h ← upd_node h x (set_back (back ny));
  h ← upd_node h y (set_back (Some x));
  Ok (x, h, Skl (level s) (u64 (size s + 1)) (all_length s) (data_size s) (header s)).

Definition add_length (n : Z) (s : skiplist) : skiplist := Skl (level s) (size s) (u32 (all_length s + n)) (data_size s) (header s).
Definition add_data (n : Z) (s : skiplist) : skiplist := Skl (level s) (size s) (all_length s) (u32 (data_size s + n)) (header s).

(** [value->length] in pieces. *)
Definition in_pieces (v : vset) : vset :=
  VSet (u32 (vlength v / PIECE + (if vlength v mod PIECE =? 0 then 0 else 1))) (bytes v).

Definition skiplist_insert (h : store) (s : skiplist) (key : str_key) (v : option vset) (deletef : bool)
    : res (loc * store * skiplist) :=
  '(x, update) ← search h s key below;
  y ← get_link h x 1;
  n ← node h y;
  let v := in_pieces <$> v in
  if KEYTEST key (skey n) then
    old ← deref (value n);
    new ← deref v;
    let s := add_data (vlength new * PIECE) (add_data (- (vlength old * PIECE)) s) in
    h ← upd_node h y (set_data (ppa n) v (Some deletef));
    Ok (y, h, s)
  else
    '(x, h, s) ← insert_node h s update key (Some UINT_MAX) v (Some deletef);
    new ← deref v;
    Ok (x, h, add_data (vlength new * PIECE) (add_length (KEYLEN key) s)).

Definition skiplist_insert_iter (h : store) (s : skiplist) (key : str_key) (p : Z) : res (loc * store * skiplist) :=
  '(x, update) ← search h s key below;
  y ← get_link h x 1;
  n ← node h y;
  if KEYTEST key (skey n) then h ← upd_node h y (set_data (Some p) (value n) (isvalid n)); Ok (y, h, s)
  else
    '(x, h, s) ← insert_node h s update key (Some p) None None;
    Ok (x, h, add_length (len key) s).

Definition skiplist_insert_wP (h : store) (s : skiplist) (key : str_key) (p : Z) (deletef : bool)
    : res (loc * store * skiplist) :=
  '(x, update) ← search h s key below;
  y ← get_link h x 1;
  n ← node h y;
  if KEYTEST key (skey n) then Err Aborted
  else
    '(x, h, s) ← insert_node h s update key (Some p) None (Some deletef);
    Ok (x, h, add_length (KEYLEN key) s).

Definition skiplist_insert_existIgnore (h : store) (s : skiplist) (key : str_key) (p : Z) (deletef : bool)
    : res (loc * store * skiplist) :=
  '(x, update) ← search h s key below;
  y ← get_link h x 1;
  n ← node h y;
  if KEYTEST key (skey n) then
    old ← deref (ppa n);
    if p =? old then Err Aborted
    else
      h ← upd_node h y (set_data (Some p) (value n) (Some deletef));
      Ok (y, Store (nodes h) (draws h) (invalidated h ++ [old]), s)
  else
    '(x, h, s) ← insert_node h s update key (Some p) None (Some deletef);
    Ok (x, h, add_length (KEYLEN key) s).

(** ** Removing *)

(** [for(i=x->level; i>=1; i--){ update[i]->list[i]=x->list[i];
    if(update[i]==update[i]->list[i]) list->level--; }] *)
Fixpoint unlink_levels (i : nat) (update : gmap nat loc) (x : loc) (h : store) (lv : nat) : res (store * nat) :=
  match i with
  | O => Ok (h, lv)
  | S i' =>
    u ← deref (update !! i);
    b ← get_link h x i;
    h ← set_link h u i b;
    unlink_levels i' update x h (if decide (u = b) then pred lv else lv)
  end.

Definition free_node (h : store) (a : loc) : store := with_nodes (delete a (nodes h)) h.

Definition skiplist_delete (h : store) (s : skiplist) (key : str_key) : res (Z * store * skiplist) :=
  if size s =? 0 then Ok (-1, h, s)
  else
    '(x, update) ← search h s key below;
    y ← get_link h x 1;
    n ← node h y;
    if negb (KEYCMP (skey n) key =? 0) then Ok (-2, h, s)
    else
      '(h, lv) ← unlink_levels (slevel n) update y h (level s);
      Ok (0, free_node h y, Skl lv (u64 (size s - 1)) (all_length s) (data_size s) (header s)).

(** [skiplist_pop]: [update[i]] is the header on every level. *)
Fixpoint pop_levels (n i : nat) (hd x : loc) (h : store) : res store :=
  match n with
  | O => Ok h
  | S n =>
    b ← get_link h hd i;
    if decide (b = x) then
      c ← get_link h x i;
      h ← set_link h hd i c;
      pop_levels n (S i) hd x h
    else Ok h
  end.

(** [while(list->level>1 && list->header->list[list->level]==list->header) list->level--;] *)
Fixpoint drop_levels (lv : nat) (hd : loc) (h : store) : res nat :=
  match lv with
  | O => Ok O
  | S lv' =>
    if (lv <=? 1)%nat then Ok lv
    else b ← get_link h hd lv; if decide (b = hd) then drop_levels lv' hd h else Ok lv
  end.

Definition skiplist_pop (h : store) (s : skiplist) : res (option loc * store * skiplist) :=
  if size s =? 0 then Ok (None, h, s)
  else
    x ← get_link h (header s) 1;
    n ← node h x;
    h ← pop_levels (level s) 1 (header s) x h;
    lv ← drop_levels (level s) (header s) h;
    Ok (Some x, h, Skl lv (u64 (size s - 1)) (u32 (all_length s - KEYLEN (skey n))) (data_size s) (header s)).

(** ** Walking *)

(** [skiplist_get_next] on an iterator at [now]: the new position, NULL at the end. *)
Definition skiplist_get_iterator (s : skiplist) : loc := header s.
Definition skiplist_get_next (h : store) (s : skiplist) (now : loc) : res (option loc) :=
  y ← get_link h now 1;
  if decide (y = header s) then Ok None else Ok (Some y).

Fixpoint skiplist_at (n : nat) (h : store) (x : loc) : res loc :=
  match n with O => Ok x | S n => y ← get_link h x 1; skiplist_at n h y end.

(** All nodes in the order of the iterator. *)
Fixpoint iterate (fuel : nat) (h : store) (s : skiplist) (now : loc) : res (list loc) :=
  match fuel with
  | O => Err OutOfFuel
  | S fuel =>
    o ← skiplist_get_next h s now;
    match o with None => Ok [] | Some x => xs ← iterate fuel h s x; Ok (x :: xs) end
  end.

(** [skiplist_clear] *)
Fixpoint clear_loop (fuel : nat) (h : store) (hd now : loc) : res store :=
  match fuel with
  | O => Err OutOfFuel
  | S fuel =>
    if decide (now = hd) then Ok h
    else n ← node h now; next ← get_link h now 1; clear_loop fuel (free_node h now) hd next
  end.
Definition skiplist_clear (h : store) (s : skiplist) : res (store * skiplist) :=
  now ← get_link h (header s) 1;
  h ← clear_loop (fuel_of h) h (header s) now;
  h ← upd_node h (header s) (λ n, 
    SNode (ppa n) key_max (slevel n) (value n) (isvalid n) (replicate MAX_L (Some (header s)) ++ drop MAX_L (links n)) (back n));
  Ok (h, Skl 0 0 (all_length s) (data_size s) (header s)).
Definition skiplist_free (h : store) (s : skiplist) : res store :=
  '(h, s) ← skiplist_clear h s;
  Ok (free_node h (header s)).

End ops.

(** ** Representation *)

(** The data of a node. *)
Record ent := Ent { e_ppa : option Z; e_key : str_key; e_level : nat; e_value : option vset; e_valid : option bool }.
Definition ent_of (n : snode) : ent := Ent (ppa n) (skey n) (slevel n) (value n) (isvalid n).

(** From [a] the links of level [i] lead through [l] to [b]. *)
Fixpoint seg (h : store) (i : nat) (a : loc) (l : list loc) (b : loc) : Prop :=
  match l with
  | [] => nxt h a i = Some b
  | x :: l => nxt h a i = Some x ∧ seg h i x l b
  end.

(** The nodes of level at least [i]. *)
Definition tall (i : nat) (xs : list (loc * ent)) : list (loc * ent) := filter (λ x, (i ≤ e_level x.2)%nat) xs.
Definition key_lt (x y : loc * ent) : Prop := KEYCMP (e_key x.2) (e_key y.2) < 0.
Definition top (xs : list (loc * ent)) : nat := foldr (λ x, Nat.max (e_level x.2)) 0%nat xs.

(** The keys a list takes. *)
Definition key_in (k : str_key) : Prop := key_wf k ∧ KEYCMP k key_max < 0.

(** The heap has a node for each entry. *)
Definition stored (h : store) (xs : list (loc * ent)) : Prop :=
  ∀ a e, (a, e) ∈ xs → ∃ n, nodes h !! a = Some n ∧ ent_of n = e ∧ length (links n) = S (e_level e).
Definition has_header (h : store) (hd : loc) : Prop :=
  ∃ n, nodes h !! hd = Some n ∧ skey n = key_max ∧ length (links n) = S MAX_L.
Definition ent_ok (x : loc * ent) : Prop := (1 ≤ e_level x.2 < MAX_L)%nat ∧ key_in (e_key x.2).

Record sk_rep (h : store) (s : skiplist) (xs : list (loc * ent)) : Prop := SkRep {
  rep_nd : NoDup (header s :: xs.*1);
  rep_hd : has_header h (header s);
  rep_stored : stored h xs;
  rep_ok : Forall ent_ok xs;
  rep_sorted : StronglySorted key_lt xs;
  rep_seg i : (1 ≤ i < MAX_L)%nat → seg h i (header s) (tall i xs).*1 (header s);
  rep_level : (level s = top xs ∨ xs = [] ∧ level s = 1)%nat;
  rep_size : size s = Z.of_nat (length xs);
}.

(** *** Links *)

Lemma seg_app h i a l1 x l2 b : seg h i a (l1 ++ x :: l2) b ↔ seg h i a l1 x ∧ seg h i x l2 b.
Proof. revert a; induction l1 as [|y l1 IH]; intros a; simpl; [done|]. rewrite IH. tauto. Qed.

Lemma seg_ext h h' i a l b : (∀ c, c ∈ a :: l → nxt h' c i = nxt h c i) → seg h i a l b → seg h' i a l b.
Proof.
  revert a; induction l as [|x l IH]; intros a Hn; simpl.
  - rewrite Hn; [done|]. apply elem_of_cons. by left.
  - rewrite Hn by (apply elem_of_cons; by left). intros [-> ?]. split; [done|]. apply IH; [|done].
    intros c Hc. apply Hn. apply elem_of_cons. by right.
Qed.

Lemma get_link_Ok h a i b : nxt h a i = Some b → get_link h a i = Ok b.
Proof. unfold get_link. by intros ->. Qed.

(** What [set_link] changes. *)
Lemma set_link_Ok h a i b n :
  nodes h !! a = Some n → (i < length (links n))%nat →
  ∃ h', set_link h a i b = Ok h' ∧ draws h' = draws h ∧ invalidated h' = invalidated h ∧
    (∀ c j, nxt h' c j = if decide (c = a ∧ j = i) then Some b else nxt h c j) ∧
    nodes h' = <[a := set_links (<[i := Some b]> (links n)) n]> (nodes h).
Proof.
  intros Ha Hi. unfold set_link, node. rewrite Ha. cbn [deref]. rbind. rewrite (proj2 (Nat.ltb_lt _ _)) by done.
  eexists. split; [done|]. do 2 (split; [done|]). split; [|done]. intros c j. unfold nxt. cbn [with_nodes nodes].
  destruct (decide (c = a)) as [->|Hne].
  - rewrite lookup_insert_eq, Ha. cbn. destruct (decide (j = i)) as [->|Hj].
    + rewrite decide_True by done. by rewrite list_lookup_insert_eq.
    + rewrite decide_False by naive_solver. by rewrite list_lookup_insert_ne.
  - rewrite lookup_insert_ne by done. by rewrite decide_False by naive_solver.
Qed.

(** Nodes keep their data and the size of their arrays. *)
Definition same_data (h h' : store) : Prop :=
  ∀ a n, nodes h !! a = Some n →
    ∃ n', nodes h' !! a = Some n' ∧ ent_of n' = ent_of n ∧ length (links n') = length (links n).

Lemma same_data_refl h : same_data h h.
Proof. intros a n Ha. by exists n. Qed.
Lemma same_data_trans h1 h2 h3 : same_data h1 h2 → same_data h2 h3 → same_data h1 h3.
Proof. intros H1 H2 a n Ha. destruct (H1 a n Ha) as (n1 & Ha1 & ? & ?). destruct (H2 a n1 Ha1) as (n2 & ? & ? & ?).
  exists n2. split_and!; congruence. Qed.

Lemma same_data_upd h h' a n n' :
  nodes h !! a = Some n → nodes h' = <[a := n']> (nodes h) → ent_of n' = ent_of n →
  length (links n') = length (links n) → same_data h h'.
Proof.
  intros Ha E E1 E2 c m Hc. rewrite E. destruct (decide (c = a)) as [->|].
  - rewrite lookup_insert_eq. exists n'. assert (m = n) as -> by congruence. done.
  - rewrite lookup_insert_ne by done. by exists m.
Qed.

Lemma set_link_same h a i b h' : set_link h a i b = Ok h' → same_data h h'.
Proof.
  unfold set_link, node. intros E. destruct (nodes h !! a) as [n|] eqn:Ha; [|done]. cbn [deref] in E. rbind.
  cbn [mbind res_bind] in E. destruct (Nat.ltb_spec i (length (links n))); [|done]. injection E as <-.
  eapply same_data_upd; [done|done|done|]. simpl. by rewrite length_insert.
Qed.

Lemma stored_same h h' xs : same_data h h' → stored h xs → stored h' xs.
Proof.
  intros Hs Hst a e Hin. destruct (Hst a e Hin) as (n & Ha & He & Hl). destruct (Hs a n Ha) as (n' & Ha' & He' & Hl').
  exists n'. split_and!; congruence.
Qed.

Lemma header_same h h' hd : same_data h h' → has_header h hd → has_header h' hd.
Proof.
  intros Hs (n & Ha & Hk & Hl). destruct (Hs hd n Ha) as (n' & Ha' & He & Hl'). exists n'.
  assert (skey n' = skey n) by (by injection He). split_and!; congruence.
Qed.

(** *** Entries *)

Lemma tall_app i l1 l2 : tall i (l1 ++ l2) = tall i l1 ++ tall i l2.
Proof. apply filter_app. Qed.

Lemma tall_cons i x xs : tall i (x :: xs) = if decide (i ≤ e_level x.2)%nat then x :: tall i xs else tall i xs.
Proof. unfold tall. by rewrite filter_cons. Qed.

Lemma tall_elem i x xs : x ∈ tall i xs ↔ (i ≤ e_level x.2)%nat ∧ x ∈ xs.
Proof. unfold tall. by rewrite list_elem_of_filter. Qed.

Lemma tall_NoDup i xs : NoDup xs.*1 → NoDup (tall i xs).*1.
Proof.
  induction xs as [|x xs IH]; intros Hnd; [constructor|]. csimpl in *. apply NoDup_cons in Hnd as [Hx Hnd]. unfold tall in *.
  rewrite filter_cons. case_decide; [|by apply IH]. csimpl. apply NoDup_cons. split; [|by apply IH].
  intros (y & E & Hy)%list_elem_of_fmap. apply Hx. apply list_elem_of_fmap. exists y. split; [done|].
  by apply (tall_elem i) in Hy as [_ Hy].
Qed.

Lemma tall_1 xs : Forall ent_ok xs → tall 1 xs = xs.
Proof.
  induction 1 as [|x xs [[Hl _] _] _ IH]; [done|]. unfold tall in *. rewrite filter_cons_True by lia. by rewrite IH.
Qed.

Lemma tall_above i xs : (top xs < i)%nat → tall i xs = [].
Proof.
  induction xs as [|x xs IH]; intros Hi; [done|]. simpl in Hi. unfold tall in *. rewrite filter_cons_False by lia. apply IH. lia.
Qed.

Lemma top_elem x xs : x ∈ xs → (e_level x.2 ≤ top xs)%nat.
Proof. induction xs as [|y xs IH]; intros Hx; [by apply elem_of_nil in Hx|]. apply elem_of_cons in Hx as [->|Hx]; simpl; [lia|].
  apply IH in Hx. lia. Qed.

Lemma top_bound xs : Forall ent_ok xs → (top xs < MAX_L)%nat.
Proof. induction 1 as [|x xs [Hx _] _ IH]; simpl; [unfold MAX_L; lia|]. lia. Qed.

Lemma top_app l1 l2 : top (l1 ++ l2) = Nat.max (top l1) (top l2).
Proof. induction l1 as [|x l1 IH]; simpl; [done|]. rewrite IH. lia. Qed.

(** *** Searching *)

(** The list is cut by [test] on the keys. *)
Definition cut (key : str_key) (test : Z → bool) (lo hi : list (loc * ent)) : Prop :=
  Forall (λ x, test (KEYCMP (e_key x.2) key) = true) lo ∧ Forall (λ x, test (KEYCMP (e_key x.2) key) = false) hi ∧
  test (KEYCMP key_max key) = false.

(** The last node of [lo] on level [i], or the header. *)
Definition pred_at (hd : loc) (i : nat) (lo : list (loc * ent)) : loc := default hd (last (tall i lo).*1).

Lemma walk_spec h i key test l : ∀ fuel a b nb,
  seg h i a l b → (∀ c, c ∈ l → ∃ n, nodes h !! c = Some n ∧ test (KEYCMP (skey n) key) = true) →
  nodes h !! b = Some nb → test (KEYCMP (skey nb) key) = false → (length l < fuel)%nat →
  walk fuel h a i key test = Ok (default a (last l)).
Proof.
  induction l as [|x l IH]; intros [|fuel] a b nb Hs Hl Hb Ht Hf; simpl in Hf; try lia; cbn [walk].
  - rewrite (get_link_Ok _ _ _ _ Hs). rbind. unfold node. rewrite Hb. cbn [deref]. rbind. by rewrite Ht.
  - destruct Hs as [Ha Hs]. rewrite (get_link_Ok _ _ _ _ Ha). rbind.
    destruct (Hl x) as (n & Hx & Hn); [apply elem_of_cons; by left|]. unfold node. rewrite Hx. cbn [deref]. rbind. rewrite Hn.
    rewrite (IH fuel x b nb Hs); [|by intros c Hc; apply Hl, elem_of_cons; right|done|done|lia].
    rewrite last_cons. by destruct (last l).
Qed.

Lemma seg_from h i l : ∀ a b x, seg h i a l b → x ∈ a :: l →
  ∃ q, seg h i x q b ∧ default x (last q) = default a (last l) ∧ (∀ c, c ∈ q → c ∈ l) ∧ (length q <= length l)%nat.
Proof.
  induction l as [|y l IH]; intros a b x Hs Hx.
  - apply elem_of_cons in Hx as [->|Hx]; [|by apply elem_of_nil in Hx]. by exists [].
  - apply elem_of_cons in Hx as [->|Hx]; [by exists (y :: l)|]. destruct Hs as [_ Hs].
    destruct (IH y b x Hs Hx) as (q & Hq & El & Hin & Hlen). exists q. split; [done|]. split; [rewrite El, last_cons; by destruct (last l)|].
    split; [intros c Hc; apply elem_of_cons; right; auto|simpl; lia].
Qed.

Lemma seg_last h i l : ∀ a b, seg h i a l b → nxt h (default a (last l)) i = Some b.
Proof.
  induction l as [|x l IH]; intros a b Hs; [done|]. destruct Hs as [_ Hs]. apply IH in Hs. rewrite last_cons. by destruct (last l).
Qed.

Lemma length_nodes h l : NoDup l → (∀ c, c ∈ l → ∃ n, nodes h !! c = Some n) → (length l <= map_size (nodes h))%nat.
Proof.
  intros Hnd Hl. change (map_size (nodes h)) with (base.size (nodes h)). rewrite <-size_dom.
  rewrite <-(size_list_to_set (C:=gset loc) l Hnd). apply subseteq_size. intros c Hc%elem_of_list_to_set.
  destruct (Hl c Hc) as [n Hn]. by eapply elem_of_dom_2.
Qed.

Section search.
Variables (h : store) (s : skiplist) (lo hi : list (loc * ent)) (key : str_key) (test : Z → bool).
Hypothesis Hrep : sk_rep h s (lo ++ hi).
Hypothesis Hcut : cut key test lo hi.

Lemma tall_in i x : x ∈ tall i (lo ++ hi) → ∃ n, nodes h !! x.1 = Some n ∧ skey n = e_key x.2.
Proof.
  intros [_ Hx]%tall_elem. destruct x as [a e]. destruct (rep_stored _ _ _ Hrep a e Hx) as (n & ? & <- & _). by exists n.
Qed.

Lemma fst_in i a : a ∈ (tall i lo).*1 → ∃ n, nodes h !! a = Some n ∧ test (KEYCMP (skey n) key) = true.
Proof.
  intros (x & -> & Hx)%list_elem_of_fmap. destruct (tall_in i x) as (n & Hn & E).
  { rewrite tall_app, elem_of_app. by left. }
  exists n. split; [done|]. rewrite E. apply tall_elem in Hx as [_ Hx]. destruct Hcut as (Hlo & _).
  by apply (proj1 (Forall_forall _ _) Hlo).
Qed.

Lemma hd_node : ∃ n, nodes h !! header s = Some n ∧ skey n = key_max ∧ test (KEYCMP (skey n) key) = false.
Proof. destruct (rep_hd _ _ _ Hrep) as (n & Hn & E & _). exists n. split_and!; [done|done|]. rewrite E. apply Hcut. Qed.

(** On every level the nodes before the cut lead to one behind it. *)
Lemma level_cut i : (1 ≤ i < MAX_L)%nat →
  ∃ b nb, seg h i (header s) (tall i lo).*1 b ∧ b = default (header s) (head (tall i hi).*1) ∧
    nodes h !! b = Some nb ∧ test (KEYCMP (skey nb) key) = false.
Proof.
  intros Hi. pose proof (rep_seg _ _ _ Hrep i Hi) as Hs. rewrite tall_app, fmap_app in Hs.
  destruct (tall i hi) as [|[b e] q] eqn:Eq; csimpl in *.
  - rewrite app_nil_r in Hs. destruct hd_node as (n & ? & _ & ?). by exists (header s), n.
  - apply seg_app in Hs as [Hs _]. destruct (tall_in i (b, e)) as (n & Hn & E).
    { rewrite tall_app, Eq, elem_of_app. right. apply elem_of_cons. by left. }
    exists b, n. split_and!; [done|done|done|]. rewrite E. destruct Hcut as (_ & Hhi & _).
    apply (proj1 (Forall_forall _ _) Hhi (b, e)). apply (tall_elem i). rewrite Eq. apply elem_of_cons. by left.
Qed.

Lemma walk_level i x : (1 ≤ i < MAX_L)%nat → x ∈ header s :: (tall i lo).*1 →
  walk (fuel_of h) h x i key test = Ok (pred_at (header s) i lo).
Proof.
  intros Hi Hx. destruct (level_cut i Hi) as (b & nb & Hs & _ & Hb & Ht).
  destruct (seg_from h i _ _ _ x Hs Hx) as (q & Hq & El & Hin & Hlen). unfold pred_at. rewrite <-El.
  apply (walk_spec h i key test q _ x b nb Hq); [|done|done|].
  - intros c Hc. eapply fst_in. by apply Hin.
  - unfold fuel_of. assert (Hle : (length (tall i lo).*1 <= map_size (nodes h))%nat); [|lia].
    apply length_nodes.
    + pose proof (rep_nd _ _ _ Hrep) as [_ Hnd]%NoDup_cons. rewrite fmap_app in Hnd. apply NoDup_app in Hnd as (Hnd & _).
      by apply tall_NoDup.
    + intros c Hc. destruct (fst_in i c Hc) as (n & ? & _). by exists n.
Qed.

Lemma pred_at_in i : pred_at (header s) i lo ∈ header s :: (tall i lo).*1.
Proof.
  unfold pred_at. destruct (last (tall i lo).*1) as [c|] eqn:E; cbn; apply elem_of_cons; [right|by left].
  by apply last_Some_elem_of.
Qed.

Lemma pred_at_down i : pred_at (header s) (S i) lo ∈ header s :: (tall i lo).*1.
Proof.
  pose proof (pred_at_in (S i)) as H. apply elem_of_cons in H as [H|H]; apply elem_of_cons; [by left|right].
  apply list_elem_of_fmap in H as (x & -> & Hx). apply list_elem_of_fmap. exists x. split; [done|].
  apply tall_elem in Hx as [Hl Hx]. apply tall_elem. split; [lia|done].
Qed.

Lemma descend_spec lv : ∀ x u, (lv < MAX_L)%nat → x ∈ header s :: (tall lv lo).*1 →
  ∃ u', descend lv h x key test u = Ok (if decide (lv = 0)%nat then x else pred_at (header s) 1 lo, u') ∧
    (∀ i, (1 ≤ i ≤ lv)%nat → u' !! i = Some (pred_at (header s) i lo)) ∧ (∀ i, (lv < i)%nat → u' !! i = u !! i).
Proof.
  induction lv as [|lv IH]; intros x u Hlv Hx; cbn [descend].
  - exists u. split_and!; [done|lia|done].
  - rewrite (walk_level (S lv) x) by first [lia|done]. rbind.
    destruct (IH (pred_at (header s) (S lv) lo) (<[S lv := pred_at (header s) (S lv) lo]> u)) as (u' & -> & H1 & H2);
      [lia|apply pred_at_down|]. exists u'. rewrite (decide_False (P:=(S lv = 0)%nat)) by lia. split_and!.
    + by destruct lv.
    + intros i Hi. destruct (decide (i = S lv)) as [->|]; [|apply H1; lia]. rewrite H2 by lia. by rewrite lookup_insert_eq.
    + intros i Hi. rewrite H2 by lia. rewrite lookup_insert_ne by lia. done.
Qed.

Lemma level_range : (level s < MAX_L)%nat ∧ (top (lo ++ hi) ≤ level s)%nat.
Proof.
  pose proof (top_bound _ (rep_ok _ _ _ Hrep)) as Ht.
  destruct (rep_level _ _ _ Hrep) as [->|[E ->]]; [lia|]. rewrite E. simpl. unfold MAX_L. lia.
Qed.

(** A search ends at the last node before the cut, whose successor is the first
    node behind it; [update] holds the predecessors on all levels in use. *)
Lemma search_spec :
  ∃ u, search h s key test = Ok (pred_at (header s) 1 lo, u) ∧
    (∀ i, (1 ≤ i ≤ level s)%nat → u !! i = Some (pred_at (header s) i lo)) ∧
    get_link h (pred_at (header s) 1 lo) 1 = Ok (default (header s) (head hi.*1)).
Proof.
  destruct level_range as [Hlv Htop]. destruct (descend_spec (level s) (header s) ∅ Hlv) as (u & E & Hu & _).
  { apply elem_of_cons. by left. }
  exists u. split; [|split; [done|]].
  - unfold search. rewrite E. case_decide as E0; [|done]. do 2 f_equal. symmetry. unfold pred_at.
    rewrite tall_above; [done|]. rewrite top_app in Htop. lia.
  - destruct (level_cut 1) as (b & nb & Hs & Eb & _); [unfold MAX_L; lia|].
    apply seg_last in Hs. fold (pred_at (header s) 1 lo) in Hs. rewrite (get_link_Ok _ _ _ _ Hs), Eb.
    pose proof (rep_ok _ _ _ Hrep) as [_ Hok]%Forall_app. by rewrite (tall_1 hi Hok).
Qed.

End search.

(** *** Splicing a level *)

Lemma seg_split h i a l1 l2 c :
  seg h i a (l1 ++ l2) c ↔ seg h i a l1 (default c (head l2)) ∧ match l2 with [] => True | y :: l2 => seg h i y l2 c end.
Proof.
  destruct l2 as [|y l2]; cbn; [rewrite app_nil_r; tauto|apply seg_app].
Qed.

(** Only the successor of the last node changes. *)
Lemma seg_redirect h h' i l : ∀ a b c,
  seg h i a l b → NoDup (a :: l) → nxt h' (default a (last l)) i = Some c →
  (∀ d, d ∈ a :: l → d ≠ default a (last l) → nxt h' d i = nxt h d i) → seg h' i a l c.
Proof.
  induction l as [|x l IH]; intros a b c Hs Hnd Hc Hsame; [done|]. destruct Hs as [Ha Hs].
  rewrite last_cons in *. assert (El : default a (Some (default x (last l))) = default x (last l)) by done.
  assert (Elast : match last l with Some y => Some y | None => Some x end = Some (default x (last l))) by (by destruct (last l)).
  rewrite Elast in *. cbn [default] in *. apply NoDup_cons in Hnd as [Han Hnd]. split.
  - rewrite Hsame; [done|apply elem_of_cons; by left|]. intros ->. apply Han. destruct (last l) as [y|] eqn:E; cbn.
    + apply elem_of_cons. right. by apply last_Some_elem_of.
    + apply elem_of_cons. by left.
  - eapply IH; [done|done|done|]. intros d Hd Hne. apply Hsame; [apply elem_of_cons; by right|done].
Qed.

Lemma last_in {A} (a : A) l : default a (last l) ∈ a :: l.
Proof. destruct (last l) as [y|] eqn:E; cbn; apply elem_of_cons; [right; by apply last_Some_elem_of|by left]. Qed.

(** Linking [x] behind the last node of [l1]. *)
Lemma seg_insert h h' i a l1 l2 x :
  seg h i a (l1 ++ l2) a → NoDup (a :: l1 ++ l2) → x ∉ a :: l1 ++ l2 →
  (∀ c, nxt h' c i = if decide (c = default a (last l1)) then Some x
                     else if decide (c = x) then Some (default a (head l2)) else nxt h c i) →
  seg h' i a (l1 ++ x :: l2) a.
Proof.
  intros [H1 H2]%seg_split Hnd Hx Hn. rewrite app_comm_cons in Hnd, Hx. apply NoDup_app in Hnd as (Hnd1 & Hdis & Hnd2).
  apply not_elem_of_app in Hx as [Hx1 Hx2]. pose proof (last_in a l1) as Hl. apply seg_app. split.
  - eapply seg_redirect; [exact H1|done|by rewrite Hn, decide_True|]. intros d Hd Hne. rewrite Hn, decide_False by done.
    rewrite decide_False; [done|]. by intros ->.
  - assert (Hxl : x ≠ default a (last l1)) by (by intros ->).
    destruct l2 as [|y l2]; cbn in *; [by rewrite Hn, decide_False, decide_True by done|].
    split; [by rewrite Hn, decide_False, decide_True by done|]. eapply seg_ext; [|exact H2]. intros c Hc.
    rewrite Hn, decide_False, decide_False; [done| |]; intros ->; [done|]. by apply (Hdis _ Hl).
Qed.

(** Bypassing [x]. *)
Lemma seg_remove h h' i a l1 l2 x :
  seg h i a (l1 ++ x :: l2) a → NoDup (a :: l1 ++ x :: l2) →
  (∀ c, nxt h' c i = if decide (c = default a (last l1)) then Some (default a (head l2)) else nxt h c i) →
  seg h' i a (l1 ++ l2) a.
Proof.
  intros [H1 H2]%seg_app Hnd Hn. rewrite app_comm_cons in Hnd. apply NoDup_app in Hnd as (Hnd1 & Hdis & Hnd2).
  pose proof (last_in a l1) as Hl. apply seg_split. split.
  - eapply seg_redirect; [exact H1|done|by rewrite Hn, decide_True|]. intros d Hd Hne. by rewrite Hn, decide_False.
  - destruct l2 as [|y l2]; [done|]. destruct H2 as [_ H2]. eapply seg_ext; [|exact H2]. intros c Hc.
    rewrite Hn, decide_False; [done|]. intros ->. apply (Hdis _ Hl). apply elem_of_cons. by right.
Qed.

(** *** Cutting *)

Lemma cut_exists key test xs :
  StronglySorted key_lt xs → Forall ent_ok xs → test (KEYCMP key_max key) = false →
  (∀ a b, key_wf a → key_wf b → KEYCMP a b < 0 → test (KEYCMP b key) = true → test (KEYCMP a key) = true) →
  ∃ lo hi, xs = lo ++ hi ∧ cut key test lo hi.
Proof.
  intros Hs Hok Hm Hmono. induction Hs as [|x xs Hs IH Hx]; [by exists [], []|]. apply Forall_cons in Hok as [Hx0 Hok].
  destruct (test (KEYCMP (e_key x.2) key)) eqn:E.
  - destruct (IH Hok) as (lo & hi & -> & Hlo & Hhi & _). exists (x :: lo), hi. split; [done|]. split; [by constructor|done].
  - exists [], (x :: xs). split; [done|]. split; [constructor|]. split; [|done]. constructor; [done|].
    apply Forall_forall. intros y Hy. apply not_true_iff_false. intros Ht. apply not_true_iff_false in E. apply E.
    rewrite Forall_forall in Hx, Hok. destruct Hx0 as (_ & Hw & _). destruct (Hok y Hy) as (_ & Hw' & _).
    eapply Hmono; [exact Hw|exact Hw'|by apply Hx|done].
Qed.

Lemma key_max_wf : key_wf key_max.
Proof.
  unfold key_wf, key_max. split_and!; [done|done|]. cbn [key]. apply Forall_replicate. lia.
Qed.

Lemma above_max k : key_in k → 0 < KEYCMP key_max k.
Proof. intros [Hw Hk]. rewrite (cmp_antisym k key_max Hw key_max_wf). lia. Qed.

Lemma cut_below key xs : StronglySorted key_lt xs → Forall ent_ok xs → key_in key → ∃ lo hi, xs = lo ++ hi ∧ cut key below lo hi.
Proof.
  intros Hs Hok Hk. apply cut_exists; [done|done| |].
  - apply Z.ltb_ge. pose proof (above_max key Hk). lia.
  - unfold below. intros a b Ha Hb Hab Hbk%Z.ltb_lt. apply Z.ltb_lt. eapply cmp_trans; [exact Ha|exact Hb|apply Hk|done|done].
Qed.

Lemma cut_upto key xs : StronglySorted key_lt xs → Forall ent_ok xs → key_in key → ∃ lo hi, xs = lo ++ hi ∧ cut key upto lo hi.
Proof.
  intros Hs Hok Hk. apply cut_exists; [done|done| |].
  - apply Z.leb_gt. by apply above_max.
  - unfold upto. intros a b Ha Hb Hab Hbk%Z.leb_le. apply Z.leb_le.
    destruct (decide (KEYCMP b key = 0)) as [E|]; [apply cmp_eq in E; [subst; lia|done|apply Hk]|].
    assert (KEYCMP a key < 0); [|lia]. eapply cmp_trans; [exact Ha|exact Hb|apply Hk|done|lia].
Qed.

(** *** Inserting a node *)

Section insert.
Variable rand : nat → Z.

Lemma getLevel_range h : ∃ lv h', getLevel rand h = (lv, h') ∧ (1 ≤ lv < MAX_L)%nat ∧ nodes h' = nodes h ∧ invalidated h' = invalidated h.
Proof.
  assert (Hl : ∀ fuel d lv, (1 ≤ lv)%nat → (lv + 2 ≤ MAX_L)%nat → (1 ≤ (level_loop rand fuel d lv).1 < MAX_L)%nat).
  { induction fuel as [|fuel IH]; intros d lv H1 H2; cbn [level_loop]; [simpl; lia|]. destruct (_ =? 1); [|simpl; lia].
    destruct (Nat.leb_spec MAX_L (lv + 2)); [simpl; lia|]. apply IH; lia. }
  unfold getLevel. specialize (Hl MAX_L (draws h) 1%nat ltac:(lia) ltac:(unfold MAX_L; lia)).
  destruct (level_loop rand MAX_L (draws h) 1) as [lv d]. by eexists lv, _.
Qed.

Lemma raise_update_lookup s lv u i :
  raise_update s lv u !! i = if decide (level s < i ≤ lv)%nat then Some (header s) else u !! i.
Proof.
  unfold raise_update.
  assert (Hf : ∀ l, foldr (λ i u, <[i := header s]> u) u l !! i = if decide (i ∈ l) then Some (header s) else u !! i).
  { induction l as [|j l IH]; cbn [foldr]; [by rewrite decide_False by apply not_elem_of_nil|]. rewrite lookup_insert, IH.
    destruct (decide (j = i)) as [->|]; [rewrite decide_True by (apply elem_of_cons; by left); done|].
    apply decide_ext. rewrite elem_of_cons. naive_solver. }
  rewrite Hf. apply decide_ext. rewrite elem_of_seq. lia.
Qed.

(** The chain of level [j] while the levels below [i] are linked. *)
Definition spliced (x : loc) (lo hi : list (loc * ent)) (i j : nat) : list loc :=
  (tall j lo).*1 ++ (if decide (j < i)%nat then x :: (tall j hi).*1 else (tall j hi).*1).

Lemma link_levels_spec hd x lo hi u lv : ∀ n i h,
  NoDup (hd :: lo.*1 ++ hi.*1) → x ∉ hd :: lo.*1 ++ hi.*1 → (1 ≤ i)%nat → (i + n = S lv)%nat → (lv < MAX_L)%nat →
  (∀ j, (1 ≤ j ≤ lv)%nat → u !! j = Some (pred_at hd j lo)) →
  has_header h hd → stored h (lo ++ hi) → (∃ nx, nodes h !! x = Some nx ∧ length (links nx) = S lv) →
  (∀ j, (1 ≤ j < MAX_L)%nat → seg h j hd (spliced x lo hi i j) hd) →
  ∃ h', link_levels n i u x h = Ok h' ∧ same_data h h' ∧ draws h' = draws h ∧ invalidated h' = invalidated h ∧
    (∀ c, c ∉ x :: hd :: lo.*1 → nodes h' !! c = nodes h !! c) ∧
    (∀ j, (1 ≤ j < MAX_L)%nat → seg h' j hd (spliced x lo hi (S lv) j) hd).
Proof.
  induction n as [|n IH]; intros i h Hnd Hx Hi Hin Hlv Hu Hhd Hst (nx & Hnx & Hlx) Hseg; cbn [link_levels].
  { exists h. replace (S lv) with i by lia. split_and!; try done. apply same_data_refl. }
  rewrite Hu by lia. cbn [deref]. rbind.
  assert (Hsub : ∀ l, NoDup (hd :: lo.*1 ++ hi.*1) → l = (tall i lo).*1 ++ (tall i hi).*1 → NoDup (hd :: l) ∧ ∀ c, c ∈ hd :: l → c ∈ hd :: lo.*1 ++ hi.*1).
  { intros l Hn ->. rewrite <-!fmap_app, <-tall_app in *. apply NoDup_cons in Hn as [Hn1 Hn2].
    assert (Hs : ∀ c, c ∈ (tall i (lo ++ hi)).*1 → c ∈ (lo ++ hi).*1).
    { intros c (y & -> & [_ Hy]%tall_elem)%list_elem_of_fmap. apply list_elem_of_fmap. by exists y. }
    split; [apply NoDup_cons; split; [by intros ?%Hs|by apply tall_NoDup]|].
    intros c [->|Hc]%elem_of_cons; apply elem_of_cons; [by left|right; by apply Hs]. }
  destruct (Hsub _ Hnd eq_refl) as [Hnd' Hin'].
  assert (Hseg_i : seg h i hd ((tall i lo).*1 ++ (tall i hi).*1) hd).
  { specialize (Hseg i ltac:(lia)). unfold spliced in Hseg. by rewrite decide_False in Hseg by lia. }
  pose proof Hseg_i as [Hs1 _]%seg_split. apply seg_last in Hs1. fold (pred_at hd i lo) in Hs1.
  rewrite (get_link_Ok _ _ _ _ Hs1). rbind.
  destruct (set_link_Ok h x i (default hd (head (tall i hi).*1)) nx Hnx ltac:(lia)) as (h1 & E1 & Ed1 & Ei1 & Hn1 & Eh1).
  rewrite E1. rbind. pose proof (set_link_same _ _ _ _ _ E1) as Hs_1.
  assert (Hp : pred_at hd i lo ∈ hd :: (tall i lo).*1) by apply last_in.
  assert (Hpx : pred_at hd i lo ≠ x).
  { intros E. apply Hx. rewrite <-E. apply Hin'. rewrite app_comm_cons. apply elem_of_app. by left. }
  assert (∃ np, nodes h1 !! pred_at hd i lo = Some np ∧ (i < length (links np))%nat) as (np & Hnp & Hlp).
  { apply elem_of_cons in Hp as [Hp|(y & Hp & [Hy1 Hy2]%tall_elem)%list_elem_of_fmap].
    - destruct (header_same _ _ _ Hs_1 Hhd) as (n0 & ? & _ & ?). rewrite Hp. exists n0. split; [done|lia].
    - destruct y as [c e]. cbn in Hp, Hy1. destruct (stored_same _ _ _ Hs_1 Hst c e) as (n0 & ? & _ & ?).
      { apply elem_of_app. by left. }
      rewrite Hp. exists n0. split; [done|lia]. }
  destruct (set_link_Ok h1 (pred_at hd i lo) i x np Hnp Hlp) as (h2 & E2 & Ed2 & Ei2 & Hn2 & Eh2). rewrite E2. rbind.
  pose proof (set_link_same _ _ _ _ _ E2) as Hs_2. pose proof (same_data_trans _ _ _ Hs_1 Hs_2) as Hs12.
  destruct (IH (S i) h2) as (h' & E & Hs & Ed & Ei & Hout & Hseg'); [done|done|lia|lia|done|done|by eapply header_same|by eapply stored_same| | |].
  - destruct (Hs12 x nx Hnx) as (n' & ? & _ & ?). exists n'. split; [done|congruence].
  - intros j Hj. specialize (Hseg j Hj). unfold spliced in *. destruct (decide (j = i)) as [->|Hne].
    + rewrite decide_True by lia. apply (seg_insert h h2); [done|done|by intros ?%Hin'|].
      intros c. rewrite Hn2, Hn1. fold (pred_at hd i lo). repeat case_decide; naive_solver.
    + replace (if decide (j < S i)%nat then x :: (tall j hi).*1 else (tall j hi).*1)
        with (if decide (j < i)%nat then x :: (tall j hi).*1 else (tall j hi).*1) by (repeat case_decide; first [done|lia]).
      eapply seg_ext; [|exact Hseg]. intros c _. by rewrite Hn2, Hn1, !decide_False by naive_solver.
  - exists h'. split; [done|]. split; [by eapply same_data_trans|]. split; [congruence|]. split; [congruence|]. split; [|done].
    intros c Hc. rewrite Hout by done. apply not_elem_of_cons in Hc as [Hcx Hc].
    assert (c ≠ pred_at hd i lo).
    { intros ->. apply Hc. apply elem_of_cons in Hp as [->|(y & -> & [_ Hy]%tall_elem)%list_elem_of_fmap]; apply elem_of_cons;
        [by left|right]. apply list_elem_of_fmap. by exists y. }
    rewrite Eh2, lookup_insert_ne, Eh1, lookup_insert_ne by done. done.
Qed.

Lemma upd_back_Ok h a b n :
  nodes h !! a = Some n → ∃ h', upd_node h a (set_back b) = Ok h' ∧ same_data h h' ∧ draws h' = draws h ∧
    invalidated h' = invalidated h ∧ (∀ c j, nxt h' c j = nxt h c j) ∧ (∀ c, c ≠ a → nodes h' !! c = nodes h !! c).
Proof.
  intros Ha. unfold upd_node, node. rewrite Ha. cbn [deref]. rbind. eexists. split; [done|].
  split; [by eapply same_data_upd|]. do 2 (split; [done|]). split.
  - intros c j. unfold nxt. cbn [with_nodes nodes]. destruct (decide (c = a)) as [->|].
    + by rewrite lookup_insert_eq, Ha.
    + by rewrite lookup_insert_ne.
  - intros c Hc. cbn [with_nodes nodes]. by rewrite lookup_insert_ne.
Qed.

Lemma sorted_app_inv l1 l2 : StronglySorted key_lt (l1 ++ l2) →
  StronglySorted key_lt l1 ∧ StronglySorted key_lt l2 ∧ ∀ x y, x ∈ l1 → y ∈ l2 → key_lt x y.
Proof.
  induction l1 as [|x l1 IH]; simpl; intros Hs; [split_and!; [constructor|done|intros ?? []%elem_of_nil]|].
  inversion Hs as [|?? Hs' Hx]; subst. destruct (IH Hs') as (H1 & H2 & H3). apply Forall_app in Hx as [Hx1 Hx2].
  split_and!; [by constructor|done|]. intros a b [->|Ha]%elem_of_cons Hb; [|by apply H3].
  by apply (proj1 (Forall_forall _ _) Hx2).
Qed.

Lemma sorted_app l1 l2 : StronglySorted key_lt l1 → StronglySorted key_lt l2 → (∀ x y, x ∈ l1 → y ∈ l2 → key_lt x y) →
  StronglySorted key_lt (l1 ++ l2).
Proof.
  induction 1 as [|x l1 Hs IH Hx]; intros H2 H3; simpl; [done|]. constructor.
  - apply IH; [done|]. intros a b Ha. apply H3. apply elem_of_cons. by right.
  - apply Forall_app. split; [done|]. apply Forall_forall. intros b. apply H3. apply elem_of_cons. by left.
Qed.

Lemma sorted_insert lo hi x :
  StronglySorted key_lt (lo ++ hi) → Forall (λ y, key_lt y x) lo → Forall (λ y, key_lt x y) hi →
  StronglySorted key_lt (lo ++ x :: hi).
Proof.
  intros (H1 & H2 & H3)%sorted_app_inv Hlo Hhi. apply sorted_app; [done|by constructor|].
  intros a b Ha [->|Hb]%elem_of_cons; [by apply (proj1 (Forall_forall _ _) Hlo)|by apply H3].
Qed.

(** The list with the new node linked in. *)
Lemma spliced_rep h s lo hi x e h' al ds :
  sk_rep h s (lo ++ hi) → x ∉ header s :: lo.*1 ++ hi.*1 → ent_ok (x, e) →
  Forall (λ y, key_lt y (x, e)) lo → Forall (λ y, key_lt (x, e) y) hi → Z.of_nat (length (lo ++ hi)) + 1 < 2 ^ 64 →
  has_header h' (header s) → stored h' (lo ++ (x, e) :: hi) →
  (∀ j, (1 ≤ j < MAX_L)%nat → seg h' j (header s) (spliced x lo hi (S (e_level e)) j) (header s)) →
  sk_rep h' (Skl (Nat.max (level s) (e_level e)) (u64 (size s + 1)) al ds (header s)) (lo ++ (x, e) :: hi).
Proof.
  intros Hr Hx He Hlo Hhi Hsz Hhd Hst Hseg. constructor; cbn [level header size].
  - rewrite fmap_app, fmap_cons. cbn [fst]. rewrite app_comm_cons, <-Permutation_middle. apply NoDup_cons.
    split; [done|]. pose proof (rep_nd _ _ _ Hr) as Hnd. by rewrite fmap_app in Hnd.
  - done.
  - done.
  - pose proof (rep_ok _ _ _ Hr) as [? ?]%Forall_app. apply Forall_app. split; [done|]. by constructor.
  - apply sorted_insert; [apply Hr|done|done].
  - intros j Hj. assert (E : (tall j (lo ++ (x, e) :: hi)).*1 = spliced x lo hi (S (e_level e)) j).
    { rewrite tall_app, fmap_app, tall_cons. unfold spliced. cbn. case_decide; case_decide; first [done|lia]. }
    rewrite E. by apply Hseg.
  - left. rewrite top_app. simpl. destruct (rep_level _ _ _ Hr) as [->|[E ->]].
    + rewrite top_app. lia.
    + apply app_nil in E as [-> ->]. destruct He as [? _]. simpl in *. lia.
  - rewrite length_app in *. simpl. rewrite (rep_size _ _ _ Hr), length_app. rewrite u64_id by lia. lia.
Qed.

Lemma insert_node_rep h s lo hi key u p v valid :
  sk_rep h s (lo ++ hi) → cut key below lo hi → key_in key → Forall (λ y, KEYCMP key (e_key y.2) < 0) hi →
  (∀ i, (1 ≤ i ≤ level s)%nat → u !! i = Some (pred_at (header s) i lo)) → Z.of_nat (length (lo ++ hi)) + 1 < 2 ^ 64 →
  ∃ x lv h' s', insert_node rand h s u key p v valid = Ok (x, h', s') ∧
    sk_rep h' s' (lo ++ (x, Ent p key lv v valid) :: hi) ∧ header s' = header s ∧ all_length s' = all_length s ∧
    data_size s' = data_size s ∧ nodes h !! x = None ∧ invalidated h' = invalidated h ∧
    (∀ c, c ∉ x :: header s :: (lo ++ hi).*1 → nodes h' !! c = nodes h !! c).
Proof.
  intros Hr Hcut Hk Hhi Hu Hsz. unfold insert_node. destruct (getLevel_range h) as (lv & h0 & -> & Hlv & En0 & Ei0).
  rewrite En0. set (x := malloc (nodes h)). assert (Hx : nodes h !! x = None) by (apply not_elem_of_dom, malloc_fresh).
  set (nx := SNode p key lv v valid (replicate (S lv) None) None). set (h1 := with_nodes _ h0).
  assert (Hn1 : ∀ c, c ≠ x → nodes h1 !! c = nodes h !! c) by (intros c Hc; by apply lookup_insert_ne).
  assert (Hlive : ∀ c, c ∈ header s :: (lo ++ hi).*1 → c ≠ x).
  { intros c Hc ->. apply elem_of_cons in Hc as [E|([a e] & E & Hc)%list_elem_of_fmap].
    - destruct (rep_hd _ _ _ Hr) as (n & Hn & _). congruence.
    - cbn in E. subst a. destruct (rep_stored _ _ _ Hr x e Hc) as (n & Hn & _). congruence. }
  assert (Hst1 : stored h1 (lo ++ hi)).
  { intros a e Ha. rewrite Hn1 by (apply Hlive, elem_of_cons; right; apply list_elem_of_fmap; by exists (a, e)). by apply Hr. }
  assert (Hhd1 : has_header h1 (header s)).
  { unfold has_header. rewrite Hn1 by (apply Hlive, elem_of_cons; by left). apply Hr. }
  destruct (level_range h s lo hi Hr) as [Hlr Htop]. rewrite top_app in Htop.
  pose proof (rep_nd _ _ _ Hr) as Hnd. rewrite fmap_app in Hnd, Hlive.
  destruct (link_levels_spec (header s) x lo hi (raise_update s lv u) lv lv 1 h1) as (h2 & -> & Hs2 & Ed2 & Ei2 & Hout2 & Hseg2);
    [done|by intros ?%Hlive|lia|lia|lia| |done|done| | |].
  { intros j Hj. rewrite raise_update_lookup. case_decide; [|apply Hu; lia]. unfold pred_at. by rewrite tall_above by lia. }
  { exists nx. split; [apply lookup_insert_eq|]. simpl. by rewrite length_replicate. }
  { intros j Hj. unfold spliced. rewrite decide_False by lia. rewrite <-fmap_app, <-tall_app.
    eapply seg_ext; [|by apply (rep_seg _ _ _ Hr j)]. intros c Hc. unfold nxt. rewrite Hn1; [done|]. apply Hlive.
    rewrite <-fmap_app. apply elem_of_cons in Hc as [->|(y & -> & [_ Hy]%tall_elem)%list_elem_of_fmap]; apply elem_of_cons; [by left|right].
    apply list_elem_of_fmap. by exists y. }
  rbind. assert (Ex1 : nxt h2 x 1 = Some (default (header s) (head hi.*1))).
  { specialize (Hseg2 1%nat ltac:(unfold MAX_L; lia)). unfold spliced in Hseg2. rewrite decide_True in Hseg2 by lia.
    apply seg_app in Hseg2 as [_ Hseg2]. pose proof (rep_ok _ _ _ Hr) as [_ Hok]%Forall_app. rewrite (tall_1 hi Hok) in Hseg2.
    destruct hi.*1; cbn in *; naive_solver. }
  rewrite (get_link_Ok _ _ _ _ Ex1). rbind. set (y := default (header s) (head hi.*1)).
  assert (Hy : y ∈ header s :: lo.*1 ++ hi.*1).
  { unfold y. destruct hi.*1 as [|z l]; cbn; [apply elem_of_cons; by left|]. apply elem_of_cons. right. apply elem_of_app. right.
    apply elem_of_cons. by left. }
  assert (∃ ny, nodes h2 !! y = Some ny) as [ny Hny].
  { pose proof (header_same _ _ _ Hs2 Hhd1) as (nh & ? & _). pose proof (stored_same _ _ _ Hs2 Hst1) as Hst2.
    rewrite <-fmap_app in Hy. apply elem_of_cons in Hy as [->|([a e] & -> & Ha)%list_elem_of_fmap]; [by exists nh|].
    destruct (Hst2 a e Ha) as (n & ? & _). by exists n. }
  unfold node at 1. rewrite Hny. cbn [deref]. rbind.
  destruct (Hs2 x nx (lookup_insert_eq _ _ _)) as (nx2 & Hnx2 & Enx2 & Elx2).
  destruct (upd_back_Ok h2 x (back ny) nx2 Hnx2) as (h3 & -> & Hs3 & Ed3 & Ei3 & Hnx3 & Hout3). rbind.
  destruct (Hs3 y ny Hny) as (ny3 & Hny3 & _).
  destruct (upd_back_Ok h3 y (Some x) ny3 Hny3) as (h4 & -> & Hs4 & Ed4 & Ei4 & Hnx4 & Hout4). rbind.
  pose proof (same_data_trans _ _ _ Hs2 (same_data_trans _ _ _ Hs3 Hs4)) as Hs24.
  eexists x, lv, h4, _. split; [done|]. split; [|split_and!; try done].
  - apply (spliced_rep h s lo hi x (Ent p key lv v valid)); try done.
    + by intros ?%Hlive.
    + destruct Hcut as (Hlo & _). eapply Forall_impl; [exact Hlo|]. by intros z Hz%Z.ltb_lt.
    + by eapply header_same.
    + intros a e [Ha|[[= -> ->]|Ha]%elem_of_cons]%elem_of_app.
      * apply (stored_same _ _ _ Hs24 Hst1). apply elem_of_app. by left.
      * destruct (Hs24 x nx (lookup_insert_eq _ _ _)) as (n & ? & He & Hl). exists n.
        split_and!; [done|done|]. rewrite Hl. simpl. by rewrite length_replicate.
      * apply (stored_same _ _ _ Hs24 Hst1). apply elem_of_app. by right.
    + intros j Hj. eapply seg_ext; [|by apply Hseg2]. intros c _. by rewrite Hnx4, Hnx3.
  - rewrite Ei4, Ei3, Ei2. exact Ei0.
  - intros c Hc. rewrite fmap_app in Hc. apply not_elem_of_cons in Hc as [Hcx Hc].
    rewrite Hout4 by (by intros ->). rewrite Hout3 by done. rewrite Hout2, Hn1; [done|done|].
    intros [->|Hin]%elem_of_cons; [done|]. apply Hc. rewrite app_comm_cons. apply elem_of_app. by left.
Qed.

End insert.

(** *** The node a search finds *)

Lemma rep_counters h s s' xs :
  sk_rep h s xs → level s' = level s → size s' = size s → header s' = header s → sk_rep h s' xs.
Proof. intros [] El Es Eh. constructor; rewrite ?El, ?Es, ?Eh; done. Qed.

Lemma rep_log h s xs d l : sk_rep h s xs → sk_rep (Store (nodes h) d l) s xs.
Proof. intros []. constructor; try done. intros i Hi. eapply seg_ext; [|by apply rep_seg0]. done. Qed.

(** The node behind the cut: either it holds the key, or no node does. *)
Lemma found_spec h s lo hi key :
  sk_rep h s (lo ++ hi) → cut key below lo hi → key_in key →
  let y := default (header s) (head hi.*1) in
  ∃ ny, nodes h !! y = Some ny ∧
    ((∃ e hi', hi = (y, e) :: hi' ∧ ent_of ny = e ∧ e_key e = key ∧ KEYTEST key (skey ny) = true ∧
        KEYTEST (skey ny) key = true ∧ KEYCMP (skey ny) key = 0 ∧ Forall (λ z, KEYCMP key (e_key z.2) < 0) hi') ∨
     (Forall (λ z, KEYCMP key (e_key z.2) < 0) hi ∧ KEYTEST key (skey ny) = false ∧ KEYTEST (skey ny) key = false ∧
        KEYCMP (skey ny) key ≠ 0)).
Proof.
  intros Hr Hcut [Hkw Hkm] y. pose proof (rep_ok _ _ _ Hr) as [_ Hok]%Forall_app.
  pose proof (sorted_app_inv _ _ (rep_sorted _ _ _ Hr)) as (_ & Hsort & _). destruct Hcut as (_ & Hhi & _).
  assert (Hne : ∀ a, key_wf a → a ≠ key → KEYTEST key a = false ∧ KEYTEST a key = false ∧ KEYCMP a key ≠ 0).
  { intros a Ha Hne. split_and!; [apply not_true_iff_false; rewrite test_eq by done; congruence
      |apply not_true_iff_false; rewrite test_eq by done; congruence|rewrite cmp_eq by done; done]. }
  destruct hi as [|[a e] hi]; cbn in y.
  - destruct (rep_hd _ _ _ Hr) as (n & Hn & E & _). exists n. split; [done|]. right. split; [constructor|].
    rewrite E. apply Hne; [apply key_max_wf|]. intros <-.
    pose proof (proj2 (cmp_eq _ _ Hkw Hkw) eq_refl). lia.
  - destruct (rep_stored _ _ _ Hr a e) as (n & Hn & E & _); [apply elem_of_app; right; apply elem_of_cons; by left|].
    apply Forall_cons in Hok as [[_ [Hw _]] Hok]. apply Forall_cons in Hhi as [Hh%Z.ltb_ge Hhi]. cbn in Hw, Hh.
    inversion Hsort as [|?? Hs Hx]; subst. exists n. split; [done|].
    assert (Hgt : ∀ k, k = key ∨ KEYCMP key k < 0 → k = skey n → Forall (λ z, KEYCMP key (e_key z.2) < 0) hi).
    { intros k Hk Ek. apply Forall_forall. intros z Hz. rewrite Forall_forall in Hx, Hok. specialize (Hx z Hz).
      unfold key_lt in Hx. cbn in Hx. rewrite <-Ek in Hx. destruct Hk as [->|Hk]; [done|].
      destruct (Hok z Hz) as (_ & Hwz & _). rewrite Ek in Hx, Hk. eapply cmp_trans; [exact Hkw|exact Hw|exact Hwz|done|done]. }
    destruct (decide (skey n = key)) as [E|Hn0].
    + left. exists (ent_of n), hi. split_and!; try done; [rewrite E; by apply test_eq|rewrite E; by apply test_eq
        |rewrite E; by apply cmp_eq|]. apply (Hgt (skey n)); [by left|done].
    + right. destruct (Hne (skey n) Hw Hn0) as (? & ? & Hc). assert (Hlt : KEYCMP key (skey n) < 0).
      { cbn in Hh. rewrite (cmp_antisym (skey n) key) by done. lia. }
      split_and!; [|done|done|done]. constructor; [done|]. apply (Hgt (skey n)); [by right|done].
Qed.

(** New data for a node. *)
Lemma update_rep h s lo hi y e ny p v b :
  sk_rep h s (lo ++ (y, e) :: hi) → nodes h !! y = Some ny →
  ∃ h', upd_node h y (set_data p v b) = Ok h' ∧ sk_rep h' s (lo ++ (y, Ent p (e_key e) (e_level e) v b) :: hi) ∧
    invalidated h' = invalidated h.
Proof.
  intros Hr Hy. unfold upd_node, node. rewrite Hy. cbn [deref]. rbind. eexists. split; [done|]. split; [|done].
  assert (Hin : (y, e) ∈ lo ++ (y, e) :: hi) by (apply elem_of_app; right; apply elem_of_cons; by left).
  assert (He : ent_of ny = e ∧ length (links ny) = S (e_level e)).
  { destruct (rep_stored _ _ _ Hr y e Hin) as (n & Hn & ? & ?). assert (n = ny) as -> by congruence. done. }
  destruct He as [<- Hl]. pose proof (rep_nd _ _ _ Hr) as Hnd. rewrite fmap_app, fmap_cons in Hnd. cbn [fst] in Hnd.
  rewrite app_comm_cons in Hnd. apply NoDup_app in Hnd as Hnd'. destruct Hnd' as (_ & Hdis & [Hyh _]%NoDup_cons).
  assert (Hyl : y ∉ header s :: lo.*1) by (intros ?%Hdis; set_solver).
  assert (Hnx : ∀ c i, nxt (with_nodes (<[y := set_data p v b ny]> (nodes h)) h) c i = nxt h c i).
  { intros c i. unfold nxt. cbn [with_nodes nodes]. destruct (decide (c = y)) as [->|]; [by rewrite lookup_insert_eq, Hy|].
    by rewrite lookup_insert_ne. }
  destruct Hr. constructor; try done.
  - by rewrite fmap_app, fmap_cons in *.
  - unfold has_header. cbn [with_nodes nodes]. rewrite lookup_insert_ne; [done|]. intros ->. apply Hyl, elem_of_cons. by left.
  - intros a e' Ha. cbn [with_nodes nodes]. destruct (decide (a = y)) as [->|Hne].
    + rewrite lookup_insert_eq. apply elem_of_app in Ha as [Ha|[[= ->]|Ha]%elem_of_cons].
      * exfalso. apply Hyl, elem_of_cons. right. apply list_elem_of_fmap. by exists (y, e').
      * eexists. split; [done|]. split; [done|]. done.
      * exfalso. apply Hyh. apply list_elem_of_fmap. by exists (y, e').
    + rewrite lookup_insert_ne by done. apply rep_stored0. apply elem_of_app in Ha as [Ha|[[= -> _]|Ha]%elem_of_cons];
        [apply elem_of_app; by left|done|apply elem_of_app; right; apply elem_of_cons; by right].
  - apply Forall_app in rep_ok0 as [? [He ?]%Forall_cons]. apply Forall_app. split; [done|]. by constructor.
  - apply sorted_app_inv in rep_sorted0 as (H1 & H2 & H3). inversion H2; subst. apply sorted_app; [done|by constructor|].
    intros x z Hx [->|Hz]%elem_of_cons; [apply (H3 x (y, ent_of ny) Hx), elem_of_cons; by left|apply (H3 x z Hx), elem_of_cons; by right].
  - intros i Hi. eapply seg_ext; [intros c _; apply Hnx|]. specialize (rep_seg0 i Hi).
    rewrite tall_app, tall_cons, fmap_app in *. cbn [snd e_level] in *. by case_decide.
  - left. destruct rep_level0 as [->|[E _]]; [by rewrite !top_app|]. by apply app_nil in E as [_ E].
  - by rewrite length_app in *.
Qed.

(** *** Removing a node *)

Lemma tall_nil i xs : (1 ≤ i)%nat → tall i xs = [] ↔ (top xs < i)%nat.
Proof.
  intros Hi. split; [|apply tall_above]. induction xs as [|x xs IH]; simpl; [lia|]. rewrite tall_cons.
  case_decide; [done|]. intros ?%IH. lia.
Qed.

Lemma sub_level hd i lo hi y e :
  NoDup (hd :: (lo ++ (y, e) :: hi).*1) → NoDup (hd :: (tall i lo).*1 ++ y :: (tall i hi).*1).
Proof.
  intros [H1 H2]%NoDup_cons. assert (Hs : ∀ c, c ∈ (tall i lo).*1 ++ y :: (tall i hi).*1 → c ∈ (lo ++ (y, e) :: hi).*1).
  { intros c. rewrite fmap_app, fmap_cons, !elem_of_app, !elem_of_cons. cbn. rewrite !list_elem_of_fmap. setoid_rewrite tall_elem. naive_solver. }
  apply NoDup_cons. split; [by intros ?%Hs|]. rewrite fmap_app, fmap_cons in H2. cbn [fst] in H2.
  apply NoDup_app in H2 as (Hl & Hdis & [Hy Hh]%NoDup_cons). apply NoDup_app.
  assert (Hsub : ∀ l c, c ∈ (tall i l).*1 → c ∈ l.*1).
  { intros l c (z & -> & [_ Hz]%tall_elem)%list_elem_of_fmap. apply list_elem_of_fmap. by exists z. }
  split_and!; [by apply tall_NoDup| |apply NoDup_cons; split; [by intros ?%Hsub|by apply tall_NoDup]].
  intros c Hc%Hsub [Ey|Hd%Hsub]%elem_of_cons; apply (Hdis c Hc); apply elem_of_cons; [by left|by right].
Qed.

(** The chain of level [j] while the levels up to [i] still hold [y]. *)
Definition kept (y : loc) (lo hi : list (loc * ent)) (i j : nat) : list loc :=
  (tall j lo).*1 ++ (if decide (j ≤ i)%nat then y :: (tall j hi).*1 else (tall j hi).*1).

(** The predecessor and the successor on a level are both the header exactly when
    nothing else is left there. *)
Lemma pred_is_succ hd lo hi y i :
  NoDup (hd :: (tall i lo).*1 ++ y :: (tall i hi).*1) → (1 ≤ i)%nat →
  pred_at hd i lo = default hd (head (tall i hi).*1) ↔ (top (lo ++ hi) < i)%nat.
Proof.
  intros Hnd Hi. rewrite <-tall_nil, tall_app by done. rewrite app_nil. unfold pred_at.
  apply NoDup_cons in Hnd as [Hhd Hnd]. apply NoDup_app in Hnd as (_ & Hdis & _).
  split; [|by intros [-> ->]]. destruct (last (tall i lo).*1) as [c|] eqn:El; cbn.
  - apply last_Some_elem_of in El. intros ->. exfalso. destruct (tall i hi).*1 as [|d l]; cbn in *.
    + apply Hhd, elem_of_app. by left.
    + apply (Hdis d El). apply elem_of_cons. right. apply elem_of_cons. by left.
  - apply last_None, fmap_nil_inv in El. rewrite El. intros E. split; [done|].
    destruct (tall i hi) as [|z l]; [done|]. cbn in E. exfalso. apply Hhd. rewrite E. apply elem_of_app. right.
    apply elem_of_cons. right. apply elem_of_cons. by left.
Qed.

Lemma unlink_levels_spec hd y e lo hi u : ∀ i h,
  NoDup (hd :: (lo ++ (y, e) :: hi).*1) → (i ≤ e_level e)%nat → (e_level e < MAX_L)%nat →
  (∀ j, (1 ≤ j ≤ i)%nat → u !! j = Some (pred_at hd j lo)) →
  has_header h hd → stored h (lo ++ (y, e) :: hi) →
  (∀ j, (1 ≤ j < MAX_L)%nat → seg h j hd (kept y lo hi i j) hd) →
  ∃ h', unlink_levels i u y h (Nat.max (top (lo ++ hi)) i) = Ok (h', top (lo ++ hi)) ∧ same_data h h' ∧
    invalidated h' = invalidated h ∧ (∀ j, (1 ≤ j < MAX_L)%nat → seg h' j hd (tall j (lo ++ hi)).*1 hd).
Proof.
  induction i as [|i IH]; intros h Hnd Hi He Hu Hhd Hst Hseg; cbn [unlink_levels].
  { exists h. rewrite Nat.max_0_r. split_and!; [done|apply same_data_refl|done|]. intros j Hj. specialize (Hseg j Hj).
    unfold kept in Hseg. rewrite decide_False in Hseg by lia. by rewrite tall_app, fmap_app. }
  pose proof (sub_level hd (S i) lo hi y e Hnd) as Hnd'. rewrite Hu by lia. cbn [deref]. rbind.
  assert (Hsi : seg h (S i) hd ((tall (S i) lo).*1 ++ y :: (tall (S i) hi).*1) hd).
  { specialize (Hseg (S i) ltac:(lia)). unfold kept in Hseg. by rewrite decide_True in Hseg by lia. }
  pose proof Hsi as [_ Hy]%seg_app. assert (Hny : nxt h y (S i) = Some (default hd (head (tall (S i) hi).*1))).
  { destruct (tall (S i) hi).*1; cbn in *; naive_solver. }
  rewrite (get_link_Ok _ _ _ _ Hny). rbind.
  assert (∃ np, nodes h !! pred_at hd (S i) lo = Some np ∧ (S i < length (links np))%nat) as (np & Hnp & Hlp).
  { pose proof (last_in hd (tall (S i) lo).*1) as Hp. fold (pred_at hd (S i) lo) in Hp.
    apply elem_of_cons in Hp as [Hp|([c ec] & Hp & [Hc1 Hc2]%tall_elem)%list_elem_of_fmap]; rewrite Hp.
    - destruct Hhd as (n0 & ? & _ & ?). exists n0. split; [done|]. lia.
    - cbn in Hc1. destruct (Hst c ec) as (n0 & ? & _ & ?); [apply elem_of_app; by left|]. exists n0. split; [done|lia]. }
  destruct (set_link_Ok h (pred_at hd (S i) lo) (S i) (default hd (head (tall (S i) hi).*1)) np Hnp Hlp) as
    (h1 & E1 & _ & Ei1 & Hn1 & _). rewrite E1. rbind. pose proof (set_link_same _ _ _ _ _ E1) as Hs1.
  destruct (IH h1) as (h' & E & Hs & Ei & Hseg'); [done|lia|done|intros j Hj; apply Hu; lia|by eapply header_same|by eapply stored_same| |].
  - intros j Hj. unfold kept. destruct (decide (j = S i)) as [->|Hne].
    + rewrite decide_False by lia. apply (seg_remove h h1 _ _ _ _ y); [done|done|]. intros c. rewrite Hn1.
      fold (pred_at hd (S i) lo). repeat case_decide; naive_solver.
    + specialize (Hseg j Hj). unfold kept in Hseg.
      replace (if decide (j ≤ i)%nat then y :: (tall j hi).*1 else (tall j hi).*1)
        with (if decide (j ≤ S i)%nat then y :: (tall j hi).*1 else (tall j hi).*1) by (repeat case_decide; first [done|lia]).
      eapply seg_ext; [|exact Hseg]. intros c _. by rewrite Hn1, decide_False by naive_solver.
  - exists h'. replace (if decide (pred_at hd (S i) lo = default hd (head (tall (S i) hi).*1)) then pred (Nat.max (top (lo ++ hi)) (S i))
        else Nat.max (top (lo ++ hi)) (S i)) with (Nat.max (top (lo ++ hi)) i).
    { split_and!; [done|by eapply same_data_trans|congruence|done]. }
    pose proof (pred_is_succ hd lo hi y (S i) Hnd' ltac:(lia)). case_decide; [|]; lia.
Qed.

(** The list without the node. *)
Lemma removed_rep h s lo hi y e h' s' :
  sk_rep h s (lo ++ (y, e) :: hi) → has_header h' (header s) → stored h' (lo ++ hi) →
  (∀ j, (1 ≤ j < MAX_L)%nat → seg h' j (header s) (tall j (lo ++ hi)).*1 (header s)) →
  header s' = header s → size s' = size s - 1 →
  (level s' = top (lo ++ hi) ∨ lo ++ hi = [] ∧ level s' = 1)%nat → sk_rep h' s' (lo ++ hi).
Proof.
  intros Hr Hhd Hst Hseg Eh Es El. constructor; rewrite ?Eh; try done.
  - pose proof (rep_nd _ _ _ Hr) as Hnd. rewrite fmap_app, fmap_cons in Hnd. cbn [fst] in Hnd.
    rewrite app_comm_cons, <-Permutation_middle in Hnd. apply NoDup_cons in Hnd as [_ Hnd]. by rewrite fmap_app.
  - pose proof (rep_ok _ _ _ Hr) as [? [_ ?]%Forall_cons]%Forall_app. by apply Forall_app.
  - pose proof (sorted_app_inv _ _ (rep_sorted _ _ _ Hr)) as (H1 & H2 & H3). inversion H2; subst.
    apply sorted_app; [done|done|]. intros a b Ha Hb. apply (H3 a b Ha), elem_of_cons. by right.
  - rewrite Es, (rep_size _ _ _ Hr), !length_app. simpl. lia.
Qed.

Lemma size_pos h s x xs : sk_rep h s xs → x ∈ xs → (size s =? 0) = false.
Proof. intros Hr Hx. apply Z.eqb_neq. rewrite (rep_size _ _ _ Hr). destruct xs; [by apply elem_of_nil in Hx|]. simpl. lia. Qed.

Lemma nxt_free h a c i : c ≠ a → nxt (free_node h a) c i = nxt h c i.
Proof. intros Hc. unfold nxt, free_node. cbn [with_nodes nodes]. by rewrite lookup_delete_ne. Qed.

Lemma delete_node_rep h s lo hi y e u :
  sk_rep h s (lo ++ (y, e) :: hi) → (∀ i, (1 ≤ i ≤ level s)%nat → u !! i = Some (pred_at (header s) i lo)) →
  Z.of_nat (length (lo ++ (y, e) :: hi)) < 2 ^ 64 →
  ∃ h', unlink_levels (e_level e) u y h (level s) = Ok (h', top (lo ++ hi)) ∧
    sk_rep (free_node h' y) (Skl (top (lo ++ hi)) (u64 (size s - 1)) (all_length s) (data_size s) (header s)) (lo ++ hi) ∧
    invalidated h' = invalidated h.
Proof.
  intros Hr Hu Hsz. pose proof (rep_nd _ _ _ Hr) as Hnd. pose proof (rep_ok _ _ _ Hr) as [_ [[He _] _]%Forall_cons]%Forall_app.
  cbn in He. assert (El : level s = Nat.max (top (lo ++ hi)) (e_level e)).
  { destruct (rep_level _ _ _ Hr) as [->|[E _]]; [rewrite !top_app; simpl; lia|by apply app_nil in E as [_ E]]. }
  destruct (unlink_levels_spec (header s) y e lo hi u (e_level e) h) as (h' & E & Hs & Ei & Hseg); try done; try lia.
  { intros j Hj. apply Hu. lia. }
  { apply Hr. } { apply Hr. }
  { intros j Hj. pose proof (rep_seg _ _ _ Hr j Hj) as H. rewrite tall_app, tall_cons, fmap_app in H. unfold kept. cbn in H.
    by repeat case_decide. }
  exists h'. rewrite El, E. split; [done|]. split; [|done].
  rewrite fmap_app, fmap_cons in Hnd. cbn [fst] in Hnd. rewrite app_comm_cons, <-Permutation_middle in Hnd.
  apply NoDup_cons in Hnd as [Hy _]. rewrite <-app_comm_cons, <-fmap_app in Hy.
  assert (Hkeep : ∀ c, c ∈ header s :: (lo ++ hi).*1 → c ≠ y) by (by intros c Hc ->).
  apply (removed_rep h s lo hi y e); cbn [header size level]; try done.
  - destruct (header_same _ _ _ Hs (rep_hd _ _ _ Hr)) as (n & Hn & ?). exists n. split; [|done].
    unfold free_node. cbn [with_nodes nodes]. rewrite lookup_delete_ne; [done|]. intros Ey. apply (Hkeep (header s)); [apply elem_of_cons; by left|done].
  - intros a ea Ha. assert (a ≠ y) by (apply Hkeep, elem_of_cons; right; apply list_elem_of_fmap; by exists (a, ea)).
    unfold free_node. cbn [with_nodes nodes]. rewrite lookup_delete_ne by done.
    apply (stored_same _ _ _ Hs (rep_stored _ _ _ Hr)). apply elem_of_app in Ha as [Ha|Ha]; apply elem_of_app; [by left|right].
    apply elem_of_cons. by right.
  - intros j Hj. eapply seg_ext; [|by apply Hseg]. intros c Hc. apply nxt_free, Hkeep.
    apply elem_of_cons in Hc as [->|(z & -> & [_ Hz]%tall_elem)%list_elem_of_fmap]; apply elem_of_cons; [by left|right].
    apply list_elem_of_fmap. by exists z.
  - rewrite (rep_size _ _ _ Hr) in *. rewrite length_app in *. simpl in *. apply u64_id. lia.
  - by left.
Qed.

(** *** Popping the first node *)

Lemma pop_levels_spec hd x e hi : ∀ n i h,
  (1 ≤ i ≤ S (e_level e))%nat → (e_level e < i + n)%nat → (i + n ≤ MAX_L)%nat →
  NoDup (hd :: ((x, e) :: hi).*1) → has_header h hd →
  (∀ j, (1 ≤ j < MAX_L)%nat → seg h j hd (tall j (if decide (j < i)%nat then hi else (x, e) :: hi)).*1 hd) →
  ∃ h', pop_levels n i hd x h = Ok h' ∧ same_data h h' ∧ invalidated h' = invalidated h ∧
    (∀ j, (1 ≤ j < MAX_L)%nat → seg h' j hd (tall j hi).*1 hd).
Proof.
  induction n as [|n IH]; intros i h Hi Hn Hmax Hnd Hhd Hseg; cbn [pop_levels].
  all: assert (Hdone : (i = S (e_level e))%nat → ∀ j, (1 ≤ j < MAX_L)%nat → seg h j hd (tall j hi).*1 hd)
    by (intros E j Hj; specialize (Hseg j Hj); case_decide; [done|]; rewrite tall_cons in Hseg; cbn in Hseg;
        by rewrite decide_False in Hseg by lia).
  { exists h. split_and!; [done|apply same_data_refl|done|apply Hdone; lia]. }
  pose proof (sub_level hd i [] hi x e Hnd) as Hnd'. cbn in Hnd'.
  destruct (decide (i = S (e_level e))) as [E|Hle].
  - specialize (Hdone E). pose proof (Hdone i ltac:(lia)) as Hs.
    assert (Hl : nxt h hd i = Some (default hd (head (tall i hi).*1))) by (destruct (tall i hi).*1; cbn in *; naive_solver).
    rewrite (get_link_Ok _ _ _ _ Hl). rbind. rewrite decide_False; [exists h; split_and!; [done|apply same_data_refl|done|done]|].
    apply NoDup_cons in Hnd' as [H1 [H2 _]%NoDup_cons]. destruct (tall i hi).*1 as [|z l]; cbn; set_solver.
  - pose proof (Hseg i ltac:(lia)) as Hs. rewrite decide_False, tall_cons in Hs by lia. cbn in Hs.
    rewrite decide_True in Hs by lia. destruct Hs as [Hhx Hs]. fold (fmap (M:=list) (fst (A:=loc) (B:=ent)) (tall i hi)) in Hs.
    rewrite (get_link_Ok _ _ _ _ Hhx). rbind. rewrite decide_True by done.
    assert (Hl : nxt h x i = Some (default hd (head (tall i hi).*1))) by (destruct (tall i hi).*1; cbn in *; naive_solver).
    rewrite (get_link_Ok _ _ _ _ Hl). rbind. destruct Hhd as (nh & Hnh & Hk & Hlh).
    destruct (set_link_Ok h hd i (default hd (head (tall i hi).*1)) nh Hnh ltac:(lia)) as (h1 & E1 & _ & Ei1 & Hn1 & _).
    rewrite E1. rbind. pose proof (set_link_same _ _ _ _ _ E1) as Hs1.
    destruct (IH (S i) h1) as (h' & E & Hs' & Ei & Hseg'); [lia|lia|lia|done|eapply header_same; [done|by exists nh]| |].
    + intros j Hj. destruct (decide (j = i)) as [->|Hne].
      * rewrite decide_True by lia. apply (seg_remove h h1 i hd [] (tall i hi).*1 x); [by split|done|].
        intros c. rewrite Hn1. cbn. repeat case_decide; naive_solver.
      * specialize (Hseg j Hj). replace (if decide (j < S i)%nat then hi else (x, e) :: hi)
          with (if decide (j < i)%nat then hi else (x, e) :: hi) by (repeat case_decide; first [done|lia]).
        eapply seg_ext; [|exact Hseg]. intros c _. by rewrite Hn1, decide_False by naive_solver.
    + exists h'. split_and!; [done|by eapply same_data_trans|congruence|done].
Qed.

Lemma drop_levels_spec hd hi h lv :
  (∀ j, (1 ≤ j < MAX_L)%nat → seg h j hd (tall j hi).*1 hd) → hd ∉ hi.*1 → (1 ≤ lv < MAX_L)%nat → (top hi ≤ lv)%nat →
  drop_levels lv hd h = Ok (Nat.max 1 (top hi)).
Proof.
  intros Hseg Hhd. induction lv as [|lv IH]; intros Hlv Ht; [lia|]. cbn [drop_levels].
  destruct (Nat.leb_spec (S lv) 1); [f_equal; lia|]. specialize (Hseg (S lv) Hlv).
  assert (Hl : nxt h hd (S lv) = Some (default hd (head (tall (S lv) hi).*1)))
    by (destruct (tall (S lv) hi).*1; cbn in *; naive_solver).
  rewrite (get_link_Ok _ _ _ _ Hl). rbind. pose proof (tall_nil (S lv) hi ltac:(lia)) as Hnil. case_decide as E.
  - apply IH; [lia|]. assert (tall (S lv) hi = []); [|apply Hnil in H0; lia].
    destruct (tall (S lv) hi) as [|z l] eqn:Ez; [done|]. cbn in E. exfalso. apply Hhd. rewrite <-E. apply list_elem_of_fmap.
    exists z. split; [done|]. apply (tall_elem (S lv)). rewrite Ez. apply elem_of_cons. by left.
  - f_equal. assert (tall (S lv) hi ≠ []); [intros E'; by rewrite E' in E|]. rewrite Hnil in H0. lia.
Qed.

Lemma pop_rep h s x e hi :
  sk_rep h s ((x, e) :: hi) → Z.of_nat (length ((x, e) :: hi)) < 2 ^ 64 →
  ∃ h' s' n, skiplist_pop h s = Ok (Some x, h', s') ∧ sk_rep h' s' hi ∧ nodes h' !! x = Some n ∧ ent_of n = e ∧
    all_length s' = u32 (all_length s - KEYLEN (e_key e)) ∧ header s' = header s ∧ invalidated h' = invalidated h.
Proof.
  intros Hr Hsz. unfold skiplist_pop. pose proof (rep_nd _ _ _ Hr) as Hnd.
  pose proof (rep_ok _ _ _ Hr) as [[He _] Hok]%Forall_cons. cbn in He.
  rewrite (size_pos h s (x, e) _ Hr) by (apply elem_of_cons; by left).
  assert (Hx : nxt h (header s) 1 = Some x).
  { pose proof (rep_seg _ _ _ Hr 1%nat ltac:(unfold MAX_L; lia)) as Hs. rewrite tall_1 in Hs by apply Hr. by destruct Hs. }
  rewrite (get_link_Ok _ _ _ _ Hx). rbind.
  destruct (rep_stored _ _ _ Hr x e) as (n & Hn & En & _); [apply elem_of_cons; by left|].
  unfold node. rewrite Hn. cbn [deref]. rbind.
  destruct (level_range h s [] ((x, e) :: hi) Hr) as [Hlv Htop].
  change (top ([] ++ (x, e) :: hi)) with (Nat.max (e_level e) (top hi)) in Htop.
  destruct (pop_levels_spec (header s) x e hi (level s) 1 h) as (h' & -> & Hs & Ei & Hseg); [lia|lia|lia|done|apply Hr| |].
  { intros j Hj. rewrite decide_False by lia. by apply Hr. }
  rbind. cbn [fmap list_fmap] in Hnd. apply NoDup_cons in Hnd as [Hhd Hnd]. apply not_elem_of_cons in Hhd as [_ Hhd].
  rewrite (drop_levels_spec (header s) hi h' (level s) Hseg Hhd ltac:(lia) ltac:(lia)). rbind.
  destruct (Hs x n Hn) as (n' & Hn' & En' & _). eexists h', _, n'. split; [done|].
  split; [|split_and!; [done|congruence|cbn; by rewrite <-En|done|done]].
  apply (removed_rep h s [] hi x e); cbn [header size level app]; try done.
  - by eapply header_same; [|apply Hr].
  - intros a ea Ha. apply (stored_same _ _ _ Hs (rep_stored _ _ _ Hr)). apply elem_of_cons. by right.
  - rewrite (rep_size _ _ _ Hr) in *. cbn [length] in *. apply u64_id. lia.
  - destruct hi as [|z hi]; [by right|left]. apply Forall_cons in Hok as [[Hz _] _]. simpl. lia.
Qed.

(** *** Creating, walking and clearing *)

Lemma empty_links h hd n j :
  nodes h !! hd = Some n → take MAX_L (links n) = replicate MAX_L (Some hd) → (j < MAX_L)%nat → nxt h hd j = Some hd.
Proof.
  intros Hn Hl Hj. unfold nxt. rewrite Hn. cbn. rewrite <-(lookup_take_lt (links n) MAX_L j Hj), Hl.
  by rewrite lookup_replicate_2.
Qed.

Lemma empty_rep h s n :
  nodes h !! header s = Some n → skey n = key_max → length (links n) = S MAX_L →
  take MAX_L (links n) = replicate MAX_L (Some (header s)) → size s = 0 → (level s = 0 ∨ level s = 1)%nat → sk_rep h s [].
Proof.
  intros Hn Hk Hl Hlinks Es El. constructor; try done.
  - apply NoDup_cons. split; [apply not_elem_of_nil|constructor].
  - by exists n.
  - intros a e Ha. by apply elem_of_nil in Ha.
  - constructor.
  - intros j Hj. cbn. eapply empty_links; [done|done|lia].
  - destruct El as [El|El]; [by left|by right].
Qed.

Lemma init_rep h junk : let '(s, h') := skiplist_init h junk in sk_rep h' s [] ∧ data_size s = junk ∧ all_length s = 0.
Proof.
  unfold skiplist_init. split; [|done]. eapply empty_rep; [apply lookup_insert_eq|done|done|done|done|by right].
Qed.

Lemma base_chain h s xs : sk_rep h s xs → seg h 1 (header s) xs.*1 (header s).
Proof. intros Hr. rewrite <-(tall_1 xs) by apply Hr. apply Hr. unfold MAX_L. lia. Qed.

Lemma iterate_spec h s l : ∀ fuel now, seg h 1 now l (header s) → header s ∉ l → (length l < fuel)%nat →
  iterate fuel h s now = Ok l.
Proof.
  induction l as [|x l IH]; intros [|fuel] now Hs Hhd Hf; simpl in Hf; try lia; cbn [iterate]; unfold skiplist_get_next.
  - rewrite (get_link_Ok _ _ _ _ Hs). rbind. by rewrite decide_True.
  - destruct Hs as [Hx Hs]. apply not_elem_of_cons in Hhd as [Hne Hhd]. rewrite (get_link_Ok _ _ _ _ Hx). rbind.
    rewrite decide_False by done. rbind. rewrite (IH fuel x Hs Hhd) by lia. done.
Qed.

Lemma clear_loop_spec hd l : ∀ fuel h y, seg h 1 y l hd → NoDup (y :: l) → hd ∉ y :: l → (length l + 1 < fuel)%nat →
  ∃ h', clear_loop fuel h hd y = Ok h' ∧ invalidated h' = invalidated h ∧
    ∀ c, nodes h' !! c = if decide (c ∈ y :: l) then None else nodes h !! c.
Proof.
  induction l as [|x l IH]; intros [|fuel] h y Hs Hnd Hhd Hf; simpl in Hf; try lia; cbn [clear_loop];
    (rewrite decide_False by (intros ->; apply Hhd, elem_of_cons; by left)).
  all: assert (∃ n, nodes h !! y = Some n) as [n Hn] by
    (destruct (nodes h !! y) eqn:E; [by eexists|]; cbn in Hs; unfold nxt in Hs; rewrite E in Hs; naive_solver).
  all: unfold node; rewrite Hn; cbn [deref]; rbind.
  - rewrite (get_link_Ok _ _ _ _ Hs). rbind. destruct fuel as [|fuel]; [lia|]. cbn [clear_loop]. rewrite decide_True by done.
    eexists. split; [done|]. split; [done|]. intros c. unfold free_node. cbn [with_nodes nodes].
    rewrite lookup_delete. case_decide; case_decide; set_solver.
  - destruct Hs as [Hx Hs]. rewrite (get_link_Ok _ _ _ _ Hx). rbind. apply NoDup_cons in Hnd as [Hy Hnd].
    destruct (IH fuel (free_node h y) x) as (h' & -> & Ei & Hn'); [|done|set_solver|lia|].
    { eapply seg_ext; [|exact Hs]. intros c Hc. apply nxt_free. by intros ->. }
    exists h'. split; [done|]. split; [done|]. intros c. rewrite Hn'. unfold free_node. cbn [with_nodes nodes].
    rewrite lookup_delete. repeat case_decide; set_solver.
Qed.

Lemma clear_rep h s xs : sk_rep h s xs →
  ∃ h' s', skiplist_clear h s = Ok (h', s') ∧ sk_rep h' s' [] ∧ header s' = header s ∧ invalidated h' = invalidated h ∧
    ∀ c, c ≠ header s → nodes h' !! c = if decide (c ∈ xs.*1) then None else nodes h !! c.
Proof.
  intros Hr. pose proof (base_chain h s xs Hr) as Hs. pose proof (rep_nd _ _ _ Hr) as [Hhd Hnd]%NoDup_cons.
  unfold skiplist_clear. assert (Hlen : (length (header s :: xs.*1) <= map_size (nodes h))%nat).
  { apply length_nodes; [by apply NoDup_cons|]. intros c [->|([a e] & -> & Ha)%list_elem_of_fmap]%elem_of_cons.
    - destruct (rep_hd _ _ _ Hr) as (n & ? & _). by exists n.
    - destruct (rep_stored _ _ _ Hr a e Ha) as (n & ? & _). by exists n. }
  assert (∃ h1, (now ← get_link h (header s) 1; clear_loop (fuel_of h) h (header s) now) = Ok h1 ∧ invalidated h1 = invalidated h ∧
    ∀ c, nodes h1 !! c = if decide (c ∈ xs.*1) then None else nodes h !! c) as (h1 & E1 & Ei1 & Hn1).
  { destruct xs.*1 as [|y l]; cbn in Hs.
    - rewrite (get_link_Ok _ _ _ _ Hs). rbind. unfold fuel_of. cbn [clear_loop]. rewrite decide_True by done.
      exists h. split_and!; [done|done|]. intros c. by rewrite decide_False by apply not_elem_of_nil.
    - destruct Hs as [Hy Hs]. rewrite (get_link_Ok _ _ _ _ Hy). rbind. apply clear_loop_spec; [done|done|done|].
      unfold fuel_of. simpl in Hlen. lia. }
  apply res_bind_Ok in E1 as (now & -> & E1). rbind. rewrite E1. rbind.
  destruct (rep_hd _ _ _ Hr) as (nh & Hnh & Hk & Hl). unfold upd_node, node. rewrite Hn1, decide_False, Hnh by done.
  cbn [deref]. rbind. eexists _, _. split; [done|]. split; [|split_and!; try done].
  - eapply empty_rep; [apply lookup_insert_eq|done| | |done|by left].
    + cbn [links]. rewrite length_app, length_replicate, length_drop, Hl. done.
    + cbn [links]. by rewrite take_app_length' by (by rewrite length_replicate).
  - intros c Hc. cbn [with_nodes nodes]. by rewrite lookup_insert_ne.
Qed.

Lemma free_rep h s xs : sk_rep h s xs →
  ∃ h', skiplist_free h s = Ok h' ∧ ∀ c, nodes h' !! c = if decide (c ∈ header s :: xs.*1) then None else nodes h !! c.
Proof.
  intros Hr. destruct (clear_rep h s xs Hr) as (h' & s' & E & _ & Eh & _ & Hn). unfold skiplist_free. rewrite E. rbind.
  eexists. split; [done|]. intros c. unfold free_node. cbn [with_nodes nodes]. rewrite Eh, lookup_delete.
  destruct (decide (header s = c)) as [->|Hne]; [by rewrite decide_True by (apply elem_of_cons; by left)|].
  rewrite Hn by done. apply decide_ext. rewrite elem_of_cons. naive_solver.
Qed.

(** ** Specification: a sorted list of entries *)

Record item := Item { i_key : str_key; i_ppa : option Z; i_value : option vset; i_valid : option bool }.
Definition item_of (e : ent) : item := Item (e_key e) (e_ppa e) (e_value e) (e_valid e).
Definition view (xs : list (loc * ent)) : list item := (λ x, item_of x.2) <$> xs.

Definition lts (k : str_key) (l : list item) : list item := filter (λ x, KEYCMP (i_key x) k < 0) l.
Definition gts (k : str_key) (l : list item) : list item := filter (λ x, 0 < KEYCMP (i_key x) k) l.
Definition get (k : str_key) (l : list item) : option item := head (filter (λ x, KEYCMP (i_key x) k = 0) l).
Definition put (it : item) (l : list item) : list item := lts (i_key it) l ++ it :: gts (i_key it) l.

Inductive op :=
| Insert (k : str_key) (v : vset) (b : bool) | InsertIter (k : str_key) (p : Z)
| InsertWP (k : str_key) (p : Z) (b : bool) | InsertIgnore (k : str_key) (p : Z) (b : bool)
| Find (k : str_key) | Lower (k : str_key) | Floor (k : str_key) | StrictFloor (k : str_key)
| Delete (k : str_key) | Pop | Clear | Items.
Inductive out := ORc (z : Z) | OItem (o : option item) | OItems (l : list item).

Definition op_ok (o : op) : Prop :=
  match o with
  | Insert k _ _ | InsertIter k _ | InsertWP k _ _ | InsertIgnore k _ _ => key_in k
  | Find k | Lower k | Floor k | StrictFloor k | Delete k => key_in k
  | Pop | Clear | Items => True
  end.

(** What each operation does to the entries, and when it stops. *)
Definition spec_step (o : op) (l : list item) : res (out * list item) :=
  match o with
  | Insert k v b =>
    match get k l with
    | Some it => _ ← deref (i_value it); Ok (ORc 0, put (Item k (i_ppa it) (Some (in_pieces v)) (Some b)) l)
    | None => Ok (ORc 0, put (Item k (Some UINT_MAX) (Some (in_pieces v)) (Some b)) l)
    end
  | InsertIter k p =>
    match get k l with
    | Some it => Ok (ORc 0, put (Item k (Some p) (i_value it) (i_valid it)) l)
    | None => Ok (ORc 0, put (Item k (Some p) None None) l)
    end
  | InsertWP k p b =>
    match get k l with Some _ => Err Aborted | None => Ok (ORc 0, put (Item k (Some p) None (Some b)) l) end
  | InsertIgnore k p b =>
    match get k l with
    | Some it => old ← deref (i_ppa it);
        if p =? old then Err Aborted else Ok (ORc 0, put (Item k (Some p) (i_value it) (Some b)) l)
    | None => Ok (ORc 0, put (Item k (Some p) None (Some b)) l)
    end
  | Find k => Ok (OItem (get k l), l)
  | Lower k => Ok (OItem (head (filter (λ x, 0 <= KEYCMP (i_key x) k) l)), l)
  | Floor k | StrictFloor k =>
    Ok (OItem (match last (filter (λ x, KEYCMP (i_key x) k <= 0) l) with Some it => Some it | None => head l end), l)
  | Delete k =>
    if (length l =? 0)%nat then Ok (ORc (-1), l)
    else match get k l with
         | None => Ok (ORc (-2), l)
         | Some _ => Ok (ORc 0, lts k l ++ gts k l)
         end
  | Pop => match l with [] => Ok (OItem None, []) | it :: l => Ok (OItem (Some it), l) end
  | Clear => Ok (ORc 0, [])
  | Items => Ok (OItems l, l)
  end.
Fixpoint spec_run (os : list op) (l : list item) : res (list out) :=
  match os with [] => Ok [] | o :: os => '(r, l) ← spec_step o l; rs ← spec_run os l; Ok (r :: rs) end.

Section run.
Variable rand : nat → Z.

Definition read_item (h : store) (a : loc) : res item := n ← node h a; Ok (item_of (ent_of n)).
Fixpoint read_items (h : store) (l : list loc) : res (list item) :=
  match l with [] => Ok [] | a :: l => it ← read_item h a; its ← read_items h l; Ok (it :: its) end.
(** The entry behind a result; callers recognise the header as the end. *)
Definition read_result (h : store) (s : skiplist) (o : option loc) : res out :=
  match o with
  | None => Ok (OItem None)
  | Some a => if decide (a = header s) then Ok (OItem None) else it ← read_item h a; Ok (OItem (Some it))
  end.

Definition step (o : op) (h : store) (s : skiplist) : res (out * store * skiplist) :=
  match o with
  | Insert k v b => '(_, h, s) ← skiplist_insert rand h s k (Some v) b; Ok (ORc 0, h, s)
  | InsertIter k p => '(_, h, s) ← skiplist_insert_iter rand h s k p; Ok (ORc 0, h, s)
  | InsertWP k p b => '(_, h, s) ← skiplist_insert_wP rand h s k p b; Ok (ORc 0, h, s)
  | InsertIgnore k p b => '(_, h, s) ← skiplist_insert_existIgnore rand h s k p b; Ok (ORc 0, h, s)
  | Find k => r ← skiplist_find h s k; r ← read_result h s r; Ok (r, h, s)
  | Lower k => r ← skiplist_find_lowerbound h s k; r ← read_result h s r; Ok (r, h, s)
  | Floor k => r ← skiplist_range_search h s k; r ← read_result h s r; Ok (r, h, s)
  | StrictFloor k => r ← skiplist_strict_range_search h s k; r ← read_result h s r; Ok (r, h, s)
  | Delete k => '(z, h, s) ← skiplist_delete h s k; Ok (ORc z, h, s)
  | Pop => '(r, h, s) ← skiplist_pop h s; r ← read_result h s r; Ok (r, h, s)
  | Clear => '(h, s) ← skiplist_clear h s; Ok (ORc 0, h, s)
  | Items => l ← iterate (fuel_of h) h s (skiplist_get_iterator s); its ← read_items h l; Ok (OItems its, h, s)
  end.
Fixpoint run (os : list op) (h : store) (s : skiplist) : res (list out) :=
  match os with [] => Ok [] | o :: os => '(r, h, s) ← step o h s; rs ← run os h s; Ok (r :: rs) end.

(** *** The operations refine the specification *)

Lemma view_app l1 l2 : view (l1 ++ l2) = view l1 ++ view l2.
Proof. apply fmap_app. Qed.

Lemma view_filter (Pr : item → Prop) `{∀ x, Decision (Pr x)} l :
  (Forall (λ x, Pr (item_of x.2)) l → filter Pr (view l) = view l) ∧
  (Forall (λ x, ¬ Pr (item_of x.2)) l → filter Pr (view l) = []).
Proof. split; intros Hl; [apply filter_all|apply filter_none]; by apply Forall_fmap. Qed.

Lemma above_sign l k : key_in k → Forall ent_ok l → Forall (λ z, KEYCMP k (e_key z.2) < 0) l →
  Forall (λ z, 0 < KEYCMP (e_key z.2) k) l.
Proof.
  intros [Hk _] Hok Hl. rewrite !Forall_forall in *. intros z Hz. specialize (Hl z Hz). destruct (Hok z Hz) as (_ & Hw & _).
  rewrite (cmp_antisym k (e_key z.2)) by done. lia.
Qed.

(** The entries around a key. *)
Lemma view_cut k lo hi (hi' : list (loc * ent)) (o : option item) :
  cut k below lo hi → key_in k → Forall ent_ok hi → Forall (λ z, KEYCMP k (e_key z.2) < 0) hi' →
  ((∃ y e, hi = (y, e) :: hi' ∧ e_key e = k ∧ o = Some (item_of e)) ∨ hi = hi' ∧ o = None) →
  lts k (view (lo ++ hi)) = view lo ∧ gts k (view (lo ++ hi)) = view hi' ∧ get k (view (lo ++ hi)) = o.
Proof.
  intros (Hlo & _ & _) Hk Hok Hhi Hcase. unfold lts, gts, get. rewrite view_app, !filter_app.
  assert (Hlo' : Forall (λ x, KEYCMP (e_key x.2) k < 0) lo) by (eapply Forall_impl; [exact Hlo|]; by intros x ?%Z.ltb_lt).
  destruct (view_filter (λ x, KEYCMP (i_key x) k < 0) lo) as [-> _]; [|done].
  destruct (view_filter (λ x, 0 < KEYCMP (i_key x) k) lo) as [_ ->]; [|eapply Forall_impl; [exact Hlo'|]; cbn; lia].
  destruct (view_filter (λ x, KEYCMP (i_key x) k = 0) lo) as [_ ->]; [|eapply Forall_impl; [exact Hlo'|]; cbn; lia].
  assert (Hok' : Forall ent_ok hi') by (destruct Hcase as [(y & e & -> & _)|[-> _]]; [by apply Forall_cons in Hok as [_ ?]|done]).
  pose proof (above_sign hi' k Hk Hok' Hhi) as Habove.
  assert (H1 : filter (λ x, KEYCMP (i_key x) k < 0) (view hi') = []) by (apply view_filter; eapply Forall_impl; [exact Habove|]; cbn; lia).
  assert (H2 : filter (λ x, 0 < KEYCMP (i_key x) k) (view hi') = view hi') by (by apply view_filter).
  assert (H3 : filter (λ x, KEYCMP (i_key x) k = 0) (view hi') = []) by (apply view_filter; eapply Forall_impl; [exact Habove|]; cbn; lia).
  destruct Hcase as [(y & e & -> & Ek & ->)|[-> ->]].
  - assert (E0 : KEYCMP (i_key (item_of e)) k = 0) by (cbn; rewrite Ek; apply cmp_eq; [apply Hk|apply Hk|done]).
    change (view ((y, e) :: hi')) with (item_of e :: view hi'). rewrite !filter_cons, H1, H2, H3. cbn [app].
    rewrite decide_False, decide_False, decide_True by lia. by rewrite app_nil_r.
  - rewrite H1, H2, H3. by rewrite app_nil_r.
Qed.

(** A search with [below], and what it says about the entries. *)
Lemma search_below h s xs k : sk_rep h s xs → key_in k →
  ∃ lo hi hi' u x y ny, xs = lo ++ hi ∧ search h s k below = Ok (x, u) ∧ get_link h x 1 = Ok y ∧ nodes h !! y = Some ny ∧
    (∀ i, (1 ≤ i ≤ level s)%nat → u !! i = Some (pred_at (header s) i lo)) ∧ cut k below lo hi ∧
    lts k (view xs) = view lo ∧ gts k (view xs) = view hi' ∧ Forall (λ z, KEYCMP k (e_key z.2) < 0) hi' ∧
    y = default (header s) (head hi.*1) ∧
    ((∃ e, hi = (y, e) :: hi' ∧ ent_of ny = e ∧ e_key e = k ∧ KEYTEST k (skey ny) = true ∧ KEYTEST (skey ny) k = true ∧
        KEYCMP (skey ny) k = 0 ∧ get k (view xs) = Some (item_of e)) ∨
     (hi = hi' ∧ KEYTEST k (skey ny) = false ∧ KEYTEST (skey ny) k = false ∧ KEYCMP (skey ny) k ≠ 0 ∧ get k (view xs) = None)).
Proof.
  intros Hr Hk. destruct (cut_below k xs (rep_sorted _ _ _ Hr) (rep_ok _ _ _ Hr) Hk) as (lo & hi & -> & Hcut).
  destruct (search_spec h s lo hi k below Hr Hcut) as (u & E & Hu & El).
  pose proof (rep_ok _ _ _ Hr) as [_ Hok]%Forall_app.
  destruct (found_spec h s lo hi k Hr Hcut Hk) as (ny & Hny & [(e & hi' & Ehi & Ee & Ek & T1 & T2 & C & Hgt)|(Hgt & T1 & T2 & C)]).
  - destruct (view_cut k lo hi hi' (Some (item_of e)) Hcut Hk Hok Hgt) as (V1 & V2 & V3); [left; by eexists _, e|].
    exists lo, hi, hi', u, (pred_at (header s) 1 lo), (default (header s) (head hi.*1)), ny.
    split_and!; try done. left. by exists e.
  - destruct (view_cut k lo hi hi None Hcut Hk Hok Hgt) as (V1 & V2 & V3); [by right|].
    exists lo, hi, hi, u, (pred_at (header s) 1 lo), (default (header s) (head hi.*1)), ny.
    split_and!; try done. by right.
Qed.

(** A step and what the specification says it does. *)
Definition refines (r : res (out * store * skiplist)) (sp : res (out * list item)) : Prop :=
  match sp with
  | Ok (o, l) => ∃ h' s' xs', r = Ok (o, h', s') ∧ sk_rep h' s' xs' ∧ view xs' = l
  | Err e => r = Err e
  end.

Lemma refines_Ok o h s xs l : sk_rep h s xs → view xs = l → refines (Ok (o, h, s)) (Ok (o, l)).
Proof. intros Hr Hv. by exists h, s, xs. Qed.

Lemma insert_new h s lo hi k u p v b :
  sk_rep h s (lo ++ hi) → cut k below lo hi → key_in k → Forall (λ z, KEYCMP k (e_key z.2) < 0) hi →
  (∀ i, (1 ≤ i ≤ level s)%nat → u !! i = Some (pred_at (header s) i lo)) → Z.of_nat (length (lo ++ hi)) + 1 < 2 ^ 64 →
  lts k (view (lo ++ hi)) = view lo → gts k (view (lo ++ hi)) = view hi →
  ∃ x h' s' ys, insert_node rand h s u k p v b = Ok (x, h', s') ∧ sk_rep h' s' ys ∧ view ys = put (Item k p v b) (view (lo ++ hi)).
Proof.
  intros Hr Hcut Hk Hhi Hu Hsz V1 V2. destruct (insert_node_rep rand h s lo hi k u p v b Hr Hcut Hk Hhi Hu Hsz) as
    (x & lv & h' & s' & E & Hr' & _). exists x, h', s', (lo ++ (x, Ent p k lv v b) :: hi). split_and!; [done|done|].
  unfold put. cbn [i_key]. by rewrite V1, V2, view_app.
Qed.

Lemma insert_over h s lo hi y e ny k p v b :
  sk_rep h s (lo ++ (y, e) :: hi) → nodes h !! y = Some ny → e_key e = k →
  lts k (view (lo ++ (y, e) :: hi)) = view lo → gts k (view (lo ++ (y, e) :: hi)) = view hi →
  ∃ h' ys, upd_node h y (set_data p v b) = Ok h' ∧ sk_rep h' s ys ∧ view ys = put (Item k p v b) (view (lo ++ (y, e) :: hi)).
Proof.
  intros Hr Hy Ek V1 V2. destruct (update_rep h s lo hi y e ny p v b Hr Hy) as (h' & E & Hr' & _).
  exists h', (lo ++ (y, Ent p (e_key e) (e_level e) v b) :: hi). split_and!; [done|done|].
  unfold put. cbn [i_key]. rewrite V1, V2, view_app. by rewrite Ek.
Qed.

(** Take the search and the node it finds out of an operation. *)
Ltac search_step Hr Hk :=
  let E := fresh "Esearch" in let El := fresh "El" in let Hny := fresh "Hny" in
  destruct (search_below _ _ _ _ Hr Hk) as (lo & hi & hi' & u & x & y & ny & -> & E & El & Hny & Hu & Hcut & V1 & V2 & Hgt & Ey & Hcase);
  rewrite E; rbind; rewrite El; rbind; unfold node at 1; rewrite Hny; cbn [deref]; rbind.

Lemma insert_refines h s xs k v b : sk_rep h s xs → key_in k → Z.of_nat (length xs) + 1 < 2 ^ 64 →
  refines (step (Insert k v b) h s) (spec_step (Insert k v b) (view xs)).
Proof.
  intros Hr Hk Hsz. cbn [step spec_step]. unfold skiplist_insert. search_step Hr Hk.
  destruct Hcase as [(e & -> & Ee & Ek & T & _ & _ & ->)|(-> & T & _ & _ & ->)]; rewrite T; cbn [fmap option_fmap option_map].
  - cbn [i_value item_of]. replace (e_value e) with (value ny) by (by rewrite <-Ee). destruct (value ny) as [old|]; [|done].
    cbn [deref]. rbind. destruct (insert_over h s lo hi' y e ny k (ppa ny) (Some (in_pieces v)) (Some b) Hr Hny Ek V1 V2) as
      (h' & ys & -> & Hr' & Hv). rbind. eapply refines_Ok; [by eapply rep_counters|]. rewrite Hv. by rewrite <-Ee.
  - destruct (insert_new h s lo hi' k u (Some UINT_MAX) (Some (in_pieces v)) (Some b) Hr Hcut Hk Hgt Hu Hsz V1 V2) as
      (z & h' & s' & ys & -> & Hr' & Hv). rbind. cbn [deref]. rbind. eapply refines_Ok; [by eapply rep_counters|done].
Qed.

Lemma insert_iter_refines h s xs k p : sk_rep h s xs → key_in k → Z.of_nat (length xs) + 1 < 2 ^ 64 →
  refines (step (InsertIter k p) h s) (spec_step (InsertIter k p) (view xs)).
Proof.
  intros Hr Hk Hsz. cbn [step spec_step]. unfold skiplist_insert_iter. search_step Hr Hk.
  destruct Hcase as [(e & -> & Ee & Ek & T & _ & _ & ->)|(-> & T & _ & _ & ->)]; rewrite T.
  - destruct (insert_over h s lo hi' y e ny k (Some p) (value ny) (isvalid ny) Hr Hny Ek V1 V2) as (h' & ys & -> & Hr' & Hv).
    rbind. eapply refines_Ok; [done|]. rewrite Hv. by rewrite <-Ee.
  - destruct (insert_new h s lo hi' k u (Some p) None None Hr Hcut Hk Hgt Hu Hsz V1 V2) as (z & h' & s' & ys & -> & Hr' & Hv).
    rbind. eapply refines_Ok; [by eapply rep_counters|done].
Qed.

Lemma insert_wP_refines h s xs k p b : sk_rep h s xs → key_in k → Z.of_nat (length xs) + 1 < 2 ^ 64 →
  refines (step (InsertWP k p b) h s) (spec_step (InsertWP k p b) (view xs)).
Proof.
  intros Hr Hk Hsz. cbn [step spec_step]. unfold skiplist_insert_wP. search_step Hr Hk.
  destruct Hcase as [(e & -> & Ee & Ek & T & _ & _ & ->)|(-> & T & _ & _ & ->)]; rewrite T; [done|].
  destruct (insert_new h s lo hi' k u (Some p) None (Some b) Hr Hcut Hk Hgt Hu Hsz V1 V2) as (z & h' & s' & ys & -> & Hr' & Hv).
  rbind. eapply refines_Ok; [by eapply rep_counters|done].
Qed.

Lemma insert_ignore_refines h s xs k p b : sk_rep h s xs → key_in k → Z.of_nat (length xs) + 1 < 2 ^ 64 →
  refines (step (InsertIgnore k p b) h s) (spec_step (InsertIgnore k p b) (view xs)).
Proof.
  intros Hr Hk Hsz. cbn [step spec_step]. unfold skiplist_insert_existIgnore. search_step Hr Hk.
  destruct Hcase as [(e & -> & Ee & Ek & T & _ & _ & ->)|(-> & T & _ & _ & ->)]; rewrite T.
  - cbn [i_ppa item_of]. replace (e_ppa e) with (ppa ny) by (by rewrite <-Ee). destruct (ppa ny) as [old|]; [|done].
    cbn [deref]. rbind. destruct (p =? old); [done|].
    destruct (insert_over h s lo hi' y e ny k (Some p) (value ny) (Some b) Hr Hny Ek V1 V2) as (h' & ys & -> & Hr' & Hv).
    rbind. eapply refines_Ok; [by apply rep_log|]. rewrite Hv. by rewrite <-Ee.
  - destruct (insert_new h s lo hi' k u (Some p) None (Some b) Hr Hcut Hk Hgt Hu Hsz V1 V2) as (z & h' & s' & ys & -> & Hr' & Hv).
    rbind. eapply refines_Ok; [by eapply rep_counters|done].
Qed.

(** Results are entries or the header. *)
Lemma read_entry h s xs a e : sk_rep h s xs → (a, e) ∈ xs → read_result h s (Some a) = Ok (OItem (Some (item_of e))).
Proof.
  intros Hr Ha. cbn [read_result]. rewrite decide_False.
  - destruct (rep_stored _ _ _ Hr a e Ha) as (n & Hn & <- & _). unfold read_item, node. by rewrite Hn.
  - intros ->. pose proof (rep_nd _ _ _ Hr) as [Hhd _]%NoDup_cons. apply Hhd, list_elem_of_fmap. by exists (header s, e).
Qed.

Lemma read_header h s : read_result h s (Some (header s)) = Ok (OItem None).
Proof. cbn. by rewrite decide_True. Qed.

Lemma empty_size h s xs : sk_rep h s xs → (size s =? 0) = bool_decide (xs = []).
Proof. intros Hr. rewrite (rep_size _ _ _ Hr). destruct xs; [done|]. rewrite bool_decide_false by done. apply Z.eqb_neq. simpl. lia. Qed.

Lemma find_refines h s xs k : sk_rep h s xs → key_in k → refines (step (Find k) h s) (spec_step (Find k) (view xs)).
Proof.
  intros Hr Hk. cbn [step spec_step]. unfold skiplist_find. rewrite (empty_size h s xs Hr).
  case_bool_decide as E; [subst; by eapply refines_Ok|]. pose proof Hr as Hr0. search_step Hr Hk.
  destruct Hcase as [(e & -> & Ee & Ek & _ & T & _ & ->)|(-> & _ & T & _ & ->)]; rewrite T; rbind.
  - rewrite (read_entry h s _ y e Hr0) by (apply elem_of_app; right; apply elem_of_cons; by left). by eapply refines_Ok.
  - by eapply refines_Ok.
Qed.

Lemma lower_refines h s xs k : sk_rep h s xs → key_in k → refines (step (Lower k) h s) (spec_step (Lower k) (view xs)).
Proof.
  intros Hr Hk. cbn [step spec_step]. unfold skiplist_find_lowerbound. rewrite (empty_size h s xs Hr).
  case_bool_decide as E; [subst; by eapply refines_Ok|].
  destruct (search_below _ _ _ _ Hr Hk) as (lo & hi & hi' & u & x & y & ny & -> & Es & El & _ & _ & (Hlo & Hhi & _) & _ & _ & _ & Ey & _).
  rewrite Es. rbind. rewrite El. rbind. rewrite view_app, filter_app.
  destruct (view_filter (λ x, 0 <= KEYCMP (i_key x) k) lo) as [_ ->].
  2: { eapply Forall_impl; [exact Hlo|]. intros z Hz%Z.ltb_lt. cbn. lia. }
  destruct (view_filter (λ x, 0 <= KEYCMP (i_key x) k) hi) as [-> _].
  2: { eapply Forall_impl; [exact Hhi|]. intros z Hz%Z.ltb_ge. done. }
  subst y. destruct hi as [|[y e] hi]; cbn [fmap list_fmap head default app id fst].
  - rewrite read_header. rbind. eapply refines_Ok; [done|]. apply view_app.
  - rewrite (read_entry h s _ y e Hr) by (apply elem_of_app; right; apply elem_of_cons; by left). rbind.
    eapply refines_Ok; [done|]. apply view_app.
Qed.

(** A search with [upto]: it ends at the last entry not above the key. *)
Lemma search_upto h s xs k : sk_rep h s xs → key_in k → xs ≠ [] →
  ∃ bf x nb nx u e, search h s k upto = Ok (bf, u) ∧ get_link h bf 1 = Ok x ∧ nodes h !! bf = Some nb ∧ nodes h !! x = Some nx ∧
    (match last (filter (λ x, KEYCMP (i_key x) k <= 0) (view xs)) with Some it => Some it | None => head (view xs) end)
      = Some (item_of e) ∧
    ((KEYCMP (skey nb) k <= 0 ∧ KEYCMP k (skey nx) < 0 ∧ (bf, e) ∈ xs) ∨
     (bf = header s ∧ skey nb = key_max ∧ 0 < KEYCMP key_max k ∧ KEYCMP k (skey nx) < 0 ∧ (x, e) ∈ xs)).
Proof.
  intros Hr Hk Hne. destruct (cut_upto k xs (rep_sorted _ _ _ Hr) (rep_ok _ _ _ Hr) Hk) as (lo & hi & -> & Hcut).
  destruct (search_spec h s lo hi k upto Hr Hcut) as (u & E & _ & El). destruct Hcut as (Hlo & Hhi & _).
  pose proof (rep_ok _ _ _ Hr) as [Hok1 Hok2]%Forall_app. unfold pred_at in *. rewrite (tall_1 lo Hok1) in *.
  assert (∃ nx, nodes h !! default (header s) (head hi.*1) = Some nx ∧ KEYCMP k (skey nx) < 0) as (nx & Hnx & Hlt).
  { destruct hi as [|[y e] hi]; cbn.
    - destruct (rep_hd _ _ _ Hr) as (n & Hn & Ekm & _). exists n. rewrite Ekm. split; [done|apply Hk].
    - destruct (rep_stored _ _ _ Hr y e) as (n & Hn & <- & _); [apply elem_of_app; right; apply elem_of_cons; by left|].
      exists n. split; [done|]. apply Forall_cons in Hhi as [H%Z.leb_gt _]. apply Forall_cons in Hok2 as [(_ & Hw & _) _]. cbn in *.
      rewrite (cmp_antisym (skey n) k) by first [done|apply Hk]. lia. }
  rewrite view_app, filter_app. destruct (view_filter (λ x, KEYCMP (i_key x) k <= 0) hi) as [_ ->].
  2: { eapply Forall_impl; [exact Hhi|]. intros z Hz%Z.leb_gt. cbn. lia. }
  destruct (view_filter (λ x, KEYCMP (i_key x) k <= 0) lo) as [-> _].
  2: { eapply Forall_impl; [exact Hlo|]. intros z Hz%Z.leb_le. done. }
  rewrite app_nil_r. destruct lo as [|[bf e] lo _] using rev_ind.
  - destruct hi as [|[y e] hi]; [done|]. destruct (rep_hd _ _ _ Hr) as (nb & Hnb & Ek & _).
    exists (header s), y, nb, nx, u, e. split_and!; try done. right. split_and!; [done|done|by apply above_max|done|].
    apply elem_of_cons. by left.
  - rewrite fmap_app in *. cbn [fmap list_fmap fst] in *. rewrite last_snoc in *. cbn [default] in *.
    assert (Hin : (bf, e) ∈ (lo ++ [(bf, e)]) ++ hi) by (apply elem_of_app; left; apply elem_of_app; right; by apply list_elem_of_singleton).
    destruct (rep_stored _ _ _ Hr bf e Hin) as (nb & Hnb & Ee & _).
    exists bf, (default (header s) (head hi.*1)), nb, nx, u, e. split_and!; try done.
    + rewrite view_app. cbn. by rewrite last_snoc.
    + left. split_and!; [|done|done]. apply Forall_app in Hlo as [_ [H%Z.leb_le _]%Forall_cons]. by rewrite <-Ee in H.
Qed.

Lemma floor_refines h s xs k : sk_rep h s xs → key_in k →
  refines (step (Floor k) h s) (spec_step (Floor k) (view xs)) ∧
  refines (step (StrictFloor k) h s) (spec_step (StrictFloor k) (view xs)).
Proof.
  intros Hr Hk. cbn [step spec_step]. unfold skiplist_range_search, skiplist_strict_range_search. rewrite (empty_size h s xs Hr).
  case_bool_decide as E; [subst; split; by eapply refines_Ok|].
  destruct (search_upto h s xs k Hr Hk E) as (bf & x & nb & nx & u & e & -> & El & Hnb & Hnx & -> & Hcase). rbind. rewrite El. rbind.
  unfold node. rewrite Hnb, Hnx. cbn [deref]. rbind. destruct Hcase as [(H1 & H2 & Hin)|(-> & Ek & H1 & H2 & Hin)].
  - rewrite (proj2 (Z.leb_le _ _)), (proj2 (Z.ltb_lt _ _)) by done. cbn [andb]. rbind. rewrite (read_entry h s _ bf e Hr Hin).
    rbind. split; by eapply refines_Ok.
  - rewrite Ek. rewrite (proj2 (Z.leb_gt _ _)) by done. cbn [andb]. rewrite El. rbind. rewrite Hnx. cbn [deref]. rbind.
    rewrite (proj2 (Z.leb_le _ _)) by lia. replace (KEYCMP key_max key_max =? 0) with true by reflexivity.
    rbind. rewrite (read_entry h s _ x e Hr Hin). rbind. split; by eapply refines_Ok.
Qed.

Lemma delete_refines h s xs k : sk_rep h s xs → key_in k → Z.of_nat (length xs) < 2 ^ 64 →
  refines (step (Delete k) h s) (spec_step (Delete k) (view xs)).
Proof.
  intros Hr Hk Hsz. cbn [step spec_step]. unfold skiplist_delete. rewrite (empty_size h s xs Hr).
  case_bool_decide as E; [subst; by eapply refines_Ok|].
  rewrite (proj2 (Nat.eqb_neq _ _)) by (unfold view; rewrite length_fmap; by destruct xs).
  search_step Hr Hk. destruct Hcase as [(e & -> & Ee & Ek & _ & _ & C & ->)|(-> & _ & _ & C & ->)].
  - rewrite C. cbn [negb Z.eqb]. replace (slevel ny) with (e_level e) by (by rewrite <-Ee).
    destruct (delete_node_rep h s lo hi' y e u Hr Hu Hsz) as (h' & -> & Hr' & _). rbind.
    eapply refines_Ok; [done|]. by rewrite V1, V2, view_app.
  - rewrite (proj2 (Z.eqb_neq _ _) C). cbn [negb]. rbind. by eapply refines_Ok.
Qed.

Lemma pop_refines h s xs : sk_rep h s xs → Z.of_nat (length xs) < 2 ^ 64 → refines (step Pop h s) (spec_step Pop (view xs)).
Proof.
  intros Hr Hsz. cbn [step spec_step]. destruct xs as [|[x e] xs].
  - unfold skiplist_pop. rewrite (empty_size h s [] Hr). cbn. by eapply refines_Ok.
  - destruct (pop_rep h s x e xs Hr Hsz) as (h' & s' & n & -> & Hr' & Hn & He & _ & Eh & _). rbind.
    change (view ((x, e) :: xs)) with (item_of e :: view xs). cbn [read_result]. rewrite decide_False.
    + unfold read_item, node. rewrite Hn. cbn [deref]. rbind. rewrite He. by eapply refines_Ok.
    + intros ->. pose proof (rep_nd _ _ _ Hr) as [Hhd _]%NoDup_cons. apply Hhd. rewrite <-Eh. apply elem_of_cons. by left.
Qed.

Lemma items_refines h s xs : sk_rep h s xs → refines (step Items h s) (spec_step Items (view xs)).
Proof.
  intros Hr. cbn [step spec_step]. pose proof (rep_nd _ _ _ Hr) as [Hhd Hnd]%NoDup_cons.
  rewrite (iterate_spec h s xs.*1 (fuel_of h) (skiplist_get_iterator s)); [|by apply base_chain|done|].
  - rbind. assert (E : read_items h xs.*1 = Ok (view xs)); [|rewrite E; rbind; by eapply refines_Ok].
    pose proof (rep_stored _ _ _ Hr) as Hst. clear -Hst. induction xs as [|[a e] xs IH]; [done|]. cbn.
    destruct (Hst a e) as (n & Hn & He & _); [apply elem_of_cons; by left|]. unfold read_item at 1, node. rewrite Hn. cbn [deref]. rbind.
    fold (fmap (M:=list) (fst (A:=loc) (B:=ent)) xs). rewrite IH; [rbind; by rewrite He|].
    intros b eb Hb. apply Hst. apply elem_of_cons. by right.
  - unfold fuel_of. apply Nat.lt_succ_r, length_nodes; [done|]. intros c ([a e] & -> & Ha)%list_elem_of_fmap.
    destruct (rep_stored _ _ _ Hr a e Ha) as (n & ? & _). by exists n.
Qed.

Lemma step_refines o h s xs : sk_rep h s xs → op_ok o → Z.of_nat (length xs) + 1 < 2 ^ 64 →
  refines (step o h s) (spec_step o (view xs)).
Proof.
  intros Hr Ho Hsz. assert (Hsz' : Z.of_nat (length xs) < 2 ^ 64) by lia. destruct o; cbn [op_ok] in Ho.
  - by apply insert_refines.
  - by apply insert_iter_refines.
  - by apply insert_wP_refines.
  - by apply insert_ignore_refines.
  - by apply find_refines.
  - by apply lower_refines.
  - by apply floor_refines.
  - by apply floor_refines.
  - by apply delete_refines.
  - by apply pop_refines.
  - destruct (clear_rep h s xs Hr) as (h' & s' & E & Hr' & _). cbn [step spec_step]. rewrite E. rbind. by eapply refines_Ok.
  - by apply items_refines.
Qed.

Lemma parts_length k (l : list item) : (length (lts k l) + length (gts k l) <= length l)%nat.
Proof.
  induction l as [|x l IH]; [done|]. unfold lts, gts in *. rewrite !filter_cons. repeat case_decide; simpl; lia.
Qed.

Lemma spec_length o l r l' : spec_step o l = Ok (r, l') → (length l' <= S (length l))%nat.
Proof.
  assert (Hput : ∀ it, (length (put it l) <= S (length l))%nat).
  { intros it. unfold put. rewrite length_app. simpl. pose proof (parts_length (i_key it) l). lia. }
  destruct o as [k v b|k p|k p b|k p b|k|k|k|k|k| | |]; cbn [spec_step]; intros E.
  - destruct (get k l); res_inv; apply Hput.
  - destruct (get k l); res_inv; apply Hput.
  - destruct (get k l); res_inv; apply Hput.
  - destruct (get k l); res_inv; [|apply Hput]. destruct (_ =? _); res_inv. apply Hput.
  - res_inv. lia.
  - res_inv. lia.
  - res_inv. lia.
  - res_inv. lia.
  - destruct (_ =? _)%nat; [res_inv; lia|]. pose proof (parts_length k l). destruct (get k l); res_inv; rewrite ?length_app; lia.
  - destruct l; res_inv; simpl; lia.
  - res_inv. simpl. lia.
  - res_inv. lia.
Qed.

Lemma run_refines os : ∀ h s xs, sk_rep h s xs → Forall op_ok os → Z.of_nat (length xs) + Z.of_nat (length os) < 2 ^ 64 →
  run os h s = spec_run os (view xs).
Proof.
  induction os as [|o os IH]; intros h s xs Hr Hos Hsz; [done|]. apply Forall_cons in Hos as [Ho Hos]. simpl in Hsz. cbn [run spec_run].
  pose proof (step_refines o h s xs Hr Ho ltac:(lia)) as Href. destruct (spec_step o (view xs)) as [[r l]|f] eqn:E; cbn [refines] in Href.
  - destruct Href as (h' & s' & xs' & -> & Hr' & <-). rbind. apply spec_length in E. unfold view in E. rewrite !length_fmap in E.
    rewrite (IH h' s' xs' Hr' Hos) by lia. done.
  - by rewrite Href.
Qed.

End run.

(** ** Property *)

(** C5: The skip list is a sorted list of entries: whatever numbers [rand()]
    returns, any sequence of insertions (of all four kinds), lookups, lower-bound
    and floor searches, deletions, pops, clears and iterations on a new list
    terminates with exactly the results of the same operations on a list kept
    sorted by [KEYCMP] with one entry per key, and stops with the same fault at the
    same operation (an overwrite of an entry without a value set, an insertion that
    the code answers with [abort]). *)
Theorem skiplist_refines_sorted_list (rand : nat → Z) (h : store) (junk : Z) (os : list op) :
  Forall op_ok os → Z.of_nat (length os) < 2 ^ 64 →
  let '(s, h') := skiplist_init h junk in run rand os h' s = spec_run os [].
Proof.
  intros Hos Hn. pose proof (init_rep h junk) as Hi. destruct (skiplist_init h junk) as [s h']. destruct Hi as [Hr _].
  apply (run_refines rand os h' s [] Hr Hos). done.
Qed.

Lemma skiplist_refines_sorted_list_witness :
  let k x := Key 2 [x; 7] in
  let os := [Insert (k 5) (VSet 600 []) true; InsertWP (k 2) 9 true; Insert (k 8) (VSet 512 []) false; Lower (k 3); Floor (k 7);
             Delete (k 5); Find (k 5); Pop; Items] in
  let '(s, h') := skiplist_init (Store ∅ 0 []) 0 in
  run (λ n, Z.of_nat n) os h' s =
    Ok [ORc 0; ORc 0; ORc 0; OItem (Some (Item (k 5) (Some UINT_MAX) (Some (VSet 2 [])) (Some true)));
        OItem (Some (Item (k 5) (Some UINT_MAX) (Some (VSet 2 [])) (Some true))); ORc 0; OItem None;
        OItem (Some (Item (k 2) (Some 9) None (Some true)));
        OItems [Item (k 8) (Some UINT_MAX) (Some (VSet 1 [])) (Some false)]].
Proof.
  intros k os. assert (Hk : ∀ x, 0 <= x < 255 → key_in (k x)).
  { intros x Hx. split; [split_and!; [done|done|repeat constructor; cbn; lia]|].
    rewrite KEYCMP_lex by first [apply key_max_wf|split_and!; [done|done|repeat constructor; cbn; lia]].
    change (key key_max) with (255 :: replicate 254 255). cbn [k key lex]. rewrite (proj2 (Z.ltb_lt x 255)) by lia. done. }
  pose proof (skiplist_refines_sorted_list (λ n, Z.of_nat n) (Store ∅ 0 []) 0 os) as Ht.
  destruct (skiplist_init (Store ∅ 0 []) 0) as [s h']. rewrite Ht; [reflexivity| |done].
  repeat (apply Forall_cons; split; [first [exact I|cbn [op_ok]; apply Hk; lia]|]). apply Forall_nil. done.
Defined.
End Skiplist.
