(* ===== verification/DemandFlush.v ===== *)
(** * Packing the write buffer into pages (algorithm/demand/rw.c)

    With variable-sized values a flush sorts the entries of the write buffer into
    buckets by their length in grains and fills one page after the other: at each
    place it takes an entry of the largest length that still fits. This file
    models [_do_wb_assign_ppa] of the build with variable-sized values and the loop
    of [_do_wb_flush] that writes the pages, and shows that every entry gets its own
    grains and that the device holds its value there. The page allocator is used
    through [DataPages], the device through [Lower]. *)
From S2P Require Export Prelude Settings Queue Lower PosixMemory DemandUtil.
Import DemandUtil.

Local Open Scope Z_scope.

(** ** Data pages, as a flush uses them (page.c, dvalue.c) *)

(** [get_dpage], and the grain bitmap. *)
Class DataPages (P : Type) := {
  dp_get : P → res (Z * P);
  dp_grains : P → grain_bitmap;
  dp_set_grains : grain_bitmap → P → P;
}.

(** The contract while no collection is needed: [n] more data pages can be handed
    out, all different from those of [used]; the grain bitmap is independent of
    that. *)
Class DataPagesOk `{Sg : Settings} (P : Type) `{!DataPages P} := {
  dp_inv : P → Z → gset Z → Prop;
  dp_get_ok p n used : dp_inv p n used → 0 < n →
    ∃ ppa p', dp_get p = Ok (ppa, p') ∧ (ppa ∉ used) ∧ 0 <= ppa < _NOP ∧ dp_inv p' (n - 1) ({[ppa]} ∪ used) ∧
      dp_grains p' = dp_grains p;
  dp_set_ok p n used g : dp_inv p n used → ca_len g = ca_len (dp_grains p) → dp_inv (dp_set_grains g p) n used;
  dp_grains_set g p : dp_grains (dp_set_grains g p) = g;
}.

Module DemandFlush.

(** ** Data *)

(** What a flush uses of an entry of the write buffer ([snode]). The value's
    length is in grains; [w_value] is its storage, [None] once it was given away. *)
Record wentry := WEnt { w_len : Z; w_value : option (list Z); w_ppa : Z }.
Definition place_entry (pga : Z) (w : wentry) : wentry := WEnt (w_len w) None pga.

(** [flush_node] *)
Record flush_node := FNode { fl_ppa : Z; fl_value : list Z }.

(** [l_bucket]: the stacks of entries by length, the last pushed first. *)
Definition buckets := carray (list loc).
Definition new_buckets : buckets := ca_new (NPCINPAGE + 1) [].

(** [memcpy(&page[off], src, n)] *)
Definition copy_at (page : list Z) (off : Z) (src : list Z) (n : Z) : res (list Z) :=
  if (0 <=? off) && (0 <=? n) && (off + n <=? Z.of_nat (length page)) && (n <=? Z.of_nat (length src)) then
    Ok (take (Z.to_nat off) page ++ take (Z.to_nat n) src ++ drop (Z.to_nat (off + n)) page)
  else Err Undefined.

Section ops.
Context {P : Type} `{!DataPages P}.
Implicit Types (b : buckets) (m : gmap loc wentry) (p : P).

(** The entries in the order of the iterator go to the buckets. *)
Fixpoint fill_buckets (es : list loc) m b : res buckets :=
  match es with
  | [] => Ok b
  | e :: es =>
    w ← deref (m !! e);
    if (1 <=? w_len w) && (w_len w <=? GRAIN_PER_PAGE) then
      s ← ca_get b (w_len w); b ← ca_set b (w_len w) (e :: s); fill_buckets es m b
    else Err Undefined
  end.

(** [while(wb_bucket->idx[target_length]==0 && target_length!=0) --target_length;] *)
Fixpoint target_length (t : nat) b : nat :=
  match t with
  | O => O
  | S t' => match ca_at b (Z.of_nat t) with [] => target_length t' b | _ => t end
  end.

(** The loop that fills one page: the entries placed, the page, the rest. *)
Fixpoint fill_page (fuel : nat) (ppa offset remain : Z) (page : list Z) b m p (ordering_done : Z)
    : res (list Z * buckets * gmap loc wentry * P * Z) :=
  match fuel with
  | O => Err OutOfFuel
  | S fuel =>
    if 0 <? remain then
      let t := Z.of_nat (target_length (Z.to_nat (remain / GRAINED_UNIT)) b) in
      if t =? 0 then Ok (page, b, m, p, ordering_done)
      else
        match ca_at b t with
        | [] => Err Undefined
        | e :: s =>
          b ← ca_set b t s;
          w ← deref (m !! e);
          v ← deref (w_value w);
          page ← copy_at page (offset * GRAINED_UNIT) v (w_len w * GRAINED_UNIT);
          let pga := PPA_TO_PGA ppa offset in
          '(_, g) ← validate_grain (dp_grains p) pga;
          fill_page fuel ppa (offset + t) (remain - t * GRAINED_UNIT) page b (<[e := place_entry pga w]> m)
            (dp_set_grains g p) (ordering_done + 1)
        end
    else Ok (page, b, m, p, ordering_done)
  end.

(** [while(ordering_done < d_env.wb_flush_size)]; [fl] is the flush list so far. *)
Fixpoint assign_pages (fuel : nat) (wb_flush_size : Z) b m p (ordering_done : Z) (fl : list flush_node)
    : res (gmap loc wentry * P * list flush_node) :=
  match fuel with
  | O => Err OutOfFuel
  | S fuel =>
    if ordering_done <? wb_flush_size then
      new_vs ← inf_get_valueset true None FS_MALLOC_W PAGESIZE;
      '(ppa, p) ← dp_get p;
      '(page, b, m, p, n) ← fill_page (S (Z.to_nat GRAIN_PER_PAGE)) ppa 0 PAGESIZE (value new_vs) b m p ordering_done;
      assign_pages fuel wb_flush_size b m p n (fl ++ [FNode ppa page])
    else Ok (m, p, fl)
  end.

(** [_do_wb_assign_ppa] with [DVALUE]: the first [wb_flush_size] entries of the
    iterator. *)
Definition _do_wb_assign_ppa (wb_flush_size : Z) (es : list loc) m p : res (gmap loc wentry * P * list flush_node) :=
  if Z.of_nat (length es) <? wb_flush_size then Err Undefined
  else
    b ← fill_buckets (take (Z.to_nat wb_flush_size) es) m new_buckets;
    assign_pages (S (Z.to_nat wb_flush_size)) wb_flush_size b m p 0 [].

(** The loop of [_do_wb_flush] that writes the pages. A buffer of a whole page has
    the tag 0. *)
Fixpoint write_pages {L : Type} `{!Lower L} (fl : list flush_node) (l : L) : res L :=
  match fl with
  | [] => Ok l
  | n :: fl => l ← low_write DATAW (fl_ppa n) PAGESIZE (VS (fl_value n) 0) l; write_pages fl l
  end.

End ops.

(** ** Invariant *)

(** The entries still in the buckets. *)
Definition rest (b : buckets) : list loc := concat ((λ t, ca_at b (Z.of_nat t)) <$> seq 1 16).

Lemma rest_pop b t e s : (1 ≤ t ≤ 16)%nat → ca_at b (Z.of_nat t) = e :: s → rest b ≡ₚ e :: rest (ca_upd b (Z.of_nat t) s).
Proof.
  intros Ht E. unfold rest.
  assert (Hs : seq 1 16 = seq 1 (t - 1) ++ t :: seq (S t) (16 - t)).
  { replace 16%nat with ((t - 1) + S (16 - t))%nat at 1 by lia. rewrite seq_app. f_equal.
    replace (1 + (t - 1))%nat with t by lia. done. }
  rewrite Hs, !fmap_app, !fmap_cons, !concat_app. cbn [concat]. rewrite E, ca_at_upd, decide_True by done.
  assert (Heq : ∀ l : list nat, t ∉ l → (λ u, ca_at (ca_upd b (Z.of_nat t) s) (Z.of_nat u)) <$> l = (λ u, ca_at b (Z.of_nat u)) <$> l).
  { intros l Hl. apply list_fmap_ext. intros i u Hu. rewrite ca_at_upd, decide_False; [done|]. intros Eu. apply Hl.
    apply list_elem_of_lookup_2 in Hu. apply Nat2Z.inj in Eu. by rewrite Eu. }
  rewrite !Heq by (rewrite elem_of_seq; lia). rewrite <-app_comm_cons. symmetry. apply Permutation_middle.
Qed.

Lemma rest_push b t e : (1 ≤ t ≤ 16)%nat → rest (ca_upd b (Z.of_nat t) (e :: ca_at b (Z.of_nat t))) ≡ₚ e :: rest b.
Proof.
  intros Ht. rewrite (rest_pop (ca_upd b (Z.of_nat t) (e :: ca_at b (Z.of_nat t))) t e (ca_at b (Z.of_nat t)) Ht)
    by (by rewrite ca_at_upd, decide_True).
  apply Permutation_skip, reflexive_eq. unfold rest. f_equal. apply list_fmap_ext. intros i u _. rewrite !ca_at_upd. case_decide as E; [by rewrite E|done].
Qed.

Lemma rest_elem b e : e ∈ rest b ↔ ∃ t, (1 ≤ t ≤ 16)%nat ∧ e ∈ ca_at b (Z.of_nat t).
Proof.
  unfold rest. rewrite list_elem_of_In, in_concat. setoid_rewrite <-list_elem_of_In. setoid_rewrite list_elem_of_fmap. split.
  - intros (l & (t & -> & Ht) & Hin). exists t. rewrite elem_of_seq in Ht. split; [lia|done].
  - intros (t & Ht & Hin). eexists. split; [|exact Hin]. exists t. split; [done|]. apply elem_of_seq. lia.
Qed.

Lemma target_length_spec b t : let r := target_length t b in
  (r ≤ t)%nat ∧ (r ≠ 0%nat → ca_at b (Z.of_nat r) ≠ []) ∧ ∀ u, (r < u ≤ t)%nat → ca_at b (Z.of_nat u) = [].
Proof.
  induction t as [|t IH]; cbn [target_length]; [split_and!; [lia|done|lia]|].
  destruct (ca_at b (Z.of_nat (S t))) as [|x l] eqn:E.
  - destruct IH as (H1 & H2 & H3). split_and!; [lia|done|]. intros u Hu. destruct (decide (u = S t)) as [->|]; [done|]. apply H3. lia.
  - split_and!; [lia|by rewrite E|lia].
Qed.

(** An entry that waits in the bucket of its length, with its value. *)
Definition waits (m : gmap loc wentry) (e : loc) (t : Z) : Prop :=
  ∃ w v, m !! e = Some w ∧ w_len w = t ∧ w_value w = Some v ∧ Z.of_nat (length v) = t * GRAINED_UNIT.

(** The bytes of the grains from [off] on. *)
Definition grains (page : list Z) (off n : Z) : list Z := take (Z.to_nat (n * GRAINED_UNIT)) (drop (Z.to_nat (off * GRAINED_UNIT)) page).

(** Entry [e] was placed on one of the pages of [fl], before [lim] on the page [cur]. *)
Definition placed (m0 m : gmap loc wentry) (fl : list flush_node) (cur lim : Z) (e : loc) : Prop :=
  ∃ w v node off, m0 !! e = Some w ∧ w_value w = Some v ∧ node ∈ fl ∧ 0 <= off ∧ 1 <= w_len w ∧
    off + w_len w <= (if decide (fl_ppa node = cur) then lim else GRAIN_PER_PAGE) ∧
    m !! e = Some (place_entry (fl_ppa node * GRAIN_PER_PAGE + off) w) ∧ grains (fl_value node) off (w_len w) = v.

(** Two entries share no grain. *)
Definition apart (m : gmap loc wentry) (e e' : loc) : Prop :=
  ∀ w w', m !! e = Some w → m !! e' = Some w' → w_ppa w + w_len w <= w_ppa w' ∨ w_ppa w' + w_len w' <= w_ppa w.

Section pack.
Context `{Sg : Settings, !SettingsOk Sg} {P : Type} `{!DataPages P} `{!DataPagesOk P}.
Implicit Types (p : P).
(** The grains that were valid at the start. *)
Variable g0 : grain_bitmap.

Record packing (m0 : gmap loc wentry) (es : list loc) (fl : list flush_node) (cur lim : Z) (b : buckets)
    (m : gmap loc wentry) (g : grain_bitmap) (A : list loc) : Prop := Packing {
  pk_nd : NoDup es;
  pk_es : es ≡ₚ A ++ rest b;
  pk_len : ca_len b = 17;
  pk_wait t e : 1 <= t <= 16 → e ∈ ca_at b t → waits m0 e t;
  pk_same e : e ∉ A → m !! e = m0 !! e;
  pk_placed e : e ∈ A → placed m0 m fl cur lim e;
  pk_apart e e' : e ∈ A → e' ∈ A → e ≠ e' → apart m e e';
  pk_bits : ca_len g = _NOP * GRAIN_PER_PAGE;
  pk_valid e w : e ∈ A → m !! e = Some w → ca_at g (w_ppa w) = true;
  pk_keep i : ca_at g0 i = true → ca_at g i = true;
  pk_only i : ca_at g i = true → ca_at g0 i = true ∨ ∃ e w, e ∈ A ∧ m !! e = Some w ∧ i = w_ppa w;
  pk_pages : NoDup (fl_ppa <$> fl);
  pk_size node : node ∈ fl → Z.of_nat (length (fl_value node)) = PAGESIZE ∧ 0 <= fl_ppa node < _NOP;
}.

Lemma fill_buckets_spec es m : ∀ b es0,
  ca_len b = 17 → (∀ t e, 1 <= t <= 16 → e ∈ ca_at b t → waits m e t) → rest b ≡ₚ es0 →
  (∀ e, e ∈ es → ∃ t, 1 <= t <= 16 ∧ waits m e t) →
  ∃ b', fill_buckets es m b = Ok b' ∧ ca_len b' = 17 ∧ (∀ t e, 1 <= t <= 16 → e ∈ ca_at b' t → waits m e t) ∧
    rest b' ≡ₚ es ++ es0.
Proof.
  induction es as [|e es IH]; intros b es0 Hl Hw Hr Hes; cbn [fill_buckets]; [by exists b|].
  destruct (Hes e) as (t & Ht & w & v & Hm & Ew & Hv & Hlv); [apply elem_of_cons; by left|]. rewrite Hm. cbn [deref]. rbind.
  change GRAIN_PER_PAGE with 16. rewrite Ew. rewrite (proj2 (Z.leb_le 1 t)), (proj2 (Z.leb_le t 16)) by lia. cbn [andb].
  rewrite ca_get_in by lia. rbind. rewrite ca_set_in by lia. rbind.
  destruct (IH (ca_upd b t (e :: ca_at b t)) (e :: es0)) as (b' & -> & Hl' & Hw' & Hr'); [done| | | |].
  - intros u x Hu Hx. rewrite ca_at_upd in Hx. case_decide as E; [|by apply Hw]. subst u.
    apply elem_of_cons in Hx as [->|Hx]; [by exists w, v|by apply Hw].
  - replace t with (Z.of_nat (Z.to_nat t)) by lia. rewrite rest_push by lia. by rewrite Hr.
  - intros x Hx. apply Hes. apply elem_of_cons. by right.
  - exists b'. split_and!; [done|done|done|]. rewrite Hr'. symmetry. apply Permutation_middle.
Qed.

(** *** Page images *)

Lemma copy_at_Ok page off v n :
  0 <= off → 0 <= n → (off + n) * GRAINED_UNIT <= Z.of_nat (length page) → Z.of_nat (length v) = n * GRAINED_UNIT →
  ∃ page', copy_at page (off * GRAINED_UNIT) v (n * GRAINED_UNIT) = Ok page' ∧ length page' = length page ∧
    grains page' off n = v ∧
    ∀ off' n', 0 <= off' → 0 <= n' → off' + n' <= off → grains page' off' n' = grains page off' n'.
Proof.
  change GRAINED_UNIT with 512 in *. intros Ho Hn Hp Hv. unfold copy_at.
  rewrite !(proj2 (Z.leb_le _ _)) by lia. cbn [andb]. eexists. split; [done|].
  rewrite (take_ge v) by lia. split; [rewrite !length_app, length_take, length_drop; lia|]. unfold grains. change GRAINED_UNIT with 512.
  split.
  - rewrite drop_app_ge by (rewrite length_take; lia). rewrite length_take.
    replace (Z.to_nat (off * 512) - Z.to_nat (off * 512) `min` length page)%nat with 0%nat by lia. rewrite drop_0.
    rewrite take_app_le, take_ge by lia. done.
  - intros off' n' H1 H2 H3. rewrite drop_app_le by (rewrite length_take; lia).
    rewrite take_app_le by (rewrite length_drop, length_take; lia). rewrite !take_drop_commute, take_take.
    do 2 f_equal. lia.
Qed.

(** *** Filling a page *)

Lemma PPA_TO_PGA_eq ppa off : 0 <= ppa < _NOP → 0 <= off < GRAIN_PER_PAGE →
  PPA_TO_PGA ppa off = ppa * GRAIN_PER_PAGE + off ∧ G_IDX (PPA_TO_PGA ppa off) = ppa.
Proof.
  change GRAIN_PER_PAGE with 16. intros Hp Ho. pose proof NOP_range as Hnop. assert (E : PPA_TO_PGA ppa off = ppa * 16 + off).
  { unfold PPA_TO_PGA. change GRAIN_PER_PAGE with 16. rewrite !u32_id; rewrite ?u32_id; lia. }
  split; [done|]. rewrite E. unfold G_IDX. change GRAIN_PER_PAGE with 16. Z.to_euclidean_division_equations. lia.
Qed.

(** Placing one more entry on the current page. *)
Lemma place_packing m0 es fl ppa off page b m g A t e s w v page' :
  packing m0 es (fl ++ [FNode ppa page]) ppa off b m g A → (1 ≤ t ≤ 16)%nat → ca_at b (Z.of_nat t) = e :: s →
  m0 !! e = Some w → w_value w = Some v → w_len w = Z.of_nat t → 0 <= off → off + Z.of_nat t <= 16 →
  length page' = length page → grains page' off (Z.of_nat t) = v →
  (∀ off' n', 0 <= off' → 0 <= n' → off' + n' <= off → grains page' off' n' = grains page off' n') →
  packing m0 es (fl ++ [FNode ppa page']) ppa (off + Z.of_nat t) (ca_upd b (Z.of_nat t) s)
    (<[e := place_entry (ppa * GRAIN_PER_PAGE + off) w]> m) (ca_upd g (ppa * GRAIN_PER_PAGE + off) true) (e :: A).
Proof.
  intros Hp Ht Eb Hw Hv Hl Ho Hot Elen Hnew Hold. pose proof (rest_pop b t e s Ht Eb) as Hrest. destruct Hp.
  assert (HeA : e ∉ A).
  { intros HA. pose proof pk_nd0 as Hnd. rewrite pk_es0, Hrest in Hnd. apply NoDup_app in Hnd as (_ & Hd & _).
    apply (Hd e HA). apply elem_of_cons. by left. }
  assert (Hpl : ∀ x, x ∈ A → placed m0 (<[e := place_entry (ppa * GRAIN_PER_PAGE + off) w]> m) (fl ++ [FNode ppa page']) ppa (off + Z.of_nat t) x).
  { intros x Hx. destruct (pk_placed0 x Hx) as (w' & v' & node & o & H1 & H2 & H3 & H4 & H5 & H6 & H7 & H8).
    assert (Hxe : e ≠ x) by (by intros ->). apply elem_of_app in H3 as [H3|H3%list_elem_of_singleton].
    - exists w', v', node, o. rewrite lookup_insert_ne by done. split_and!; try done; [apply elem_of_app; by left|]. case_decide; lia.
    - subst node. cbn [fl_ppa fl_value] in *. rewrite decide_True in H6 by done.
      exists w', v', (FNode ppa page'), o. rewrite lookup_insert_ne by done. cbn [fl_ppa fl_value]. rewrite decide_True by done.
      split_and!; try done; [apply elem_of_app; right; by apply list_elem_of_singleton|lia|]. by rewrite Hold by lia. }
  assert (Hnear : ∀ x wx, x ∈ A → m !! x = Some wx → w_ppa wx + w_len wx <= ppa * 16 + off ∨ ppa * 16 + 16 <= w_ppa wx).
  { intros x wx Hx Hwx. destruct (pk_placed0 x Hx) as (w' & v' & node & o & H1 & H2 & H3 & H4 & H5 & H6 & H7 & H8).
    rewrite Hwx in H7. injection H7 as ->. cbn [place_entry w_ppa w_len]. change GRAIN_PER_PAGE with 16 in *.
    case_decide as E; [rewrite E; lia|]. destruct (decide (fl_ppa node < ppa)); lia. }
  constructor; try done.
  - rewrite pk_es0, Hrest. by rewrite <-Permutation_middle.
  - intros u x Hu Hx. rewrite ca_at_upd in Hx. case_decide as E; [|by apply (pk_wait0 u)]. subst u. apply (pk_wait0 (Z.of_nat t)); [lia|].
    rewrite Eb. apply elem_of_cons. by right.
  - intros x [Hne Hx]%not_elem_of_cons. rewrite lookup_insert_ne by done. by apply pk_same0.
  - intros x [->|Hx]%elem_of_cons; [|by apply Hpl]. exists w, v, (FNode ppa page'), off. cbn [fl_ppa fl_value].
    rewrite lookup_insert_eq, decide_True by done. rewrite Hl. split_and!; try done; try lia.
    apply elem_of_app. right. by apply list_elem_of_singleton.
  - assert (Hsym : ∀ x, x ∈ A → ∀ w1 wx, w1 = place_entry (ppa * GRAIN_PER_PAGE + off) w → m !! x = Some wx →
      w_ppa wx + w_len wx <= w_ppa w1 ∨ w_ppa w1 + w_len w1 <= w_ppa wx).
    { intros x Hx w1 wx -> Hwx. cbn [place_entry w_ppa w_len]. change GRAIN_PER_PAGE with 16. rewrite Hl.
      destruct (Hnear x wx Hx Hwx); [left|right]; lia. }
    intros x y [->|Hx]%elem_of_cons [->|Hy]%elem_of_cons Hne wx wy; [done|..].
    + rewrite lookup_insert_eq, lookup_insert_ne by done. intros [= <-] Hwy. destruct (Hsym y Hy _ wy eq_refl Hwy); [by right|by left].
    + rewrite lookup_insert_eq, (lookup_insert_ne m e x) by done. intros Hwx [= <-]. exact (Hsym x Hx _ wx eq_refl Hwx).
    + rewrite !lookup_insert_ne by (by intros <-). by apply pk_apart0.
  - intros x wx [->|Hx]%elem_of_cons; rewrite ca_at_upd.
    + rewrite lookup_insert_eq. intros [= <-]. by rewrite decide_True.
    + rewrite lookup_insert_ne by (by intros ->). intros Hwx. case_decide; [done|]. by apply (pk_valid0 x).
  - intros i Hi. rewrite ca_at_upd. case_decide; [done|]. by apply pk_keep0.
  - intros i. rewrite ca_at_upd. case_decide as Ei.
    + intros _. right. exists e, (place_entry (ppa * GRAIN_PER_PAGE + off) w). rewrite lookup_insert_eq. split; [apply elem_of_cons; by left|by rewrite Ei].
    + intros [Hi|(x & wx & Hx & Hwx & ->)]%pk_only0; [by left|]. right. exists x, wx. rewrite lookup_insert_ne by (by intros ->). split; [apply elem_of_cons; by right|done].
  - rewrite fmap_app in *. done.
  - intros node [Hn|Hn%list_elem_of_singleton]%elem_of_app; [apply pk_size0, elem_of_app; by left|]. subst node. cbn [fl_value fl_ppa].
    rewrite Elen. apply (pk_size0 (FNode ppa page)). apply elem_of_app. right. by apply list_elem_of_singleton.
Qed.

Lemma packing_full m0 es fl cur lim cur' b m g A :
  packing m0 es fl cur lim b m g A → lim <= GRAIN_PER_PAGE → packing m0 es fl cur' GRAIN_PER_PAGE b m g A.
Proof.
  intros [] Hl. constructor; try done. intros e He. destruct (pk_placed0 e He) as (w & v & node & o & H1 & H2 & H3 & H4 & H5 & H6 & H7).
  exists w, v, node, o. split_and!; try done; [|apply H7..]. destruct (decide (fl_ppa node = cur)), (decide (fl_ppa node = cur')); lia.
Qed.

Lemma packing_new m0 es fl cur b m g A ppa page :
  packing m0 es fl cur GRAIN_PER_PAGE b m g A → ppa ∉ fl_ppa <$> fl → 0 <= ppa < _NOP → Z.of_nat (length page) = PAGESIZE →
  packing m0 es (fl ++ [FNode ppa page]) ppa 0 b m g A.
Proof.
  intros [] Hn Hp Hl. constructor; try done.
  - intros e He. destruct (pk_placed0 e He) as (w & v & node & o & H1 & H2 & H3 & H4 & H5 & H6 & H7).
    exists w, v, node, o. split_and!; try done; [apply elem_of_app; by left| |apply H7..].
    rewrite (decide_False (P:=fl_ppa node = ppa)); [by case_decide|]. intros <-. apply Hn. apply list_elem_of_fmap. by exists node.
  - rewrite fmap_app. apply NoDup_app. split; [done|]. split; [|apply NoDup_singleton]. intros x Hx Hx'%list_elem_of_singleton. cbn in Hx'. by subst x.
  - intros node [Hin|Hin%list_elem_of_singleton]%elem_of_app; [by apply pk_size0|]. by subst node.
Qed.

Lemma fill_page_spec m0 es fl ppa n used : ∀ fuel off page b m p A,
  packing m0 es (fl ++ [FNode ppa page]) ppa off b m (dp_grains p) A → 0 <= off <= 16 → 16 - off < Z.of_nat fuel → dp_inv p n used →
  ∃ page' b' m' p' A', fill_page fuel ppa off (PAGESIZE - off * GRAINED_UNIT) page b m p (Z.of_nat (length A))
      = Ok (page', b', m', p', Z.of_nat (length A')) ∧
    packing m0 es (fl ++ [FNode ppa page']) ppa 16 b' m' (dp_grains p') A' ∧ dp_inv p' n used ∧ (length A ≤ length A')%nat ∧
    (off = 0 → rest b ≠ [] → (length A < length A')%nat).
Proof.
  induction fuel as [|fuel IH]; intros off page b m p A Hp Ho Hf Hinv; [lia|]. cbn [fill_page].
  change GRAINED_UNIT with 512. change PAGESIZE with 8192.
  assert (Hstop : ∀ a, a = off → a <= 16 → packing m0 es (fl ++ [FNode ppa page]) ppa 16 b m (dp_grains p) A).
  { intros a -> Ha. by eapply packing_full. }
  destruct (Z.ltb_spec 0 (8192 - off * 512)) as [Hrem|Hrem].
  2: { exists page, b, m, p, A. split_and!; [done|by eapply Hstop; [done|lia]|done|lia|lia]. }
  replace ((8192 - off * 512) / 512) with (16 - off) by (Z.to_euclidean_division_equations; lia).
  destruct (target_length_spec b (Z.to_nat (16 - off))) as (Hle & Hne & Hempty).
  set (t := target_length (Z.to_nat (16 - off)) b) in *. destruct (Z.eqb_spec (Z.of_nat t) 0) as [E0|E0].
  { exists page, b, m, p, A. split_and!; [done|by eapply Hstop; [done|lia]|done|lia|]. intros -> Hr. exfalso.
    destruct (rest b) as [|x l] eqn:Er; [done|]. assert (Hx : x ∈ rest b) by (rewrite Er; apply elem_of_cons; by left).
    apply rest_elem in Hx as (u & Hu & Hx). rewrite Hempty in Hx by lia. by apply elem_of_nil in Hx. }
  destruct (ca_at b (Z.of_nat t)) as [|e s] eqn:Eb; [by exfalso; apply Hne; [lia|]|].
  rewrite ca_set_in by (rewrite (pk_len _ _ _ _ _ _ _ _ _ Hp); lia). rbind.
  destruct (pk_wait _ _ _ _ _ _ _ _ _ Hp (Z.of_nat t) e) as (w & v & Hw & Ew & Hv & Hlv); [lia|rewrite Eb; apply elem_of_cons; by left|].
  assert (HeA : e ∉ A).
  { intros HA. pose proof (pk_nd _ _ _ _ _ _ _ _ _ Hp) as Hnd. rewrite (pk_es _ _ _ _ _ _ _ _ _ Hp), (rest_pop b t e s) in Hnd by first [lia|done].
    apply NoDup_app in Hnd as (_ & Hd & _). apply (Hd e HA). apply elem_of_cons. by left. }
  rewrite (pk_same _ _ _ _ _ _ _ _ _ Hp e HeA), Hw. cbn [deref]. rbind. rewrite Hv. cbn [deref]. rbind. rewrite Ew.
  destruct (pk_size _ _ _ _ _ _ _ _ _ Hp (FNode ppa page)) as [Hsz Hpp]; [apply elem_of_app; right; by apply list_elem_of_singleton|].
  cbn [fl_value fl_ppa] in *. change PAGESIZE with 8192 in Hsz.
  destruct (copy_at_Ok page off v (Z.of_nat t)) as (page' & Ec & El & Hnew & Hold); [lia|lia|change GRAINED_UNIT with 512; lia|done|].
  change GRAINED_UNIT with 512 in Ec. rewrite Ec. rbind.
  destruct (PPA_TO_PGA_eq ppa off Hpp) as [Epga Eidx]; [change GRAIN_PER_PAGE with 16; lia|].
  rewrite Epga. assert (Hg : 0 <= ppa * GRAIN_PER_PAGE + off < ca_len (dp_grains p)).
  { rewrite (pk_bits _ _ _ _ _ _ _ _ _ Hp). change GRAIN_PER_PAGE with 16. lia. }
  unfold validate_grain. rewrite ca_get_in by done. rbind. rewrite ca_set_in by done. rbind.
  pose proof (place_packing m0 es fl ppa off page b m (dp_grains p) A t e s w v page' Hp ltac:(lia) Eb Hw Hv Ew ltac:(lia) ltac:(lia) El Hnew Hold) as Hp'.
  set (g' := ca_upd (dp_grains p) _ true) in *. rewrite <-(dp_grains_set g' p) in Hp'.
  destruct (IH (off + Z.of_nat t) page' _ _ (dp_set_grains g' p) (e :: A) Hp') as (page2 & b2 & m2 & p2 & A2 & E2 & Hp2 & Hi2 & Hl2 & _);
    [lia|lia|by apply dp_set_ok|].
  change GRAINED_UNIT with 512 in E2. change PAGESIZE with 8192 in E2. simpl length in E2, Hl2.
  replace (8192 - off * 512 - Z.of_nat t * 512) with (8192 - (off + Z.of_nat t) * 512) by lia.
  replace (Z.of_nat (length A) + 1) with (Z.of_nat (S (length A))) by lia.
  exists page2, b2, m2, p2, A2. split_and!; [exact E2|done|done|lia|lia].
Qed.

Lemma assign_pages_spec m0 es used0 : ∀ fuel b m p A fl cur n used,
  packing m0 es fl cur GRAIN_PER_PAGE b m (dp_grains p) A → (length (rest b) < fuel)%nat → Z.of_nat (length (rest b)) <= n →
  dp_inv p n used → (∀ x, x ∈ fl_ppa <$> fl → x ∈ used) → used0 ⊆ used → (∀ x, x ∈ fl_ppa <$> fl → x ∉ used0) →
  ∃ m' p' fl' b' A', assign_pages fuel (Z.of_nat (length es)) b m p (Z.of_nat (length A)) fl = Ok (m', p', fl') ∧
    packing m0 es fl' cur GRAIN_PER_PAGE b' m' (dp_grains p') A' ∧ rest b' = [] ∧ (length fl' ≤ length fl + length (rest b))%nat ∧
    (∀ x, x ∈ fl_ppa <$> fl' → x ∉ used0) ∧
    ∃ n' used', dp_inv p' n' used' ∧ n - Z.of_nat (length (rest b)) <= n' ∧ used0 ⊆ used' ∧ ∀ x, x ∈ fl_ppa <$> fl' → x ∈ used'.
Proof.
  induction fuel as [|fuel IH]; intros b m p A fl cur n used Hp Hf Hn Hinv Hfl Hu0 Hfresh; [lia|]. cbn [assign_pages].
  pose proof (Permutation_length (pk_es _ _ _ _ _ _ _ _ _ Hp)) as Hlen. rewrite length_app in Hlen.
  destruct (Z.ltb_spec (Z.of_nat (length A)) (Z.of_nat (length es))) as [Hlt|Hge].
  2: { exists m, p, fl, b, A. split_and!; [done|done|by apply nil_length_inv; lia|lia|done|]. exists n, used. split_and!; try done. lia. }
  change (inf_get_valueset true None FS_MALLOC_W PAGESIZE) with (Ok (VS (replicate (Z.to_nat PAGESIZE) 0) 0)). rbind.
  destruct (dp_get_ok p n used Hinv) as (ppa & p1 & -> & Hnu & Hpp & Hinv1 & Eg1); [lia|]. rbind. rewrite <-Eg1 in Hp. cbn [value].
  assert (Hpg : Z.of_nat (length (replicate (Z.to_nat PAGESIZE) 0)) = PAGESIZE) by (by rewrite length_replicate).
  generalize dependent (replicate (Z.to_nat PAGESIZE) 0). intros pg Hpg.
  pose proof (packing_new m0 es fl cur b m (dp_grains p1) A ppa pg Hp ltac:(by intros ?%Hfl) Hpp Hpg) as Hp1.
  destruct (fill_page_spec m0 es fl ppa (n - 1) ({[ppa]} ∪ used) (S (Z.to_nat GRAIN_PER_PAGE)) 0 pg b m p1 A Hp1)
    as (page & b1 & m1 & p2 & A1 & E & Hp2 & Hinv2 & Hl1 & Hl2); [lia|change GRAIN_PER_PAGE with 16; lia|done|].
  change (PAGESIZE - 0 * GRAINED_UNIT) with PAGESIZE in E. rewrite E. rbind.
  specialize (Hl2 eq_refl). assert (Hlt2 : (length A < length A1)%nat) by (apply Hl2; intros Er; rewrite Er in Hlen; simpl in Hlen; lia).
  pose proof (Permutation_length (pk_es _ _ _ _ _ _ _ _ _ Hp2)) as Hlen2. rewrite length_app in Hlen2.
  pose proof (packing_full _ _ _ _ _ cur _ _ _ _ Hp2 (Z.le_refl 16)) as Hp3. clear Hp2. rename Hp3 into Hp2.
  destruct (IH b1 m1 p2 A1 (fl ++ [FNode ppa page]) cur (n - 1) ({[ppa]} ∪ used) Hp2) as (m' & p' & fl' & b' & A' & E' & Hp' & Hr' & Hl' & Hf' & n' & used' & Hinv' & Hn' & Hu' & Hfu');
    [lia|lia|done| | | |].
  - intros x. rewrite fmap_app, elem_of_app, elem_of_union. intros [Hx%Hfl|Hx%list_elem_of_singleton]; [by right|].
    left. apply elem_of_singleton. exact Hx.
  - clear -Hu0. set_solver.
  - intros x. rewrite fmap_app, elem_of_app. intros [Hx|Hx%list_elem_of_singleton]; [by apply Hfresh|]. cbn in Hx. subst x.
    intros Hx. by apply Hnu, Hu0.
  - exists m', p', fl', b', A'. split_and!; [exact E'|done|done|rewrite length_app in Hl'; simpl in Hl'; lia|done|].
    exists n', used'. split_and!; try done. lia.
Qed.

(** *** Writing the pages *)

Lemma write_pages_spec {L : Type} `{!Lower L} `{!LowerOk L} fl : ∀ l : L,
  low_wf l → NoDup (fl_ppa <$> fl) →
  (∀ n, n ∈ fl → Z.of_nat (length (fl_value n)) = PAGESIZE ∧ 0 <= fl_ppa n < _NOP ∧ low_page l (fl_ppa n) = None) →
  ∃ l', write_pages fl l = Ok l' ∧ low_wf l' ∧ (∀ n, n ∈ fl → low_page l' (fl_ppa n) = Some (fl_value n)) ∧
    ∀ q, q ∉ fl_ppa <$> fl → low_page l' q = low_page l q.
Proof.
  induction fl as [|n fl IH]; intros l Hwf Hnd Hok; cbn [write_pages].
  { exists l. split_and!; [done|done| |done]. by intros n Hn%elem_of_nil. }
  rewrite fmap_cons in Hnd. apply NoDup_cons in Hnd as [Hn Hnd].
  destruct (Hok n) as (Hl & Hp & Hnone); [apply elem_of_cons; by left|].
  destruct (low_write_ok l DATAW (fl_ppa n) (VS (fl_value n) 0)) as (l1 & -> & Hwf1 & Hl1); [done|done|cbn [value]; lia|done|done|]. rbind.
  destruct (IH l1 Hwf1 Hnd) as (l' & -> & Hwf' & Hin & Hout).
  { intros x Hx. destruct (Hok x) as (H1 & H2 & H3); [apply elem_of_cons; by right|]. split_and!; [done|lia|lia|].
    rewrite Hl1, decide_False; [done|]. intros E. apply Hn. rewrite <-E. apply list_elem_of_fmap. by exists x. }
  exists l'. split_and!; [done|done| |].
  - intros x [->|Hx]%elem_of_cons; [|by apply Hin]. rewrite Hout by done. by rewrite Hl1, decide_True.
  - intros q. rewrite fmap_cons, not_elem_of_cons. intros [Hq Hq']. rewrite Hout by done. by rewrite Hl1, decide_False.
Qed.

(** The whole assignment, from the buffer to the flush list. *)
Lemma assign_spec wb_flush_size es m p n used :
  0 <= wb_flush_size <= Z.of_nat (length es) → let es' := take (Z.to_nat wb_flush_size) es in
  NoDup es' → ca_len (dp_grains p) = _NOP * GRAIN_PER_PAGE → (∀ e, e ∈ es' → ∃ t, 1 <= t <= GRAIN_PER_PAGE ∧ waits m e t) →
  dp_inv p n used → wb_flush_size <= n → g0 = dp_grains p →
  ∃ m' p' fl b A, _do_wb_assign_ppa wb_flush_size es m p = Ok (m', p', fl) ∧ es' ≡ₚ A ∧
    packing m es' fl 0 GRAIN_PER_PAGE b m' (dp_grains p') A ∧ Z.of_nat (length fl) <= wb_flush_size ∧ (∀ x, x ∈ fl_ppa <$> fl → x ∉ used) ∧
    ∃ n' used', dp_inv p' n' used' ∧ n - wb_flush_size <= n' ∧ used ⊆ used' ∧ ∀ x, x ∈ fl_ppa <$> fl → x ∈ used'.
Proof.
  intros Hwb es' Hnd Hg Hes Hinv Hn Hg0. unfold _do_wb_assign_ppa. rewrite (proj2 (Z.ltb_ge _ _)) by lia. fold es'.
  assert (Hlen : Z.of_nat (length es') = wb_flush_size) by (unfold es'; rewrite length_take; lia).
  destruct (fill_buckets_spec es' m new_buckets []) as (b & -> & Hl & Hw & Hr).
  { done. }
  { intros t e Ht He. by apply elem_of_nil in He. }
  { done. }
  { exact Hes. }
  rbind. rewrite app_nil_r in Hr.
  assert (Hp : packing m es' [] 0 GRAIN_PER_PAGE b m (dp_grains p) []).
  { constructor; try done; [| | |by rewrite Hg0|intros i; rewrite Hg0; by left|apply NoDup_nil_2|]; intros; by match goal with H : _ ∈ [] |- _ => apply elem_of_nil in H end. }
  destruct (assign_pages_spec m es' used (S (Z.to_nat wb_flush_size)) b m p [] [] 0 n used Hp)
    as (m' & p' & fl & b' & A & E & Hp' & Hr' & Hfl & Hfresh & n' & used' & Hinv' & Hn' & Hu' & Hfu'); [rewrite Hr; lia|rewrite Hr; lia|done|by intros x ?%elem_of_nil|done|by intros x ?%elem_of_nil|].
  rewrite Hlen in E. exists m', p', fl, b', A. split; [exact E|]. split.
  { rewrite (pk_es _ _ _ _ _ _ _ _ _ Hp'), Hr'. by rewrite app_nil_r. }
  split; [exact Hp'|]. split; [rewrite Hr in Hfl; simpl in Hfl; lia|]. split; [exact Hfresh|]. exists n', used'. rewrite Hr in Hn'. split_and!; try done. lia.
Qed.

End pack.

(** ** Properties *)

(** The simplest data pages: they are numbered from 0 and never reclaimed. *)
Record flat_dpages := FlatD { flatd_next : Z; flatd_grains : grain_bitmap }.
#[export] Instance flat_dpages_ops : DataPages flat_dpages := {|
  dp_get p := if flatd_next p <? 131072 then Ok (flatd_next p, FlatD (flatd_next p + 1) (flatd_grains p)) else Err Aborted;
  dp_grains := flatd_grains;
  dp_set_grains g p := FlatD (flatd_next p) g |}.

#[export] Program Instance flat_dpages_ok `{Sg : Settings, !SettingsOk Sg} : DataPagesOk flat_dpages := {|
  dp_inv p n used := 0 <= flatd_next p ∧ flatd_next p + n <= 131072 ∧ ∀ ppa, ppa ∈ used → 0 <= ppa < flatd_next p |}.
Next Obligation.
  intros Sg HSg [k g] n used (Hk & Hn & Hu) Hpos. cbn in *. pose proof NOP_range. exists k, (FlatD (k + 1) g).
  rewrite (proj2 (Z.ltb_lt k 131072)) by lia. split; [done|]. split; [intros Hin; apply Hu in Hin; lia|].
  split; [lia|]. split; [|done]. cbn. split; [lia|]. split; [lia|].
  intros q [->%elem_of_singleton|Hq]%elem_of_union; [lia|]. apply Hu in Hq. lia.
Qed.
Next Obligation. done. Qed.
Next Obligation. done. Qed.

(** C11: A flush loses no value of the write buffer: when the page layer can hand
    out one fresh data page per entry, and those pages are erased, assigning
    addresses and writing the pages terminates without error and needs at most one
    page per entry; every flushed entry then has an address of its own, whose
    grains lie within one page and hold the entry's value on the device; no two entries
    share a grain, the entries that were not flushed are unchanged, and so are the pages
    handed out before. The grain bitmap changes only in the first grain of every
    flushed entry, which is marked as valid; the other grains of a value are not marked. *)
Theorem flush_stores_every_entry `{Sg : Settings, !SettingsOk Sg} {P L : Type} `{!DataPages P} `{!DataPagesOk P}
    `{!Lower L} `{!LowerOk L} (wb_flush_size : Z) (es : list loc) (m : gmap loc wentry) (p : P) (l : L) (used : gset Z) :
  0 <= wb_flush_size <= Z.of_nat (length es) → let es' := take (Z.to_nat wb_flush_size) es in
  NoDup es' → ca_len (dp_grains p) = _NOP * GRAIN_PER_PAGE → (∀ e, e ∈ es' → ∃ t, 1 <= t <= GRAIN_PER_PAGE ∧ waits m e t) →
  dp_inv p wb_flush_size used → low_wf l → (∀ ppa, 0 <= ppa < _NOP → ppa ∉ used → low_page l ppa = None) →
  ∃ m' p' fl l', _do_wb_assign_ppa wb_flush_size es m p = Ok (m', p', fl) ∧ write_pages fl l = Ok l' ∧
    Z.of_nat (length fl) <= wb_flush_size ∧
    (∀ e, e ∈ es' → ∃ w v w' page, m !! e = Some w ∧ w_value w = Some v ∧ m' !! e = Some w' ∧ w_value w' = None ∧
       w_len w' = w_len w ∧ ca_at (dp_grains p') (w_ppa w') = true ∧ (G_IDX (w_ppa w') ∉ used) ∧
       low_page l' (G_IDX (w_ppa w')) = Some page ∧ G_OFFSET (w_ppa w') + w_len w <= GRAIN_PER_PAGE ∧
       grains page (G_OFFSET (w_ppa w')) (w_len w) = v) ∧
    (∀ e e', e ∈ es' → e' ∈ es' → e ≠ e' → apart m' e e') ∧
    (∀ e, e ∉ es' → m' !! e = m !! e) ∧
    (∀ ppa, ppa ∈ used → low_page l' ppa = low_page l ppa) ∧
    (∀ i, ca_at (dp_grains p') i = true ↔ ca_at (dp_grains p) i = true ∨ ∃ e w', e ∈ es' ∧ m' !! e = Some w' ∧ i = w_ppa w').
Proof.
  intros Hwb es' Hnd Hg Hes Hinv Hwf Hpages.
  destruct (assign_spec (dp_grains p) wb_flush_size es m p wb_flush_size used Hwb Hnd Hg Hes Hinv) as (m' & p' & fl & b & A & E & HA & Hp & Hfl & Hfresh & _);
    [done|done|].
  destruct (write_pages_spec fl l Hwf (pk_pages _ _ _ _ _ _ _ _ _ _ Hp)) as (l' & El & Hwf' & Hin & Hout).
  { intros n Hn. destruct (pk_size _ _ _ _ _ _ _ _ _ _ Hp n Hn) as [H1 H2]. split_and!; [done|lia|lia|]. apply Hpages; [done|].
    apply Hfresh, list_elem_of_fmap. by exists n. }
  assert (HAe : ∀ e, e ∈ es' ↔ e ∈ A) by (intros e; fold es' in HA; by rewrite HA).
  exists m', p', fl, l'. split_and!; [exact E|exact El|done| | | | |].
  - intros e He%HAe. destruct (pk_placed _ _ _ _ _ _ _ _ _ _ Hp e He) as (w & v & n & off & H1 & H2 & H3 & H4 & H5 & H6 & H7 & H8).
    assert (Hlim : off + w_len w <= 16) by (by destruct (decide (fl_ppa n = 0))).
    assert (Eidx : G_IDX (fl_ppa n * GRAIN_PER_PAGE + off) = fl_ppa n ∧ G_OFFSET (fl_ppa n * GRAIN_PER_PAGE + off) = off).
    { unfold G_IDX, G_OFFSET. change GRAIN_PER_PAGE with 16. Z.to_euclidean_division_equations. lia. }
    destruct Eidx as [Ei Eo]. exists w, v, (place_entry (fl_ppa n * GRAIN_PER_PAGE + off) w), (fl_value n).
    pose proof (pk_valid _ _ _ _ _ _ _ _ _ _ Hp e _ He H7) as Hv. cbn [place_entry w_ppa w_len w_value] in *. rewrite Ei, Eo.
    split_and!; try done; [|by apply Hin]. apply Hfresh, list_elem_of_fmap. by exists n.
  - intros e e' He%HAe He'%HAe. exact (pk_apart _ _ _ _ _ _ _ _ _ _ Hp e e' He He').
  - intros e He. apply (pk_same _ _ _ _ _ _ _ _ _ _ Hp). by rewrite <-HAe.
  - intros ppa Hu. apply Hout. intros Hx. exact (Hfresh ppa Hx Hu).
  - intros i. split.
    + intros [Hi|(e & w & He & Hw)]%(pk_only _ _ _ _ _ _ _ _ _ _ Hp); [by left|right]. exists e, w. by rewrite HAe.
    + intros [Hi|(e & w & He%HAe & Hw & ->)]; [by apply (pk_keep _ _ _ _ _ _ _ _ _ _ Hp)|by apply (pk_valid _ _ _ _ _ _ _ _ _ _ Hp e)].
Qed.

(** A buffer of three entries with values of nine, four and eight grains. *)
Definition small_buffer : gmap loc wentry :=
  <[1%positive := WEnt 9 (Some (replicate (Z.to_nat (9 * 512)) 11)) 0]> (<[2%positive := WEnt 4 (Some (replicate (Z.to_nat (4 * 512)) 22)) 0]>
    (<[3%positive := WEnt 8 (Some (replicate (Z.to_nat (8 * 512)) 33)) 0]> ∅)).

Lemma small_buffer_waits e : e ∈ [1%positive; 2%positive; 3%positive] → ∃ t, 1 <= t <= GRAIN_PER_PAGE ∧ waits small_buffer e t.
Proof.
  intros [He|[He|[He|He%elem_of_nil]%elem_of_cons]%elem_of_cons]%elem_of_cons; [..|done]; subst e;
    [exists 9|exists 4|exists 8]; (split; [by change GRAIN_PER_PAGE with 16|]); eexists _, _;
    (split; [unfold small_buffer; by rewrite ?lookup_insert_eq, ?lookup_insert_ne, ?lookup_insert_eq, ?lookup_insert_ne, ?lookup_insert_eq by done|]);
    (split; [done|]); (split; [done|]); by rewrite length_replicate.
Qed.

#[local] Existing Instance settings_1.

Lemma flush_stores_every_entry_witness :
  let es : list loc := [1%positive; 2%positive; 3%positive] in
  ∃ m' p' fl l',
    _do_wb_assign_ppa 3 es small_buffer (FlatD 0 (grain_create (_NOP (S:=settings_1) * 16))) = Ok (m', p', fl) ∧
    write_pages fl (PosixMemory.posix_create (Sg:=settings_1) 0) = Ok l' ∧ Z.of_nat (length fl) <= 3 ∧
    ∀ e e', e ∈ es → e' ∈ es → e ≠ e' → apart m' e e'.
Proof.
  intros es.
  destruct (flush_stores_every_entry (Sg:=settings_1) 3 es small_buffer (FlatD 0 (grain_create (_NOP (S:=settings_1) * 16)))
    (PosixMemory.posix_create (Sg:=settings_1) 0) ∅) as (m' & p' & fl & l' & E & El & Hl & _ & Ha & _).
  - done.
  - apply (bool_decide_unpack _). vm_compute. exact I.
  - done.
  - exact small_buffer_waits.
  - cbn. split; [lia|]. split; [lia|]. by intros ? ?%elem_of_empty.
  - exact (PosixMemory.posix_create_wf (Sg:=settings_1)).
  - done.
  - exists m', p', fl, l'. split; [exact E|]. split; [exact El|]. split; [exact Hl|exact Ha].
Defined.

End DemandFlush.
