(* ===== verification/DemandPage.v ===== *)
(** * Page allocation of the demand-paged FTL
    (algorithm/demand/page.c, dvalue_gc.c)

    [get_tpage] and [get_dpage] hand out translation and data pages from the
    active segments of the two partitions, and collect a segment when a partition
    has no free one left. This file models them for the build with variable-sized
    values, over the partitioned block manager and a device, and shows that they
    implement the classes [Pages] and [DataPages] that the caches and the flush are
    built on.

    Requests complete at once, so that the loops which wait for the reads of a
    collection end immediately. A translation page's content stays in the mapping
    table; the device holds a page of zeros for it. The collection of data pages
    uses the coarse-grained cache. *)
From stdpp Require Import sorting.
From S2P Require Export Prelude Settings Queue MaxHeap BadBlock Lower PosixMemory BlockManager BlockInventory Partition DemandUtil DemandCache DemandFlush.
Import BlockManager Inventory Partition DemandUtil DemandCache DemandFlush.

Local Open Scope Z_scope.

Module DemandPage.

Section ops.
Context `{Sg : Settings} {Q Mp L Qw : Type} `{!FIFO Z Q} `{!IntMap loc Mp} `{!Lower L} `{!FIFO waiter Qw}.

(** The block manager, the device, [d_active], [t_active], [d_reserve],
    [t_reserve] and the grain bitmap. *)
Record dpages := DPages {
  dp_bm : pbm Q Mp; dp_li : L; d_active : option loc; t_active : option loc; d_reserve : loc; t_reserve : loc;
  dp_bits : grain_bitmap }.
Implicit Types s : dpages.

Definition with_bm (b : pbm Q Mp) s := DPages b (dp_li s) (d_active s) (t_active s) (d_reserve s) (t_reserve s) (dp_bits s).
Definition with_li (l : L) s := DPages (dp_bm s) l (d_active s) (t_active s) (d_reserve s) (t_reserve s) (dp_bits s).
Definition with_d (a : option loc) (r : loc) s := DPages (dp_bm s) (dp_li s) a (t_active s) r (t_reserve s) (dp_bits s).
Definition with_t (a : option loc) (r : loc) s := DPages (dp_bm s) (dp_li s) (d_active s) a (d_reserve s) r (dp_bits s).
Definition with_bits (g : grain_bitmap) s := DPages (dp_bm s) (dp_li s) (d_active s) (t_active s) (d_reserve s) (t_reserve s) g.

(** The part of the state that the functions of the base manager work on. *)
Definition base s : bbm_pri Q Mp := pt_bm (dp_bm s).
Definition with_base (p : bbm_pri Q Mp) s := with_bm (Pbm p (pinfo (dp_bm s))) s.

Definition page_create (b : pbm Q Mp) (l : L) (g : grain_bitmap) : res dpages :=
  '(dr, b) ← pbm_pt_get_segment b DATA_S true;
  '(tr, b) ← pbm_pt_get_segment b MAP_S true;
  Ok (DPages b l None None dr tr g).

Definition validate_page s (ppa : Z) : res (Z * dpages) :=
  '(rc, p) ← base_populate_bit (base s) ppa;
  abort_if (rc =? 0) (Ok (rc, with_base p s)).

Definition invalidate_page s (ppa : Z) (type : page_t) : res (Z * dpages) :=
  '(s, ppa) ← match type with
    | DATA => '(rc, g) ← invalidate_grain (dp_bits s) ppa; abort_if (negb (rc =? 0)) (Ok (with_bits g s, G_IDX ppa))
    | MAP => Ok (s, ppa)
    end;
  '(rc, p) ← base_unpopulate_bit (base s) ppa;
  Ok (rc, with_base p s).

(** ** Collecting translation pages *)

(** [for_each_page_in_seg_blocks] *)
Definition seg_pages (bs : blocks) (ks : list Z) : list Z :=
  concat ((λ pg, (λ k, PPAMAKER (ca_at bs k) pg) <$> ks) <$> seqZ 0 _PPB).

(** [gc_table_struct]; [lpa_list] points into the spare area of the page it names. *)
Record gc_table_struct := GcTable { origin : value_set; lpa_list : Z; gt_ppa : Z }.

Fixpoint _do_bulk_read_valid_pages s (ppas : list Z) (type : page_t) : res (list gc_table_struct * dpages) :=
  match ppas with
  | [] => Ok ([], s)
  | ppa :: ppas =>
    v ← base_is_valid_page (base s) ppa;
    if v : bool then
      origin ← inf_get_valueset true None FS_MALLOC_R PAGESIZE;
      '(origin, l) ← low_read (match type with DATA => GCDR | MAP => GCMR end) ppa PAGESIZE origin (dp_li s);
      '(_, s) ← invalidate_page (with_li l s) ppa type;
      '(t, s) ← _do_bulk_read_valid_pages s ppas type;
      Ok (GcTable origin ppa ppa :: t, s)
    else _do_bulk_read_valid_pages s ppas type
  end.

(** The writes of a collection of translation pages; [ts] are the [t_ppa]s. *)
Fixpoint _do_bulk_write_valid_pages s (tbl : list gc_table_struct) (ts : carray Z) : res (dpages * carray Z) :=
  match tbl with
  | [] => Ok (s, ts)
  | t :: tbl =>
    '(r, p) ← base_get_page_num (base s) (t_reserve s);
    let new_ppa := u32 r in
    new_vs ← inf_get_valueset true None FS_MALLOC_W PAGESIZE;
    l ← low_write GCMW new_ppa PAGESIZE new_vs (dp_li s);
    '(_, s) ← validate_page (with_li l (with_base p s)) new_ppa;
    o ← base_get_oob (base s) (lpa_list t);
    lpa ← oob_lpa o 0;
    p ← set_oob true (base s) lpa new_ppa MAP;
    o ← base_get_oob p (lpa_list t);
    lpa ← oob_lpa o 0;
    ts ← ca_set ts lpa new_ppa;
    _do_bulk_write_valid_pages (with_base p s) tbl ts
  end.

Definition tpage_gc s (ts : carray Z) : res (Z * dpages * carray Z) :=
  '(target_seg, b) ← pbm_pt_get_gc_target (dp_bm s) MAP_S;
  '(tbl, s) ← _do_bulk_read_valid_pages (with_bm b s) (seg_pages (base_block (pt_bm b)) (g_blocks target_seg)) MAP;
  '(s, ts) ← _do_bulk_write_valid_pages s tbl ts;
  '(b, l) ← pbm_pt_trim_segment (dp_bm s) MAP_S target_seg (dp_li s);
  let a := t_reserve s in
  '(r, b) ← pbm_change_pt_reserve b MAP_S a;
  Ok (Z.of_nat (length tbl), with_t (Some a) r (with_li l (with_bm b s)), ts).

(** [!active || bm->check_full(bm, active, MASTER_BLOCK)] *)
Definition needs_segment s (active : option loc) : res bool :=
  match active with None => Ok true | Some a => base_check_full (base s) a MASTER_BLOCK end.

Definition get_tpage s (ts : carray Z) : res (Z * dpages * carray Z) :=
  n ← needs_segment s (t_active s);
  '(s, ts) ← (if n : bool then
      gc ← pbm_pt_isgc_needed (dp_bm s) MAP_S;
      if gc : bool then '(_, s, ts) ← tpage_gc s ts; Ok (s, ts)
      else '(a, b) ← pbm_pt_get_segment (dp_bm s) MAP_S false; Ok (with_t (Some a) (t_reserve s) (with_bm b s), ts)
    else Ok (s, ts));
  a ← deref (t_active s);
  '(r, p) ← base_get_page_num (base s) a;
  let ppa := u32 r in
  '(_, s) ← validate_page (with_base p s) ppa;
  Ok (ppa, s, ts).

(** What the caches use of this layer. The pages that carry no content are
    written as zeros. *)
#[export] Instance dpages_ops : Pages dpages := {|
  pg_get_tpage s ts := get_tpage s ts;
  pg_invalidate_map ppa s := invalidate_page s ppa MAP;
  pg_set_oob_map i ppa s := p ← set_oob true (base s) i ppa MAP; Ok (with_base p s);
  pg_read ty ppa s :=
    v ← inf_get_valueset true None FS_MALLOC_R PAGESIZE;
    '(_, l) ← low_read ty ppa PAGESIZE v (dp_li s); Ok (with_li l s);
  pg_write ty ppa s :=
    v ← inf_get_valueset true None FS_MALLOC_W PAGESIZE;
    l ← low_write ty ppa PAGESIZE v (dp_li s); Ok (with_li l s) |}.

(** ** Collecting data pages (dvalue_gc.c) *)

(** A [bulk_table] entry: the page read and its address. *)
Definition gc_page := (value_set * Z)%type.

Fixpoint _do_bulk_read_pages_containing_valid_grain s (ppas : list Z) : res (list gc_page * dpages) :=
  match ppas with
  | [] => Ok ([], s)
  | ppa :: ppas =>
    v ← contains_valid_grain (base s) (dp_bits s) ppa;
    if negb (v =? 0) then
      origin ← inf_get_valueset true None FS_MALLOC_R PAGESIZE;
      '(origin, l) ← low_read GCDR ppa PAGESIZE origin (dp_li s);
      '(t, s) ← _do_bulk_read_pages_containing_valid_grain (with_li l s) ppas;
      Ok ((origin, ppa) :: t, s)
    else _do_bulk_read_pages_containing_valid_grain s ppas
  end.

(** [gc_bucket_node]; [gn_ptr] has the bytes from the pointer to the end of its page. *)
Record gc_bucket_node := GcNode { gn_ptr : list Z; gn_lpa : Z; gn_ppa : Z }.

(** The nodes in the order of [gcb_node_arr], and the buckets of their numbers. *)
Record gc_bucket := GcBucket { gc_nodes : list gc_bucket_node; gc_stacks : carray (list nat) }.

(** [while (j+len < GRAIN_PER_PAGE && lpa_list[j+len] == 0) { len++; }] *)
Fixpoint grain_len (n : nat) (o : list Z) (j len : Z) : res Z :=
  match n with
  | O => Ok len
  | S n =>
    if j + len <? GRAIN_PER_PAGE then
      lpa ← oob_lpa o (j + len);
      if lpa =? 0 then grain_len n o j (len + 1) else Ok len
    else Ok len
  end.

(** The grains [j], [j+1], ... of a page. *)
Fixpoint gather_grains (n : nat) s (k : gc_bucket) (t : gc_page) (j : Z) : res (gc_bucket * dpages) :=
  match n with
  | O => Ok (k, s)
  | S n =>
    let pga := u32 (u32 (t.2 * GRAIN_PER_PAGE) + j) in
    v ← is_valid_grain (dp_bits s) pga;
    if negb (v =? 0) then
      o ← base_get_oob (base s) (G_IDX pga);
      len ← grain_len (Z.to_nat GRAIN_PER_PAGE) o j 1;
      lpa ← oob_lpa o j;
      abort_if (lpa =? 0)
      (st ← ca_get (gc_stacks k) len;
       stacks ← ca_set (gc_stacks k) len (length (gc_nodes k) :: st);
       let k := GcBucket (gc_nodes k ++ [GcNode (drop (Z.to_nat (j * GRAINED_UNIT)) (value t.1)) lpa 0]) stacks in
       '(_, s) ← invalidate_page s pga DATA;
       gather_grains n s k t (j + 1))
    else gather_grains n s k t (j + 1)
  end.

Fixpoint gather_pages s (k : gc_bucket) (tbl : list gc_page) : res (gc_bucket * dpages) :=
  match tbl with
  | [] => Ok (k, s)
  | t :: tbl =>
    '(k, s) ← gather_grains (Z.to_nat GRAIN_PER_PAGE) s k t 0;
    v ← contains_valid_grain (base s) (dp_bits s) t.2;
    abort_if (negb (v =? 0)) (gather_pages s k tbl)
  end.

Fixpoint gc_target_length (t : nat) (st : carray (list nat)) : nat :=
  match t with
  | O => O
  | S t' => match ca_at st (Z.of_nat t) with [] => gc_target_length t' st | _ => t end
  end.

(** One page of the reserve segment. *)
Fixpoint gc_fill_page (fuel : nat) s (ppa offset remain : Z) (page : list Z) (k : gc_bucket) (ordering_done : Z)
    : res (list Z * gc_bucket * dpages * Z) :=
  match fuel with
  | O => Err OutOfFuel
  | S fuel =>
    if 0 <? remain then
      let t := Z.of_nat (gc_target_length (Z.to_nat (remain / GRAINED_UNIT)) (gc_stacks k)) in
      if t =? 0 then Ok (page, k, s, ordering_done)
      else
        match ca_at (gc_stacks k) t with
        | [] => Err Undefined
        | i :: st =>
          stacks ← ca_set (gc_stacks k) t st;
          nd ← deref (gc_nodes k !! i);
          let pga := PPA_TO_PGA ppa offset in
          let k := GcBucket (<[i := GcNode (gn_ptr nd) (gn_lpa nd) pga]> (gc_nodes k)) stacks in
          page ← copy_at page (offset * GRAINED_UNIT) (gn_ptr nd) (t * GRAINED_UNIT);
          p ← set_oob true (base s) (gn_lpa nd) pga DATA;
          '(_, g) ← validate_grain (dp_bits s) pga;
          gc_fill_page fuel (with_bits g (with_base p s)) ppa (offset + t) (remain - t * GRAINED_UNIT) page k
            (ordering_done + 1)
        end
    else Ok (page, k, s, ordering_done)
  end.

Fixpoint gc_write_pages (fuel : nat) s (k : gc_bucket) (ordering_done : Z) : res (gc_bucket * dpages) :=
  match fuel with
  | O => Err OutOfFuel
  | S fuel =>
    if ordering_done <? Z.of_nat (length (gc_nodes k)) then
      v ← inf_get_valueset true None FS_MALLOC_W PAGESIZE;
      '(r, p) ← base_get_page_num (base s) (d_reserve s);
      let ppa := u32 r in
      '(page, k, s, n) ← gc_fill_page (S (Z.to_nat GRAIN_PER_PAGE)) (with_base p s) ppa 0 PAGESIZE (value v) k ordering_done;
      l ← low_write GCDW ppa PAGESIZE (VS page (dmatag v)) (dp_li s);
      gc_write_pages fuel (with_li l s) k n
    else Ok (k, s)
  end.

Definition _do_bulk_write_valid_grains s (tbl : list gc_page) : res (list gc_bucket_node * dpages) :=
  '(k, s) ← gather_pages s (GcBucket [] (ca_new (PAGESIZE / GRAINED_UNIT + 1) [])) tbl;
  '(k, s) ← gc_write_pages (S (length (gc_nodes k))) s k 0;
  Ok (gc_nodes k, s).

#[local] Abbreviation cache := (cache dpages Qw).
Implicit Types c : cache.

(** The first loop of [_do_bulk_mapping_update]: the entries with [skip_update]. *)
Fixpoint update_cached c (nds : list gc_bucket_node) : res (list (gc_bucket_node * bool) * cache) :=
  match nds with
  | [] => Ok ([], c)
  | nd :: nds =>
    let lpa := gn_lpa nd in
    '(hit, c) ← cg_is_hit c lpa;
    '(skip, c) ← (if hit : bool then
        _ ← cg_get_pte c lpa; c ← cg_update c lpa (gn_ppa nd); Ok (true, c)
      else
        _ ← cg_get_cmt c lpa;
        t ← ca_get (t_ppa c) (IDX lpa);
        if t =? UINT32_MAX then Ok (false, c)
        else
          p ← pg_read GCMR_DGC t (pages c);
          '(_, p) ← invalidate_page p t MAP;
          ts ← ca_set (t_ppa c) (IDX lpa) UINT32_MAX;
          Ok (false, with_t_ppa ts (with_pages p c)));
    '(r, c) ← update_cached c nds;
    Ok ((nd, skip) :: r, c)
  end.

(** [while (i+1 < n && IDX(arr[i+1]->lpa) == cmt->idx)]: the entries of one
    translation page; the rest is returned. *)
Fixpoint update_run c (i : Z) (nds : list (gc_bucket_node * bool)) : res (list (gc_bucket_node * bool) * cache) :=
  match nds with
  | (nd, _) :: nds' =>
    if IDX (gn_lpa nd) =? i then c ← set_entry c i (OFFSET (gn_lpa nd)) (gn_ppa nd); update_run c i nds'
    else Ok (nds, c)
  | [] => Ok ([], c)
  end.

(** The second loop: the translation pages that are not cached. *)
Fixpoint update_tables (fuel : nat) c (nds : list (gc_bucket_node * bool)) : res cache :=
  match fuel with
  | O => Err OutOfFuel
  | S fuel =>
    match nds with
    | [] => Ok c
    | (nd, true) :: nds => update_tables fuel c nds
    | (nd, false) :: nds =>
      m ← get_cmt c (IDX (gn_lpa nd));
      c ← set_entry c (idx m) (OFFSET (gn_lpa nd)) (gn_ppa nd);
      '(nds, c) ← update_run c (idx m) nds;
      '(t, p, ts) ← get_tpage (pages c) (t_ppa c);
      ts ← ca_set ts (IDX (gn_lpa nd)) t;
      p ← pg_write GCMW_DGC t p;
      p ← pg_set_oob_map (idx m) t p;
      c ← upd_cmt (with_t_ppa ts (with_pages p c)) (IDX (gn_lpa nd)) (set_state CLEAN);
      update_tables fuel c nds
    end
  end.

(** [qsort] with [lpa_compare] *)
Definition lpa_le (a b : gc_bucket_node) : Prop := gn_lpa a <= gn_lpa b.
#[export] Instance lpa_le_dec : RelDecision lpa_le.
Proof. intros a b. unfold lpa_le. apply _. Defined.

Definition _do_bulk_mapping_update c (nds : list gc_bucket_node) : res cache :=
  '(r, c) ← update_cached c (merge_sort lpa_le nds);
  update_tables (S (length r)) c r.

Definition dpage_gc_dvalue c : res (Z * cache) :=
  '(target_seg, b) ← pbm_pt_get_gc_target (dp_bm (pages c)) DATA_S;
  let s := with_bm b (pages c) in
  '(tbl, s) ← _do_bulk_read_pages_containing_valid_grain s (seg_pages (base_block (pt_bm b)) (g_blocks target_seg));
  '(nds, s) ← _do_bulk_write_valid_grains s tbl;
  c ← _do_bulk_mapping_update (with_pages s c) nds;
  let s := pages c in
  '(b, l) ← pbm_pt_trim_segment (dp_bm s) DATA_S target_seg (dp_li s);
  let a := d_reserve s in
  '(r, b) ← pbm_change_pt_reserve b DATA_S a;
  Ok (Z.of_nat (length tbl), with_pages (with_d (Some a) r (with_li l (with_bm b s))) c).

Definition get_dpage c : res (Z * cache) :=
  n ← needs_segment (pages c) (d_active (pages c));
  c ← (if n : bool then
      gc ← pbm_pt_isgc_needed (dp_bm (pages c)) DATA_S;
      if gc : bool then '(_, c) ← dpage_gc_dvalue c; Ok c
      else
        '(a, b) ← pbm_pt_get_segment (dp_bm (pages c)) DATA_S false;
        Ok (with_pages (with_d (Some a) (d_reserve (pages c)) (with_bm b (pages c))) c)
    else Ok c);
  a ← deref (d_active (pages c));
  '(r, p) ← base_get_page_num (base (pages c)) a;
  let ppa := u32 r in
  '(_, s) ← validate_page (with_base p (pages c)) ppa;
  Ok (ppa, with_pages s c).

(** What a flush uses of this layer. *)
#[export] Instance dpages_data : DataPages cache := {|
  dp_get := get_dpage;
  dp_grains c := dp_bits (pages c);
  dp_set_grains g c := with_pages (with_bits g (pages c)) c |}.

End ops.

Arguments dpages Q Mp L : clear implicits.

(** ** Space of a partition *)

Section alloc.
Context `{Sg : Settings, !SettingsOk Sg} {Q Mp : Type} `{!FIFO Z Q} `{!IntMap loc Mp}.
Implicit Types (p : bbm_pri Q Mp) (b : pbm Q Mp) (F : nat → list Z).

(** Channel [i] of partition [pn] has the free blocks [fs], and its heap has room
    for them. *)
Definition chan_at p (pn e : Z) (i : nat) (fs : list Z) : Prop :=
  ∃ c n, base_channel p !! p_channel pn i = Some c ∧ fifo_repr (free_block c) e fs ∧
    MaxHeap.wf (max_heap c) n ∧ MaxHeap.max (max_heap c) = e ∧ Z.of_nat (n + length fs) <= e.

(** Partition [pn] owns the segments [lo] to [hi - 1]; [F i] are the free blocks of
    its channel [i], [f] of them, all empty; of its active segment [pos] pages
    have been handed out. *)
Record stock b (pn lo hi : Z) F (f : nat) (act : option loc) (pos : Z) : Prop := Stock {
  st_chan i : (i < 64)%nat → chan_at (pt_bm b) pn (hi - lo) i (F i);
  st_free i : (i < 64)%nat → length (F i) = f ∧ NoDup (F i);
  st_block i k : (i < 64)%nat → k ∈ F i →
    0 <= k < NBLOCKS ∧ k mod 64 = Z.of_nat i ∧ lo <= k / 64 < hi ∧ now (ca_at (base_block (pt_bm b)) k) = 0;
  st_act : match act with
    | None => pos = 16384
    | Some s => ∃ ks, seg_at (pt_bm b) s ks pos ∧
        ∀ k, k ∈ ks → lo <= k / 64 < hi ∧ k ∉ F (Z.to_nat (k mod 64))
    end;
  st_pos : 0 <= pos <= 16384;
  st_num : ∃ na, now_assign (pinfo b) !! Z.to_nat pn = Some na ∧ max_assign (pinfo b) !! Z.to_nat pn = Some (hi - lo) ∧
    na + Z.of_nat f <= hi - lo;
}.

(** Steps that leave the partition's channels, counters and active segment alone. *)
Lemma stock_frame b b' pn lo hi F f act pos :
  stock b pn lo hi F f act pos →
  (∀ i, (i < 64)%nat → base_channel (pt_bm b') !! p_channel pn i = base_channel (pt_bm b) !! p_channel pn i) →
  (∀ k, 0 <= k < NBLOCKS → lo <= k / 64 < hi → now (ca_at (base_block (pt_bm b')) k) = now (ca_at (base_block (pt_bm b)) k)) →
  (∀ s, act = Some s → segs (pt_bm b') !! s = segs (pt_bm b) !! s) →
  now_assign (pinfo b') !! Z.to_nat pn = now_assign (pinfo b) !! Z.to_nat pn →
  max_assign (pinfo b') !! Z.to_nat pn = max_assign (pinfo b) !! Z.to_nat pn →
  stock b' pn lo hi F f act pos.
Proof.
  intros [] Hc Hn Hs En Em. constructor; try done.
  - intros i Hi. destruct (st_chan0 i Hi) as (c & n & Hx). exists c, n. by rewrite Hc.
  - intros i k Hi Hk. destruct (st_block0 i k Hi Hk) as (? & ? & ? & ?). rewrite Hn by done. done.
  - destruct act as [s|]; [|done]. destruct st_act0 as (ks & (H1 & H2 & H3 & H4 & H5) & Hk). exists ks. split; [|done].
    split_and!; try done; [by rewrite Hs|]. intros i k Hik. rewrite Hn; [by apply H5| |].
    + rewrite Forall_lookup in H3. by eapply H3.
    + apply Hk. by eapply list_elem_of_lookup_2.
  - by rewrite En, Em.
Qed.

(** *** Taking a segment *)

(** What taking blocks leaves alone. *)
Definition take_frame p p' (pn : Z) : Prop :=
  ca_len (base_block p') = ca_len (base_block p) ∧ blocks_wf (base_block p') ∧ same_but_links (base_block p) (base_block p') ∧
  (∀ c, (∀ i, (i < 64)%nat → c ≠ p_channel pn i) → base_channel p' !! c = base_channel p !! c) ∧ segs p' = segs p.

Lemma same_links_trans bs1 bs2 bs3 : same_but_links bs1 bs2 → same_but_links bs2 bs3 → same_but_links bs1 bs3.
Proof. intros E1 E2 k. by rewrite E2. Qed.

Lemma take_frame_trans p1 p2 p3 pn : take_frame p1 p2 pn → take_frame p2 p3 pn → take_frame p1 p3 pn.
Proof.
  intros (E1 & E2 & E3 & E4 & E5) (D1 & D2 & D3 & D4 & D5). split_and!; [congruence|done|by eapply same_links_trans| |congruence].
  intros c Hc. rewrite D4 by done. by apply E4.
Qed.

Lemma p_channel_inj pn i j : p_channel pn i = p_channel pn j → i = j.
Proof. unfold p_channel. lia. Qed.

(** One turn of the loop of [pbm_pt_get_segment]. *)
Lemma pt_take_one p pn e i x fs r :
  blocks_wf (base_block p) → (i < 64)%nat → chan_at p pn e i (x :: fs) → 0 <= x < NBLOCKS →
  ∃ c q p1 p2, base_channel p !! p_channel pn i = Some c ∧ fifo_dequeue (free_block c) = Ok (Some x, q) ∧
    (if negb r && (pn =? DATA_S) then pt_heap_append (with_channels (<[p_channel pn i := Channel q (max_heap c)]> (base_channel p)) p) (p_channel pn i) x
     else Ok (with_channels (<[p_channel pn i := Channel q (max_heap c)]> (base_channel p)) p)) = Ok p1 ∧
    (if pn =? DATA_S then upd_block p1 x (set_seg_idx (u32 (seg_map_idx p1))) else Ok p1) = Ok p2 ∧
    take_frame p p2 pn ∧ chan_at p2 pn e i fs ∧
    ∀ j, i ≠ j → base_channel p2 !! p_channel pn j = base_channel p !! p_channel pn j.
Proof.
  intros Hwf Hi (c & n & Hc & Hf & Hh & Hm & Hn) Hx. destruct (fifo_dequeue_spec _ _ _ _ Hf) as (q & Eq & Hq).
  simpl length in Hn. exists c, q. set (p0 := with_channels _ p).
  assert (Hlen : (p_channel pn i < length (base_channel p))%nat) by (by eapply lookup_lt_Some).
  assert (H1 : ∃ p1, (if negb r && (pn =? DATA_S) then pt_heap_append p0 (p_channel pn i) x else Ok p0) = Ok p1 ∧
    take_frame p p1 pn ∧ chan_at p1 pn e i fs ∧ ∀ j, i ≠ j → base_channel p1 !! p_channel pn j = base_channel p !! p_channel pn j).
  { assert (Hother : ∀ c' j, i ≠ j → <[p_channel pn i := c']> (base_channel p) !! p_channel pn j = base_channel p !! p_channel pn j).
    { intros c' j Hj. apply list_lookup_insert_ne. by intros ?%p_channel_inj. }
    destruct (negb r && (pn =? DATA_S)).
    - unfold pt_heap_append, p0. cbn [with_channels base_channel base_block]. rewrite list_lookup_insert_eq by done. cbn [deref]. rbind.
      cbn [max_heap free_block]. destruct (MaxHeap.mh_insert_append_spec pt_mh_assign_hptr (base_block p) (max_heap c) n x)
        as (h' & -> & Hw' & Hm' & _); [done|lia|]. rbind. eexists. split; [done|].
      assert (Hs : same_but_hptr (base_block p) (pt_mh_assign_hptr x (S n) (base_block p))) by apply same_hptr_upd.
      split; [|split].
      + split_and!; [done|by eapply same_hptr_wf|by apply same_links_hptr| |done].
        intros k Hk. cbn [with_channels with_blocks base_channel]. rewrite list_insert_insert_eq. apply list_lookup_insert_ne.
        intros E. by apply (Hk i Hi).
      + exists (Channel q h'), (S n). cbn [with_channels with_blocks base_channel free_block max_heap].
        rewrite list_insert_insert_eq, list_lookup_insert_eq by done. split_and!; try done; [congruence|lia].
      + intros j Hj. cbn [with_channels with_blocks base_channel]. rewrite list_insert_insert_eq. by apply Hother.
    - exists p0. split; [done|]. split; [|split].
      + split_and!; try done. intros k Hk. apply list_lookup_insert_ne. intros E. by apply (Hk i Hi).
      + exists (Channel q (max_heap c)), n. unfold p0. cbn [with_channels base_channel free_block max_heap].
        rewrite list_lookup_insert_eq by done. split_and!; try done. lia.
      + intros j Hj. by apply Hother. }
  destruct H1 as (p1 & E1 & Hfr & Hch & Hoth). exists p1. pose proof Hfr as (Hl1 & Hwf1 & _).
  destruct (pn =? DATA_S).
  - rewrite upd_block_Ok by done. eexists. split_and!; try done. eapply take_frame_trans; [done|]. split_and!; try done.
    + by apply blocks_wf_seg_idx.
    + intros k. cbn [with_blocks base_block]. rewrite ca_at_upd. by case_decide; subst.
  - by exists p1.
Qed.

Lemma pt_take_blocks_spec pn e F r n : ∀ i p,
  blocks_wf (base_block p) → (i + n <= 64)%nat →
  (∀ j, (i <= j < i + n)%nat → ∃ x fs, F j = x :: fs ∧ chan_at p pn e j (F j) ∧ 0 <= x < NBLOCKS) →
  ∃ bs p', pt_take_blocks n p pn r i = Ok (bs, p') ∧ length bs = n ∧
    (∀ j k, bs !! j = Some k → head (F (i + j)%nat) = Some k) ∧ take_frame p p' pn ∧
    (∀ j, (i <= j < i + n)%nat → chan_at p' pn e j (tail (F j))) ∧
    ∀ j, (j < i)%nat ∨ (i + n <= j)%nat → base_channel p' !! p_channel pn j = base_channel p !! p_channel pn j.
Proof.
  induction n as [|n IH]; intros i p Hwf Hin HF; cbn [pt_take_blocks].
  { exists [], p. split; [done|]. split; [done|]. split; [done|]. split; [by split_and!|]. split; [intros; lia|done]. }
  destruct (HF i) as (x & fs & EF & Hch & Hx); [lia|]. rewrite EF in Hch.
  destruct (pt_take_one p pn e i x fs r Hwf ltac:(lia) Hch Hx) as (c & q & p1 & p2 & Hc & Eq & E1 & E2 & Hfr & Hch2 & Hoth).
  rewrite Hc. cbn [deref]. rbind. rewrite Eq. rbind. rewrite E1. rbind. rewrite E2. rbind.
  pose proof Hfr as (_ & Hwf2 & _).
  destruct (IH (S i) p2 Hwf2) as (bs & p' & -> & Hlen & Hbs & Hfr' & Hch' & Hoth'); [lia| |].
  { intros j Hj. destruct (HF j) as (y & gs & EFj & (cj & nj & Hcj & Hrest) & Hy); [lia|]. exists y, gs. split; [done|]. split; [|done].
    exists cj, nj. rewrite Hoth by lia. done. }
  rbind. exists (x :: bs), p'. split_and!; [done|simpl; lia| |by eapply take_frame_trans| |].
  - intros [|j] k Hk; cbn in Hk; [injection Hk as ->; by rewrite Nat.add_0_r, EF|].
    rewrite Nat.add_succ_r. by apply (Hbs j k).
  - intros j Hj. destruct (decide (j = i)) as [->|]; [|apply Hch'; lia].
    destruct Hch2 as (c2 & n2 & Hc2 & Hrest). exists c2, n2. rewrite Hoth' by lia. by rewrite EF.
  - intros j Hj. rewrite Hoth' by lia. apply Hoth. lia.
Qed.

(** A step of partition [pn], which owns the segments [lo] to [hi - 1], on its
    segment [s]. *)
Definition part_frame b b' (pn lo hi : Z) (s : loc) : Prop :=
  (∀ c, (∀ i, (i < 64)%nat → c ≠ p_channel pn i) → base_channel (pt_bm b') !! c = base_channel (pt_bm b) !! c) ∧
  (∀ k, 0 <= k < NBLOCKS → now (ca_at (base_block (pt_bm b')) k) = now (ca_at (base_block (pt_bm b)) k) ∨ lo <= k / 64 < hi) ∧
  (∀ t g, segs (pt_bm b) !! t = Some g → t ≠ s → segs (pt_bm b') !! t = Some g) ∧
  (∀ i, i ≠ Z.to_nat pn → now_assign (pinfo b') !! i = now_assign (pinfo b) !! i) ∧
  max_assign (pinfo b') = max_assign (pinfo b).

(** The other partition does not notice it. *)
Lemma part_frame_stock b b' pn lo hi s pn' lo' hi' F f act pos :
  part_frame b b' pn lo hi s → stock b pn' lo' hi' F f act pos → 0 <= pn → 0 <= pn' → pn ≠ pn' →
  hi <= lo' ∨ hi' <= lo → act ≠ Some s → stock b' pn' lo' hi' F f act pos.
Proof.
  intros (Hc & Hn & Hs & Ha & Hm) Hst H0 H0' Hne Hr Hact. eapply stock_frame; [exact Hst|..].
  - intros i Hi. apply Hc. intros j Hj. unfold p_channel. change BPS with 64. lia.
  - intros k Hk Hkr. destruct (Hn k Hk) as [|]; [done|lia].
  - intros t ->. pose proof (st_act _ _ _ _ _ _ _ _ Hst) as (ks & (_ & _ & _ & (g & Hg & _) & _) & _).
    rewrite Hg. apply Hs; [done|]. by intros ->.
  - apply Ha. lia.
  - by rewrite Hm.
Qed.

Lemma links_now bs bs' k : same_but_links bs bs' →
  now (ca_at bs' k) = now (ca_at bs k) ∧ bitset (ca_at bs' k) = bitset (ca_at bs k) ∧ oob_list (ca_at bs' k) = oob_list (ca_at bs k).
Proof. intros E. specialize (E k). unfold set_seg_idx, set_hptr in E. cbn in E. injection E. auto. Qed.

(** A new segment: fresh, empty, out of the partition's free blocks. *)
Definition seg_taken b (lo hi : Z) F (s : loc) : Prop :=
  ∃ ks, seg_at (pt_bm b) s ks 0 ∧ ∀ k, k ∈ ks → lo <= k / 64 < hi ∧ k ∉ F (Z.to_nat (k mod 64)).

Lemma pt_get_segment_spec b pn lo hi F f act pos r :
  blocks_wf (base_block (pt_bm b)) → stock b pn lo hi F (S f) act pos →
  ∃ s b', pbm_pt_get_segment b pn r = Ok (s, b') ∧ segs (pt_bm b) !! s = None ∧
    blocks_wf (base_block (pt_bm b')) ∧ same_but_links (base_block (pt_bm b)) (base_block (pt_bm b')) ∧
    part_frame b b' pn lo hi s ∧ stock b' pn lo hi (λ i, tail (F i)) f act pos ∧ seg_taken b' lo hi (λ i, tail (F i)) s.
Proof.
  intros Hwf Hst. pose proof Hst as [Hch Hfree Hblk Hact Hpos (na & Hna & Hma & Hnum)].
  assert (Hhd : ∀ j, (j < 64)%nat → ∃ x fs, F j = x :: fs).
  { intros j Hj. destruct (Hfree j Hj) as [El _]. destruct (F j) as [|x fs]; [done|]. by exists x, fs. }
  destruct (pt_take_blocks_spec pn (hi - lo) F r 64 0 (pt_bm b) Hwf ltac:(lia)) as (bs & p' & Et & Hlen & Hbs & Hfr & Hch' & _).
  { intros j Hj. destruct (Hhd j) as (x & fs & EF); [lia|]. exists x, fs. split; [done|]. split; [apply Hch; lia|].
    apply (Hblk j x); [lia|]. rewrite EF. apply elem_of_cons. by left. }
  pose proof Hfr as (Hcl & Hwf' & Hlinks & Hother & Hsegs).
  unfold pbm_pt_get_segment. change (Z.to_nat BPS) with 64%nat. rewrite Et. rbind.
  set (s := malloc (segs (pt_bm b))). assert (Hfresh : segs (pt_bm b) !! s = None) by (apply not_elem_of_dom, malloc_fresh).
  set (p2 := if pn =? DATA_S then _ else _).
  assert (Hp2 : base_block p2 = base_block p' ∧ base_channel p2 = base_channel p' ∧
    ∃ g, segs p2 = <[s := g]> (segs (pt_bm b)) ∧ s_blocks g = bs ∧ s_now g = 0).
  { unfold p2. destruct (pn =? DATA_S); cbn [with_segs base_block base_channel segs]; rewrite Hsegs;
      (split; [done|]; split; [done|]; eexists; split; [done|]; done). }
  destruct Hp2 as (Eb & Ec & g & Es & Egb & Egn). clearbody p2.
  rewrite Hna, Hma. cbn [deref]. rbind. rewrite Z.gtb_ltb, (proj2 (Z.ltb_ge _ _)) by lia. cbn [abort_if].
  eexists s, _. split; [done|]. cbn [pt_bm pinfo]. rewrite Eb.
  assert (Hmem : ∀ i k, bs !! i = Some k → (i < 64)%nat ∧ 0 <= k < NBLOCKS ∧ k mod 64 = Z.of_nat i ∧ lo <= k / 64 < hi ∧
    now (ca_at (base_block (pt_bm b)) k) = 0 ∧ k ∉ tail (F i)).
  { intros i k Hik. assert (Hi : (i < 64)%nat) by (rewrite <-Hlen; by eapply lookup_lt_Some). split; [done|].
    pose proof (Hbs i k Hik) as Hk. cbn [Nat.add] in Hk. destruct (Hhd i Hi) as (x & fs & EF). rewrite EF in *. injection Hk as ->.
    destruct (Hblk i k Hi) as (H1 & H2 & H3 & H4); [rewrite EF; apply elem_of_cons; by left|].
    destruct (Hfree i Hi) as [_ Hnd]. rewrite EF in Hnd. apply NoDup_cons in Hnd as [Hnd _]. by repeat (split; [assumption|]). }
  assert (Hnow : ∀ k, now (ca_at (base_block p') k) = now (ca_at (base_block (pt_bm b)) k)) by (intros k; by apply links_now).
  assert (Hna' : (Z.to_nat pn < length (now_assign (pinfo b)))%nat) by (by eapply lookup_lt_Some).
  assert (Hframe : part_frame b (Pbm p2 (with_assign (pinfo b) (<[Z.to_nat pn := na + 1]> (now_assign (pinfo b))))) pn lo hi s).
  { split_and!; cbn [pt_bm pinfo with_assign now_assign max_assign]; [by rewrite Ec| | | |done].
    - intros k _. left. by rewrite Eb.
    - intros t g' Hg' Ht. rewrite Es. by rewrite lookup_insert_ne.
    - intros i Hi. by apply list_lookup_insert_ne. }
  split; [done|]. split; [done|]. split; [done|]. split; [exact Hframe|]. split.
  - constructor; cbn [pt_bm pinfo with_assign now_assign max_assign].
    + intros i Hi. destruct (Hch' i) as (c & n & Hx); [lia|]. exists c, n. by rewrite Ec.
    + intros i Hi. destruct (Hhd i Hi) as (x & fs & EF), (Hfree i Hi) as [El Hnd]. rewrite EF in *. simpl in *.
      apply NoDup_cons in Hnd as [_ Hnd]. split; [lia|done].
    + intros i k Hi Hk. rewrite Eb, Hnow. apply (Hblk i k Hi). destruct (F i); [done|]. apply elem_of_cons. by right.
    + destruct act as [a|]; [|done]. destruct Hact as (ks & (H1 & H2 & H3 & (ga & Hga & H4) & H5) & Hk).
      exists ks. split.
      * split_and!; try done; [|intros i k; rewrite Eb, Hnow; apply H5]. exists ga. rewrite Es, lookup_insert_ne by congruence. done.
      * intros k Hk'. destruct (Hk k Hk') as [Hr Hnf]. split; [done|]. intros Ht. apply Hnf. destruct (F _); [done|]. apply elem_of_cons. by right.
    + done.
    + exists (na + 1). rewrite list_lookup_insert_eq by done. split_and!; try done. lia.
  - exists bs. split.
    + split; [done|]. split.
      { apply NoDup_alt. intros i j k Hi Hj. destruct (Hmem i k Hi) as (_ & _ & ? & _), (Hmem j k Hj) as (_ & _ & ? & _). lia. }
      split; [apply Forall_lookup; intros i k Hik; by apply (Hmem i k)|]. split.
      * exists g. cbn [pt_bm]. rewrite Es, lookup_insert_eq. done.
      * intros i k Hik. cbn [pt_bm]. rewrite Eb, Hnow. change (0 / 64) with 0. change (0 mod 64) with 0. rewrite decide_False by lia.
        by destruct (Hmem i k Hik) as (_ & _ & _ & _ & -> & _).
    + intros k Hk. apply list_elem_of_lookup in Hk as [i Hik]. destruct (Hmem i k Hik) as (_ & _ & Em & Hr & _ & Hn).
      split; [done|]. rewrite Em, Nat2Z.id. done.
Qed.

(** *** Handing out pages *)

Lemma ppa_of_seg k pg : 0 <= k → 0 <= pg < 256 → ppa_of k pg / _PPS = k / 64.
Proof. unfold ppa_of. change PUNIT with 64. change _PPS with 16384. intros. Z.to_euclidean_division_equations. lia. Qed.

(** Page [q] was not handed out yet. *)
Definition unused p (q : Z) : Prop := 0 <= q < _NOP ∧ now (ca_at (base_block p) (GETBLOCKIDX q)) <= GETPAGEIDX q.

Lemma stock_page b pn lo hi F f s pos :
  blocks_wf (base_block (pt_bm b)) → stock b pn lo hi F f (Some s) pos → pos < 16384 →
  ∃ q p', base_get_page_num (pt_bm b) s = Ok (q, p') ∧ lo <= q / _PPS < hi ∧ unused (pt_bm b) q ∧ blocks_wf (base_block p') ∧
    (∀ r, unused p' r ↔ unused (pt_bm b) r ∧ r ≠ q) ∧
    (∀ r, page_bit p' r = page_bit (pt_bm b) r) ∧ (∀ r, page_oob p' r = page_oob (pt_bm b) r) ∧
    part_frame b (Pbm p' (pinfo b)) pn lo hi s ∧ stock (Pbm p' (pinfo b)) pn lo hi F f (Some s) (pos + 1).
Proof.
  intros Hwf Hst Hlt. pose proof Hst as [Hch Hfree Hblk (ks & Hat & Hks) Hpos Hnum].
  destruct (get_page_num_Ok (pt_bm b) s ks pos Hwf Hat) as (p' & E & Hwf' & Hat' & k & g' & Hk & Ep); [lia|].
  pose proof Hat as (Hlen & Hnd & Hr & _ & Hnow).
  assert (Hkr : 0 <= k < NBLOCKS) by (rewrite Forall_lookup in Hr; by eapply Hr).
  assert (Hpg : 0 <= pos / 64 < 256) by (Z.to_euclidean_division_equations; lia).
  assert (Eq : nth_page ks pos = ppa_of k (pos / 64)) by (unfold nth_page; by rewrite Hk).
  pose proof (Hnow _ _ Hk) as Hnk. rewrite Z2Nat.id, decide_False, Z.add_0_r in Hnk by (Z.to_euclidean_division_equations; lia).
  assert (Hblock : ∀ j, ca_at (base_block p') j = if decide (k = j) then set_now (pos / 64 + 1) (ca_at (base_block (pt_bm b)) k)
    else ca_at (base_block (pt_bm b)) j) by (intros j; rewrite Ep; cbn [with_segs with_blocks base_block]; apply ca_at_upd).
  destruct (Hks k) as [Hrange Hnf]; [by eapply list_elem_of_lookup_2|].
  exists (nth_page ks pos), p'. rewrite Eq. split; [by rewrite E, Eq|]. rewrite ppa_of_seg by lia. split; [done|].
  split; [split; [by apply ppa_of_range|]; rewrite GETBLOCKIDX_ppa_of, GETPAGEIDX_ppa_of by done; lia|]. split; [done|].
  split; [|split; [|split; [|split]]].
  - intros r. unfold unused. rewrite Hblock. destruct (decide (k = GETBLOCKIDX r)) as [Ek|Nk].
    + cbn [set_now now]. rewrite <-Ek, Hnk. split.
      * intros [H1 H2]. split; [split; [done|lia]|]. intros ->. rewrite GETPAGEIDX_ppa_of in H2 by done. lia.
      * intros [[H1 H2] Hne]. split; [done|]. assert (GETPAGEIDX r ≠ pos / 64); [|lia]. intros Epg. apply Hne.
        destruct (ppa_of_inv r H1) as (_ & _ & <-). by rewrite <-Ek, Epg.
    + split; [|tauto]. intros [H1 H2]. split; [done|]. intros ->. by rewrite GETBLOCKIDX_ppa_of in Nk.
  - intros r. unfold page_bit. rewrite Hblock. case_decide as Ek; [by rewrite <-Ek|done].
  - intros r. unfold page_oob. rewrite Hblock. case_decide as Ek; [by rewrite <-Ek|done].
  - split_and!; cbn [pt_bm pinfo]; try done.
    + intros c _. by rewrite Ep.
    + intros j Hj. rewrite Hblock. case_decide; [subst; by right|by left].
    + intros t g Hg Ht. rewrite Ep. cbn [with_segs segs]. by rewrite lookup_insert_ne.
  - constructor; cbn [pt_bm pinfo]; try done; [..|lia].
    + intros i Hi. destruct (Hch i Hi) as (c & n & Hx). exists c, n. by rewrite Ep.
    + intros i j Hi Hj. destruct (Hblk i j Hi Hj) as (H1 & H2 & H3 & H4). rewrite Hblock.
      rewrite decide_False; [done|]. intros ->. apply Hnf. by rewrite H2, Nat2Z.id.
    + by exists ks.
Qed.

Lemma stock_full b pn lo hi F f s pos :
  blocks_wf (base_block (pt_bm b)) → stock b pn lo hi F f (Some s) pos →
  base_check_full (pt_bm b) s MASTER_BLOCK = Ok (pos =? 16384).
Proof.
  intros [Hl _] [_ _ _ (ks & (Hlen & _ & Hr & (g & Hg & Hgb & _) & Hnow) & _) Hpos _]. unfold base_check_full.
  change ((MASTER_BLOCK =? MASTER_PAGE) || (MASTER_BLOCK =? MASTER_BLOCK)) with true. cbn iota.
  rewrite Hg. cbn [deref]. rbind. destruct (lookup_lt_is_Some_2 ks 63) as [k Hk]; [lia|].
  rewrite (seg_block_Ok g (BPS - 1) k); [|done|by rewrite Hgb]. rbind.
  assert (Hkr : 0 <= k < NBLOCKS) by (rewrite Forall_lookup in Hr; by eapply Hr). rewrite ca_get_in by lia. rbind.
  rewrite (Hnow 63%nat k Hk), decide_False by (Z.to_euclidean_division_equations; lia). f_equal. change _PPB with 256.
  rewrite Z.add_0_r. destruct (Z.eqb_spec (pos / 64) 256), (Z.eqb_spec pos 16384); try done; Z.to_euclidean_division_equations; lia.
Qed.

Lemma stock_gc b pn lo hi F f act pos : stock b pn lo hi F f act pos → pbm_pt_isgc_needed b pn = Ok (Z.of_nat f =? 0).
Proof.
  intros [Hch Hfree _ _ _ _]. destruct (Hch 0%nat ltac:(lia)) as (c & n & Hc & Hf & _). unfold pbm_pt_isgc_needed. rewrite Hc.
  cbn [deref]. rbind. rewrite (fifo_size_spec _ _ _ Hf). by destruct (Hfree 0%nat ltac:(lia)) as [-> _].
Qed.

(** Two partitions have different active segments. *)
Lemma stock_act_ne b pn lo hi F f s pos pn' lo' hi' F' f' act pos' :
  stock b pn lo hi F f (Some s) pos → stock b pn' lo' hi' F' f' act pos' → hi <= lo' ∨ hi' <= lo → act ≠ Some s.
Proof.
  intros [_ _ _ (ks & (Hlen & _ & _ & (g & Hg & Egb & _) & _) & Hks) _ _] [_ _ _ Hact _ _] Hr ->.
  destruct Hact as (ks' & (_ & _ & _ & (g' & Hg' & Egb' & _) & _) & Hks'). rewrite Hg in Hg'. injection Hg' as <-. rewrite Egb in Egb'. subst ks'.
  destruct (lookup_lt_is_Some_2 ks 0) as [k Hk]; [lia|]. apply list_elem_of_lookup_2 in Hk.
  destruct (Hks k Hk), (Hks' k Hk). lia.
Qed.

(** *** Both partitions *)

Record part := Part { p_num : Z; p_lo : Z; p_hi : Z; p_free : nat → list Z; p_count : nat; p_act : option loc; p_pos : Z }.
Definition p_stock b (x : part) : Prop := stock b (p_num x) (p_lo x) (p_hi x) (p_free x) (p_count x) (p_act x) (p_pos x).
Definition p_take (x : part) (act : option loc) (pos : Z) : part :=
  Part (p_num x) (p_lo x) (p_hi x) (λ i, tail (p_free x i)) (pred (p_count x)) act pos.
Definition p_next (x : part) : part := Part (p_num x) (p_lo x) (p_hi x) (p_free x) (p_count x) (p_act x) (p_pos x + 1).
(** The pages a partition can still hand out. *)
Definition p_left (x : part) : Z := 16384 * Z.of_nat (p_count x) + (16384 - p_pos x).

Definition split_parts (x y : part) : Prop :=
  0 <= p_num x ∧ 0 <= p_num y ∧ p_num x ≠ p_num y ∧ (p_hi x <= p_lo y ∨ p_hi y <= p_lo x).

Lemma split_parts_sym x y : split_parts x y → split_parts y x.
Proof. unfold split_parts. intros (? & ? & ? & ?). split_and!; try done; tauto. Qed.

Record duo b (x y : part) : Prop := Duo {
  duo_wf : blocks_wf (base_block (pt_bm b));
  duo_x : p_stock b x;
  duo_y : p_stock b y;
  duo_split : split_parts x y;
  duo_bits q : unused (pt_bm b) q → page_bit (pt_bm b) q = false;
}.

Lemma duo_sym b x y : duo b x y → duo b y x.
Proof. intros []. constructor; try done. by apply split_parts_sym. Qed.

Lemma links_unused p p' q : same_but_links (base_block p) (base_block p') → (unused p' q ↔ unused p q) ∧ page_bit p' q = page_bit p q.
Proof. intros Hs. destruct (links_now _ _ (GETBLOCKIDX q) Hs) as (En & Eb & _). unfold unused, page_bit. by rewrite En, Eb. Qed.

(** A partition takes a segment, as its active one or as a reserve. *)
Lemma duo_segment b x y r : duo b x y → (0 < p_count x)%nat →
  ∃ s b', pbm_pt_get_segment b (p_num x) r = Ok (s, b') ∧ duo b' (p_take x (p_act x) (p_pos x)) y ∧ duo b' (p_take x (Some s) 0) y ∧
    (∀ q, (unused (pt_bm b') q ↔ unused (pt_bm b) q) ∧ page_bit (pt_bm b') q = page_bit (pt_bm b) q).
Proof.
  intros [Hwf Hx Hy Hsp Hb] Hc. unfold p_stock in Hx. destruct (p_count x) as [|f] eqn:Ec; [lia|].
  destruct (pt_get_segment_spec b _ _ _ _ f _ _ r Hwf Hx) as (s & b' & E & Hnone & Hwf' & Hlinks & Hfr & Hst & (ks & Hat & Hks)).
  pose proof Hsp as (H1 & H2 & H3 & H4).
  assert (Hy' : p_stock b' y).
  { eapply part_frame_stock; [exact Hfr|exact Hy|..]; try done. intros Ea. pose proof (st_act _ _ _ _ _ _ _ _ Hy) as Hya. rewrite Ea in Hya.
    destruct Hya as (ks' & (_ & _ & _ & (g & Hg & _) & _) & _). congruence. }
  assert (Hbits : ∀ q, unused (pt_bm b') q → page_bit (pt_bm b') q = false).
  { intros q. destruct (links_unused _ _ q Hlinks) as [Eu ->]. rewrite Eu. apply Hb. }
  exists s, b'. split; [done|]. split; [|split; [|intros q; by apply links_unused]].
  - constructor; try done. unfold p_stock. cbn. by rewrite Ec.
  - constructor; try done. unfold p_stock. cbn. rewrite Ec. destruct Hst. constructor; try done; try lia. by exists ks.
Qed.

(** A partition hands out a page, which is then marked as valid. *)
Lemma duo_page b x y s : duo b x y → p_act x = Some s → p_pos x < 16384 →
  ∃ q p1 p2, base_get_page_num (pt_bm b) s = Ok (q, p1) ∧ u32 q = q ∧ base_populate_bit p1 q = Ok (1, p2) ∧
    duo (Pbm p2 (pinfo b)) (p_next x) y ∧ p_lo x <= q / _PPS < p_hi x ∧ unused (pt_bm b) q ∧
    (∀ r, unused p2 r ↔ unused (pt_bm b) r ∧ r ≠ q) ∧
    ∀ r, 0 <= r < _NOP → page_bit p2 r = if decide (r = q) then true else page_bit (pt_bm b) r.
Proof.
  intros [Hwf Hx Hy Hsp Hb] Ha Hp. unfold p_stock in Hx. rewrite Ha in Hx.
  destruct (stock_page b _ _ _ _ _ s _ Hwf Hx Hp) as (q & p1 & E & Hr & Hun & Hwf1 & Hu1 & Hb1 & _ & Hfr & Hst1).
  pose proof Hun as [Hq _]. pose proof NOP_range as Hnop. destruct (populate_Ok p1 q Hwf1 Hq) as (p2 & E2 & Hwf2 & Hb2).
  rewrite Hb1, (Hb q Hun) in E2. cbn in E2. pose proof (populate_data _ _ _ _ E2) as ((Ec & _) & Hnow & Es).
  assert (Hun2 : ∀ r, unused p2 r ↔ unused (pt_bm b) r ∧ r ≠ q) by (intros r; rewrite <-Hu1; unfold unused; by rewrite Hnow).
  assert (Hbits : ∀ r, 0 <= r < _NOP → page_bit p2 r = if decide (r = q) then true else page_bit (pt_bm b) r).
  { intros r Hr'. rewrite Hb2 by done. by rewrite Hb1. }
  exists q, p1, p2. split; [done|]. split; [apply u32_id; lia|]. split; [done|]. pose proof Hsp as (H1 & H2 & H3 & H4).
  assert (Hmove : ∀ z, p_stock (Pbm p1 (pinfo b)) z → p_stock (Pbm p2 (pinfo b)) z).
  { intros z Hz. eapply stock_frame; [exact Hz|..]; cbn [pt_bm pinfo]; try done.
    - intros i _. by rewrite Ec.
    - intros t _. by rewrite Es. }
  split; [|done]. constructor; try done.
  - apply Hmove. unfold p_stock, p_next. cbn. by rewrite Ha.
  - apply Hmove. eapply part_frame_stock; [exact Hfr|exact Hy|..]; try done. exact (stock_act_ne _ _ _ _ _ _ _ _ _ _ _ _ _ _ _ Hx Hy H4).
  - cbn [pt_bm]. intros r Hur. pose proof Hur as [Hr' _]. rewrite Hun2 in Hur. rewrite Hbits by done. destruct Hur. rewrite decide_False by done. by apply Hb.
Qed.

End alloc.

(** ** The page layer while no collection is needed *)

Section pages.
Context `{Sg : Settings, !SettingsOk Sg} {Q Mp L Qw : Type} `{!FIFO Z Q} `{!IntMap loc Mp} `{!Lower L} `{!LowerOk L}
  `{!FIFO waiter Qw}.
#[local] Abbreviation dpages := (dpages Q Mp L).
#[local] Abbreviation cache := (cache dpages Qw).
Implicit Types (s : dpages) (c : cache).

Definition dp_ready s (t d : part) : Prop :=
  duo (dp_bm s) t d ∧ p_num t = MAP_S ∧ p_num d = DATA_S ∧ p_act t = t_active s ∧ p_act d = d_active s.

(** Page [q] was handed out by partition [x] between [s] and [s']. *)
Definition handed s s' (q : Z) (x : part) : Prop :=
  p_lo x <= q / _PPS < p_hi x ∧ unused (base s) q ∧ (∀ r, unused (base s') r ↔ unused (base s) r ∧ r ≠ q) ∧
  (∀ r, 0 <= r < _NOP → page_bit (base s') r = if decide (r = q) then true else page_bit (base s) r) ∧
  dp_li s' = dp_li s ∧ dp_bits s' = dp_bits s.

(** The same range, with one page less. *)
Definition one_less (x x' : part) : Prop := p_lo x' = p_lo x ∧ p_hi x' = p_hi x ∧ p_left x' = p_left x - 1.

(** The test for a new segment, and the segment it leads to. *)
Lemma duo_choice (b : pbm Q Mp) x y : duo b x y → 0 < p_left x →
  (∃ a, p_act x = Some a ∧ base_check_full (pt_bm b) a MASTER_BLOCK = Ok false ∧ p_pos x < 16384) ∨
  (match p_act x with None => Ok true | Some a => base_check_full (pt_bm b) a MASTER_BLOCK end = Ok true ∧
   pbm_pt_isgc_needed b (p_num x) = Ok false ∧
   ∃ a b', pbm_pt_get_segment b (p_num x) false = Ok (a, b') ∧ duo b' (p_take x (Some a) 0) y ∧ p_left (p_take x (Some a) 0) = p_left x ∧
     ∀ q, (unused (pt_bm b') q ↔ unused (pt_bm b) q) ∧ page_bit (pt_bm b') q = page_bit (pt_bm b) q).
Proof.
  intros Hduo Hleft. pose proof Hduo as [Hwf Hx _ _ _]. unfold p_stock in Hx. pose proof (st_pos _ _ _ _ _ _ _ _ Hx) as Hpos.
  assert (Hcase : (∃ a, p_act x = Some a ∧ p_pos x < 16384) ∨ p_pos x = 16384).
  { pose proof (st_act _ _ _ _ _ _ _ _ Hx) as Ha. destruct (p_act x) as [a|]; [|by right].
    destruct (decide (p_pos x = 16384)); [by right|left]. exists a. split; [done|lia]. }
  destruct Hcase as [(a & Ea & Hlt)|Efull].
  - left. exists a. rewrite Ea in Hx. rewrite (stock_full _ _ _ _ _ _ _ _ Hwf Hx), (proj2 (Z.eqb_neq _ _)) by lia. done.
  - right. unfold p_left in Hleft. assert (Hc : (0 < p_count x)%nat) by lia. split; [|split].
    + destruct (p_act x) as [a|]; [|done]. by rewrite (stock_full _ _ _ _ _ _ _ _ Hwf Hx), (proj2 (Z.eqb_eq _ _)).
    + rewrite (stock_gc _ _ _ _ _ _ _ _ Hx), (proj2 (Z.eqb_neq _ _)) by lia. done.
    + destruct (duo_segment b x y false Hduo Hc) as (a & b' & E & _ & Hd & Hq). exists a, b'. split_and!; try done.
      unfold p_left, p_take. cbn [p_count p_pos]. lia.
Qed.

(** [s1] has the pages of [s]. *)
Definition same_pages s s1 : Prop :=
  (∀ q, (unused (base s1) q ↔ unused (base s) q) ∧ page_bit (base s1) q = page_bit (base s) q) ∧
  dp_li s1 = dp_li s ∧ dp_bits s1 = dp_bits s.

Lemma handed_from s s1 s' q x x1 :
  same_pages s s1 → p_lo x1 = p_lo x → p_hi x1 = p_hi x → handed s1 s' q x1 → handed s s' q x.
Proof.
  intros (Hq & El & Eb) Elo Ehi (Hr & Hun & Hun' & Hb & El' & Eb'). rewrite Elo, Ehi in Hr. split; [done|].
  split; [by apply (Hq q)|]. split; [intros r; rewrite Hun'; by destruct (Hq r) as [-> _]|].
  split; [|split; congruence]. intros r Hr'. rewrite Hb by done. case_decide; [done|]. apply Hq.
Qed.

(** Taking a page of the active segment and marking it. *)
Lemma hand_page s x y a : duo (dp_bm s) x y → p_act x = Some a → p_pos x < 16384 →
  ∃ q p1 p2, base_get_page_num (base s) a = Ok (q, p1) ∧ u32 q = q ∧ validate_page (with_base p1 s) q = Ok (1, with_base p2 s) ∧
    duo (Pbm p2 (pinfo (dp_bm s))) (p_next x) y ∧ handed s (with_base p2 s) q x ∧ one_less x (p_next x).
Proof.
  intros Hduo Ha Hpos. destruct (duo_page (dp_bm s) x y a Hduo Ha Hpos) as (q & p1 & p2 & E & Eu & E2 & Hd2 & Hr & Hun & Hun2 & Hb2).
  exists q, p1, p2. split; [exact E|]. split; [done|]. split.
  { unfold validate_page. cbn [with_base with_bm base dp_bm pt_bm]. rewrite E2. done. }
  split; [done|]. split; [split; [exact Hr|]; split; [exact Hun|]; split; [exact Hun2|]; split; [exact Hb2|done]|]. unfold one_less, p_next, p_left. cbn. split_and!; try done. lia.
Qed.

Lemma one_less_trans x x1 x' : p_lo x1 = p_lo x → p_hi x1 = p_hi x → p_left x1 = p_left x → one_less x1 x' → one_less x x'.
Proof. unfold one_less. intros -> -> ->. done. Qed.

Lemma get_tpage_Ok s (ts : carray Z) t d : dp_ready s t d → 0 < p_left t →
  ∃ q s' t', get_tpage s ts = Ok (q, s', ts) ∧ dp_ready s' t' d ∧ one_less t t' ∧ handed s s' q t.
Proof.
  intros (Hduo & Ht & Hd & Hta & Hda) Hleft. unfold get_tpage, needs_segment. rewrite <-Hta.
  destruct (duo_choice _ t d Hduo Hleft) as [(a & Ea & Efull & Hpos)|(Efull & Egc & a & b' & Eseg & Hd1 & El & Hq1)];
    change (base s) with (pt_bm (dp_bm s)).
  - rewrite Ea, Efull. rbind. rewrite <-Hta, Ea. cbn [deref]. rbind.
    destruct (hand_page s t d a Hduo Ea Hpos) as (q & p1 & p2 & -> & Eu & Ev & Hd2 & Hh & Hl). rbind. rewrite Eu. cbv zeta. rewrite Ev. rbind.
    eexists q, _, (p_next t). split; [done|]. split; [|done]. split; [done|]. cbn. by rewrite Hta, Hda.
  - rewrite Efull. rbind. rewrite <-Ht, Egc. rbind. rewrite Eseg. rbind. cbn [deref]. rbind.
    set (s1 := with_t _ _ _). set (t1 := p_take t (Some a) 0) in *.
    destruct (hand_page s1 t1 d a Hd1 eq_refl ltac:(done)) as (q & p1 & p2 & E & Eu & Ev & Hd2 & Hh & Hl).
    cbn [t_active with_t s1 deref]. rbind. rewrite E. rbind. rewrite Eu. cbv zeta. rewrite Ev. rbind.
    eexists q, _, (p_next t1). split; [done|]. split; [split; [done|]; cbn; by rewrite Hda|].
    split; [by apply (one_less_trans t t1)|]. by apply (handed_from s s1 _ q t t1).
Qed.

Lemma get_dpage_Ok c t d : dp_ready (pages c) t d → 0 < p_left d →
  ∃ q s' d', get_dpage c = Ok (q, with_pages s' c) ∧ dp_ready s' t d' ∧ one_less d d' ∧ handed (pages c) s' q d.
Proof.
  intros (Hduo%duo_sym & Ht & Hd & Hta & Hda) Hleft. unfold get_dpage, needs_segment. rewrite <-Hda. set (s := pages c) in *.
  destruct (duo_choice _ d t Hduo Hleft) as [(a & Ea & Efull & Hpos)|(Efull & Egc & a & b' & Eseg & Hd1 & El & Hq1)];
    change (base s) with (pt_bm (dp_bm s)).
  - rewrite Ea, Efull. rbind. change (pages c) with s. rewrite <-Hda, Ea. cbn [deref]. rbind.
    destruct (hand_page s d t a Hduo Ea Hpos) as (q & p1 & p2 & -> & Eu & Ev & Hd2 & Hh & Hl). rbind. rewrite Eu. cbv zeta. rewrite Ev. rbind.
    eexists q, _, (p_next d). split; [done|]. split; [|done]. split; [by apply duo_sym|]. cbn. by rewrite Hta, Hda.
  - rewrite Efull. rbind. rewrite <-Hd, Egc. rbind. rewrite Eseg. rbind.
    set (s1 := with_d _ _ _). set (d1 := p_take d (Some a) 0) in *. cbn [with_pages pages].
    destruct (hand_page s1 d1 t a Hd1 eq_refl ltac:(done)) as (q & p1 & p2 & E & Eu & Ev & Hd2 & Hh & Hl).
    cbn [d_active with_d s1 deref]. rbind. rewrite E. rbind. rewrite Eu. cbv zeta. rewrite Ev. rbind.
    eexists q, _, (p_next d1). split; [done|]. split; [split; [by apply duo_sym|]; cbn; by rewrite Hta|].
    split; [by apply (one_less_trans d d1)|]. by apply (handed_from s s1 _ q d d1).
Qed.

(** *** A new page layer *)

Lemma part_blocks_stock (b : pbm Q Mp) epn pn e :
  blocks_wf (base_block (pt_bm b)) → (∀ k, 0 <= k < NBLOCKS → ca_at (base_block (pt_bm b)) k = fresh_block k) →
  now_assign (pinfo b) = replicate (length epn) 0 → max_assign (pinfo b) = epn → epn !! pn = Some e → 0 <= e →
  0 <= part_start epn pn → part_start epn pn + e <= _NOS →
  (∀ i, (i < 64)%nat → ∃ ch, base_channel (pt_bm b) !! p_channel (Z.of_nat pn) i = Some ch ∧
     fifo_repr (free_block ch) e (part_blocks (part_start epn pn) e i) ∧ max_heap ch = MaxHeap.mh_init (Z.to_nat e)) →
  stock b (Z.of_nat pn) (part_start epn pn) (part_start epn pn + e) (part_blocks (part_start epn pn) e) (Z.to_nat e) None 16384.
Proof.
  intros Hwf Hfresh Hna Hma Hpn He Hlo Hhi Hch. set (lo := part_start epn pn) in *.
  assert (Hlen : ∀ i, length (part_blocks lo e i) = Z.to_nat e) by (intros i; unfold part_blocks; by rewrite length_fmap, length_seq).
  constructor; try done.
  - intros i Hi. destruct (Hch i Hi) as (ch & Hc & Hf & Hm). exists ch, 0%nat. rewrite Hm, Hlen.
    replace (lo + e - lo) with e by lia. split_and!; try done; [by apply MaxHeap.mh_init_wf|cbn; lia|lia].
  - intros i Hi. split; [by apply Hlen|]. unfold part_blocks. apply NoDup_fmap_2; [|apply NoDup_seq].
    intros x y. change BPS with 64. lia.
  - intros i k Hi Hk. apply elem_of_part_blocks in Hk as [Hr Hm]; [|done].
    assert (Hkr : 0 <= k < NBLOCKS) by (unfold NBLOCKS; change PUNIT with 64; Z.to_euclidean_division_equations; lia).
    split_and!; try done; try lia. by rewrite Hfresh.
  - exists 0. rewrite Hna, Hma, Nat2Z.id, Hpn. split; [apply lookup_replicate_2; by eapply lookup_lt_Some|].
    replace (lo + e - lo) with e by lia. split; [done|lia].
Qed.

Lemma pages_created (ck : BadBlock.bb_checker) (et ed : Z) (l : L) (g : grain_bitmap) :
  checker_ready ck → 1 <= et → 1 <= ed → et + ed <= _NOS →
  ∃ b ck' s t d, pbm_create ck [et; ed] = Ok (b, ck') ∧ page_create b l g = Ok s ∧ dp_ready s t d ∧
    p_lo t = 0 ∧ p_hi t = et ∧ p_left t = (et - 1) * 16384 ∧ p_lo d = et ∧ p_hi d = et + ed ∧ p_left d = (ed - 1) * 16384 ∧
    dp_li s = l ∧ dp_bits s = g ∧ ∀ q, 0 <= q < _NOP → unused (base s) q ∧ page_bit (base s) q = false.
Proof.
  intros Hck Het Hed Hsum. destruct (pbm_create_spec (Q:=Q) (Mp:=Mp) ck [et; ed] Hck) as (b & ck' & E & Hwf & Hfresh & Hna & Hma & Hparts).
  { repeat (apply Forall_cons; split; [lia|]). by apply Forall_nil. }
  assert (Hs0 : part_start [et; ed] 0 = 0 ∧ part_start [et; ed] 1 = et) by (cbn; lia). destruct Hs0 as [Hs0 Hs1].
  set (t0 := Part MAP_S 0 et (part_blocks 0 et) (Z.to_nat et) None 16384).
  set (d0 := Part DATA_S et (et + ed) (part_blocks et ed) (Z.to_nat ed) None 16384).
  assert (Hall : ∀ q, 0 <= q < _NOP → unused (pt_bm b) q ∧ page_bit (pt_bm b) q = false).
  { intros q Hq. destruct (ppa_of_inv q Hq) as (Hb & Hp & _). unfold unused, page_bit. rewrite Hfresh by done. cbn [fresh_block now bitset].
    split; [split; [done|lia]|]. unfold zero_bitset. cbn. apply Z.bits_0. }
  assert (Hduo : duo b d0 t0).
  { constructor; try done.
    - pose proof (part_blocks_stock b [et; ed] 1 ed Hwf Hfresh Hna Hma eq_refl) as H. rewrite Hs1 in H. apply H; try lia.
      destruct (Hparts 1%nat ed eq_refl) as (_ & _ & Hch). by rewrite Hs1 in Hch.
    - pose proof (part_blocks_stock b [et; ed] 0 et Hwf Hfresh Hna Hma eq_refl) as H. rewrite Hs0 in H. apply H; try lia.
      destruct (Hparts 0%nat et eq_refl) as (_ & _ & Hch). by rewrite Hs0 in Hch.
    - unfold split_parts, t0, d0. cbn. split_and!; try done. right. lia.
    - intros q Hq. apply Hall. apply Hq. }
  destruct (duo_segment b d0 t0 true Hduo) as (dr & b1 & E1 & Hd1%duo_sym & _ & Hq1); [cbn; lia|].
  destruct (duo_segment b1 t0 _ true Hd1) as (tr & b2 & E2 & Hd2 & _ & Hq2); [cbn; lia|].
  exists b, ck'. eexists _, _, _. split; [done|]. split; [unfold page_create; cbn in E1, E2; rewrite E1; rbind; rewrite E2; done|].
  split; [split; [exact Hd2|done]|]. unfold p_left. cbn. split_and!; try done; try lia.
  intros q Hq. destruct (Hq2 q) as [Hu2 Hb2], (Hq1 q) as [Hu1 Hb1], (Hall q Hq) as [Hu Hb]. unfold base. cbn [dp_bm].
  rewrite Hu2, Hu1, Hb2, Hb1. done.
Qed.

(** *** Sequences of allocations *)

(** The calls of a run: a data page or a translation page. *)
Fixpoint get_pages (os : list page_t) c : res (list Z * cache) :=
  match os with
  | [] => Ok ([], c)
  | DATA :: os => '(q, c) ← get_dpage c; '(qs, c) ← get_pages os c; Ok (q :: qs, c)
  | MAP :: os =>
    '(q, s, ts) ← get_tpage (pages c) (t_ppa c);
    '(qs, c) ← get_pages os (with_t_ppa ts (with_pages s c)); Ok (q :: qs, c)
  end.

Definition calls (o : page_t) (os : list page_t) : Z :=
  Z.of_nat (length (filter (λ o', o' = o) os)).

(** What a run leaves behind. *)
Definition run_ok s s' (os : list page_t) (qs : list Z) (t d : part) : Prop :=
  NoDup qs ∧ (∀ q, q ∈ qs → unused (base s) q) ∧
  Forall2 (λ o q, match o with MAP => p_lo t <= q / _PPS < p_hi t | DATA => p_lo d <= q / _PPS < p_hi d end) os qs ∧
  (∀ r, 0 <= r < _NOP → page_bit (base s') r = bool_decide (r ∈ qs) || page_bit (base s) r) ∧ dp_li s' = dp_li s.

Lemma run_cons s s1 s' o q os qs t d t1 d1 :
  handed s s1 q (match o with MAP => t | DATA => d end) → p_lo t1 = p_lo t → p_hi t1 = p_hi t → p_lo d1 = p_lo d → p_hi d1 = p_hi d →
  run_ok s1 s' os qs t1 d1 → run_ok s s' (o :: os) (q :: qs) t d.
Proof.
  intros (Hr & Hun & Hun1 & Hb1 & El1 & _) E1 E2 E3 E4 (Hnd & Hqs & Hall & Hb & El). rewrite E1, E2, E3, E4 in Hall. split_and!.
  - apply NoDup_cons. split; [|done]. intros Hq%Hqs. rewrite Hun1 in Hq. by destruct Hq.
  - intros x [->|Hx]%elem_of_cons; [done|]. apply Hqs in Hx. by rewrite Hun1 in Hx; destruct Hx.
  - constructor; [by destruct o|done].
  - intros r Hr'. rewrite Hb, Hb1 by done. case_decide as E.
    + subst. rewrite orb_true_r. symmetry. apply orb_true_iff. left. apply bool_decide_eq_true. apply elem_of_cons. by left.
    + f_equal. apply bool_decide_ext. rewrite elem_of_cons. naive_solver.
  - congruence.
Qed.

Lemma get_pages_Ok os : ∀ c t d,
  dp_ready (pages c) t d → calls MAP os <= p_left t → calls DATA os <= p_left d →
  ∃ qs c', get_pages os c = Ok (qs, c') ∧ run_ok (pages c) (pages c') os qs t d ∧ blocks_wf (base_block (base (pages c'))).
Proof.
  unfold calls. induction os as [|o os IH]; intros c t d Hr Ht Hd; cbn [get_pages].
  { exists [], c. split; [done|]. split; [|by destruct Hr as [[] _]]. split_and!; try done; [apply NoDup_nil_2|by intros q ?%elem_of_nil]. }
  destruct o; rewrite !filter_cons in Ht, Hd; simpl in Ht, Hd.
  - destruct (get_dpage_Ok c t d Hr) as (q & s1 & d1 & -> & Hr1 & (E1 & E2 & E3) & Hh); [lia|]. rbind.
    destruct (IH (with_pages s1 c) t d1 Hr1) as (qs & c' & -> & Hrun & Hwf); [lia|lia|]. rbind.
    exists (q :: qs), c'. split; [done|]. split; [|done]. by apply (run_cons _ s1 _ DATA q os qs t d t d1).
  - destruct (get_tpage_Ok (pages c) (t_ppa c) t d Hr) as (q & s1 & t1 & -> & Hr1 & (E1 & E2 & E3) & Hh); [lia|]. rbind.
    destruct (IH (with_t_ppa (t_ppa c) (with_pages s1 c)) t1 d Hr1) as (qs & c' & -> & Hrun & Hwf); [lia|lia|]. rbind.
    exists (q :: qs), c'. split; [done|]. split; [|done]. by apply (run_cons _ s1 _ MAP q os qs t d t1 d).
Qed.

(** *** The contracts of the caches and of the flush *)

(** Marking, unmarking and naming pages that were handed out. *)
Lemma ready_data s p' t d : dp_ready s t d → data_frame (base s) p' → blocks_wf (base_block p') →
  (∀ q, unused (base s) q → page_bit p' q = false) →
  dp_ready (with_base p' s) t d ∧ ∀ q, unused p' q ↔ unused (base s) q.
Proof.
  intros (Hduo & Ht & Hd & Hta & Hda) ((Ec & _) & Hnow & Es) Hwf Hb.
  assert (Hun : ∀ q, unused p' q ↔ unused (base s) q) by (intros q; unfold unused; by rewrite Hnow).
  split; [|done]. split; [|done]. destruct Hduo as [_ Hx Hy Hsp _].
  assert (Hmove : ∀ z, p_stock (dp_bm s) z → p_stock (dp_bm (with_base p' s)) z).
  { intros z Hz. eapply stock_frame; [exact Hz|..]; cbn [with_base with_bm dp_bm pt_bm pinfo]; try done.
    - intros i _. by rewrite Ec.
    - intros x _. by rewrite Es. }
  constructor; [done|by apply Hmove|by apply Hmove|done|]. intros q Hq. apply Hb, Hun, Hq.
Qed.

Lemma set_oob_map (p : bbm_pri Q Mp) i ppa : blocks_wf (base_block p) → 0 <= ppa < _NOP → 0 <= i < 2 ^ 32 →
  ∃ p', set_oob true p i ppa MAP = Ok p' ∧ blocks_wf (base_block p') ∧ data_frame p p' ∧
    ∀ q, 0 <= q < _NOP → page_bit p' q = page_bit p q.
Proof.
  intros Hwf Hp Hi. assert (E : set_oob true p i ppa MAP = set_oob true p i (ppa * 16) DATA).
  { unfold set_oob, G_OFFSET, G_IDX. change GRAIN_PER_PAGE with 16. rewrite Z.mod_mul, Z.div_mul by lia. done. }
  destruct (set_oob_grain_Ok p i (ppa * 16) Hwf) as (p' & E' & Hwf' & Hb & _); [change GRAIN_PER_PAGE with 16; lia|done|].
  exists p'. rewrite E. split_and!; try done. unfold set_oob in E'. apply res_bind_Ok in E' as (o & _ & E').
  apply res_bind_Ok in E' as (r & _ & E'). by apply set_oob_data in E'.
Qed.

(** What the operations on translation pages leave alone: the grain bitmap, the
    contents of the pages that are known, the pages that were handed out and not yet
    written, and the data pages that are left. *)
Record kept := Kept { k_bits : grain_bitmap; k_dev : Z → option (list Z); k_new : gset Z; k_left : Z }.

(** The pages of [used] were handed out and are on the device; erased pages are
    the ones not handed out. *)
Record pages_ok (x : kept) s (used : gset Z) : Prop := PagesOk_ {
  po_wf : low_wf (dp_li s);
  po_erased q : unused (base s) q → low_page (dp_li s) q = None;
  po_used q : q ∈ used → 0 <= q < _NOP ∧ ¬ unused (base s) q ∧ is_Some (low_page (dp_li s) q);
  po_bits : dp_bits s = k_bits x;
  po_dev q d : k_dev x q = Some d → low_page (dp_li s) q = Some d;
  po_new q : q ∈ k_new x → ¬ unused (base s) q ∧ low_page (dp_li s) q = None;
}.
Definition t_inv (x : kept) s (n : Z) (used : gset Z) : Prop :=
  ∃ t d, dp_ready s t d ∧ n <= p_left t ∧ k_left x <= p_left d ∧ pages_ok x s used.

Lemma blank_page ty : ∃ v, (ty = FS_MALLOC_R ∨ ty = FS_MALLOC_W → inf_get_valueset true None ty PAGESIZE = Ok v) ∧
  length (value v) = Z.to_nat PAGESIZE ∧ dmatag v ≠ -1.
Proof. exists (VS (replicate (Z.to_nat PAGESIZE) 0) 0). split; [by intros [->| ->]|]. split; [apply length_replicate|done]. Qed.

(** The device read does not change the pages. *)
Lemma pages_ok_li x s used l' : pages_ok x s used → low_wf l' → (∀ q, low_page l' q = low_page (dp_li s) q) →
  pages_ok x (with_li l' s) used.
Proof. intros [] Hwf Hl. constructor; cbn [with_li dp_li dp_bits]; try done; intros q; rewrite ?Hl; auto. Qed.

(** Neither does marking, unmarking or naming pages. *)
Lemma pages_ok_base x s used p' : pages_ok x s used → (∀ q, unused p' q ↔ unused (base s) q) → pages_ok x (with_base p' s) used.
Proof.
  intros [] Hun. constructor; cbn [with_base with_bm dp_li dp_bits]; try done; unfold base; cbn [with_base with_bm dp_bm pt_bm];
    intros q; rewrite ?Hun; auto.
Qed.

Lemma t_inv_read x s n used ty ppa : t_inv x s n used → ppa ∈ used → ∃ s', pg_read ty ppa s = Ok s' ∧ t_inv x s' n used.
Proof.
  intros (t & d & Hr & Hn & Hk & Ho) Hin. destruct (po_used _ _ _ Ho ppa Hin) as (Hp & _ & y & Hy).
  destruct (blank_page FS_MALLOC_R) as (v & Ev & Hv & Htag). cbn [pg_read dpages_ops]. rewrite Ev by (by left). rbind.
  destruct (low_read_ok (dp_li s) ty ppa v y (po_wf _ _ _ Ho)) as (l' & -> & Hwf' & Hl'); try done. rbind. eexists. split; [done|].
  exists t, d. split; [exact Hr|]. split; [done|]. split; [done|]. by apply pages_ok_li.
Qed.

Lemma t_inv_invalidate x s n used ppa : t_inv x s n used → ppa ∈ used →
  ∃ r s', pg_invalidate_map ppa s = Ok (r, s') ∧ t_inv x s' n used.
Proof.
  intros (t & d & Hr & Hn & Hk & Ho) Hin. destruct (po_used _ _ _ Ho ppa Hin) as (Hp & Hnu & _). pose proof Hr as ([Hbw _ _ _ Hb] & _).
  destruct (unpopulate_Ok (base s) ppa Hbw Hp) as (p' & E & Hbw' & Hb' & _).
  destruct (ready_data s p' t d Hr (unpopulate_data _ _ _ _ E) Hbw') as [Hr' Hun'].
  { intros q Hq. pose proof Hq as [Hqr _]. rewrite Hb' by done. case_decide; [done|]. by apply Hb. }
  cbn [pg_invalidate_map dpages_ops]. unfold invalidate_page. rbind. rewrite E. rbind. eexists _, _. split; [done|].
  exists t, d. split; [done|]. split; [done|]. split; [done|]. by apply pages_ok_base.
Qed.

Lemma t_inv_get x s n used (ts : carray Z) : t_inv x s n used → 0 < n →
  ∃ ppa s', pg_get_tpage s ts = Ok (ppa, s', ts) ∧ (ppa ∉ used) ∧ 0 <= ppa < UINT32_MAX ∧
    ∃ s'', pg_write MAPPINGW ppa s' = Ok s'' ∧
      ∀ idx, 0 <= idx < 2 ^ 32 → ∃ s3, pg_set_oob_map idx ppa s'' = Ok s3 ∧ t_inv x s3 (n - 1) ({[ppa]} ∪ used).
Proof.
  intros (t & d & Hr & Hn & Hk & Ho) Hpos. destruct (get_tpage_Ok s ts t d Hr) as (q & s1 & t1 & E & Hr1 & (_ & _ & Hl) & Hh); [lia|].
  destruct Hh as (_ & Hq & Hun1 & Hb1 & El & Eg). pose proof Hq as [Hqr _]. pose proof NOP_range as Hnop.
  exists q, s1. split; [exact E|]. split; [intros Hin; by apply (po_used _ _ _ Ho q Hin)|]. split; [change UINT32_MAX with 4294967295; lia|].
  destruct (blank_page FS_MALLOC_W) as (v & Ev & Hv & Htag). cbn [pg_write dpages_ops]. rewrite Ev by (by right). rbind. rewrite El.
  destruct (low_write_ok (dp_li s) MAPPINGW q v (po_wf _ _ _ Ho)) as (l' & -> & Hwf' & Hl'); try done; [by apply (po_erased _ _ _ Ho)|]. rbind.
  eexists. split; [done|]. intros i Hi. cbn [pg_set_oob_map dpages_ops]. pose proof Hr1 as ([Hbw1 _ _ _ Hbits1] & _).
  destruct (set_oob_map (base (with_li l' s1)) i q Hbw1 Hqr Hi) as (p' & -> & Hbw' & Hdf & Hb'). rbind. eexists. split; [done|].
  destruct (ready_data (with_li l' s1) p' t1 d Hr1 Hdf Hbw') as [Hr2 Hun2].
  { intros r Hur. pose proof Hur as [Hrr _]. rewrite Hb' by done. by apply Hbits1. }
  exists t1, d. split; [done|]. split; [lia|]. split; [done|]. apply pages_ok_base; [|done].
  assert (Hun3 : ∀ r, unused (base (with_li l' s1)) r ↔ unused (base s) r ∧ r ≠ q) by exact Hun1.
  destruct Ho. constructor; cbn [with_li dp_li dp_bits]; [done|..].
  - intros r Hur. rewrite Hun3 in Hur. destruct Hur. rewrite Hl', decide_False by done. by apply po_erased0.
  - intros r Hin. rewrite Hun3, Hl'. apply elem_of_union in Hin as [Hin%elem_of_singleton|Hin].
    + subst r. split; [done|]. split; [tauto|]. by rewrite decide_True.
    + destruct (po_used0 r Hin) as (H1 & H2 & H3). split; [done|]. split; [tauto|]. by case_decide.
  - by rewrite Eg.
  - intros r y Hy%po_dev0. rewrite Hl'. case_decide; [|done]. subst. rewrite (po_erased0 _ Hq) in Hy. done.
  - intros r Hr'. destruct (po_new0 r Hr') as [Hn1 Hn2]. rewrite Hun3, Hl'. split; [tauto|]. case_decide; [|done]. by subst.
Qed.

#[export] Instance dpages_t_ok (x : kept) : PagesOk dpages := {|
  pg_inv := t_inv x;
  pg_get_tpage_ok s n used ts := t_inv_get x s n used ts;
  pg_invalidate_map_ok := t_inv_invalidate x;
  pg_read_ok := t_inv_read x |}.

(** What handing out data pages leaves alone: the rest of the cache, the device,
    the pages in use and the translation pages that are left. *)
Definition d_inv c0 (k : Z) c (n : Z) (used : gset Z) : Prop :=
  (∃ t d, dp_ready (pages c) t d ∧ n <= p_left d ∧ k <= p_left t ∧ ∀ q, q ∈ used → ¬ unused (base (pages c)) q) ∧
  c = with_pages (pages c) c0 ∧ dp_li (pages c) = dp_li (pages c0) ∧
  ∀ q, unused (base (pages c)) q → unused (base (pages c0)) q.

Lemma d_inv_get c0 k c n used : d_inv c0 k c n used → 0 < n →
  ∃ ppa c', dp_get c = Ok (ppa, c') ∧ (ppa ∉ used) ∧ 0 <= ppa < _NOP ∧ d_inv c0 k c' (n - 1) ({[ppa]} ∪ used) ∧ dp_grains c' = dp_grains c.
Proof.
  intros ((t & d & Hr & Hn & Hk & Hu) & Ec & El & Hmono) Hpos.
  destruct (get_dpage_Ok c t d Hr) as (q & s1 & d1 & E & Hr1 & (_ & _ & Hl) & Hh); [lia|].
  destruct Hh as (_ & Hq & Hun1 & _ & El1 & Eg). exists q, (with_pages s1 c). split; [exact E|].
  split; [intros Hin; by apply (Hu q Hin)|]. split; [apply Hq|]. split; [|exact Eg]. split; [|split; [by rewrite Ec|split; [exact (eq_trans El1 El)|]]].
  - exists t, d1. split; [done|]. split; [lia|]. split; [done|]. intros r Hin. cbn [with_pages pages]. rewrite Hun1.
    apply elem_of_union in Hin as [Hin%elem_of_singleton|Hin%Hu]; tauto.
  - intros r. cbn [with_pages pages]. rewrite Hun1. intros [Hr' _]. by apply Hmono.
Qed.

Lemma d_inv_set c0 k c n used g : d_inv c0 k c n used → d_inv c0 k (dp_set_grains g c) n used.
Proof. intros (H & Ec & El & Hm). split; [exact H|]. split; [by rewrite Ec|]. done. Qed.

#[export] Instance dpages_d_ok c0 (k : Z) : DataPagesOk cache := {|
  dp_inv := d_inv c0 k;
  dp_get_ok := d_inv_get c0 k;
  dp_set_ok c n used g H _ := d_inv_set c0 k c n used g H;
  dp_grains_set g c := eq_refl |}.

End pages.

(** ** Properties *)

(** C12: Page allocation never hands out a page twice. On a new partitioned block
    manager with [et] segments for translation pages and [ed] for data pages, the
    page layer starts, and any sequence of requests for translation and data pages,
    in any order, that fits in the segments beside the two reserves succeeds without
    a collection; the pages handed out are all different, translation pages lie in
    the first [et] segments and data pages in the next [ed], and afterwards exactly
    they are valid. *)
Theorem demand_pages_are_handed_out_once `{Sg : Settings, !SettingsOk Sg} {Q Mp L Qw : Type} `{!FIFO Z Q} `{!IntMap loc Mp}
    `{!Lower L} `{!LowerOk L} `{!FIFO waiter Qw} (ck : BadBlock.bb_checker) (et ed : Z) (l : L) (g : grain_bitmap) (os : list page_t) :
  checker_ready ck → 1 <= et → 1 <= ed → et + ed <= _NOS →
  calls MAP os <= (et - 1) * 16384 → calls DATA os <= (ed - 1) * 16384 →
  ∃ b ck' (s : dpages Q Mp L), pbm_create ck [et; ed] = Ok (b, ck') ∧ page_create b l g = Ok s ∧
    ∀ c : cache (dpages Q Mp L) Qw, pages c = s →
      ∃ qs c', get_pages os c = Ok (qs, c') ∧ NoDup qs ∧
        Forall2 (λ o q, match o with MAP => 0 <= q / _PPS < et | DATA => et <= q / _PPS < et + ed end) os qs ∧
        ∀ q, 0 <= q < _NOP → base_is_valid_page (base (pages c')) q = Ok (bool_decide (q ∈ qs)).
Proof.
  intros Hck Het Hed Hsum Hm Hd.
  destruct (pages_created (Q:=Q) (Mp:=Mp) ck et ed l g Hck Het Hed Hsum)
    as (b & ck' & s & t & d & E & Ec & Hr & Et1 & Et2 & Et3 & Ed1 & Ed2 & Ed3 & _ & _ & Hall).
  exists b, ck', s. split; [exact E|]. split; [exact Ec|]. intros c <-.
  destruct (get_pages_Ok os c t d Hr) as (qs & c' & Eg & (Hnd & _ & Hrange & Hb & _) & Hwf); [lia|lia|].
  exists qs, c'. split; [exact Eg|]. split; [done|]. rewrite Et1, Et2, Ed1, Ed2 in Hrange. split; [done|].
  intros q Hq. rewrite (is_valid_Ok _ _ Hwf Hq), (Hb q Hq). destruct (Hall q Hq) as [_ ->]. by rewrite orb_false_r.
Qed.

#[local] Existing Instance settings_1.

Lemma demand_pages_are_handed_out_once_witness :
  ∃ b ck' s, pbm_create (Sg:=settings_1) BadBlock.unfixed [2; 6] = Ok (b, ck') ∧
    page_create (Q:=Queue.queue Z) (Mp:=gmap Z loc) b (PosixMemory.posix_create (Sg:=settings_1) 0) (grain_create 0) = Ok s ∧
    ∀ c : cache (dpages (Queue.queue Z) (gmap Z loc) PosixMemory.posix) (Queue.queue waiter), pages c = s →
      ∃ qs c', get_pages [MAP; DATA; DATA; MAP; DATA] c = Ok (qs, c') ∧ NoDup qs.
Proof.
  destruct (demand_pages_are_handed_out_once (Sg:=settings_1) (Q:=Queue.queue Z) (Mp:=gmap Z loc) (Qw:=Queue.queue waiter)
    (L:=PosixMemory.posix)
    BadBlock.unfixed 2 6 (PosixMemory.posix_create (Sg:=settings_1) 0) (grain_create 0) [MAP; DATA; DATA; MAP; DATA] unfixed_ready)
    as (b & ck' & s & E & Ec & H).
  - lia.
  - lia.
  - rewrite NOS_eq. simpl. lia.
  - vm_compute. discriminate.
  - vm_compute. discriminate.
  - exists b, ck', s. split; [exact E|]. split; [exact Ec|]. intros c Hc. destruct (H c Hc) as (qs & c' & Eg & Hnd & _).
    exists qs, c'. split; [exact Eg|exact Hnd].
Defined.

End DemandPage.
