(* ===== verification/DemandRw.v ===== *)
(** * Requests of the demand-paged FTL (algorithm/demand/rw.c)

    The hash-based build with variable-sized values is a hash table on flash: the
    mapping table has a slot for every logical address, a key's hash gives the
    sequence of slots it may be in, and a slot names the grains of the value that
    is stored there. A flush gives every entry of the write buffer its grains
    ([DemandFlush]), then enters it in the table ([_do_wb_mapping_update]): a free
    slot is taken, a slot of the same key is replaced, and otherwise the next slot
    of the key is tried. Whether a slot has the same key is only known after its
    page was read. A read follows the same slots.

    The translation pages are used through the coarse-grained cache, the page layer
    is that of [DemandPage]. Device requests complete at once: [settle] runs what
    their completion does ([demand_end_req]) before the next turn. *)
From S2P Require Export Prelude Settings Queue MaxHeap BadBlock Lower PosixMemory BlockManager BlockInventory Partition DemandUtil DemandCache Skiplist DemandFlush DemandPage.
Import BlockManager Inventory Partition DemandUtil DemandCache DemandFlush DemandPage.

Local Open Scope Z_scope.

Module DemandRw.

(** ** Data *)

(** An entry of the write buffer ([snode]): key, hash parameters, value and place. *)
Record bentry := BEntry { be_key : str_key; be_h : hash_params; be_w : wentry }.

(** A read request. [hash_params] is NULL until the first attempt; [rq_state] says
    whether [end_req] was called, and with which type. *)
Inductive rstate := Pending | Ended | NotFound.
Record rreq := RReq { rq_key : str_key; rq_h : option hash_params; rq_value : value_set; rq_state : rstate }.

(** ** Waiting for translation pages *)

Section wait.
Context {P Qw : Type} `{!FIFO waiter Qw}.
Implicit Types c : cache P Qw.

(** [free_iparams] *)
Definition drop_jump (w : waiter) c : cache P Qw := with_jumps (delete w (jumps c)) c.

(** *** Completions ([demand_end_req]) *)

(** Reads and writes of translation pages: the one who waits is queued again. *)
Definition end_req_map c (x : Z * option waiter) : res (cache P Qw) :=
  match x with
  | (_, Some (WEntry e)) => '(_, q) ← fifo_enqueue (WEntry e) (DemandCache.wb_retry_q c); Ok (with_retry q (assigned c) c)
  | (_, Some (WReq r)) => Ok (with_retry (DemandCache.wb_retry_q c) (assigned c ++ [r]) c)
  | (_, None) => Err Undefined
  end.
Fixpoint end_reqs c (l : list (Z * option waiter)) : res (cache P Qw) :=
  match l with [] => Ok c | x :: l => c ← end_req_map c x; end_reqs c l end.
Definition settle c : res (cache P Qw) := end_reqs (with_flying [] c) (flying c).

End wait.

Section ops.
Context `{Sg : Settings} {Q Mp L Qw : Type} `{!FIFO Z Q} `{!IntMap loc Mp} `{!Lower L} `{!FIFO waiter Qw}.
#[local] Abbreviation cache := (cache (dpages Q Mp L) Qw).

(** The cache with the page layer and [wb_retry_q]; [wb_master_q], [hash_table],
    [max_try], the collision counters, [wb_flush_size]; the entries and the requests
    by their addresses. The write buffer is a skip list; what is used of it is the
    list of its entries in key order. *)
Record rw := Rw {
  r_c : cache; wb_master_q : Qw; hash_table : d_htable; max_try : Z; r_cnt : carray Z; w_cnt : carray Z;
  wb_flush_size : Z; entries : gmap loc bentry; requests : gmap loc rreq; write_buffer : list loc }.
Implicit Types s : rw.

Definition with_c (c : cache) s :=
  Rw c (wb_master_q s) (hash_table s) (max_try s) (r_cnt s) (w_cnt s) (wb_flush_size s) (entries s) (requests s) (write_buffer s).
Definition with_master (q : Qw) s :=
  Rw (r_c s) q (hash_table s) (max_try s) (r_cnt s) (w_cnt s) (wb_flush_size s) (entries s) (requests s) (write_buffer s).
Definition with_hash (t : d_htable) (n : Z) (r w : carray Z) s :=
  Rw (r_c s) (wb_master_q s) t n r w (wb_flush_size s) (entries s) (requests s) (write_buffer s).
Definition with_buffer (m : gmap loc bentry) (es : list loc) s :=
  Rw (r_c s) (wb_master_q s) (hash_table s) (max_try s) (r_cnt s) (w_cnt s) (wb_flush_size s) m (requests s) es.
Definition with_entry (e : loc) (n : bentry) s := with_buffer (<[e := n]> (entries s)) (write_buffer s) s.
Definition with_request (r : loc) (n : rreq) s :=
  Rw (r_c s) (wb_master_q s) (hash_table s) (max_try s) (r_cnt s) (w_cnt s) (wb_flush_size s) (entries s) (<[r := n]> (requests s)) (write_buffer s).

Definition be_ppa (n : bentry) : Z := w_ppa (be_w n).
Definition set_h (h : hash_params) (n : bentry) : bentry := BEntry (be_key n) h (be_w n).
Definition set_w (w : wentry) (n : bentry) : bentry := BEntry (be_key n) (be_h n) w.
Definition set_rq_h (h : hash_params) (n : rreq) : rreq := RReq (rq_key n) (Some h) (rq_value n) (rq_state n).
Definition set_rq_state (x : rstate) (n : rreq) : rreq := RReq (rq_key n) (rq_h n) (rq_value n) x.
Definition set_rq_value (v : value_set) (n : rreq) : rreq := RReq (rq_key n) (rq_h n) v (rq_state n).
Definition with_find (f : hash_cmp_t) (h : hash_params) : hash_params := HParams (hp_hash h) (hp_cnt h) f (hp_lpa h).
(** [h_params->find = HASH_KEY_DIFF; h_params->cnt++;] *)
Definition next_probe (h : hash_params) : hash_params := HParams (hp_hash h) (hp_cnt h + 1) HASH_KEY_DIFF (hp_lpa h).

(** ** Completions of data reads *)

(** The page of grain [pga]: the device reads it into a buffer. *)
Definition read_grain_page (c : cache) (pga : Z) : res (value_set * cache) :=
  v ← inf_get_valueset true None FS_MALLOC_R PAGESIZE;
  '(v, l) ← low_read DATAR (G_IDX pga) PAGESIZE v (dp_li (pages c));
  Ok (v, with_pages (with_li l (pages c)) c).

(** [DATAR] of an entry of the write buffer: does the slot have its key? *)
Definition end_req_check s (e : loc) (v : value_set) (offset : Z) : res rw :=
  n ← deref (entries s !! e);
  check_key ← copy_key_from_value true v offset;
  if KEYCMP (be_key n) check_key =? 0 then
    let s := with_entry e (set_h (with_find HASH_KEY_SAME (be_h n)) n) s in
    c ← set_jump (r_c s) (Some (WEntry e)) GOTO_UPDATE;
    '(_, q) ← fifo_enqueue (WEntry e) (DemandCache.wb_retry_q c);
    Ok (with_c (with_retry q (assigned c) c) s)
  else
    let s := with_entry e (set_h (next_probe (be_h n)) n) s in
    '(_, q) ← fifo_enqueue (WEntry e) (wb_master_q s);
    Ok (with_master q s).

Definition read_for_data_check s (ppa : Z) (e : loc) : res rw :=
  '(v, c) ← read_grain_page (r_c s) ppa;
  end_req_check (with_c c s) e v (G_OFFSET ppa).

(** ** The mapping update of a flush *)

(** How a turn ends: the next entry is looked at ([continue], or the entry was
    entered), or the same one again ([goto wb_retry]). *)
Inductive turn := Continue (s : rw) (updated : Z) | Retry (s : rw).

(** [wb_direct_update] *)
Definition wb_direct_update s (n : bentry) (lpa : Z) : res turn :=
  c ← cg_update (r_c s) lpa (be_ppa n);
  t ← d_htable_insert (hash_table s) (be_ppa n) lpa;
  let cnt := hp_cnt (be_h n) in
  '(_, rc, wc) ← hash_collision_logging cnt WRITE (r_cnt s) (w_cnt s);
  p ← set_oob true (base (pages c)) lpa (be_ppa n) DATA;
  let c := with_pages (with_base p (pages c)) c in
  Ok (Continue (with_hash t (if cnt >? max_try s then cnt else max_try s) rc wc (with_c c s)) 1).

(** [wb_update] *)
Definition wb_update s (n : bentry) (lpa : Z) : res turn :=
  pte ← cg_get_pte (r_c s) lpa;
  c ← (if negb (IS_INITIAL_PPA pte) then '(_, p) ← invalidate_page (pages (r_c s)) pte DATA; Ok (with_pages p (r_c s)) else Ok (r_c s));
  wb_direct_update (with_c c s) n lpa.

(** [wb_data_check] *)
Definition wb_data_check s (e : loc) (n : bentry) (lpa : Z) : res turn :=
  pte ← cg_get_pte (r_c s) lpa;
  if IS_INITIAL_PPA pte then wb_direct_update s n lpa
  else
    rc ← d_htable_find (hash_table s) pte lpa;
    if negb (rc =? 0) then Ok (Retry (with_entry e (set_h (next_probe (be_h n)) n) s))
    else s ← read_for_data_check s pte e; Ok (Continue s 0).

(** [wb_cache_list_up] *)
Definition wb_cache_list_up s (e : loc) (n : bentry) (lpa : Z) : res turn :=
  '(rc, c) ← cg_list_up (r_c s) lpa (Some (WEntry e));
  c ← settle c;
  if negb (rc =? 0) then Ok (Continue (with_c c s) 0) else wb_data_check (with_c c s) e n lpa.

(** [wb_cache_load] *)
Definition wb_cache_load s (e : loc) (n : bentry) (lpa : Z) : res turn :=
  '(rc, c) ← cg_wait_if_flying (r_c s) lpa (Some (WEntry e));
  if negb (rc =? 0) then Ok (Continue (with_c c s) 0)
  else
    '(rc, c) ← cg_load c lpa (Some (WEntry e));
    c ← settle c;
    if negb (rc =? 0) then Ok (Continue (with_c c s) 0) else wb_cache_list_up (with_c c s) e n lpa.

(** From the label [wb_retry] on. *)
Definition wb_turn s (e : loc) : res turn :=
  n ← deref (entries s !! e);
  '(lpa, h) ← get_lpa (nr_valid_tentries (env (r_c s))) (be_h n);
  let n := set_h h n in
  let s := with_entry e n s in
  match jumps (r_c s) !! WEntry e with
  | Some jump =>
    let s := with_c (drop_jump (WEntry e) (r_c s)) s in
    match jump with
    | GOTO_LOAD => wb_cache_load s e n lpa
    | GOTO_LIST => wb_cache_list_up s e n lpa
    | GOTO_COMPLETE => wb_data_check s e n lpa
    | GOTO_UPDATE => wb_update s n lpa
    | _ => Err Aborted
    end
  | None =>
    '(hit, c) ← cg_is_hit (r_c s) lpa;
    let s := with_c c s in
    if hit : bool then c ← cg_touch (r_c s) lpa; wb_data_check (with_c c s) e n lpa
    else wb_cache_load s e n lpa
  end.

Fixpoint wb_turns (fuel : nat) s (e : loc) : res (rw * Z) :=
  match fuel with
  | O => Err OutOfFuel
  | S fuel =>
    t ← wb_turn s e;
    match t with Continue s u => Ok (s, u) | Retry s => wb_turns fuel s e end
  end.

(** [q_dequeue(wb_retry_q)], else [q_dequeue(wb_master_q)] *)
Definition next_entry s : res (option loc * rw) :=
  '(o, q) ← fifo_dequeue (DemandCache.wb_retry_q (r_c s));
  let s := with_c (with_retry q (assigned (r_c s)) (r_c s)) s in
  match o with
  | Some (WEntry e) => Ok (Some e, s)
  | Some (WReq _) => Err Undefined
  | None =>
    '(o, q) ← fifo_dequeue (wb_master_q s);
    let s := with_master q s in
    match o with Some (WEntry e) => Ok (Some e, s) | Some (WReq _) => Err Undefined | None => Ok (None, s) end
  end.

(** [while (updated < d_env.wb_flush_size)] *)
Fixpoint update_loop (fuel : nat) s (updated : Z) : res rw :=
  match fuel with
  | O => Err OutOfFuel
  | S fuel' =>
    if updated <? wb_flush_size s then
      '(o, s) ← next_entry s;
      match o with
      | None => update_loop fuel' s updated
      | Some e => '(s, u) ← wb_turns fuel s e; update_loop fuel' s (updated + u)
      end
    else Ok s
  end.

Fixpoint push_all (es : list loc) (q : Qw) : res Qw :=
  match es with [] => Ok q | e :: es => '(_, q) ← fifo_enqueue (WEntry e) q; push_all es q end.

Definition _do_wb_mapping_update (fuel : nat) s : res rw :=
  let es := take (Z.to_nat (wb_flush_size s)) (write_buffer s) in
  q ← push_all es (wb_master_q s);
  s ← update_loop fuel (with_master q s) 0;
  abort_if (fifo_size (wb_master_q s) + fifo_size (DemandCache.wb_retry_q (r_c s)) >? 0)
  (Ok (with_c (foldr (λ e, drop_jump (WEntry e)) (r_c s) es) s)).

(** ** Writes *)

Definition wb_is_full s : bool := Z.of_nat (length (write_buffer s)) =? wb_flush_size s.

(** The skip list by what it does to the entries in key order. *)
Definition wb_order s (k : str_key) (e : loc) : Z :=
  match entries s !! e with Some n => KEYCMP (be_key n) k | None => 1 end.
Definition skiplist_find s (k : str_key) : option loc := head (filter (λ e, wb_order s k e = 0) (write_buffer s)).
Definition wb_place s (k : str_key) (e : loc) : list loc :=
  filter (λ x, wb_order s k x < 0) (write_buffer s) ++ e :: filter (λ x, 0 < wb_order s k x) (write_buffer s).

(** [_do_wb_insert], with [skiplist_insert]: a value of the same key is replaced. *)
Definition _do_wb_insert s (k : str_key) (h : hash_params) (v : Skiplist.vset) : res (Z * rw) :=
  let v := Skiplist.in_pieces v in
  s ← match skiplist_find s k with
    | Some e =>
      n ← deref (entries s !! e);
      _ ← deref (w_value (be_w n));
      Ok (with_entry e (BEntry (be_key n) h (WEnt (Skiplist.vlength v) (Some (Skiplist.bytes v)) (be_ppa n))) s)
    | None =>
      let e := malloc (entries s) in
      Ok (with_buffer (<[e := BEntry k h (WEnt (Skiplist.vlength v) (Some (Skiplist.bytes v)) UINT_MAX)]> (entries s)) (wb_place s k e) s)
    end;
  Ok (if wb_is_full s then 1 else 0, s).

(** The entries with the addresses and values that [_do_wb_assign_ppa] left. *)
Definition place_entries (m : gmap loc wentry) (es : gmap loc bentry) : gmap loc bentry :=
  map_imap (λ e n, Some (set_w (default (be_w n) (m !! e)) n)) es.

Definition _do_wb_flush (fl : list flush_node) s : res rw :=
  l ← write_pages fl (dp_li (pages (r_c s)));
  let c := with_pages (with_li l (pages (r_c s))) (r_c s) in
  let s := with_hash (d_htable_init (wb_flush_size s * 2)) (max_try s) (r_cnt s) (w_cnt s) (with_c c s) in
  Ok (with_buffer (foldr delete (entries s) (write_buffer s)) [] s).

Definition __demand_write (fuel : nat) s (k : str_key) (h : hash_params) (v : Skiplist.vset) : res (Z * rw) :=
  s ← (if wb_is_full s then
      '(m, c, fl) ← _do_wb_assign_ppa (wb_flush_size s) (write_buffer s) (be_w <$> entries s) (r_c s);
      s ← _do_wb_mapping_update fuel (with_buffer (place_entries m (entries s)) (write_buffer s) (with_c c s));
      _do_wb_flush fl s
    else Ok s);
  _do_wb_insert s k h v.

(** ** Reads *)

Definition do_wb_check s (r : loc) : res (Z * rw) :=
  n ← deref (requests s !! r);
  match skiplist_find s (rq_key n) with
  | None => Ok (0, s)
  | Some e =>
    x ← deref (entries s !! e);
    v ← deref (w_value (be_w x));
    b ← copy_value (rq_value n) (VS v 0) (w_len (be_w x) * GRAINED_UNIT);
    Ok (1, with_request r (RReq (rq_key n) None b (rq_state n)) s)
  end.

(** [DATAR] of a request *)
Definition end_req_read s (r : loc) (v : value_set) (offset : Z) : res rw :=
  n ← deref (requests s !! r);
  h ← deref (rq_h n);
  check_key ← copy_key_from_value true v offset;
  if KEYCMP (rq_key n) check_key =? 0 then
    '(_, rc, wc) ← hash_collision_logging (hp_cnt h) READ (r_cnt s) (w_cnt s);
    Ok (with_hash (hash_table s) (max_try s) rc wc (with_request r (RReq (rq_key n) None v Ended) s))
  else
    let s := with_request r (RReq (rq_key n) (Some (next_probe h)) v (rq_state n)) s in
    Ok (with_c (with_retry (DemandCache.wb_retry_q (r_c s)) (assigned (r_c s) ++ [r]) (r_c s)) s).

Definition read_actual_dpage s (ppa : Z) (r : loc) : res (Z * rw) :=
  if IS_INITIAL_PPA ppa then Ok (UINT32_MAX, s)
  else
    n ← deref (requests s !! r);
    '(v, l) ← low_read DATAR (G_IDX ppa) PAGESIZE (rq_value n) (dp_li (pages (r_c s)));
    s ← end_req_read (with_c (with_pages (with_li l (pages (r_c s))) (r_c s)) s) r v (G_OFFSET ppa);
    Ok (0, s).

(** [cache_check_complete] *)
Definition rd_complete s (r : loc) (lpa : Z) : res (Z * rw) :=
  let s := with_c (drop_jump (WReq r) (r_c s)) s in
  pte ← cg_get_pte (r_c s) lpa;
  read_actual_dpage s pte r.

(** [cache_list_up] *)
Definition rd_list_up s (r : loc) (lpa : Z) : res (Z * rw) :=
  '(rc, c) ← cg_list_up (r_c s) lpa (Some (WReq r));
  c ← settle c;
  if negb (rc =? 0) then Ok (rc, with_c c s) else rd_complete (with_c c s) r lpa.

(** [cache_load] *)
Definition rd_load s (r : loc) (lpa : Z) : res (Z * rw) :=
  '(rc, c) ← cg_wait_if_flying (r_c s) lpa (Some (WReq r));
  if negb (rc =? 0) then Ok (rc, with_c c s)
  else
    '(rc, c) ← cg_load c lpa (Some (WReq r));
    c ← settle c;
    Ok ((if rc =? 0 then UINT32_MAX else rc), with_c c s).

Definition __demand_read s (r : loc) : res (Z * rw) :=
  n ← deref (requests s !! r);
  h ← deref (rq_h n);
  '(lpa, h) ← get_lpa (nr_valid_tentries (env (r_c s))) h;
  let s := with_request r (set_rq_h h n) s in
  if hp_cnt h >? max_try s then Ok (UINT32_MAX, s)
  else
    match jumps (r_c s) !! WReq r with
    | Some jump =>
      let s := with_c (drop_jump (WReq r) (r_c s)) s in
      match jump with
      | GOTO_LOAD => rd_load s r lpa
      | GOTO_LIST | GOTO_EVICT => rd_list_up s r lpa
      | GOTO_COMPLETE => rd_complete s r lpa
      | GOTO_READ => read_actual_dpage s UINT32_MAX r
      | _ => Err Aborted
      end
    | None =>
      '(rc, s) ← do_wb_check s r;
      if negb (rc =? 0) then
        n ← deref (requests s !! r); Ok (rc, with_request r (set_rq_state Ended n) s)
      else
        '(hit, c) ← cg_is_hit (r_c s) lpa;
        let s := with_c c s in
        if hit : bool then c ← cg_touch (r_c s) lpa; rd_complete (with_c c s) r lpa
        else rd_load s r lpa
    end.

(** ** The interface (demand.c)

    [junk] is the uninitialised stack buffer of the hash context. *)

Definition demand_read (junk : list Z) s (r : loc) : res rw :=
  n ← deref (requests s !! r);
  s ← match rq_h n with
    | Some _ => Ok s
    | None => h ← make_hash_params junk (rq_key n); Ok (with_request r (set_rq_h h n) s)
    end;
  '(rc, s) ← __demand_read s r;
  if rc =? UINT32_MAX then n ← deref (requests s !! r); Ok (with_request r (set_rq_state NotFound n) s) else Ok s.

Definition demand_write (fuel : nat) (junk : list Z) s (k : str_key) (v : Skiplist.vset) : res (Z * rw) :=
  h ← make_hash_params junk k;
  __demand_write fuel s k h v.

(** The interface reads a request that was handed back ([insert_retry_read]) again. *)
Fixpoint serve_read (fuel : nat) (junk : list Z) s (r : loc) : res rw :=
  match fuel with
  | O => Err OutOfFuel
  | S fuel =>
    s ← demand_read junk s r;
    match assigned (r_c s) with
    | [] => Ok s
    | r' :: rs => serve_read fuel junk (with_c (with_retry (DemandCache.wb_retry_q (r_c s)) rs (r_c s)) s) r'
    end
  end.

(** [demand_create] with the coarse-grained cache: queues of [wb] entries, the cache
    and the page layer. *)
Definition demand_create (wb : Z) (b : pbm Q Mp) (l : L) : res rw :=
  p ← page_create b l (grain_create (_NOP * GRAIN_PER_PAGE));
  c ← cg_create true _NOP wb p;
  Ok (Rw c (fifo_init wb) (d_htable_init (wb * 2)) 0 (ca_new MAX_HASH_COLLISION 0) (ca_new MAX_HASH_COLLISION 0) wb ∅ ∅ []).

End ops.

End DemandRw.
