(* ===== verification/DemandStore.v ===== *)
(** * The hash-based store of the demand-paged FTL

    What [DemandRw] is for: in the hash-based build with variable-sized values a read
    finds the last value written for its key. The abstract state
    is the slot table (which key is in which slot of the mapping table) and the map
    of the keys; the proof goes through the mapping update of a flush, turn by turn,
    and the probes of a read, over the coarse-grained cache, the page layer and the
    device. *)
From stdpp Require Import functions.
From S2P Require Export Prelude Settings Queue MaxHeap BadBlock Lower PosixMemory BlockManager BlockInventory Partition DemandUtil DemandCache Skiplist DemandFlush DemandPage DemandRw.
Import BlockManager Inventory Partition DemandUtil DemandCache DemandFlush DemandPage DemandRw.

Local Open Scope Z_scope.

Module DemandStore.

(** ** The cache while requests complete at once *)

Section calm.
Context {P Qw : Type} `{!Pages P} `{!FIFO waiter Qw} `{!PagesOk P}.
Implicit Types (c : cache P Qw) (rs : list Z) (M : Z → Z) (used : gset Z) (fy : option Z) (ws : list waiter) (w : waiter).

(** No one waits for a page; only page [fy] is on its way; a translation page that
    was never written has no entry; the entries to retry are [ws]. *)
Record calm c rs M (n : Z) used fy ws : Prop := Calm {
  cm_rep : cg_rep c rs M n used;
  cm_q i : 0 <= i < nr_valid_tpages (env c) → ∃ cap, fifo_repr (retry_q (ca_at (cmt c) i)) cap [];
  cm_fly i : 0 <= i < nr_valid_tpages (env c) → is_flying (ca_at (cmt c) i) = bool_decide (fy = Some i);
  cm_blank lpa : lpa_ok c lpa → blank c (IDX lpa) → M lpa = UINT32_MAX;
  cm_dirty i : state (ca_at (cmt c) i) = DIRTY → i ∈ rs;
  cm_none : flying c = [];
  cm_w : ∃ cap, fifo_repr (wb_retry_q c) cap ws ∧ 1 <= cap;
}.

(** What an operation of [w] leaves alone. *)
Definition outside c c' : Prop := env c' = env c ∧ jumps c' = jumps c ∧ assigned c' = assigned c.

Lemma outside_trans c1 c2 c3 : outside c1 c2 → outside c2 c3 → outside c1 c3.
Proof. unfold outside. intros (? & ? & ?) (? & ? & ?). split_and!; congruence. Qed.

(** [w] was queued again, with jump [j]. *)
Definition again c c' w (j : jump_t) : Prop :=
  env c' = env c ∧ jumps c' = <[w := j]> (jumps c) ∧ assigned c' = assigned c ++ omap req_of [w].
Definition queued w : list waiter := if is_req w then [] else [w].

Lemma calm_frame c c' rs rs' M n n' used used' fy ws :
  calm c rs M n used fy ws → cg_rep c' rs' M n' used' → env c' = env c → cmt c' = cmt c → t_ppa c' = t_ppa c →
  flying c' = flying c → wb_retry_q c' = wb_retry_q c → (∀ i, i ∈ rs → i ∈ rs') → calm c' rs' M n' used' fy ws.
Proof.
  intros [] Hr Ee Ec Et Ef Ew Hrs. constructor; unfold lpa_ok, blank in *; rewrite ?Ee, ?Ec, ?Et, ?Ef, ?Ew; try done. auto.
Qed.

Lemma to_front_elem i j rs : j ∈ to_front i rs ↔ j ∈ rs.
Proof.
  unfold to_front. case_decide; [|done]. rewrite elem_of_cons, list_elem_of_filter. destruct (decide (j = i)); naive_solver.
Qed.

Lemma calm_hit c rs M n used fy ws lpa : calm c rs M n used fy ws → lpa_ok c lpa →
  ∃ c', cg_is_hit c lpa = Ok (bool_decide (IDX lpa ∈ rs), c') ∧ calm c' rs M n used fy ws ∧ outside c c'.
Proof.
  intros Hc Hl. destruct (cg_is_hit_Ok c rs M n used lpa (cm_rep _ _ _ _ _ _ _ Hc) Hl) as (c' & E & Hr & _).
  exists c'. split; [done|]. unfold cg_is_hit in E. res_inv. split; [|done]. by eapply calm_frame.
Qed.

Lemma calm_touch c rs M n used fy ws lpa : calm c rs M n used fy ws → lpa_ok c lpa →
  ∃ c', cg_touch c lpa = Ok c' ∧ calm c' (to_front (IDX lpa) rs) M n used fy ws ∧ outside c c'.
Proof.
  intros Hc Hl. destruct (cg_touch_rep c rs M n used lpa (cm_rep _ _ _ _ _ _ _ Hc) Hl) as (c' & E & Hr & _).
  exists c'. split; [done|]. unfold cg_touch in E. res_inv. split; [|done].
  eapply calm_frame; try done. intros i. by rewrite to_front_elem.
Qed.

Lemma calm_wait c rs M n used ws lpa w : calm c rs M n used None ws → lpa_ok c lpa →
  cg_wait_if_flying c lpa (Some w) = Ok (0, c).
Proof.
  intros Hc Hl. destruct (lpa_place c lpa Hl) as (Hi & _). unfold cg_wait_if_flying.
  rewrite (get_cmt_Ok c rs M n used _ (cm_rep _ _ _ _ _ _ _ Hc) Hi). rbind. by rewrite (cm_fly _ _ _ _ _ _ _ Hc _ Hi).
Qed.

(** The device answers [w]'s request. *)
Lemma settle_one c rs M n used ty w cap :
  cg_rep c rs M n used → flying c = [(ty, Some w)] → fifo_repr (wb_retry_q c) cap [] → 1 <= cap →
  ∃ c', settle c = Ok c' ∧ cg_rep c' rs M n used ∧ env c' = env c ∧ cmt c' = cmt c ∧ t_ppa c' = t_ppa c ∧ flying c' = [] ∧
    jumps c' = jumps c ∧ assigned c' = assigned c ++ omap req_of [w] ∧ fifo_repr (wb_retry_q c') cap (queued w).
Proof.
  intros Hr Ef Hq Hcap. unfold settle. rewrite Ef. destruct w as [r|e]; cbn [end_reqs end_req_map].
  - rbind. eexists. split; [done|]. split; [|by split_and!]. eapply rep_frame; [exact Hr|..]; try done. apply Hr.
  - destruct (fifo_enqueue_spec _ _ _ (WEntry e) Hq) as (q & E & Hq'); [simpl; lia|]. cbn [with_flying wb_retry_q].
    rewrite E. rbind. eexists. split; [done|]. cbn [with_flying with_retry env cmt t_ppa flying jumps assigned wb_retry_q].
    split; [|split_and!; try done; by rewrite app_nil_r]. destruct Hr. constructor; try done. by exists cap, [WEntry e].
Qed.

Lemma settle_none c : flying c = [] → settle c = Ok c.
Proof. intros Ef. unfold settle. rewrite Ef. cbn. by destruct c; cbn in *; subst. Qed.

Lemma calm_load c rs M n used lpa w : calm c rs M n used None [] → lpa_ok c lpa → IDX lpa ∉ rs →
  if decide (ca_at (t_ppa c) (IDX lpa) = UINT32_MAX) then cg_load c lpa (Some w) = Ok (0, c)
  else ∃ c1 c', cg_load c lpa (Some w) = Ok (1, c1) ∧ settle c1 = Ok c' ∧ calm c' rs M n used (Some (IDX lpa)) (queued w) ∧
    again c c' w GOTO_LIST.
Proof.
  intros Hc Hl Hn. pose proof (cm_rep _ _ _ _ _ _ _ Hc) as Hr. destruct (lpa_place c lpa Hl) as (Hi & _).
  destruct (cg_load_rep c rs M n used lpa w Hr Hl) as (c1 & E & Hr1 & Hq). case_decide as Et.
  { rewrite E, Et. change (UINT32_MAX =? UINT32_MAX) with true in *. cbn [negb] in *. f_equal. f_equal.
    unfold cg_load in E. rewrite Et in E. res_inv. apply ca_get_Ok in H0 as [_ H0]. rewrite Et in H0. subst.
    change (IS_INITIAL_PPA UINT32_MAX) with true in H1. by res_inv. }
  rewrite (proj2 (Z.eqb_neq _ _) Et) in E. exists c1.
  assert (Ed : flying c1 = [(MAPPINGR, Some w)] ∧ jumps c1 = <[w := GOTO_LIST]> (jumps c) ∧ assigned c1 = assigned c ∧
    t_ppa c1 = t_ppa c ∧ cmt c1 = ca_upd (cmt c) (IDX lpa) (set_flying true (ca_at (cmt c) (IDX lpa)))).
  { revert E. unfold cg_load. rewrite (get_cmt_Ok c rs M n used _ Hr Hi). rbind.
    rewrite ca_get_in by (rewrite (rep_ts _ _ _ _ _ Hr); done). rbind. unfold IS_INITIAL_PPA.
    rewrite (proj2 (Z.eqb_neq _ _) Et). cbn [set_jump]. rbind. intros E. apply res_bind_Ok in E as (c2 & E2 & E).
    unfold issue_read in E2. apply res_bind_Ok in E2 as (v & _ & E2). apply res_bind_Ok in E2 as (p & _ & E2). injection E2 as <-.
    rewrite upd_cmt_Ok in E by first [apply (rep_cmt _ _ _ _ _ Hr)|done]. injection E as <-.
    cbn. by rewrite (cm_none _ _ _ _ _ _ _ Hc). }
  destruct Ed as (Ef & Ej & Ea & Ets & Ecm). destruct (cm_w _ _ _ _ _ _ _ Hc) as (cap & Hw & Hcap). destruct Hq as (Ee & Eq & Ewq).
  destruct (settle_one c1 rs M n used MAPPINGR w cap Hr1 Ef) as (c' & Es & Hr' & Ee' & Ec' & Et' & Ef' & Ej' & Ea' & Hw');
    [by rewrite Ewq|done|].
  exists c'. split; [done|]. split; [done|]. split; [|split_and!; [congruence|congruence|by rewrite Ea', Ea]].
  constructor; try done; [..|by exists cap].
  - intros i. rewrite Ee', Ee, Ec', Eq. apply (cm_q _ _ _ _ _ _ _ Hc).
  - intros i. rewrite Ee', Ee, Ec', Ecm, ca_at_upd. intros Hi'. case_decide as E1.
    + subst i. by rewrite bool_decide_true.
    + rewrite (cm_fly _ _ _ _ _ _ _ Hc i Hi'). rewrite !bool_decide_false; [done|congruence|done].
  - intros l. unfold lpa_ok, blank. rewrite Ee', Ee, Et', Ets, Ec', Ecm, ca_at_upd. intros Hl' Hb. apply (cm_blank _ _ _ _ _ _ _ Hc l Hl').
    unfold blank. case_decide as E1; [|done]. by rewrite <-E1 in *.
  - intros i. rewrite Ec', Ecm, ca_at_upd. intros Hd. apply (cm_dirty _ _ _ _ _ _ _ Hc). by case_decide; subst.
Qed.

Lemma calm_list_up c rs M n used fy lpa w :
  calm c rs M n used fy [] → fy = None ∨ fy = Some (IDX lpa) → lpa_ok c lpa → IDX lpa ∉ rs → 0 < n →
  ∃ rc c1 c' n' used', cg_list_up c lpa (Some w) = Ok (rc, c1) ∧ settle c1 = Ok c' ∧ n - 1 <= n' ∧
    calm c' (listed (max_cached_tpages (env c)) (IDX lpa) rs) M n' used' None (if rc =? 0 then [] else queued w) ∧
    if rc =? 0 then outside c c' else again c c' w GOTO_COMPLETE.
Proof.
  intros Hc Hfy Hl Hn Hpos. pose proof (cm_rep _ _ _ _ _ _ _ Hc) as Hr. destruct (lpa_place c lpa Hl) as (Hi & _).
  destruct (cm_w _ _ _ _ _ _ _ Hc) as (cap & Hw & Hcap).
  destruct (cg_list_up_rep c rs M n used lpa w [] [] Hr Hl Hn Hpos) as
    (rc & c1 & E & Ee & (n' & used' & Hr1 & Hn') & Hfl & Hq & Hfo & Htd & Hdt & Hwq & Ef & Ej & Hrest).
  { split; [by apply (cm_q _ _ _ _ _ _ _ Hc)|]. exists cap. split; [done|]. simpl. lia. }
  { by apply Forall_nil. }
  assert (Hw1 : waiting c1 (IDX lpa) [] [] ∧ assigned c1 = assigned c).
  { destruct (is_flying (ca_at (cmt c) (IDX lpa))); [|done]. destruct Hrest as (H1 & _ & H2). split; [by destruct (is_req w)|].
    by rewrite H2, app_nil_r. }
  destruct Hw1 as [((cap1 & Hq1) & _) Ea]. clear Hrest. rewrite <-Hwq in Hw by done.
  assert (Hjj : jumps c1 = if rc =? 0 then jumps c else <[w := GOTO_COMPLETE]> (jumps c)).
  { apply map_eq. intros x. apply Ej. apply not_elem_of_nil. }
  assert (Hcalm : ∀ c' ws, cg_rep c' (listed (max_cached_tpages (env c)) (IDX lpa) rs) M n' used' → env c' = env c1 → cmt c' = cmt c1 →
    t_ppa c' = t_ppa c1 → flying c' = [] → (∃ cap, fifo_repr (wb_retry_q c') cap ws ∧ 1 <= cap) →
    calm c' (listed (max_cached_tpages (env c)) (IDX lpa) rs) M n' used' None ws).
  { intros c' ws Hr' Ee' Ec' Et' Ef' Hw'. constructor; try done.
    - intros i. rewrite Ee', Ee, Ec'. intros Hi'. destruct (decide (i = IDX lpa)) as [->|Hne]; [by eauto|].
      rewrite Hq by done. by apply (cm_q _ _ _ _ _ _ _ Hc).
    - intros i. rewrite Ee', Ee, Ec'. intros Hi'. rewrite bool_decide_false by done.
      destruct (decide (i = IDX lpa)) as [->|Hne]; [done|]. rewrite Hfo, (cm_fly _ _ _ _ _ _ _ Hc) by done.
      apply bool_decide_false. destruct Hfy; congruence.
    - intros l Hl' Hb. apply (cm_blank _ _ _ _ _ _ _ Hc l).
      + unfold lpa_ok in *. by rewrite <-Ee, <-Ee'.
      + apply (Htd (IDX l)). unfold blank in *. by rewrite <-Et', <-Ec'.
    - intros i. rewrite Ec'. intros Hd. apply elem_of_cons. right. apply (Hdt i Hd), (cm_dirty _ _ _ _ _ _ _ Hc), (Htd i), Hd. }
  exists rc, c1. rewrite (cm_none _ _ _ _ _ _ _ Hc) in Ef. cbn [app] in Ef. destruct (rc =? 0).
  - exists c1, n', used'. split; [done|]. split; [by apply settle_none|]. split; [done|].
    split; [|done]. apply Hcalm; try done. by exists cap.
  - destruct (settle_one c1 _ M n' used' MAPPINGW w cap Hr1 Ef Hw Hcap) as (c' & Es & Hr' & Ee' & Ec' & Et' & Ef' & Ej' & Ea' & Hw').
    exists c', n', used'. split; [done|]. split; [done|]. split; [done|]. split; [apply Hcalm; try done; by exists cap|].
    split_and!; [congruence|congruence|by rewrite Ea', Ea].
Qed.

Lemma cg_update_effect c lpa x c' : cg_update c lpa x = Ok c' → pt (ca_at (cmt c) (IDX lpa)) = true →
  jumps c' = jumps c ∧ assigned c' = assigned c ∧ flying c' = flying c ∧ t_ppa c' = t_ppa c ∧
  state (ca_at (cmt c') (IDX lpa)) = DIRTY ∧
  ∀ i, is_flying (ca_at (cmt c') i) = is_flying (ca_at (cmt c) i) ∧ (i ≠ IDX lpa → state (ca_at (cmt c') i) = state (ca_at (cmt c) i)).
Proof.
  intros E Hpt. unfold cg_update, get_cmt in E. apply res_bind_Ok in E as (m & Em & E). apply ca_get_Ok in Em as [_ Em]. subst m.
  rewrite Hpt in E. apply res_bind_Ok in E as (c1 & E1 & E). unfold set_entry in E1.
  apply res_bind_Ok in E1 as (t1 & _ & E1). apply res_bind_Ok in E1 as (t2 & _ & E1). apply res_bind_Ok in E1 as (a & _ & E1). injection E1 as <-.
  apply res_bind_Ok in E as (t & Et & E). apply res_bind_Ok in E as (c2 & E2 & E).
  assert (∃ p, c2 = with_pages p (with_table a c)) as [p ->].
  { destruct (negb _ && _); res_inv; [by eexists|]. exists (pages c). by destruct c. }
  apply res_bind_Ok in E as (c3 & E3 & E). unfold upd_cmt in E3.
  apply res_bind_Ok in E3 as (m & Em & E3). apply res_bind_Ok in E3 as (b & Eb & E3). injection E3 as <-.
  apply ca_get_Ok in Em as [_ ->]. apply ca_set_Ok in Eb as [_ ->]. apply res_bind_Ok in E as (l & _ & E). injection E as <-.
  clear E2. cbn. rewrite ca_at_upd, decide_True by done. split_and!; try done. intros i. rewrite ca_at_upd. case_decide; subst; split; (done || (intros ?; congruence)).
Qed.

Lemma calm_update c rs M n used fy ws lpa x : calm c rs M n used fy ws → lpa_ok c lpa → IDX lpa ∈ rs →
  ∃ c', cg_update c lpa x = Ok c' ∧ calm c' (to_front (IDX lpa) rs) (<[lpa := x]> M) n used fy ws ∧ outside c c'.
Proof.
  intros Hc Hl Hin. pose proof (cm_rep _ _ _ _ _ _ _ Hc) as Hr. destruct (lpa_place c lpa Hl) as (Hi & _).
  destruct (cg_update_rep c rs M n used lpa x Hr Hl) as (c' & E & Hr' & Ee & Eq & Ew). exists c'. split; [done|].
  destruct (cg_update_effect c lpa x c' E) as (Ej & Ea & Ef & Et & Es & Hst).
  { rewrite (rep_pt _ _ _ _ _ Hr _ Hi). by apply bool_decide_eq_true. }
  split; [|done]. destruct Hc. constructor; try done; rewrite ?Ee, ?Ef, ?Ew; try done.
  - intros i Hi'. rewrite Eq. by apply cm_q0.
  - intros i Hi'. rewrite (proj1 (Hst i)). by apply cm_fly0.
  - intros l Hl' [Hb1 Hb2]. unfold lpa_ok in Hl'. rewrite Ee in Hl'. destruct (decide (IDX l = IDX lpa)) as [El|Nl].
    { rewrite El in Hb2. congruence. }
    rewrite fn_lookup_insert_ne by congruence. apply cm_blank0; [done|]. unfold blank. rewrite <-Et. split; [done|].
    by rewrite <-(proj2 (Hst (IDX l)) Nl).
  - intros i Hd. apply to_front_elem. destruct (decide (i = IDX lpa)) as [->|Ni]; [done|]. apply cm_dirty0.
    by rewrite <-(proj2 (Hst i) Ni).
Qed.

End calm.

(** ** The slot table *)

Section table.
Context (nr B : Z).
Implicit Types (T : gmap Z str_key) (K : gmap str_key (list Z)) (k : str_key) (Us : gset str_key).

(** The slot of probe [c] of key [k]. *)
Definition probe (h c : Z) : Z := u32 (PROBING_FUNC h c mod u32 (nr - 1) + 1).
Definition slot k (c : Z) : Z := probe (key_hash (key k)) c.

Lemma get_lpa_eq h : 2 <= nr < 2 ^ 31 →
  get_lpa nr h = Ok (probe (hp_hash h) (hp_cnt h), HParams (hp_hash h) (hp_cnt h) (hp_find h) (probe (hp_hash h) (hp_cnt h))) ∧
  1 <= probe (hp_hash h) (hp_cnt h) < nr.
Proof.
  intros Hnr. destruct (get_lpa_Ok nr h Hnr) as (lpa & E & Hr). pose proof E as E'. unfold get_lpa in E'.
  rewrite (u32_id (nr - 1)), (proj2 (Z.eqb_neq (nr - 1) 0)) in E' by lia. injection E' as E'.
  assert (Ep : probe (hp_hash h) (hp_cnt h) = lpa) by (unfold probe; by rewrite (u32_id (nr - 1)) by lia).
  rewrite Ep. split; [done|lia].
Qed.

Lemma get_slot h k : 2 <= nr < 2 ^ 31 → hp_hash h = key_hash (key k) →
  get_lpa nr h = Ok (slot k (hp_cnt h), HParams (hp_hash h) (hp_cnt h) (hp_find h) (slot k (hp_cnt h))) ∧ 1 <= slot k (hp_cnt h) < nr.
Proof. intros Hnr Hh. destruct (get_lpa_eq h Hnr) as [E1 E2]. unfold slot. rewrite <-Hh. done. Qed.

#[local] Opaque slot.

(** The first [c] probes of [k] are taken by other keys. *)
Definition others T k (c : Z) : Prop := ∀ c', 0 <= c' < c → ∃ k', T !! slot k c' = Some k' ∧ k' ≠ k.

(** [T] says which key has which slot; [K] are the keys and their values; no key
    needed more than [mt + 1] probes. *)
Record table T K (mt : Z) : Prop := Table {
  tb_T lpa k : T !! lpa = Some k → is_Some (K !! k) ∧ ∃ c, 0 <= c <= mt ∧ c < B ∧ slot k c = lpa ∧ others T k c;
  tb_K k : is_Some (K !! k) → ∃ lpa, T !! lpa = Some k;
  tb_inj lpa lpa' k : T !! lpa = Some k → T !! lpa' = Some k → lpa = lpa';
  tb_mt : 0 <= mt;
}.

Lemma table_empty mt : 0 <= mt → table ∅ ∅ mt.
Proof. constructor; [done| |done|done]. intros k [v Hv]. done. Qed.

Lemma others_insert T k c lpa k' : others T k c → T !! lpa = None → others (<[lpa := k']> T) k c.
Proof.
  intros Ho Hn c' Hc. destruct (Ho c' Hc) as (x & Hx & Hne). exists x. split; [|done]. rewrite lookup_insert_ne; [done|]. congruence.
Qed.

Lemma table_insert T K mt mt' k c v :
  table T K mt → T !! slot k c = None → K !! k = None → 0 <= c < B → c <= mt' → mt <= mt' → others T k c →
  table (<[slot k c := k]> T) (<[k := v]> K) mt'.
Proof.
  intros [HT HK Hinj Hpos] Hn Hk Hc Hmt Hmt' Ho.
  assert (Hnew : ∀ lpa, T !! lpa ≠ Some k) by (intros lpa H%HT; destruct H as [[w Hw] _]; congruence). constructor; [..|lia].
  - intros lpa x. destruct (decide (slot k c = lpa)) as [<-|Hne].
    + rewrite lookup_insert_eq. intros [= <-]. rewrite lookup_insert_eq. split; [done|]. exists c. split; [lia|]. split; [lia|].
      split; [done|]. by apply others_insert.
    + rewrite lookup_insert_ne by done. intros Hx. assert (k ≠ x) by (intros ->; by apply (Hnew lpa)).
      destruct (HT lpa x Hx) as (Hs & c' & H1 & H2 & H3 & H4). rewrite lookup_insert_ne by done. split; [done|].
      exists c'. split; [lia|]. split; [done|]. split; [done|]. by apply others_insert.
  - intros x. destruct (decide (k = x)) as [<-|Hne].
    + intros _. exists (slot k c). by rewrite lookup_insert_eq.
    + rewrite lookup_insert_ne by done. intros (lpa & Hl)%HK. exists lpa. rewrite lookup_insert_ne; [done|]. congruence.
  - intros l1 l2 x. destruct (decide (slot k c = l1)) as [<-|H1], (decide (slot k c = l2)) as [<-|H2]; [done|..].
    + rewrite lookup_insert_eq, lookup_insert_ne by done. intros [= <-] Hx. by apply Hnew in Hx.
    + rewrite lookup_insert_eq, lookup_insert_ne by done. intros Hx [= <-]. by apply Hnew in Hx.
    + rewrite !lookup_insert_ne by done. apply Hinj.
Qed.

Lemma table_replace T K mt mt' k lpa v : table T K mt → T !! lpa = Some k → mt <= mt' → table T (<[k := v]> K) mt'.
Proof.
  intros [HT HK Hinj Hpos] Hl Hmt. constructor; [|..|done|lia].
  - intros l x Hx. destruct (HT l x Hx) as (Hs & c' & H1 & H2). split.
    + rewrite lookup_insert. by case_decide.
    + exists c'. split; [lia|done].
  - intros x. rewrite lookup_insert. case_decide; [subst; by eauto|]. apply HK.
Qed.

(** A key that reaches a free slot is not in the table. *)
Lemma table_absent T K mt k c : table T K mt → others T k c → 0 <= c → T !! slot k c = None → K !! k = None.
Proof.
  intros [HT HK _ _] Ho Hc Hn. destruct (K !! k) eqn:E; [|done]. destruct (HK k) as (lpa & Hl); [by rewrite E|].
  destruct (HT lpa k Hl) as (_ & c' & H1 & _ & H2 & H3). destruct (Z.lt_trichotomy c c') as [Hlt|[->|Hlt]].
  - destruct (H3 c ltac:(lia)) as (k' & Hk' & _). congruence.
  - congruence.
  - destruct (Ho c' ltac:(lia)) as (k' & Hk' & Hne). congruence.
Qed.

(** Every key has as many slots among its first [B] probes as there are keys. *)
Definition room Us : Prop := ∀ k, k ∈ Us → (size Us <= size (list_to_set (slot k <$> seqZ 0 B) : gset Z))%nat.

Lemma probe_bound T K mt Us k c :
  table T K mt → dom K ⊆ Us → k ∈ Us → room Us → 0 <= B → others T k c → c < B.
Proof.
  intros [HT HK Hinj _] Hdom Hk Hroom HB Ho. apply Z.nle_gt. intros Hc. specialize (Hroom k Hk).
  set (S := list_to_set (slot k <$> seqZ 0 B) : gset Z) in *.
  assert (HS : ∀ lpa, lpa ∈ S → ∃ k', T !! lpa = Some k' ∧ k' ≠ k).
  { intros lpa. unfold S. rewrite elem_of_list_to_set, list_elem_of_fmap. intros (c' & -> & Hc'%elem_of_seqZ). apply Ho. lia. }
  set (f lpa := default k (T !! lpa)). set (ks := f <$> elements S).
  assert (Hnd : NoDup ks).
  { apply NoDup_fmap_2_strong; [|apply NoDup_elements]. intros l1 l2 H1%elem_of_elements H2%elem_of_elements.
    destruct (HS l1 H1) as (k1 & E1 & _), (HS l2 H2) as (k2 & E2 & _). unfold f. rewrite E1, E2. cbn. intros ->. by apply (Hinj l1 l2 k2). }
  assert (Hsub : (list_to_set ks : gset str_key) ⊆ Us ∖ {[k]}).
  { intros x. unfold ks. rewrite elem_of_list_to_set, list_elem_of_fmap. intros (lpa & -> & Hl%elem_of_elements).
    destruct (HS lpa Hl) as (k' & E & Hne). unfold f. rewrite E. cbn. apply elem_of_difference. split; [|by rewrite elem_of_singleton].
    apply Hdom, elem_of_dom. by apply (HT lpa). }
  apply subseteq_size in Hsub. rewrite size_list_to_set in Hsub by done. unfold ks in Hsub. rewrite length_fmap in Hsub.
  rewrite size_difference in Hsub by (by apply singleton_subseteq_l). rewrite size_singleton in Hsub.
  assert (size Us ≠ 0)%nat by (apply size_non_empty_iff; intros E; unfold_leibniz; set_solver).
  change (size S) with (length (elements S)) in Hroom. lia.
Qed.

End table.

(** ** Values on the device *)

(** A value with its key in front, in whole grains. *)
Definition vlen (v : list Z) : Z := Z.of_nat (length v) / GRAINED_UNIT.
Record vgood (k : str_key) (v : list Z) : Prop := VGood {
  vg_key : key_wf k;
  vg_len : Z.of_nat (length v) = vlen v * GRAINED_UNIT;
  vg_range : 1 <= vlen v <= GRAIN_PER_PAGE;
  vg_head : copy_key_from_value true (VS v 0) 0 = Ok k;
}.

Section device.
Context `{Sg : Settings, !SettingsOk Sg}.

(** In the pages [D] the grains from [pga] on hold [v]. *)
Definition on (D : Z → option (list Z)) (pga : Z) (v : list Z) : Prop :=
  0 <= pga < _NOP * GRAIN_PER_PAGE ∧ G_OFFSET pga + vlen v <= GRAIN_PER_PAGE ∧
  ∃ page, D (G_IDX pga) = Some page ∧ length page = Z.to_nat PAGESIZE ∧ grains page (G_OFFSET pga) (vlen v) = v.

Lemma on_range D pga v : on D pga v → 0 <= G_IDX pga < _NOP ∧ 0 <= G_OFFSET pga < GRAIN_PER_PAGE ∧ pga ≠ UINT32_MAX ∧ IS_INITIAL_PPA pga = false.
Proof.
  intros (Hp & _). pose proof NOP_range. unfold G_IDX, G_OFFSET, IS_INITIAL_PPA. change GRAIN_PER_PAGE with 16 in *. change UINT32_MAX with 4294967295.
  split; [Z.to_euclidean_division_equations; lia|]. split; [apply Z.mod_pos_bound; lia|]. split; [lia|]. apply Z.eqb_neq. lia.
Qed.

Lemma key_at (k : str_key) (v page : list Z) (off tag : Z) :
  vgood k v → 0 <= off → grains page off (vlen v) = v → copy_key_from_value true (VS page tag) off = Ok k.
Proof.
  intros [_ Hl Hr Hh] Ho Hg. unfold copy_key_from_value in *. cbn [value] in *. change (Z.to_nat (0 * GRAINED_UNIT)) with 0%nat in Hh.
  rewrite drop_0 in Hh. unfold grains in Hg. set (d := drop (Z.to_nat (off * GRAINED_UNIT)) page) in *.
  destruct v as [|n rest]; [done|]. destruct d as [|x d']; [by rewrite take_nil in Hg|].
  assert (Hpos : (Z.to_nat (vlen (n :: rest) * GRAINED_UNIT) = S (length rest))%nat) by (rewrite <-Hl, Nat2Z.id; done).
  rewrite Hpos in Hg. cbn [take] in Hg. injection Hg as -> Hg.
  destruct (Nat.leb_spec (Z.to_nat n) (length rest)) as [Hle|]; [|done]. injection Hh as Hh.
  assert (Hlen : (length rest <= length d')%nat) by (rewrite <-Hg, length_take; lia).
  rewrite (proj2 (Nat.leb_le _ _)) by lia. rewrite <-Hh. do 2 f_equal. rewrite <-Hg, take_take. f_equal. lia.
Qed.

End device.

Section layer.
Context `{Sg : Settings, !SettingsOk Sg} {Q Mp L Qw : Type} `{!FIFO Z Q} `{!IntMap loc Mp} `{!Lower L} `{!LowerOk L} `{!FIFO waiter Qw}.
#[local] Abbreviation cache := (cache (dpages Q Mp L) Qw).
Implicit Types (c : cache) (sp : dpages Q Mp L) (x : kept).

(** [calm] with what the layer keeps. *)
Definition rests x := @calm (dpages Q Mp L) Qw _ _ (dpages_t_ok x).

Lemma rests_pages x x' c sp rs M n n' used fy ws : rests x c rs M n used fy ws → t_inv x' sp n' used →
  rests x' (with_pages sp c) rs M n' used fy ws.
Proof. intros [[]] Ht. constructor; done. Qed.

Lemma rests_t x c rs M n used fy ws : rests x c rs M n used fy ws → t_inv x (pages c) n used.
Proof. intros [[]]. done. Qed.

Lemma rests_jumps x c j rs M n used fy ws : rests x c rs M n used fy ws → rests x (with_jumps j c) rs M n used fy ws.
Proof. intros [[]]. constructor; done. Qed.

Lemma rests_retry x c rs M n used fy w : rests x c rs M n used fy [] →
  ∃ q, fifo_enqueue w (wb_retry_q c) = Ok (true, q) ∧ ∀ a, rests x (with_retry q a c) rs M n used fy [w].
Proof.
  intros [[] ? ? ? ? ? (cap & Hq & Hcap)]. destruct (fifo_enqueue_spec _ _ _ w Hq) as (q & E & Hq'); [simpl; lia|]. exists q. split; [done|].
  intros a. constructor; try done; [|by exists cap]. constructor; try done. by exists cap, [w].
Qed.

Lemma rests_pop x c rs M n used fy w ws : rests x c rs M n used fy (w :: ws) →
  ∃ q, fifo_dequeue (wb_retry_q c) = Ok (Some w, q) ∧ rests x (with_retry q (assigned c) c) rs M n used fy ws.
Proof.
  intros [[] ? ? ? ? ? (cap & Hq & Hcap)]. destruct (fifo_dequeue_spec _ _ _ _ Hq) as (q & E & Hq'). exists q. split; [done|].
  constructor; try done; [|by exists cap]. constructor; try done. by exists cap, ws.
Qed.

(** Reading a page that is known. *)
Lemma read_known x sp n used ty q page v : t_inv x sp n used → 0 <= q < _NOP → k_dev x q = Some page →
  length (value v) = Z.to_nat PAGESIZE → dmatag v ≠ -1 →
  ∃ l', low_read ty q PAGESIZE v (dp_li sp) = Ok (VS page (dmatag v), l') ∧ t_inv x (with_li l' sp) n used.
Proof.
  intros (t & d & Hr & Hn & Hk & Ho) Hq Hd Hv Htag.
  destruct (low_read_ok (dp_li sp) ty q v page (po_wf _ _ _ Ho) Hq Hv Htag (po_dev _ _ _ Ho q page Hd)) as (l' & E & Hwf & Hl).
  exists l'. split; [done|]. exists t, d. split; [exact Hr|]. split; [done|]. split; [done|]. by apply pages_ok_li.
Qed.

Lemma read_grain_page_Ok x c rs M n used fy ws pga page : rests x c rs M n used fy ws → 0 <= G_IDX pga < _NOP → k_dev x (G_IDX pga) = Some page →
  ∃ tag c', read_grain_page c pga = Ok (VS page tag, c') ∧ rests x c' rs M n used fy ws ∧ outside c c'.
Proof.
  intros Hc Hq Hd. destruct (blank_page FS_MALLOC_R) as (v & Ev & Hv & Htag). unfold read_grain_page. rewrite Ev by (by left). rbind.
  destruct (read_known x (pages c) n used DATAR (G_IDX pga) page v (rests_t _ _ _ _ _ _ _ _ Hc) Hq Hd Hv Htag) as (l' & -> & Ht). rbind.
  eexists _, _. split; [done|]. split; [|done]. by eapply rests_pages.
Qed.

(** Naming the grain of an entry. *)
Lemma name_grain x sp n used lpa pga : t_inv x sp n used → 0 <= pga < _NOP * GRAIN_PER_PAGE → 0 <= lpa < 2 ^ 32 →
  ∃ p', set_oob true (base sp) lpa pga DATA = Ok p' ∧ t_inv x (with_base p' sp) n used.
Proof.
  intros (t & d & Hr & Hn & Hk & Ho) Hp Hl. pose proof Hr as ([Hbw _ _ _ Hb] & _).
  destruct (set_oob_grain_Ok (base sp) lpa pga Hbw Hp Hl) as (p' & E & Hbw' & Hb' & _).
  assert (Hdf : data_frame (base sp) p').
  { pose proof E as E'. unfold set_oob in E'. apply res_bind_Ok in E' as (o & _ & E'). apply res_bind_Ok in E' as (r & _ & E'). by apply set_oob_data in E'. }
  destruct (ready_data sp p' t d Hr Hdf Hbw') as [Hr' Hun'].
  { intros q Hq. pose proof Hq as [Hqr _]. rewrite Hb' by done. by apply Hb. }
  exists p'. split; [done|]. exists t, d. split; [done|]. split; [done|]. split; [done|]. by apply pages_ok_base.
Qed.

(** Forgetting a grain. *)
Definition forget (pga : Z) x : kept := Kept (ca_upd (k_bits x) pga false) (k_dev x) (k_new x) (k_left x).

Lemma forget_grain x sp n used pga : t_inv x sp n used → 0 <= pga < _NOP * GRAIN_PER_PAGE →
  ca_len (k_bits x) = _NOP * GRAIN_PER_PAGE → ca_at (k_bits x) pga = true →
  ∃ r sp', invalidate_page sp pga DATA = Ok (r, sp') ∧ t_inv (forget pga x) sp' n used.
Proof.
  intros (t & d & Hr & Hn & Hk & Ho) Hp Hlen Hbit. pose proof Hr as ([Hbw _ _ _ Hb] & _).
  assert (Hpr : 0 <= G_IDX pga < _NOP) by (unfold G_IDX; change GRAIN_PER_PAGE with 16 in *; Z.to_euclidean_division_equations; lia).
  unfold invalidate_page, invalidate_grain. rewrite (po_bits _ _ _ Ho). rewrite ca_get_in by lia. rbind. rewrite ca_set_in by lia. rbind.
  rewrite Hbit. cbn [negb Z.eqb abort_if]. rbind. unfold base. cbn [with_bits dp_bm]. fold (base sp).
  destruct (unpopulate_Ok (base sp) (G_IDX pga) Hbw Hpr) as (p' & E & Hbw' & Hb' & _).
  destruct (ready_data sp p' t d Hr (unpopulate_data _ _ _ _ E) Hbw') as [Hr' Hun'].
  { intros q Hq. pose proof Hq as [Hqr _]. rewrite Hb' by done. case_decide; [done|]. by apply Hb. }
  rewrite E. rbind. eexists _, _. split; [done|]. exists t, d. split; [exact Hr'|]. split; [done|]. split; [done|].
  apply (pages_ok_base _ (with_bits (ca_upd (k_bits x) pga false) sp)); [|done]. destruct Ho. by constructor.
Qed.

End layer.

(** ** The mapping update of a flush *)

(** The slots of [U] were filled in this flush, with the pages [M] says. *)
Definition ht_rep (ht : d_htable) (M : Z → Z) (U : gset Z) : Prop :=
  ∃ l, 0 < ht_max ht ∧ ca_len (bucket ht) = ht_max ht ∧ (∀ b, ca_at (bucket ht) b = ht_chain (ht_max ht) l b) ∧
    (∀ lpa, lpa ∈ U → (M lpa, lpa) ∈ l) ∧ ∀ x, x ∈ l → x.2 ∈ U.

Lemma ht_find_Ok ht M U lpa : ht_rep ht M U → d_htable_find ht (M lpa) lpa = Ok (if decide (lpa ∈ U) then 1 else 0).
Proof.
  intros (l & Hm & Hlen & Hb & Hin & Hout). unfold d_htable_find. rewrite (proj2 (Z.eqb_neq _ 0)) by lia.
  pose proof (Z.mod_pos_bound (M lpa) (ht_max ht) Hm). rewrite ca_get_in by lia. rbind. f_equal. rewrite Hb. destruct (chain_find _ lpa) eqn:Ec.
  - apply chain_find_spec in Ec. unfold ht_chain in Ec. apply list_elem_of_fmap in Ec as (x & -> & [_ Hx]%list_elem_of_filter).
    by rewrite decide_True by (by apply Hout).
  - rewrite decide_False; [done|]. intros Hu%Hin. assert (Ht : chain_find (ht_chain (ht_max ht) l (M lpa `mod` ht_max ht)) lpa = true); [|congruence].
    apply chain_find_spec, list_elem_of_fmap. exists (M lpa, lpa). split; [done|]. by apply list_elem_of_filter.
Qed.

Lemma ht_insert_Ok ht M U ppa lpa : ht_rep ht M U → lpa ∉ U →
  ∃ ht', d_htable_insert ht ppa lpa = Ok ht' ∧ ht_rep ht' (<[lpa := ppa]> M) ({[lpa]} ∪ U).
Proof.
  intros (l & Hm & Hlen & Hb & Hin & Hout) Hn.
  destruct (ht_inserts_spec (ht_max ht) l [(ppa, lpa)] ht Hm eq_refl Hlen Hb) as (ht' & E & Hm' & Hlen' & Hb').
  cbn [ht_inserts] in E. apply res_bind_Ok in E as (h1 & E1 & E). injection E as ->. exists ht'. split; [done|].
  exists (l ++ [(ppa, lpa)]). rewrite Hm'. split_and!; try done.
  - intros lpa' [->%elem_of_singleton|Hu]%elem_of_union; apply elem_of_app.
    + right. rewrite fn_lookup_insert. by apply list_elem_of_singleton.
    + left. rewrite fn_lookup_insert_ne by (by intros ->). by apply Hin.
  - intros x [Hx|Hx%list_elem_of_singleton]%elem_of_app; apply elem_of_union; [right; by apply Hout|left; subst; by apply elem_of_singleton].
Qed.

#[local] Opaque slot key_hash.

Section flush.
Context `{Sg : Settings, !SettingsOk Sg} {Q Mp L Qw : Type} `{!FIFO Z Q} `{!IntMap loc Mp} `{!Lower L} `{!LowerOk L} `{!FIFO waiter Qw}.
#[local] Abbreviation cache := (cache (dpages Q Mp L) Qw).
#[local] Abbreviation rw := (@rw Q Mp L Qw).
Implicit Types (c : cache) (s : rw) (e : loc) (T : gmap Z str_key) (K : gmap str_key (list Z)) (U : gset Z) (bits : grain_bitmap).

(** Slots, probes per key and all keys; the device at the start, the pages of the
    flush, and the device after it; the translation pages to leave; the entries with their keys, values and places;
    the keys before; the requests. *)
Context (nr B : Z) (Us : gset str_key) (dev D : Z → option (list Z)) (new : gset Z) (left : Z)
  (slack : Z) (E : list loc) (ek : loc → str_key) (ev : loc → list Z) (eg : loc → Z) (K0 : gmap str_key (list Z)) (rqs : gmap loc rreq).
Hypothesis Hnr : 2 <= nr < 2 ^ 31.
Hypothesis HB : 1 <= B <= MAX_HASH_COLLISION.
Hypothesis Hroom : room nr B Us.
Hypothesis Hslack : 0 <= slack.
Hypothesis Hdev : ∀ q p, dev q = Some p → D q = Some p.
Hypothesis Hnew : ∀ q, q ∈ new → dev q = None.
Hypothesis HE : ∀ e, e ∈ E → vgood (ek e) (ev e) ∧ on D (eg e) (ev e) ∧ G_IDX (eg e) ∈ new ∧ ek e ∈ Us.
Hypothesis Hek : ∀ e e', e ∈ E → e' ∈ E → ek e = ek e' → e = e'.
Hypothesis Heg : ∀ e e', e ∈ E → e' ∈ E → eg e = eg e' → e = e'.

Definition cnt s e : Z := match entries s !! e with Some n => hp_cnt (be_h n) | None => 0 end.
(** The slot that entry [e] looks at. *)
Definition at_slot s e : Z := slot nr (ek e) (cnt s e).

(** A waiting entry: the slots it passed have other keys, and its own slot, if it
    has one, was not filled in this flush. *)
Record waits_for s bits U T e : Prop := WaitsFor {
  wf_entry : ∃ n, entries s !! e = Some n ∧ be_key n = ek e ∧ be_ppa n = eg e ∧ hp_hash (be_h n) = key_hash (key (ek e)) ∧ 0 <= hp_cnt (be_h n);
  wf_others : others nr T (ek e) (cnt s e);
  wf_bit : ca_at bits (eg e) = true;
  wf_old lpa : T !! lpa = Some (ek e) → lpa ∉ U;
}.

(** During the update: the entries of [pd] wait. *)
Record mid s bits rs (M : Z → Z) (n : Z) (used : gset Z) (fy : option Z) (ws : list waiter) U T K (pd : list loc) : Prop := Mid {
  md_rests : rests (Kept bits dev new left) (r_c s) rs M n used fy ws;
  md_env : nr_valid_tentries (env (r_c s)) = nr ∧ nr_valid_tpages (env (r_c s)) * EPP = nr;
  md_tab : table nr B T K (max_try s);
  md_dom : dom K ⊆ Us;
  md_M lpa : 0 <= lpa < nr → M lpa = UINT32_MAX ↔ T !! lpa = None;
  md_on lpa k : T !! lpa = Some k → 0 <= lpa < nr ∧ ca_at bits (M lpa) = true ∧ ∃ v, K !! k = Some v ∧ vgood k v ∧ on D (M lpa) v;
  md_in lpa : lpa ∈ U → is_Some (T !! lpa);
  md_U lpa k : T !! lpa = Some k → if decide (lpa ∈ U) then (∃ e, e ∈ E ∧ (e ∉ pd) ∧ M lpa = eg e) else is_Some (dev (G_IDX (M lpa)));
  md_inj lpa lpa' k k' : T !! lpa = Some k → T !! lpa' = Some k' → M lpa = M lpa' → lpa = lpa';
  md_ht : ht_rep (hash_table s) M U;
  md_bits : ca_len bits = _NOP * GRAIN_PER_PAGE;
  md_cnts : ca_len (r_cnt s) = MAX_HASH_COLLISION ∧ ca_len (w_cnt s) = MAX_HASH_COLLISION;
  md_pd : NoDup pd ∧ ∀ e, e ∈ pd → e ∈ E;
  md_wait e : e ∈ pd → waits_for s bits U T e;
  md_done e : e ∈ E → e ∉ pd → K !! ek e = Some (ev e);
  md_kept k : (∀ e, e ∈ E → e ∉ pd → ek e ≠ k) → K !! k = K0 !! k;
  md_entries e : is_Some (entries s !! e) → e ∈ E;
  md_frame : wb_flush_size s = Z.of_nat (length E) ∧ requests s = rqs ∧ write_buffer s = E ∧ assigned (r_c s) = [];
}.

(** The cache is replaced. *)
Lemma mid_c s bits bits' rs rs' M n n' used used' fy fy' ws ws' U T K pd c :
  mid s bits rs M n used fy ws U T K pd → rests (Kept bits dev new left) c rs' M n' used' fy' ws' →
  env c = env (r_c s) → assigned c = assigned (r_c s) → bits = bits' →
  mid (with_c c s) bits' rs' M n' used' fy' ws' U T K pd.
Proof.
  intros [] Hr Ee Ea <-. constructor; cbn [with_c r_c max_try hash_table r_cnt w_cnt]; rewrite ?Ee; try done.
  - intros e He. destruct (md_wait0 e He). by constructor.
  - destruct md_frame0 as (? & ? & ? & ?). split_and!; try done. by rewrite Ea.
Qed.

(** An entry goes on to another probe, or notes something. *)
Lemma mid_entry s bits rs M n used fy ws U T K pd e x x' :
  mid s bits rs M n used fy ws U T K pd → e ∈ pd → entries s !! e = Some x → be_key x' = be_key x → be_ppa x' = be_ppa x →
  hp_hash (be_h x') = hp_hash (be_h x) → 0 <= hp_cnt (be_h x') → others nr T (ek e) (hp_cnt (be_h x')) →
  mid (with_entry e x' s) bits rs M n used fy ws U T K pd.
Proof.
  intros [] He Hx Ek Ep Eh Hc Ho. constructor; try done; cbn [with_entry with_buffer entries].
  - intros e' He'. destruct (md_wait0 e' He') as [(y & Hy & H1 & H2 & H3 & H4) H5 H6 H7]. destruct (decide (e = e')) as [<-|Hne].
    + rewrite Hx in Hy. injection Hy as <-. constructor; [|..|done|done].
      * exists x'. cbn. rewrite lookup_insert_eq. split_and!; congruence.
      * unfold cnt. cbn. by rewrite lookup_insert_eq.
    + constructor; [|..|done|done].
      * exists y. cbn. by rewrite lookup_insert_ne.
      * unfold cnt in *. cbn. by rewrite lookup_insert_ne.
  - intros e' He'. destruct (decide (e = e')) as [<-|Hne]; [by apply md_pd0|]. apply md_entries0. by rewrite lookup_insert_ne in He'.
Qed.

Lemma mid_slot s bits rs M n used fy ws U T K pd e : mid s bits rs M n used fy ws U T K pd → e ∈ pd →
  0 <= cnt s e < B ∧ 0 <= at_slot s e < nr ∧ lpa_ok (r_c s) (at_slot s e).
Proof.
  intros Hm He. destruct (md_wait _ _ _ _ _ _ _ _ _ _ _ _ Hm e He) as [(x & Hx & _ & _ & Hh & Hc) Ho _ _].
  assert (Hcnt : cnt s e = hp_cnt (be_h x)) by (unfold cnt; by rewrite Hx).
  destruct (get_slot nr (be_h x) (ek e) Hnr Hh) as [_ Hr]. rewrite <-Hcnt in Hr.
  split; [|split].
  - split; [lia|]. destruct (HE e) as (_ & _ & _ & Hu); [by apply (md_pd _ _ _ _ _ _ _ _ _ _ _ _ Hm)|].
    eapply probe_bound; [apply (md_tab _ _ _ _ _ _ _ _ _ _ _ _ Hm)|apply (md_dom _ _ _ _ _ _ _ _ _ _ _ _ Hm)|exact Hu|exact Hroom|lia|exact Ho].
  - unfold at_slot. lia.
  - unfold lpa_ok. rewrite (proj2 (md_env _ _ _ _ _ _ _ _ _ _ _ _ Hm)). unfold at_slot. lia.
Qed.

(** The grain bitmap after the old value of a slot was forgotten. *)
Definition cleared bits T (M : Z → Z) (lpa : Z) : grain_bitmap :=
  match T !! lpa with Some _ => ca_upd bits (M lpa) false | None => bits end.

Lemma cleared_others s bits rs M n used fy ws U T K pd e :
  mid s bits rs M n used fy ws U T K pd → e ∈ pd →
  T !! at_slot s e = None ∨ T !! at_slot s e = Some (ek e) →
  let bits1 := cleared bits T M (at_slot s e) in
  ca_len bits1 = ca_len bits ∧ (∀ e', e' ∈ pd → ca_at bits1 (eg e') = true) ∧
  (∀ lpa k, T !! lpa = Some k → lpa ≠ at_slot s e → ca_at bits1 (M lpa) = true ∧ k ≠ ek e).
Proof.
  intros Hm He HT bits1. pose proof Hm as []. destruct (mid_slot _ _ _ _ _ _ _ _ _ _ _ _ _ Hm He) as (Hc & _). unfold bits1, cleared.
  destruct HT as [HT|HT]; rewrite HT.
  - split; [done|]. split; [intros e' He'; by destruct (md_wait0 e' He')|]. intros lpa k Hk Hne.
    destruct (md_on0 lpa k Hk) as (_ & Hb & v & Hv & _). split; [done|]. intros ->.
    rewrite (table_absent nr B T K (max_try s) (ek e) (cnt s e)) in Hv; [done|done| |lia|done]. by destruct (md_wait0 e He).
  - assert (HU : at_slot s e ∉ U) by (destruct (md_wait0 e He); by apply wf_old0).
    pose proof (md_U0 _ _ HT) as Hd. rewrite decide_False in Hd by done.
    assert (Hfar : ∀ g, G_IDX g ∈ new → g ≠ M (at_slot s e)) by (intros g Hg ->; rewrite (Hnew _ Hg) in Hd; by destruct Hd).
    split; [done|]. split.
    + intros e' He'. rewrite ca_at_upd, decide_False by (intros Eg; symmetry in Eg; revert Eg; apply Hfar, HE, md_pd0, He').
      by destruct (md_wait0 e' He').
    + intros lpa k Hk Hne. destruct (md_on0 lpa k Hk) as (_ & Hb & v & Hv & _). rewrite ca_at_upd. split.
      * rewrite decide_False; [done|]. intros Eg. apply Hne. symmetry. by apply (md_inj0 _ _ (ek e) k).
      * intros ->. apply Hne. by apply (tb_inj _ _ _ _ _ md_tab0 _ _ (ek e)).
Qed.

(** Entering an entry in its slot, whose old value is forgotten in [c]. *)
Lemma enter_mid s bits rs M n used U T K e mq s' :
  mid s bits rs M n used None [] U T K (e :: mq) → let lpa := at_slot s e in
  T !! lpa = None ∨ T !! lpa = Some (ek e) → let bits1 := cleared bits T M lpa in
  rests (Kept bits1 dev new left) (r_c s') (to_front (IDX lpa) rs) (<[lpa := eg e]> M) n used None [] →
  env (r_c s') = env (r_c s) → assigned (r_c s') = assigned (r_c s) → max_try s' = Z.max (cnt s e) (max_try s) →
  ht_rep (hash_table s') (<[lpa := eg e]> M) ({[lpa]} ∪ U) →
  ca_len (r_cnt s') = MAX_HASH_COLLISION ∧ ca_len (w_cnt s') = MAX_HASH_COLLISION → entries s' = entries s →
  wb_flush_size s' = wb_flush_size s → requests s' = requests s → write_buffer s' = write_buffer s →
  mid s' bits1 (to_front (IDX lpa) rs) (<[lpa := eg e]> M) n used None [] ({[lpa]} ∪ U) (<[lpa := ek e]> T) (<[ek e := ev e]> K) mq.
Proof.
  intros Hm lpa HT bits1 Hr Ee Ea Emt Hht Hcn Een Ewb Erq Ebuf.
  assert (He : e ∈ e :: mq) by (apply elem_of_cons; by left).
  destruct (cleared_others _ _ _ _ _ _ _ _ _ _ _ _ _ Hm He HT) as (Hlen & Hpend & Hother). fold lpa bits1 in Hlen, Hpend, Hother.
  destruct (mid_slot _ _ _ _ _ _ _ _ _ _ _ _ _ Hm He) as (Hc & Hlr & _). fold lpa in Hlr.
  destruct (md_wait _ _ _ _ _ _ _ _ _ _ _ _ Hm e He) as [_ Ho _ Hown].
  pose proof (md_pd _ _ _ _ _ _ _ _ _ _ _ _ Hm) as [Hnd HpE]. apply NoDup_cons in Hnd as [Hnin Hnd].
  destruct (HE e (HpE e He)) as (Hvg & Hon & Hgn & Hus). pose proof Hm as [].
  constructor; try done.
  - by rewrite Ee.
  - rewrite Emt. destruct HT as [HT|HT].
    + apply (table_insert nr B T K (max_try s)); try done; try lia. by apply (table_absent nr B T K (max_try s) (ek e) (cnt s e)); try done; lia.
    + rewrite insert_id by done. apply (table_replace nr B T K (max_try s) _ (ek e) lpa); try done. lia.
  - intros k. rewrite dom_insert_L. intros [->%elem_of_singleton|Hk]%elem_of_union; [done|by apply md_dom0].
  - intros l Hl. destruct (decide (lpa = l)) as [<-|Hne].
    + rewrite fn_lookup_insert, lookup_insert_eq. split; [|done]. intros Eg. by destruct (on_range D (eg e) (ev e) Hon) as (_ & _ & Hx & _).
    + rewrite fn_lookup_insert_ne, lookup_insert_ne by done. by apply md_M0.
  - intros l k. destruct (decide (lpa = l)) as [<-|Hne].
    + rewrite fn_lookup_insert, lookup_insert_eq. intros [= <-]. split; [done|]. split; [by apply Hpend|]. exists (ev e).
      by rewrite lookup_insert_eq.
    + rewrite fn_lookup_insert_ne, lookup_insert_ne by done. intros Hk. destruct (Hother l k Hk) as [Hb Hke]; [done|].
      destruct (md_on0 l k Hk) as (H1 & _ & v & H2 & H3). split; [done|]. split; [done|]. exists v. by rewrite lookup_insert_ne.
  - intros l [->%elem_of_singleton|Hl]%elem_of_union; [by rewrite lookup_insert_eq|]. rewrite lookup_insert. case_decide; [done|by apply md_in0].
  - intros l k. destruct (decide (lpa = l)) as [<-|Hne].
    + rewrite fn_lookup_insert. intros _. rewrite decide_True by (apply elem_of_union; left; by apply elem_of_singleton). exists e. by split; [apply HpE|].
    + rewrite fn_lookup_insert_ne, lookup_insert_ne by done. intros Hk%md_U0. destruct (decide (l ∈ U)) as [Hu|Hu].
      * rewrite decide_True by (apply elem_of_union; by right). destruct Hk as (x & H1 & H2 & H3). exists x. split; [done|]. split; [|done].
        by apply not_elem_of_cons in H2 as [_ ?].
      * rewrite decide_False; [done|]. intros [Hx%elem_of_singleton|Hx]%elem_of_union; congruence.
  - assert (Hdiff : ∀ l k, T !! l = Some k → M l ≠ eg e).
    { intros l k Hk Eg. pose proof (md_U0 l k Hk) as Hx. destruct (decide (l ∈ U)).
      - destruct Hx as (x & H1 & H2 & H3). apply H2. rewrite (Heg x e); [done|done|by apply HpE|congruence].
      - rewrite Eg, (Hnew _ Hgn) in Hx. by destruct Hx. }
    intros l l' k k'. destruct (decide (lpa = l)) as [<-|H1], (decide (lpa = l')) as [<-|H2]; [done|..].
    + rewrite fn_lookup_insert, fn_lookup_insert_ne, (lookup_insert_ne T lpa l') by done. intros _ Hk' Eg. symmetry in Eg. by destruct (Hdiff l' k' Hk').
    + rewrite fn_lookup_insert, fn_lookup_insert_ne, (lookup_insert_ne T lpa l) by done. intros Hk _ Eg. by destruct (Hdiff l k Hk).
    + rewrite !fn_lookup_insert_ne, !lookup_insert_ne by done. apply md_inj0.
  - congruence.
  - split; [done|]. intros x Hx. apply HpE. apply elem_of_cons. by right.
  - intros x Hx. assert (Hxp : x ∈ e :: mq) by (apply elem_of_cons; by right).
    destruct (md_wait0 x Hxp) as [H1 H2 H3 H4]. assert (Hxe : ek e ≠ ek x).
    { intros Ek. apply Hnin. rewrite (Hek e x (HpE e He) (HpE x Hxp) Ek). done. }
    constructor; [by rewrite Een| |by apply Hpend|].
    + replace (cnt s' x) with (cnt s x) by (unfold cnt; by rewrite Een). destruct HT as [HT|HT]; [by apply others_insert|by rewrite insert_id].
    + intros l. destruct (decide (lpa = l)) as [<-|Hne]; [rewrite lookup_insert_eq; by intros [= ?]|]. rewrite lookup_insert_ne by done.
      intros Hl%H4 [Hx1%elem_of_singleton|Hx1]%elem_of_union; congruence.
  - intros x Hx Hxn. destruct (decide (x = e)) as [->|Hne]; [by rewrite lookup_insert_eq|].
    rewrite lookup_insert_ne by (intros Ek; apply Hne; symmetry; by apply Hek; [apply HpE| |]). apply md_done0; [done|]. by apply not_elem_of_cons.
  - intros k Hk. rewrite lookup_insert_ne by (apply Hk; [by apply HpE|done]). apply md_kept0. intros x Hx Hxn. apply Hk; [done|].
    by apply not_elem_of_cons in Hxn as [_ ?].
  - by rewrite Een.
  - destruct md_frame0 as (? & ? & ? & ?). split_and!; congruence.
Qed.

Lemma log_write_Ok (c : Z) (r w : carray Z) : 0 <= c < MAX_HASH_COLLISION → ca_len r = MAX_HASH_COLLISION ∧ ca_len w = MAX_HASH_COLLISION →
  ∃ w', hash_collision_logging c WRITE r w = Ok (0, r, w') ∧ ca_len w' = MAX_HASH_COLLISION.
Proof.
  intros Hc [Hr Hw]. unfold hash_collision_logging. rewrite Z.gtb_ltb, (proj2 (Z.ltb_ge MAX_HASH_COLLISION c)) by lia.
  rewrite ca_get_in by lia. rbind. rewrite ca_set_in by lia. rbind. by eexists.
Qed.

Lemma direct_update_Ok s c bits rs M n used U T K e mq x :
  mid s bits rs M n used None [] U T K (e :: mq) → let lpa := at_slot s e in
  T !! lpa = None ∨ T !! lpa = Some (ek e) → IDX lpa ∈ rs → entries s !! e = Some x →
  rests (Kept (cleared bits T M lpa) dev new left) c rs M n used None [] → outside (r_c s) c →
  ∃ s' M' U' T' K', wb_direct_update (with_c c s) x lpa = Ok (Continue s' 1) ∧
    mid s' (cleared bits T M lpa) (to_front (IDX lpa) rs) M' n used None [] U' T' K' mq ∧
    jumps (r_c s') = jumps (r_c s) ∧ wb_master_q s' = wb_master_q s ∧ entries s' = entries s.
Proof.
  intros Hm lpa HT Hin Hx Hr (Ee & Ej & Ea). assert (He : e ∈ e :: mq) by (apply elem_of_cons; by left).
  destruct (mid_slot _ _ _ _ _ _ _ _ _ _ _ _ _ Hm He) as (Hc & Hlr & Hl). fold lpa in Hlr, Hl.
  destruct (md_wait _ _ _ _ _ _ _ _ _ _ _ _ Hm e He) as [(y & Hy & Hky & Hpy & _) _ _ Hown]. rewrite Hx in Hy. injection Hy as <-.
  destruct (HE e) as (Hvg & Hon & _); [by apply (md_pd _ _ _ _ _ _ _ _ _ _ _ _ Hm)|].
  assert (HU : lpa ∉ U). { destruct HT as [HT|HT]; [|by apply Hown]. intros Hu. destruct (md_in _ _ _ _ _ _ _ _ _ _ _ _ Hm lpa Hu). congruence. }
  assert (Ecnt : hp_cnt (be_h x) = cnt s e) by (unfold cnt; by rewrite Hx).
  unfold wb_direct_update. cbn [with_c r_c hash_table r_cnt w_cnt max_try]. rewrite Hpy.
  destruct (calm_update c rs M n used None [] lpa (eg e) Hr) as (c2 & -> & Hr2 & (Ee2 & Ej2 & Ea2)); [unfold lpa_ok in *; by rewrite Ee|done|]. rbind.
  destruct (ht_insert_Ok (hash_table s) M U (eg e) lpa (md_ht _ _ _ _ _ _ _ _ _ _ _ _ Hm) HU) as (t & -> & Ht). rbind.
  rewrite Ecnt. destruct (log_write_Ok (cnt s e) (r_cnt s) (w_cnt s)) as (w' & -> & Hw'); [lia|by apply (md_cnts _ _ _ _ _ _ _ _ _ _ _ _ Hm)|]. rbind.
  destruct (name_grain _ _ n used lpa (eg e) (rests_t (Kept (cleared bits T M lpa) dev new left) _ _ _ _ _ _ _ Hr2)) as (p' & -> & Ht'); [apply Hon|lia|]. rbind.
  pose proof (rests_pages (Kept (cleared bits T M lpa) dev new left) _ _ _ _ _ _ _ _ _ _ Hr2 Ht') as Hr3.
  eexists _, _, _, _, _. split; [done|]. split; [|split; [cbn; congruence|done]].
  eapply enter_mid; [exact Hm|exact HT|exact Hr3|..]; cbn; try done; try congruence.
  - rewrite Z.gtb_ltb. destruct (Z.ltb_spec (max_try s) (cnt s e)); lia.
  - split; [by apply (md_cnts _ _ _ _ _ _ _ _ _ _ _ _ Hm)|done].
Qed.

(** *** Turns *)

(** The work that is left: probes of the waiting entries. *)
Definition need s (pd : list loc) : nat := list_sum ((λ e, Z.to_nat (B - cnt s e)) <$> pd).

Lemma need_ext s s' pd : (∀ e, e ∈ pd → cnt s' e = cnt s e) → need s' pd = need s pd.
Proof.
  intros H. unfold need. f_equal. apply list_fmap_ext. intros i e He. f_equal. f_equal. apply H. by eapply list_elem_of_lookup_2.
Qed.

Lemma need_perm s pd pd' : pd ≡ₚ pd' → need s pd = need s pd'.
Proof. unfold need. induction 1; csimpl; lia. Qed.

Lemma need_cons s e pd : need s (e :: pd) = (Z.to_nat (B - cnt s e) + need s pd)%nat.
Proof. done. Qed.

(** Where an entry is: before its page was asked for, waiting for it, after it was
    listed, after its own key was found. *)
Inductive phase := Start | Listing | Listed | Found.
Definition rank (ph : phase) : nat := match ph with Start => 3 | Listing => 2 | Listed => 1 | Found => 0 end.
Definition jump_of (e : loc) (ph : phase) : gmap waiter jump_t :=
  match ph with Start => ∅ | Listing => {[WEntry e := GOTO_LIST]} | Listed => {[WEntry e := GOTO_COMPLETE]} | Found => {[WEntry e := GOTO_UPDATE]} end.
Definition master s (mq : list loc) : Prop := ∃ cap, fifo_repr (wb_master_q s) cap (WEntry <$> mq) ∧ Z.of_nat (length E) <= cap.

Definition working (f : nat) s e (ws : list waiter) (mq : list loc) : Prop := ∃ ph bits rs M n used U T K,
  mid s bits rs M n used (match ph with Listing => Some (IDX (at_slot s e)) | _ => None end) ws U T K (e :: mq) ∧
  jumps (r_c s) = jump_of e ph ∧ master s mq ∧
  match ph with
  | Start => True
  | Listing => IDX (at_slot s e) ∉ rs
  | Listed => IDX (at_slot s e) ∈ rs
  | Found => IDX (at_slot s e) ∈ rs ∧ T !! at_slot s e = Some (ek e)
  end ∧
  slack + Z.of_nat (need s (e :: mq)) <= n + (match ph with Start | Listing => 0 | _ => 1 end) ∧
  f = (4 * need s (e :: mq) + rank ph)%nat.

Definition resting (f : nat) s (pd : list loc) : Prop := ∃ bits rs M n used U T K,
  mid s bits rs M n used None [] U T K pd ∧ jumps (r_c s) = ∅ ∧ master s pd ∧ slack + Z.of_nat (need s pd) <= n ∧ f = (4 * need s pd + 3)%nat.

(** What a turn of [e] may end with, with less work than [f] left. *)
Definition turn_ok (f : nat) e (mq : list loc) (t : turn) : Prop :=
  match t with
  | Retry s' => ∃ f', (f' < f)%nat ∧ working f' s' e [] mq
  | Continue s' u =>
    (u = 0 ∧ ∃ f', (f' < f)%nat ∧ (working f' s' e [WEntry e] mq ∨ resting f' s' (mq ++ [e]))) ∨
    (u = 1 ∧ ∃ f', (f' < f)%nat ∧ resting f' s' mq)
  end.

Lemma turn_mono f f' e mq t : turn_ok f e mq t → (f <= f')%nat → turn_ok f' e mq t.
Proof.
  destruct t as [s' u|s']; cbn.
  - intros [(-> & g & Hg & H)|(-> & g & Hg & H)] Hf; [left|right]; (split; [done|]); exists g; (split; [lia|done]).
  - intros (g & Hg & H) Hf. exists g. split; [lia|done].
Qed.

(** The entry was entered. *)
Lemma entered_ok s s' bits rs M n used U T K bits' rs' M' n' used' U' T' K' e mq :
  mid s bits rs M n used None [] U T K (e :: mq) → mid s' bits' rs' M' n' used' None [] U' T' K' mq →
  entries s' = entries s → jumps (r_c s') = ∅ → master s' mq → slack + Z.of_nat (need s (e :: mq)) <= n' + 1 →
  turn_ok (4 * need s (e :: mq)) e mq (Continue s' 1).
Proof.
  intros Hm Hm' Een Ej Hq Hn. right. split; [done|]. destruct (mid_slot _ _ _ _ _ _ _ _ _ _ _ _ _ Hm (list_elem_of_here _ _)) as (Hc & _).
  assert (En : need s' mq = need s mq) by (apply need_ext; intros x _; unfold cnt; by rewrite Een).
  rewrite need_cons in *. exists (4 * need s' mq + 3)%nat. split; [lia|]. exists bits', rs', M', n', used', U', T', K'.
  split_and!; try done. lia.
Qed.

(** The next probe of an entry: its slot has another key. *)
Lemma next_mid s bits rs M n used fy ws U T K e mq x k :
  mid s bits rs M n used fy ws U T K (e :: mq) → entries s !! e = Some x → T !! at_slot s e = Some k → k ≠ ek e →
  let s' := with_entry e (set_h (next_probe (be_h x)) x) s in
  mid s' bits rs M n used fy ws U T K (e :: mq) ∧ S (need s' (e :: mq)) = need s (e :: mq) ∧ cnt s' e = cnt s e + 1.
Proof.
  intros Hm Hx HT Hk s'. assert (He : e ∈ e :: mq) by apply list_elem_of_here.
  destruct (mid_slot _ _ _ _ _ _ _ _ _ _ _ _ _ Hm He) as (Hc & _).
  destruct (md_wait _ _ _ _ _ _ _ _ _ _ _ _ Hm e He) as [(y & Hy & Hky & Hpy & _ & H0) Ho _ _]. rewrite Hx in Hy. injection Hy as <-.
  assert (Ec : cnt s e = hp_cnt (be_h x)) by (unfold cnt; by rewrite Hx).
  assert (Ec' : cnt s' e = cnt s e + 1) by (unfold cnt at 1; cbn; rewrite lookup_insert_eq; cbn; by rewrite Ec).
  split; [|split; [|done]].
  - apply (mid_entry s _ _ _ _ _ _ _ _ _ _ _ e x); try done; cbn [set_h next_probe be_h hp_cnt]; [lia|].
    intros c' Hc'. destruct (decide (c' = cnt s e)) as [->|]; [by exists k|]. apply Ho. lia.
  - rewrite !need_cons, Ec'. rewrite (need_ext s s' mq); [lia|]. intros e' He'. unfold cnt. cbn. rewrite lookup_insert_ne; [done|].
    intros <-. destruct (md_pd _ _ _ _ _ _ _ _ _ _ _ _ Hm) as [Hnd _]. by apply NoDup_cons in Hnd as [? _].
Qed.

Lemma mid_move s bits rs M n used fy ws U T K pd pd' :
  mid s bits rs M n used fy ws U T K pd → pd ≡ₚ pd' → mid s bits rs M n used fy ws U T K pd'.
Proof.
  intros [] Hp. constructor; try done; try (setoid_rewrite <-Hp; done).
  intros lpa k Hk%md_U0. case_decide; [|done]. by setoid_rewrite <-Hp.
Qed.

Lemma mid_master s bits rs M n used fy ws U T K pd q :
  mid s bits rs M n used fy ws U T K pd → mid (with_master q s) bits rs M n used fy ws U T K pd.
Proof. intros []. constructor; try done. intros e He. destruct (md_wait0 e He). by constructor. Qed.

(** Setting the last result of an entry's comparison. *)
Lemma note_mid s bits rs M n used fy ws U T K e mq x h :
  mid s bits rs M n used fy ws U T K (e :: mq) → entries s !! e = Some x → hp_hash h = hp_hash (be_h x) → hp_cnt h = hp_cnt (be_h x) →
  let s' := with_entry e (set_h h x) s in
  mid s' bits rs M n used fy ws U T K (e :: mq) ∧ ∀ e', cnt s' e' = cnt s e'.
Proof.
  intros Hm Hx Hh Hc s'. assert (He : e ∈ e :: mq) by apply list_elem_of_here.
  destruct (md_wait _ _ _ _ _ _ _ _ _ _ _ _ Hm e He) as [(y & Hy & _ & _ & _ & H0) Ho _ _]. rewrite Hx in Hy. injection Hy as <-.
  unfold cnt in Ho. rewrite Hx in Ho. split.
  - apply (mid_entry s _ _ _ _ _ _ _ _ _ _ _ e x); try done; cbn [set_h be_h]; rewrite Hc; done.
  - intros e'. unfold cnt. cbn. destruct (decide (e = e')) as [<-|]; [by rewrite lookup_insert_eq, Hx|by rewrite lookup_insert_ne].
Qed.

Lemma cleared_none bits T M lpa : T !! lpa = None → cleared bits T M lpa = bits.
Proof. unfold cleared. by intros ->. Qed.

(** The state of an entry at work whose probe count is that of [s0]. *)
Lemma working_at s0 ph s e ws mq bits rs M n used U T K :
  (∀ e', cnt s e' = cnt s0 e') →
  mid s bits rs M n used (match ph with Listing => Some (IDX (at_slot s0 e)) | _ => None end) ws U T K (e :: mq) →
  jumps (r_c s) = jump_of e ph → master s mq →
  match ph with
  | Start => True
  | Listing => IDX (at_slot s0 e) ∉ rs
  | Listed => IDX (at_slot s0 e) ∈ rs
  | Found => IDX (at_slot s0 e) ∈ rs ∧ T !! at_slot s0 e = Some (ek e)
  end →
  slack + Z.of_nat (need s0 (e :: mq)) <= n + (match ph with Start | Listing => 0 | _ => 1 end) →
  working (4 * need s0 (e :: mq) + rank ph)%nat s e ws mq.
Proof.
  intros Hc Hm Hj Hq Hp Hn. assert (Es : at_slot s e = at_slot s0 e) by (unfold at_slot; by rewrite Hc).
  assert (En : need s (e :: mq) = need s0 (e :: mq)) by (apply need_ext; auto).
  exists ph, bits, rs, M, n, used, U, T, K. rewrite Es, En. done.
Qed.

(** The key of the slot is compared with the entry's. *)
Lemma end_req_check_ok s bits rs M n used U T K e mq x k v tag off page :
  mid s bits rs M n used None [] U T K (e :: mq) → IDX (at_slot s e) ∈ rs → entries s !! e = Some x →
  jumps (r_c s) = ∅ → master s mq → slack + Z.of_nat (need s (e :: mq)) <= n + 1 →
  T !! at_slot s e = Some k → vgood k v → 0 <= off → grains page off (vlen v) = v →
  ∃ s', end_req_check s e (VS page tag) off = Ok s' ∧ turn_ok (4 * need s (e :: mq) + 1) e mq (Continue s' 0).
Proof.
  intros Hm Hin Hx Hj Hq Hn HT Hvg Hoff Hg. assert (He : e ∈ e :: mq) by apply list_elem_of_here.
  pose proof (md_rests _ _ _ _ _ _ _ _ _ _ _ _ Hm) as Hr. pose proof (md_pd _ _ _ _ _ _ _ _ _ _ _ _ Hm) as [Hnd HpE].
  destruct (md_wait _ _ _ _ _ _ _ _ _ _ _ _ Hm e He) as [(y & Hy & Hky & _) _ _ _]. rewrite Hx in Hy. injection Hy as <-.
  unfold end_req_check. rewrite Hx. cbn [deref]. rbind. rewrite (key_at k v page off tag Hvg Hoff Hg). rbind. rewrite Hky.
  destruct (HE e) as (Hvge & _); [by apply HpE|].
  pose proof (cmp_eq (cmp:=KEYCMP) (ek e) k (vg_key _ _ Hvge) (vg_key _ _ Hvg)) as Hcmp.
  destruct (Z.eqb_spec (KEYCMP (ek e) k) 0) as [Hz|Hnz].
  - apply Hcmp in Hz. subst k. cbn [set_jump with_entry with_buffer r_c]. rbind. cbn [with_jumps DemandCache.wb_retry_q].
    destruct (rests_retry _ (r_c s) rs M n used None (WEntry e) Hr) as (q & -> & Hrq). rbind. eexists. split; [done|].
    destruct (note_mid s _ _ _ _ _ _ _ _ _ _ e mq x (with_find HASH_KEY_SAME (be_h x)) Hm Hx) as [Hme Hcn]; [done|done|].
    left. split; [done|]. exists (4 * need s (e :: mq) + rank Found)%nat. split; [cbn; lia|]. left.
    apply (working_at s Found _ _ _ _ bits rs M n used U T K); try done.
    + eapply (mid_c _ bits bits); [exact Hme|exact (rests_jumps _ _ _ _ _ _ _ _ _ (Hrq (assigned (r_c s))))|..]; done.
    + cbn. by rewrite Hj.
  - destruct (next_mid s _ _ _ _ _ _ _ _ _ _ e mq x k Hm Hx HT) as (Hm' & En & _); [intros ->; by apply Hnz, Hcmp|].
    destruct Hq as (cap & Hq & Hcap). cbn [with_entry with_buffer wb_master_q].
    destruct (fifo_enqueue_spec _ _ _ (WEntry e) Hq) as (q & -> & Hq').
    { assert (Hle : (length (e :: mq) <= length E)%nat) by (apply submseteq_length, NoDup_submseteq; done). rewrite length_fmap. simpl in Hle. lia. }
    rbind. eexists. split; [done|]. left. split; [done|]. eexists. split; [|right].
    2: { exists bits, rs, M, n, used, U, T, K. split; [|split; [done|split; [|split; [|reflexivity]]]].
         - eapply mid_move; [apply mid_master, Hm'|]. by rewrite <-Permutation_cons_append.
         - exists cap. rewrite fmap_app. done.
         - rewrite <-(need_perm _ (e :: mq)) by (by rewrite <-Permutation_cons_append). rewrite <-En in Hn. change (need (with_master q ?a) ?b) with (need a b). lia. }
    rewrite <-(need_perm _ (e :: mq)) by (by rewrite <-Permutation_cons_append). rewrite <-En. change (need (with_master q ?a) ?b) with (need a b). lia.
Qed.

Lemma data_check_ok s bits rs M n used U T K e mq x :
  mid s bits rs M n used None [] U T K (e :: mq) → IDX (at_slot s e) ∈ rs → entries s !! e = Some x →
  jumps (r_c s) = ∅ → master s mq → slack + Z.of_nat (need s (e :: mq)) <= n + 1 →
  ∃ t, wb_data_check s e x (at_slot s e) = Ok t ∧ turn_ok (4 * need s (e :: mq) + 1) e mq t.
Proof.
  intros Hm Hin Hx Hj Hq Hn. assert (He : e ∈ e :: mq) by apply list_elem_of_here.
  destruct (mid_slot _ _ _ _ _ _ _ _ _ _ _ _ _ Hm He) as (Hc & Hlr & Hl). set (lpa := at_slot s e) in *.
  destruct (md_wait _ _ _ _ _ _ _ _ _ _ _ _ Hm e He) as [_ Ho Hbit Hown].
  pose proof (md_rests _ _ _ _ _ _ _ _ _ _ _ _ Hm) as Hr.
  unfold wb_data_check. rewrite (cg_get_pte_Ok (r_c s) rs M n used lpa (cm_rep _ _ _ _ _ _ _ Hr) Hl). rbind.
  destruct (T !! lpa) as [k|] eqn:HT.
  2: { rewrite (proj2 (md_M _ _ _ _ _ _ _ _ _ _ _ _ Hm lpa Hlr) HT). change (IS_INITIAL_PPA UINT32_MAX) with true. cbv iota.
       destruct (direct_update_Ok s (r_c s) bits rs M n used U T K e mq x Hm (or_introl HT) Hin Hx) as (s' & M' & U' & T' & K' & E1 & Hm' & Ej' & Eq' & Een);
         [by rewrite cleared_none|done|]. replace (with_c (r_c s) s) with s in E1 by (by destruct s). fold lpa in E1. rewrite E1.
       eexists. split; [done|]. eapply turn_mono; [eapply entered_ok; [exact Hm|exact Hm'|done|congruence| |lia]|lia].
       unfold master. by rewrite Eq'. }
  destruct (md_on _ _ _ _ _ _ _ _ _ _ _ _ Hm lpa k HT) as (_ & Hb & v & Hv & Hvg & Hon).
  destruct (on_range D (M lpa) v Hon) as (Hpr & Hor & _ & Eini). rewrite Eini. rewrite (ht_find_Ok _ _ _ lpa (md_ht _ _ _ _ _ _ _ _ _ _ _ _ Hm)). rbind.
  pose proof (md_U _ _ _ _ _ _ _ _ _ _ _ _ Hm lpa k HT) as HU. destruct (decide (lpa ∈ U)) as [Hu|Hu].
  { change (negb (1 =? 0)) with true. cbv iota. eexists. split; [done|].
    destruct (next_mid s _ _ _ _ _ _ _ _ _ _ e mq x k Hm Hx HT) as (Hm' & En & _); [intros ->; by apply (Hown lpa)|].
    set (s1 := with_entry _ _ _) in *. exists (4 * need s1 (e :: mq) + rank Start)%nat. split; [cbn [rank]; lia|].
    apply (working_at s1 Start _ _ _ _ bits rs M n used U T K); try done. lia. }
  change (negb (0 =? 0)) with false. cbv iota. destruct HU as [page Hpage]. destruct Hon as (_ & Hfit & page' & HD & Hplen & Hg).
  rewrite (Hdev _ _ Hpage) in HD. injection HD as <-.
  unfold read_for_data_check. destruct (read_grain_page_Ok _ (r_c s) rs M n used None [] (M lpa) page Hr Hpr Hpage) as (tag & c & -> & Hrc & (Ee & Ej & Ea)). rbind.
  pose proof (mid_c s bits bits rs rs M n n used used None None [] [] U T K (e :: mq) c Hm Hrc Ee Ea eq_refl) as Hmc.
  destruct (end_req_check_ok (with_c c s) bits rs M n used U T K e mq x k v tag (G_OFFSET (M lpa)) page Hmc) as (s' & -> & Ht); try done; [exact (eq_trans Ej Hj)|lia|].
  rbind. by eexists.
Qed.

Lemma with_c_same s : with_c (r_c s) s = s.
Proof. by destruct s. Qed.

Lemma list_up_ok s bits rs M n used fy U T K e mq x :
  mid s bits rs M n used fy [] U T K (e :: mq) → fy = None ∨ fy = Some (IDX (at_slot s e)) → IDX (at_slot s e) ∉ rs → entries s !! e = Some x →
  jumps (r_c s) = ∅ → master s mq → slack + Z.of_nat (need s (e :: mq)) <= n →
  ∃ t, wb_cache_list_up s e x (at_slot s e) = Ok t ∧ turn_ok (4 * need s (e :: mq) + 2) e mq t.
Proof.
  intros Hm Hfy Hin Hx Hj Hq Hn. assert (He : e ∈ e :: mq) by apply list_elem_of_here.
  destruct (mid_slot _ _ _ _ _ _ _ _ _ _ _ _ _ Hm He) as (Hc & Hlr & Hl). set (lpa := at_slot s e) in *.
  assert (Hpos : 0 < n) by (rewrite need_cons in Hn; lia).
  destruct (calm_list_up (r_c s) rs M n used fy lpa (WEntry e) (md_rests _ _ _ _ _ _ _ _ _ _ _ _ Hm) Hfy Hl Hin Hpos)
    as (rc & c1 & c & n' & used' & E1 & E2 & Hn' & Hr & Hout).
  unfold wb_cache_list_up. rewrite E1. rbind. rewrite E2. rbind. destruct (Z.eqb_spec rc 0) as [->|Hrc]; cbv iota in Hr, Hout; cbn [negb].
  - destruct Hout as (Ee & Ej & Ea). pose proof (mid_c s bits bits rs _ M n n' used used' fy None [] [] U T K (e :: mq) c Hm Hr Ee Ea eq_refl) as Hmc.
    destruct (data_check_ok (with_c c s) bits _ M n' used' U T K e mq x Hmc) as (t & Et & Ht);
      [apply list_elem_of_here|done|exact (eq_trans Ej Hj)|done|change (need (with_c c s) (e :: mq)) with (need s (e :: mq)); lia|].
    exists t. split; [exact Et|]. eapply turn_mono; [exact Ht|]. change (need (with_c c s) (e :: mq)) with (need s (e :: mq)). lia.
  - destruct Hout as (Ee & Ej & Ea). cbn in Ea. rewrite app_nil_r in Ea.
    pose proof (mid_c s bits bits rs _ M n n' used used' fy None [] [WEntry e] U T K (e :: mq) c Hm Hr Ee Ea eq_refl) as Hmc.
    eexists. split; [done|]. left. split; [done|]. exists (4 * need s (e :: mq) + rank Listed)%nat. split; [cbn [rank]; lia|]. left.
    apply (working_at s Listed _ _ _ _ bits (listed (max_cached_tpages (env (r_c s))) (IDX lpa) rs) M n' used' U T K); try done; [| |lia].
    + cbn. by rewrite Ej, Hj.
    + apply list_elem_of_here.
Qed.

Lemma load_ok s bits rs M n used U T K e mq x :
  mid s bits rs M n used None [] U T K (e :: mq) → IDX (at_slot s e) ∉ rs → entries s !! e = Some x →
  jumps (r_c s) = ∅ → master s mq → slack + Z.of_nat (need s (e :: mq)) <= n →
  ∃ t, wb_cache_load s e x (at_slot s e) = Ok t ∧ turn_ok (4 * need s (e :: mq) + 3) e mq t.
Proof.
  intros Hm Hin Hx Hj Hq Hn. assert (He : e ∈ e :: mq) by apply list_elem_of_here.
  destruct (mid_slot _ _ _ _ _ _ _ _ _ _ _ _ _ Hm He) as (Hc & Hlr & Hl). set (lpa := at_slot s e) in *.
  pose proof (md_rests _ _ _ _ _ _ _ _ _ _ _ _ Hm) as Hr. unfold wb_cache_load.
  rewrite (calm_wait (r_c s) rs M n used [] lpa (WEntry e) Hr Hl). rbind. cbn [negb Z.eqb].
  pose proof (calm_load (r_c s) rs M n used lpa (WEntry e) Hr Hl Hin) as Hload. case_decide.
  - rewrite Hload. rbind. rewrite (settle_none (r_c s) (cm_none _ _ _ _ _ _ _ Hr)). rbind. cbn [negb Z.eqb]. rewrite with_c_same.
    destruct (list_up_ok s bits rs M n used None U T K e mq x Hm) as (t & Et & Ht); try done; [by left|].
    exists t. split; [exact Et|]. eapply turn_mono; [exact Ht|lia].
  - destruct Hload as (c1 & c & E1 & E2 & Hr' & Ee & Ej & Ea). rewrite E1. rbind. rewrite E2. rbind. cbn [negb Z.eqb].
    cbn in Ea. rewrite app_nil_r in Ea.
    pose proof (mid_c s bits bits rs rs M n n used used None _ [] _ U T K (e :: mq) c Hm Hr' Ee Ea eq_refl) as Hmc.
    eexists. split; [done|]. left. split; [done|]. exists (4 * need s (e :: mq) + rank Listing)%nat. split; [cbn [rank]; lia|]. left.
    apply (working_at s Listing _ _ _ _ bits rs M n used U T K); try done; [|lia]. cbn. by rewrite Ej, Hj.
Qed.

Lemma update_ok s bits rs M n used U T K e mq x :
  mid s bits rs M n used None [] U T K (e :: mq) → IDX (at_slot s e) ∈ rs → T !! at_slot s e = Some (ek e) → entries s !! e = Some x →
  jumps (r_c s) = ∅ → master s mq → slack + Z.of_nat (need s (e :: mq)) <= n + 1 →
  ∃ t, wb_update s x (at_slot s e) = Ok t ∧ turn_ok (4 * need s (e :: mq)) e mq t.
Proof.
  intros Hm Hin HT Hx Hj Hq Hn. assert (He : e ∈ e :: mq) by apply list_elem_of_here.
  destruct (mid_slot _ _ _ _ _ _ _ _ _ _ _ _ _ Hm He) as (Hc & Hlr & Hl). set (lpa := at_slot s e) in *.
  pose proof (md_rests _ _ _ _ _ _ _ _ _ _ _ _ Hm) as Hr.
  destruct (md_on _ _ _ _ _ _ _ _ _ _ _ _ Hm lpa (ek e) HT) as (_ & Hb & v & Hv & Hvg & Hon).
  destruct (on_range D (M lpa) v Hon) as (_ & _ & _ & Eini).
  unfold wb_update. rewrite (cg_get_pte_Ok (r_c s) rs M n used lpa (cm_rep _ _ _ _ _ _ _ Hr) Hl). rbind. rewrite Eini. cbn [negb].
  destruct (forget_grain _ (pages (r_c s)) n used (M lpa) (rests_t _ _ _ _ _ _ _ _ Hr)) as (r & sp & -> & Ht);
    [apply Hon|exact (md_bits _ _ _ _ _ _ _ _ _ _ _ _ Hm)|done|]. rbind.
  pose proof (rests_pages _ _ _ _ _ _ _ _ _ _ _ Hr Ht) as Hr'.
  destruct (direct_update_Ok s (with_pages sp (r_c s)) bits rs M n used U T K e mq x Hm (or_intror HT) Hin Hx)
    as (s' & M' & U' & T' & K' & E1 & Hm' & Ej' & Eq' & Een); [|done|].
  { fold lpa. unfold cleared. rewrite HT. exact Hr'. }
  fold lpa in E1. rewrite E1. eexists. split; [done|]. eapply entered_ok; [exact Hm|exact Hm'|done|congruence| |lia].
  unfold master. by rewrite Eq'.
Qed.

Lemma wb_turn_ok f s e mq : working f s e [] mq → ∃ t, wb_turn s e = Ok t ∧ turn_ok f e mq t.
Proof.
  intros (ph & bits & rs & M & n & used & U & T & K & Hm & Hj & Hq & Hp & Hn & ->).
  assert (He : e ∈ e :: mq) by apply list_elem_of_here.
  destruct (mid_slot _ _ _ _ _ _ _ _ _ _ _ _ _ Hm He) as (Hc & Hlr & Hl).
  destruct (md_wait _ _ _ _ _ _ _ _ _ _ _ _ Hm e He) as [(x & Hx & Hkx & Hpx & Hhx & H0) Ho Hbit Hown].
  assert (Ec : cnt s e = hp_cnt (be_h x)) by (unfold cnt; by rewrite Hx).
  unfold wb_turn. rewrite Hx. cbn [deref]. rbind. rewrite (proj1 (md_env _ _ _ _ _ _ _ _ _ _ _ _ Hm)).
  destruct (get_slot nr (be_h x) (ek e) Hnr Hhx) as [-> _]. rbind. rewrite <-Ec. fold (at_slot s e).
  set (h := HParams _ _ _ _). destruct (note_mid s _ _ _ _ _ _ _ _ _ _ e mq x h Hm Hx) as [Hm1 Hc1]; [done|done|].
  set (s1 := with_entry e (set_h h x) s) in *. change (r_c s1) with (r_c s).
  assert (Es : at_slot s1 e = at_slot s e) by (unfold at_slot; by rewrite Hc1).
  assert (En : need s1 (e :: mq) = need s (e :: mq)) by (apply need_ext; auto).
  assert (Hx1 : entries s1 !! e = Some (set_h h x)) by (unfold s1; cbn; by rewrite lookup_insert_eq).
  set (s2 := with_c (drop_jump (WEntry e) (r_c s)) s1).
  assert (Hd : jumps (r_c s2) = ∅) by (cbn; rewrite Hj; destruct ph; cbn; by rewrite ?delete_singleton_eq, ?delete_empty).
  assert (Hm2 : ∀ fy, mid s1 bits rs M n used fy [] U T K (e :: mq) → mid s2 bits rs M n used fy [] U T K (e :: mq)).
  { intros fy Hfy. eapply (mid_c _ bits bits); [exact Hfy|apply rests_jumps, (md_rests _ _ _ _ _ _ _ _ _ _ _ _ Hfy)|..]; done. }
  rewrite Hj. destruct ph; cbn [jump_of rank] in *; rewrite ?lookup_empty, ?lookup_singleton_eq.
  - destruct (calm_hit (r_c s) rs M n used None [] (at_slot s e) (md_rests _ _ _ _ _ _ _ _ _ _ _ _ Hm) Hl) as (c & -> & Hr & Ee & Ej & Ea). rbind.
    pose proof (mid_c s1 bits bits rs rs M n n used used None None [] [] U T K (e :: mq) c Hm1 Hr Ee Ea eq_refl) as Hmc.
    rewrite <-Es. case_bool_decide as Hin.
    + destruct (calm_touch c rs M n used None [] (at_slot s1 e) Hr) as (c2 & E2 & Hr2 & Ee2 & Ej2 & Ea2); [unfold lpa_ok in *; by rewrite Ee, Es|].
      cbn [with_c r_c]. rewrite E2. rbind.
      pose proof (mid_c s1 bits bits rs _ M n n used used None None [] [] U T K (e :: mq) c2 Hm1 Hr2 (eq_trans Ee2 Ee) (eq_trans Ea2 Ea) eq_refl) as Hmc2.
      destruct (data_check_ok (with_c c2 s1) bits _ M n used U T K e mq (set_h h x) Hmc2) as (t & Et & Ht);
        [|done|cbn; congruence|done|change (need (with_c c2 s1) (e :: mq)) with (need s1 (e :: mq)); lia|].
      { unfold to_front. rewrite decide_True by (by rewrite Es in Hin |- *). apply list_elem_of_here. }
      exists t. split; [exact Et|]. eapply turn_mono; [exact Ht|]. change (need (with_c c2 s1) (e :: mq)) with (need s1 (e :: mq)). lia.
    + destruct (load_ok (with_c c s1) bits rs M n used U T K e mq (set_h h x) Hmc) as (t & Et & Ht);
        [done|done|cbn; congruence|done|change (need (with_c c s1) (e :: mq)) with (need s1 (e :: mq)); lia|].
      exists t. split; [exact Et|]. eapply turn_mono; [exact Ht|]. change (need (with_c c s1) (e :: mq)) with (need s1 (e :: mq)). lia.
  - destruct (list_up_ok s2 bits rs M n used _ U T K e mq (set_h h x) (Hm2 _ Hm1)) as (t & Et & Ht);
      [right; change (at_slot s2 e) with (at_slot s1 e); by rewrite Es|change (at_slot s2 e) with (at_slot s1 e); by rewrite Es|done|done|done| |].
    { change (need s2 (e :: mq)) with (need s1 (e :: mq)). lia. }
    rewrite <-Es. exists t. split; [exact Et|]. eapply turn_mono; [exact Ht|]. change (need s2 (e :: mq)) with (need s1 (e :: mq)). lia.
  - destruct (data_check_ok s2 bits rs M n used U T K e mq (set_h h x) (Hm2 _ Hm1)) as (t & Et & Ht);
      [change (at_slot s2 e) with (at_slot s1 e); by rewrite Es|done|done|done| |].
    { change (need s2 (e :: mq)) with (need s1 (e :: mq)). lia. }
    rewrite <-Es. exists t. split; [exact Et|]. eapply turn_mono; [exact Ht|]. change (need s2 (e :: mq)) with (need s1 (e :: mq)). lia.
  - destruct Hp as [Hp HT]. destruct (update_ok s2 bits rs M n used U T K e mq (set_h h x) (Hm2 _ Hm1)) as (t & Et & Ht);
      [change (at_slot s2 e) with (at_slot s1 e); by rewrite Es|change (at_slot s2 e) with (at_slot s1 e); by rewrite Es|done|done|done| |].
    { change (need s2 (e :: mq)) with (need s1 (e :: mq)). lia. }
    rewrite <-Es. exists t. split; [exact Et|]. eapply turn_mono; [exact Ht|]. change (need s2 (e :: mq)) with (need s1 (e :: mq)). lia.
Qed.

Lemma wb_turns_ok fuel : ∀ f s e mq, working f s e [] mq → (f < fuel)%nat →
  ∃ s' u, wb_turns fuel s e = Ok (s', u) ∧ turn_ok f e mq (Continue s' u).
Proof.
  induction fuel as [|fuel IH]; intros f s e mq Hw Hf; [lia|]. cbn [wb_turns].
  destruct (wb_turn_ok f s e mq Hw) as (t & -> & Ht). rbind. destruct t as [s' u|s']; [by exists s', u|].
  destruct Ht as (f' & Hlt & Hw'). destruct (IH f' s' e mq Hw') as (s2 & u & E2 & Ht2); [lia|].
  exists s2, u. split; [done|]. eapply turn_mono; [exact Ht2|lia].
Qed.

(** *** The loop *)

Lemma next_retry f s e mq : working f s e [WEntry e] mq → ∃ s', next_entry s = Ok (Some e, s') ∧ working f s' e [] mq ∧ wb_flush_size s' = wb_flush_size s.
Proof.
  intros (ph & bits & rs & M & n & used & U & T & K & Hm & Hj & Hq & Hp & Hn & ->).
  destruct (rests_pop _ _ _ _ _ _ _ _ _ (md_rests _ _ _ _ _ _ _ _ _ _ _ _ Hm)) as (q & Eq & Hr). unfold next_entry. rewrite Eq. rbind.
  eexists. split; [done|]. split; [|done].
  exists ph, bits, rs, M, n, used, U, T, K. split; [|done]. eapply (mid_c _ bits bits); [exact Hm|exact Hr|..]; done.
Qed.

Lemma next_master f s e mq : resting f s (e :: mq) → ∃ s', next_entry s = Ok (Some e, s') ∧ working f s' e [] mq ∧ wb_flush_size s' = wb_flush_size s.
Proof.
  intros (bits & rs & M & n & used & U & T & K & Hm & Hj & (cap & Hq & Hcap) & Hn & ->).
  destruct (cm_w _ _ _ _ _ _ _ (md_rests _ _ _ _ _ _ _ _ _ _ _ _ Hm)) as (cap' & Hw & _). unfold next_entry.
  rewrite (fifo_dequeue_empty _ _ Hw). rbind. replace (with_retry _ _ (r_c s)) with (r_c s) by (by destruct (r_c s)). rewrite with_c_same.
  destruct (fifo_dequeue_spec _ _ _ _ Hq) as (q & -> & Hq'). rbind. eexists. split; [done|]. split; [|done].
  exists Start, bits, rs, M, n, used, U, T, K. split; [by apply mid_master|]. split; [done|]. split; [by exists cap|].
  split; [done|]. change (need (with_master q s)) with (need s). split; [lia|done].
Qed.

Lemma update_loop_ok fuel : ∀ f s pd u,
  (resting f s pd ∨ ∃ e mq, pd = e :: mq ∧ working f s e [WEntry e] mq) → (f < fuel)%nat → (length pd <= length E)%nat →
  u = Z.of_nat (length E) - Z.of_nat (length pd) →
  ∃ s' f', update_loop fuel s u = Ok s' ∧ resting f' s' [].
Proof.
  induction fuel as [|fuel IH]; intros f s pd u Hs Hf Hlen Hu; [lia|]. cbn [update_loop].
  assert (Hfs : wb_flush_size s = Z.of_nat (length E)).
  { destruct Hs as [(? & ? & ? & ? & ? & ? & ? & ? & Hm & _)|(? & ? & _ & ? & ? & ? & ? & ? & ? & ? & ? & ? & Hm & _)]; apply (md_frame _ _ _ _ _ _ _ _ _ _ _ _ Hm). }
  rewrite Hfs. destruct (decide (pd = [])) as [->|Hne].
  { simpl in Hu. rewrite (proj2 (Z.ltb_ge _ _)) by lia. destruct Hs as [Hs|(e & mq & ? & _)]; [|done]. by exists s, f. }
  assert (Hnext : ∃ e mq s1, pd = e :: mq ∧ next_entry s = Ok (Some e, s1) ∧ working f s1 e [] mq).
  { destruct Hs as [Hs|(e & mq & -> & Hw)].
    - destruct pd as [|e mq]; [done|]. destruct (next_master f s e mq Hs) as (s1 & E1 & Hw & _). by exists e, mq, s1.
    - destruct (next_retry f s e mq Hw) as (s1 & E1 & Hw' & _). by exists e, mq, s1. }
  destruct Hnext as (e & mq & s1 & -> & -> & Hw). rbind. simpl length in Hu, Hlen. rewrite (proj2 (Z.ltb_lt _ _)) by lia.
  destruct (wb_turns_ok (S fuel) f s1 e mq Hw Hf) as (s2 & d & -> & Ht). rbind.
  destruct Ht as [(-> & f' & Hlt & [Hw'|Hr'])|(-> & f' & Hlt & Hr')].
  - apply (IH f' s2 (e :: mq)); simpl; [right; by exists e, mq|lia|lia|lia].
  - apply (IH f' s2 (mq ++ [e])); rewrite ?length_app; simpl; [by left|lia|lia|lia].
  - apply (IH f' s2 mq); [by left|lia|lia|lia].
Qed.

Lemma push_all_ok (q : Qw) cap xs es : fifo_repr q cap (WEntry <$> xs) → Z.of_nat (length xs + length es) <= cap →
  ∃ q', push_all es q = Ok q' ∧ fifo_repr q' cap (WEntry <$> (xs ++ es)).
Proof.
  revert q xs. induction es as [|e es IH]; intros q xs Hq Hc; cbn [push_all]; [exists q; by rewrite app_nil_r|].
  simpl length in Hc. destruct (fifo_enqueue_spec _ _ _ (WEntry e) Hq) as (q1 & -> & Hq1); [rewrite length_fmap; lia|]. rbind.
  destruct (IH q1 (xs ++ [e])) as (q' & -> & Hq'); [by rewrite fmap_app|rewrite length_app; simpl; lia|].
  exists q'. split; [done|]. by rewrite <-app_assoc in Hq'.
Qed.

(** All entries wait at first, none in the end. *)
Lemma mapping_update_ok fuel s bits rs M n used T cap :
  mid s bits rs M n used None [] ∅ T K0 E → jumps (r_c s) = ∅ → fifo_repr (wb_master_q s) cap [] → Z.of_nat (length E) <= cap →
  (∀ e, e ∈ E → cnt s e = 0) → slack + B * Z.of_nat (length E) <= n → (4 * Z.to_nat B * length E + 3 < fuel)%nat →
  ∃ s' bits' rs' M' n' used' U T' K', _do_wb_mapping_update fuel s = Ok s' ∧ mid s' bits' rs' M' n' used' None [] U T' K' [] ∧
    jumps (r_c s') = ∅ ∧ slack <= n' ∧ (∃ cap, fifo_repr (wb_master_q s') cap [] ∧ Z.of_nat (length E) <= cap).
Proof.
  intros Hm Hj Hq Hcap Hcnt Hn Hf. pose proof (md_frame _ _ _ _ _ _ _ _ _ _ _ _ Hm) as (Ewb & _ & Ebuf & _). unfold _do_wb_mapping_update.
  rewrite Ewb, Ebuf, Nat2Z.id, take_ge by lia.
  destruct (push_all_ok (wb_master_q s) cap [] E Hq) as (q & -> & Hq'); [simpl; lia|]. rbind.
  assert (Hneed : need s E = (Z.to_nat B * length E)%nat).
  { unfold need. rewrite (list_fmap_ext _ (λ _, Z.to_nat B)) by (intros i e He; rewrite Hcnt by (by eapply list_elem_of_lookup_2); by rewrite Z.sub_0_r).
    clear. induction E as [|e l IH]; csimpl; lia. }
  destruct (update_loop_ok fuel (4 * need s E + 3)%nat (with_master q s) E 0) as (s' & f' & -> & Hres).
  - left. exists bits, rs, M, n, used, ∅, T, K0. split; [by apply mid_master|]. split; [done|]. split; [by exists cap|].
    change (need (with_master q s)) with (need s). split; [rewrite Hneed; nia|done].
  - rewrite Hneed. lia.
  - done.
  - lia.
  - rbind. destruct Hres as (bits' & rs' & M' & n' & used' & U & T' & K' & Hm' & Hj' & (cap' & Hq2 & Hcap') & Hn' & _). cbn in Hn'.
    destruct (cm_w _ _ _ _ _ _ _ (md_rests _ _ _ _ _ _ _ _ _ _ _ _ Hm')) as (cap2 & Hw & _).
    rewrite (fifo_size_spec _ _ _ Hq2), (fifo_size_spec _ _ _ Hw). change (Z.of_nat (length (WEntry <$> [])) + Z.of_nat (length []) >? 0) with false.
    cbn [abort_if]. exists (with_c (foldr (λ e, drop_jump (WEntry e)) (r_c s') E) s'), bits', rs', M', n', used', U, T', K'. split; [done|].
    assert (Hdrop : ∀ es, let c := foldr (λ e, drop_jump (WEntry e)) (r_c s') es in
      rests (Kept bits' dev new left) c rs' M' n' used' None [] ∧ env c = env (r_c s') ∧ assigned c = assigned (r_c s') ∧ jumps c = ∅).
    { induction es as [|e es (H1 & H2 & H3 & H4)]; cbn; [split; [apply (md_rests _ _ _ _ _ _ _ _ _ _ _ _ Hm')|done]|].
      split; [by apply rests_jumps|]. split; [done|]. split; [done|]. cbn in H4. rewrite H4. apply delete_empty. }
    destruct (Hdrop E) as (H1 & H2 & H3 & H4). split; [eapply (mid_c _ bits' bits'); done|]. split; [done|]. split; [lia|]. by exists cap'.
Qed.

End flush.

End DemandStore.
