(* ===== verification/DemandMap.v ===== *)
(** * Writes and reads of the hash-based store

    The store of [DemandRw] between requests: what is on the device and what is in
    the write buffer. A write that finds the buffer full flushes it first; a read
    looks in the buffer, then at the slots of its key. From the creation on, every
    read of any sequence of writes and reads finds the last value of its key: at the front
    of its buffer, or in the device page it returns at an offset it does not return. *)
From stdpp Require Import functions.
From S2P Require Export Prelude Settings Queue MaxHeap BadBlock Lower PosixMemory BlockManager BlockInventory Partition DemandUtil DemandCache Skiplist DemandFlush DemandPage DemandRw DemandStore.
Import BlockManager Inventory Partition DemandUtil DemandCache DemandFlush DemandPage DemandRw DemandStore.

Local Open Scope Z_scope.

Module DemandMap.

#[local] Opaque slot key_hash.

(** ** The store between requests *)

Section store.
Context `{Sg : Settings, !SettingsOk Sg} {Q Mp L Qw : Type} `{!FIFO Z Q} `{!IntMap loc Mp} `{!Lower L} `{!LowerOk L} `{!FIFO waiter Qw}.
#[local] Abbreviation cache := (cache (dpages Q Mp L) Qw).
#[local] Abbreviation rw := (@rw Q Mp L Qw).
Implicit Types (c : cache) (s : rw) (e : loc) (T : gmap Z str_key) (K W : gmap str_key (list Z)) (bits : grain_bitmap) (dev : Z → option (list Z)).
Context (nr B : Z) (Us : gset str_key).
Hypothesis Hnr : 2 <= nr < 2 ^ 31.
Hypothesis HB : 1 <= B <= MAX_HASH_COLLISION.
Hypothesis Hroom : room nr B Us.

(** Everything but the write buffer: [n] translation pages and [left] data pages can
    still be handed out; [K] is on the device; page [fy] is on its way, with the
    jumps [j] and the requests [a] handed back. *)
Record steady (fy : option Z) (j : gmap waiter jump_t) (a : list loc) s (n left : Z) bits dev rs (M : Z → Z) (used : gset Z) T K : Prop := Steady {
  st_rests : rests (Kept bits dev ∅ left) (r_c s) rs M n used fy [];
  st_env : nr_valid_tentries (env (r_c s)) = nr ∧ nr_valid_tpages (env (r_c s)) * EPP = nr;
  st_tab : table nr B T K (max_try s);
  st_dom : dom K ⊆ Us;
  st_M lpa : 0 <= lpa < nr → M lpa = UINT32_MAX ↔ T !! lpa = None;
  st_on lpa k : T !! lpa = Some k → 0 <= lpa < nr ∧ ca_at bits (M lpa) = true ∧ ∃ v, K !! k = Some v ∧ vgood k v ∧ on dev (M lpa) v;
  st_inj lpa lpa' k k' : T !! lpa = Some k → T !! lpa' = Some k' → M lpa = M lpa' → lpa = lpa';
  st_ht : hash_table s = d_htable_init (wb_flush_size s * 2);
  st_bits : ca_len bits = _NOP * GRAIN_PER_PAGE;
  st_cnts : ca_len (r_cnt s) = MAX_HASH_COLLISION ∧ ca_len (w_cnt s) = MAX_HASH_COLLISION;
  st_idle : jumps (r_c s) = j ∧ assigned (r_c s) = a;
  st_master : ∃ cap, fifo_repr (wb_master_q s) cap [] ∧ wb_flush_size s <= cap;
  st_wb : 1 <= wb_flush_size s;
}.
#[local] Abbreviation settled := (steady None ∅ []).

(** The write buffer holds [W]. *)
Record buffered s W : Prop := Buffered {
  bf_nd : NoDup (write_buffer s);
  bf_dom e : e ∈ write_buffer s ↔ is_Some (entries s !! e);
  bf_entry e x : entries s !! e = Some x → ∃ v, w_value (be_w x) = Some v ∧ w_len (be_w x) = vlen v ∧ vgood (be_key x) v ∧ be_key x ∈ Us ∧
    hp_hash (be_h x) = key_hash (key (be_key x)) ∧ hp_cnt (be_h x) = 0 ∧ W !! be_key x = Some v;
  bf_inj e e' x x' : entries s !! e = Some x → entries s !! e' = Some x' → be_key x = be_key x' → e = e';
  bf_W k v : W !! k = Some v → ∃ e x, entries s !! e = Some x ∧ be_key x = k;
}.

(** *** Assigning grains *)

Definition used_set (p : bbm_pri Q Mp) : gset Z := list_to_set (filter (λ q, ¬ (now (ca_at (base_block p) (GETBLOCKIDX q)) <= GETPAGEIDX q)) (seqZ 0 _NOP)).

Lemma used_set_spec p q : 0 <= q < _NOP → q ∉ used_set p → unused p q.
Proof.
  intros Hq Hn. split; [done|]. destruct (decide (now (ca_at (base_block p) (GETBLOCKIDX q)) <= GETPAGEIDX q)); [done|].
  destruct Hn. apply elem_of_list_to_set, list_elem_of_filter. split; [done|]. apply elem_of_seqZ. lia.
Qed.

Lemma used_set_used p q : q ∈ used_set p → ¬ unused p q.
Proof. intros [Hn _]%elem_of_list_to_set%list_elem_of_filter [_ H]. done. Qed.

(** The device after the pages of [fl] were written. *)
Definition after (fl : list flush_node) dev (q : Z) : option (list Z) :=
  match list_find (λ n, fl_ppa n = q) fl with Some (_, n) => Some (fl_value n) | None => dev q end.

Lemma after_in fl dev n : NoDup (fl_ppa <$> fl) → n ∈ fl → after fl dev (fl_ppa n) = Some (fl_value n).
Proof.
  intros Hnd Hin. unfold after. destruct (list_find _ fl) as [[i n']|] eqn:E.
  - apply list_find_Some in E as (Hi & Ep & _). f_equal. f_equal. apply list_elem_of_lookup in Hin as [j Hj].
    assert (i = j); [|congruence]. eapply NoDup_lookup; [exact Hnd|..]; rewrite list_lookup_fmap; [by rewrite Hi|by rewrite Hj; cbn; rewrite Ep].
  - apply list_find_None in E. rewrite Forall_forall in E. by destruct (E n Hin).
Qed.

Lemma after_out fl dev q : q ∉ fl_ppa <$> fl → after fl dev q = dev q.
Proof.
  intros Hq. unfold after. destruct (list_find _ fl) as [[i n']|] eqn:E; [|done]. apply list_find_Some in E as (Hi & <- & _).
  destruct Hq. apply list_elem_of_fmap. exists n'. split; [done|]. by eapply list_elem_of_lookup_2.
Qed.

(** The key, the value and, after the assignment, the place of an entry. *)
Definition key_of s e : str_key := match entries s !! e with Some x => be_key x | None => Key 0 [] end.
Definition value_of s e : list Z := match entries s !! e with Some x => default [] (w_value (be_w x)) | None => [] end.
Definition place_of (m : gmap loc wentry) e : Z := match m !! e with Some w => w_ppa w | None => 0 end.

Lemma buffered_waits s W e : buffered s W → e ∈ write_buffer s → ∃ t, 1 <= t <= GRAIN_PER_PAGE ∧ waits (be_w <$> entries s) e t.
Proof.
  intros Hb He. apply (bf_dom _ _ Hb) in He as [x Hx]. destruct (bf_entry _ _ Hb e x Hx) as (v & H1 & H2 & Hv & _).
  exists (vlen v). split; [apply Hv|]. exists (be_w x), v. split; [by rewrite lookup_fmap, Hx|]. split; [done|]. split; [done|]. apply Hv.
Qed.

Lemma assign_ok s n left bits dev rs M used T K W :
  settled s n left bits dev rs M used T K → buffered s W → wb_is_full s = true → wb_flush_size s <= left →
  ∃ m c fl left' bits', let E := write_buffer s in
    _do_wb_assign_ppa (wb_flush_size s) E (be_w <$> entries s) (r_c s) = Ok (m, c, fl) ∧
    t_inv (Kept bits' dev (list_to_set (fl_ppa <$> fl)) left') (pages c) n used ∧ c = with_pages (pages c) (r_c s) ∧
    left - wb_flush_size s <= left' ∧ NoDup (fl_ppa <$> fl) ∧
    (∀ nd, nd ∈ fl → Z.of_nat (length (fl_value nd)) = PAGESIZE ∧ 0 <= fl_ppa nd < _NOP ∧ dev (fl_ppa nd) = None) ∧
    ca_len bits' = _NOP * GRAIN_PER_PAGE ∧ (∀ i, ca_at bits i = true → ca_at bits' i = true) ∧
    (∀ e, e ∈ E → on (after fl dev) (place_of m e) (value_of s e) ∧ ca_at bits' (place_of m e) = true ∧ G_IDX (place_of m e) ∈ fl_ppa <$> fl ∧
       is_Some (m !! e)) ∧
    (∀ e e', e ∈ E → e' ∈ E → place_of m e = place_of m e' → e = e').
Proof.
  intros Hs Hb Hfull Hleft. unfold wb_is_full in Hfull. apply Z.eqb_eq in Hfull. set (E := write_buffer s) in *.
  pose proof (rests_t _ _ _ _ _ _ _ _ (st_rests _ _ _ _ _ _ _ _ _ _ _ _ _ Hs)) as (t & d & Hr & Hn & Hk & Ho). cbn [k_left] in Hk.
  set (used0 := used_set (base (pages (r_c s)))).
  assert (Htake : take (Z.to_nat (wb_flush_size s)) E = E) by (apply take_ge; lia).
  assert (Hbits : dp_bits (pages (r_c s)) = bits) by apply (po_bits _ _ _ Ho).
  destruct (assign_spec (DataPagesOk0:=dpages_d_ok (r_c s) n) bits (wb_flush_size s) E (be_w <$> entries s) (r_c s) left used0)
    as (m & c & fl & b & A & E1 & HA & Hp & _ & Hfresh & n' & used' & Hinv & Hn' & Hu' & Hfu').
  - pose proof (st_wb _ _ _ _ _ _ _ _ _ _ _ _ _ Hs). lia.
  - rewrite Htake. apply (bf_nd _ _ Hb).
  - change (dp_grains (r_c s)) with (dp_bits (pages (r_c s))). rewrite Hbits. apply (st_bits _ _ _ _ _ _ _ _ _ _ _ _ _ Hs).
  - intros e. rewrite Htake. by apply (buffered_waits s W).
  - cbn. split; [|split; [by destruct (r_c s)|done]]. exists t, d. split; [done|]. split; [done|]. split; [done|]. apply used_set_used.
  - done.
  - change (dp_grains (r_c s)) with (dp_bits (pages (r_c s))). by rewrite Hbits.
  - rewrite Htake in HA, Hp. cbn [dp_inv dpages_d_ok] in Hinv. destruct Hinv as ((t' & d' & Hr' & Hd' & Ht' & Hused) & Ec & El & Hmono).
    change (dp_grains c) with (dp_bits (pages c)) in Hp.
    assert (HAe : ∀ e, e ∈ E ↔ e ∈ A) by (intros e; by rewrite HA).
    assert (Hnone : ∀ q, 0 <= q < _NOP → q ∈ fl_ppa <$> fl → low_page (dp_li (pages (r_c s))) q = None).
    { intros q Hq Hin. apply (po_erased _ _ _ Ho). apply used_set_spec; [done|]. by apply Hfresh. }
    assert (Hfl : ∀ nd, nd ∈ fl → Z.of_nat (length (fl_value nd)) = PAGESIZE ∧ 0 <= fl_ppa nd < _NOP ∧ dev (fl_ppa nd) = None).
    { intros nd Hin. destruct (pk_size _ _ _ _ _ _ _ _ _ _ Hp nd Hin) as [H1 H2]. split; [done|]. split; [done|].
      destruct (dev (fl_ppa nd)) as [pg|] eqn:Ed; [|done]. apply (po_dev _ _ _ Ho) in Ed. rewrite Hnone in Ed; [done|done|].
      apply list_elem_of_fmap. by exists nd. }
    exists m, c, fl, n', (dp_bits (pages c)). split; [exact E1|]. split; [|split; [exact Ec|split; [done|]]].
    + exists t', d'. split; [done|]. split; [done|]. split; [done|]. constructor; cbn [k_bits k_dev k_new].
      * rewrite El. apply Ho.
      * intros q Hq%Hmono. rewrite El. by apply (po_erased _ _ _ Ho).
      * intros q Hq. destruct (po_used _ _ _ Ho q Hq) as (H1 & H2 & H3). rewrite El. split; [done|]. split; [|done]. intros Hx%Hmono. done.
      * done.
      * intros q pg Hq. rewrite El. by apply (po_dev _ _ _ Ho).
      * intros q Hq%elem_of_list_to_set. split; [by apply Hused, Hfu'|]. rewrite El. apply list_elem_of_fmap in Hq as (nd & -> & Hin).
        apply Hnone; [by apply Hfl|]. apply list_elem_of_fmap. by exists nd.
    + split; [apply (pk_pages _ _ _ _ _ _ _ _ _ _ Hp)|]. split; [done|]. split; [apply (pk_bits _ _ _ _ _ _ _ _ _ _ Hp)|].
      split; [apply (pk_keep _ _ _ _ _ _ _ _ _ _ Hp)|]. split.
      * intros e He%HAe. destruct (pk_placed _ _ _ _ _ _ _ _ _ _ Hp e He) as (w & v & nd & off & H1 & H2 & H3 & H4 & H5 & H6 & H7 & H8).
        assert (Hlim : off + w_len w <= 16) by (by destruct (decide (fl_ppa nd = 0))).
        rewrite lookup_fmap in H1. destruct (entries s !! e) as [x|] eqn:Hx; [|done]. injection H1 as <-.
        destruct (bf_entry _ _ Hb e x Hx) as (v' & Hv1 & Hv2 & Hv3 & _). rewrite Hv1 in H2. injection H2 as ->.
        assert (Eidx : G_IDX (fl_ppa nd * GRAIN_PER_PAGE + off) = fl_ppa nd ∧ G_OFFSET (fl_ppa nd * GRAIN_PER_PAGE + off) = off).
        { unfold G_IDX, G_OFFSET. change GRAIN_PER_PAGE with 16. Z.to_euclidean_division_equations. lia. }
        destruct Eidx as [Ei Eo]. destruct (Hfl nd H3) as (Hl1 & Hl2 & _). unfold place_of, value_of. rewrite H7, Hx, Hv1. cbn [place_entry w_ppa]. change (default [] (Some v)) with v.
        split; [|split; [by apply (pk_valid _ _ _ _ _ _ _ _ _ _ Hp e _ He) in H7|]].
        -- split; [change GRAIN_PER_PAGE with 16 in *; lia|]. rewrite Ei, Eo. split; [rewrite <-Hv2; exact Hlim|]. exists (fl_value nd).
           split; [apply after_in; [apply (pk_pages _ _ _ _ _ _ _ _ _ _ Hp)|done]|]. split; [lia|]. by rewrite <-Hv2.
        -- rewrite Ei. split; [|done]. apply list_elem_of_fmap. by exists nd.
      * intros e e' He%HAe He'%HAe Epl. destruct (decide (e = e')) as [|Hne]; [done|].
        destruct (pk_placed _ _ _ _ _ _ _ _ _ _ Hp e He) as (w & v & nd & off & _ & _ & _ & _ & H5 & _ & H7 & _).
        destruct (pk_placed _ _ _ _ _ _ _ _ _ _ Hp e' He') as (w' & v' & nd' & off' & _ & _ & _ & _ & H5' & _ & H7' & _).
        unfold place_of in Epl. rewrite H7, H7' in Epl. pose proof (pk_apart _ _ _ _ _ _ _ _ _ _ Hp e e' He He' Hne _ _ H7 H7') as Hap.
        cbn [place_entry w_ppa w_len] in *. lia.
Qed.

Lemma on_mono dev D pga v : (∀ q p, dev q = Some p → D q = Some p) → on dev pga v → on D pga v.
Proof. intros Hd (H1 & H2 & page & H3 & H4). split; [done|]. split; [done|]. exists page. split; [by apply Hd|done]. Qed.

(** *** Before and after the mapping update *)

(** The state in which the mapping update starts. *)
Definition placed_state s (m : gmap loc wentry) c : rw := with_buffer (place_entries m (entries s)) (write_buffer s) (with_c c s).

Lemma placed_entry s m c e : entries (placed_state s m c) !! e = (λ x, set_w (default (be_w x) (m !! e)) x) <$> entries s !! e.
Proof. cbn. unfold place_entries. rewrite map_lookup_imap. by destruct (entries s !! e). Qed.

Lemma start_mid s n left bits dev rs M used T K W m c fl left' bits' :
  settled s n left bits dev rs M used T K → buffered s W → wb_is_full s = true →
  t_inv (Kept bits' dev (list_to_set (fl_ppa <$> fl)) left') (pages c) n used → c = with_pages (pages c) (r_c s) →
  (∀ q p, dev q = Some p → after fl dev q = Some p) → ca_len bits' = _NOP * GRAIN_PER_PAGE → (∀ i, ca_at bits i = true → ca_at bits' i = true) →
  (∀ e, e ∈ write_buffer s → ca_at bits' (place_of m e) = true ∧ is_Some (m !! e)) →
  mid nr B Us dev (after fl dev) (list_to_set (fl_ppa <$> fl)) left' (write_buffer s) (key_of s) (value_of s) (place_of m) K (requests s)
    (placed_state s m c) bits' rs M n used None [] ∅ T K (write_buffer s).
Proof.
  intros Hs Hb Hfull Ht Ec Hmono Hlen Hkeep Hm. apply Z.eqb_eq in Hfull. destruct Hs.
  assert (Ecc : env c = env (r_c s) ∧ assigned c = assigned (r_c s)) by (rewrite Ec; done). destruct Ecc as [Ee Ea].
  constructor; cbn [placed_state with_buffer with_c r_c max_try hash_table r_cnt w_cnt wb_flush_size requests write_buffer]; try done.
  - rewrite Ec. by eapply rests_pages.
  - by rewrite Ee.
  - intros lpa k Hk. destruct (st_on0 lpa k Hk) as (H1 & H2 & v & H3 & H4 & H5). split; [done|]. split; [by apply Hkeep|].
    exists v. split; [done|]. split; [done|]. by eapply on_mono.
  - intros lpa k Hk. rewrite decide_False by (by apply not_elem_of_empty). destruct (st_on0 lpa k Hk) as (_ & _ & v & _ & _ & _ & _ & pg & Hpg & _). by rewrite Hpg.
  - rewrite st_ht0. exists []. cbn [d_htable_init bucket ht_max]. split; [lia|]. split; [done|]. split; [intros b; apply ca_at_new|].
    split; [by intros l ?%elem_of_empty|by intros y ?%elem_of_nil].
  - split; [apply (bf_nd _ _ Hb)|done].
  - intros e He. pose proof He as [x Hx]%(bf_dom _ _ Hb). destruct (bf_entry _ _ Hb e x Hx) as (v & _ & _ & _ & _ & Hh & Hc & _).
    destruct (Hm e He) as [Hbit [w Hw]]. assert (Ex : entries (placed_state s m c) !! e = Some (set_w w x)) by (by rewrite placed_entry, Hx, Hw).
    constructor; [|..|done|].
    + exists (set_w w x). unfold key_of, place_of. rewrite Hx, Hw. split_and!; try done. cbn. lia.
    + intros c' Hc'. unfold cnt in Hc'. rewrite Ex in Hc'. cbn in Hc'. lia.
    + intros lpa _. apply not_elem_of_empty.
  - intros e [x Hx]. fold (placed_state s m c) in Hx. change (entries (placed_state s m c) !! e = Some x) in Hx. rewrite placed_entry in Hx. apply (bf_dom _ _ Hb).
    by destruct (entries s !! e).
  - destruct st_idle0. split_and!; try done. by rewrite Ea.
Qed.

Lemma delete_all (m : gmap loc bentry) (es : list loc) : (∀ e, is_Some (m !! e) → e ∈ es) → foldr delete m es = ∅.
Proof.
  intros Hm. apply map_eq. intros e. rewrite lookup_empty. assert (Hin : ∀ l, foldr delete m l !! e = if decide (e ∈ l) then None else m !! e).
  { induction l as [|x l IH]; cbn; [done|]. rewrite lookup_delete. destruct (decide (x = e)) as [->|Hne].
    - by rewrite decide_True by apply list_elem_of_here.
    - rewrite IH. apply decide_ext. rewrite elem_of_cons. naive_solver. }
  rewrite Hin. case_decide as He; [done|]. destruct (m !! e) eqn:E; [|done]. destruct He. apply Hm. by rewrite E.
Qed.

Lemma written_settled s' n left dev fl E ek ev eg K0 rqs bits rs M used U T K :
  mid nr B Us dev (after fl dev) (list_to_set (fl_ppa <$> fl)) left E ek ev eg K0 rqs s' bits rs M n used None [] U T K [] →
  jumps (r_c s') = ∅ → (∃ cap, fifo_repr (wb_master_q s') cap [] ∧ Z.of_nat (length E) <= cap) → (1 <= length E)%nat →
  NoDup (fl_ppa <$> fl) → (∀ nd, nd ∈ fl → Z.of_nat (length (fl_value nd)) = PAGESIZE ∧ 0 <= fl_ppa nd < _NOP ∧ dev (fl_ppa nd) = None) →
  ∃ s2, _do_wb_flush fl s' = Ok s2 ∧ settled s2 n left bits (after fl dev) rs M used T K ∧ buffered s2 ∅ ∧
    wb_flush_size s2 = wb_flush_size s' ∧ requests s2 = rqs ∧ write_buffer s2 = [].
Proof.
  intros [] Hj Hq HE1 Hnd Hfl. destruct md_frame0 as (Ewb & Erq & Ebuf & Ea).
  pose proof (rests_t _ _ _ _ _ _ _ _ md_rests0) as (t & d & Hr & Hn & Hk & Ho).
  destruct (write_pages_spec fl (dp_li (pages (r_c s'))) (po_wf _ _ _ Ho) Hnd) as (l' & El & Hwf & Hin & Hout).
  { intros nd Hnd'. destruct (Hfl nd Hnd') as (H1 & H2 & _). split; [done|]. split; [done|].
    apply (po_new _ _ _ Ho). apply elem_of_list_to_set, list_elem_of_fmap. by exists nd. }
  unfold _do_wb_flush. rewrite El. rbind. eexists. split; [done|]. split; [|split; [|done]].
  - constructor; cbn [with_buffer with_hash with_c r_c max_try hash_table r_cnt w_cnt wb_flush_size wb_master_q]; try done.
    + eapply rests_pages; [exact md_rests0|]. exists t, d. split; [exact Hr|]. split; [done|]. split; [done|]. destruct Ho.
      constructor; cbn [with_li dp_li dp_bits k_bits k_dev k_new] in *; try done.
      * intros q Hu. rewrite Hout; [by apply po_erased0|]. intros Hx. by apply (po_new0 q); [apply elem_of_list_to_set|].
      * intros q Hu. destruct (po_used0 q Hu) as (H1 & H2 & pg & H3). split; [done|]. split; [done|].
        destruct (decide (q ∈ fl_ppa <$> fl)) as [Hx|Hx]; [|rewrite Hout by done; by exists pg].
        apply list_elem_of_fmap in Hx as (nd & -> & Hx). rewrite Hin by done. by eexists.
      * intros q pg. destruct (decide (q ∈ fl_ppa <$> fl)) as [Hx|Hx].
        -- apply list_elem_of_fmap in Hx as (nd & -> & Hx). rewrite (after_in fl dev nd Hnd Hx). intros [= <-]. by apply Hin.
        -- rewrite after_out by done. rewrite Hout by done. apply po_dev0.
    + rewrite Ewb. done.
    + lia.
  - rewrite <-Ebuf in md_entries0. cbn [with_hash with_c entries write_buffer]. rewrite (delete_all (entries s') (write_buffer s') md_entries0).
    constructor; cbn [with_buffer entries write_buffer]; try done; [apply NoDup_nil_2|]. intros e. rewrite elem_of_nil, lookup_empty. split; [done|]. by intros [].
Qed.

(** *** A flush *)

Lemma value_of_entry s W e : buffered s W → e ∈ write_buffer s →
  ∃ x, entries s !! e = Some x ∧ key_of s e = be_key x ∧ vgood (key_of s e) (value_of s e) ∧ key_of s e ∈ Us ∧ W !! key_of s e = Some (value_of s e).
Proof.
  intros Hb [x Hx]%(bf_dom _ _ Hb). destruct (bf_entry _ _ Hb e x Hx) as (v & H1 & H2 & H3 & H4 & _ & _ & H5).
  exists x. unfold key_of, value_of. rewrite Hx, H1. done.
Qed.

Lemma key_of_inj s W e e' : buffered s W → e ∈ write_buffer s → e' ∈ write_buffer s → key_of s e = key_of s e' → e = e'.
Proof.
  intros Hb He He' Ek. destruct (value_of_entry s W e Hb He) as (x & Hx & Ex & _), (value_of_entry s W e' Hb He') as (x' & Hx' & Ex' & _).
  eapply (bf_inj _ _ Hb); [exact Hx|exact Hx'|congruence].
Qed.

Lemma flush_ok fuel s n left slack bits dev rs M used T K W :
  settled s n left bits dev rs M used T K → buffered s W → wb_is_full s = true → wb_flush_size s <= left →
  0 <= slack → slack + B * wb_flush_size s <= n → (4 * Z.to_nat B * Z.to_nat (wb_flush_size s) + 3 < fuel)%nat →
  ∃ m c fl s1 s2, _do_wb_assign_ppa (wb_flush_size s) (write_buffer s) (be_w <$> entries s) (r_c s) = Ok (m, c, fl) ∧
    _do_wb_mapping_update fuel (placed_state s m c) = Ok s1 ∧ _do_wb_flush fl s1 = Ok s2 ∧
    wb_flush_size s2 = wb_flush_size s ∧ requests s2 = requests s ∧ write_buffer s2 = [] ∧
    ∃ n' left' bits' dev' rs' M' used' T' K', settled s2 n' left' bits' dev' rs' M' used' T' K' ∧ buffered s2 ∅ ∧ slack <= n' ∧
      left - wb_flush_size s <= left' ∧ ∀ k, K' !! k = (W ∪ K) !! k.
Proof.
  intros Hs Hb Hfull Hleft Hsl Hn Hf. pose proof (st_wb _ _ _ _ _ _ _ _ _ _ _ _ _ Hs) as Hwb. pose proof Hfull as Elen. apply Z.eqb_eq in Elen.
  destruct (assign_ok s n left bits dev rs M used T K W Hs Hb Hfull Hleft)
    as (m & c & fl & left' & bits' & E1 & Ht & Ec & Hl' & Hnd & Hfl & Hlen & Hkeep & Hplace & Hinj).
  assert (Hnew : ∀ q, q ∈ (list_to_set (fl_ppa <$> fl) : gset Z) → dev q = None).
  { intros q (nd & -> & Hin)%elem_of_list_to_set%list_elem_of_fmap. by apply Hfl. }
  assert (Hmono : ∀ q p, dev q = Some p → after fl dev q = Some p).
  { intros q p Hq. rewrite after_out; [done|]. intros Hx. rewrite Hnew in Hq; [done|]. by apply elem_of_list_to_set. }
  assert (Hval : ∀ e, e ∈ write_buffer s → vgood (key_of s e) (value_of s e) ∧ on (after fl dev) (place_of m e) (value_of s e) ∧
    G_IDX (place_of m e) ∈ (list_to_set (fl_ppa <$> fl) : gset Z) ∧ key_of s e ∈ Us).
  { intros e He. destruct (value_of_entry s W e Hb He) as (x & _ & _ & H1 & H2 & _), (Hplace e He) as (H3 & _ & H4 & _).
    split; [done|]. split; [done|]. split; [by apply elem_of_list_to_set|done]. }
  destruct (st_master _ _ _ _ _ _ _ _ _ _ _ _ _ Hs) as (cap & Hq & Hcap).
  destruct (mapping_update_ok nr B Us dev (after fl dev) (list_to_set (fl_ppa <$> fl)) left' slack (write_buffer s) (key_of s) (value_of s)
    (place_of m) K (requests s) Hnr HB Hroom Hsl Hmono Hnew Hval (λ e e', key_of_inj s W e e' Hb) Hinj fuel (placed_state s m c) bits' rs M n used T cap)
    as (s1 & bits1 & rs1 & M1 & n1 & used1 & U & T1 & K1 & E2 & Hm1 & Hj1 & Hn1 & Hq1).
  - apply (start_mid s n left bits dev rs M used T K W m c fl left' bits' Hs Hb Hfull Ht Ec Hmono Hlen Hkeep).
    intros e He. destruct (Hplace e He) as (_ & H1 & _ & H2). done.
  - cbn. rewrite Ec. apply (st_idle _ _ _ _ _ _ _ _ _ _ _ _ _ Hs).
  - done.
  - lia.
  - intros e [x Hx]%(bf_dom _ _ Hb). unfold cnt. rewrite placed_entry, Hx. cbn. by destruct (bf_entry _ _ Hb e x Hx) as (v & _ & _ & _ & _ & _ & H & _).
  - lia.
  - lia.
  - destruct (written_settled s1 n1 left' dev fl (write_buffer s) (key_of s) (value_of s) (place_of m) K (requests s) bits1 rs1 M1 used1 U T1 K1 Hm1 Hj1 Hq1)
      as (s2 & E3 & Hs2 & Hb2 & Ew & Er & Eb); [lia|done|done|].
    exists m, c, fl, s1, s2. split; [done|]. split; [done|]. split; [done|]. pose proof (md_frame _ _ _ _ _ _ _ _ _ _ _ _ _ _ _ _ _ _ _ _ _ _ _ _ _ Hm1) as (Ew1 & _).
    split; [lia|]. split; [done|]. split; [done|]. exists n1, left', bits1, (after fl dev), rs1, M1, used1, T1, K1. split; [done|]. split; [done|].
    split; [done|]. split; [done|]. intros k. destruct (W !! k) as [v|] eqn:Hk.
    + rewrite (lookup_union_Some_l _ _ _ _ Hk). destruct (bf_W _ _ Hb k v Hk) as (e & x & Hx & Ek).
      assert (He : e ∈ write_buffer s) by (apply (bf_dom _ _ Hb); by rewrite Hx).
      destruct (value_of_entry s W e Hb He) as (x' & Hx' & Ex' & _ & _ & HW). rewrite Hx in Hx'. injection Hx' as <-.
      rewrite Ex', Ek, Hk in HW. rewrite <-Ek, <-Ex'. rewrite HW.
      apply (md_done _ _ _ _ _ _ _ _ _ _ _ _ _ _ _ _ _ _ _ _ _ _ _ _ _ Hm1 e He). apply not_elem_of_nil.
    + rewrite lookup_union_r by done. apply (md_kept _ _ _ _ _ _ _ _ _ _ _ _ _ _ _ _ _ _ _ _ _ _ _ _ _ Hm1). intros e He _ Ek.
      destruct (value_of_entry s W e Hb He) as (x & _ & _ & _ & _ & HW). congruence.
Qed.

(** *** Writes *)

Lemma parts_le {A} (P P' : A → Prop) `{!∀ x, Decision (P x), !∀ x, Decision (P' x)} (l : list A) : (∀ x, P x → P' x → False) →
  (length (filter P l) + length (filter P' l) <= length l)%nat.
Proof. intros Hd. induction l as [|x l IH]; [done|]. rewrite !filter_cons. repeat case_decide; simpl; first [lia|naive_solver]. Qed.

Lemma order_zero s W k e : buffered s W → key_wf k → e ∈ write_buffer s → ∃ x, entries s !! e = Some x ∧ (wb_order s k e = 0 ↔ be_key x = k).
Proof.
  intros Hb Hk [x Hx]%(bf_dom _ _ Hb). exists x. split; [done|]. unfold wb_order. rewrite Hx. destruct (bf_entry _ _ Hb e x Hx) as (v & _ & _ & Hv & _).
  apply (cmp_eq (cmp:=KEYCMP)); [apply Hv|done].
Qed.

Lemma find_spec s W k : buffered s W → key_wf k →
  match skiplist_find s k with
  | Some e => ∃ x, e ∈ write_buffer s ∧ entries s !! e = Some x ∧ be_key x = k
  | None => W !! k = None ∧ ∀ e, e ∈ write_buffer s → wb_order s k e ≠ 0
  end.
Proof.
  intros Hb Hk. unfold skiplist_find. destruct (filter _ _) as [|e l] eqn:Ef; cbn.
  - assert (Hno : ∀ e, e ∈ write_buffer s → wb_order s k e ≠ 0).
    { intros e He Hz. assert (Hin : e ∈ filter (λ e, wb_order s k e = 0) (write_buffer s)) by (by apply list_elem_of_filter). rewrite Ef in Hin. by apply elem_of_nil in Hin. }
    split; [|done]. destruct (W !! k) as [v|] eqn:HW; [|done]. destruct (bf_W _ _ Hb k v HW) as (e & x & Hx & Ek).
    assert (He : e ∈ write_buffer s) by (apply (bf_dom _ _ Hb); by rewrite Hx). destruct (order_zero s W k e Hb Hk He) as (x' & Hx' & Hz).
    rewrite Hx in Hx'. injection Hx' as <-. by destruct (Hno e He); apply Hz.
  - assert (Hin : e ∈ filter (λ e, wb_order s k e = 0) (write_buffer s)) by (rewrite Ef; apply list_elem_of_here).
    apply list_elem_of_filter in Hin as [Hz He]. destruct (order_zero s W k e Hb Hk He) as (x & Hx & Hzz). exists x. split; [done|]. split; [done|]. by apply Hzz.
Qed.

Lemma insert_ok s W k h v : buffered s W → vgood k (Skiplist.bytes v) → Skiplist.vlength (Skiplist.in_pieces v) = vlen (Skiplist.bytes v) → k ∈ Us →
  hp_hash h = key_hash (key k) → hp_cnt h = 0 →
  ∃ rc m es, _do_wb_insert s k h v = Ok (rc, with_buffer m es s) ∧ buffered (with_buffer m es s) (<[k := Skiplist.bytes v]> W) ∧
    (length es <= S (length (write_buffer s)))%nat.
Proof.
  intros Hb Hv Hlen Hk Hh Hc. unfold _do_wb_insert. pose proof (find_spec s W k Hb (vg_key _ _ Hv)) as Hf.
  set (bs := Skiplist.bytes v) in *. change (Skiplist.bytes (Skiplist.in_pieces v)) with bs. rewrite Hlen.
  destruct (skiplist_find s k) as [e|].
  - destruct Hf as (x & He & Hx & Ek). rewrite Hx. cbn [deref]. rbind. destruct (bf_entry _ _ Hb e x Hx) as (v0 & Hv0 & _). rewrite Hv0. cbn [deref]. rbind.
    eexists _, _, _. split; [done|]. split; [|lia]. destruct Hb. constructor; cbn [with_buffer entries write_buffer]; [done|..].
    + intros e'. rewrite bf_dom0, lookup_insert. case_decide; [subst; by rewrite Hx|done].
    + intros e' x'. destruct (decide (e = e')) as [<-|Hne].
      * rewrite lookup_insert_eq. intros [= <-]. exists bs. cbn. rewrite Ek, lookup_insert_eq. done.
      * rewrite lookup_insert_ne by done. intros Hx'. destruct (bf_entry0 e' x' Hx') as (v' & H1 & H2 & H3 & H4 & H5 & H6 & H7). exists v'.
        rewrite lookup_insert_ne; [done|]. intros ->. apply Hne. by eapply bf_inj0.
    + intros e1 e2 x1 x2 H1 H2 Ekk. assert (Hsame : ∀ e' y, <[e:=BEntry (be_key x) h (WEnt (vlen bs) (Some bs) (be_ppa x))]> (entries s) !! e' = Some y →
        ∃ y', entries s !! e' = Some y' ∧ be_key y' = be_key y).
      { intros e' y. rewrite lookup_insert. case_decide; [subst; intros [= <-]; by exists x|intros Hy; by exists y]. }
      apply Hsame in H1 as (y1 & H1 & E1), H2 as (y2 & H2 & E2). eapply bf_inj0; [exact H1|exact H2|congruence].
    + intros k' v'. destruct (decide (k = k')) as [<-|Hne].
      * intros _. exists e. eexists. rewrite lookup_insert_eq. split; [done|]. done.
      * rewrite lookup_insert_ne by done. intros (e' & x' & Hx' & Ek')%bf_W0. exists e', x'. rewrite lookup_insert_ne; [done|].
        intros <-. rewrite Hx in Hx'. injection Hx' as <-. congruence.
  - destruct Hf as [HW Hno]. set (e := malloc (entries s)). assert (Hfresh : entries s !! e = None) by (apply not_elem_of_dom, malloc_fresh).
    rbind. eexists _, _, _. split; [done|]. assert (Hpl : ∀ e', e' ∈ wb_place s k e ↔ e' = e ∨ e' ∈ write_buffer s).
    { intros e'. unfold wb_place. rewrite elem_of_app, elem_of_cons, !list_elem_of_filter. pose proof (Hno e'). split; [naive_solver|].
      intros [->|He']; [naive_solver|]. specialize (H He'). destruct (Z.lt_trichotomy (wb_order s k e') 0) as [|[|]]; naive_solver. }
    assert (Hen : e ∉ write_buffer s) by (intros He%(bf_dom _ _ Hb); rewrite Hfresh in He; by destruct He).
    split.
    + destruct Hb. constructor; cbn [with_buffer entries write_buffer].
      * unfold wb_place. apply NoDup_app. split; [by apply NoDup_filter|]. split.
        -- intros e' [H1 H2]%list_elem_of_filter [->|[H3 _]%list_elem_of_filter]%elem_of_cons; [done|lia].
        -- apply NoDup_cons. split; [by intros [_ ?]%list_elem_of_filter|by apply NoDup_filter].
      * intros e'. rewrite Hpl, bf_dom0, lookup_insert. case_decide; [subst; naive_solver|naive_solver].
      * intros e' x'. destruct (decide (e = e')) as [<-|Hne].
        -- rewrite lookup_insert_eq. intros [= <-]. exists bs. cbn. rewrite lookup_insert_eq. done.
        -- rewrite lookup_insert_ne by done. intros Hx'. destruct (bf_entry0 e' x' Hx') as (v' & H1 & H2 & H3 & H4 & H5 & H6 & H7). exists v'.
           rewrite lookup_insert_ne; [done|]. intros ->. congruence.
      * intros e1 e2 x1 x2. destruct (decide (e = e1)) as [<-|H1], (decide (e = e2)) as [<-|H2]; [done|..].
        -- rewrite lookup_insert_eq, lookup_insert_ne by done. intros [= <-] Hx2 Ekk. destruct (bf_entry0 e2 x2 Hx2) as (v' & _ & _ & _ & _ & _ & _ & H7). cbn in Ekk. congruence.
        -- rewrite lookup_insert_eq, lookup_insert_ne by done. intros Hx1 [= <-] Ekk. destruct (bf_entry0 e1 x1 Hx1) as (v' & _ & _ & _ & _ & _ & _ & H7). cbn in Ekk. congruence.
        -- rewrite !lookup_insert_ne by done. apply bf_inj0.
      * intros k' v'. destruct (decide (k = k')) as [<-|Hne].
        -- intros _. exists e. eexists. by rewrite lookup_insert_eq.
        -- rewrite lookup_insert_ne by done. intros (e' & x' & Hx' & Ek')%bf_W0. exists e', x'. rewrite lookup_insert_ne; [done|]. congruence.
    + unfold wb_place. rewrite length_app. simpl. pose proof (parts_le (λ x, wb_order s k x < 0) (λ x, 0 < wb_order s k x) (write_buffer s) ltac:(intros ? ? ?; cbn in *; lia)). lia.
Qed.

(** What is stored, with the pages that the entries of the buffer may still need set
    aside. *)
Definition holds s (n left : Z) (F : gmap str_key (list Z)) : Prop := ∃ n' left' bits dev rs M used T K W,
  settled s n' left' bits dev rs M used T K ∧ buffered s W ∧ F = W ∪ K ∧ Z.of_nat (length (write_buffer s)) <= wb_flush_size s ∧
  n + B * Z.of_nat (length (write_buffer s)) <= n' ∧ left + Z.of_nat (length (write_buffer s)) <= left'.

Lemma steady_buffer fy j a s n left bits dev rs M used T K m es :
  steady fy j a s n left bits dev rs M used T K → steady fy j a (with_buffer m es s) n left bits dev rs M used T K.
Proof. intros []. by constructor. Qed.

Definition good_value (k : str_key) (v : Skiplist.vset) : Prop :=
  vgood k (Skiplist.bytes v) ∧ Skiplist.vlength (Skiplist.in_pieces v) = vlen (Skiplist.bytes v) ∧ k ∈ Us.

Lemma write_buffered s n left bits dev rs M used T K W k h v :
  settled s n left bits dev rs M used T K → buffered s W → good_value k v → hp_hash h = key_hash (key k) → hp_cnt h = 0 →
  Z.of_nat (length (write_buffer s)) < wb_flush_size s → ∀ n' left', n' + B * (1 + Z.of_nat (length (write_buffer s))) <= n →
  left' + 1 + Z.of_nat (length (write_buffer s)) <= left →
  ∃ rc s', _do_wb_insert s k h v = Ok (rc, s') ∧ holds s' n' left' (<[k := Skiplist.bytes v]> (W ∪ K)) ∧
    requests s' = requests s ∧ wb_flush_size s' = wb_flush_size s.
Proof.
  intros Hs Hb (Hv & Hl & Hk) Hh Hc Hlt n' left' Hn Hle. destruct (insert_ok s W k h v Hb Hv Hl Hk Hh Hc) as (rc & m & es & -> & Hb' & Hes).
  exists rc, (with_buffer m es s). split; [done|]. split; [|done].
  exists n, left, bits, dev, rs, M, used, T, K, (<[k := Skiplist.bytes v]> W). split; [by apply steady_buffer|]. split; [done|].
  split; [by rewrite insert_union_l|]. cbn [with_buffer write_buffer wb_flush_size]. split; [lia|]. nia.
Qed.

Lemma write_ok fuel junk s n left F k v :
  holds s n left F → length junk = 64%nat → good_value k v → B <= n → 1 <= left → (4 * Z.to_nat B * Z.to_nat (wb_flush_size s) + 3 < fuel)%nat →
  ∃ rc s', demand_write fuel junk s k v = Ok (rc, s') ∧ holds s' (n - B) (left - 1) (<[k := Skiplist.bytes v]> F) ∧
    requests s' = requests s ∧ wb_flush_size s' = wb_flush_size s.
Proof.
  intros (n' & left' & bits & dev & rs & M & used & T & K & W & Hs & Hb & -> & Hlen & Hn & Hl) Hj Hv HBn Hl1 Hf. pose proof Hv as (Hvg & _).
  unfold demand_write. rewrite (make_hash_params_Ok junk k Hj (vg_key _ _ Hvg)). rbind. unfold __demand_write.
  destruct (wb_is_full s) eqn:Hfull.
  - pose proof Hfull as Efull. apply Z.eqb_eq in Efull.
    destruct (flush_ok fuel s n' left' n bits dev rs M used T K W Hs Hb Hfull) as (m & c & fl & s1 & s2 & E1 & E2 & E3 & Ew & Er & Eb & Hafter); [nia..|].
    rewrite E1. rbind. fold (placed_state s m c). rewrite E2. rbind. rewrite E3. rbind.
    destruct Hafter as (n2 & left2 & bits2 & dev2 & rs2 & M2 & used2 & T2 & K2 & Hs2 & Hb2 & Hn2 & Hl2 & HK).
    destruct (write_buffered s2 n2 left2 bits2 dev2 rs2 M2 used2 T2 K2 ∅ k (HParams (key_hash (key k)) 0 HASH_KEY_INITIAL 0) v Hs2 Hb2 Hv eq_refl eq_refl) with (n' := n - B) (left' := left - 1)
      as (rc & s' & E4 & Hh & Er' & Ew'); rewrite ?Eb; cbn [length]; [pose proof (st_wb _ _ _ _ _ _ _ _ _ _ _ _ _ Hs2); lia|lia|lia|].
    exists rc, s'. split; [exact E4|]. split; [|split; congruence]. rewrite (left_id_L ∅ _) in Hh. replace (W ∪ K) with K2 by (by apply map_eq). done.
  - apply Z.eqb_neq in Hfull. rbind. apply write_buffered with n' left' bits dev rs M used T; try done; lia.
Qed.

(** *** Frames *)

Lemma steady_c fy fy' j a s c n n' left bits dev rs rs' M used used' T K :
  steady fy j a s n left bits dev rs M used T K → rests (Kept bits dev ∅ left) c rs' M n' used' fy' [] → env c = env (r_c s) →
  steady fy' (jumps c) (assigned c) (with_c c s) n' left bits dev rs' M used' T K.
Proof. intros [] Hr Ee. constructor; cbn [with_c r_c max_try hash_table r_cnt w_cnt wb_flush_size wb_master_q]; try done. by rewrite Ee. Qed.

Lemma steady_request fy j a s n left bits dev rs M used T K r x :
  steady fy j a s n left bits dev rs M used T K → steady fy j a (with_request r x s) n left bits dev rs M used T K.
Proof. intros []. by constructor. Qed.

Lemma list_up_rc c lpa w rc c' : cg_list_up c lpa w = Ok (rc, c') → rc = 0 ∨ rc = 1.
Proof.
  unfold cg_list_up. intros E. apply res_bind_Ok in E as (m & _ & E). apply res_bind_Ok in E as ([rc1 c1] & E1 & E).
  apply res_bind_Ok in E as (c2 & _ & E). apply res_bind_Ok in E as ([p l] & _ & E). apply res_bind_Ok in E as (c3 & _ & E).
  apply res_bind_Ok in E as (c4 & _ & E). injection E as -> _. destruct (cg_is_full c); [|injection E1 as <- _; by left].
  apply res_bind_Ok in E1 as ([o l1] & _ & E1). apply res_bind_Ok in E1 as (v & _ & E1). unfold cg_evict in E1.
  apply res_bind_Ok in E1 as (m1 & _ & E1). apply res_bind_Ok in E1 as (c5 & _ & E1). destruct (decide _); [right|left; by injection E1].
  apply res_bind_Ok in E1 as (c6 & _ & E1). apply res_bind_Ok in E1 as ([[t q] ts] & _ & E1). apply res_bind_Ok in E1 as (ts' & _ & E1).
  apply res_bind_Ok in E1 as (c7 & _ & E1). apply res_bind_Ok in E1 as (c8 & _ & E1). apply res_bind_Ok in E1 as (q' & _ & E1). by injection E1.
Qed.

End store.

(** ** Reads *)

Section read.
Context `{Sg : Settings, !SettingsOk Sg} {Q Mp L Qw : Type} `{!FIFO Z Q} `{!IntMap loc Mp} `{!Lower L} `{!LowerOk L} `{!FIFO waiter Qw}.
#[local] Abbreviation cache := (cache (dpages Q Mp L) Qw).
#[local] Abbreviation rw := (@rw Q Mp L Qw).
Implicit Types (c : cache) (s : rw) (x : rreq) (p : Z).
Context (nr B : Z) (Us : gset str_key).
Hypothesis Hnr : 2 <= nr < 2 ^ 31.
Hypothesis HB : 1 <= B <= MAX_HASH_COLLISION.
Hypothesis Hroom : room nr B Us.

(** The request, its key, and what does not change while it is served. *)
Context (r : loc) (k : str_key) (left slack : Z) (bits : grain_bitmap) (dev : Z → option (list Z)) (M : Z → Z)
  (T : gmap Z str_key) (K W : gmap str_key (list Z)) (wbs mt : Z) (buf : list loc) (rqs : gmap loc rreq).
Hypothesis Hslack : 0 <= slack.
Hypothesis Hk : key_wf k.
Hypothesis HkU : k ∈ Us.

(** The request looks at probe [p]. *)
Definition looks p x : Prop :=
  rq_key x = k ∧ rq_state x = Pending ∧ length (value (rq_value x)) = Z.to_nat PAGESIZE ∧ dmatag (rq_value x) ≠ -1 ∧
  ∃ h, rq_h x = Some h ∧ hp_hash h = key_hash (key k) ∧ hp_cnt h = p.

(** The page of slot [lpa], with [v] where the mapping says. *)
Definition page_of (lpa : Z) (v : list Z) x : Prop := T !! lpa = Some k ∧ dev (G_IDX (M lpa)) = Some (value (rq_value x)) ∧
  G_OFFSET (M lpa) + vlen v <= GRAIN_PER_PAGE ∧ grains (value (rq_value x)) (G_OFFSET (M lpa)) (vlen v) = v.

(** The answer: a value of the write buffer is at the front of the request's buffer; with
    a value on the device the request has the whole page. *)
Definition holds_value (v : list Z) x : Prop := rq_state x = Ended ∧ length (value (rq_value x)) = Z.to_nat PAGESIZE ∧
  match W !! k with
  | Some _ => grains (value (rq_value x)) 0 (vlen v) = v
  | None => ∃ p, 0 <= p < B ∧ page_of (slot nr k p) v x
  end.
Definition answers (o : option (list Z)) x : Prop := match o with Some v => holds_value v x | None => rq_state x = NotFound end.

Record scene fy j a s (n : Z) rs used (P : rreq → Prop) : Prop := Scene {
  sc_st : steady nr B Us fy j a s n left bits dev rs M used T K;
  sc_b : buffered Us s W;
  sc_r : ∃ x, requests s !! r = Some x ∧ P x;
  sc_f : max_try s = mt ∧ wb_flush_size s = wbs ∧ write_buffer s = buf ∧ ∀ r', r' ≠ r → requests s !! r' = rqs !! r';
}.

Definition jump_at (ph : phase) : gmap waiter jump_t :=
  match ph with Listing => {[WReq r := GOTO_LIST]} | Listed => {[WReq r := GOTO_COMPLETE]} | _ => ∅ end.

Definition reading a ph p s : Prop := ∃ n rs used,
  scene (match ph with Listing => Some (IDX (slot nr k p)) | _ => None end) (jump_at ph) a s n rs used (looks p) ∧
  0 <= p ∧ others nr T k p ∧
  match ph with Start => True | Listing => p <= mt ∧ IDX (slot nr k p) ∉ rs | Listed => p <= mt ∧ IDX (slot nr k p) ∈ rs | Found => False end ∧
  slack + (B - p) <= n + match ph with Listed => 1 | _ => 0 end.

Definition effort ph p : nat := (4 * Z.to_nat (B - p) + rank ph)%nat.
Definition over (P : rreq → Prop) s : Prop := ∃ n rs used, scene None ∅ [] s n rs used P ∧ slack <= n.

(** What a step of the read returns. *)
Definition result (f : nat) (rc : Z) s : Prop :=
  (rc = UINT32_MAX ∧ (W ∪ K) !! k = None ∧ over (λ x, rq_key x = k) s) ∨
  (rc ≠ UINT32_MAX ∧ (over (λ x, rq_key x = k ∧ answers ((W ∪ K) !! k) x) s ∨ ∃ ph p, (effort ph p < f)%nat ∧ reading [r] ph p s)).

Lemma result_mono f f' rc s : result f rc s → (f <= f')%nat → result f' rc s.
Proof.
  intros [H|(H & [Ho|(ph & p & Hf & Hr)])] Hle; [by left|right..]; (split; [done|]); [by left|]. right. exists ph, p. split; [lia|done].
Qed.

Lemma scene_c fy fy' j j' a a' s c n n' rs rs' used used' P :
  scene fy j a s n rs used P → rests (Kept bits dev ∅ left) c rs' M n' used' fy' [] → env c = env (r_c s) →
  jumps c = j' → assigned c = a' → scene fy' j' a' (with_c c s) n' rs' used' P.
Proof. intros [? [] ? ?] Hr Ee <- <-. constructor; try done. by eapply steady_c. Qed.

Lemma scene_rests fy j a s n rs used P : scene fy j a s n rs used P →
  rests (Kept bits dev ∅ left) (r_c s) rs M n used fy [] ∧ jumps (r_c s) = j ∧ assigned (r_c s) = a.
Proof. by intros [[]]. Qed.

Lemma scene_request fy j a s n rs used (P P' : rreq → Prop) x : scene fy j a s n rs used P → P' x → scene fy j a (with_request r x s) n rs used P'.
Proof.
  intros [? [] ? (? & ? & ? & Hr)] Hx. constructor; try done; [by apply steady_request|..].
  - exists x. cbn. by rewrite lookup_insert_eq.
  - do 3 (split; [done|]). intros r' Hne. cbn. rewrite lookup_insert_ne by done. by apply Hr.
Qed.

Lemma scene_slot fy j a s n rs used P p : scene fy j a s n rs used P → 0 <= p → others nr T k p →
  p < B ∧ 0 <= slot nr k p < nr ∧ lpa_ok (r_c s) (slot nr k p).
Proof.
  intros [Hs _ _ _] Hp Ho. destruct (get_slot nr (HParams (key_hash (key k)) p HASH_KEY_INITIAL 0) k Hnr eq_refl) as [_ Hsl]. cbn [hp_cnt] in Hsl.
  split; [|split].
  - eapply probe_bound; [apply (st_tab _ _ _ _ _ _ _ _ _ _ _ _ _ _ _ _ Hs)|apply (st_dom _ _ _ _ _ _ _ _ _ _ _ _ _ _ _ _ Hs)|exact HkU|exact Hroom|lia|exact Ho].
  - lia.
  - unfold lpa_ok. rewrite (proj2 (st_env _ _ _ _ _ _ _ _ _ _ _ _ _ _ _ _ Hs)). lia.
Qed.

Lemma lookup_old : W !! k = None → (W ∪ K) !! k = K !! k.
Proof. apply lookup_union_r. Qed.

Lemma over_mono (P P' : rreq → Prop) s : over P s → (∀ x, P x → P' x) → over P' s.
Proof. intros (n & rs & used & [? ? (x & Hx & HP) ?] & Hn) H. exists n, rs, used. split; [|done]. constructor; try done. exists x. auto. Qed.

(** A value in the write buffer is copied to the front of the request's buffer. *)
Lemma wb_check_ok s n rs used v : scene None ∅ [] s n rs used (looks 0) → W !! k = Some v →
  ∃ x, do_wb_check s r = Ok (1, with_request r x s) ∧ rq_key x = k ∧ length (value (rq_value x)) = Z.to_nat PAGESIZE ∧ grains (value (rq_value x)) 0 (vlen v) = v.
Proof.
  intros Hs Hv. destruct (sc_r _ _ _ _ _ _ _ _ Hs) as (x & Hx & Hkx & Hst & Hvl & _). pose proof (sc_b _ _ _ _ _ _ _ _ Hs) as Hb.
  unfold do_wb_check. rewrite Hx. cbn [deref]. rbind. rewrite Hkx. pose proof (find_spec _ _ _ k Hb Hk) as Hf.
  destruct (skiplist_find s k) as [e|]; [|destruct Hf; congruence]. destruct Hf as (y & _ & Hy & Ey). rewrite Hy. cbn [deref]. rbind.
  destruct (bf_entry _ _ _ Hb e y Hy) as (v' & Hv1 & Hv2 & Hvg & _ & _ & _ & Hv3). rewrite Ey, Hv in Hv3. injection Hv3 as <-.
  rewrite Hv1, Hv2. cbn [deref]. rbind. destruct Hvg as [_ Hl Hr _]. unfold copy_value. cbn [value]. rewrite <-Hl, Nat2Z.id.
  assert (Hfit : (length v <= length (value (rq_value x)))%nat).
  { rewrite Hvl. change (Z.to_nat PAGESIZE) with (Z.to_nat (GRAIN_PER_PAGE * GRAINED_UNIT)). change GRAINED_UNIT with 512 in *. lia. }
  rewrite memcpy_all by lia. rbind. eexists. split; [done|]. split; [done|]. cbn [rq_value value]. split; [rewrite length_app, length_drop; lia|]. unfold grains. rewrite <-Hl, Nat2Z.id.
  change (Z.to_nat (0 * GRAINED_UNIT)) with 0%nat. by rewrite drop_0, take_app_length.
Qed.

Lemma read_buffered fuel junk s n rs used v : scene None ∅ [] s n rs used (looks 0) → slack <= n → W !! k = Some v →
  ∃ s', serve_read (S fuel) junk s r = Ok s' ∧ over (λ x, rq_key x = k ∧ answers (Some v) x) s'.
Proof.
  intros Hs Hn Hv. destruct (sc_r _ _ _ _ _ _ _ _ Hs) as (x & Hx & Hlk). pose proof Hlk as (Hkx & Hst & Hvl & Htag & h & Hhx & Hh & Hc).
  cbn [serve_read]. unfold demand_read, __demand_read. rewrite Hx. cbn [deref]. rbind. rewrite Hhx. rbind. rewrite Hx. cbn [deref]. rbind. rewrite Hhx. cbn [deref]. rbind.
  rewrite (proj1 (st_env _ _ _ _ _ _ _ _ _ _ _ _ _ _ _ _ (sc_st _ _ _ _ _ _ _ _ Hs))). destruct (get_slot nr h k Hnr Hh) as [-> _]. rbind. rewrite Hc. set (h' := HParams _ _ _ _).
  assert (Hs1 : scene None ∅ [] (with_request r (set_rq_h h' x) s) n rs used (looks 0)).
  { eapply scene_request; [exact Hs|]. split_and!; try done. by exists h'. }
  set (s1 := with_request r (set_rq_h h' x) s) in *. cbn [hp_cnt h']. destruct (scene_rests _ _ _ _ _ _ _ _ Hs1) as (_ & Ej & _).
  pose proof (tb_mt _ _ _ _ _ (st_tab _ _ _ _ _ _ _ _ _ _ _ _ _ _ _ _ (sc_st _ _ _ _ _ _ _ _ Hs1))) as Hmt.
  rewrite Z.gtb_ltb, (proj2 (Z.ltb_ge _ _)) by lia. rewrite Ej, lookup_empty.
  destruct (wb_check_ok s1 n rs used v Hs1 Hv) as (y & -> & Eky & Hyl & Hg). rbind. cbn [negb Z.eqb with_request requests]. rewrite lookup_insert_eq. cbn [deref]. rbind.
  change (1 =? UINT32_MAX) with false. cbv iota.
  assert (Ha : over (λ x, rq_key x = k ∧ answers (Some v) x) (with_request r (set_rq_state Ended y) (with_request r y s1))).
  { exists n, rs, used. split; [|done]. eapply (scene_request _ _ _ _ _ _ _ (λ _, True)); [by eapply scene_request|]. split; [done|]. split; [done|]. split; [done|]. by rewrite Hv. }
  eexists. split; [|exact Ha]. destruct Ha as (? & ? & ? & Hs' & _). apply scene_rests in Hs' as (_ & _ & Ea). cbn in Ea |- *. by rewrite Ea.
Qed.

Hypothesis HW : W !! k = None.

(** A free slot, or all slots looked at: the key is not stored. *)
Lemma free_slot fy j a s n rs used P p : scene fy j a s n rs used P → 0 <= p → others nr T k p → T !! slot nr k p = None → (W ∪ K) !! k = None.
Proof. intros [Hs _ _ _] Hp Ho HT. rewrite lookup_old by done. eapply table_absent; [apply (st_tab _ _ _ _ _ _ _ _ _ _ _ _ _ _ _ _ Hs)|exact Ho|done|done]. Qed.

Lemma all_tried fy j a s n rs used P p : scene fy j a s n rs used P → others nr T k p → max_try s < p → (W ∪ K) !! k = None.
Proof.
  intros [Hs _ _ _] Ho Hp. rewrite lookup_old by done. destruct (st_tab _ _ _ _ _ _ _ _ _ _ _ _ _ _ _ _ Hs) as [HT HK _ _].
  destruct (K !! k) eqn:E; [|done]. destruct (HK k) as (lpa & Hl); [by rewrite E|]. destruct (HT lpa k Hl) as (_ & c & Hc & _ & Hsl & _).
  destruct (Ho c) as (k' & Hk' & Hne); [lia|]. rewrite Hsl in Hk'. congruence.
Qed.

(** The key of slot [p] is compared with the request's. *)
Lemma end_req_read_ok s n rs used p k' v tag page : let off := G_OFFSET (M (slot nr k p)) in
  scene None ∅ [] s n rs used (looks p) → 0 <= p → others nr T k p → slack + (B - p) <= n + 1 → T !! slot nr k p = Some k' →
  K !! k' = Some v → vgood k' v → 0 <= off < GRAIN_PER_PAGE → dev (G_IDX (M (slot nr k p))) = Some page → off + vlen v <= GRAIN_PER_PAGE → grains page off (vlen v) = v → length page = Z.to_nat PAGESIZE → tag ≠ -1 →
  ∃ s', end_req_read s r (VS page tag) off = Ok s' ∧ result (effort Listed p) 0 s'.
Proof.
  intros off Hs Hp Ho Hn HT Hv Hvg Hoff Hpg Hfit Hg Hlen Htag. destruct (scene_slot _ _ _ _ _ _ _ _ _ Hs Hp Ho) as (HpB & _ & _).
  destruct (sc_r _ _ _ _ _ _ _ _ Hs) as (x & Hx & Hkx & Hst & _ & _ & h & Hhx & Hh & Hc). unfold end_req_read. rewrite Hx. cbn [deref]. rbind.
  rewrite Hhx. cbn [deref]. rbind. rewrite (key_at k' v page off tag Hvg (proj1 Hoff) Hg). rbind. rewrite Hkx.
  pose proof (cmp_eq (cmp:=KEYCMP) k k' Hk (vg_key _ _ Hvg)) as Hcmp. destruct (Z.eqb_spec (KEYCMP k k') 0) as [Hz|Hnz].
  - apply Hcmp in Hz. subst k'. rewrite Hc. pose proof (st_cnts _ _ _ _ _ _ _ _ _ _ _ _ _ _ _ _ (sc_st _ _ _ _ _ _ _ _ Hs)) as [Hrc Hwc].
    unfold hash_collision_logging. rewrite Z.gtb_ltb, (proj2 (Z.ltb_ge MAX_HASH_COLLISION p)), ca_get_in by lia. rbind. rewrite ca_set_in by lia. rbind.
    eexists. split; [done|]. right. split; [done|]. left. exists n, rs, used. split; [|lia]. rewrite lookup_old, Hv by done.
    assert (Hs' : scene None ∅ [] (with_request r (RReq k None (VS page tag) Ended) s) n rs used (λ x, rq_key x = k ∧ answers (Some v) x)).
    { eapply scene_request; [exact Hs|]. split; [done|]. split; [done|]. split; [done|]. rewrite HW. exists p. done. }
    destruct Hs' as [[] [] ? ?]. by constructor.
  - eexists. split; [done|]. right. split; [done|]. right. exists Start, (p + 1). split; [unfold effort; cbn [rank]; lia|].
    exists n, rs, used. split; [|split; [lia|split; [|split; [done|lia]]]].
    + assert (Hs' : scene None ∅ [] (with_request r (RReq k (Some (next_probe h)) (VS page tag) (rq_state x)) s) n rs used (looks (p + 1))).
      { eapply scene_request; [exact Hs|]. split_and!; try done. exists (next_probe h). cbn. split_and!; [done|done|lia]. }
      destruct (scene_rests _ _ _ _ _ _ _ _ Hs') as (Hr & Ej & Ea). eapply scene_c; [exact Hs'| |done|exact Ej|cbn; cbn in Ea; by rewrite Ea].
      destruct Hr as [[]]. by constructor.
    + intros p' Hp'. destruct (decide (p' = p)) as [->|]; [exists k'; split; [done|intros ->; by apply Hnz, Hcmp]|]. apply Ho. lia.
Qed.

Lemma scene_drop fy j s n rs used P : scene fy j [] s n rs used P → delete (WReq r) j = ∅ →
  scene fy ∅ [] (with_c (drop_jump (WReq r) (r_c s)) s) n rs used P.
Proof.
  intros Hs Hj. destruct (scene_rests _ _ _ _ _ _ _ _ Hs) as (Hr & Ej & Ea).
  eapply scene_c; [exact Hs|apply rests_jumps, Hr|done|cbn; by rewrite Ej|done].
Qed.

Lemma complete_ok s j n rs used p :
  scene None j [] s n rs used (looks p) → delete (WReq r) j = ∅ → 0 <= p → others nr T k p → IDX (slot nr k p) ∈ rs → slack + (B - p) <= n + 1 →
  ∃ rc s', rd_complete s r (slot nr k p) = Ok (rc, s') ∧ result (effort Listed p) rc s'.
Proof.
  intros Hs0 Hj Hp Ho Hin Hn. unfold rd_complete. set (s1 := with_c (drop_jump (WReq r) (r_c s)) s).
  assert (Hs : scene None ∅ [] s1 n rs used (looks p)).
  { by apply (scene_drop _ j). }
  clearbody s1. clear Hs0 Hj s j. pose proof (sc_st _ _ _ _ _ _ _ _ Hs) as Hst. pose proof (st_rests _ _ _ _ _ _ _ _ _ _ _ _ _ _ _ _ Hst) as Hr.
  destruct (scene_slot _ _ _ _ _ _ _ _ _ Hs Hp Ho) as (HpB & Hlr & Hl). set (lpa := slot nr k p) in *.
  rewrite (cg_get_pte_Ok (r_c s1) rs M n used lpa (cm_rep _ _ _ _ _ _ _ Hr) Hl). rbind. unfold read_actual_dpage.
  destruct (T !! lpa) as [k'|] eqn:HT.
  2: { rewrite (proj2 (st_M _ _ _ _ _ _ _ _ _ _ _ _ _ _ _ _ Hst lpa Hlr) HT). change (IS_INITIAL_PPA UINT32_MAX) with true. cbv iota.
       eexists _, _. split; [done|]. left. split; [done|]. split; [by eapply free_slot|]. apply (over_mono (looks p)); [|by intros x []].
       exists n, rs, used. split; [done|lia]. }
  destruct (st_on _ _ _ _ _ _ _ _ _ _ _ _ _ _ _ _ Hst lpa k' HT) as (_ & _ & v & Hv & Hvg & Hon).
  destruct (on_range dev (M lpa) v Hon) as (Hpr & Hor & _ & ->). destruct Hon as (_ & Hfit & page & Hpage & Hlen & Hg).
  destruct (sc_r _ _ _ _ _ _ _ _ Hs) as (x & Hx & Hlk). rewrite Hx. cbn [deref]. rbind. pose proof Hlk as (_ & _ & Hvl & Htag & _).
  destruct (read_known _ (pages (r_c s1)) n used DATAR (G_IDX (M lpa)) page (rq_value x) (rests_t _ _ _ _ _ _ _ _ Hr) Hpr Hpage Hvl Htag) as (l' & -> & Ht). rbind.
  pose proof (rests_pages _ _ _ _ _ _ _ _ _ _ _ Hr Ht) as Hr'. destruct (scene_rests _ _ _ _ _ _ _ _ Hs) as (_ & Ej & Ea).
  pose proof (scene_c _ None _ _ _ _ s1 _ _ n _ rs _ used _ Hs Hr' eq_refl Ej Ea) as Hs'.
  destruct (end_req_read_ok _ n rs used p k' v (dmatag (rq_value x)) page Hs' Hp Ho Hn HT Hv Hvg Hor Hpage Hfit Hg Hlen Htag) as (s2 & E2 & Hres).
  fold lpa in E2. rewrite E2. rbind. by eexists _, _.
Qed.

Lemma rd_list_up_ok s fy n rs used p :
  scene fy ∅ [] s n rs used (looks p) → fy = None ∨ fy = Some (IDX (slot nr k p)) → 0 <= p <= mt → others nr T k p → IDX (slot nr k p) ∉ rs →
  slack + (B - p) <= n → ∃ rc s', rd_list_up s r (slot nr k p) = Ok (rc, s') ∧ result (effort Listing p) rc s'.
Proof.
  intros Hs Hfy [Hp Hmt] Ho Hin Hn. destruct (scene_slot _ _ _ _ _ _ _ _ _ Hs Hp Ho) as (HpB & Hlr & Hl). set (lpa := slot nr k p) in *.
  destruct (scene_rests _ _ _ _ _ _ _ _ Hs) as (Hr & Ej & Ea).
  destruct (calm_list_up (r_c s) rs M n used fy lpa (WReq r) Hr Hfy Hl Hin) as (rc & c1 & c & n' & used' & E1 & E2 & Hn' & Hr' & Hout); [lia|].
  unfold rd_list_up. rewrite E1. rbind. rewrite E2. rbind.
  destruct (list_up_rc _ _ _ _ _ E1) as [-> | ->]; cbn [Z.eqb negb queued is_req] in *; destruct Hout as (Ee & Ej' & Ea').
  - destruct (complete_ok (with_c c s) ∅ n' (listed (max_cached_tpages (env (r_c s))) (IDX lpa) rs) used' p) as (rc & s' & Ec & Hres);
      [eapply scene_c; [exact Hs|exact Hr'|done|congruence|congruence]|apply delete_empty|done|done|apply list_elem_of_here|lia|].
    exists rc, s'. split; [exact Ec|]. eapply result_mono; [exact Hres|]. unfold effort. cbn [rank]. lia.
  - eexists _, _. split; [done|]. right. split; [done|]. right. exists Listed, p. split; [unfold effort; cbn [rank]; lia|].
    exists n', (listed (max_cached_tpages (env (r_c s))) (IDX lpa) rs), used'. split; [|split; [done|split; [done|split; [split; [done|apply list_elem_of_here]|lia]]]].
    eapply scene_c; [exact Hs|exact Hr'|done|by rewrite Ej', Ej|by rewrite Ea', Ea].
Qed.

Lemma rd_load_ok s n rs used p :
  scene None ∅ [] s n rs used (looks p) → 0 <= p <= mt → others nr T k p → IDX (slot nr k p) ∉ rs →
  slack + (B - p) <= n → ∃ rc s', rd_load s r (slot nr k p) = Ok (rc, s') ∧ result (effort Start p) rc s'.
Proof.
  intros Hs [Hp Hmt] Ho Hin Hn. destruct (scene_slot _ _ _ _ _ _ _ _ _ Hs Hp Ho) as (HpB & Hlr & Hl). set (lpa := slot nr k p) in *.
  destruct (scene_rests _ _ _ _ _ _ _ _ Hs) as (Hr & Ej & Ea). unfold rd_load.
  rewrite (calm_wait (r_c s) rs M n used [] lpa (WReq r) Hr Hl). rbind. cbn [negb Z.eqb].
  pose proof (calm_load (r_c s) rs M n used lpa (WReq r) Hr Hl Hin) as Hload. case_decide as Et.
  - rewrite Hload. rbind. rewrite (settle_none (r_c s) (cm_none _ _ _ _ _ _ _ Hr)). rbind. cbn [Z.eqb].
    eexists _, _. split; [done|]. rewrite with_c_same. left. split; [done|]. split; [|apply (over_mono (looks p)); [|by intros x []]; exists n, rs, used; split; [done|lia]].
    eapply free_slot; [exact Hs|done|done|]. apply (st_M _ _ _ _ _ _ _ _ _ _ _ _ _ _ _ _ (sc_st _ _ _ _ _ _ _ _ Hs) lpa Hlr).
    apply (cm_blank _ _ _ _ _ _ _ Hr lpa Hl). split; [done|]. destruct (state (ca_at (cmt (r_c s)) (IDX lpa))) eqn:Est; [done|].
    by destruct Hin; apply (cm_dirty _ _ _ _ _ _ _ Hr).
  - destruct Hload as (c1 & c & E1 & E2 & Hr' & Ee & Ej' & Ea'). rewrite E1. rbind. rewrite E2. rbind. cbn [Z.eqb].
    eexists _, _. split; [done|]. right. split; [done|]. right. exists Listing, p. split; [unfold effort; cbn [rank]; lia|].
    exists n, rs, used. split; [|split; [done|split; [done|split; [done|lia]]]].
    eapply scene_c; [exact Hs|exact Hr'|done|by rewrite Ej', Ej|by rewrite Ea', Ea].
Qed.

(** One call of [__demand_read]. *)
Lemma read_step s ph p : reading [] ph p s → ∃ rc s', __demand_read s r = Ok (rc, s') ∧ result (effort ph p) rc s'.
Proof.
  intros (n & rs & used & Hs0 & Hp & Ho & Hph & Hn). destruct (sc_r _ _ _ _ _ _ _ _ Hs0) as (x & Hx & Hlk).
  pose proof Hlk as (Hkx & Hst & Hvl & Htag & h & Hhx & Hh & Hc). destruct (scene_slot _ _ _ _ _ _ _ _ _ Hs0 Hp Ho) as (HpB & Hlr & Hl).
  unfold __demand_read. rewrite Hx. cbn [deref]. rbind. rewrite Hhx. cbn [deref]. rbind.
  rewrite (proj1 (st_env _ _ _ _ _ _ _ _ _ _ _ _ _ _ _ _ (sc_st _ _ _ _ _ _ _ _ Hs0))).
  destruct (get_slot nr h k Hnr Hh) as [-> _]. rbind. rewrite Hc. set (h' := HParams _ _ _ _).
  assert (Hs : scene (match ph with Listing => Some (IDX (slot nr k p)) | _ => None end) (jump_at ph) [] (with_request r (set_rq_h h' x) s) n rs used (looks p)).
  { eapply scene_request; [exact Hs0|]. split_and!; try done. by exists h'. }
  set (s1 := with_request r (set_rq_h h' x) s) in *. cbn [hp_cnt h'].
  destruct (scene_rests _ _ _ _ _ _ _ _ Hs) as (Hr & Ej & Ea). rewrite Z.gtb_ltb. destruct (Z.ltb_spec (max_try s1) p) as [Hmt|Hmt].
  { rewrite (proj1 (sc_f _ _ _ _ _ _ _ _ Hs)) in Hmt. destruct ph; [|lia..|done].
    eexists _, _. split; [done|]. left. split; [done|]. split; [eapply all_tried; [exact Hs|done|]|].
    { by rewrite (proj1 (sc_f _ _ _ _ _ _ _ _ Hs)). }
    apply (over_mono (looks p)); [|by intros y []]. exists n, rs, used. split; [exact Hs|lia]. }
  rewrite (proj1 (sc_f _ _ _ _ _ _ _ _ Hs)) in Hmt. rewrite Ej. destruct ph; cbn [jump_at] in *; rewrite ?lookup_empty, ?lookup_singleton_eq; [..|done].
  - assert (Hwb : do_wb_check s1 r = Ok (0, s1)).
    { assert (Hx1 : requests s1 !! r = Some (set_rq_h h' x)) by apply lookup_insert_eq. unfold do_wb_check. rewrite Hx1. cbn [deref]. rbind. cbn [set_rq_h rq_key]. rewrite Hkx.
      pose proof (find_spec _ _ _ k (sc_b _ _ _ _ _ _ _ _ Hs) Hk) as Hf. destruct (skiplist_find s1 k) as [e|]; [|done].
      destruct Hf as (y & _ & Hy & Ey). destruct (bf_entry _ _ _ (sc_b _ _ _ _ _ _ _ _ Hs) e y Hy) as (v & _ & _ & _ & _ & _ & _ & Hv). congruence. }
    rewrite Hwb. rbind. cbn [negb Z.eqb]. destruct (calm_hit (r_c s1) rs M n used None [] (slot nr k p) Hr Hl) as (c & -> & Hrc & Ee & Ejc & Eac). rbind.
    case_bool_decide as Hin.
    + destruct (calm_touch c rs M n used None [] (slot nr k p) Hrc) as (c2 & E2 & Hr2 & Ee2 & Ej2 & Ea2); [unfold lpa_ok in *; by rewrite Ee|].
      cbn [with_c r_c]. rewrite E2. rbind. destruct (complete_ok (with_c c2 s1) ∅ n (to_front (IDX (slot nr k p)) rs) used p) as (rc & s' & Ec & Hres);
        [eapply scene_c; [exact Hs|exact Hr2|congruence|congruence|congruence]|apply delete_empty|done|done|by apply to_front_elem|lia|].
      exists rc, s'. split; [exact Ec|]. eapply result_mono; [exact Hres|]. unfold effort. cbn [rank]. lia.
    + apply (rd_load_ok (with_c c s1) n rs used p); [eapply scene_c; [exact Hs|exact Hrc|done|congruence|congruence]|done|done|done|lia].
  - destruct Hph as [_ Hin]. apply (rd_list_up_ok _ (Some (IDX (slot nr k p))) n rs used p); [|by right|done|done|done|lia].
    apply (scene_drop _ {[WReq r := GOTO_LIST]}); [done|apply delete_singleton_eq].
  - destruct Hph as [_ Hin]. apply (complete_ok _ ∅ n rs used p); [|apply delete_empty|done|done|done|lia].
    apply (scene_drop _ {[WReq r := GOTO_COMPLETE]}); [done|apply delete_singleton_eq].
Qed.

(** *** The whole read *)

Context (junk : list Z).

Definition answered s : Prop := over (λ x, rq_key x = k ∧ answers ((W ∪ K) !! k) x) s.

Lemma over_assigned P s : over P s → assigned (r_c s) = [].
Proof. intros (n & rs & used & Hs & _). by apply scene_rests in Hs as (_ & _ & ->). Qed.

Lemma serve_ok fuel : ∀ ph p s, reading [] ph p s → (effort ph p < fuel)%nat → ∃ s', serve_read fuel junk s r = Ok s' ∧ answered s'.
Proof.
  induction fuel as [|fuel IH]; intros ph p s Hrd Hf; [lia|]. cbn [serve_read].
  assert (Hreq : ∃ x h, requests s !! r = Some x ∧ rq_h x = Some h).
  { destruct Hrd as (n & rs & used & Hs & _). destruct (sc_r _ _ _ _ _ _ _ _ Hs) as (x & Hx & _ & _ & _ & _ & h & Hh & _). by exists x, h. }
  destruct Hreq as (x & h & Hx & Hh). unfold demand_read. rewrite Hx. cbn [deref]. rbind. rewrite Hh. rbind.
  destruct (read_step s ph p Hrd) as (rc & s1 & -> & Hres). rbind. destruct Hres as [(-> & Hno & Hov)|(Hrc & [Hov|(ph' & p' & Hlt & Hrd')])].
  - change (UINT32_MAX =? UINT32_MAX) with true. cbv iota. destruct Hov as (n & rs & used & Hs & Hn).
    destruct (sc_r _ _ _ _ _ _ _ _ Hs) as (y & Hy & Ey). rewrite Hy. cbn [deref]. rbind.
    assert (Ha : answered (with_request r (set_rq_state NotFound y) s1)).
    { exists n, rs, used. split; [|done]. eapply scene_request; [exact Hs|]. by rewrite Hno. }
    rewrite (over_assigned _ _ Ha). by eexists.
  - rewrite (proj2 (Z.eqb_neq _ _) Hrc). rbind. rewrite (over_assigned _ _ Hov). by eexists.
  - rewrite (proj2 (Z.eqb_neq _ _) Hrc). rbind. destruct Hrd' as (n & rs & used & Hs & Hrest). destruct (scene_rests _ _ _ _ _ _ _ _ Hs) as (Hr & Ej & Ea).
    rewrite Ea. apply (IH ph' p'); [|lia]. exists n, rs, used. split; [|done].
    eapply scene_c; [exact Hs| |done|exact Ej|done]. destruct Hr as [[]]. by constructor.
Qed.

End read.

(** ** The store as a map *)

Section map.
Context `{Sg : Settings, !SettingsOk Sg} {Q Mp L Qw : Type} `{!FIFO Z Q} `{!IntMap loc Mp} `{!Lower L} `{!LowerOk L} `{!FIFO waiter Qw}.
#[local] Abbreviation cache := (cache (dpages Q Mp L) Qw).
#[local] Abbreviation rw := (@rw Q Mp L Qw).
Implicit Types (c : cache) (s : rw) (x : rreq) (F : gmap str_key (list Z)).

Lemma serve_first fuel junk s r x : requests s !! r = Some x → rq_h x = None → length junk = 64%nat → key_wf (rq_key x) →
  serve_read (S fuel) junk s r = serve_read (S fuel) junk (with_request r (set_rq_h (HParams (key_hash (key (rq_key x))) 0 HASH_KEY_INITIAL 0) x) s) r.
Proof.
  intros Hx Hh Hj Hk. cbn [serve_read]. unfold demand_read. rewrite Hx. cbn [deref]. rbind. rewrite Hh, (make_hash_params_Ok junk _ Hj Hk). rbind.
  set (s1 := with_request _ _ _). assert (Hx1 : requests s1 !! r = Some (set_rq_h (HParams (key_hash (key (rq_key x))) 0 HASH_KEY_INITIAL 0) x)) by apply lookup_insert_eq.
  by rewrite Hx1.
Qed.

Context (nr B : Z) (Us : gset str_key).
Hypothesis Hnr : 2 <= nr < 2 ^ 31.
Hypothesis HB : 1 <= B <= MAX_HASH_COLLISION.
Hypothesis Hroom : room nr B Us.

(** How a read of [k] ends in the state [s] after it. A value that is in the write buffer
    is at the front of the request's buffer. For a value on the device the buffer is the
    whole page that the mapping names for a slot of the key, and the value is at the
    offset in the mapping, which the request is not told. *)
Definition located s (k : str_key) (v : list Z) x : Prop := rq_state x = Ended ∧ length (value (rq_value x)) = Z.to_nat PAGESIZE ∧
  match skiplist_find s k with
  | Some _ => grains (value (rq_value x)) 0 (vlen v) = v
  | None => ∃ p pga, 0 <= p < B ∧ cg_get_pte (r_c s) (slot nr k p) = Ok pga ∧ low_page (dp_li (pages (r_c s))) (G_IDX pga) = Some (value (rq_value x)) ∧
      G_OFFSET pga + vlen v <= GRAIN_PER_PAGE ∧ grains (value (rq_value x)) (G_OFFSET pga) (vlen v) = v
  end.
Definition ends s (k : str_key) (o : option (list Z)) x : Prop := match o with Some v => located s k v x | None => rq_state x = NotFound end.

Lemma ends_ok s n left bits dev rs M used T K W k o x : steady nr B Us None ∅ [] s n left bits dev rs M used T K → buffered Us s W → key_wf k →
  answers nr B k dev M T W o x → ends s k o x.
Proof.
  intros Hs Hb Hk. destruct o as [v|]; [|done]. intros (H1 & H2 & H3). split; [done|]. split; [done|]. pose proof (find_spec _ _ _ k Hb Hk) as Hf.
  destruct (skiplist_find s k) as [e|]; [destruct Hf as (y & _ & Hy & <-); destruct (bf_entry _ _ _ Hb e y Hy) as (v' & _ & _ & _ & _ & _ & _ & Hv); by rewrite Hv in H3|].
  rewrite (proj1 Hf) in H3. destruct H3 as (p & Hp & HT & Hd & Ho & Hg). exists p, (M (slot nr k p)). split; [done|].
  destruct (st_on _ _ _ _ _ _ _ _ _ _ _ _ _ _ _ _ Hs _ _ HT) as (Hl & _). pose proof (st_rests _ _ _ _ _ _ _ _ _ _ _ _ _ _ _ _ Hs) as Hr.
  split; [apply (cg_get_pte_Ok (r_c s) rs M n used _ (cm_rep _ _ _ _ _ _ _ Hr)); unfold lpa_ok; rewrite (proj2 (st_env _ _ _ _ _ _ _ _ _ _ _ _ _ _ _ _ Hs)); lia|].
  destruct (rests_t _ _ _ _ _ _ _ _ Hr) as (t & d & _ & _ & _ & Hpg). split; [by apply (po_dev _ _ _ Hpg)|done].
Qed.

Lemma read_ok fuel junk s n left F r x :
  holds nr B Us s n left F → length junk = 64%nat → key_wf (rq_key x) → rq_key x ∈ Us → B <= n → (4 * Z.to_nat B + 3 < fuel)%nat → 
  requests s !! r = Some x → rq_h x = None → rq_state x = Pending → length (value (rq_value x)) = Z.to_nat PAGESIZE → dmatag (rq_value x) ≠ -1 →
  ∃ s' x', serve_read fuel junk s r = Ok s' ∧ holds nr B Us s' (n - B) left F ∧ requests s' !! r = Some x' ∧ rq_key x' = rq_key x ∧
    ends s' (rq_key x) (F !! rq_key x) x' ∧ wb_flush_size s' = wb_flush_size s.
Proof.
  intros (n' & left' & bits & dev & rs & M & used & T & K & W & Hs & Hb & -> & Hlen & Hn & Hl) Hj Hk HkU HBn Hf Hx Hh Hst Hvl Htag.
  destruct fuel as [|fuel]; [lia|]. rewrite (serve_first fuel junk s r x Hx Hh Hj Hk). set (h := HParams _ _ _ _). set (k := rq_key x) in *.
  set (slack := n - B + B * Z.of_nat (length (write_buffer s))). assert (Hslack : 0 <= slack) by (unfold slack; nia).
  set (s1 := with_request r (set_rq_h h x) s).
  assert (Hsc : scene nr B Us r left' bits dev M T K W (wb_flush_size s) (max_try s) (write_buffer s) (requests s) None ∅ [] s1 n' rs used (looks k 0)).
  { constructor; [by apply steady_request|by destruct Hb| |].
    - exists (set_rq_h h x). split; [apply lookup_insert_eq|]. split_and!; try done. by exists h.
    - do 3 (split; [done|]). intros r' Hne. cbn. by rewrite lookup_insert_ne. }
  assert (Hfin : ∃ s', serve_read (S fuel) junk s1 r = Ok s' ∧ answered nr B Us r k left' slack bits dev M T K W (wb_flush_size s) (max_try s) (write_buffer s) (requests s) s').
  { unfold answered. destruct (W !! k) as [v|] eqn:HW.
    - rewrite (lookup_union_Some_l _ _ _ _ HW). eapply read_buffered; [done|done|exact Hsc|unfold slack; lia|done].
    - eapply serve_ok with (ph := Start) (p := 0); [done..| |unfold effort; cbn [rank]; lia].
      exists n', rs, used. split; [exact Hsc|]. split; [lia|]. split; [intros c' Hc'; lia|]. split; [done|unfold slack; lia]. }
  destruct Hfin as (s' & E & n2 & rs2 & used2 & [Hs2 Hb2 (x' & Hx' & Ek & Ha) (_ & Ew & Eb & _)] & Hn2). exists s', x'. split; [exact E|].
  split; [|split; [done|split; [done|split; [by eapply ends_ok|done]]]]. exists n2, left', bits, dev, rs2, M, used2, T, K, W. split; [done|]. split; [done|]. split; [done|]. rewrite Ew, Eb.
  split; [done|]. split; [unfold slack in Hn2; lia|done].
Qed.

(** *** Runs *)

(** A request of the interface: a write, or a read into a fresh buffer. *)
Inductive operation := Put (k : str_key) (v : Skiplist.vset) | Get (k : str_key).
Definition op_key (o : operation) : str_key := match o with Put k _ => k | Get k => k end.

Definition get (fuel : nat) (junk : list Z) s (k : str_key) : res (rreq * rw) :=
  v ← inf_get_valueset true None FS_MALLOC_R PAGESIZE;
  let r := malloc (requests s) in
  s ← serve_read fuel junk (with_request r (RReq k None v Pending) s) r;
  x ← deref (requests s !! r);
  Ok (x, s).

(** The requests that were read, each as it ended and with the state after it. *)
Fixpoint run (fuel : nat) (junk : list Z) s (os : list operation) : res (list (rreq * rw) * rw) :=
  match os with
  | [] => Ok ([], s)
  | Put k v :: os => '(_, s) ← demand_write fuel junk s k v; run fuel junk s os
  | Get k :: os => '(x, s1) ← get fuel junk s k; '(xs, s) ← run fuel junk s1 os; Ok ((x, s1) :: xs, s)
  end.

(** What a map answers. *)
Fixpoint expected F (os : list operation) : list (str_key * option (list Z)) :=
  match os with
  | [] => []
  | Put k v :: os => expected (<[k := Skiplist.bytes v]> F) os
  | Get k :: os => (k, F !! k) :: expected F os
  end.
Definition agrees (a : str_key * option (list Z)) (y : rreq * rw) : Prop := rq_key y.1 = a.1 ∧ ends y.2 a.1 a.2 y.1.

(** With values of whole pages the buffer of the request is the value itself. *)
Definition exact (a : str_key * option (list Z)) (y : rreq * rw) : Prop :=
  rq_key y.1 = a.1 ∧ match a.2 with Some v => rq_state y.1 = Ended ∧ value (rq_value y.1) = v | None => rq_state y.1 = NotFound end.
Definition whole_page (o : operation) : Prop := match o with Put _ v => vlen (Skiplist.bytes v) = GRAIN_PER_PAGE | Get _ => True end.

Lemma grains_whole (page : list Z) : length page = Z.to_nat PAGESIZE → grains page 0 GRAIN_PER_PAGE = page.
Proof. intros Hl. unfold grains. change (Z.to_nat (0 * GRAINED_UNIT)) with 0%nat. rewrite drop_0. apply take_ge. by rewrite Hl. Qed.

Lemma agrees_exact a y : (∀ v, a.2 = Some v → vlen v = GRAIN_PER_PAGE) → agrees a y → exact a y.
Proof.
  destruct a as [k [v|]]; [|done]. intros Hv [Hk (He & Hl & Hloc)]. split; [done|]. split; [done|]. rewrite (Hv v eq_refl) in Hloc. cbn [fst snd] in *.
  destruct (skiplist_find _ k); [by rewrite (grains_whole _ Hl) in Hloc|]. destruct Hloc as (p & pga & _ & _ & _ & Ho & Hg).
  assert (Hz : G_OFFSET pga = 0) by (unfold G_OFFSET in *; pose proof (Z.mod_pos_bound pga GRAIN_PER_PAGE ltac:(done)); lia). by rewrite Hz, (grains_whole _ Hl) in Hg.
Qed.

Lemma expected_whole os : ∀ F, Forall whole_page os → (∀ k v, F !! k = Some v → vlen v = GRAIN_PER_PAGE) →
  Forall (λ a : str_key * option (list Z), ∀ v, a.2 = Some v → vlen v = GRAIN_PER_PAGE) (expected F os).
Proof.
  induction os as [|[k v|k] os IH]; intros F Hos HF; cbn [expected]; [by apply Forall_nil|..]; apply Forall_cons in Hos as [Ho Hos].
  - apply IH; [done|]. intros k' v'. destruct (decide (k = k')) as [<-|]; [rewrite lookup_insert_eq; by intros [= <-]|rewrite lookup_insert_ne by done; apply HF].
  - apply Forall_cons. split; [intros v Hv; exact (HF k v Hv)|by apply IH].
Qed.

Lemma run_exact os xs : Forall whole_page os → Forall2 agrees (expected ∅ os) xs → Forall2 exact (expected ∅ os) xs.
Proof.
  intros Hos Hxs. pose proof (expected_whole os ∅ Hos ltac:(intros k v; by rewrite lookup_empty)) as Hall.
  induction Hxs as [|a y l l' Hay _ IH]; [by apply Forall2_nil|]. apply Forall_cons in Hall as [Ha Hl]. apply Forall2_cons. split; [by apply agrees_exact|by apply IH].
Qed.

(** Values are whole grains with their key in front. *)
Definition op_ok (o : operation) : Prop :=
  match o with
  | Put k v => vgood k (Skiplist.bytes v) ∧ Skiplist.vlength (Skiplist.in_pieces v) = vlen (Skiplist.bytes v)
  | Get k => key_wf k
  end.
Definition puts (os : list operation) : Z := foldr (λ o n, match o with Put _ _ => n + 1 | Get _ => n end) 0 os.

Lemma puts_nonneg os : 0 <= puts os.
Proof. unfold puts. induction os as [|[] os]; cbn; lia. Qed.

Lemma get_ok fuel junk s n left F k :
  holds nr B Us s n left F → length junk = 64%nat → key_wf k → k ∈ Us → B <= n → (4 * Z.to_nat B + 3 < fuel)%nat →
  ∃ x s', get fuel junk s k = Ok (x, s') ∧ agrees (k, F !! k) (x, s') ∧ holds nr B Us s' (n - B) left F ∧ wb_flush_size s' = wb_flush_size s.
Proof.
  intros Hh Hj Hk HkU HBn Hf. unfold get. destruct (blank_page FS_MALLOC_R) as (v & Ev & Hv & Htag). rewrite Ev by (by left). rbind.
  set (r := malloc (requests s)). set (s1 := with_request r _ s).
  destruct (read_ok fuel junk s1 n left F r (RReq k None v Pending)) as (s' & x & E & Hh' & Hx & Ek & Ha & Ew); try done; [|apply lookup_insert_eq|].
  - destruct Hh as (n' & left' & bits & dev & rs & M & used & T & K & W & Hs & Hb & Hrest). exists n', left', bits, dev, rs, M, used, T, K, W.
    split; [by apply steady_request|]. split; [by destruct Hb|done].
  - rewrite E. rbind. rewrite Hx. cbn [deref]. rbind. by exists x, s'.
Qed.

Lemma run_ok fuel junk os : ∀ s n left F,
  holds nr B Us s n left F → length junk = 64%nat → Forall op_ok os → (∀ o, o ∈ os → op_key o ∈ Us) → B * Z.of_nat (length os) <= n → puts os <= left →
  (4 * Z.to_nat B * Z.to_nat (wb_flush_size s) + 3 < fuel)%nat → (4 * Z.to_nat B + 3 < fuel)%nat →
  ∃ xs s', run fuel junk s os = Ok (xs, s') ∧ Forall2 agrees (expected F os) xs.
Proof.
  induction os as [|o os IH]; intros s n left F Hh Hj Hok HU Hn Hl Hf1 Hf2; cbn [run expected]; [exists [], s; split; [done|by apply Forall2_nil]|].
  apply Forall_cons in Hok as [Ho Hok]. assert (HoU : op_key o ∈ Us) by apply HU, list_elem_of_here.
  assert (HU' : ∀ o, o ∈ os → op_key o ∈ Us) by (intros o' Ho'; apply HU; apply elem_of_cons; by right). simpl length in Hn.
  pose proof (puts_nonneg os) as Hp. destruct o as [k v|k].
  - change (puts (Put k v :: os)) with (puts os + 1) in Hl.
    destruct (write_ok nr B Us Hnr HB Hroom fuel junk s n left F k v Hh Hj) as (rc & s1 & -> & Hh1 & _ & Ew); [by destruct Ho|nia|lia|done|]. rbind.
    apply (IH s1 (n - B) (left - 1)); try done; [nia|lia|by rewrite Ew].
  - destruct (get_ok fuel junk s n left F k Hh Hj Ho HoU) as (x & s1 & -> & Ha & Hh1 & Ew); [nia|done|]. rbind.
    destruct (IH s1 (n - B) left F Hh1) as (xs & s2 & -> & Hxs); try done; [nia|by rewrite Ew|]. rbind.
    exists ((x, s1) :: xs), s2. split; [done|]. by apply Forall2_cons.
Qed.

End map.

(** ** From the creation on *)

Section create.
Context `{Sg : Settings, !SettingsOk Sg} {Q Mp L Qw : Type} `{!FIFO Z Q} `{!IntMap loc Mp} `{!Lower L} `{!LowerOk L} `{!FIFO waiter Qw}.

(** The slots of the mapping table: 2048 per translation page. *)
Definition nr_slots : Z := nr_valid_tentries (cg_env_init true _NOP).

Lemma slots_range : 2 <= nr_slots < 2 ^ 31 ∧ nr_valid_tpages (cg_env_init true _NOP) * EPP = nr_slots.
Proof.
  unfold nr_slots, cg_env_init, env_init. cbn [nr_valid_tentries nr_valid_tpages]. change (GRAIN_PER_PAGE / 2) with 8. change EPP with 2048.
  rewrite NOP_eq. pose proof GIGAUNIT_range. replace (131072 * GIGAUNIT) with (64 * GIGAUNIT * 2048) by lia.
  rewrite Z.div_mul, Z.mod_mul by lia. cbn [Z.eqb]. lia.
Qed.

Lemma created_calm (p : dpages Q Mp L) wb x n : t_inv x p n ∅ → 1 <= wb →
  ∃ c, cg_create (Qw:=Qw) true _NOP wb p = Ok c ∧ rests x c [] (λ _, UINT32_MAX) n ∅ None [] ∧ env c = cg_env_init true _NOP ∧
    jumps c = ∅ ∧ assigned c = [].
Proof.
  intros Ht Hwb. pose proof NOP_range. destruct (env_range true _NOP 0) as [Hv Hm]; [lia|].
  destruct (cg_member_init_rep (PagesOk0:=dpages_t_ok x) (Qw:=Qw) (cg_env_init true _NOP) wb p n Hv Hm) as (c & Ec & Ee & Hr & Hid & Hq & Hw); [lia|exact Ht|].
  destruct (cg_member_init_blank _ _ _ _ Ec) as (Hst & Ej & Ef & Ea & _); [apply Hv|]. exists c. split; [exact Ec|]. split; [|done].
  constructor; try done; rewrite ?Ee.
  - intros i Hi. rewrite (Hq i Hi). exists wb. apply fifo_init_spec. lia.
  - intros i _. by rewrite (proj2 (Hst i)), bool_decide_false.
  - intros i Hd. by rewrite (proj1 (Hst i)) in Hd.
  - exists wb. rewrite Hw. split; [apply fifo_init_spec; lia|lia].
Qed.

Lemma create_holds B Us ck et ed wb (l : L) :
  checker_ready ck → 1 <= et → 1 <= ed → et + ed <= _NOS → 1 <= wb → low_wf l → (∀ q, 0 <= q < _NOP → low_page l q = None) →
  ∃ b ck' s, pbm_create ck [et; ed] = Ok (b, ck') ∧ demand_create (Q:=Q) (Mp:=Mp) (Qw:=Qw) wb b l = Ok s ∧ wb_flush_size s = wb ∧
    holds nr_slots B Us s ((et - 1) * 16384) ((ed - 1) * 16384) ∅.
Proof.
  intros Hck Het Hed Hsum Hwb Hwf Hempty. set (g := grain_create (_NOP * GRAIN_PER_PAGE)).
  destruct (pages_created (Q:=Q) (Mp:=Mp) ck et ed l g Hck Het Hed Hsum) as (b & ck' & sp & t & d & Eb & Ep & Hr & _ & _ & Et & _ & _ & Ed & El & Eg & Hall).
  destruct (created_calm sp wb (Kept g (λ _, None) ∅ ((ed - 1) * 16384)) ((et - 1) * 16384)) as (c & Ec & Hc & Ee & Ej & Ea); [|done|].
  { exists t, d. split; [done|]. split; [lia|]. split; [cbn; lia|]. constructor; cbn [k_bits k_dev k_new]; rewrite ?El; try done.
    intros q [Hq _]. by apply Hempty. }
  exists b, ck'. unfold demand_create. fold g. rewrite Ep. rbind. rewrite Ec. rbind. eexists. split; [done|]. split; [done|]. split; [done|].
  eexists _, _, g, _, [], _, ∅, ∅, ∅, ∅. split; [|split; [|split; [by rewrite (left_id_L ∅ _)|]]].
  - constructor; cbn [r_c max_try hash_table wb_flush_size r_cnt w_cnt wb_master_q]; try done; [rewrite Ee; split; [done|apply slots_range]|by apply table_empty|..].
    exists wb. split; [apply fifo_init_spec; lia|lia].
  - constructor; cbn [entries write_buffer]; try done; [apply NoDup_nil_2|]. intros e. rewrite elem_of_nil, lookup_empty. split; [done|by intros []].
  - cbn [write_buffer length wb_flush_size]. lia.
Qed.

(** C1: the hash-based store of the demand-paged FTL finds the last value of every key.
    Start from a new device and a new block manager with [et] segments for translation
    pages and [ed] for data, and serve any sequence of writes and reads. If every key has,
    among its first [B] probes, as many slots as there are keys, and the pages suffice
    ([B] translation pages per request and a data page per write: garbage
    collection is not needed), then every request is served, and every read ends
    as the last write of its key says: as not found when the key was never written; with
    the value at the front of the buffer when it is in the write buffer; and otherwise with the
    whole device page that the mapping names for a slot of the key, which holds the value at
    the offset in the mapping. This offset is dropped ([end_req] in rw.c), so that a value of less than a page
    may have values of other keys in front ([offset_is_dropped]); only when all values
    have the size of a page does every read return exactly the value, as a finite map
    does. This goes through the write buffer, its flushes, the mapping update with its
    collisions, the cache of translation pages with its evictions, and the probes of the
    reads. *)
Theorem demand_store_finds_last_values (ck : BadBlock.bb_checker) (et ed wb B : Z) (l : L) (fuel : nat) (junk : list Z) (os : list operation) :
  checker_ready ck → 1 <= et → 1 <= ed → et + ed <= _NOS → 1 <= wb → low_wf l → (∀ q, 0 <= q < _NOP → low_page l q = None) →
  length junk = 64%nat → Forall op_ok os → 1 <= B <= MAX_HASH_COLLISION → room nr_slots B (list_to_set (op_key <$> os)) →
  B * Z.of_nat (length os) <= (et - 1) * 16384 → puts os <= (ed - 1) * 16384 → (4 * Z.to_nat B * Z.to_nat wb + 3 < fuel)%nat →
  ∃ b ck' s xs s', pbm_create ck [et; ed] = Ok (b, ck') ∧ demand_create (Q:=Q) (Mp:=Mp) (Qw:=Qw) wb b l = Ok s ∧
    run fuel junk s os = Ok (xs, s') ∧ Forall2 (agrees nr_slots B) (expected ∅ os) xs ∧ (Forall whole_page os → Forall2 exact (expected ∅ os) xs).
Proof.
  intros Hck Het Hed Hsum Hwb Hwf Hempty Hj Hok HB Hroom Hn Hl Hf. set (Us := list_to_set (op_key <$> os)) in *.
  destruct (create_holds B Us ck et ed wb l Hck Het Hed Hsum Hwb Hwf Hempty) as (b & ck' & s & Eb & Ec & Ew & Hh).
  destruct (run_ok nr_slots B Us (proj1 slots_range) HB Hroom fuel junk os s ((et - 1) * 16384) ((ed - 1) * 16384) ∅ Hh Hj Hok) as (xs & s' & Er & Hxs);
    [|done|done|by rewrite Ew|nia|exists b, ck', s, xs, s'; do 4 (split; [done|]); by intros Hw; eapply run_exact].
  intros o Ho. apply elem_of_list_to_set, list_elem_of_fmap. by exists o.
Qed.

End create.

(** Two keys in a buffer of two entries: the third write flushes it. *)
Definition value_1 (k : Z) (x : Z) : Skiplist.vset := Skiplist.VSet 512 (1 :: k :: replicate 510 x).
Definition ops_1 : list operation :=
  [Put (Key 1 [97]) (value_1 97 7); Put (Key 1 [98]) (value_1 98 8); Put (Key 1 [97]) (value_1 97 9);
   Get (Key 1 [97]); Get (Key 1 [98]); Get (Key 1 [99])].

#[local] Existing Instance settings_1.
#[local] Transparent slot key_hash.

Lemma ops_1_room : room nr_slots 4 (list_to_set (op_key <$> ops_1)).
Proof.
  assert (H : ∀ k, k ∈ op_key <$> ops_1 → (3 <= size (list_to_set (slot nr_slots k <$> seqZ 0 4) : gset Z))%nat).
  { apply Forall_forall. apply (bool_decide_unpack _). vm_compute. exact I. }
  intros k Hk. apply elem_of_list_to_set, H in Hk. change (size (list_to_set (op_key <$> ops_1) : gset str_key)) with 3%nat. done.
Qed.

Lemma ops_1_ok : Forall op_ok ops_1.
Proof.
  assert (Hv : ∀ k x, 0 <= k < 256 → op_ok (Put (Key 1 [k]) (value_1 k x))).
  { intros k x Hk. split; [|done]. constructor; try done. split_and!; try done. by apply Forall_singleton. }
  assert (Hg : ∀ k, 0 <= k < 256 → op_ok (Get (Key 1 [k]))) by (intros k Hk; split_and!; [done|done|by apply Forall_singleton]).
  repeat (apply Forall_cons; split); [apply Hv; lia|apply Hv; lia|apply Hv; lia|apply Hg; lia|apply Hg; lia|apply Hg; lia|by apply Forall_nil].
Qed.

Lemma demand_store_finds_last_values_witness :
  ∃ b ck' s xs s', pbm_create (Sg:=settings_1) BadBlock.unfixed [2; 6] = Ok (b, ck') ∧
    demand_create (Q:=Queue.queue Z) (Mp:=gmap Z loc) (Qw:=Queue.queue waiter) 2 b (PosixMemory.posix_create (Sg:=settings_1) 0) = Ok s ∧
    run 40 (replicate 64 0) s ops_1 = Ok (xs, s') ∧ 
    Forall2 (agrees nr_slots 4) [(Key 1 [97], Some (1 :: 97 :: replicate 510 9)); (Key 1 [98], Some (1 :: 98 :: replicate 510 8)); (Key 1 [99], None)] xs.
Proof.
  destruct (demand_store_finds_last_values (Sg:=settings_1) (Q:=Queue.queue Z) (Mp:=gmap Z loc) (Qw:=Queue.queue waiter) (L:=PosixMemory.posix)
    BadBlock.unfixed 2 6 2 4 (PosixMemory.posix_create (Sg:=settings_1) 0) 40 (replicate 64 0) ops_1 unfixed_ready) as (b & ck' & s & xs & s' & H1 & H2 & H3 & H4 & _).
  - lia.
  - lia.
  - rewrite NOS_eq. simpl. lia.
  - lia.
  - exact (PosixMemory.posix_create_wf (Sg:=settings_1)).
  - intros q _. reflexivity.
  - reflexivity.
  - exact ops_1_ok.
  - vm_compute. split; discriminate.
  - exact ops_1_room.
  - vm_compute. discriminate.
  - vm_compute. discriminate.
  - vm_compute. lia.
  - exists b, ck', s, xs, s'. split; [exact H1|]. split; [exact H2|]. split; [exact H3|exact H4].
Defined.

(** *** The offset that is dropped *)

(** The buffers of the reads, on a new store. *)
Definition read_buffers (os : list operation) : list (list Z) :=
  match pbm_create (Sg:=settings_1) (Q:=Queue.queue Z) (Mp:=gmap Z loc) BadBlock.unfixed [2; 6] with
  | Err _ => []
  | Ok (b, _) =>
    match demand_create (Q:=Queue.queue Z) (Mp:=gmap Z loc) (Qw:=Queue.queue waiter) 2 b (PosixMemory.posix_create (Sg:=settings_1) 0) with
    | Err _ => []
    | Ok s => match run 40 (replicate 64 0) s os with Ok (xs, _) => map (λ x, value (rq_value x.1)) xs | Err _ => [] end
    end
  end.

(** Two keys with values of one grain are flushed into one page; reading either of them
    returns this page, and in front of it the value of the second one. *)
Example offset_is_dropped :
  let bs := read_buffers [Put (Key 1 [97]) (value_1 97 7); Put (Key 1 [98]) (value_1 98 8); Put (Key 1 [99]) (value_1 99 9); Get (Key 1 [97]); Get (Key 1 [98])] in
  (λ page, (grains page 0 1, grains page 1 1)) <$> bs = replicate 2 (Skiplist.bytes (value_1 98 8), Skiplist.bytes (value_1 97 7)) ∧ bs !! 0%nat = bs !! 1%nat.
Proof. vm_compute. split; reflexivity. Qed.

End DemandMap.
