(* ===== verification/LsmTable.v ===== *)
(** * Mapping tables of the LSM-tree (algorithm/Lsmtree/level_target/array)

    A run of the LSM-tree is described by one page, its table: a bitmap of
    [uint16_t] offsets in the first [KEYBITMAP] bytes, then the entries, each a
    physical address of four bytes and the bytes of its key. [bitmap[0]] is the
    number of entries, [bitmap[i]] the offset of entry [i], and one more offset says
    where the last one ends. This file holds the functions that write a table from a
    memtable and the ones that read it: the lookup, the lower bound, the first
    and the last key, the iterators. *)
From Stdlib Require Import Sorting.Sorted.
From S2P Require Export Prelude Settings Bloom.
Import Bloom.

Local Open Scope Z_scope.

Module LsmTable.

Definition KEYBITMAP : Z := 1024.
Definition UINT16_MAX : Z := 2 ^ 16 - 1.
(** [sizeof(ppa_t)] *)
Definition PPA_SIZE : Z := 4.
Definition KEYLEN (k : str_key) : Z := len k + PPA_SIZE.

(** ** Buffers *)

(** [n] bytes at [off], and writing bytes there: outside of the buffer is undefined. *)
Definition peek (data : list Z) (off n : Z) : res (list Z) :=
  if (0 <=? off) && (0 <=? n) && (off + n <=? Z.of_nat (length data))
  then Ok (take (Z.to_nat n) (drop (Z.to_nat off) data)) else Err Undefined.
Definition poke (data : list Z) (off : Z) (bs : list Z) : res (list Z) :=
  if (0 <=? off) && (off + Z.of_nat (length bs) <=? Z.of_nat (length data))
  then Ok (take (Z.to_nat off) data ++ bs ++ drop (Z.to_nat off + length bs) data) else Err Undefined.

Definition le16_bytes (z : Z) : list Z := [u8 z; u8 (Z.shiftr z 8)].
Definition le16_read (l : list Z) : res Z :=
  match l with b0 :: b1 :: _ => Ok (b0 + 2 ^ 8 * b1) | _ => Err Undefined end.

(** [bitmap[i]] and [bitmap[i]=x], where [bitmap] is the page as an array of [uint16_t]. *)
Definition bitmap_get (data : list Z) (i : Z) : res Z := b ← peek data (2 * i) 2; le16_read b.
Definition bitmap_set (data : list Z) (i x : Z) : res (list Z) := poke data (2 * i) (le16_bytes (u16 x)).

(** ** Entries *)

(** A key in a table points into the page; here it is its bytes. *)
Definition key_between (data : list Z) (a b : Z) : res str_key :=
  let n := u8 (b - a - PPA_SIZE) in
  k ← peek data (a + PPA_SIZE) n; Ok (Key n k).
Definition key_at (data : list Z) (i : Z) : res str_key :=
  a ← bitmap_get data i; b ← bitmap_get data (i + 1); key_between data a b.
Definition ppa_at (data : list Z) (i : Z) : res Z :=
  a ← bitmap_get data i; l ← peek data a PPA_SIZE; le32_read l.

(** Writing an entry: its address and its key. *)
Definition put_entry (data : list Z) (off : Z) (k : str_key) (ppa : Z) : res (list Z) :=
  data ← poke data off (le32_bytes ppa);
  bs ← peek (key k) 0 (len k);
  poke data (off + PPA_SIZE) bs.

(** ** Tables from a memtable *)

(** The nodes of the skip list in key order, with their addresses. *)
Fixpoint skip_cvt2_loop (mem : list (str_key * Z)) (data : list Z) (idx data_start : Z) : res (list Z * Z * Z) :=
  match mem with
  | [] => Ok (data, idx, data_start)
  | (k, ppa) :: mem =>
    data ← put_entry data data_start k ppa;
    data ← bitmap_set data idx data_start;
    skip_cvt2_loop mem data (idx + 1) (u16 (data_start + len k + PPA_SIZE))
  end.

(** [junk] is the page as [malloc] returns it. *)
Definition array_skip_cvt2_data (junk : list Z) (mem : list (str_key * Z)) : res (list Z) :=
  '(data, idx, data_start) ← skip_cvt2_loop mem junk 1 KEYBITMAP;
  data ← bitmap_set data 0 (idx - 1);
  bitmap_set data idx data_start.

(** [array_mem_cvt2table]: the table of the memtable, the keys of its run and the
    filter. Keys that are not set stay [None]. *)
Fixpoint cvt2table_loop (size : Z) (mem : list (str_key * Z)) (data : list Z) (idx data_start : Z) (s e : option str_key) (f : option BF)
    : res (list Z * Z * Z * option str_key * option str_key * option BF) :=
  match mem with
  | [] => Ok (data, idx, data_start, s, e, f)
  | (k, ppa) :: mem =>
    let s := if idx =? 1 then Some k else s in
    let e := if negb (idx =? 1) && (idx =? size) then Some k else e in
    data ← put_entry data data_start k ppa;
    data ← bitmap_set data idx data_start;
    f ← match f with None => Ok None | Some b => b ← bf_set (Some b) k; Ok (Some b) end;
    cvt2table_loop size mem data (idx + 1) (u16 (data_start + len k + PPA_SIZE)) s e f
  end.
Definition array_mem_cvt2table (junk : list Z) (mem : list (str_key * Z)) (f : option BF)
    : res (list Z * option str_key * option str_key * option BF) :=
  data ← poke junk 0 (replicate (Z.to_nat (KEYBITMAP / 2)) 255);
  data ← bitmap_set data 0 (Z.of_nat (length mem));
  '(data, idx, data_start, s, e, f) ← cvt2table_loop (Z.of_nat (length mem)) mem data 1 KEYBITMAP None None f;
  data ← bitmap_set data idx data_start;
  Ok (data, s, e, f).

(** ** Searches in a table *)

(** The keyset that is found is a pointer into the page: its offset. *)
Fixpoint find_keyset_loop (fuel : nat) (data : list Z) (lpa : str_key) (s e : Z) : res (option Z) :=
  match fuel with
  | O => Err OutOfFuel
  | S fuel =>
    if s <=? e then
      let mid := (s + e) / 2 in
      target ← key_at data mid;
      let r := KEYCMP target lpa in
      if r =? 0 then off ← bitmap_get data mid; Ok (Some off)
      else if r <? 0 then find_keyset_loop fuel data lpa (mid + 1) e
      else find_keyset_loop fuel data lpa s (mid - 1)
    else Ok None
  end.
Definition array_find_keyset (data : list Z) (lpa : str_key) : res (option Z) :=
  e ← bitmap_get data 0;
  find_keyset_loop (S (Z.to_nat e)) data lpa 1 e.

Fixpoint lower_bound_loop (fuel : nat) (data : list Z) (lpa : str_key) (s e mid r : Z) : res Z :=
  match fuel with
  | O => Err OutOfFuel
  | S fuel =>
    if s <=? e then
      let mid := (s + e) / 2 in
      target ← key_at data mid;
      let r := KEYCMP target lpa in
      if r =? 0 then Ok mid
      else if r <? 0 then lower_bound_loop fuel data lpa (mid + 1) e mid r
      else lower_bound_loop fuel data lpa s (mid - 1) mid r
    else if r <? 0 then Ok (mid + 1) else Ok mid
  end.
Definition array_find_idx_lower_bound (data : list Z) (lpa : str_key) : res Z :=
  e ← bitmap_get data 0;
  lower_bound_loop (S (Z.to_nat e)) data lpa 1 e 0 0.

(** The first and the last key: where they start in the page, and their lengths. *)
Definition array_find_keyset_first (data : list Z) : res (Z * Z) :=
  a ← bitmap_get data 1; b ← bitmap_get data 2; Ok (a + PPA_SIZE, u8 (a - b - PPA_SIZE)).
Definition array_find_keyset_last (data : list Z) : res (Z * Z) :=
  e ← bitmap_get data 0;
  a ← bitmap_get data e; b ← bitmap_get data (e + 1); Ok (a + PPA_SIZE, u8 (a - b - PPA_SIZE)).

(** ** Iterators *)

(** [for_each_header_start]: the entries the loop visits, from [idx] on. *)
Fixpoint for_each_header (fuel : nat) (data : list Z) (idx : Z) : res (list (str_key * Z)) :=
  match fuel with
  | O => Err OutOfFuel
  | S fuel =>
    a ← bitmap_get data idx; n ← bitmap_get data 0;
    if negb (a =? UINT16_MAX) && (idx <=? n) then
      k ← key_at data idx; p ← ppa_at data idx;
      es ← for_each_header fuel data (idx + 1); Ok ((k, p) :: es)
    else Ok []
  end.
Definition header_entries (data : list Z) : res (list (str_key * Z)) :=
  n ← bitmap_get data 0; for_each_header (S (Z.to_nat n)) data 1.

Definition array_checking_each_key {A} (test : str_key → Z → A) (data : list Z) : res (list A) :=
  es ← header_entries data; Ok (map (λ e, test e.1 e.2) es).

Fixpoint bf_set_all (f : BF) (es : list (str_key * Z)) : res BF :=
  match es with [] => Ok f | e :: es => f ← bf_set (Some f) e.1; bf_set_all f es end.
(** [array_making_filter], from the filter that [bf_init] made *)
Definition array_making_filter (f : BF) (data : list Z) : res BF := es ← header_entries data; bf_set_all f es.

(** [a_key_iter]: [None] when it was freed. *)
Record a_key_iter := AKeyIter { ki_idx : Z; ki_body : list Z }.
Definition array_key_iter_init (key_data : list Z) (start : Z) : a_key_iter := AKeyIter start key_data.
Definition array_key_iter_nxt (it : a_key_iter) : res (option (str_key * Z) * option a_key_iter) :=
  a ← bitmap_get (ki_body it) (ki_idx it); n ← bitmap_get (ki_body it) 0;
  if (a =? UINT16_MAX) || (ki_idx it >? n) then Ok (None, None)
  else
    p ← ppa_at (ki_body it) (ki_idx it); k ← key_at (ki_body it) (ki_idx it);
    Ok (Some (k, p), Some (AKeyIter (ki_idx it + 1) (ki_body it))).

(** [header_iter], from the lower bound of a key. The key set has the address
    [UINT32_MAX] when there is none; then the key is not set. *)
Record header_iter := HIter { hi_data : list Z; hi_idx : Z }.
Definition header_iter_from (data : list Z) (k : option str_key) : res header_iter :=
  match k with
  | None => Ok (HIter data 0)
  | Some k => i ← array_find_idx_lower_bound data k; Ok (HIter data i)
  end.
Definition array_header_next_key (it : option header_iter) : res (option (str_key * Z) * option header_iter) :=
  match it with
  | None => Ok (None, None)
  | Some it =>
    n ← bitmap_get (hi_data it) 0;
    if n >? hi_idx it then
      p ← ppa_at (hi_data it) (hi_idx it); k ← key_at (hi_data it) (hi_idx it);
      Ok (Some (k, p), Some (HIter (hi_data it) (hi_idx it + 1)))
    else Ok (None, None)
  end.
Definition array_header_next_key_pick (it : header_iter) : res (option (str_key * Z)) :=
  n ← bitmap_get (hi_data it) 0;
  if n >? hi_idx it then
    p ← ppa_at (hi_data it) (hi_idx it); k ← key_at (hi_data it) (hi_idx it); Ok (Some (k, p))
  else Ok None.

(** [array_get_lpa_from_data]: the first key of a header, or the key in front of a value. *)
Definition array_get_lpa_from_data (data : list Z) (isheader : bool) : res (option str_key) :=
  if isheader then
    a ← bitmap_get data 1; n ← bitmap_get data 0;
    if negb (a =? UINT16_MAX) && (1 <=? n) then k ← key_at data 1; Ok (Some k) else Ok None
  else n ← deref (head data); k ← peek data 1 n; Ok (Some (Key n k)).

(** ** Buffers: lemmas *)

(** The buffer holds [bs] at [off]. *)
Definition has (data : list Z) (off : Z) (bs : list Z) : Prop :=
  0 <= off ∧ off + Z.of_nat (length bs) <= Z.of_nat (length data) ∧
  ∀ i b, bs !! i = Some b → data !! (Z.to_nat off + i)%nat = Some b.

Lemma peek_has data off bs n : has data off bs → n = Z.of_nat (length bs) → peek data off n = Ok bs.
Proof.
  intros (Ho & Hl & Hb) ->. unfold peek. rewrite !(proj2 (Z.leb_le _ _)) by lia. cbn [andb]. f_equal. rewrite Nat2Z.id.
  apply list_eq. intros i. destruct (decide (i < length bs)%nat) as [Hi|Hi].
  - rewrite lookup_take_lt, lookup_drop by done. destruct (lookup_lt_is_Some_2 bs i Hi) as [b Hib]. rewrite Hib. by apply Hb.
  - rewrite (lookup_ge_None_2 bs) by lia. apply lookup_ge_None_2. rewrite length_take. lia.
Qed.

Lemma has_app data off bs bs' : has data off (bs ++ bs') ↔ has data off bs ∧ has data (off + Z.of_nat (length bs)) bs'.
Proof.
  unfold has. rewrite length_app. split.
  - intros (Ho & Hl & Hb). split; (split; [lia|split; [lia|]]).
    + intros i b Hi. apply Hb. by apply lookup_app_l_Some.
    + intros i b Hi. replace (Z.to_nat (off + Z.of_nat (length bs)) + i)%nat with (Z.to_nat off + (length bs + i))%nat by lia.
      apply Hb. rewrite lookup_app_r by lia. by replace (length bs + i - length bs)%nat with i by lia.
  - intros ((Ho & Hl & Hb) & (_ & Hl' & Hb')). split; [done|]. split; [lia|]. intros i b [Hi|[Hge Hi]]%lookup_app_Some; [by apply Hb|].
    apply Hb' in Hi. by replace (Z.to_nat (off + Z.of_nat (length bs)) + (i - length bs))%nat with (Z.to_nat off + i)%nat in Hi by lia.
Qed.

Definition apart (o1 n1 o2 n2 : Z) : Prop := o1 + n1 <= o2 ∨ o2 + n2 <= o1.

Lemma poke_Ok data off bs : 0 <= off → off + Z.of_nat (length bs) <= Z.of_nat (length data) →
  ∃ data', poke data off bs = Ok data' ∧ length data' = length data ∧ has data' off bs ∧
    ∀ o bs', has data o bs' → apart off (Z.of_nat (length bs)) o (Z.of_nat (length bs')) → has data' o bs'.
Proof.
  intros Ho Hl. unfold poke. rewrite !(proj2 (Z.leb_le _ _)) by lia. cbn [andb]. eexists. split; [done|].
  assert (El : length (take (Z.to_nat off) data ++ bs ++ drop (Z.to_nat off + length bs) data) = length data).
  { rewrite !length_app, length_take, length_drop. lia. }
  split; [done|]. split.
  - split; [done|]. split; [lia|]. intros i b Hi. pose proof (lookup_lt_Some _ _ _ Hi).
    rewrite lookup_app_r by (rewrite length_take; lia). rewrite length_take, lookup_app_l by lia.
    by replace (Z.to_nat off + i - Z.to_nat off `min` length data)%nat with i by lia.
  - intros o bs' (Ho' & Hl' & Hb') Hap. split; [done|]. split; [lia|]. intros i b Hi. pose proof (lookup_lt_Some _ _ _ Hi). apply Hb' in Hi.
    destruct Hap as [Hap|Hap].
    + rewrite !lookup_app_r by (rewrite length_take; lia). rewrite length_take, lookup_drop. rewrite <-Hi. f_equal. lia.
    + rewrite lookup_app_l by (rewrite length_take; lia). by rewrite lookup_take_lt by lia.
Qed.

Lemma bitmap_get_has data i x : has data (2 * i) (le16_bytes x) → 0 <= x < 65536 → bitmap_get data i = Ok x.
Proof.
  intros Hh Hx. unfold bitmap_get. rewrite (peek_has _ _ _ 2 Hh eq_refl). rbind. unfold le16_bytes, le16_read. f_equal.
  unfold u8. rewrite shiftr_div by lia. change (2 ^ 8) with 256. Z.to_euclidean_division_equations. lia.
Qed.

Lemma bitmap_set_Ok data i x : 0 <= i → 2 * i + 2 <= Z.of_nat (length data) → 0 <= x < 65536 →
  ∃ data', bitmap_set data i x = Ok data' ∧ length data' = length data ∧ has data' (2 * i) (le16_bytes x) ∧
    ∀ o bs', has data o bs' → apart (2 * i) 2 o (Z.of_nat (length bs')) → has data' o bs'.
Proof. intros Hi Hl Hx. unfold bitmap_set. rewrite u16_id by done. apply (poke_Ok data (2 * i) (le16_bytes x)); [lia|done]. Qed.

(** ** Well-formed tables *)

Implicit Types (es mem : list (str_key * Z)) (data : list Z).

(** The offset of entry [i]. *)
Definition offset es (i : nat) : Z := KEYBITMAP + foldr (λ e n, KEYLEN e.1 + n) 0 (take i es).

Definition entry_ok (e : str_key * Z) : Prop := key_wf e.1 ∧ 0 <= e.2 < 2 ^ 32.

(** The entries and their offsets are in the page; [table] adds the number of
    entries and the end of the last one. *)
Record entries_at data es : Prop := EntriesAt {
  ea_len : Z.of_nat (length data) = PAGESIZE;
  ea_ent i k p : es !! i = Some (k, p) → has data (offset es i) (le32_bytes p ++ key k);
  ea_off i : (i < length es)%nat → has data (2 * (1 + Z.of_nat i)) (le16_bytes (offset es i));
}.
Record table data es : Prop := Table {
  tb_at : entries_at data es;
  tb_num : has data (2 * 0) (le16_bytes (Z.of_nat (length es)));
  tb_end : has data (2 * (1 + Z.of_nat (length es))) (le16_bytes (offset es (length es)));
  tb_ok : Forall entry_ok es;
  tb_room : Z.of_nat (length es) <= 510 ∧ offset es (length es) <= PAGESIZE;
}.

Lemma offset_app es es' i : (i <= length es)%nat → offset (es ++ es') i = offset es i.
Proof. intros Hi. unfold offset. by rewrite take_app_le. Qed.

Lemma bytes_shift es a : foldr (λ e n, KEYLEN e.1 + n) a es = foldr (λ e n, KEYLEN e.1 + n) 0 es + a.
Proof. induction es as [|x es IH]; cbn; lia. Qed.

Lemma offset_S es i k p : es !! i = Some (k, p) → offset es (S i) = offset es i + KEYLEN k.
Proof. intros Hi. unfold offset. rewrite (take_S_r _ _ _ Hi), foldr_app, bytes_shift. cbn. lia. Qed.

Lemma offset_snoc es k p : offset (es ++ [(k, p)]) (S (length es)) = offset es (length es) + KEYLEN k.
Proof. rewrite (offset_S _ _ k p), offset_app; [done|done|]. by apply list_lookup_middle. Qed.

Lemma offset_mono es i j : Forall entry_ok es → (i <= j)%nat → offset es i <= offset es j.
Proof.
  intros Hok Hij. unfold offset. rewrite <-(take_drop i (take j es)), take_take, Nat.min_l by done. rewrite foldr_app.
  assert (Hge : ∀ l n, Forall entry_ok l → 0 <= n → n <= foldr (λ e n, KEYLEN e.1 + n) n l).
  { intros l n Hl Hn. induction Hl as [|x l Hx _ IH]; cbn; [done|]. destruct Hx as ((Hlen & _) & _). unfold KEYLEN at 1. unfold PPA_SIZE. lia. }
  rewrite (bytes_shift (take i es) (foldr _ 0 (drop i _))).
  assert (H0 : 0 <= foldr (λ e n, KEYLEN e.1 + n) 0 (drop i (take j es))); [|lia]. apply Hge; [|done]. by apply Forall_drop, Forall_take.
Qed.

Lemma offset_range data es i : table data es → (i <= length es)%nat → KEYBITMAP <= offset es i <= PAGESIZE.
Proof.
  intros Ht Hi. pose proof (tb_ok _ _ Ht) as Hok. pose proof (offset_mono es 0 i Hok ltac:(lia)). pose proof (offset_mono es i _ Hok Hi).
  pose proof (proj2 (tb_room _ _ Ht)). change (offset es 0) with (KEYBITMAP + 0) in *. lia.
Qed.

(** ** Writing a table *)

Lemma peek_key k : key_wf k → peek (key k) 0 (len k) = Ok (key k).
Proof.
  intros (Hl & _). apply peek_has; [|done]. split; [done|]. split; [lia|]. intros i b Hi. done.
Qed.

Lemma put_Ok data es k p : entries_at data es → Forall entry_ok es → entry_ok (k, p) →
  Z.of_nat (length es) <= 509 → offset es (length es) + KEYLEN k <= PAGESIZE →
  ∃ data1 data2, put_entry data (offset es (length es)) k p = Ok data1 ∧
    bitmap_set data1 (1 + Z.of_nat (length es)) (offset es (length es)) = Ok data2 ∧ entries_at data2 (es ++ [(k, p)]) ∧
    ∀ x, has data (2 * 0) (le16_bytes x) → has data2 (2 * 0) (le16_bytes x).
Proof.
  intros [El Hent Hoff] Hok [Hk Hp] Hn Hroom. cbn in Hk, Hp. set (o := offset es (length es)) in *. pose proof Hk as (Hkl & _).
  assert (Ho : KEYBITMAP <= o) by (unfold o; pose proof (offset_mono es 0 (length es) Hok ltac:(lia)); change (offset es 0) with (KEYBITMAP + 0) in *; lia).
  unfold KEYLEN, PPA_SIZE, KEYBITMAP in *. unfold put_entry.
  destruct (poke_Ok data o (le32_bytes p)) as (d1 & -> & El1 & Hh1 & Hk1); [lia|rewrite le32_bytes_length; lia|]. rbind.
  rewrite (peek_key k Hk). rbind. destruct (poke_Ok d1 (o + PPA_SIZE) (key k)) as (d2 & -> & El2 & Hh2 & Hk2); [unfold PPA_SIZE; lia|unfold PPA_SIZE; lia|].
  exists d2. destruct (bitmap_set_Ok d2 (1 + Z.of_nat (length es)) o) as (d3 & -> & El3 & Hh3 & Hk3); [lia|lia|change PAGESIZE with 8192 in *; lia|].
  exists d3. split; [done|]. split; [done|].
  assert (Hkeep : ∀ a bs, has data a bs → a + Z.of_nat (length bs) <= o → 1024 <= a ∨ a + Z.of_nat (length bs) <= 2 * (1 + Z.of_nat (length es)) → has d3 a bs).
  { intros a bs Ha Hle Hbm. apply Hk3; [apply Hk2; [apply Hk1; [done|]|]|]; unfold apart, PPA_SIZE; rewrite ?le32_bytes_length; lia. }
  split; [|intros x Hx; apply Hkeep; [done|..]; cbn [le16_bytes length]; lia]. constructor; [lia|..].
  - intros i k' p' [Hi|[Hge Hi]]%lookup_app_Some.
    + pose proof (lookup_lt_Some _ _ _ Hi). rewrite offset_app by lia. apply Hkeep; [by apply Hent|..].
      * rewrite length_app, le32_bytes_length. pose proof (Forall_lookup_1 _ _ _ _ Hok Hi) as [(Hl' & _) _]. cbn in Hl'.
        pose proof (offset_mono es (S i) (length es) Hok ltac:(lia)) as Hm. rewrite (offset_S _ _ _ _ Hi) in Hm. unfold KEYLEN, PPA_SIZE in Hm. unfold o. lia.
      * left. pose proof (offset_mono es 0 i Hok ltac:(lia)) as Hm. change (offset es 0) with 1024 in Hm. done.
    + destruct (i - length es)%nat as [|n] eqn:E; [|done]. injection Hi as <- <-. assert (i = length es) as -> by lia. rewrite offset_app by lia. fold o.
      apply has_app. rewrite le32_bytes_length. split.
      * apply Hk3; [apply Hk2; [done|]|]; unfold apart, PPA_SIZE; rewrite le32_bytes_length; lia.
      * apply Hk3; [done|]. unfold apart. lia.
  - intros i. rewrite length_app. cbn [length]. intros Hi. rewrite offset_app by lia. destruct (decide (i = length es)) as [->|Hne]; [done|].
    apply Hkeep; [apply Hoff; lia|..]; cbn [le16_bytes length]; lia.
Qed.

(** Closing a table: the last offset, after the number of entries. *)
Lemma end_Ok data es : entries_at data es → has data (2 * 0) (le16_bytes (Z.of_nat (length es))) → Forall entry_ok es → Z.of_nat (length es) <= 510 →
  offset es (length es) <= PAGESIZE → ∃ data', bitmap_set data (1 + Z.of_nat (length es)) (offset es (length es)) = Ok data' ∧ table data' es.
Proof.
  intros [El Hent Hoff] Hnum Hok Hn Hroom. pose proof (offset_mono es 0 (length es) Hok ltac:(lia)) as Ho. change (offset es 0) with 1024 in Ho.
  change PAGESIZE with 8192 in *. destruct (bitmap_set_Ok data (1 + Z.of_nat (length es)) (offset es (length es))) as (d & E & El2 & Hh & Hk); [lia|lia|lia|].
  exists d. split; [done|]. constructor; try done.
  - constructor; [change PAGESIZE with 8192; lia|..].
    + intros i k p Hi. pose proof (offset_mono es 0 i Hok ltac:(lia)) as Hm. change (offset es 0) with 1024 in Hm.
      apply Hk; [by apply Hent|]. unfold apart. lia.
    + intros i Hi. apply Hk; [by apply Hoff|]. unfold apart. cbn [le16_bytes length]. lia.
  - apply Hk; [done|]. unfold apart. cbn [le16_bytes length]. lia.
Qed.

Lemma close_Ok data es : entries_at data es → Forall entry_ok es → Z.of_nat (length es) <= 510 → offset es (length es) <= PAGESIZE →
  ∃ data1 data2, bitmap_set data 0 (Z.of_nat (length es)) = Ok data1 ∧ bitmap_set data1 (1 + Z.of_nat (length es)) (offset es (length es)) = Ok data2 ∧
    table data2 es.
Proof.
  intros [El Hent Hoff] Hok Hn Hroom. change PAGESIZE with 8192 in El.
  destruct (bitmap_set_Ok data 0 (Z.of_nat (length es))) as (d1 & E1 & El1 & Hh1 & Hk1); [lia|lia|lia|].
  assert (Hat : entries_at d1 es).
  { constructor; [change PAGESIZE with 8192; lia|..].
    - intros i k p Hi. pose proof (offset_mono es 0 i Hok ltac:(lia)) as Hm. change (offset es 0) with 1024 in Hm. apply Hk1; [by apply Hent|]. unfold apart. lia.
    - intros i Hi. apply Hk1; [by apply Hoff|]. unfold apart. cbn [le16_bytes length]. lia. }
  destruct (end_Ok d1 es Hat Hh1 Hok Hn Hroom) as (d2 & E2 & Ht). by exists d1, d2.
Qed.

Lemma data_start_Ok es k p : Forall entry_ok es → entry_ok (k, p) → offset es (length es) + KEYLEN k <= PAGESIZE →
  u16 (offset es (length es) + len k + PPA_SIZE) = offset es (length es) + KEYLEN k.
Proof.
  intros Hes [(Hl & _) _] Hroom. cbn in Hl. unfold KEYLEN in *. pose proof (offset_mono es 0 (length es) Hes ltac:(lia)) as H0.
  change (offset es 0) with 1024 in H0. change PAGESIZE with 8192 in *. unfold PPA_SIZE in *. rewrite u16_id by lia. lia.
Qed.

Lemma skip_loop_Ok mem : ∀ data es, entries_at data es → Forall entry_ok (es ++ mem) → Z.of_nat (length (es ++ mem)) <= 510 →
  offset (es ++ mem) (length (es ++ mem)) <= PAGESIZE →
  ∃ data', skip_cvt2_loop mem data (1 + Z.of_nat (length es)) (offset es (length es)) =
      Ok (data', 1 + Z.of_nat (length (es ++ mem)), offset (es ++ mem) (length (es ++ mem))) ∧ entries_at data' (es ++ mem) ∧
    ∀ x, has data (2 * 0) (le16_bytes x) → has data' (2 * 0) (le16_bytes x).
Proof.
  induction mem as [|[k p] mem IH]; intros data es Hat Hok Hn Hroom; cbn [skip_cvt2_loop]; [rewrite app_nil_r in *; by eexists|].
  replace (es ++ (k, p) :: mem) with ((es ++ [(k, p)]) ++ mem) in * by (by rewrite <-app_assoc).
  pose proof Hok as [Hok1 _]%Forall_app. pose proof Hok1 as [Hes Hkp]%Forall_app. rewrite Forall_singleton in Hkp.
  pose proof (offset_mono _ (S (length es)) (length ((es ++ [(k, p)]) ++ mem)) Hok) as Hm. rewrite !length_app in Hn, Hm. cbn [length] in Hn, Hm.
  specialize (Hm ltac:(lia)). rewrite offset_app in Hm by (rewrite length_app; simpl; lia). rewrite offset_snoc in Hm. rewrite !length_app in Hroom. cbn [length] in Hroom.
  destruct (put_Ok data es k p Hat Hes Hkp) as (d1 & d2 & -> & E2 & Hat2 & Hx2); [lia|lia|]. rbind. rewrite E2. rbind.
  destruct (IH d2 (es ++ [(k, p)]) Hat2 Hok) as (d3 & E3 & Hat3 & Hx3); [rewrite !length_app; simpl; lia|rewrite !length_app; exact Hroom|].
  rewrite length_app in E3. cbn [length] in E3. rewrite Nat.add_1_r, offset_snoc in E3.
  rewrite (data_start_Ok es k p) by (try done; lia). replace (1 + Z.of_nat (length es) + 1) with (1 + Z.of_nat (S (length es))) by lia.
  exists d3. split; [exact E3|]. split; [exact Hat3|]. auto.
Qed.

Definition fits es : Prop := Forall entry_ok es ∧ Z.of_nat (length es) <= 510 ∧ offset es (length es) <= PAGESIZE.

Lemma skip_cvt2_Ok junk mem : Z.of_nat (length junk) = PAGESIZE → fits mem → ∃ data, array_skip_cvt2_data junk mem = Ok data ∧ table data mem.
Proof.
  intros Hj (Hok & Hn & Hroom). assert (H0 : entries_at junk []) by (constructor; [done|by intros ? ? ? ?|by intros i Hi%Nat.nlt_0_r]).
  destruct (skip_loop_Ok mem junk [] H0 Hok Hn Hroom) as (d & E & Hat & _). unfold array_skip_cvt2_data.
  change (1 + Z.of_nat (length [])) with 1 in E. change (offset [] (length [])) with KEYBITMAP in E. rewrite E. rbind.
  destruct (close_Ok d mem Hat Hok Hn Hroom) as (d1 & d2 & E1 & E2 & Ht). cbn [app]. replace (1 + Z.of_nat (length mem) - 1) with (Z.of_nat (length mem)) by lia.
  rewrite E1. rbind. by exists d2.
Qed.

(** ** Filters *)

(** Filters that can be used: with bits, or without a probe, as [bf_init] returns them
    for the rate 1 of the levels in memory. *)
Definition usable (b : BF) : Prop := bf_wf b ∨ bf_k b = 0.

Lemma no_probe_set b k : bf_k b = 0 → key_wf k → bf_set (Some b) k = Ok b ∧ bf_check (Some b) k = Ok true.
Proof. intros Hb Hk. unfold bf_set, bf_check. destruct (murmur_Ok k Hk) as [th ->]. by rewrite Hb. Qed.

Lemma usable_set b k : usable b → key_wf k → ∃ b', bf_set (Some b) k = Ok b'.
Proof.
  intros [Hb|Hb] Hk; [destruct (bf_set_Ok b k Hb Hk) as (b' & E & _); by exists b'|]. exists b. by apply no_probe_set.
Qed.

Lemma usable_sets ks b : usable b → Forall key_wf ks → ∃ b', bf_sets b ks = Ok b' ∧ usable b' ∧ ∀ k, k ∈ ks → bf_check (Some b') k = Ok true.
Proof.
  intros [Hb|Hb] Hks.
  - destruct (bf_sets_Ok ks b Hb Hks) as (b' & E & Hwf & _ & Hc). exists b'. split; [done|]. by split; [left|].
  - exists b. split; [|split; [by right|intros k Hk; rewrite Forall_forall in Hks; by apply no_probe_set, Hks]].
    induction Hks as [|k ks Hk _ IH]; cbn [bf_sets]; [done|]. rewrite (proj1 (no_probe_set b k Hb Hk)). rbind. exact IH.
Qed.

Lemma usable_check b k : usable b → key_wf k → ∃ v, bf_check (Some b) k = Ok v.
Proof. intros [Hb|Hb] Hk; [by apply bf_check_Ok|]. exists true. by apply no_probe_set. Qed.

(** The filter after the keys [ks] were set. *)
Definition filtered (f0 : option BF) (ks : list str_key) (f : option BF) : Prop :=
  match f0, f with None, None => True | Some b0, Some b => usable b0 ∧ bf_sets b0 ks = Ok b | _, _ => False end.

Lemma bf_sets_app ks k : ∀ b, bf_sets b (ks ++ [k]) = b ← bf_sets b ks; bf_set (Some b) k.
Proof.
  induction ks as [|k' ks IH]; intros b; cbn [app bf_sets]; rbind; [by destruct (bf_set (Some b) k)|].
  destruct (bf_set (Some b) k') as [b'|]; rbind; [apply IH|done].
Qed.

Lemma filtered_set f0 ks f k : filtered f0 ks f → Forall key_wf ks → key_wf k →
  ∃ f', match f with None => Ok None | Some b => b ← bf_set (Some b) k; Ok (Some b) end = Ok f' ∧ filtered f0 (ks ++ [k]) f'.
Proof.
  intros Hf Hks Hk. destruct f0 as [b0|], f as [b|]; try done; [|by exists None]. destruct Hf as [Hwf E].
  destruct (usable_sets ks b0 Hwf Hks) as (b1 & E1 & Hwf1 & _). rewrite E in E1. injection E1 as <-.
  destruct (usable_set b k Hwf1 Hk) as (b' & Eb). rewrite Eb. rbind. exists (Some b'). split; [done|]. split; [done|].
  rewrite bf_sets_app, E. rbind. done.
Qed.

(** The filter of the result has the keys [ks], if there is one. *)
Definition covers (f0 f : option BF) (ks : list str_key) : Prop :=
  match f0, f with None, None => True | Some _, Some b => ∀ k, k ∈ ks → bf_check (Some b) k = Ok true | _, _ => False end.

Lemma filtered_covers f0 f ks : Forall key_wf ks → filtered f0 ks f → covers f0 f ks.
Proof.
  intros Hks. destruct f0 as [b0|], f as [b|]; try done. intros [Hwf E] k Hk.
  destruct (usable_sets ks b0 Hwf Hks) as (b' & E' & _ & Hc). rewrite E in E'. injection E' as <-. by apply Hc.
Qed.

(** *** The table of a run from the memtable *)

(** The keys that [array_mem_cvt2table] has set after the entries [es] of [size]: the
    last key only if it is not also the first. *)
Definition first_key es : option str_key := fst <$> head es.
Definition last_key (size : nat) es : option str_key := if decide (length es = size ∧ size ≠ 1%nat) then fst <$> last es else None.

Lemma first_key_snoc es k p : (if 1 + Z.of_nat (length es) =? 1 then Some k else first_key es) = first_key (es ++ [(k, p)]).
Proof. destruct es as [|e es]; [done|]. rewrite (proj2 (Z.eqb_neq _ _)) by (simpl; lia). done. Qed.

Lemma last_key_snoc size es k p : (length es < size)%nat →
  (if negb (1 + Z.of_nat (length es) =? 1) && (1 + Z.of_nat (length es) =? Z.of_nat size) then Some k else last_key size es) = last_key size (es ++ [(k, p)]).
Proof.
  intros Hlt. unfold last_key. rewrite (decide_False (P:=length es = size ∧ _)) by lia. rewrite last_snoc, length_app. simpl length.
  destruct (Z.eqb_spec (1 + Z.of_nat (length es)) 1); cbn [negb andb]; [rewrite decide_False by lia; done|].
  destruct (Z.eqb_spec (1 + Z.of_nat (length es)) (Z.of_nat size)); [rewrite decide_True by lia|rewrite decide_False by lia]; done.
Qed.

Lemma keys_ok es : Forall entry_ok es → Forall key_wf es.*1.
Proof. intros H. apply Forall_fmap. apply (Forall_impl _ _ _ H). by intros e []. Qed.

Lemma cvt2table_loop_Ok size f0 mem : ∀ data es f, entries_at data es → Forall entry_ok (es ++ mem) → Z.of_nat (length (es ++ mem)) <= 510 →
  offset (es ++ mem) (length (es ++ mem)) <= PAGESIZE → size = length (es ++ mem) → filtered f0 es.*1 f →
  ∃ data' f', cvt2table_loop (Z.of_nat size) mem data (1 + Z.of_nat (length es)) (offset es (length es)) (first_key es) (last_key size es) f =
      Ok (data', 1 + Z.of_nat (length (es ++ mem)), offset (es ++ mem) (length (es ++ mem)), first_key (es ++ mem), last_key size (es ++ mem), f') ∧
    entries_at data' (es ++ mem) ∧ (∀ x, has data (2 * 0) (le16_bytes x) → has data' (2 * 0) (le16_bytes x)) ∧ filtered f0 (es ++ mem).*1 f'.
Proof.
  induction mem as [|[k p] mem IH]; intros data es f Hat Hok Hn Hroom Hsize Hf; cbn [cvt2table_loop]; [rewrite app_nil_r in *; eexists _, _; done|].
  replace (es ++ (k, p) :: mem) with ((es ++ [(k, p)]) ++ mem) in * by (by rewrite <-app_assoc).
  pose proof Hok as [Hok1 _]%Forall_app. pose proof Hok1 as [Hes Hkp]%Forall_app. rewrite Forall_singleton in Hkp.
  pose proof (offset_mono _ (S (length es)) (length ((es ++ [(k, p)]) ++ mem)) Hok) as Hm. rewrite !length_app in Hn, Hm, Hsize. cbn [length] in Hn, Hm, Hsize.
  specialize (Hm ltac:(lia)). rewrite offset_app in Hm by (rewrite length_app; simpl; lia). rewrite offset_snoc in Hm. rewrite !length_app in Hroom. cbn [length] in Hroom.
  rewrite (first_key_snoc es k p), (last_key_snoc size es k p) by lia.
  destruct (put_Ok data es k p Hat Hes Hkp) as (d1 & d2 & -> & E2 & Hat2 & Hx2); [lia|lia|]. rbind. rewrite E2. rbind.
  destruct (filtered_set f0 es.*1 f k Hf (keys_ok _ Hes)) as (f1 & -> & Hf1); [by destruct Hkp|]. rbind.
  destruct (IH d2 (es ++ [(k, p)]) f1 Hat2 Hok) as (d3 & f3 & E3 & Hat3 & Hx3 & Hf3);
    [rewrite !length_app; simpl; lia|rewrite !length_app; exact Hroom|rewrite !length_app; simpl; lia|by rewrite fmap_app|].
  rewrite length_app in E3. cbn [length] in E3. rewrite Nat.add_1_r, offset_snoc in E3.
  rewrite (data_start_Ok es k p) by (try done; unfold KEYLEN in *; lia). replace (1 + Z.of_nat (length es) + 1) with (1 + Z.of_nat (S (length es))) by lia.
  exists d3, f3. split; [exact E3|]. auto.
Qed.

Lemma mem_cvt2table_Ok junk mem f : Z.of_nat (length junk) = PAGESIZE → fits mem → mem ≠ [] → from_option usable True f →
  ∃ data f', array_mem_cvt2table junk mem f = Ok (data, first_key mem, last_key (length mem) mem, f') ∧ table data mem ∧ filtered f mem.*1 f'.
Proof.
  intros Hj (Hok & Hn & Hroom) Hne Hf. unfold array_mem_cvt2table.
  destruct (poke_Ok junk 0 (replicate (Z.to_nat (KEYBITMAP / 2)) 255)) as (d & -> & El & _); [lia|rewrite length_replicate, Hj; done|]. rbind.
  destruct (bitmap_set_Ok d 0 (Z.of_nat (length mem))) as (d0 & -> & El0 & Hnum & _); [lia|change PAGESIZE with 8192 in *; lia|lia|]. rbind.
  assert (H0 : entries_at d0 []) by (constructor; [lia|by intros ? ? ? ?|by intros i Hi%Nat.nlt_0_r]).
  assert (Elast : last_key (length mem) [] = None) by (unfold last_key; rewrite decide_False; [done|]; destruct mem; [done|simpl; lia]).
  destruct (cvt2table_loop_Ok (length mem) f mem d0 [] f H0 Hok Hn Hroom eq_refl) as (d1 & f1 & E & Hat & Hx & Hf1); [by destruct f|].
  change (1 + Z.of_nat (length [])) with 1 in E. change (offset [] (length [])) with KEYBITMAP in E. rewrite Elast in E. change (first_key []) with (@None str_key) in E. rewrite E. rbind.
  cbn [app] in *. destruct (end_Ok d1 mem Hat (Hx _ Hnum) Hok Hn Hroom) as (d2 & -> & Ht). rbind. by exists d2, f1.
Qed.

(** ** Reading a table *)

Lemma table_get data es i k p : table data es → es !! i = Some (k, p) →
  bitmap_get data (1 + Z.of_nat i) = Ok (offset es i) ∧ key_at data (1 + Z.of_nat i) = Ok k ∧ ppa_at data (1 + Z.of_nat i) = Ok p ∧
  (l ← peek data (offset es i) PPA_SIZE; le32_read l) = Ok p.
Proof.
  intros Ht Hi. pose proof Ht as [[El Hent Hoff] Hnum Hend Hok [Hn Hroom]]. pose proof (lookup_lt_Some _ _ _ Hi) as Hlt.
  pose proof (Forall_lookup_1 _ _ _ _ Hok Hi) as [(Hkl & Hk255 & Hkb) Hp]. cbn in Hkl, Hk255, Hp. change PAGESIZE with 8192 in *.
  assert (Hr : ∀ j, (j <= length es)%nat → 1024 <= offset es j <= 8192) by (intros j Hj; exact (offset_range data es j Ht Hj)).
  assert (Ea : bitmap_get data (1 + Z.of_nat i) = Ok (offset es i)).
  { apply bitmap_get_has; [by apply Hoff|]. pose proof (Hr i ltac:(lia)). lia. }
  assert (Eb : bitmap_get data (1 + Z.of_nat i + 1) = Ok (offset es (S i))).
  { pose proof (Hr (S i) ltac:(lia)). replace (1 + Z.of_nat i + 1) with (1 + Z.of_nat (S i)) by lia. apply bitmap_get_has; [|lia].
    destruct (decide (S i = length es)) as [->|Hne]; [done|apply Hoff; lia]. }
  pose proof (Hent i k p Hi) as [Hp4 Hkey]%has_app. rewrite le32_bytes_length in Hkey.
  assert (Ep : (l ← peek data (offset es i) PPA_SIZE; le32_read l) = Ok p).
  { rewrite (peek_has _ _ _ PPA_SIZE Hp4 eq_refl). rbind. rewrite <-(app_nil_r (le32_bytes p)). apply le32_read_bytes. lia. }
  split; [done|]. split; [|split; [|done]].
  - unfold key_at. rewrite Ea. rbind. rewrite Eb. rbind. unfold key_between. rewrite (offset_S _ _ _ _ Hi).
    replace (offset es i + KEYLEN k - offset es i - PPA_SIZE) with (len k) by (unfold KEYLEN; lia). rewrite u8_id by lia.
    rewrite (peek_has _ _ (key k) _ Hkey) by done. rbind. by destruct k.
  - unfold ppa_at. rewrite Ea. rbind. done.
Qed.

Lemma table_num data es : table data es → bitmap_get data 0 = Ok (Z.of_nat (length es)).
Proof. intros Ht. apply bitmap_get_has; [apply (tb_num _ _ Ht)|]. pose proof (tb_room _ _ Ht). lia. Qed.

(** *** Sorted tables *)

Definition key_lt (a b : str_key * Z) : Prop := KEYCMP a.1 b.1 < 0.
Definition sorted es : Prop := StronglySorted key_lt es.

Lemma sorted_lookup es i j a b : sorted es → (i < j)%nat → es !! i = Some a → es !! j = Some b → key_lt a b.
Proof.
  intros Hs. revert i j. induction Hs as [|x l Hl IH Hx]; intros i j Hij Hi Hj; [done|].
  destruct j as [|j]; [lia|]. destruct i as [|i]; cbn in Hi, Hj.
  - injection Hi as ->. rewrite Forall_forall in Hx. apply Hx. by eapply list_elem_of_lookup_2.
  - apply (IH i j); [lia|done|done].
Qed.

Lemma key_lt_irrefl es i j k p q : sorted es → Forall entry_ok es → es !! i = Some (k, p) → es !! j = Some (k, q) → i = j.
Proof.
  intros Hs Hok Hi Hj. pose proof (proj1 (Forall_lookup_1 _ _ _ _ Hok Hi)) as Hk. cbn in Hk.
  assert (H0 : KEYCMP k k = 0) by (by apply (cmp_eq (cmp:=KEYCMP))).
  destruct (Nat.lt_trichotomy i j) as [Hlt|[?|Hlt]]; [|done|].
  - pose proof (sorted_lookup _ _ _ _ _ Hs Hlt Hi Hj) as H. unfold key_lt in H. cbn in H. lia.
  - pose proof (sorted_lookup _ _ _ _ _ Hs Hlt Hj Hi) as H. unfold key_lt in H. cbn in H. lia.
Qed.

(** Entry [i] compared with a key. *)
Definition side es (k : str_key) (i : nat) : Z := match es !! i with Some e => KEYCMP e.1 k | None => 1 end.

Lemma side_mono es k i j : sorted es → Forall entry_ok es → key_wf k → (i < j < length es)%nat → (side es k j <= 0 → side es k i < 0) ∧ (0 <= side es k i → 0 < side es k j).
Proof.
  intros Hs Hok Hk [Hij Hj]. destruct (lookup_lt_is_Some_2 es i ltac:(lia)) as [a Ha], (lookup_lt_is_Some_2 es j Hj) as [b Hb].
  unfold side. rewrite Ha, Hb. pose proof (sorted_lookup _ _ _ _ _ Hs Hij Ha Hb) as Hlt. unfold key_lt in Hlt.
  pose proof (proj1 (Forall_lookup_1 _ _ _ _ Hok Ha)) as Hwa. pose proof (proj1 (Forall_lookup_1 _ _ _ _ Hok Hb)) as Hwb.
  pose proof (cmp_eq (cmp:=KEYCMP) a.1 k Hwa Hk) as Ea. pose proof (cmp_eq (cmp:=KEYCMP) b.1 k Hwb Hk) as Eb.
  pose proof (cmp_antisym (cmp:=KEYCMP) a.1 k Hwa Hk) as Na. pose proof (cmp_antisym (cmp:=KEYCMP) a.1 b.1 Hwa Hwb) as Nab.
  pose proof (cmp_trans (cmp:=KEYCMP) a.1 b.1 k Hwa Hwb Hk Hlt) as T1. pose proof (cmp_trans (cmp:=KEYCMP) k a.1 b.1 Hk Hwa Hwb) as T2.
  pose proof (cmp_antisym (cmp:=KEYCMP) b.1 k Hwb Hk) as Nb. split; intros H.
  - destruct (decide (KEYCMP b.1 k = 0)) as [E|N]; [apply Eb in E; subst; done|]. apply T1. lia.
  - destruct (decide (KEYCMP a.1 k = 0)) as [E|N]; [apply Ea in E; subst; lia|]. specialize (T2 ltac:(lia) Hlt). lia.
Qed.

Lemma table_side data es k i : table data es → (i < length es)%nat →
  ∃ e, es !! i = Some e ∧ key_at data (1 + Z.of_nat i) = Ok e.1 ∧ KEYCMP e.1 k = side es k i.
Proof.
  intros Ht Hi. destruct (lookup_lt_is_Some_2 es i Hi) as [[k' p] He]. exists (k', p). split; [done|].
  destruct (table_get data es i k' p Ht He) as (_ & -> & _). unfold side. by rewrite He.
Qed.

(** The search keeps the key, if it is there, between [s] and [e]. *)
Lemma find_loop_Ok data es k : table data es → sorted es → key_wf k → ∀ fuel s e, 1 <= s <= e + 1 → e <= Z.of_nat (length es) → e - s + 1 < Z.of_nat fuel →
  (∀ j, (j < length es)%nat → 1 + Z.of_nat j < s → side es k j < 0) → (∀ j, (j < length es)%nat → e < 1 + Z.of_nat j → 0 < side es k j) →
  ∃ r, find_keyset_loop fuel data k s e = Ok r ∧
    match r with
    | Some off => ∃ i p, es !! i = Some (k, p) ∧ off = offset es i
    | None => ∀ i, (i < length es)%nat → side es k i ≠ 0
    end.
Proof.
  intros Ht Hs Hk. pose proof (tb_ok _ _ Ht) as Hok. induction fuel as [|fuel IH]; intros s e H1 H2 Hf Hlo Hhi; [lia|]. cbn [find_keyset_loop].
  destruct (Z.leb_spec s e) as [Hse|Hse].
  - set (mid := (s + e) / 2). assert (Hmid : s <= mid <= e) by (unfold mid; Z.to_euclidean_division_equations; lia).
    set (i := Z.to_nat (mid - 1)). assert (Ei : mid = 1 + Z.of_nat i) by lia. assert (Hi : (i < length es)%nat) by lia.
    destruct (table_side data es k i Ht Hi) as (x & Hx & Ek & Es). rewrite Ei, Ek. rbind. rewrite Es.
    destruct (Z.eqb_spec (side es k i) 0) as [Hz|Hnz].
    + destruct x as [k' p]. rewrite <-Es in Hz. cbn [fst] in Hz. apply (cmp_eq (cmp:=KEYCMP)) in Hz; [|apply (Forall_lookup_1 _ _ _ _ Hok Hx)|done]. subst k'.
      destruct (table_get data es i k p Ht Hx) as (-> & _). rbind. eexists. split; [done|]. by exists i, p.
    + destruct (Z.ltb_spec (side es k i) 0) as [Hneg|Hpos]; apply IH; try lia; try done.
      * intros j Hj Hlt. destruct (decide (j = i)) as [->|]; [lia|]. destruct (decide (j < i)%nat); [|lia].
        apply (side_mono es k j i Hs Hok Hk); lia.
      * intros j Hj Hlt. destruct (decide (j = i)) as [->|]; [lia|]. apply (side_mono es k i j Hs Hok Hk); lia.
  - eexists. split; [done|]. intros i Hi Hz. destruct (decide (1 + Z.of_nat i < s)) as [Hlt|]; [specialize (Hlo i Hi Hlt); lia|].
    specialize (Hhi i Hi ltac:(lia)). lia.
Qed.

Lemma list_to_map_sorted es k p : sorted es → Forall entry_ok es → (k, p) ∈ es ↔ (list_to_map es : gmap str_key Z) !! k = Some p.
Proof.
  intros Hs Hok. apply elem_of_list_to_map. apply NoDup_alt. intros i j x Hi Hj. rewrite list_lookup_fmap in Hi, Hj.
  destruct (es !! i) as [[k1 p1]|] eqn:E1; [|done]. destruct (es !! j) as [[k2 p2]|] eqn:E2; [|done]. injection Hi as ->. injection Hj as ->.
  by eapply key_lt_irrefl.
Qed.

(** [array_find_keyset] is the lookup in the table. *)
Lemma find_keyset_Ok data es k : table data es → sorted es → key_wf k →
  ∃ r, array_find_keyset data k = Ok r ∧
    match r with
    | Some off => ∃ p, (list_to_map es : gmap str_key Z) !! k = Some p ∧ (l ← peek data off PPA_SIZE; le32_read l) = Ok p
    | None => (list_to_map es : gmap str_key Z) !! k = None
    end.
Proof.
  intros Ht Hs Hk. pose proof (tb_ok _ _ Ht) as Hok. unfold array_find_keyset. rewrite (table_num _ _ Ht). rbind. rewrite Nat2Z.id.
  destruct (find_loop_Ok data es k Ht Hs Hk (S (length es)) 1 (Z.of_nat (length es))) as (r & E & Hr); [lia|lia|lia|lia|lia|]. exists r. split; [done|].
  destruct r as [off|].
  - destruct Hr as (i & p & Hi & ->). exists p. split; [|by apply (table_get data es i k p Ht Hi)].
    apply list_to_map_sorted; [done|done|]. by eapply list_elem_of_lookup_2.
  - destruct (list_to_map es !! k) as [p|] eqn:Em; [|done]. apply list_to_map_sorted in Em as [i Hi]%list_elem_of_lookup; [|done|done].
    destruct (Hr i); [by eapply lookup_lt_Some|]. unfold side. rewrite Hi. by apply (cmp_eq (cmp:=KEYCMP)).
Qed.

(** *** The lower bound *)

(** [i] is the first position whose key is not below [k]. *)
Definition lower_bound_at es (k : str_key) (i : Z) : Prop :=
  1 <= i <= Z.of_nat (length es) + 1 ∧
  ∀ j, (j < length es)%nat → (1 + Z.of_nat j < i → side es k j < 0) ∧ (i <= 1 + Z.of_nat j → 0 <= side es k j).

Lemma lower_loop_Ok data es k : table data es → sorted es → key_wf k → ∀ fuel s e mid r, 1 <= s <= e + 1 → e <= Z.of_nat (length es) → e - s + 1 < Z.of_nat fuel →
  (∀ j, (j < length es)%nat → 1 + Z.of_nat j < s → side es k j < 0) → (∀ j, (j < length es)%nat → e < 1 + Z.of_nat j → 0 < side es k j) →
  r < 0 ∧ s = mid + 1 ∨ 0 < r ∧ e = mid - 1 ∨ s <= e →
  ∃ i, lower_bound_loop fuel data k s e mid r = Ok i ∧ lower_bound_at es k i.
Proof.
  intros Ht Hs Hk. pose proof (tb_ok _ _ Ht) as Hok.
  induction fuel as [|fuel IH]; intros s e mid r H1 H2 Hf Hlo Hhi Hr; [lia|]. cbn [lower_bound_loop]. destruct (Z.leb_spec s e) as [Hse|Hse].
  - clear Hr mid r. set (mid := (s + e) / 2). assert (Hmid : s <= mid <= e) by (unfold mid; Z.to_euclidean_division_equations; lia).
    set (i := Z.to_nat (mid - 1)). assert (Ei : mid = 1 + Z.of_nat i) by lia. clearbody mid. assert (Hi : (i < length es)%nat) by lia.
    destruct (table_side data es k i Ht Hi) as (x & Hx & Ek & Es). rewrite Ei, Ek. rbind. rewrite Es.
    assert (Hbelow : side es k i <= 0 → ∀ j, (j < i)%nat → side es k j < 0) by (intros H j Hj; apply (side_mono es k j i Hs Hok Hk); [lia|done]).
    assert (Habove : 0 <= side es k i → ∀ j, (i < j < length es)%nat → 0 < side es k j) by (intros H j Hj; apply (side_mono es k i j Hs Hok Hk); [lia|done]).
    destruct (Z.eqb_spec (side es k i) 0) as [Hz|Hnz].
    + eexists. split; [done|]. split; [lia|]. intros j Hj. split; intros Hlt; [apply Hbelow; lia|].
      destruct (decide (j = i)) as [->|]; [lia|]. apply Z.lt_le_incl, Habove; lia.
    + destruct (Z.ltb_spec (side es k i) 0) as [Hneg|Hpos]; apply IH; try lia; try done.
      * intros j Hj Hlt. destruct (decide (j = i)) as [->|]; [lia|]. apply Hbelow; lia.
      * intros j Hj Hlt. destruct (decide (j = i)) as [->|]; [lia|]. apply Habove; lia.
  - assert (Hi : lower_bound_at es k s).
    { split; [lia|]. intros j Hj. split; intros Hlt; [by apply Hlo|]. apply Z.lt_le_incl, Hhi; [done|lia]. }
    exists s. split; [|done]. destruct (Z.ltb_spec r 0); f_equal; lia.
Qed.

Lemma lower_bound_Ok data es k : table data es → sorted es → key_wf k → es ≠ [] →
  ∃ i, array_find_idx_lower_bound data k = Ok i ∧ lower_bound_at es k i.
Proof.
  intros Ht Hs Hk Hne. unfold array_find_idx_lower_bound. rewrite (table_num _ _ Ht). rbind. rewrite Nat2Z.id.
  assert (length es ≠ 0%nat) by (by intros ?%nil_length_inv). apply (lower_loop_Ok data es k Ht Hs Hk); lia.
Qed.

(** *** Iterators *)

Lemma not_max data es i : table data es → (i < length es)%nat → bitmap_get data (1 + Z.of_nat i) = Ok (offset es i) ∧ (offset es i =? UINT16_MAX) = false.
Proof.
  intros Ht Hi. destruct (lookup_lt_is_Some_2 es i Hi) as [[k p] He]. split; [by apply (table_get data es i k p Ht He)|].
  apply Z.eqb_neq. pose proof (offset_range data es i Ht ltac:(lia)). change PAGESIZE with 8192 in *. change UINT16_MAX with 65535. lia.
Qed.

Lemma end_offset data es : table data es → bitmap_get data (1 + Z.of_nat (length es)) = Ok (offset es (length es)).
Proof.
  intros Ht. apply bitmap_get_has; [apply (tb_end _ _ Ht)|]. pose proof (offset_range data es (length es) Ht ltac:(lia)).
  change PAGESIZE with 8192 in *. unfold KEYBITMAP in *. lia.
Qed.

Lemma for_each_Ok data es : table data es → ∀ fuel i, (i <= length es)%nat → (length es - i < fuel)%nat →
  for_each_header fuel data (1 + Z.of_nat i) = Ok (drop i es).
Proof.
  intros Ht. induction fuel as [|fuel IH]; intros i Hi Hf; [lia|]. cbn [for_each_header]. rewrite (table_num _ _ Ht).
  destruct (decide (i = length es)) as [->|Hne].
  - rewrite (end_offset _ _ Ht). rbind. rewrite (proj2 (Z.leb_gt _ _)), andb_false_r by lia. by rewrite drop_ge.
  - destruct (not_max data es i Ht ltac:(lia)) as [-> Emax]. rbind. rewrite Emax, (proj2 (Z.leb_le _ _)) by lia. cbn [negb andb].
    destruct (lookup_lt_is_Some_2 es i ltac:(lia)) as [[k p] He]. destruct (table_get data es i k p Ht He) as (_ & -> & -> & _). rbind.
    replace (1 + Z.of_nat i + 1) with (1 + Z.of_nat (S i)) by lia. rewrite IH by lia. rbind. by rewrite (drop_S _ _ _ He).
Qed.

Lemma header_entries_Ok data es : table data es → header_entries data = Ok es.
Proof.
  intros Ht. unfold header_entries. rewrite (table_num _ _ Ht). rbind. rewrite Nat2Z.id. apply (for_each_Ok data es Ht (S (length es)) 0); lia.
Qed.

(** All that an iterator returns. *)
Fixpoint key_iter_rest (fuel : nat) (it : a_key_iter) : res (list (str_key * Z)) :=
  match fuel with
  | O => Err OutOfFuel
  | S fuel =>
    '(o, it) ← array_key_iter_nxt it;
    match o, it with Some e, Some it => es ← key_iter_rest fuel it; Ok (e :: es) | _, _ => Ok [] end
  end.
Fixpoint header_rest (fuel : nat) (it : option header_iter) : res (list (str_key * Z)) :=
  match fuel with
  | O => Err OutOfFuel
  | S fuel =>
    '(o, it) ← array_header_next_key it;
    match o with Some e => es ← header_rest fuel it; Ok (e :: es) | None => Ok [] end
  end.

Lemma key_iter_Ok data es : table data es → ∀ fuel i, (i <= length es)%nat → (length es - i < fuel)%nat →
  key_iter_rest fuel (AKeyIter (1 + Z.of_nat i) data) = Ok (drop i es).
Proof.
  intros Ht. induction fuel as [|fuel IH]; intros i Hi Hf; [lia|]. cbn [key_iter_rest]. unfold array_key_iter_nxt. cbn [ki_body ki_idx].
  rewrite (table_num _ _ Ht). destruct (decide (i = length es)) as [->|Hne].
  - rewrite (end_offset _ _ Ht). rbind. rewrite Z.gtb_ltb, (proj2 (Z.ltb_lt _ _)), orb_true_r by lia. rbind. by rewrite drop_ge.
  - destruct (not_max data es i Ht ltac:(lia)) as [-> Emax]. rbind. rewrite Emax, Z.gtb_ltb, (proj2 (Z.ltb_ge _ _)) by lia. cbn [orb].
    destruct (lookup_lt_is_Some_2 es i ltac:(lia)) as [[k p] He]. destruct (table_get data es i k p Ht He) as (_ & -> & -> & _). rbind.
    replace (1 + Z.of_nat i + 1) with (1 + Z.of_nat (S i)) by lia. rewrite IH by lia. rbind. by rewrite (drop_S _ _ _ He).
Qed.

Lemma header_rest_Ok data es : table data es → ∀ fuel i, (i < length es)%nat → (length es - i <= fuel)%nat →
  header_rest fuel (Some (HIter data (1 + Z.of_nat i))) = Ok (take (length es - 1 - i) (drop i es)).
Proof.
  intros Ht. induction fuel as [|fuel IH]; intros i Hi Hf; [lia|]. cbn [header_rest]. unfold array_header_next_key. cbn [hi_data hi_idx].
  rewrite (table_num _ _ Ht). rbind. rewrite Z.gtb_ltb. destruct (Z.ltb_spec (1 + Z.of_nat i) (Z.of_nat (length es))) as [Hlt|Hge].
  - destruct (lookup_lt_is_Some_2 es i Hi) as [[k p] He]. destruct (table_get data es i k p Ht He) as (_ & -> & -> & _). rbind.
    replace (1 + Z.of_nat i + 1) with (1 + Z.of_nat (S i)) by lia. rewrite IH by lia. rbind. rewrite (drop_S _ _ _ He).
    replace (length es - 1 - i)%nat with (S (length es - 1 - S i)) by lia. done.
  - rbind. by replace (length es - 1 - i)%nat with 0%nat by lia.
Qed.

(** Past the last entry the iterator ends, too. *)
Lemma header_rest_end data es fuel i : table data es → Z.of_nat (length es) <= i → header_rest (S fuel) (Some (HIter data i)) = Ok [].
Proof.
  intros Ht Hi. cbn [header_rest]. unfold array_header_next_key. cbn [hi_data hi_idx]. rewrite (table_num _ _ Ht). rbind.
  rewrite Z.gtb_ltb, (proj2 (Z.ltb_ge _ _)) by lia. done.
Qed.

Lemma elem_middle es i e : sorted es → Forall entry_ok es → (i < length es)%nat →
  e ∈ take (length es - 1 - i) (drop i es) ↔ ∃ j, (i <= j)%nat ∧ es !! j = Some e ∧ last es ≠ Some e.
Proof.
  intros Hs Hok Hi. rewrite list_elem_of_lookup. rewrite last_lookup. split.
  - intros [j [Hj Hlt]%lookup_take_Some]. rewrite lookup_drop in Hj. exists (i + j)%nat. split; [lia|]. split; [done|]. intros Hl. destruct e as [k p].
    pose proof (key_lt_irrefl es _ _ k p p Hs Hok Hj Hl). lia.
  - intros (j & Hij & Hj & Hl). pose proof (lookup_lt_Some _ _ _ Hj). exists (j - i)%nat.
    assert (j ≠ pred (length es)) by congruence. rewrite lookup_take_lt by lia. rewrite lookup_drop. by replace (i + (j - i))%nat with j by lia.
Qed.

Lemma side_lookup es k i e : es !! i = Some e → side es k i = KEYCMP e.1 k.
Proof. unfold side. by intros ->. Qed.

(** C26: writing the memtable to a table and reading the table back. Both writers
    succeed for entries that fit into a page; the loop over a table and its iterator
    then return the entries in order, [array_find_keyset] is the lookup in the map of the
    entries (with the address at the offset that it returns), and the lower bound is the first
    entry not below the key; the run gets its first key, and the filter has all keys. *)
Theorem table_round_trip junk mem f : Z.of_nat (length junk) = PAGESIZE → fits mem → sorted mem → mem ≠ [] → from_option usable True f →
  ∃ d1 d2 f', array_skip_cvt2_data junk mem = Ok d1 ∧ array_mem_cvt2table junk mem f = Ok (d2, first_key mem, last_key (length mem) mem, f') ∧
    covers f f' mem.*1 ∧
    ∀ d, d = d1 ∨ d = d2 → header_entries d = Ok mem ∧ key_iter_rest (S (length mem)) (array_key_iter_init d 1) = Ok mem ∧
      (∀ k, key_wf k → ∃ r, array_find_keyset d k = Ok r ∧
        match r with
        | Some off => ∃ p, (list_to_map mem : gmap str_key Z) !! k = Some p ∧ (l ← peek d off PPA_SIZE; le32_read l) = Ok p
        | None => (list_to_map mem : gmap str_key Z) !! k = None
        end) ∧
      (∀ k, key_wf k → ∃ i, array_find_idx_lower_bound d k = Ok i ∧ lower_bound_at mem k i).
Proof.
  intros Hj Hfit Hs Hne Hf. destruct (skip_cvt2_Ok junk mem Hj Hfit) as (d1 & E1 & Ht1).
  destruct (mem_cvt2table_Ok junk mem f Hj Hfit Hne Hf) as (d2 & f' & E2 & Ht2 & Hf'). exists d1, d2, f'. split; [done|]. split; [done|].
  split; [apply filtered_covers; [apply keys_ok, Hfit|done]|].
  assert (Hread : ∀ d, d = d1 ∨ d = d2 → table d mem) by (by intros d [-> | ->]). intros d Ht%Hread. split; [by apply header_entries_Ok|].
  split; [apply (key_iter_Ok d mem Ht (S (length mem)) 0); lia|]. split; intros k Hk; [by apply find_keyset_Ok|by apply lower_bound_Ok].
Qed.

Definition witness_key (n : Z) : str_key := Key 2 [1; n].
Definition witness_mem : list (str_key * Z) := [(witness_key 1, 10); (witness_key 2, 20); (witness_key 3, 30)].
Definition witness_page : list Z := replicate (Z.to_nat PAGESIZE) 0.

Lemma witness_fits : fits witness_mem ∧ sorted witness_mem.
Proof.
  assert (Hk : ∀ n, 0 <= n < 256 → key_wf (witness_key n)).
  { intros n Hn. split; [done|]. split; [done|]. repeat apply Forall_cons_2; [lia|lia|done]. }
  split; [|repeat constructor]. split; [|vm_compute; done]. repeat apply Forall_cons_2; [split; [apply Hk; lia|done]..|done].
Qed.

Lemma table_round_trip_witness : ∃ d1 d2, array_skip_cvt2_data witness_page witness_mem = Ok d1 ∧
  array_mem_cvt2table witness_page witness_mem None = Ok (d2, Some (witness_key 1), Some (witness_key 3), None) ∧
  header_entries d1 = Ok witness_mem ∧ header_entries d2 = Ok witness_mem.
Proof.
  destruct (table_round_trip witness_page witness_mem None) as (d1 & d2 & f' & E1 & E2 & Hf & Hd); [vm_compute; reflexivity|apply witness_fits|apply witness_fits|discriminate|exact I|].
  destruct f'; [destruct Hf|]. exists d1, d2. split; [exact E1|]. split; [exact E2|]. split; apply Hd; [left|right]; reflexivity.
Defined.

(** The iterator over a header, from a key on, misses the last entry of the
    table: it returns exactly the entries whose keys are not below the key, but for
    the last one ([bitmap[0]>idx], where the entries are numbered from 1). *)
Theorem header_iter_misses_last data es k : table data es → sorted es → es ≠ [] → key_wf k →
  ∃ it l, header_iter_from data (Some k) = Ok it ∧ header_rest (S (length es)) (Some it) = Ok l ∧
    ∀ e, e ∈ l ↔ e ∈ es ∧ 0 <= KEYCMP e.1 k ∧ last es ≠ Some e.
Proof.
  intros Ht Hs Hne Hk. pose proof (tb_ok _ _ Ht) as Hok. destruct (lower_bound_Ok data es k Ht Hs Hk Hne) as (i & E & Hi1 & Hi2).
  unfold header_iter_from. rewrite E. rbind. exists (HIter data i). destruct (decide (i <= Z.of_nat (length es))) as [Hle|Hgt].
  - exists (take (length es - 1 - Z.to_nat (i - 1)) (drop (Z.to_nat (i - 1)) es)). split; [done|].
    pose proof (header_rest_Ok data es Ht (S (length es)) (Z.to_nat (i - 1)) ltac:(lia) ltac:(lia)) as H.
    replace (1 + Z.of_nat (Z.to_nat (i - 1))) with i in H by lia. split; [exact H|]. intros e. rewrite elem_middle by (done || lia). split.
    + intros (j & Hij & Hj & Hl). split; [by eapply list_elem_of_lookup_2|]. split; [|done]. rewrite <-(side_lookup es k j e Hj).
      apply (Hi2 j); [by eapply lookup_lt_Some|lia].
    + intros ([j Hj]%list_elem_of_lookup & Hge & Hl). exists j. split; [|done]. rewrite <-(side_lookup es k j e Hj) in Hge.
      destruct (decide (1 + Z.of_nat j < i)) as [Hlt|]; [|lia]. pose proof (proj1 (Hi2 j ltac:(by eapply lookup_lt_Some)) Hlt). lia.
  - exists []. split; [done|]. split; [apply (header_rest_end data es); [done|lia]|]. intros e. split; [by intros ?%elem_of_nil|].
    intros ([j Hj]%list_elem_of_lookup & Hge & _). rewrite <-(side_lookup es k j e Hj) in Hge. pose proof (lookup_lt_Some _ _ _ Hj).
    pose proof (proj1 (Hi2 j ltac:(lia)) ltac:(lia)). lia.
Qed.

Lemma header_iter_misses_last_witness : ∃ data it l, array_skip_cvt2_data witness_page witness_mem = Ok data ∧ header_iter_from data (Some (witness_key 2)) = Ok it ∧
  header_rest 4 (Some it) = Ok l ∧ (witness_key 2, 20) ∈ l ∧ (witness_key 3, 30) ∉ l.
Proof.
  destruct (skip_cvt2_Ok witness_page witness_mem) as (data & E & Ht); [vm_compute; reflexivity|apply witness_fits|].
  destruct (header_iter_misses_last data witness_mem (witness_key 2) Ht) as (it & l & E1 & E2 & Hl);
    [apply witness_fits|discriminate|split; [reflexivity|split; [reflexivity|repeat constructor; discriminate]]|].
  exists data, it, l. split; [exact E|]. split; [exact E1|]. split; [exact E2|]. split.
  - apply Hl. split; [right; left|]. split; vm_compute; discriminate.
  - intros (_ & _ & H)%Hl. apply H. reflexivity.
Defined.

(** The lengths of the first and of the last key are computed the wrong way round. *)
Lemma keyset_first_length data k p es : table data ((k, p) :: es) → array_find_keyset_first data = Ok (KEYBITMAP + PPA_SIZE, u8 (- len k - 8)).
Proof.
  intros Ht. unfold array_find_keyset_first. destruct (table_get data _ 0 k p Ht eq_refl) as (E & _). change (1 + Z.of_nat 0) with 1 in E.
  change (offset ((k, p) :: es) 0) with KEYBITMAP in E. rewrite E. rbind.
  assert (E2 : bitmap_get data 2 = Ok (offset ((k, p) :: es) 1)).
  { destruct es as [|e es]; [exact (end_offset _ _ Ht)|]. apply (not_max data _ 1 Ht). simpl. lia. }
  rewrite E2. rbind. rewrite (offset_S ((k, p) :: es) 0 k p eq_refl). change (offset ((k, p) :: es) 0) with KEYBITMAP. unfold KEYLEN, PPA_SIZE. do 3 f_equal. lia.
Qed.

End LsmTable.
