(* ===== verification/LsmPipe.v ===== *)
(** * Merging runs of the LSM-tree (level_target/array/pipe.c, pipe_merger.c)

    A compaction merges the tables of the runs of an upper level, or of the memtable,
    with those of the level below. Both inputs are streams of entries over several
    pages ([pbody_get_next_key]); the result is written to fresh pages
    ([pbody_insert_new_key]), one run per page. Of two entries with the same key the
    upper one is kept, and the page of the other is invalidated. *)
From Stdlib Require Import Sorting.Sorted.
From S2P Require Export Prelude Settings Bloom LsmTable.
Import Bloom LsmTable.

Local Open Scope Z_scope.

Module LsmPipe.

(** ** Streams *)

(** [data_ptr] is an array of pages, NULL where none was stored. With [read_from_run]
    the pages are those of the runs, whose locks are free once they were read. *)
Record p_body := PBody {
  max_page : Z; pidx : Z; data_ptr : carray (option (list Z)); filter : option BF;
  now_page : option (list Z); plength : Z; max_key : Z; kidx : Z }.
Implicit Types p : p_body.

Definition pbody_init (data : carray (option (list Z))) (size : Z) (f : option BF) : p_body := PBody size 0 data f None 0 0 0.

(** [junk i] is what [malloc] returns for page [i]. *)
Section ops.
Context (junk : Z → list Z).

Definition new_page_set p (iswrite : bool) : res p_body :=
  o ← ca_get (data_ptr p) (pidx p);
  page ← match o with Some page => Ok page | None => if iswrite then Ok (junk (pidx p)) else Err Undefined end;
  n ← bitmap_get page 0;
  Ok (PBody (max_page p) (u32 (pidx p + 1)) (data_ptr p) (filter p) (Some page) 1024 n 1).

(** The key [{-1, NULL}] at the end; [ppa] is only set with a key. *)
Definition KEY_END : str_key := Key UINT8_MAX [].
Definition pbody_get_next_key p (ppa : Z) : res (str_key * Z * p_body) :=
  p ← (if (match now_page p with None => true | Some _ => false end) || ((pidx p <? max_page p) && (kidx p >? max_key p))
       then new_page_set p false else Ok p);
  if (pidx p >=? max_page p) && (kidx p >? max_key p) then Ok (KEY_END, ppa, p)
  else
    page ← deref (now_page p);
    ppa ← ppa_at page (kidx p);
    k ← key_at page (kidx p);
    Ok (k, ppa, PBody (max_page p) (pidx p) (data_ptr p) (filter p) (now_page p) (plength p) (max_key p) (u32 (kidx p + 1))).

(** The page that is full, or is flushed, is stored. *)
Definition store_page p : res (option (list Z) * p_body) :=
  match now_page p with
  | None => Ok (None, p)
  | Some page =>
    page ← bitmap_set page 0 (kidx p - 1);
    page ← bitmap_set page (kidx p) (plength p);
    d ← ca_set (data_ptr p) (pidx p - 1) (Some page);
    Ok (Some page, PBody (max_page p) (pidx p) d (filter p) (Some page) (plength p) (max_key p) (kidx p))
  end.
Definition append_key p (k : str_key) (ppa : Z) : res p_body :=
  page ← deref (now_page p);
  page ← put_entry page (plength p) k ppa;
  f ← match filter p with None => Ok None | Some b => b ← bf_set (Some b) k; Ok (Some b) end;
  page ← bitmap_set page (kidx p) (plength p);
  Ok (PBody (max_page p) (pidx p) (data_ptr p) f (Some page) (u32 (plength p + (PPA_SIZE + len k))) (max_key p) (u32 (kidx p + 1))).

Definition pbody_insert_new_key p (k : str_key) (ppa : Z) (flush : bool) : res (option (list Z) * p_body) :=
  if (flush && (kidx p >? 1)) || (match now_page p with None => true | Some _ => false end) ||
     (kidx p >=? (PAGESIZE - 1024) / 2 - 2) || (plength p + (len k + PPA_SIZE) >? PAGESIZE)
  then
    '(r, p) ← store_page p;
    if flush then Ok (r, p)
    else p ← new_page_set p true; p ← append_key p k ppa; Ok (r, p)
  else p ← append_key p k ppa; Ok (None, p).

Definition pbody_get_data p (init : bool) : res (option (list Z) * p_body) :=
  let p := if init then PBody (pidx p) 0 (data_ptr p) (filter p) (now_page p) (plength p) (max_key p) (kidx p) else p in
  if pidx p <? max_page p then
    o ← ca_get (data_ptr p) (pidx p);
    Ok (o, PBody (max_page p) (u32 (pidx p + 1)) (data_ptr p) (filter p) (now_page p) (plength p) (max_key p) (kidx p))
  else Ok (None, p).

(** ** The merge *)

(** The addresses given to [invalidate_PPA] are collected in order. *)
Fixpoint merge_loop (fuel : nat) (lp hp rp : p_body) (lk hk : str_key) (lppa hppa : Z) (inv : list Z) : res (p_body * list Z) :=
  match fuel with
  | O => Err OutOfFuel
  | S fuel =>
    if (len lk =? UINT8_MAX) && (len hk =? UINT8_MAX) then Ok (rp, inv)
    else
      '(next_pop, inv) ←
        (if len lk =? UINT8_MAX then Ok (1, inv)
         else if len hk =? UINT8_MAX then Ok (-1, inv)
         else
           bl ← KEYVALCHECK lk;
           abort_if (negb bl) (bh ← KEYVALCHECK hk; abort_if (negb bh)
           (let c := KEYCMP lk hk in Ok (c, if c =? 0 then inv ++ [lppa] else inv))));
      let '(k, ppa) := if next_pop <? 0 then (lk, lppa) else (hk, hppa) in
      '(_, rp) ← pbody_insert_new_key rp k ppa false;
      if next_pop <? 0 then
        '(lk, lppa, lp) ← pbody_get_next_key lp lppa; merge_loop fuel lp hp rp lk hk lppa hppa inv
      else if next_pop >? 0 then
        '(hk, hppa, hp) ← pbody_get_next_key hp hppa; merge_loop fuel lp hp rp lk hk lppa hppa inv
      else
        '(lk, lppa, lp) ← pbody_get_next_key lp lppa;
        '(hk, hppa, hp) ← pbody_get_next_key hp hppa; merge_loop fuel lp hp rp lk hk lppa hppa inv
  end.

Definition pages_array (l : list (list Z)) : carray (option (list Z)) :=
  CArr (Z.of_nat (length l)) None (list_to_map (zip (seqZ 0 (Z.of_nat (length l))) (Some <$> l))).

(** The upper input: the memtable, or the pages of runs. *)
Inductive upper := FromMem (mem : list (str_key * Z)) | FromRuns (pages : list (list Z)).

Definition result_padding : Z := 2.

(** The loop and the last page, with the uninitialised [insert_key] and [rppa] that
    the flush does not use. *)
Definition merge_pages (fuel : nat) (u_data o_data : list (list Z)) (f : option BF) : res (p_body * list Z) :=
  let o_num := Z.of_nat (length o_data) in let u_num := Z.of_nat (length u_data) in
  let lp := pbody_init (pages_array o_data) o_num None in
  let hp := pbody_init (pages_array u_data) u_num None in
  let size := o_num + u_num + result_padding in
  let rp := pbody_init (ca_new size None) size f in
  '(lk, lppa, lp) ← pbody_get_next_key lp 0;
  '(hk, hppa, hp) ← pbody_get_next_key hp 0;
  '(rp, inv) ← merge_loop fuel lp hp rp lk hk lppa hppa [];
  '(_, rp) ← pbody_insert_new_key rp KEY_END 0 true;
  Ok (rp, inv).

Definition array_pipe_merger (fuel : nat) (jmem : list Z) (u : upper) (o_data : list (list Z)) (f : option BF) : res (p_body * list Z) :=
  u_data ← match u with FromMem mem => d ← array_skip_cvt2_data jmem mem; Ok [d] | FromRuns pages => Ok pages end;
  merge_pages fuel u_data o_data f.

End ops.

(** ** Runs from the result *)

Record run_t := Run { r_key : str_key; r_end : str_key; pbn : Z; level_caching_data : option (list Z); cpt_data : option (list Z) }.

Definition array_make_run (s e : str_key) (pbn : Z) : run_t := Run s e pbn None None.

Definition array_pipe_make_run (LEVELCACHING : Z) (data : list Z) (level_idx : Z) : res run_t :=
  num ← bitmap_get data 0;
  s ← key_at data 1;
  e ← key_at data num;
  let r := array_make_run s e (u32 (-1)) in
  Ok (if level_idx <? LEVELCACHING then Run (r_key r) (r_end r) (pbn r) (Some data) None
      else Run (r_key r) (r_end r) (pbn r) None (Some data)).

(** [array_pipe_cutter], with the flag [cutter_start] *)
Definition array_pipe_cutter (LEVELCACHING : Z) (start : bool) (rp : p_body) (level_idx : Z) : res (option run_t * p_body) :=
  '(o, rp) ← pbody_get_data rp start;
  match o with
  | None => Ok (None, rp)
  | Some data => r ← array_pipe_make_run LEVELCACHING data level_idx; Ok (Some r, rp)
  end.

(** The cutter until it returns NULL. *)
Fixpoint cut_runs (fuel : nat) (LEVELCACHING : Z) (start : bool) (rp : p_body) (level_idx : Z) : res (list run_t) :=
  match fuel with
  | O => Err OutOfFuel
  | S fuel =>
    '(o, rp) ← array_pipe_cutter LEVELCACHING start rp level_idx;
    match o with None => Ok [] | Some r => rs ← cut_runs fuel LEVELCACHING false rp level_idx; Ok (r :: rs) end
  end.

(** [array_pipe_p_merger_cutter]: the same merge without a filter; the runs are given
    to [lev_insert_write] in this order. *)
Definition array_pipe_p_merger_cutter (junk : Z → list Z) (fuel : nat) (jmem : list Z) (u : upper) (l_data : list (list Z)) (LEVELCACHING level_idx : Z)
    : res (list run_t * list Z) :=
  '(rp, inv) ← array_pipe_merger junk fuel jmem u l_data None;
  rs ← cut_runs (S (Z.to_nat (pidx rp))) LEVELCACHING true rp level_idx;
  Ok (rs, inv).

(** ** Reading a stream *)

Implicit Types (es rest cur us ls : list (str_key * Z)) (ess : list (list (str_key * Z))) (data page : list Z).

(** The pages from [i] on are tables of [ess]. *)
Definition tables_from (a : carray (option (list Z))) (i : Z) ess : Prop :=
  ∀ j es, ess !! j = Some es → ∃ data, ca_at a (i + Z.of_nat j) = Some data ∧ table data es ∧ es ≠ [].

Lemma pages_array_at l i : 0 <= i < Z.of_nat (length l) → ca_at (pages_array l) i = l !! Z.to_nat i.
Proof.
  intros Hi. unfold ca_at, pages_array. cbn [ca_map ca_fill]. destruct (lookup_lt_is_Some_2 l (Z.to_nat i) ltac:(lia)) as [x Hx]. rewrite Hx.
  rewrite (elem_of_list_to_map_1 _ i (Some x)); [done|..].
  - rewrite fst_zip by (rewrite length_seqZ, length_fmap; lia). apply NoDup_seqZ.
  - apply list_elem_of_lookup. exists (Z.to_nat i). apply lookup_zip_Some. split; [|by rewrite list_lookup_fmap, Hx].
    apply lookup_seqZ. lia.
Qed.

Lemma tables_from_array l ess : Forall2 table l ess → Forall (λ es, es ≠ []) ess → tables_from (pages_array l) 0 ess.
Proof.
  intros Hl Hne j es Hj. destruct (Forall2_lookup_r _ _ _ _ _ Hl Hj) as (data & Hd & Ht). exists data.
  pose proof (lookup_lt_Some _ _ _ Hd). rewrite pages_array_at by lia. replace (Z.to_nat (0 + Z.of_nat j)) with j by lia.
  split; [done|]. split; [done|]. by apply (Forall_lookup_1 _ _ _ _ Hne Hj).
Qed.

(** What a stream will return. *)
Inductive reader p : list (str_key * Z) → Prop :=
| reader_start ess : now_page p = None → pidx p = 0 → max_page p = Z.of_nat (length ess) → ca_len (data_ptr p) = max_page p → max_page p < 2 ^ 31 →
    tables_from (data_ptr p) 0 ess → ess ≠ [] → reader p (concat ess)
| reader_at data es i ess : now_page p = Some data → table data es → (i <= length es)%nat → kidx p = 1 + Z.of_nat i → max_key p = Z.of_nat (length es) →
    0 <= pidx p → max_page p = pidx p + Z.of_nat (length ess) → ca_len (data_ptr p) = max_page p → max_page p < 2 ^ 31 →
    tables_from (data_ptr p) (pidx p) ess → reader p (drop i es ++ concat ess).

Lemma tables_from_cons a i es ess : tables_from a i (es :: ess) →
  (∃ data, ca_at a i = Some data ∧ table data es ∧ es ≠ []) ∧ tables_from a (i + 1) ess.
Proof.
  intros H. split.
  - destruct (H 0%nat es eq_refl) as (data & Hd & Ht). rewrite Z.add_0_r in Hd. by exists data.
  - intros j es' Hj. destruct (H (S j) es' Hj) as (data & Hd & Ht). exists data. by replace (i + 1 + Z.of_nat j) with (i + Z.of_nat (S j)) by lia.
Qed.

Lemma new_page_read junk p es ess : tables_from (data_ptr p) (pidx p) (es :: ess) → 0 <= pidx p → max_page p = pidx p + Z.of_nat (length (es :: ess)) →
  ca_len (data_ptr p) = max_page p → max_page p < 2 ^ 31 →
  ∃ data, new_page_set junk p false = Ok (PBody (max_page p) (pidx p + 1) (data_ptr p) (filter p) (Some data) 1024 (Z.of_nat (length es)) 1) ∧
    table data es ∧ es ≠ [] ∧ tables_from (data_ptr p) (pidx p + 1) ess.
Proof.
  intros Ht Hi Hm Hl Hb. destruct (tables_from_cons _ _ _ _ Ht) as ((data & Hd & Htd & Hne) & Ht'). exists data. simpl length in Hm.
  unfold new_page_set. rewrite ca_get_in, Hd by lia. rbind. rewrite (table_num _ _ Htd). rbind. rewrite u32_id by lia. done.
Qed.

(** An entry of the page at hand. *)
Lemma page_entry_Ok junk p data es i ess ppa k q : now_page p = Some data → table data es → es !! i = Some (k, q) → kidx p = 1 + Z.of_nat i →
  max_key p = Z.of_nat (length es) → 0 <= pidx p → max_page p = pidx p + Z.of_nat (length ess) → ca_len (data_ptr p) = max_page p → max_page p < 2 ^ 31 →
  tables_from (data_ptr p) (pidx p) ess →
  ∃ p', pbody_get_next_key junk p ppa = Ok (k, q, p') ∧ reader p' (drop (S i) es ++ concat ess).
Proof.
  intros Hn Ht Hi Hk Hmk Hp Hm Hl Hb Hts. pose proof (lookup_lt_Some _ _ _ Hi). pose proof (proj1 (tb_room _ _ Ht)). unfold pbody_get_next_key.
  rewrite Hn. cbn [orb]. assert (Hkm : (kidx p >? max_key p) = false) by (rewrite Z.gtb_ltb; apply Z.ltb_ge; lia). rewrite Hkm, andb_false_r. rbind.
  rewrite Hkm, andb_false_r, Hn. cbn [deref]. rbind. rewrite Hk. destruct (table_get data es i k q Ht Hi) as (_ & -> & -> & _). rbind.
  eexists. split; [done|]. eapply reader_at; cbn [now_page kidx max_key pidx max_page data_ptr]; try done; rewrite ?u32_id by lia; lia.
Qed.

(** A new page is taken first. *)
Lemma read_new_page junk p es ess ppa : now_page p = None ∨ kidx p > max_key p → tables_from (data_ptr p) (pidx p) (es :: ess) → 0 <= pidx p →
  max_page p = pidx p + Z.of_nat (length (es :: ess)) → ca_len (data_ptr p) = max_page p → max_page p < 2 ^ 31 →
  ∃ k q es' p', es = (k, q) :: es' ∧ pbody_get_next_key junk p ppa = Ok (k, q, p') ∧ reader p' (es' ++ concat ess).
Proof.
  intros Hnew Hts Hp Hm Hl Hb. destruct (new_page_read junk p es ess Hts Hp Hm Hl Hb) as (data & E & Ht & Hne & Hts'). simpl length in Hm.
  destruct es as [|[k q] es']; [done|]. exists k, q, es'. set (p1 := PBody _ _ _ _ _ _ _ _) in E.
  destruct (page_entry_Ok junk p1 data ((k, q) :: es') 0 ess ppa k q) as (p' & E' & Hr); try done; cbn [pidx max_page data_ptr p1]; try lia.
  exists p'. split; [done|]. split; [|done]. rewrite <-E'. unfold pbody_get_next_key at 1.
  assert (Hc : ((match now_page p with None => true | Some _ => false end) || ((pidx p <? max_page p) && (kidx p >? max_key p))) = true).
  { destruct Hnew as [->|Hk]; [done|]. apply orb_true_iff. right. rewrite Z.gtb_ltb. apply andb_true_iff. split; apply Z.ltb_lt; lia. }
  rewrite Hc, E. rbind. unfold pbody_get_next_key. cbn [now_page p1 orb kidx max_key pidx max_page].
  assert (Hk0 : (1 >? Z.of_nat (length ((k, q) :: es'))) = false) by (rewrite Z.gtb_ltb; apply Z.ltb_ge; simpl; lia). rewrite Hk0, !andb_false_r. rbind. cbn [pidx max_page kidx max_key p1]. by rewrite Hk0, andb_false_r.
Qed.

Lemma next_key_Ok junk p rest ppa : reader p rest →
  ∃ p', match rest with
    | [] => pbody_get_next_key junk p ppa = Ok (KEY_END, ppa, p') ∧ reader p' []
    | (k, q) :: rest' => pbody_get_next_key junk p ppa = Ok (k, q, p') ∧ reader p' rest'
    end.
Proof.
  intros [ess Hn Hi Hm Hl Hb Hts Hne|data es i ess Hn Ht Hi Hk Hmk Hp Hm Hl Hb Hts].
  - destruct ess as [|es ess]; [done|]. rewrite <-Hi in Hts.
    destruct (read_new_page junk p es ess ppa) as (k & q & es' & p' & -> & E & Hr); try done; [by left|lia|lia|]. by exists p'.
  - destruct (decide (i = length es)) as [->|Hlt].
    + rewrite drop_all. destruct ess as [|es' ess].
      * exists p. cbn. split; [|replace [] with (drop (length es) es ++ concat []) by (by rewrite drop_all); by eapply reader_at].
        simpl length in Hm. unfold pbody_get_next_key. rewrite Hn. cbn [orb]. rewrite (proj2 (Z.ltb_ge (pidx p) _)) by lia. cbn [andb]. rbind.
        rewrite Z.geb_leb, Z.gtb_ltb, (proj2 (Z.leb_le _ _)), (proj2 (Z.ltb_lt _ _)) by lia. done.
      * destruct (read_new_page junk p es' ess ppa) as (k & q & es'' & p' & -> & E & Hr); try done; [right; lia|]. by exists p'.
    + destruct (lookup_lt_is_Some_2 es i ltac:(lia)) as [[k q] He]. rewrite (drop_S _ _ _ He).
      destruct (page_entry_Ok junk p data es i ess ppa k q) as (p' & E & Hr); try done. by exists p'.
Qed.

(** ** Writing a stream *)

Definition bytes es : Z := foldr (λ e n, KEYLEN e.1 + n) 0 es.

Lemma offset_end es : offset es (length es) = 1024 + bytes es.
Proof. unfold offset, bytes. by rewrite take_ge. Qed.

Lemma bytes_app es es' : bytes (es ++ es') = bytes es + bytes es'.
Proof. unfold bytes. by rewrite foldr_app, bytes_shift. Qed.

(** Keys of 11 to 254 bytes with a first byte that is not negative as a [char]: 255
    marks the end of a stream, and with keys of 10 bytes or less the bitmap of a page
    overflows. *)
Definition good (e : str_key * Z) : Prop := entry_ok e ∧ 11 <= len e.1 <= 254 ∧ KEYVALCHECK e.1 = Ok true.

Lemma good_ok es : Forall good es → Forall entry_ok es.
Proof. intros H. apply (Forall_impl _ _ _ H). by intros e []. Qed.

Lemma good_count es : Forall good es → 15 * Z.of_nat (length es) <= bytes es.
Proof. unfold bytes. induction 1 as [|e es (_ & Hl & _) _ IH]; cbn; [lia|]. unfold KEYLEN at 1. unfold PPA_SIZE. lia. Qed.

Lemma bytes_cons k q es : bytes ((k, q) :: es) = KEYLEN k + bytes es.
Proof. done. Qed.

Lemma bytes_nonneg es : Forall good es → 0 <= bytes es.
Proof. intros H%good_count. lia. Qed.

(** A family of entries, and how many bytes of a page at least are used when the next
    entry does not fit. *)
Class Family := {
  fam : str_key * Z → Prop;
  full_bytes : Z;
  fam_good e : fam e → good e;
  full_pos : 0 < full_bytes;
  fam_full cur k q : Forall fam cur → fam (k, q) → 7168 < bytes cur + KEYLEN k → full_bytes <= bytes cur;
}.

(** Any keys; and keys of one length, whose pages are all equally full. *)
#[export, refine] Instance any_length : Family := {| fam := good; full_bytes := 6911 |}.
Proof.
  - done.
  - lia.
  - intros cur k q _ (_ & Hl & _). unfold KEYLEN, PPA_SIZE. cbn in Hl. lia.
Defined.

Lemma bytes_same L es : Forall (λ e, len e.1 = L) es → bytes es = Z.of_nat (length es) * (L + 4).
Proof. unfold bytes. induction 1 as [|e es He _ IH]; cbn [foldr length]; [done|]. unfold KEYLEN at 1. unfold PPA_SIZE. lia. Qed.

Definition same_length (L : Z) (HL : 0 < L + 4 <= 7168) : Family.
Proof.
  refine {| fam := λ e, good e ∧ len e.1 = L; full_bytes := 7168 / (L + 4) * (L + 4) |}.
  - by intros e [? _].
  - assert (1 <= 7168 / (L + 4)) by (apply Z.div_le_lower_bound; lia). nia.
  - intros cur k q Hcur [_ Hk] Hbig. rewrite (bytes_same L) by (apply (Forall_impl _ _ _ Hcur); by intros e []). cbn in Hk.
    rewrite (bytes_same L) in Hbig by (apply (Forall_impl _ _ _ Hcur); by intros e []). unfold KEYLEN, PPA_SIZE in Hbig. rewrite Hk in Hbig.
    assert (7168 / (L + 4) < Z.of_nat (length cur) + 1) by (apply Z.div_lt_upper_bound; lia). nia.
Defined.

(** The page at hand holds [cur]. *)
Record page_at p cur : Prop := PageAt {
  pa_page : ∃ page, now_page p = Some page ∧ entries_at page cur;
  pa_good : Forall good cur;
  pa_kidx : kidx p = 1 + Z.of_nat (length cur);
  pa_length : plength p = 1024 + bytes cur;
  pa_fits : 1024 + bytes cur <= PAGESIZE;
}.

(** The pages [done] are stored. *)
Record stored p ess : Prop := Stored {
  so_pages : tables_from (data_ptr p) 0 ess;
  so_none j : Z.of_nat (length ess) <= j → ca_at (data_ptr p) j = None;
  so_cap : ca_len (data_ptr p) = max_page p ∧ max_page p < 2 ^ 31;
}.

Lemma append_key_Ok p cur k q f0 ks : page_at p cur → good (k, q) → 1024 + bytes cur + KEYLEN k <= PAGESIZE → filtered f0 ks (filter p) → Forall key_wf ks →
  ∃ p', append_key p k q = Ok p' ∧ page_at p' (cur ++ [(k, q)]) ∧ filtered f0 (ks ++ [k]) (filter p') ∧
    data_ptr p' = data_ptr p ∧ pidx p' = pidx p ∧ max_page p' = max_page p.
Proof.
  intros [(page & Hn & Hat) Hg Hk Hl Hfit] Hkq Hroom Hf Hks. pose proof (good_count _ Hg) as Hcnt. change PAGESIZE with 8192 in *.
  pose proof Hkq as ([Hkw Hq] & Hlen & _). cbn in Hkw, Hq, Hlen. pose proof (offset_end cur) as Eoff. unfold KEYLEN, PPA_SIZE in *.
  unfold append_key. rewrite Hn. cbn [deref]. rbind. rewrite Hl, <-Eoff, Hk.
  destruct (put_Ok page cur k q Hat (good_ok _ Hg)) as (d1 & d2 & -> & E2 & Hat2 & _); [done|lia|change PAGESIZE with 8192; unfold KEYLEN, PPA_SIZE; lia|]. rbind.
  destruct (filtered_set f0 ks (filter p) k Hf Hks Hkw) as (f' & -> & Hf'). rbind. rewrite E2. rbind. rewrite Eoff. unfold PPA_SIZE. rewrite !u32_id by lia.
  eexists. split; [done|]. cbn [filter data_ptr pidx max_page]. split; [|done].
  assert (Eb : bytes (cur ++ [(k, q)]) = bytes cur + (len k + 4)) by (rewrite bytes_app; cbn; unfold KEYLEN, PPA_SIZE; lia).
  constructor; cbn [now_page kidx plength]; [by exists d2|apply Forall_app; split; [done|by apply Forall_singleton]|rewrite length_app; simpl; lia|lia|].
  rewrite Eb. change PAGESIZE with 8192. lia.
Qed.

Lemma store_page_Ok p ess cur : page_at p cur → stored p ess → cur ≠ [] → pidx p = Z.of_nat (length ess) + 1 → pidx p <= max_page p →
  ∃ page p', store_page p = Ok (Some page, p') ∧ stored p' (ess ++ [cur]) ∧ pidx p' = pidx p ∧ max_page p' = max_page p ∧ filter p' = filter p.
Proof.
  intros [(page & Hn & Hat) Hg Hk Hl Hfit] [Ht Hnone [Hcap Hb]] Hne Hi Hm. pose proof (good_count _ Hg) as Hcnt.
  unfold store_page. rewrite Hn, Hk, Hl, Z.add_simpl_l, <-offset_end.
  destruct (close_Ok page cur Hat (good_ok _ Hg)) as (d1 & d2 & -> & E2 & Htb); [change PAGESIZE with 8192 in *; lia|by rewrite offset_end|]. rbind. rewrite E2. rbind.
  rewrite Hi, Z.add_simpl_r, ca_set_in by lia. rbind. eexists _, _. split; [done|]. cbn [pidx max_page filter]. split; [|done].
  constructor; cbn [data_ptr max_page]; [..|by rewrite ca_len_upd].
  - intros j es [Hj|[Hge Hj]]%lookup_app_Some.
    + pose proof (lookup_lt_Some _ _ _ Hj). destruct (Ht j es Hj) as (data & Hd & Hx). exists data. rewrite ca_at_upd, decide_False by lia. done.
    + destruct (j - length ess)%nat as [|n] eqn:E; [|done]. injection Hj as <-. exists d2. rewrite ca_at_upd, decide_True by lia. done.
  - intros j. rewrite length_app. simpl. intros Hj. rewrite ca_at_upd, decide_False by lia. apply Hnone. lia.
Qed.

Lemma page_has_bitmap page : Z.of_nat (length page) = PAGESIZE → ∃ n, bitmap_get page 0 = Ok n.
Proof.
  intros Hl. unfold bitmap_get, peek. rewrite Hl. change (2 * 0 + 2 <=? PAGESIZE) with true. cbn [andb Z.leb]. rbind.
  change (Z.to_nat (2 * 0)) with 0%nat. rewrite drop_0. destruct page as [|a [|b l]]; cbn in Hl; [done|done|by eexists].
Qed.

Section write.
Context {F : Family} (junk : Z → list Z).
Hypothesis Hjunk : ∀ i, Z.of_nat (length (junk i)) = PAGESIZE.

(** The result so far: the full pages [ess] and the entries [cur] of the page at
    hand; nothing at the start. *)
Record writer p ess cur (f0 : option BF) : Prop := Writer {
  wr_stored : stored p ess;
  wr_full : Forall (λ es, full_bytes <= bytes es) ess;
  wr_now : if decide (cur = []) then now_page p = None ∧ ess = [] ∧ pidx p = 0 ∧ kidx p = 0 ∧ plength p = 0
    else page_at p cur ∧ pidx p = Z.of_nat (length ess) + 1 ∧ pidx p <= max_page p;
  wr_filter : filtered f0 (fst <$> concat ess ++ cur) (filter p);
  wr_good : Forall fam (concat ess ++ cur);
}.

Lemma bytes_full ess : Forall (λ es, full_bytes <= bytes es) ess → full_bytes * Z.of_nat (length ess) <= bytes (concat ess).
Proof. induction 1 as [|es ess Hes _ IH]; [cbn; lia|]. cbn [concat]. rewrite bytes_app. simpl length. lia. Qed.

Lemma fams_good es : Forall fam es → Forall good es.
Proof. intros Hes. apply (Forall_impl _ _ _ Hes), fam_good. Qed.

Lemma fams_keys es : Forall fam es → Forall key_wf (fst <$> es).
Proof. intros Hes. by apply keys_ok, good_ok, fams_good. Qed.

(** A new page for the next entry. *)
Lemma open_page p ess f0 : stored p ess → Forall (λ es, full_bytes <= bytes es) ess → pidx p = Z.of_nat (length ess) → pidx p < max_page p →
  ∃ p', new_page_set junk p true = Ok p' ∧ stored p' ess ∧ page_at p' [] ∧ pidx p' = Z.of_nat (length ess) + 1 ∧ max_page p' = max_page p ∧
    (filtered f0 (fst <$> concat ess) (filter p) → filtered f0 (fst <$> concat ess) (filter p')).
Proof.
  intros [Ht Hnone [Hcap Hb]] Hfull Hi Hlt. unfold new_page_set. rewrite ca_get_in, (Hnone (pidx p)) by lia. rbind.
  destruct (page_has_bitmap _ (Hjunk (pidx p))) as [n ->]. rbind. rewrite u32_id by lia. eexists. split; [done|]. cbn [pidx max_page filter]. split; [by constructor|]. split; [|split; [lia|done]].
  constructor; cbn [now_page kidx plength]; try done. exists (junk (pidx p)). split; [done|].
  constructor; [done|by intros i k q Hx|by intros i Hx%Nat.nlt_0_r].
Qed.

Lemma pbody_insert_Ok p ess cur f0 k q : writer p ess cur f0 → fam (k, q) → bytes (concat ess ++ cur) + KEYLEN k <= full_bytes * max_page p →
  ∃ o p' ess' cur', pbody_insert_new_key junk p k q false = Ok (o, p') ∧ writer p' ess' cur' f0 ∧
    concat ess' ++ cur' = (concat ess ++ cur) ++ [(k, q)] ∧ cur' ≠ [] ∧ max_page p' = max_page p.
Proof.
  intros [Hst Hfull Hnow Hf Hg] Hfam Hcap. pose proof (fam_good _ Hfam) as Hkq. pose proof Hkq as (_ & Hlen & _). cbn in Hlen. pose proof full_pos. unfold pbody_insert_new_key. cbn [andb orb].
  pose proof (bytes_full _ Hfull) as Hbf. rewrite bytes_app in Hcap.
  assert (Hgood : ∀ ess' cur', concat ess' ++ cur' = (concat ess ++ cur) ++ [(k, q)] → Forall fam (concat ess' ++ cur')).
  { intros ess' cur' ->. apply Forall_app. split; [done|by apply Forall_singleton]. }
  assert (Hcur : ∀ l, l ++ [(k, q)] ≠ []) by (intros l [_ ?]%app_eq_nil; done).
  destruct (decide (cur = [])) as [->|Hne].
  - destruct Hnow as (Hn & -> & Hp0 & Hk0 & Hl0). rewrite Hn. cbn [orb]. unfold store_page. rewrite Hn. rbind. unfold KEYLEN, PPA_SIZE in Hcap. cbn in Hcap.
    destruct (open_page p [] f0 Hst Hfull Hp0) as (p1 & -> & Hst1 & Hpa1 & Hi1 & Hm1 & Hf1); [nia|]. rbind.
    destruct (append_key_Ok p1 [] k q f0 [] Hpa1 Hkq) as (p2 & -> & Hpa2 & Hf2 & Ed & Ei & Em); [unfold KEYLEN, PPA_SIZE; change PAGESIZE with 8192; change (bytes []) with 0; lia|by apply Hf1|by apply Forall_nil_2|]. rbind.
    exists None, p2, [], [(k, q)]. split; [done|]. split; [|split; [done|split; [done|congruence]]]. constructor; try done.
    + destruct Hst1. constructor; rewrite ?Ed, ?Em; done.
    + rewrite decide_False by done. split; [done|]. split; [lia|]. rewrite Ei, Em, Hi1, Hm1. simpl. nia.
    + by apply Hgood.
  - destruct Hnow as (Hpa & Hi & Him). pose proof Hpa as [(page & Hn & _) Hgc Hk Hl Hfit]. rewrite Hn, Hk, Hl. cbn [orb].
    pose proof (good_count _ Hgc) as Hcnt. change PAGESIZE with 8192 in *. change ((8192 - 1024) / 2 - 2) with 3582.
    rewrite Z.geb_leb, (proj2 (Z.leb_gt _ _)) by lia. cbn [orb]. rewrite Z.gtb_ltb. destruct (Z.ltb_spec 8192 (1024 + bytes cur + (len k + PPA_SIZE))) as [Hbig|Hsmall].
    + destruct (store_page_Ok p ess cur Hpa Hst Hne Hi Him) as (page' & p1 & -> & Hst1 & Hi1 & Hm1 & Ef1). rbind.
      assert (Hcf : full_bytes <= bytes cur) by (apply (fam_full cur k q); [by apply Forall_app in Hg as [_ ?]|done|unfold KEYLEN; lia]). unfold KEYLEN, PPA_SIZE in *.
      assert (Hfull1 : Forall (λ es, full_bytes <= bytes es) (ess ++ [cur])) by (apply Forall_app; split; [done|by apply Forall_singleton]).
      assert (Ecat : concat (ess ++ [cur]) = concat ess ++ cur) by (rewrite concat_app; cbn; by rewrite app_nil_r).
      destruct (open_page p1 (ess ++ [cur]) f0 Hst1 Hfull1) as (p2 & -> & Hst2 & Hpa2 & Hi2 & Hm2 & Hf2); [rewrite length_app; simpl; lia|nia|]. rbind.
      rewrite Ecat, Ef1 in Hf2. specialize (Hf2 Hf).
      destruct (append_key_Ok p2 [] k q f0 (fst <$> concat ess ++ cur) Hpa2 Hkq) as (p3 & -> & Hpa3 & Hf3 & Ed & Ei & Em); [unfold KEYLEN, PPA_SIZE; change PAGESIZE with 8192; change (bytes []) with 0; lia|exact Hf2|by apply fams_keys|]. rbind.
      exists (Some page'), p3, (ess ++ [cur]), [(k, q)]. split; [done|]. split; [|split; [by rewrite Ecat|split; [done|congruence]]]. constructor; try done.
      * destruct Hst2. constructor; rewrite ?Ed, ?Em; done.
      * rewrite decide_False by done. split; [done|]. rewrite Ei, Hi2, Em, Hm2, Hm1. split; [done|]. rewrite length_app. simpl. nia.
      * rewrite Ecat, fmap_app. done.
      * apply Hgood. by rewrite Ecat.
    + destruct (append_key_Ok p cur k q f0 (fst <$> concat ess ++ cur) Hpa Hkq) as (p1 & -> & Hpa1 & Hf1 & Ed & Ei & Em); [unfold KEYLEN; change PAGESIZE with 8192; lia|exact Hf|by apply fams_keys|]. rbind.
      exists None, p1, ess, (cur ++ [(k, q)]). split; [done|]. split; [|split; [by rewrite app_assoc|split; [apply Hcur|done]]]. constructor; try done.
      * destruct Hst. constructor; rewrite ?Ed, ?Em; done.
      * rewrite decide_False by apply Hcur. rewrite Ei, Em. done.
      * rewrite app_assoc, fmap_app. done.
      * apply Hgood. by rewrite app_assoc.
Qed.

Lemma flush_page_Ok p ess cur f0 k q : writer p ess cur f0 → cur ≠ [] →
  ∃ o p', pbody_insert_new_key junk p k q true = Ok (o, p') ∧ stored p' (ess ++ [cur]) ∧ pidx p' = Z.of_nat (length (ess ++ [cur])) ∧
    pidx p' <= max_page p' ∧ filter p' = filter p.
Proof.
  intros [Hst Hfull Hnow Hf Hg] Hne. rewrite decide_False in Hnow by done. destruct Hnow as (Hpa & Hi & Him).
  pose proof (pa_kidx _ _ Hpa) as Hk. assert (length cur ≠ 0%nat) by (by intros ?%nil_length_inv).
  unfold pbody_insert_new_key. rewrite Z.gtb_ltb, (proj2 (Z.ltb_lt _ _)) by lia. cbn [andb orb].
  destruct (store_page_Ok p ess cur Hpa Hst Hne Hi Him) as (page & p1 & -> & Hst1 & Hi1 & Hm1 & Ef1). rbind.
  eexists _, _. split; [done|]. split; [done|]. split; [rewrite length_app; simpl; lia|]. split; [lia|done].
Qed.

End write.

(** ** The merge *)

(** The merge of sorted lists: [us] wins, and the addresses of the entries of [ls]
    that it hides. *)
Fixpoint merge us : list (str_key * Z) → list (str_key * Z) * list Z :=
  fix go ls :=
    match us, ls with
    | [], _ => (ls, [])
    | _, [] => (us, [])
    | u :: us', l :: ls' =>
      let c := KEYCMP l.1 u.1 in
      if c <? 0 then (l :: (go ls').1, (go ls').2)
      else if 0 <? c then (u :: (merge us' ls).1, (merge us' ls).2)
      else (u :: (merge us' ls').1, l.2 :: (merge us' ls').2)
    end.

Lemma merge_nil_r us : merge us [] = (us, []).
Proof. by destruct us. Qed.
Lemma merge_nil_l ls : merge [] ls = (ls, []).
Proof. by destruct ls. Qed.

(** The entry at hand and the rest of a stream. *)
Definition at_hand es (k : str_key) (ppa : Z) rest : Prop :=
  match es with [] => k = KEY_END ∧ rest = [] | e :: es => e = (k, ppa) ∧ rest = es end.

Lemma at_hand_len es k ppa rest : at_hand es k ppa rest → Forall good es → (len k =? UINT8_MAX) = match es with [] => true | _ => false end.
Proof.
  destruct es as [|e es]; cbn [at_hand].
  - intros [-> _] _. done.
  - intros [-> _] [(_ & Hl & _) _]%Forall_cons. cbn in Hl. apply Z.eqb_neq. change UINT8_MAX with 255. lia.
Qed.

Lemma next_hand junk p rest ppa : reader p rest →
  ∃ k q p' rest', pbody_get_next_key junk p ppa = Ok (k, q, p') ∧ at_hand rest k q rest' ∧ reader p' rest'.
Proof.
  intros Hr. destruct (next_key_Ok junk p rest ppa Hr) as (p' & H). destruct rest as [|[k q] rest].
  - destruct H as [E Hr']. by exists KEY_END, ppa, p', [].
  - destruct H as [E Hr']. by exists k, q, p', rest.
Qed.

Section merging.
Context {F : Family} (junk : Z → list Z).
Hypothesis Hjunk : ∀ i, Z.of_nat (length (junk i)) = PAGESIZE.

Lemma merge_loop_Ok fuel : ∀ us ls lp hp rp lk hk lppa hppa inv lrest hrest ess cur f0,
  (length us + length ls < fuel)%nat → Forall fam us → Forall fam ls → reader lp lrest → reader hp hrest →
  at_hand ls lk lppa lrest → at_hand us hk hppa hrest → writer rp ess cur f0 →
  bytes (concat ess ++ cur) + bytes us + bytes ls <= full_bytes * max_page rp →
  ∃ rp' ess' cur', merge_loop junk fuel lp hp rp lk hk lppa hppa inv = Ok (rp', inv ++ (merge us ls).2) ∧ writer rp' ess' cur' f0 ∧
    concat ess' ++ cur' = (concat ess ++ cur) ++ (merge us ls).1 ∧ (cur ≠ [] ∨ us ≠ [] ∨ ls ≠ [] → cur' ≠ []).
Proof.
  induction fuel as [|fuel IH]; intros us ls lp hp rp lk hk lppa hppa inv lrest hrest ess cur f0 Hf Hgu Hgl Hlp Hhp Hl Hh Hw Hcap; [lia|].
  cbn [merge_loop]. rewrite (at_hand_len _ _ _ _ Hl (fams_good _ Hgl)), (at_hand_len _ _ _ _ Hh (fams_good _ Hgu)).
  (* Inserting an entry and going on *)
  assert (Hstep : ∀ k q us' ls' inv', fam (k, q) → (length us' + length ls' < fuel)%nat → Forall fam us' → Forall fam ls' →
    KEYLEN k + bytes us' + bytes ls' <= bytes us + bytes ls →
    ∃ o rp1 ess1 cur1, pbody_insert_new_key junk rp k q false = Ok (o, rp1) ∧
      ∀ lp' hp' lk' hk' lppa' hppa' lrest' hrest', reader lp' lrest' → reader hp' hrest' → at_hand ls' lk' lppa' lrest' → at_hand us' hk' hppa' hrest' →
      ∃ rp' ess' cur', merge_loop junk fuel lp' hp' rp1 lk' hk' lppa' hppa' inv' = Ok (rp', inv' ++ (merge us' ls').2) ∧ writer rp' ess' cur' f0 ∧
        concat ess' ++ cur' = (concat ess ++ cur) ++ (k, q) :: (merge us' ls').1 ∧ cur' ≠ []).
  { intros k q us' ls' inv' Hkq Hf' Hgu' Hgl' Hb. pose proof (bytes_nonneg _ (fams_good _ Hgu')). pose proof (bytes_nonneg _ (fams_good _ Hgl')).
    destruct (pbody_insert_Ok junk Hjunk rp ess cur f0 k q Hw Hkq) as (o & rp1 & ess1 & cur1 & E1 & Hw1 & Ec1 & Hne1 & Em1); [lia|].
    exists o, rp1, ess1, cur1. split; [done|]. intros lp' hp' lk' hk' lppa' hppa' lrest' hrest' Hlp' Hhp' Hl' Hh'.
    destruct (IH us' ls' lp' hp' rp1 lk' hk' lppa' hppa' inv' lrest' hrest' ess1 cur1 f0 Hf' Hgu' Hgl' Hlp' Hhp' Hl' Hh' Hw1) as (rp' & ess' & cur' & E' & Hw' & Ec' & Hne').
    { rewrite Ec1, bytes_app, Em1, bytes_cons. cbn [bytes foldr]. lia. }
    exists rp', ess', cur'. split; [done|]. split; [done|]. split; [by rewrite Ec', Ec1, <-app_assoc|]. apply Hne'. by left. }
  destruct ls as [|[lk0 lp0] ls], us as [|[hk0 hp0] us]; cbn [andb].
  - cbn. rewrite !app_nil_r. exists rp, ess, cur. split; [done|]. split; [done|]. split; [done|]. naive_solver.
  - cbn in Hh. destruct Hh as [[= <- <-] ->]. apply Forall_cons in Hgu as [Hg0 Hgu]. rbind. cbn [Z.ltb Z.compare Z.gtb].
    destruct (Hstep hk0 hp0 us [] inv Hg0) as (o & rp1 & ess1 & cur1 & -> & Hgo); [simpl in *; lia|done|done|rewrite bytes_cons; lia|]. rbind.
    destruct (next_hand junk hp us hp0 Hhp) as (k & q & hp' & rest' & -> & Hh' & Hhp'). rbind.
    destruct (Hgo lp hp' lk k lppa q _ _ Hlp Hhp' Hl Hh') as (rp' & ess' & cur' & E & Hw' & Ec & Hne). rewrite merge_nil_r in *.
    exists rp', ess', cur'. done.
  - cbn in Hl. destruct Hl as [[= <- <-] ->]. apply Forall_cons in Hgl as [Hg0 Hgl]. rbind. cbn [Z.ltb Z.compare Z.gtb].
    destruct (Hstep lk0 lp0 [] ls inv Hg0) as (o & rp1 & ess1 & cur1 & -> & Hgo); [simpl in *; lia|done|done|rewrite bytes_cons; lia|]. rbind.
    destruct (next_hand junk lp ls lp0 Hlp) as (k & q & lp' & rest' & -> & Hl' & Hlp'). rbind.
    destruct (Hgo lp' hp k hk q hppa _ _ Hlp' Hhp Hl' Hh) as (rp' & ess' & cur' & E & Hw' & Ec & Hne). rewrite merge_nil_l in *.
    exists rp', ess', cur'. done.
  - cbn in Hl, Hh. destruct Hl as [[= <- <-] ->], Hh as [[= <- <-] ->]. apply Forall_cons in Hgl as [Hgl0 Hgl], Hgu as [Hgu0 Hgu].
    pose proof (fam_good _ Hgl0) as (_ & Hll & Hvl). pose proof (fam_good _ Hgu0) as (_ & Hlu & Hvu). cbn in Hvl, Hvu, Hll, Hlu. rewrite Hvl. rbind. cbn [negb abort_if]. rewrite Hvu. rbind. cbn [negb abort_if].
    rbind. cbn [merge fst snd]. set (c := KEYCMP lk0 hk0). destruct (Z.ltb_spec c 0) as [Hneg|Hpos].
    + rewrite (proj2 (Z.eqb_neq c 0)) by lia. destruct (Hstep lk0 lp0 ((hk0, hp0) :: us) ls inv Hgl0) as (o & rp1 & ess1 & cur1 & -> & Hgo);
        [simpl in *; lia|by apply Forall_cons|done|rewrite !bytes_cons; lia|]. rbind.
      destruct (next_hand junk lp ls lp0 Hlp) as (k & q & lp' & rest' & -> & Hl' & Hlp'). rbind.
      destruct (Hgo lp' hp k hk0 q hp0 _ us Hlp' Hhp Hl') as (rp' & ess' & cur' & E & Hw' & Ec & Hne); [done|]. exists rp', ess', cur'. done.
    + rewrite Z.gtb_ltb. destruct (Z.ltb_spec 0 c) as [Hgt|Hle].
      * rewrite (proj2 (Z.eqb_neq c 0)) by lia. destruct (Hstep hk0 hp0 us ((lk0, lp0) :: ls) inv Hgu0) as (o & rp1 & ess1 & cur1 & -> & Hgo);
          [simpl in *; lia|done|by apply Forall_cons|rewrite !bytes_cons; lia|]. rbind.
        destruct (next_hand junk hp us hp0 Hhp) as (k & q & hp' & rest' & -> & Hh' & Hhp'). rbind.
        destruct (Hgo lp hp' lk0 k lp0 q ls _ Hlp Hhp') as (rp' & ess' & cur' & E & Hw' & Ec & Hne); [done|done|]. exists rp', ess', cur'. done.
      * assert (c = 0) as -> by lia. cbn [Z.eqb]. destruct (Hstep hk0 hp0 us ls (inv ++ [lp0]) Hgu0) as (o & rp1 & ess1 & cur1 & -> & Hgo);
          [simpl in *; lia|done|done|rewrite !bytes_cons; unfold KEYLEN, PPA_SIZE; lia|]. rbind.
        destruct (next_hand junk lp ls lp0 Hlp) as (k & q & lp' & rest' & -> & Hl' & Hlp'). rbind.
        destruct (next_hand junk hp us hp0 Hhp) as (k2 & q2 & hp' & rest2 & -> & Hh' & Hhp'). rbind.
        destruct (Hgo lp' hp' k k2 q q2 _ _ Hlp' Hhp' Hl' Hh') as (rp' & ess' & cur' & E & Hw' & Ec & Hne). exists rp', ess', cur'.
        split; [rewrite E; by rewrite <-app_assoc|]. done.
Qed.

End merging.

(** *** The merge as a map *)

Lemma key_lt_trans a b c : entry_ok a → entry_ok b → entry_ok c → key_lt a b → key_lt b c → key_lt a c.
Proof. intros [Ha _] [Hb _] [Hc _]. by apply (cmp_trans (cmp:=KEYCMP)). Qed.

Lemma key_lt_gt a b : entry_ok a → entry_ok b → 0 < KEYCMP a.1 b.1 → key_lt b a.
Proof. intros [Ha _] [Hb _] H. unfold key_lt. rewrite (cmp_antisym (cmp:=KEYCMP) a.1 b.1) by done. lia. Qed.

Lemma sorted_cons e es : sorted (e :: es) ↔ sorted es ∧ ∀ x, x ∈ es → key_lt e x.
Proof.
  unfold sorted. split.
  - intros H. inversion_clear H as [|? ? H1 H2]. rewrite Forall_forall in H2. done.
  - intros [H1 H2]. constructor; [done|]. by apply Forall_forall.
Qed.

Lemma below_all e x es : entry_ok e → entry_ok x → Forall entry_ok es → key_lt e x → sorted (x :: es) → ∀ y, y ∈ x :: es → key_lt e y.
Proof.
  intros He Hx Hes Hlt [_ Hs]%sorted_cons y [->|Hy]%elem_of_cons; [done|]. rewrite Forall_forall in Hes.
  eapply key_lt_trans; [done|exact Hx|by apply Hes|done|by apply Hs].
Qed.

Lemma below_not_in e es : entry_ok e → (∀ y, y ∈ es → key_lt e y) → e.1 ∉ es.*1.
Proof.
  intros [He _] Hb (y & Ey & Hy)%list_elem_of_fmap. apply Hb in Hy. unfold key_lt in Hy. rewrite <-Ey in Hy.
  assert (KEYCMP e.1 e.1 = 0) by (by apply (cmp_eq (cmp:=KEYCMP))). lia.
Qed.

(** What the merge of sorted lists is: the entries of [us], and those of [ls] with
    other keys; the addresses of the other ones. *)
Definition merged us ls (m : list (str_key * Z) * list Z) : Prop :=
  sorted m.1 ∧ (∀ e, e ∈ m.1 ↔ e ∈ us ∨ e ∈ ls ∧ e.1 ∉ us.*1) ∧ m.2 = (base.filter (λ e, e.1 ∈ us.*1) ls).*2.

Lemma same_filter us us' ls : (∀ e, e ∈ ls → e.1 ∈ us.*1 ↔ e.1 ∈ us'.*1) →
  base.filter (λ e : str_key * Z, e.1 ∈ us.*1) ls = base.filter (λ e, e.1 ∈ us'.*1) ls.
Proof.
  induction ls as [|l ls IH]; intros H; [done|]. rewrite !filter_cons. pose proof (H l ltac:(left)) as Hl.
  rewrite IH by (intros e He; apply H; by right). by destruct (decide (l.1 ∈ us.*1)), (decide (l.1 ∈ us'.*1)); naive_solver.
Qed.

Lemma filter_nil_keys ls : base.filter (λ e : str_key * Z, e.1 ∈ ([] : list (str_key * Z)).*1) ls = [].
Proof. induction ls as [|l ls IH]; [done|]. by rewrite filter_cons, decide_False, IH by apply not_elem_of_nil. Qed.

(** The head of one list is below all of the other. *)
Lemma merged_lower us l ls m : Forall entry_ok us → Forall entry_ok (l :: ls) → sorted (l :: ls) → (∀ y, y ∈ us → key_lt l y) →
  merged us ls m → merged us (l :: ls) (l :: m.1, m.2).
Proof.
  intros Hu [Hl _]%Forall_cons [Hs Hls]%sorted_cons Hlu (Hm & Hin & Hst). pose proof (below_not_in l us Hl Hlu) as Hni.
  split; [|split]; cbn [fst snd].
  - apply sorted_cons. split; [done|]. intros x [Hx|[Hx _]]%Hin; auto.
  - intros e. rewrite !elem_of_cons, Hin. naive_solver.
  - by rewrite filter_cons_False.
Qed.

Lemma merged_upper u us ls m : Forall entry_ok ls → Forall entry_ok (u :: us) → sorted (u :: us) → (∀ y, y ∈ ls → key_lt u y) →
  merged us ls m → merged (u :: us) ls (u :: m.1, m.2).
Proof.
  intros Hl [Hu _]%Forall_cons [Hs Hus]%sorted_cons Hul (Hm & Hin & Hst).
  assert (Hni : ∀ e, e ∈ ls → e.1 ≠ u.1).
  { intros e He E. apply (below_not_in u ls Hu Hul). rewrite <-E. by apply list_elem_of_fmap_2. }
  split; [|split]; cbn [fst snd].
  - apply sorted_cons. split; [done|]. intros x [Hx|[Hx _]]%Hin; auto.
  - intros e. rewrite fmap_cons, !elem_of_cons, Hin. naive_solver.
  - rewrite Hst. f_equal. apply same_filter. intros e He. rewrite fmap_cons, elem_of_cons. naive_solver.
Qed.

(** The same key in both: the address of the lower entry is stale. *)
Lemma merged_same u us l ls m : Forall entry_ok (u :: us) → Forall entry_ok (l :: ls) → sorted (u :: us) → sorted (l :: ls) → l.1 = u.1 →
  merged us ls m → merged (u :: us) (l :: ls) (u :: m.1, l.2 :: m.2).
Proof.
  intros Hgu Hgl Hsu [Hsl Hlx]%sorted_cons E Hm. apply Forall_cons in Hgl as [Hl Hgl].
  assert (Hul : ∀ y, y ∈ ls → key_lt u y) by (intros y Hy; unfold key_lt; rewrite <-E; by apply Hlx).
  destruct (merged_upper u us ls m Hgl Hgu Hsu Hul Hm) as (Hs & Hin & Hst). split; [done|]. split; cbn [fst snd] in *.
  - intros e. rewrite Hin, fmap_cons, !elem_of_cons. naive_solver.
  - rewrite filter_cons_True by (rewrite fmap_cons, E; left). rewrite fmap_cons. by f_equal.
Qed.

Lemma merge_merged us : ∀ ls, Forall entry_ok us → Forall entry_ok ls → sorted us → sorted ls → merged us ls (merge us ls).
Proof.
  induction us as [|u us IHu]; intros ls Hgu Hgl Hsu Hsl.
  { rewrite merge_nil_l. split; [done|]. split; [|by rewrite filter_nil_keys]. intros e. cbn [fst]. rewrite fmap_nil. split; [intros He; right; split; [done|apply not_elem_of_nil]|by intros [?%elem_of_nil|[? _]]]. }
  induction ls as [|l ls IHl].
  { rewrite merge_nil_r. split; [done|]. split; [|done]. intros e. cbn [fst]. split; [by left|by intros [?|[?%elem_of_nil _]]]. }
  pose proof Hgu as [Hu Hgu']%Forall_cons. pose proof Hgl as [Hl Hgl']%Forall_cons. pose proof Hsu as [Hsu' Hux]%sorted_cons. pose proof Hsl as [Hsl' Hlx]%sorted_cons.
  cbn [merge]. destruct (Z.ltb_spec (KEYCMP l.1 u.1) 0) as [Hlt|Hge].
  - apply (merged_lower (u :: us) l ls (merge (u :: us) ls)); [done|done|done| |by apply IHl]. by apply below_all.
  - destruct (Z.ltb_spec 0 (KEYCMP l.1 u.1)) as [Hgt|Hle].
    + apply (merged_upper u us (l :: ls)); [done|done|done| |by apply IHu]. apply below_all; try done. by apply key_lt_gt.
    + apply merged_same; try done; [|by apply IHu]. apply (cmp_eq (cmp:=KEYCMP)); [by destruct Hl|by destruct Hu|lia].
Qed.

(** As finite maps: the upper entries first. *)
Lemma merged_map us ls m : Forall entry_ok us → Forall entry_ok ls → sorted us → sorted ls → merged us ls m →
  (list_to_map m.1 : gmap str_key Z) = list_to_map us ∪ list_to_map ls.
Proof.
  intros Hgu Hgl Hsu Hsl (Hs & Hin & _). assert (Hgm : Forall entry_ok m.1).
  { apply Forall_forall. intros e [He|[He _]]%Hin; [by eapply Forall_forall in Hgu|by eapply Forall_forall in Hgl]. }
  apply map_eq. intros k. apply option_eq. intros p. rewrite <-(list_to_map_sorted m.1 k p) by done. rewrite Hin. cbn [fst].
  rewrite lookup_union_Some_raw, <-(list_to_map_sorted us k p), <-(list_to_map_sorted ls k p), <-not_elem_of_list_to_map by done. naive_solver.
Qed.

(** ** The merger *)

(** The pages [pages] hold [es], in order and none of them empty. *)
Definition pages_of (pages : list (list Z)) es : Prop :=
  ∃ ess, Forall2 table pages ess ∧ Forall (λ es, es ≠ []) ess ∧ concat ess = es ∧ ess ≠ [].

Lemma reader_init pages es : pages_of pages es → Z.of_nat (length pages) < 2 ^ 31 → reader (pbody_init (pages_array pages) (Z.of_nat (length pages)) None) es.
Proof.
  intros (ess & H2 & Hne & <- & Hne') Hb. pose proof (Forall2_length _ _ _ H2). apply reader_start; cbn [pbody_init now_page pidx max_page data_ptr pages_array ca_len]; try done; [lia|].
  by apply tables_from_array.
Qed.

Lemma stored_init size f : size < 2 ^ 31 → stored (pbody_init (ca_new size None) size f) [].
Proof.
  intros Hs. constructor; cbn [pbody_init data_ptr max_page]; [by intros j es ?| |done].
  intros j _. unfold ca_at, ca_new. cbn. by rewrite lookup_empty.
Qed.

Lemma pages_of_ne pages es : pages_of pages es → es ≠ [].
Proof. intros (ess & _ & Hne & <- & Hne'). destruct ess as [|es ess]; [done|]. apply Forall_cons in Hne as [H _]. by intros [? _]%app_eq_nil. Qed.

Lemma bytes_merge us : ∀ ls, Forall good us → Forall good ls → bytes (merge us ls).1 <= bytes us + bytes ls.
Proof.
  induction us as [|[k q] us IHu]; intros ls Hgu Hgl; [rewrite merge_nil_l; cbn [fst]; change (bytes []) with 0; lia|]. pose proof (Forall_cons_1 _ _ _ Hgu) as [_ Hgu'].
  induction ls as [|[k' q'] ls IHl]; [rewrite merge_nil_r; cbn [fst]; change (bytes []) with 0; lia|]. pose proof (Forall_cons_1 _ _ _ Hgl) as [(_ & Hl' & _) Hgl']. cbn in Hl'.
  specialize (IHl Hgl'). cbn [merge fst snd]. destruct (_ <? 0); [|destruct (0 <? _)]; cbn [fst]; rewrite !bytes_cons in *.
  - change (KEYLEN k' + bytes (merge ((k, q) :: us) ls).1 <= KEYLEN k + bytes us + (KEYLEN k' + bytes ls)). lia.
  - specialize (IHu ((k', q') :: ls) Hgu' Hgl). rewrite bytes_cons in IHu. lia.
  - specialize (IHu ls Hgu' Hgl'). unfold KEYLEN, PPA_SIZE. lia.
Qed.

Section merger.
Context {F : Family}.

(** The loop and the flush of the last page, on pages: all pages of the result but the
    last one are full. *)
Lemma merge_pages_Ok junk fuel u_data o_data f us ls : (∀ i, Z.of_nat (length (junk i)) = PAGESIZE) →
  pages_of u_data us → pages_of o_data ls → Forall fam us → Forall fam ls → from_option usable True f →
  Z.of_nat (length o_data) + Z.of_nat (length u_data) + result_padding < 2 ^ 31 →
  bytes us + bytes ls <= full_bytes * (Z.of_nat (length o_data) + Z.of_nat (length u_data) + result_padding) → (length us + length ls < fuel)%nat →
  ∃ rp ess, merge_pages junk fuel u_data o_data f = Ok (rp, (merge us ls).2) ∧ stored rp ess ∧ pidx rp = Z.of_nat (length ess) ∧ pidx rp <= max_page rp ∧
    concat ess = (merge us ls).1 ∧ filtered f (merge us ls).1.*1 (filter rp) ∧ Forall fam (merge us ls).1 ∧
    full_bytes * (Z.of_nat (length ess) - 1) < bytes us + bytes ls.
Proof.
  intros Hj Hu Ho Hgu Hgl Hf Hb Hcap Hfuel. unfold merge_pages. cbv zeta. set (size := _ + result_padding) in *. unfold result_padding in *.
  pose proof (reader_init u_data us Hu ltac:(lia)) as Hr. pose proof (reader_init o_data ls Ho ltac:(lia)) as Hl.
  destruct (next_hand junk _ _ 0 Hl) as (lk & lppa & lp & lrest & -> & Hlk & Hlp). rbind.
  destruct (next_hand junk _ _ 0 Hr) as (hk & hppa & hp & hrest & -> & Hhk & Hhp). rbind.
  assert (Hw : writer (pbody_init (ca_new size None) size f) [] [] f).
  { constructor; [by apply stored_init|apply Forall_nil_2|done|by destruct f|apply Forall_nil_2]. }
  destruct (merge_loop_Ok junk Hj fuel us ls lp hp _ lk hk lppa hppa [] lrest hrest [] [] f Hfuel Hgu Hgl Hlp Hhp Hlk Hhk Hw) as (rp & ess & cur & -> & Hw' & Ec & Hne); [cbn; lia|]. rbind.
  pose proof (pages_of_ne _ _ Hu) as Hune. specialize (Hne ltac:(by right; left)).
  destruct (flush_page_Ok junk rp ess cur f KEY_END 0 Hw' Hne) as (o & rp' & -> & Hst & Hp & Hpm & Ef). rbind. cbn [concat app] in Ec.
  assert (Ecat : concat (ess ++ [cur]) = (merge us ls).1) by (rewrite concat_app; cbn; rewrite app_nil_r; exact Ec).
  pose proof Hw' as [_ Hfull _ Hfil Hfam]. rewrite Ec in Hfil, Hfam. pose proof (bytes_merge us ls (fams_good _ Hgu) (fams_good _ Hgl)) as Hbm.
  exists rp', (ess ++ [cur]). rewrite Ef. repeat (split; [done|]). rewrite <-Ec, bytes_app in Hbm.
  pose proof (bytes_full ess Hfull). rewrite length_app. simpl. assert (Hcur : Forall good cur) by (rewrite <-Ec in Hfam; by apply fams_good, Forall_app in Hfam as [_ ?]).
  pose proof (good_count _ Hcur). assert (length cur ≠ 0%nat) by (by intros ?%nil_length_inv). lia.
Qed.

End merger.

(** ** The runs *)

(** The run of a table: its first and its last key, and where the table is. *)
Definition run_for (LEVELCACHING level_idx : Z) (r : run_t) es : Prop :=
  ∃ data, table data es ∧ (fst <$> head es) = Some (r_key r) ∧ (fst <$> last es) = Some (r_end r) ∧ pbn r = 2 ^ 32 - 1 ∧
    (if level_idx <? LEVELCACHING then level_caching_data r = Some data ∧ cpt_data r = None else level_caching_data r = None ∧ cpt_data r = Some data).

Lemma make_run_Ok LC idx data es : table data es → es ≠ [] → ∃ r, array_pipe_make_run LC data idx = Ok r ∧ run_for LC idx r es.
Proof.
  intros Ht Hne. unfold array_pipe_make_run. rewrite (table_num _ _ Ht). rbind. destruct es as [|[k p] es']; [done|]. set (es := (k, p) :: es') in *.
  destruct (table_get data es 0 k p Ht eq_refl) as (_ & E & _). change (1 + Z.of_nat 0) with 1 in E. rewrite E. rbind.
  assert (Hn : length es = S (length es')) by done. destruct (lookup_lt_is_Some_2 es (length es') ltac:(lia)) as [[k' p'] He].
  destruct (table_get data es (length es') k' p' Ht He) as (_ & E' & _). replace (Z.of_nat (length es)) with (1 + Z.of_nat (length es')) by lia. rewrite E'. rbind.
  eexists. split; [done|]. exists data. split; [done|].
  assert (El : last es = Some (k', p')) by (rewrite last_lookup, Hn; exact He). rewrite El.
  destruct (idx <? LC); done.
Qed.

(** The cutter on a result of which [i] pages were taken. *)
Lemma cut_loop_Ok LC idx ess : ∀ fuel p i, tables_from (data_ptr p) 0 ess → Z.of_nat (length ess) <= ca_len (data_ptr p) < 2 ^ 31 →
  (i <= length ess)%nat → pidx p = Z.of_nat i → max_page p = Z.of_nat (length ess) → (length ess - i < fuel)%nat →
  ∃ rs, cut_runs fuel LC false p idx = Ok rs ∧ Forall2 (run_for LC idx) rs (drop i ess).
Proof.
  induction fuel as [|fuel IH]; intros p i Ht Hl Hi Ei Em Hf; [lia|]. cbn [cut_runs]. unfold array_pipe_cutter, pbody_get_data. rewrite Ei, Em.
  destruct (Z.ltb_spec (Z.of_nat i) (Z.of_nat (length ess))) as [Hlt|Hge].
  - destruct (lookup_lt_is_Some_2 ess i ltac:(lia)) as [es He]. destruct (Ht i es He) as (data & Hd & Htb & Hne). rewrite Z.add_0_l in Hd.
    rewrite ca_get_in, Hd by lia. rbind. destruct (make_run_Ok LC idx data es Htb Hne) as (r & -> & Hr). rbind. rewrite u32_id by lia.
    destruct (IH (PBody (Z.of_nat (length ess)) (Z.of_nat i + 1) (data_ptr p) (filter p) (now_page p) (plength p) (max_key p) (kidx p)) (S i)) as (rs & -> & Hrs);
      cbn [data_ptr pidx max_page]; try done; try lia. rbind. exists (r :: rs). split; [done|]. rewrite (drop_S _ _ _ He). by constructor.
  - rbind. exists []. split; [done|]. rewrite drop_ge by lia. constructor.
Qed.

Lemma cut_runs_Ok LC idx ess p fuel : stored p ess → pidx p = Z.of_nat (length ess) → pidx p <= max_page p → (length ess < fuel)%nat →
  ∃ rs, cut_runs fuel LC true p idx = Ok rs ∧ Forall2 (run_for LC idx) rs ess.
Proof.
  intros [Ht _ [Hc Hb]] Ei Hle Hf. destruct fuel as [|fuel]; [lia|].
  apply (cut_loop_Ok LC idx ess (S fuel) (PBody (pidx p) 0 (data_ptr p) (filter p) (now_page p) (plength p) (max_key p) (kidx p)) 0); cbn [data_ptr pidx max_page]; [done|lia..].
Qed.

(** ** The component *)

(** The upper input holds [us]: the nodes of the memtable fit into one table. *)
Definition upper_of (u : upper) us : Prop :=
  match u with FromMem mem => mem = us ∧ us ≠ [] ∧ fits us | FromRuns pages => pages_of pages us end.
Definition upper_pages (u : upper) : Z := match u with FromMem _ => 1 | FromRuns pages => Z.of_nat (length pages) end.

Lemma upper_pages_Ok jmem u us : Z.of_nat (length jmem) = PAGESIZE → upper_of u us →
  ∃ u_data, match u with FromMem mem => d ← array_skip_cvt2_data jmem mem; Ok [d] | FromRuns pages => Ok pages end = Ok u_data ∧
    pages_of u_data us ∧ Z.of_nat (length u_data) = upper_pages u.
Proof.
  intros Hj Hu. destruct u as [mem|pages]; [|by exists pages]. destruct Hu as (-> & Hne & Hfit).
  destruct (skip_cvt2_Ok jmem us Hj Hfit) as (d & -> & Ht). rbind. exists [d]. split; [done|]. split; [|done].
  exists [us]. split; [by constructor|]. split; [by constructor|]. split; [apply app_nil_r|done].
Qed.

Section component.
Context {F : Family}.

(** The inputs of a merge: sorted streams over at least one page each, and the room
    that the result needs. *)
Record inputs (u : upper) (o_data : list (list Z)) us ls : Prop := Inputs {
  in_upper : upper_of u us; in_lower : pages_of o_data ls;
  in_us : sorted us ∧ Forall fam us; in_ls : sorted ls ∧ Forall fam ls;
  in_size : Z.of_nat (length o_data) + upper_pages u + result_padding < 2 ^ 31;
  in_room : bytes us + bytes ls <= full_bytes * (Z.of_nat (length o_data) + upper_pages u + result_padding);
}.

Lemma merge_keys_wf us ls : Forall entry_ok us → Forall entry_ok ls → sorted us → sorted ls → Forall key_wf (merge us ls).1.*1.
Proof.
  intros Hu Hl Hsu Hsl. destruct (merge_merged us ls Hu Hl Hsu Hsl) as (_ & Hin & _). apply Forall_fmap, Forall_forall.
  rewrite Forall_forall in Hu, Hl. intros e [He|[He _]]%Hin; cbn; [by apply Hu|by apply Hl].
Qed.

(** The merger on its inputs, in terms of the merge of lists. *)
Lemma merger_Ok junk fuel jmem u o_data f us ls : (∀ i, Z.of_nat (length (junk i)) = PAGESIZE) → Z.of_nat (length jmem) = PAGESIZE →
  inputs u o_data us ls → from_option usable True f → (length us + length ls < fuel)%nat →
  ∃ rp ess, array_pipe_merger junk fuel jmem u o_data f = Ok (rp, (merge us ls).2) ∧ stored rp ess ∧ pidx rp = Z.of_nat (length ess) ∧ pidx rp <= max_page rp ∧
    concat ess = (merge us ls).1 ∧ filtered f (merge us ls).1.*1 (filter rp) ∧ Forall fam (merge us ls).1 ∧
    full_bytes * (Z.of_nat (length ess) - 1) < bytes us + bytes ls ∧ merged us ls (merge us ls) ∧ Forall key_wf (merge us ls).1.*1 ∧
    (list_to_map (merge us ls).1 : gmap str_key Z) = list_to_map us ∪ list_to_map ls.
Proof.
  intros Hj Hjm [Hu Ho [Hsu Hgu] [Hsl Hgl] Hsize Hroom] Hf Hfuel. destruct (upper_pages_Ok jmem u us Hjm Hu) as (u_data & Eu & Hpu & Enum).
  pose proof (good_ok _ (fams_good _ Hgu)) as Hku. pose proof (good_ok _ (fams_good _ Hgl)) as Hkl. rewrite <-Enum in Hsize, Hroom.
  destruct (merge_pages_Ok junk fuel u_data o_data f us ls Hj Hpu Ho Hgu Hgl Hf Hsize Hroom Hfuel) as (rp & ess & E & Hrest).
  exists rp, ess. split; [unfold array_pipe_merger; rewrite Eu; rbind; exact E|]. pose proof (merge_merged us ls Hku Hkl Hsu Hsl) as Hm.
  repeat (split; [apply Hrest|]). split; [done|]. split; [by apply merge_keys_wf|by apply merged_map].
Qed.

(** C4: under the conditions of [inputs] a merge keeps all keys, and of two entries with
    the same key the upper one. The conditions: both inputs are non-empty and sorted; the
    upper one is a memtable that fits into one page or the tables of runs, the lower one
    the tables of runs; every key has 11 to 254 bytes and passes [KEYVALCHECK] (shorter
    keys can overwrite the page, see the last section); and both together have at most [full_bytes] bytes for each page of
    the result array, where [full_bytes] is 6911 with keys of any of these lengths
    ([any_length]) and whole entries of a page with keys of one length ([same_length]).
    Then the merger ends within as many steps as there are entries; the cutter gives
    runs whose tables hold in key order the union of the two maps, the upper one
    first, and whose keys are the first and the last of their tables; the addresses
    invalidated are exactly those of the lower entries that are hidden; the filter
    of the level has all keys of the result; all runs but the last are full; and the
    merger with locks gives the same runs. *)
Theorem pipe_merge_correct junk fuel jmem u o_data f us ls LC idx : (∀ i, Z.of_nat (length (junk i)) = PAGESIZE) → Z.of_nat (length jmem) = PAGESIZE →
  inputs u o_data us ls → from_option usable True f → (length us + length ls < fuel)%nat →
  let stale := (base.filter (λ e, e.1 ∈ us.*1) ls).*2 in
  ∃ rp rs ess, array_pipe_merger junk fuel jmem u o_data f = Ok (rp, stale) ∧ cut_runs (S (Z.to_nat (pidx rp))) LC true rp idx = Ok rs ∧
    Forall2 (run_for LC idx) rs ess ∧ sorted (concat ess) ∧ (list_to_map (concat ess) : gmap str_key Z) = list_to_map us ∪ list_to_map ls ∧
    covers f (filter rp) (concat ess).*1 ∧ Forall fam (concat ess) ∧ full_bytes * (Z.of_nat (length rs) - 1) < bytes us + bytes ls ∧ (f = None → array_pipe_p_merger_cutter junk fuel jmem u o_data LC idx = Ok (rs, stale)).
Proof.
  intros Hj Hjm Hin Hf Hfuel stale.
  destruct (merger_Ok junk fuel jmem u o_data f us ls Hj Hjm Hin Hf Hfuel) as (rp & ess & E & Hstored & Hp & Hpm & Ec & Hfil & Hfam & Hpages & (Hs & _ & Hst) & Hwf & Hmap).
  rewrite Hst in E. destruct (cut_runs_Ok LC idx ess rp (S (Z.to_nat (pidx rp))) Hstored Hp Hpm) as (rs & Er & Hrs); [lia|].
  exists rp, rs, ess. rewrite Ec, (Forall2_length _ _ _ Hrs). do 5 (split; [done|]). split; [by apply filtered_covers|split; [done|split; [done|]]].
  intros ->. unfold array_pipe_p_merger_cutter. rewrite E. rbind. rewrite Er. done.
Qed.

End component.

(** Two keys in the memtable, two in a page of the level below, one of them in both. *)
Definition sample_key (n : Z) : str_key := Key 12 (replicate 12 n).
Definition sample_page : list Z := replicate (Z.to_nat PAGESIZE) 0.
Definition sample_mem : list (str_key * Z) := [(sample_key 1, 10); (sample_key 2, 20)].
Definition sample_run : list (str_key * Z) := [(sample_key 2, 200); (sample_key 3, 300)].
Definition sample_data : list (list Z) := match array_skip_cvt2_data sample_page sample_run with Ok d => [d] | Err _ => [] end.

Lemma sample_good n q : 0 <= n < 128 → 0 <= q < 2 ^ 32 → good (sample_key n, q).
Proof.
  intros Hn Hq. split; [split; [|done]|].
  - split; [done|]. split; [done|]. cbn [sample_key key fst]. apply Forall_replicate. lia.
  - split; [done|]. unfold KEYVALCHECK. cbn -[s8 Z.ltb]. rbind. unfold s8. rewrite Z.mod_small by lia. rewrite (proj2 (Z.ltb_ge _ _)) by lia. done.
Qed.

Lemma sample_wf es : es = sample_mem ∨ es = sample_run → Forall good es ∧ fits es ∧ sorted es.
Proof.
  assert (Hm : Forall good sample_mem) by (repeat apply Forall_cons_2; [apply sample_good; lia..|done]).
  assert (Hr : Forall good sample_run) by (repeat apply Forall_cons_2; [apply sample_good; lia..|done]).
  intros [-> | ->]; (split; [done|]; split; [split; [by apply good_ok|done]|repeat constructor]).
Qed.

Lemma sample_inputs : inputs (FromMem sample_mem) sample_data sample_mem sample_run.
Proof.
  destruct (sample_wf sample_mem ltac:(by left)) as (Hm & Hfm & Hsm), (sample_wf sample_run ltac:(by right)) as (Hr & Hfr & Hsr).
  destruct (skip_cvt2_Ok sample_page sample_run eq_refl Hfr) as (d & E & Ht). unfold sample_data. rewrite E. constructor.
  - split; [reflexivity|]. split; [discriminate|assumption].
  - exists [sample_run]. split; [by constructor|]. split; [by constructor|]. split; [apply app_nil_r|discriminate].
  - split; assumption.
  - split; assumption.
  - vm_compute. done.
  - vm_compute. done.
Qed.

Lemma pipe_merge_correct_witness : ∃ rp rs ess, array_pipe_merger (λ _, sample_page) 5 sample_page (FromMem sample_mem) sample_data None = Ok (rp, [200]) ∧
  cut_runs (S (Z.to_nat (pidx rp))) 1 true rp 0 = Ok rs ∧ Forall2 (run_for 1 0) rs ess ∧ sorted (concat ess) ∧
  (list_to_map (concat ess) : gmap str_key Z) = list_to_map sample_mem ∪ list_to_map sample_run.
Proof.
  destruct (pipe_merge_correct (λ _, sample_page) 5 sample_page (FromMem sample_mem) sample_data None sample_mem sample_run 1 0) as (rp & rs & ess & H1 & H2 & H3 & H4 & H5 & _);
    [done|done|exact sample_inputs|done|simpl; lia|]. exists rp, rs, ess. split; [exact H1|].
  split; [exact H2|]. split; [exact H3|]. split; [exact H4|exact H5].
Defined.

(** ** Short keys *)

Fixpoint insert_all (junk : Z → list Z) p es : res p_body :=
  match es with [] => Ok p | (k, q) :: es => '(_, p) ← pbody_insert_new_key junk p k q false; insert_all junk p es end.

(** One page takes all the entries [cur], the first of which has the key [k0]. From the
    512th entry on the offsets are written behind the bitmap, over the first entry. *)
Record crowded p (k0 : str_key) cur (size : Z) : Prop := Crowded {
  cr_page : ∃ page, now_page p = Some page ∧ Z.of_nat (length page) = PAGESIZE ∧ has page (2 * 1) (le16_bytes KEYBITMAP) ∧
    ((2 <= length cur)%nat → has page (2 * 2) (le16_bytes (KEYBITMAP + KEYLEN k0))) ∧
    ((length cur <= 512)%nat → has page (KEYBITMAP + PPA_SIZE) (key k0)) ∧
    ((512 <= length cur)%nat → has page (2 * 512) (le16_bytes (offset cur 511))) ∧
    ((513 <= length cur)%nat → has page (2 * 513) (le16_bytes (offset cur 512)));
  cr_first : ∃ q0 rest, cur = (k0, q0) :: rest;
  cr_ok : Forall entry_ok cur;
  cr_kidx : kidx p = 1 + Z.of_nat (length cur);
  cr_length : plength p = KEYBITMAP + bytes cur;
  cr_out : pidx p = 1 ∧ data_ptr p = ca_new size None ∧ filter p = None;
}.

Lemma ok_bytes es : Forall entry_ok es → 4 * Z.of_nat (length es) <= bytes es.
Proof. induction 1 as [|[k q] es [(Hl & _) _] _ IH]; [done|]. rewrite bytes_cons. simpl length. cbn in Hl. unfold KEYLEN, PPA_SIZE. lia. Qed.

Lemma put_entry_Ok data off k q : key_wf k → 0 <= off → off + KEYLEN k <= Z.of_nat (length data) →
  ∃ data', put_entry data off k q = Ok data' ∧ length data' = length data ∧ has data' (off + PPA_SIZE) (key k) ∧
    ∀ o bs, has data o bs → apart off (KEYLEN k) o (Z.of_nat (length bs)) → has data' o bs.
Proof.
  intros Hk Ho Hr. pose proof Hk as (Hl & _). unfold KEYLEN, PPA_SIZE in *. unfold put_entry.
  destruct (poke_Ok data off (le32_bytes q) Ho) as (d1 & -> & L1 & H1 & K1); [cbn; lia|]. rbind. rewrite peek_key by done. rbind.
  destruct (poke_Ok d1 (off + 4) (key k)) as (d2 & E2 & L2 & H2 & K2); [lia|lia|]. unfold PPA_SIZE. rewrite E2. exists d2.
  split; [done|]. split; [congruence|]. split; [done|]. intros o bs Hh Hap. apply K2; [apply K1; [done|]|]; unfold apart in *; cbn; lia.
Qed.

Lemma crowded_append p k0 cur size k q : crowded p k0 cur size → entry_ok (k, q) → bytes cur + KEYLEN k <= PAGESIZE - KEYBITMAP →
  ∃ p', append_key p k q = Ok p' ∧ crowded p' k0 (cur ++ [(k, q)]) size.
Proof.
  intros [(page & Hn & Hl & H1 & H2 & H3 & H4 & H5) (q0 & rest & ->) Hok Hk Hp (Hi & Hd & Hf)] Hkq Hroom. set (cur := (k0, q0) :: rest) in *.
  pose proof Hkq as [Hkw Hq]. cbn in Hkw, Hq. pose proof Hkw as (Hkl & _). pose proof (ok_bytes _ Hok) as Hb.
  assert (Hb0 : KEYLEN k0 <= bytes cur) by (unfold cur; rewrite bytes_cons; inversion_clear Hok as [|? ? _ Hr]; pose proof (ok_bytes _ Hr); lia).
  assert (Hk0 : KEYLEN k0 = Z.of_nat (length (key k0)) + 4) by (inversion_clear Hok as [|? ? [(Hx & _) _] _]; cbn in Hx; unfold KEYLEN, PPA_SIZE; lia).
  assert (Hlen : (1 <= length cur)%nat) by (cbn; lia). pose proof (offset_end cur) as Eo.
  assert (Hfst : ∃ q0 rest, cur = (k0, q0) :: rest) by (by exists q0, rest).
  assert (Hoff1 : length cur = 1%nat → bytes cur = KEYLEN k0) by (unfold cur; destruct rest; [intros _; rewrite bytes_cons; cbn; lia|done]). clearbody cur.
  change PAGESIZE with 8192 in *. unfold KEYBITMAP, PPA_SIZE in *. unfold append_key. rewrite Hn. cbn [deref]. rbind. rewrite Hp, Hf, Hk.
  destruct (put_entry_Ok page (1024 + bytes cur) k q Hkw) as (d1 & -> & L1 & _ & K1); [lia|lia|]. rbind.
  destruct (bitmap_set_Ok d1 (1 + Z.of_nat (length cur)) (1024 + bytes cur)) as (d2 & -> & L2 & B2 & K2); [lia|unfold KEYLEN, PPA_SIZE in *; lia|unfold KEYLEN, PPA_SIZE in *; lia|]. rbind.
  assert (Keep : ∀ o bs, has page o bs → o + Z.of_nat (length bs) <= 1024 + bytes cur → apart (2 * (1 + Z.of_nat (length cur))) 2 o (Z.of_nat (length bs)) → has d2 o bs).
  { intros o bs Hh Hle Hap. apply K2; [|done]. apply K1; [done|]. unfold apart. lia. }
  eexists. split; [done|]. unfold KEYLEN, PPA_SIZE in *. rewrite !u32_id by lia.
  constructor; cbn [now_page kidx plength pidx data_ptr filter].
  - unfold KEYLEN, KEYBITMAP, PPA_SIZE. change PAGESIZE with 8192. exists d2. split; [done|]. split; [lia|]. rewrite length_app. cbn [length].
    split; [apply Keep; [done|cbn [length le16_bytes]; lia|unfold apart; cbn [length le16_bytes]; lia]|]. split; [|split; [|split]].
    + intros _. destruct (decide (length cur = 1%nat)) as [E1|]; [|apply Keep; [apply H2; lia|cbn [length le16_bytes]; lia|unfold apart; cbn [length le16_bytes]; lia]].
      rewrite E1, Hoff1 in B2 by done. exact B2.
    + intros ?. apply Keep; [apply H3; lia|lia|unfold apart; lia].
    + intros ?. rewrite offset_app by lia. destruct (decide (length cur = 511%nat)) as [E1|]; [|apply Keep; [apply H4; lia|cbn [length le16_bytes]; lia|unfold apart; cbn [length le16_bytes]; lia]].
      rewrite E1 in Eo, B2. rewrite Eo. exact B2.
    + intros ?. rewrite offset_app by lia. destruct (decide (length cur = 512%nat)) as [E1|]; [|apply Keep; [apply H5; lia|cbn [length le16_bytes]; lia|unfold apart; cbn [length le16_bytes]; lia]].
      rewrite E1 in Eo, B2. rewrite Eo. exact B2.
  - destruct Hfst as (q' & rest' & ->). by exists q', (rest' ++ [(k, q)]).
  - apply Forall_app. split; [done|by apply Forall_singleton].
  - rewrite length_app. cbn [length]. lia.
  - rewrite bytes_app, bytes_cons. change (bytes []) with 0. unfold KEYLEN, PPA_SIZE, KEYBITMAP. lia.
  - done.
Qed.

Lemma crowded_first junk size k q : (∀ i, Z.of_nat (length (junk i)) = PAGESIZE) → 1 <= size → entry_ok (k, q) →
  ∃ p, pbody_insert_new_key junk (pbody_init (ca_new size None) size None) k q false = Ok (None, p) ∧ crowded p k [(k, q)] size.
Proof.
  intros Hj Hs [Hk Hq]. cbn in Hk, Hq. pose proof Hk as (Hl & Hl2 & _). unfold pbody_insert_new_key, store_page. cbn [pbody_init now_page andb orb]. rbind.
  unfold new_page_set. cbn [pbody_init data_ptr pidx max_page filter]. pose proof (Hj 0) as Hj0. rewrite ca_get_in by (cbn; lia). rbind. rewrite ca_at_new. rbind.
  destruct (page_has_bitmap _ Hj0) as [n ->]. rbind. unfold append_key. cbn [now_page deref plength kidx filter]. rbind.
  change PAGESIZE with 8192 in *. destruct (put_entry_Ok (junk 0) 1024 k q Hk) as (d1 & -> & L1 & E1 & _); [lia|unfold KEYLEN, PPA_SIZE; lia|]. rbind.
  destruct (bitmap_set_Ok d1 1 1024) as (d2 & -> & L2 & B2 & K2); [lia|lia|lia|]. rbind.
  eexists. split; [done|]. constructor; cbn [now_page kidx plength pidx data_ptr filter].
  - change PAGESIZE with 8192. exists d2. split; [done|]. split; [lia|]. split; [exact B2|]. cbn [length]. split; [lia|]. split; [|split; lia].
    intros _. apply K2; [exact E1|]. unfold apart, KEYBITMAP, PPA_SIZE. lia.
  - by exists q, [].
  - by apply Forall_singleton.
  - done.
  - rewrite bytes_cons. change (bytes []) with 0. unfold KEYLEN, PPA_SIZE, KEYBITMAP. rewrite u32_id by lia. lia.
  - done.
Qed.

Lemma crowded_insert junk p k0 cur size k q : crowded p k0 cur size → entry_ok (k, q) → bytes cur + KEYLEN k <= PAGESIZE - KEYBITMAP →
  ∃ p', pbody_insert_new_key junk p k q false = Ok (None, p') ∧ crowded p' k0 (cur ++ [(k, q)]) size.
Proof.
  intros Hc Hkq Hroom. pose proof Hc as [(page & Hn & _) _ Hok Hk Hl _]. pose proof (ok_bytes _ Hok). pose proof Hkq as [(Hkl & _) _]. cbn in Hkl.
  destruct (crowded_append p k0 cur size k q Hc Hkq Hroom) as (p' & E & Hc'). exists p'. split; [|done].
  change PAGESIZE with 8192 in *. unfold KEYLEN, PPA_SIZE, KEYBITMAP in *. unfold pbody_insert_new_key. rewrite Hn, Hk, Hl. cbn [andb orb].
  change ((PAGESIZE - 1024) / 2 - 2) with 3582. change PAGESIZE with 8192. unfold PPA_SIZE.
  rewrite Z.geb_leb, (proj2 (Z.leb_gt _ _)), Z.gtb_ltb, (proj2 (Z.ltb_ge _ _)) by lia. cbn [orb]. by rewrite E.
Qed.

Lemma crowded_inserts junk k0 size es : ∀ p cur, crowded p k0 cur size → Forall entry_ok es → bytes (cur ++ es) <= PAGESIZE - KEYBITMAP →
  ∃ p', insert_all junk p es = Ok p' ∧ crowded p' k0 (cur ++ es) size.
Proof.
  induction es as [|[k q] es IH]; intros p cur Hc Hok Hroom; [exists p; by rewrite app_nil_r|].
  inversion_clear Hok as [|? ? Hkq Hes]. pose proof (ok_bytes _ Hes). rewrite cons_middle, !bytes_app, bytes_cons in Hroom. change (bytes []) with 0 in Hroom. cbn [insert_all].
  destruct (crowded_insert junk p k0 cur size k q Hc Hkq) as (p1 & -> & Hc1); [lia|]. rbind.
  destruct (IH p1 (cur ++ [(k, q)]) Hc1 Hes) as (p2 & E & Hc2); [rewrite !bytes_app, bytes_cons; change (bytes []) with 0; lia|].
  exists p2. split; [done|]. by rewrite <-app_assoc in Hc2.
Qed.

(** Two offsets next to each other, read as an address. *)
Lemma offsets_as_address page x y : has page (2 * 512) (le16_bytes x) → has page (2 * 513) (le16_bytes y) → 0 <= x < 65536 → 0 <= y < 65536 →
  has page (2 * 1) (le16_bytes KEYBITMAP) → ppa_at page 1 = Ok (x + 2 ^ 16 * y).
Proof.
  intros Hx Hy Rx Ry H1. unfold ppa_at. rewrite (bitmap_get_has page 1 KEYBITMAP) by done. rbind.
  rewrite (peek_has page KEYBITMAP (le16_bytes x ++ le16_bytes y)); [|by apply has_app|done]. rbind. unfold le16_bytes, le32_read. cbn [app]. f_equal.
  unfold u8. rewrite !shiftr_div by lia. change (2 ^ 8) with 256. change (2 ^ 16) with 65536. change (2 ^ 24) with 16777216. Z.to_euclidean_division_equations. lia.
Qed.

(** A page that is flushed after at least 512 entries. *)
Lemma crowded_flush junk p k0 cur size : crowded p k0 cur size → bytes cur <= PAGESIZE - KEYBITMAP → (512 <= length cur)%nat → 1 <= size →
  ∃ page p', pbody_insert_new_key junk p KEY_END 0 true = Ok (Some page, p') ∧ bitmap_get page 0 = Ok (Z.of_nat (length cur)) ∧
    ppa_at page 1 = Ok (offset cur 511 + 2 ^ 16 * offset cur 512) ∧ (length cur = 512%nat → key_at page 1 = Ok k0).
Proof.
  intros [(page & Hn & Hl & H1 & H2 & H3 & H4 & H5) (q0 & rest & Ec) Hok Hk Hp (Hi & Hd & Hf)] Hroom Hlen Hs.
  pose proof (ok_bytes _ Hok) as Hb. pose proof (offset_end cur) as Eo.
  pose proof (offset_mono cur 0 511 Hok ltac:(lia)) as O1. pose proof (offset_mono cur 511 512 Hok ltac:(lia)) as O2. pose proof (offset_mono cur 512 _ Hok Hlen) as O3.
  change (offset cur 0) with (1024 + 0) in O1. change PAGESIZE with 8192 in *. unfold KEYBITMAP in Hroom, Hp.
  unfold pbody_insert_new_key, store_page. rewrite Hk, Hn, Hp, Hi, Hd. rewrite Z.gtb_ltb, (proj2 (Z.ltb_lt _ _)) by lia. cbn [andb orb]. rewrite Z.add_simpl_l.
  destruct (bitmap_set_Ok page 0 (Z.of_nat (length cur))) as (d1 & -> & L1 & B1 & K1); [lia..|]. rbind.
  destruct (bitmap_set_Ok d1 (1 + Z.of_nat (length cur)) (1024 + bytes cur)) as (d2 & -> & L2 & B2 & K2); [lia..|]. rbind.
  rewrite ca_set_in by (cbn; lia). rbind. eexists d2, _. split; [done|].
  assert (Keep : ∀ o bs, has page o bs → 2 <= o → apart (2 * (1 + Z.of_nat (length cur))) 2 o (Z.of_nat (length bs)) → has d2 o bs).
  { intros o bs Hh Ho Hap. apply K2; [|done]. apply K1; [done|]. unfold apart. lia. }
  assert (K512 : has d2 (2 * 513) (le16_bytes (offset cur 512))).
  { destruct (decide (length cur = 512%nat)) as [E1|]; [rewrite E1 in Eo, B2; rewrite Eo; exact B2|].
    apply Keep; [apply H5; lia|lia|unfold apart; cbn [length le16_bytes]; lia]. }
  assert (Kb : ∀ i x, 1 <= i <= 512 → has page (2 * i) (le16_bytes x) → has d2 (2 * i) (le16_bytes x)).
  { intros i x Hi' Hh. apply Keep; [done|lia|unfold apart; cbn [length le16_bytes]; lia]. }
  split; [apply bitmap_get_has; [apply K2; [exact B1|unfold apart; cbn [length le16_bytes]; lia]|lia]|]. split.
  - apply offsets_as_address; [apply Kb; [lia|by apply H4]|done|lia|lia|by apply Kb].
  - intros E1. rewrite Ec in Hok. inversion_clear Hok as [|? ? Hk0 _]. destruct Hk0 as [(Hkl & Hk2 & _) _]. cbn in Hkl, Hk2. unfold KEYBITMAP, KEYLEN, PPA_SIZE in *.
    unfold key_at, key_between. rewrite (bitmap_get_has d2 1 1024) by (done || by apply Kb). rbind.
    rewrite (bitmap_get_has d2 (1 + 1) (1024 + (len k0 + 4))) by (lia || (apply Kb; [lia|apply H2; lia])). rbind. unfold PPA_SIZE.
    replace (1024 + (len k0 + 4) - 1024 - 4) with (len k0) by lia. rewrite u8_id by lia.
    rewrite (peek_has d2 (1024 + 4) (key k0)) by (done || (apply Keep; [apply H3; lia|lia|unfold apart; lia])). rbind. by destruct k0.
Qed.

(** C39: the test of [pbody_insert_new_key] on the number of keys, [kidx] at least
    3582, does not protect the bitmap of 512 offsets. Any 512 or more entries that fit into
    one page together (their keys have 10 bytes on average or less) are all put into it
    without a fault, and then the flushed page gives for the first entry, whatever its address
    was, the offsets of the 512th and of the 513th entry (or of the end of the page) as its
    address; it is at least [3072 * 2 ^ 16], so that every smaller address is lost. With 512 entries the first key itself is still found. *)
Theorem short_keys_overwrite junk size es k q : (∀ i, Z.of_nat (length (junk i)) = PAGESIZE) → 1 <= size → head es = Some (k, q) →
  Forall entry_ok es → (512 <= length es)%nat → bytes es <= PAGESIZE - KEYBITMAP →
  ∃ p p' page, insert_all junk (pbody_init (ca_new size None) size None) es = Ok p ∧ pbody_insert_new_key junk p KEY_END 0 true = Ok (Some page, p') ∧
    bitmap_get page 0 = Ok (Z.of_nat (length es)) ∧ (length es = 512%nat → key_at page 1 = Ok k) ∧
    ppa_at page 1 = Ok (offset es 511 + 2 ^ 16 * offset es 512) ∧ (q < 3072 * 2 ^ 16 → ppa_at page 1 ≠ Ok q).
Proof.
  intros Hj Hs Hhd Hok Hlen Hroom. destruct es as [|e es]; [done|]. injection Hhd as ->. inversion_clear Hok as [|? ? Hkq Hes].
  destruct (crowded_first junk size k q Hj Hs Hkq) as (p0 & E0 & Hc0). destruct (crowded_inserts junk k size es p0 [(k, q)] Hc0 Hes Hroom) as (p & E & Hc).
  destruct (crowded_flush junk p k _ size Hc Hroom Hlen Hs) as (page & p' & Ef & Hn & Hp & Hk). exists p, p', page. cbn [insert_all]. rewrite E0. rbind.
  split; [done|]. split; [done|]. split; [done|]. split; [done|]. split; [done|]. rewrite Hp. intros Hq [= E1].
  assert (Hok : Forall entry_ok ((k, q) :: es)) by (by constructor). pose proof (offset_mono _ 0 511 Hok ltac:(lia)) as O1. change (offset _ 0) with (1024 + 0) in O1.
  pose proof (ok_bytes _ (Forall_take _ 512 _ Hok)) as Hb. rewrite length_take, Nat.min_l in Hb by done.
  assert (O2 : offset ((k, q) :: es) 512 = 1024 + bytes (take 512 ((k, q) :: es))) by done. lia.
Qed.

(** 512 keys of 10 bytes: as many entries of 14 bytes as fit into a page. *)
Definition short_key (n : Z) : str_key := Key 10 (0 :: n / 256 :: n mod 256 :: replicate 7 0).
Definition short_entries : list (str_key * Z) := (λ n, (short_key n, n)) <$> seqZ 1 512.

Lemma short_keys_overwrite_witness : ∃ p p' page, insert_all (λ _, sample_page) (pbody_init (ca_new 2 None) 2 None) short_entries = Ok p ∧
  pbody_insert_new_key (λ _, sample_page) p KEY_END 0 true = Ok (Some page, p') ∧ bitmap_get page 0 = Ok 512 ∧
  key_at page 1 = Ok (short_key 1) ∧ ppa_at page 1 = Ok (8178 + 2 ^ 16 * 8192).
Proof.
  destruct (short_keys_overwrite (λ _, sample_page) 2 short_entries (short_key 1) 1) as (p & p' & page & H1 & H2 & H3 & H4 & H5 & _);
    [done|done|done| |vm_compute; lia|vm_compute; discriminate|exists p, p', page; split; [exact H1|split; [exact H2|split; [exact H3|split; [exact (H4 eq_refl)|exact H5]]]]].
  apply Forall_fmap, Forall_forall. intros n Hn%elem_of_seqZ. unfold compose, entry_ok, key_wf. cbn.
  split; [|lia]. split; [done|]. split; [done|]. repeat constructor; Z.to_euclidean_division_equations; lia.
Defined.

End LsmPipe.
