(* ===== verification/LsmLevel.v ===== *)
(** * Levels of the LSM-tree (level_target/array/array.c, array_level.c)

    A level is an array of runs in the order of their keys, which do not overlap, with
    the range of its keys and a Bloom filter. The runs of the first [LEVELCACHING]
    levels keep their tables in memory ([level_caching_data]), those of the other levels
    are on the device: the class [Store] says where a run's table is, and the searches
    are proved for both. Runs have no entry of the run cache ([c_entry] is NULL). A
    pointer to a run of a level is its index in [arrs]. *)
From Stdlib Require Import Sorting.Sorted.
From S2P Require Export Prelude Settings Bloom LsmTable LsmPipe.
Import Bloom LsmTable LsmPipe.

Local Open Scope Z_scope.

Module LsmLevel.

Definition MAXKEYSIZE : Z := 255.
Definition key_max : str_key := Key MAXKEYSIZE (replicate (Z.to_nat MAXKEYSIZE) 255).
Definition key_min : str_key := Key MAXKEYSIZE (replicate (Z.to_nat MAXKEYSIZE) 0).

(** ** Data *)

Record level := Level {
  l_idx : Z; m_num : Z; n_num : Z; l_start : str_key; l_end : str_key; istier : bool; l_filter : option BF; arrs : carray run_t }.
Implicit Types (lev : level) (r : run_t).

(** A run as [calloc] returns it. *)
Definition no_run : run_t := Run (Key 0 []) (Key 0 []) 0 None None.

(** [f] is the filter that [bf_init] returns. *)
Definition array_init (size idx : Z) (tier : bool) (f : option BF) : level := Level idx size 0 key_max key_min tier f (ca_new size no_run).

Definition array_range_update lev (k : str_key) : level :=
  let s := if KEYCMP (l_start lev) k >? 0 then k else l_start lev in
  let e := if KEYCMP (l_end lev) k <? 0 then k else l_end lev in
  Level (l_idx lev) (m_num lev) (n_num lev) s e (istier lev) (l_filter lev) (arrs lev).

(** The runs after [array_run_cpy_to]: the source gives its table away. *)
Definition array_run_cpy_to (input res : run_t) : run_t * run_t :=
  let d := match level_caching_data input with Some d => Some d | None => level_caching_data res end in
  (Run (r_key input) (r_end input) (pbn input) None (cpt_data input), Run (r_key input) (r_end input) (pbn input) d (cpt_data res)).

Definition set_run lev (i : Z) r : res level :=
  a ← ca_set (arrs lev) i r;
  Ok (Level (l_idx lev) (m_num lev) (n_num lev) (l_start lev) (l_end lev) (istier lev) (l_filter lev) a).

(** The run given is copied behind the last one. *)
Definition array_insert lev r : res level :=
  if m_num lev <=? n_num lev then Err Aborted
  else
    old ← ca_get (arrs lev) (n_num lev);
    let target := (array_run_cpy_to r old).2 in
    lev ← set_run lev (n_num lev) target;
    let lev := array_range_update lev (r_key target) in
    let lev := array_range_update lev (r_end target) in
    Ok (Level (l_idx lev) (m_num lev) (n_num lev + 1) (l_start lev) (l_end lev) (istier lev) (l_filter lev) (arrs lev)).

Fixpoint lev_copy_loop (n : nat) (i : Z) (db sb : carray run_t) : res (carray run_t * carray run_t) :=
  match n with
  | O => Ok (db, sb)
  | S n =>
    r ← ca_get sb i; old ← ca_get db i;
    let '(r', new) := array_run_cpy_to r old in
    sb ← ca_set sb i r'; db ← ca_set db i new;
    lev_copy_loop n (i + 1) db sb
  end.
Definition array_lev_copy (des src : level) : res (level * level) :=
  '(db, sb) ← lev_copy_loop (Z.to_nat (n_num src)) 0 (arrs des) (arrs src);
  Ok (Level (l_idx des) (m_num des) (n_num src) (l_start src) (l_end src) (istier des) (l_filter src) db,
      Level (l_idx src) (m_num src) (n_num src) (l_start src) (l_end src) (istier src) (l_filter src) sb).

(** ** Searches *)

(** The run whose range has the key, or -1. *)
Fixpoint binary_search_loop (fuel : nat) (body : carray run_t) (lpa : str_key) (start end_ : Z) : res Z :=
  match fuel with
  | O => Err OutOfFuel
  | S fuel =>
    if (start =? end_) || (start <? end_) then
      let mid := (start + end_) / 2 in
      r ← ca_get body mid;
      let res1 := KEYCMP (r_key r) lpa in let res2 := KEYCMP (r_end r) lpa in
      if (res1 <=? 0) && (0 <=? res2) then Ok mid
      else if res1 >? 0 then binary_search_loop fuel body lpa start (mid - 1)
      else if res2 <? 0 then binary_search_loop fuel body lpa (mid + 1) end_
      else binary_search_loop fuel body lpa start end_
    else Ok (-1)
  end.
Definition array_binary_search (body : carray run_t) (max_t : Z) (lpa : str_key) : res Z :=
  binary_search_loop (S (Z.to_nat max_t)) body lpa 0 (max_t - 1).

(** The run that has the key or the first one above it, or -1. *)
Fixpoint bound_search_loop (fuel : nat) (body : carray run_t) (max_t : Z) (lpa : str_key) (islower : bool) (start end_ mid res1 res2 : Z) : res Z :=
  match fuel with
  | O => Err OutOfFuel
  | S fuel =>
    if (start =? end_) || (start <? end_) then
      let mid := (start + end_) / 2 in
      r ← ca_get body mid;
      let res1 := KEYCMP (r_key r) lpa in let res2 := KEYCMP (r_end r) lpa in
      if (res1 <=? 0) && (0 <=? res2) then Ok (if islower then mid else mid + 1)
      else if res1 >? 0 then bound_search_loop fuel body max_t lpa islower start (mid - 1) mid res1 res2
      else if res2 <? 0 then bound_search_loop fuel body max_t lpa islower (mid + 1) end_ mid res1 res2
      else bound_search_loop fuel body max_t lpa islower start end_ mid res1 res2
    else if res1 >? 0 then Ok mid
    else if (res2 <? 0) && (mid <? max_t - 1) then Ok (mid + 1)
    else Ok (-1)
  end.
Definition array_bound_search (body : carray run_t) (max_t : Z) (lpa : str_key) (islower : bool) : res Z :=
  bound_search_loop (S (Z.to_nat max_t)) body max_t lpa islower 0 (max_t - 1) 0 0 0.

(** By the first keys only; the division is the one of C, towards zero. *)
Fixpoint find_run_loop (fuel : nat) (a : carray run_t) (lpa : str_key) (start end_ mid : Z) : res Z :=
  match fuel with
  | O => Err OutOfFuel
  | S fuel =>
    r ← ca_get a mid;
    let res1 := KEYCMP (r_key r) lpa in
    if res1 =? 0 then Ok mid
    else
      let '(start, end_) := if res1 >? 0 then (start, mid - 1) else (mid + 1, end_) in
      let mid := Z.quot (start + end_) 2 in
      if start >? end_ then Ok mid else find_run_loop fuel a lpa start end_ mid
  end.
Definition array_find_run lev (lpa : str_key) : res (option Z) :=
  if n_num lev =? 0 then Ok None
  else i ← find_run_loop (S (Z.to_nat (n_num lev))) (arrs lev) lpa 0 (n_num lev - 1) (Z.quot (0 + (n_num lev - 1)) 2); Ok (Some i).

(** [num] runs from the one with the key on; a tiered level gives the pointer -1. *)
Inductive run_set := NoRuns | TierRuns | SomeRuns (l : list Z).
Definition array_find_run_num lev (lpa : str_key) (num : Z) : res run_set :=
  if n_num lev =? 0 then Ok NoRuns
  else if (KEYCMP (l_start lev) lpa >? 0) || (KEYCMP (l_end lev) lpa <? 0) then Ok NoRuns
  else if istier lev then Ok TierRuns
  else
    t ← array_binary_search (arrs lev) (n_num lev) lpa;
    if t =? -1 then Ok NoRuns else Ok (SomeRuns (seqZ t (Z.min num (n_num lev - t)))).

Fixpoint range_find_loop (fuel : nat) (a : carray run_t) (n i : Z) (s e : str_key) : res (list Z) :=
  match fuel with
  | O => Err OutOfFuel
  | S fuel =>
    if i <? n then
      r ← ca_get a i;
      if negb ((KEYCMP (r_end r) s <? 0) || (KEYCMP (r_key r) e >? 0))
      then l ← range_find_loop fuel a n (i + 1) s e; Ok (i :: l)
      else if KEYCMP e (r_key r) <? 0 then Ok []
      else range_find_loop fuel a n (i + 1) s e
    else Ok []
  end.
Definition array_range_find lev (s e : str_key) : res (list Z) :=
  t ← array_binary_search (arrs lev) (n_num lev) s;
  let t := if t =? -1 then 0 else t in
  range_find_loop (S (Z.to_nat (n_num lev))) (arrs lev) (n_num lev) t s e.

Definition array_range_find_compaction lev (s e : str_key) : res (list Z) :=
  t ← array_bound_search (arrs lev) (n_num lev) s true;
  let t := if t =? -1 then 0 else t in Ok (seqZ t (n_num lev - t)).

Fixpoint unmatch_loop (fuel : nat) (a : carray run_t) (n i : Z) (s : str_key) : res (list Z) :=
  match fuel with
  | O => Err OutOfFuel
  | S fuel =>
    if i <? n then
      r ← ca_get a i; l ← unmatch_loop fuel a n (i + 1) s;
      Ok (if KEYCMP (r_end r) s <? 0 then i :: l else l)
    else Ok []
  end.
Definition array_unmatch_find lev (s e : str_key) : res (list Z) := unmatch_loop (S (Z.to_nat (n_num lev))) (arrs lev) (n_num lev) 0 s.

Definition array_range_find_lowerbound lev (target : str_key) : res (option Z) :=
  t ← array_bound_search (arrs lev) (n_num lev) target true; Ok (if t =? -1 then None else Some t).

Definition array_next_run lev (k : str_key) : res (option Z) :=
  t ← array_binary_search (arrs lev) (n_num lev) k;
  Ok (if t =? -1 then None else if t + 1 <? n_num lev then Some (t + 1) else None).

Definition array_chk_overlap lev (s e : str_key) : bool := negb ((KEYCMP (l_start lev) e >? 0) || (KEYCMP (l_end lev) s <? 0)).

(** ** Iterators *)

Record a_iter := AIter { it_max : Z; it_now : Z; ispartial : bool }.
Definition array_get_iter lev (s e : str_key) : res a_iter :=
  if (KEYCMP s (l_start lev) =? 0) && (KEYCMP e (l_end lev) =? 0) then Ok (AIter (n_num lev) 0 false)
  else
    now ← array_bound_search (arrs lev) (n_num lev) s true;
    mx ← array_bound_search (arrs lev) (n_num lev) e true;
    Ok (AIter mx now true).
(** [sr] is a pointer to a run of the level; [ispartial] is not set. *)
Definition array_get_iter_from_run lev (sr : Z) : a_iter := AIter (n_num lev) sr false.
(** [None] when the iterator was freed. *)
Definition array_iter_nxt (it : a_iter) : option (Z * a_iter) :=
  if it_now it =? it_max it then None else Some (it_now it, AIter (it_max it) (it_now it + 1) (ispartial it)).

Definition array_get_run_idx lev (idx : Z) : res run_t := ca_get (arrs lev) idx.
Definition array_get_numbers_run lev : Z := n_num lev.

(** [abort] when the runs are not in order *)
Fixpoint check_order_loop (fuel : nat) lev (bef : run_t) (i : Z) : res unit :=
  match fuel with
  | O => Err OutOfFuel
  | S fuel =>
    if i <? n_num lev then
      now ← array_get_run_idx lev i;
      abort_if (0 <=? KEYCMP (r_end bef) (r_key now)) (check_order_loop fuel lev now (i + 1))
    else Ok tt
  end.
Definition array_check_order (LEVELCACHING : Z) lev : res unit :=
  if (l_idx lev <? LEVELCACHING) || (n_num lev =? 0) then Ok tt
  else bef ← array_get_run_idx lev 0; check_order_loop (S (Z.to_nat (n_num lev))) lev bef 1.

(** The table of a run without an entry of the cache. *)
Definition data_from_run r : res (list Z) :=
  match level_caching_data r with Some d => Ok d | None => deref (cpt_data r) end.

(** The runs of a level for the merger: those of the level, or copies of them. *)
Fixpoint comp_formatting_loop (n : nat) (i : Z) (a : carray run_t) (des_cache : bool) : res (list run_t) :=
  match n with
  | O => Ok []
  | S n =>
    r ← ca_get a i;
    let r' := if des_cache then r else Run (r_key r) (r_end r) (pbn r) None (level_caching_data r) in
    l ← comp_formatting_loop n (i + 1) a des_cache; Ok (r' :: l)
  end.
Definition array_cache_comp_formatting lev (des_cache : bool) : res (list run_t) :=
  comp_formatting_loop (Z.to_nat (n_num lev)) 0 (arrs lev) des_cache.

(** [array_header_get_keyiter]: without a page, from the run that has the key; NULL
    when there is none. *)
Definition array_header_get_keyiter lev (data : option (list Z)) (k : option str_key) : res (option header_iter) :=
  data ← match data with
    | Some d => Ok (Some d)
    | None =>
      k ← deref k;
      t ← array_binary_search (arrs lev) (n_num lev) k;
      if t =? -1 then Ok None else r ← ca_get (arrs lev) t; Ok (level_caching_data r)
    end;
  match data with
  | Some d => it ← header_iter_from d k; Ok (Some it)
  | None => Ok None
  end.

(** ** Keys in order *)

Implicit Types (es : list (str_key * Z)) (ess : list (list (str_key * Z))) (a b c k : str_key).

Lemma cmp_lt_le a b c : key_wf a → key_wf b → key_wf c → KEYCMP a b < 0 → KEYCMP b c <= 0 → KEYCMP a c < 0.
Proof.
  intros Ha Hb Hc H1 H2. destruct (decide (KEYCMP b c = 0)) as [E|]; [apply (cmp_eq (cmp:=KEYCMP)) in E; [by subst|done|done]|].
  apply (cmp_trans (cmp:=KEYCMP) a b c); try done. lia.
Qed.

Lemma cmp_le_lt a b c : key_wf a → key_wf b → key_wf c → KEYCMP a b <= 0 → KEYCMP b c < 0 → KEYCMP a c < 0.
Proof.
  intros Ha Hb Hc H1 H2. destruct (decide (KEYCMP a b = 0)) as [E|]; [apply (cmp_eq (cmp:=KEYCMP)) in E; [by subst|done|done]|].
  apply (cmp_trans (cmp:=KEYCMP) a b c); try done. lia.
Qed.

Lemma cmp_le_le a b c : key_wf a → key_wf b → key_wf c → KEYCMP a b <= 0 → KEYCMP b c <= 0 → KEYCMP a c <= 0.
Proof.
  intros Ha Hb Hc H1 H2. destruct (decide (KEYCMP a b = 0)) as [E|]; [apply (cmp_eq (cmp:=KEYCMP)) in E; [by subst|done|done]|].
  apply Z.lt_le_incl, (cmp_lt_le a b c); try done. lia.
Qed.

Lemma entries_app_sorted es es' : sorted (es ++ es') ↔ sorted es ∧ sorted es' ∧ ∀ x y, x ∈ es → y ∈ es' → key_lt x y.
Proof.
  induction es as [|e es IH]; cbn [app].
  - split; [intros H; split; [constructor|split; [done|by intros x y ?%elem_of_nil]]|by intros (_ & ? & _)].
  - rewrite !sorted_cons, IH. setoid_rewrite elem_of_app. setoid_rewrite elem_of_cons. naive_solver.
Qed.

Lemma elem_concat ess (e : str_key * Z) : e ∈ concat ess ↔ ∃ i es, ess !! i = Some es ∧ e ∈ es.
Proof.
  induction ess as [|es0 ess IH]; cbn [concat]; [split; [by intros ?%elem_of_nil|by intros (? & ? & ? & ?)]|]. rewrite elem_of_app, IH. split.
  - intros [He|(i & es & Hi & He)]; [by exists 0%nat, es0|by exists (S i), es].
  - intros ([|i] & es & Hi & He); [injection Hi as ->; by left|right; by exists i, es].
Qed.

Lemma sorted_pages ess i j es es' x y : sorted (concat ess) → (i < j)%nat → ess !! i = Some es → ess !! j = Some es' → x ∈ es → y ∈ es' → key_lt x y.
Proof.
  revert i j. induction ess as [|es0 ess IH]; intros i j Hs Hij Hi Hj Hx Hy; [done|]. cbn [concat] in Hs. apply entries_app_sorted in Hs as (_ & Hs & Hlt).
  destruct j as [|j]; [lia|]. destruct i as [|i]; cbn in Hi, Hj.
  - injection Hi as ->. apply Hlt; [done|]. apply elem_concat. by exists j, es'.
  - apply (IH i j); [done|lia|done..].
Qed.

Lemma sorted_page ess i es : sorted (concat ess) → ess !! i = Some es → sorted es.
Proof.
  revert i. induction ess as [|es0 ess IH]; intros i Hs Hi; [done|]. cbn [concat] in Hs. apply entries_app_sorted in Hs as (H0 & H1 & _).
  destruct i as [|i]; [by injection Hi as ->|by apply (IH i)].
Qed.

(** ** Levels that hold tables *)

(** The first and the last key of a page. *)
Definition lo es : str_key := default key_max (fst <$> head es).
Definition hi es : str_key := default key_min (fst <$> last es).

(** Where the runs of a level have their tables: copying a run to a free place of
    a level must not change its table. *)
Class Store := {
  table_of : run_t → list Z → Prop;
  table_of_cpy r old d : level_caching_data old = None → table_of r d → table_of (array_run_cpy_to r old).2 d;
}.

(** In memory; or in a page of the device, with a copy in memory that may be there. *)
Definition cached_store : Store.
Proof. refine {| table_of r d := level_caching_data r = Some d |}. intros r old d _ Hd. unfold array_run_cpy_to. by rewrite Hd. Defined.
Definition device_store (dev : gmap Z (list Z)) : Store.
Proof.
  refine {| table_of r d := dev !! pbn r = Some d ∧ (level_caching_data r = None ∨ level_caching_data r = Some d) |}.
  intros r old d Hold [Hp Hd]. unfold array_run_cpy_to. cbn. split; [done|]. destruct Hd as [-> | ->]; [by left|by right].
Defined.

Section levels.
Context {St : Store}.

Record run_at r es : Prop := RunAt {
  ra_data : ∃ data, table_of r data ∧ table data es;
  ra_ne : es ≠ [];
  ra_lo : r_key r = lo es;
  ra_hi : r_end r = hi es;
}.

(** Keys between the two extreme ones. *)
Definition proper (e : str_key * Z) : Prop := entry_ok e ∧ KEYCMP key_min e.1 < 0 ∧ KEYCMP e.1 key_max < 0.

(** The filter has the keys of [es]. *)
Definition filter_has (f : option BF) es : Prop :=
  match f with None => True | Some b => usable b ∧ ∀ k, k ∈ es.*1 → bf_check (Some b) k = Ok true end.

(** The runs are the pages [ess], in order. *)
Record runs lev ess : Prop := Runs {
  rn_num : n_num lev = Z.of_nat (length ess);
  rn_cap : n_num lev <= m_num lev ∧ ca_len (arrs lev) = m_num lev ∧ m_num lev < 2 ^ 31;
  rn_run i es : ess !! i = Some es → run_at (ca_at (arrs lev) (Z.of_nat i)) es;
  rn_new i : Z.of_nat (length ess) <= i → level_caching_data (ca_at (arrs lev) i) = None;
  rn_sorted : sorted (concat ess);
  rn_proper : Forall proper (concat ess);
  rn_range : l_start lev = lo (concat ess) ∧ l_end lev = hi (concat ess);
}.

Lemma proper_ok es : Forall proper es → Forall entry_ok es.
Proof. intros H. apply (Forall_impl _ _ _ H). by intros e []. Qed.

Lemma key_wf_max : key_wf key_max.
Proof. split; [done|]. split; [done|]. apply Forall_replicate. lia. Qed.
Lemma key_wf_min : key_wf key_min.
Proof. split; [done|]. split; [done|]. apply Forall_replicate. lia. Qed.

Lemma lo_elem es : es ≠ [] → ∃ p, (lo es, p) ∈ es.
Proof. destruct es as [|[k p] es]; [done|]. exists p. left. Qed.
Lemma hi_elem es : es ≠ [] → ∃ p, (hi es, p) ∈ es.
Proof.
  intros Hne. destruct (last es) as [[k p]|] eqn:E; [|by apply last_None in E]. exists p. unfold hi. rewrite E. cbn.
  by apply last_Some_elem_of.
Qed.

Lemma lo_le es e : sorted es → Forall entry_ok es → e ∈ es → KEYCMP (lo es) e.1 <= 0.
Proof.
  intros Hs Hok He. destruct es as [|x es]; [by apply elem_of_nil in He|]. cbn. apply sorted_cons in Hs as [_ Hs]. apply Forall_cons in Hok as [[Hx _] _].
  apply elem_of_cons in He as [->|He]; [|by apply Z.lt_le_incl, Hs]. assert (KEYCMP x.1 x.1 = 0) by (by apply (cmp_eq (cmp:=KEYCMP))). lia.
Qed.

Lemma hi_ge es e : sorted es → Forall entry_ok es → e ∈ es → KEYCMP e.1 (hi es) <= 0.
Proof.
  intros Hs Hok [i Hi]%list_elem_of_lookup. unfold hi. rewrite last_lookup. pose proof (lookup_lt_Some _ _ _ Hi).
  destruct (lookup_lt_is_Some_2 es (pred (length es)) ltac:(lia)) as [x Hx]. rewrite Hx. cbn.
  destruct (decide (i = pred (length es))) as [->|].
  - assert (x = e) as -> by congruence. assert (KEYCMP e.1 e.1 = 0); [|lia]. apply (cmp_eq (cmp:=KEYCMP)); [apply (Forall_lookup_1 _ _ _ _ Hok Hi)..|done].
  - apply Z.lt_le_incl. apply (sorted_lookup es i (pred (length es))); [done|lia|done..].
Qed.

(** ** Searches among the runs *)

(** Where page [i] is: below the key, above it, or around it. *)
Definition rside ess k (i : nat) : Z :=
  match ess !! i with Some es => if KEYCMP (hi es) k <? 0 then -1 else if 0 <? KEYCMP (lo es) k then 1 else 0 | None => 1 end.

Section search.
Context (lev : level) (ess : list (list (str_key * Z))).
Hypothesis Hruns : runs lev ess.
Implicit Types i j : nat.

Lemma page_wf i es : ess !! i = Some es → sorted es ∧ Forall entry_ok es ∧ es ≠ [] ∧ key_wf (lo es) ∧ key_wf (hi es) ∧ KEYCMP (lo es) (hi es) <= 0.
Proof.
  intros Hi. destruct Hruns as [_ _ Hrun _ Hs Hp _]. pose proof (ra_ne _ _ (Hrun i es Hi)) as Hne. apply proper_ok in Hp. rewrite Forall_forall in Hp.
  assert (Hok : Forall entry_ok es) by (apply Forall_forall; intros e He; apply Hp, elem_concat; by exists i, es).
  pose proof (sorted_page ess i es Hs Hi) as Hse.
  destruct (lo_elem es Hne) as [p Hl], (hi_elem es Hne) as [p' Hh]. pose proof (lo_le es _ Hse Hok Hh). rewrite Forall_forall in Hok.
  split; [done|]. split; [by apply Forall_forall|]. split; [done|]. split; [apply (Hok _ Hl)|]. split; [apply (Hok _ Hh)|done].
Qed.

Lemma hi_lt_lo i j es es' : (i < j)%nat → ess !! i = Some es → ess !! j = Some es' → KEYCMP (hi es) (lo es') < 0.
Proof.
  intros Hij Hi Hj. destruct (page_wf i es Hi) as (_ & _ & Hne & _), (page_wf j es' Hj) as (_ & _ & Hne' & _).
  destruct (hi_elem es Hne) as [p Hh], (lo_elem es' Hne') as [p' Hl]. exact (sorted_pages ess i j es es' _ _ (rn_sorted _ _ Hruns) Hij Hi Hj Hh Hl).
Qed.

Lemma rside_mono k i j : key_wf k → (i < j < length ess)%nat → (rside ess k j <= 0 → rside ess k i < 0) ∧ (0 <= rside ess k i → 0 < rside ess k j).
Proof.
  intros Hk [Hij Hj]. destruct (lookup_lt_is_Some_2 ess i ltac:(lia)) as [es Hi], (lookup_lt_is_Some_2 ess j Hj) as [es' Hj']. unfold rside. rewrite Hi, Hj'.
  destruct (page_wf i es Hi) as (_ & _ & _ & Hwl & Hwh & _), (page_wf j es' Hj') as (_ & _ & _ & Hwl' & Hwh' & Hle).
  pose proof (hi_lt_lo i j es es' Hij Hi Hj') as Hlt. split.
  - intros Hs. destruct (Z.ltb_spec (KEYCMP (hi es) k) 0); [lia|]. exfalso. assert (KEYCMP (lo es') k <= 0).
    { destruct (Z.ltb_spec (KEYCMP (hi es') k) 0); [|destruct (Z.ltb_spec 0 (KEYCMP (lo es') k)); lia].
      apply Z.lt_le_incl, (cmp_le_lt _ (hi es')); done. }
    pose proof (cmp_lt_le _ _ k Hwh Hwl' Hk Hlt ltac:(lia)). lia.
  - intros Hs. destruct (Z.ltb_spec (KEYCMP (hi es) k) 0) as [|Hge]; [lia|].
    rewrite (cmp_antisym (cmp:=KEYCMP) k (hi es)) in Hge by done.
    pose proof (cmp_le_lt k _ _ Hk Hwh Hwl' ltac:(lia) Hlt) as Hkl. pose proof (cmp_lt_le k _ _ Hk Hwl' Hwh' Hkl Hle) as Hkh.
    rewrite (cmp_antisym (cmp:=KEYCMP) k (lo es')), (cmp_antisym (cmp:=KEYCMP) k (hi es')) by done.
    rewrite (proj2 (Z.ltb_ge _ _)), (proj2 (Z.ltb_lt _ _)) by lia. lia.
Qed.

Lemma run_get i : (i < length ess)%nat → ∃ r es, ess !! i = Some es ∧ ca_get (arrs lev) (Z.of_nat i) = Ok r ∧ run_at r es.
Proof.
  intros Hi. destruct (lookup_lt_is_Some_2 ess i Hi) as [es He]. destruct Hruns as [Hn (Hc & Hl & _) Hrun _ _ _ _]. eexists _, es. split; [done|].
  split; [|by apply Hrun]. apply ca_get_in. lia.
Qed.

(** The tests of the searches on a run. *)
Lemma run_side k i : key_wf k → (i < length ess)%nat → ∃ r, ca_get (arrs lev) (Z.of_nat i) = Ok r ∧
  (KEYCMP (r_key r) k >? 0) = (0 <? rside ess k i) ∧ (KEYCMP (r_end r) k <? 0) = (rside ess k i <? 0) ∧
  ((KEYCMP (r_key r) k <=? 0) && (0 <=? KEYCMP (r_end r) k)) = (rside ess k i =? 0).
Proof.
  intros Hk Hi. destruct (run_get i Hi) as (r & es & He & E & Hr). exists r. split; [done|]. rewrite (ra_lo _ _ Hr), (ra_hi _ _ Hr). unfold rside. rewrite He.
  destruct (page_wf i es He) as (_ & _ & _ & Hwl & Hwh & Hle). pose proof (cmp_le_lt _ _ k Hwl Hwh Hk Hle). rewrite Z.gtb_ltb.
  destruct (Z.ltb_spec (KEYCMP (hi es) k) 0); [|destruct (Z.ltb_spec 0 (KEYCMP (lo es) k))].
  - rewrite (proj2 (Z.ltb_ge _ _)), (proj2 (Z.leb_gt 0 _)), andb_false_r by lia. done.
  - rewrite (proj2 (Z.leb_gt _ 0)) by lia. done.
  - rewrite !(proj2 (Z.leb_le _ _)) by lia. done.
Qed.

(** What the searches know of the pages outside of [start] and [end]. *)
Definition between k (start end_ : Z) : Prop :=
  0 <= start <= end_ + 1 ∧ end_ + 1 <= Z.of_nat (length ess) ∧
  ∀ i, (i < length ess)%nat → (Z.of_nat i < start → rside ess k i < 0) ∧ (end_ < Z.of_nat i → 0 < rside ess k i).

Lemma between_all k : between k 0 (n_num lev - 1).
Proof. rewrite (rn_num _ _ Hruns). split; [lia|]. split; [lia|]. intros i Hi. lia. Qed.

Lemma between_mid k start end_ : key_wf k → between k start end_ → start <= end_ →
  ∃ i, (start + end_) / 2 = Z.of_nat i ∧ (i < length ess)%nat ∧ start <= Z.of_nat i <= end_ ∧
    (0 < rside ess k i → between k start (Z.of_nat i - 1)) ∧ (rside ess k i < 0 → between k (Z.of_nat i + 1) end_).
Proof.
  intros Hk (Hs & He & Hb) Hle. set (mid := (start + end_) / 2). assert (Hmid : start <= mid <= end_) by (unfold mid; Z.to_euclidean_division_equations; lia).
  exists (Z.to_nat mid). split; [lia|]. split; [lia|]. split; [lia|]. split; intros Hside; (split; [lia|]; split; [lia|]); intros i Hi; destruct (Hb i Hi); (split; intros Hlt; [|]); auto.
  - destruct (decide (i = Z.to_nat mid)) as [->|]; [done|]. apply (rside_mono k (Z.to_nat mid) i Hk); lia.
  - destruct (decide (i = Z.to_nat mid)) as [->|]; [done|]. apply (rside_mono k i (Z.to_nat mid) Hk); lia.
Qed.

Lemma binary_loop_Ok k fuel : ∀ start end_, key_wf k → between k start end_ → end_ - start + 1 < Z.of_nat fuel →
  ∃ t, binary_search_loop fuel (arrs lev) k start end_ = Ok t ∧
    (t = -1 ∧ (∀ i, (i < length ess)%nat → rside ess k i ≠ 0) ∨ ∃ i, t = Z.of_nat i ∧ (i < length ess)%nat ∧ rside ess k i = 0).
Proof.
  induction fuel as [|fuel IH]; intros start end_ Hk Hb Hf; [destruct Hb; lia|]. cbn [binary_search_loop].
  replace ((start =? end_) || (start <? end_)) with (start <=? end_) by (destruct (Z.leb_spec start end_), (Z.eqb_spec start end_), (Z.ltb_spec start end_); lia || done).
  destruct (Z.leb_spec start end_) as [Hle|Hgt].
  - destruct (between_mid k start end_ Hk Hb Hle) as (i & -> & Hi & Hr & Hup & Hdown). destruct (run_side k i Hk Hi) as (r & -> & E1 & E2 & E3). rbind. rewrite E1, E2, E3.
    destruct (Z.eqb_spec (rside ess k i) 0) as [H0|Hn]; [eexists; split; [done|]; right; by exists i|].
    destruct (Z.ltb_spec 0 (rside ess k i)); [apply IH; [done|by apply Hup|lia]|].
    rewrite (proj2 (Z.ltb_lt _ _)) by lia. apply IH; [done|apply Hdown; lia|lia].
  - eexists. split; [done|]. left. split; [done|]. intros i Hi. destruct Hb as (_ & _ & Hb). destruct (Hb i Hi). destruct (decide (Z.of_nat i < start)); [lia|]. assert (end_ < Z.of_nat i) by lia. lia.
Qed.

Lemma binary_search_Ok k : key_wf k → ∃ t, array_binary_search (arrs lev) (n_num lev) k = Ok t ∧
  (t = -1 ∧ (∀ i, (i < length ess)%nat → rside ess k i ≠ 0) ∨ ∃ i, t = Z.of_nat i ∧ (i < length ess)%nat ∧ rside ess k i = 0).
Proof. intros Hk. apply binary_loop_Ok; [done|apply between_all|]. rewrite (rn_num _ _ Hruns). lia. Qed.

(** *** The lower bound among the runs *)

Definition bound_at k (t : Z) : Prop :=
  t = -1 ∧ (∀ i, (i < length ess)%nat → rside ess k i < 0) ∨
  0 <= t < Z.of_nat (length ess) ∧ ∀ i, (i < length ess)%nat → (Z.of_nat i < t → rside ess k i < 0) ∧ (t <= Z.of_nat i → 0 <= rside ess k i).

Lemma between_end k start end_ : between k start end_ → end_ < start → start < Z.of_nat (length ess) → bound_at k start.
Proof.
  intros (Hs & He & Hb) Hlt Hn. right. split; [lia|]. intros i Hi. destruct (Hb i Hi) as [H1 H2]. split; [done|]. intros Hge. apply Z.lt_le_incl, H2. lia.
Qed.

Lemma inside_bound k i : key_wf k → (i < length ess)%nat → rside ess k i = 0 → bound_at k (Z.of_nat i).
Proof.
  intros Hk Hi H0. right. split; [lia|]. intros j Hj. split; intros Hij; [apply (rside_mono k j i Hk); lia|].
  destruct (decide (j = i)) as [->|]; [lia|]. apply Z.lt_le_incl, (rside_mono k i j Hk); lia.
Qed.

Lemma bound_loop_Ok k fuel : ∀ start end_ mid res1 res2, key_wf k → between k start end_ → end_ - start + 1 < Z.of_nat fuel → 0 <= mid →
  (0 < res1 ∧ end_ = mid - 1 ∧ mid < n_num lev ∨ res1 <= 0 ∧ res2 < 0 ∧ start = mid + 1 ∨ start <= end_ ∨ n_num lev = 0 ∧ res1 = 0 ∧ res2 = 0) →
  ∃ t, bound_search_loop fuel (arrs lev) (n_num lev) k true start end_ mid res1 res2 = Ok t ∧ bound_at k t.
Proof.
  pose proof (rn_num _ _ Hruns) as Hnum.
  induction fuel as [|fuel IH]; intros start end_ mid res1 res2 Hk Hb Hf Hm Hres; [destruct Hb; lia|]. cbn [bound_search_loop].
  replace ((start =? end_) || (start <? end_)) with (start <=? end_) by (destruct (Z.leb_spec start end_), (Z.eqb_spec start end_), (Z.ltb_spec start end_); lia || done).
  destruct (Z.leb_spec start end_) as [Hle|Hgt].
  - clear Hres. destruct (between_mid k start end_ Hk Hb Hle) as (i & -> & Hi & Hr & Hup & Hdown). destruct (run_side k i Hk Hi) as (r & -> & E1 & E2 & E3). rbind. rewrite E1, E2, E3.
    rewrite Z.gtb_ltb in E1. destruct (Z.eqb_spec (rside ess k i) 0) as [H0|Hn]; [eexists; split; [done|]; by apply inside_bound|].
    destruct (Z.ltb_spec 0 (rside ess k i)); [apply IH; [done|by apply Hup|lia|lia|]; left; apply Z.ltb_lt in E1; lia|].
    rewrite (proj2 (Z.ltb_lt _ _)) in E2 |- * by lia. apply IH; [done|apply Hdown; lia|lia|lia|]. right; left. apply Z.ltb_lt in E2. apply Z.ltb_ge in E1. lia.
  - rewrite Z.gtb_ltb. destruct Hb as (Hs & He & Hb). assert (Hends : between k start end_) by done.
    destruct Hres as [(H1 & -> & H2)|[(H1 & H2 & ->)|[|(Hz & -> & ->)]]]; [..|lia|].
    + rewrite (proj2 (Z.ltb_lt _ _)) by lia. exists mid. split; [done|]. assert (start = mid) as -> by lia. eapply between_end; [done|lia|lia].
    + rewrite (proj2 (Z.ltb_ge 0 _)), (proj2 (Z.ltb_lt res2 _)) by lia. cbn [andb]. destruct (Z.ltb_spec mid (n_num lev - 1)).
      * eexists. split; [done|]. eapply between_end; [done|lia|lia].
      * eexists. split; [done|]. left. split; [done|]. intros i Hi. apply (Hb i Hi). lia.
    + exists (-1). split; [done|]. left. split; [done|]. intros i Hi. lia.
Qed.

Lemma bound_search_Ok k : key_wf k → ∃ t, array_bound_search (arrs lev) (n_num lev) k true = Ok t ∧ bound_at k t.
Proof.
  intros Hk. pose proof (rn_num _ _ Hruns). apply bound_loop_Ok; [done|apply between_all|lia|lia|]. destruct (decide (n_num lev = 0)); [by right; right; right|right; right; left; lia].
Qed.

(** *** The run that may have a key *)

(** The last page whose first key is not above [k]; page 0 when there is none. *)
Definition find_at k (t : Z) : Prop :=
  0 <= t < Z.of_nat (length ess) ∧ ∀ i, (i < length ess)%nat → rside ess k i = 0 → t = Z.of_nat i.

Lemma run_first k i : key_wf k → (i < length ess)%nat → ∃ r, ca_get (arrs lev) (Z.of_nat i) = Ok r ∧
  (KEYCMP (r_key r) k = 0 → rside ess k i = 0) ∧ (0 < KEYCMP (r_key r) k ↔ 0 < rside ess k i).
Proof.
  intros Hk Hi. destruct (run_get i Hi) as (r & es & He & E & Hr). exists r. split; [done|]. rewrite (ra_lo _ _ Hr). unfold rside. rewrite He.
  destruct (page_wf i es He) as (_ & _ & _ & Hwl & Hwh & Hle). pose proof (cmp_le_lt _ _ k Hwl Hwh Hk Hle).
  destruct (Z.ltb_spec (KEYCMP (hi es) k) 0); [|destruct (Z.ltb_spec 0 (KEYCMP (lo es) k))]; lia.
Qed.

Lemma find_run_loop_Ok k fuel : ∀ start end_, key_wf k → 0 <= start <= end_ → end_ < Z.of_nat (length ess) → end_ - start < Z.of_nat fuel →
  (∀ i, (i < length ess)%nat → (Z.of_nat i < start → rside ess k i <= 0) ∧ (end_ < Z.of_nat i → 0 < rside ess k i)) →
  ∃ t, find_run_loop fuel (arrs lev) k start end_ (Z.quot (start + end_) 2) = Ok t ∧ find_at k t.
Proof.
  induction fuel as [|fuel IH]; intros start end_ Hk Hse Hn Hf Hb; [lia|]. cbn [find_run_loop]. rewrite Z.quot_div_nonneg by lia.
  set (mid := (start + end_) / 2). assert (Hmid : start <= mid <= end_) by (unfold mid; Z.to_euclidean_division_equations; lia).
  destruct (Z_of_nat_complete mid ltac:(lia)) as [m Em]. rewrite Em in *. clear Em mid. destruct (run_first k m Hk ltac:(lia)) as (r & -> & H0 & Hpos). rbind.
  destruct (Z.eqb_spec (KEYCMP (r_key r) k) 0) as [Hz|Hnz].
  - eexists. split; [done|]. split; [lia|]. intros i Hi Hside. specialize (H0 Hz). f_equal. destruct (Nat.lt_trichotomy i m) as [?|[?|?]]; [|done|].
    + pose proof (proj2 (rside_mono k i m Hk ltac:(lia)) ltac:(lia)). lia.
    + pose proof (proj2 (rside_mono k m i Hk ltac:(lia)) ltac:(lia)). lia.
  - rewrite Z.gtb_ltb. assert (Hgo : ∀ start' end_', 0 <= start' <= end_' + 1 → end_' < Z.of_nat (length ess) → end_' - start' < Z.of_nat fuel →
      (∀ i, (i < length ess)%nat → (Z.of_nat i < start' → rside ess k i <= 0) ∧ (end_' < Z.of_nat i → 0 < rside ess k i)) →
      ∃ t, (if start' >? end_' then Ok (Z.quot (start' + end_') 2) else find_run_loop fuel (arrs lev) k start' end_' (Z.quot (start' + end_') 2)) = Ok t ∧ find_at k t).
    { intros start' end_' H1 H2 H3 Hb'. rewrite Z.gtb_ltb. destruct (Z.ltb_spec end_' start') as [Hlt|Hge]; [|by apply IH; [|lia|..]].
      eexists. split; [done|]. assert (start' = end_' + 1) as -> by lia. destruct (decide (end_' = -1)) as [->|].
      - change (Z.quot (-1 + 1 + -1) 2) with 0. split; [lia|]. intros i Hi Hside. destruct (Hb' i Hi) as [_ H]. lia.
      - replace (Z.quot (end_' + 1 + end_') 2) with end_' by (rewrite Z.quot_div_nonneg by lia; Z.to_euclidean_division_equations; lia).
        split; [lia|]. intros i Hi Hside. destruct (Hb' i Hi) as [_ H]. destruct (decide (Z.of_nat i < end_')) as [Hlt'|]; [|lia].
        pose proof (proj2 (rside_mono k i (Z.to_nat end_') Hk ltac:(lia)) ltac:(lia)). pose proof (proj1 (Hb' (Z.to_nat end_') ltac:(lia)) ltac:(lia)). lia. }
    destruct (Z.ltb_spec 0 (KEYCMP (r_key r) k)) as [Hp|Hp]; apply Hgo; try lia; intros i Hi; destruct (Hb i Hi) as [Hb1 Hb2].
    + split; [done|]. intros Hlt. destruct (decide (i = m)) as [->|]; [lia|]. apply (rside_mono k m i Hk); lia.
    + split; [|done]. intros Hlt. destruct (decide (i = m)) as [->|]; [lia|]. apply Z.lt_le_incl, (rside_mono k i m Hk); lia.
Qed.

Lemma find_run_Ok k : key_wf k → ess ≠ [] → ∃ t, array_find_run lev k = Ok (Some t) ∧ find_at k t.
Proof.
  intros Hk Hne. assert (length ess ≠ 0%nat) by (by intros ?%nil_length_inv). unfold array_find_run. rewrite (rn_num _ _ Hruns). rewrite (proj2 (Z.eqb_neq _ _)) by lia.
  destruct (find_run_loop_Ok k (S (Z.to_nat (Z.of_nat (length ess)))) 0 (Z.of_nat (length ess) - 1) Hk) as (t & -> & Ht); [lia|lia|lia|lia|]. rbind. by exists t.
Qed.

Lemma find_run_none k : ess = [] → array_find_run lev k = Ok None.
Proof. intros He. unfold array_find_run. by rewrite (rn_num _ _ Hruns), He. Qed.

(** The lookup in the table of the run that was found is the lookup in the level. *)
Lemma rside_elem k i es p : key_wf k → ess !! i = Some es → (k, p) ∈ es → rside ess k i = 0.
Proof.
  intros Hk Hi He. destruct (page_wf i es Hi) as (Hs & Hok & _ & Hwl & Hwh & _). unfold rside. rewrite Hi.
  pose proof (lo_le es _ Hs Hok He) as Hl. pose proof (hi_ge es _ Hs Hok He) as Hh. cbn in Hl, Hh. rewrite (cmp_antisym (cmp:=KEYCMP) k (hi es)) by done.
  rewrite !(proj2 (Z.ltb_ge _ _)) by lia. done.
Qed.

Lemma page_map k i es : key_wf k → ess !! i = Some es → (∀ j, (j < length ess)%nat → rside ess k j = 0 → i = j) →
  (list_to_map es : gmap str_key Z) !! k = (list_to_map (concat ess) : gmap str_key Z) !! k.
Proof.
  intros Hk Hi Huniq. destruct (page_wf i es Hi) as (Hs & Hok & _). destruct Hruns as [_ _ _ _ Hsc Hpc _]. apply proper_ok in Hpc.
  apply option_eq. intros p. rewrite <-!list_to_map_sorted by done. rewrite elem_concat. split; [by exists i, es|]. intros (j & es' & Hj & He).
  assert (i = j) as -> by (apply Huniq; [by eapply lookup_lt_Some|by eapply rside_elem]). by rewrite Hi in Hj; injection Hj as ->.
Qed.

Lemma level_lookup k : key_wf k → ess ≠ [] → ∃ t r data es, array_find_run lev k = Ok (Some t) ∧ ca_get (arrs lev) t = Ok r ∧ table_of r data ∧
  table data es ∧ sorted es ∧ (list_to_map es : gmap str_key Z) !! k = (list_to_map (concat ess) : gmap str_key Z) !! k.
Proof.
  intros Hk Hne. destruct (find_run_Ok k Hk Hne) as (t & E & [Ht Huniq]). destruct (Z_of_nat_complete t ltac:(lia)) as [i ->].
  destruct (run_get i ltac:(lia)) as (r & es & He & Er & [(data & Hd & Htb) _ _ _]). exists (Z.of_nat i), r, data, es. split; [done|]. split; [done|]. split; [done|]. split; [done|].
  split; [by apply (page_wf i)|]. apply (page_map k i es Hk He). intros j Hj Hside. specialize (Huniq j Hj Hside). lia.
Qed.

(** *** Ranges *)

(** Page [i] has keys of the range from [s] to [e], or between such keys. *)
Definition overlap (s e : str_key) (i : Z) : bool :=
  match ess !! Z.to_nat i with Some es => (0 <=? KEYCMP (hi es) s) && (KEYCMP (lo es) e <=? 0) | None => false end.

Lemma overlap_above s e i : key_wf e → (i < length ess)%nat → 0 < rside ess e i → ∀ j, (i <= j)%nat → overlap s e (Z.of_nat j) = false.
Proof.
  intros He Hi Hs j Hij. unfold overlap. rewrite Nat2Z.id. destruct (ess !! j) as [es|] eqn:Hj; [|done]. pose proof (lookup_lt_Some _ _ _ Hj).
  assert (Hsj : 0 < rside ess e j) by (destruct (decide (j = i)) as [->|]; [done|apply (rside_mono e i j He); lia]). unfold rside in Hsj. rewrite Hj in Hsj.
  destruct (Z.ltb_spec (KEYCMP (hi es) e) 0); [lia|]. destruct (Z.ltb_spec 0 (KEYCMP (lo es) e)); [|lia]. by rewrite (proj2 (Z.leb_gt _ 0)), andb_false_r by lia.
Qed.

Lemma overlap_below s e i : (i < length ess)%nat → rside ess s i < 0 → overlap s e (Z.of_nat i) = false.
Proof.
  intros Hi Hs. unfold overlap. rewrite Nat2Z.id. unfold rside in Hs. destruct (ess !! i) as [es|]; [|done].
  destruct (Z.ltb_spec (KEYCMP (hi es) s) 0); [by rewrite (proj2 (Z.leb_gt 0 _)) by lia|]. destruct (0 <? KEYCMP (lo es) s); lia.
Qed.

Lemma seqZ_filter_none (P : Z → bool) (a n : Z) : (∀ j : Z, a <= j < a + n → P j = false) → base.filter P (seqZ a n) = [].
Proof.
  intros H. destruct (base.filter P (seqZ a n)) as [|x l] eqn:E; [done|]. assert (Hx : x ∈ base.filter P (seqZ a n)) by (rewrite E; left).
  apply list_elem_of_filter in Hx as [Hp Hx%elem_of_seqZ]. by rewrite H in Hp.
Qed.

Lemma range_loop_Ok s e fuel : ∀ i : nat, key_wf s → key_wf e → (i <= length ess)%nat → (length ess - i < fuel)%nat →
  range_find_loop fuel (arrs lev) (n_num lev) (Z.of_nat i) s e = Ok (base.filter (overlap s e) (seqZ (Z.of_nat i) (Z.of_nat (length ess) - Z.of_nat i))).
Proof.
  induction fuel as [|fuel IH]; intros i Hs He Hi Hf; [lia|]. cbn [range_find_loop]. rewrite (rn_num _ _ Hruns).
  destruct (Z.ltb_spec (Z.of_nat i) (Z.of_nat (length ess))) as [Hlt|Hge].
  - destruct (run_get i ltac:(lia)) as (r & es & Hes & -> & Hr). rbind. rewrite (ra_lo _ _ Hr), (ra_hi _ _ Hr).
    rewrite (seqZ_cons (Z.of_nat i)) by lia. rewrite filter_cons.
    assert (Eo : negb ((KEYCMP (hi es) s <? 0) || (KEYCMP (lo es) e >? 0)) = overlap s e (Z.of_nat i)).
    { unfold overlap. rewrite Nat2Z.id, Hes, Z.gtb_ltb, negb_orb, <-!Z.leb_antisym. done. }
    rewrite Eo. specialize (IH (S i) Hs He ltac:(lia) ltac:(lia)). rewrite (rn_num _ _ Hruns) in IH.
    replace (Z.of_nat i + 1) with (Z.of_nat (S i)) by lia. replace (Z.pred (Z.of_nat (length ess) - Z.of_nat i)) with (Z.of_nat (length ess) - Z.of_nat (S i)) by lia.
    replace (Z.succ (Z.of_nat i)) with (Z.of_nat (S i)) by lia.
    destruct (overlap s e (Z.of_nat i)) eqn:Eov; [rewrite decide_True by done|rewrite decide_False by (by intros [])].
    + rewrite IH. rbind. done.
    + destruct (page_wf i es Hes) as (_ & _ & _ & Hwl & _). rewrite (cmp_antisym (cmp:=KEYCMP) (lo es) e) by done.
      destruct (Z.ltb_spec (- KEYCMP (lo es) e) 0) as [Hab|_]; [|done]. f_equal. symmetry. apply seqZ_filter_none. intros j Hj.
      replace j with (Z.of_nat (Z.to_nat j)) by lia. apply (overlap_above s e i He); [lia| |lia]. unfold rside. rewrite Hes.
      destruct (page_wf i es Hes) as (_ & _ & _ & _ & Hwh & Hle). pose proof (cmp_le_lt (lo es) (hi es) e Hwl Hwh He Hle).
      rewrite (proj2 (Z.ltb_ge _ _)), (proj2 (Z.ltb_lt _ _)) by lia. lia.
  - rewrite seqZ_nil by lia. done.
Qed.

(** The runs of a range, for any range. *)
Lemma range_find_Ok s e : key_wf s → key_wf e → array_range_find lev s e = Ok (base.filter (overlap s e) (seqZ 0 (n_num lev))).
Proof.
  intros Hs He. unfold array_range_find. destruct (binary_search_Ok s Hs) as (t & -> & Ht). rbind.
  assert (Hi : ∃ i : nat, (if t =? -1 then 0 else t) = Z.of_nat i ∧ (i <= length ess)%nat ∧ ∀ j, (j < i)%nat → rside ess s j < 0).
  { destruct Ht as [[-> _]|(i & -> & Hi & H0)]; [exists 0%nat; cbn; split; [done|split; [lia|intros; lia]]|].
    exists i. rewrite (proj2 (Z.eqb_neq _ _)) by lia. split; [done|]. split; [lia|]. intros j Hj. apply (rside_mono s j i Hs); lia. }
  destruct Hi as (i & -> & Hi & Hbelow). rewrite (rn_num _ _ Hruns). pose proof (range_loop_Ok s e (S (Z.to_nat (Z.of_nat (length ess)))) i Hs He Hi ltac:(lia)) as E.
  rewrite (rn_num _ _ Hruns) in E. rewrite E. f_equal.
  replace (seqZ 0 (Z.of_nat (length ess))) with (seqZ 0 (Z.of_nat i) ++ seqZ (Z.of_nat i) (Z.of_nat (length ess) - Z.of_nat i)).
  2: { rewrite <-(Z.add_0_l (Z.of_nat i)) at 2. rewrite <-seqZ_app by lia. f_equal. lia. }
  rewrite filter_app, (seqZ_filter_none (overlap s e) 0 (Z.of_nat i)); [done|]. intros j Hj. replace j with (Z.of_nat (Z.to_nat j)) by lia.
  apply overlap_below; [lia|]. apply Hbelow. lia.
Qed.

(** All runs, for a compaction: every page ends above the smallest key. *)
Lemma all_runs : array_range_find_compaction lev key_min key_max = Ok (seqZ 0 (n_num lev)).
Proof.
  unfold array_range_find_compaction. destruct (bound_search_Ok key_min key_wf_min) as (t & -> & Ht). rbind.
  assert (Habove : ∀ i, (i < length ess)%nat → 0 <= rside ess key_min i).
  { intros i Hi. destruct (lookup_lt_is_Some_2 ess i Hi) as [es Hes]. destruct (page_wf i es Hes) as (_ & _ & Hne & _ & Hwh & _). unfold rside. rewrite Hes.
    destruct (hi_elem es Hne) as [p Hh]. pose proof (rn_proper _ _ Hruns) as Hp. rewrite Forall_forall in Hp.
    destruct (Hp (hi es, p) ltac:(apply elem_concat; by exists i, es)) as (_ & Hmin & _). cbn [fst] in Hmin. rewrite (cmp_antisym (cmp:=KEYCMP) key_min (hi es)) by (done || apply key_wf_min).
    rewrite (proj2 (Z.ltb_ge _ _)) by lia. case_match; lia. }
  assert (Et : (if t =? -1 then 0 else t) = 0).
  { destruct Ht as [[-> _]|[Ht Hb]]; [done|]. rewrite (proj2 (Z.eqb_neq _ _)) by lia. destruct (decide (t = 0)) as [->|]; [done|].
    pose proof (proj1 (Hb 0%nat ltac:(lia)) ltac:(lia)). pose proof (Habove 0%nat ltac:(lia)). lia. }
  rewrite Et. do 2 f_equal. lia.
Qed.

(** The order that [array_check_order] checks. *)
Lemma check_order_loop_Ok fuel : ∀ i es r, (i < length ess)%nat → ess !! i = Some es → r_end r = hi es → (length ess - i <= fuel)%nat →
  check_order_loop fuel lev r (Z.of_nat (S i)) = Ok tt.
Proof.
  induction fuel as [|fuel IH]; intros i es r Hi Hes Hr Hf; [lia|]. cbn [check_order_loop]. rewrite (rn_num _ _ Hruns).
  destruct (Z.ltb_spec (Z.of_nat (S i)) (Z.of_nat (length ess))) as [Hlt|]; [|done]. unfold array_get_run_idx.
  destruct (run_get (S i) ltac:(lia)) as (r' & es' & Hes' & -> & Hr'). rbind. rewrite Hr, (ra_lo _ _ Hr').
  pose proof (hi_lt_lo i (S i) es es' ltac:(lia) Hes Hes'). rewrite (proj2 (Z.leb_gt 0 _)) by lia. cbn [abort_if].
  replace (Z.of_nat (S i) + 1) with (Z.of_nat (S (S i))) by lia. apply (IH (S i) es'); [lia|done|apply Hr'|lia].
Qed.

Lemma check_order_Ok LC : array_check_order LC lev = Ok tt.
Proof.
  unfold array_check_order. destruct (_ <? _); [done|]. cbn [orb]. rewrite (rn_num _ _ Hruns). destruct (Z.eqb_spec (Z.of_nat (length ess)) 0); [done|].
  unfold array_get_run_idx. destruct (run_get 0 ltac:(lia)) as (r & es & Hes & E & Hr). change (Z.of_nat 0) with 0 in E. rewrite E. rbind.
  apply (check_order_loop_Ok _ 0 es r); [lia|done|apply Hr|lia].
Qed.

End search.

(** ** Changing a level *)

Lemma init_runs size idx tier f : 0 <= size < 2 ^ 31 → runs (array_init size idx tier f) [].
Proof. intros Hs. constructor; cbn [array_init n_num m_num arrs ca_new ca_len length concat]; [done|lia|by intros i es ?|intros i _; by rewrite ca_at_new|constructor|constructor|done]. Qed.

Lemma lo_app es es' : lo (es ++ es') = match es with [] => lo es' | _ => lo es end.
Proof. by destruct es. Qed.
Lemma hi_app es es' : es' ≠ [] → hi (es ++ es') = hi es'.
Proof. intros Hne. unfold hi. rewrite last_app. by destruct (last es') eqn:E; [|apply last_None in E]. Qed.

(** The range of the level after both updates of an insertion. *)
Lemma range_update_Ok lev es es' : sorted (es ++ es') → Forall proper (es ++ es') → es' ≠ [] → l_start lev = lo es → l_end lev = hi es →
  let lev' := array_range_update (array_range_update lev (lo es')) (hi es') in l_start lev' = lo (es ++ es') ∧ l_end lev' = hi (es ++ es').
Proof.
  intros Hs Hp Hne Es Ee. rewrite hi_app by done. pose proof (proper_ok _ Hp) as Hok. apply Forall_app in Hok as [Hok Hok']. apply entries_app_sorted in Hs as (Hse & Hse' & Hlt).
  destruct (lo_elem es' Hne) as [p Hl], (hi_elem es' Hne) as [p' Hh]. pose proof (lo_le _ _ Hse' Hok' Hh) as Hle. cbn in Hle.
  assert (Hwl : key_wf (lo es')) by (rewrite Forall_forall in Hok'; apply (Hok' _ Hl)). assert (Hwh : key_wf (hi es')) by (rewrite Forall_forall in Hok'; apply (Hok' _ Hh)).
  rewrite Forall_forall in Hp. destruct (Hp (lo es', p) ltac:(apply elem_of_app; by right)) as (_ & Hmin & Hmax). cbn [fst] in Hmin, Hmax.
  assert (Hend : l_end (array_range_update lev (lo es')) = lo es').
  { unfold array_range_update. cbn [l_end]. rewrite Ee. assert (KEYCMP (hi es) (lo es') < 0); [|by rewrite (proj2 (Z.ltb_lt _ _)) by lia].
    destruct es as [|e es]; [done|]. destruct (hi_elem (e :: es)) as [q Hq]; [done|]. exact (Hlt _ _ Hq Hl). }
  assert (Hst : l_start (array_range_update lev (lo es')) = lo (es ++ es')).
  { unfold array_range_update. cbn [l_start]. rewrite Es, lo_app, Z.gtb_ltb. destruct es as [|e es].
    - rewrite (cmp_antisym (cmp:=KEYCMP) (lo es') (lo [])) by (done || apply key_wf_max). change (lo []) with key_max. by rewrite (proj2 (Z.ltb_lt _ _)) by lia.
    - destruct (lo_elem (e :: es)) as [q Hq]; [done|]. specialize (Hlt _ _ Hq Hl). unfold key_lt in Hlt. cbn in Hlt |- *. by rewrite (proj2 (Z.ltb_ge _ _)) by lia. }
  cbn zeta. remember (array_range_update lev (lo es')) as lev1. unfold array_range_update. cbn [l_start l_end]. rewrite Hst, Hend. split.
  - rewrite Z.gtb_ltb, lo_app. rewrite (proj2 (Z.ltb_ge _ _)); [done|]. destruct es as [|e es]; [done|].
    destruct (lo_elem (e :: es)) as [q Hq]; [done|]. exact (Z.lt_le_incl _ _ (Hlt _ _ Hq Hh)).
  - destruct (Z.ltb_spec (KEYCMP (lo es') (hi es')) 0); [done|]. apply (cmp_eq (cmp:=KEYCMP)); [done|done|lia].
Qed.

Lemma run_cpy_to_Ok r old es : level_caching_data old = None → run_at r es → run_at (array_run_cpy_to r old).2 es.
Proof. intros Hold [(data & Hd & Ht) Hne El Eh]. constructor; try done. exists data. split; [by apply table_of_cpy|done]. Qed.

(** Inserting a run above all others. *)
Lemma level_insert_Ok lev ess r es : runs lev ess → n_num lev < m_num lev → run_at r es → sorted (concat ess ++ es) → Forall proper (concat ess ++ es) →
  ∃ lev', array_insert lev r = Ok lev' ∧ runs lev' (ess ++ [es]) ∧ l_filter lev' = l_filter lev ∧ m_num lev' = m_num lev ∧ l_idx lev' = l_idx lev ∧
    istier lev' = istier lev.
Proof.
  intros [Hn (Hc & Hl & Hm) Hrun Hnew Hs Hp [Es Ee]] Hlt Hr Hs' Hp'. unfold array_insert. rewrite (proj2 (Z.leb_gt _ _)) by lia. rewrite ca_get_in by lia. rbind.
  unfold set_run. rewrite ca_set_in by lia. rbind. eexists. split; [done|]. pose proof Hr as [_ Hne Elo Ehi].
  pose proof (run_cpy_to_Ok r (ca_at (arrs lev) (n_num lev)) es (Hnew (n_num lev) ltac:(lia)) Hr) as Hcpy. rewrite (ra_lo _ _ Hcpy), (ra_hi _ _ Hcpy). set (lev1 := Level (l_idx lev) (m_num lev) (n_num lev) (l_start lev) (l_end lev) (istier lev) (l_filter lev) (ca_upd _ _ _)). destruct (range_update_Ok lev1 (concat ess) es Hs' Hp' Hne Es Ee) as [Es' Ee'].
  split; [|done]. constructor; cbn [n_num m_num arrs l_start l_end array_range_update lev1].
  - rewrite length_app. simpl. lia.
  - split; [lia|]. split; [by rewrite ca_len_upd|done].
  - intros i es' [Hi|[Hge Hi]]%lookup_app_Some.
    + pose proof (lookup_lt_Some _ _ _ Hi). rewrite ca_at_upd, decide_False by lia. by apply Hrun.
    + destruct (i - length ess)%nat as [|n] eqn:E; [|done]. injection Hi as <-. rewrite ca_at_upd, decide_True by lia. done.
  - intros i. rewrite length_app. simpl. intros Hi. rewrite ca_at_upd, decide_False by lia. apply Hnew. lia.
  - by rewrite concat_app; cbn; rewrite app_nil_r.
  - by rewrite concat_app; cbn; rewrite app_nil_r.
  - rewrite concat_app. cbn [concat]. rewrite app_nil_r. exact (conj Es' Ee').
Qed.

Lemma lev_copy_loop_Ok ess n : ∀ (i : nat) db sb, (i + n <= length ess)%nat → Z.of_nat (length ess) <= ca_len db → Z.of_nat (length ess) <= ca_len sb →
  (∀ j es, (i <= j)%nat → ess !! j = Some es → run_at (ca_at sb (Z.of_nat j)) es) → (∀ j, Z.of_nat i <= j → level_caching_data (ca_at db j) = None) →
  ∃ db' sb', lev_copy_loop n (Z.of_nat i) db sb = Ok (db', sb') ∧ ca_len db' = ca_len db ∧ (∀ j : Z, j < Z.of_nat i ∨ Z.of_nat (i + n) <= j → ca_at db' j = ca_at db j) ∧
    ∀ j es, (i <= j < i + n)%nat → ess !! j = Some es → run_at (ca_at db' (Z.of_nat j)) es.
Proof.
  induction n as [|n IH]; intros i db sb Hi Hdb Hsb Hrun Hold; cbn [lev_copy_loop]; [exists db, sb; do 3 (split; [done|]); intros; lia|].
  rewrite !ca_get_in by lia. rbind. pose proof (surjective_pairing (array_run_cpy_to (ca_at sb (Z.of_nat i)) (ca_at db (Z.of_nat i)))) as E.
  set (new := (array_run_cpy_to (ca_at sb (Z.of_nat i)) (ca_at db (Z.of_nat i))).2) in E. rewrite E. rewrite !ca_set_in by lia. rbind.
  replace (Z.of_nat i + 1) with (Z.of_nat (S i)) by lia. destruct (lookup_lt_is_Some_2 ess i ltac:(lia)) as [es Hes].
  destruct (IH (S i) (ca_upd db (Z.of_nat i) new) (ca_upd sb (Z.of_nat i) (array_run_cpy_to (ca_at sb (Z.of_nat i)) (ca_at db (Z.of_nat i))).1)) as (db' & sb' & -> & El & Hlow & Hnew).
  - lia.
  - by rewrite ca_len_upd.
  - by rewrite ca_len_upd.
  - intros j es' Hj Hes'. rewrite ca_at_upd, decide_False by lia. apply Hrun; [lia|done].
  - intros j Hj. rewrite ca_at_upd, decide_False by lia. apply Hold. lia.
  - exists db', sb'. split; [done|]. rewrite ca_len_upd in El. split; [done|]. split; [intros j Hj; rewrite Hlow, ca_at_upd, decide_False by lia; done|].
    intros j es' Hj Hes'. destruct (decide (j = i)) as [->|]; [|apply Hnew; [lia|done]]. rewrite Hlow, ca_at_upd, decide_True by lia. assert (es' = es) as -> by congruence.
    apply run_cpy_to_Ok; [apply Hold; lia|apply Hrun; [lia|done]].
Qed.

(** A copy of a level has its runs, its range and its filter. *)
Lemma lev_copy_Ok des src ess : runs src ess → n_num src <= m_num des → ca_len (arrs des) = m_num des → m_num des < 2 ^ 31 →
  (∀ j, 0 <= j → level_caching_data (ca_at (arrs des) j) = None) →
  ∃ des' src', array_lev_copy des src = Ok (des', src') ∧ runs des' ess ∧ l_filter des' = l_filter src ∧ m_num des' = m_num des ∧ l_idx des' = l_idx des ∧
    istier des' = istier des.
Proof.
  intros [Hn (Hc & Hl & Hm) Hrun _ Hs Hp Hr] Hroom Hld Hmd Hfresh. unfold array_lev_copy.
  destruct (lev_copy_loop_Ok ess (Z.to_nat (n_num src)) 0 (arrs des) (arrs src)) as (db & sb & E & El & Hkeep & Hnew); [lia|lia|lia|intros j es _ Hj; by apply Hrun|auto|].
  change (Z.of_nat 0) with 0 in E. rewrite E. rbind.
  eexists _, _. split; [done|]. cbn [l_filter m_num l_idx istier]. split; [|done]. constructor; cbn [n_num m_num arrs l_start l_end]; try done; [lia|..].
  - intros i es Hi. apply Hnew; [pose proof (lookup_lt_Some _ _ _ Hi); lia|done].
  - intros i Hi. rewrite Hkeep by lia. apply Hfresh. lia.
Qed.

End levels.

(** The runs of a level in memory, for the merger. *)
Lemma comp_formatting_Ok (des_cache : bool) lev ess : runs (St:=cached_store) lev ess → ∀ n i, (i + n <= length ess)%nat →
  ∃ rs, comp_formatting_loop n (Z.of_nat i) (arrs lev) des_cache = Ok rs ∧
    Forall2 (λ r es, ∃ data, data_from_run r = Ok data ∧ table data es) rs (take n (drop i ess)).
Proof.
  intros Hruns n. induction n as [|n IH]; intros i Hi; cbn [comp_formatting_loop]; [by exists []|].
  destruct (run_get lev ess Hruns i ltac:(lia)) as (r & es & Hes & -> & [(data & Hd & Ht) _ _ _]). rbind. replace (Z.of_nat i + 1) with (Z.of_nat (S i)) by lia.
  destruct (IH (S i) ltac:(lia)) as (rs & -> & Hrs). rbind. eexists. split; [done|]. rewrite (drop_S _ _ _ Hes). cbn [take]. constructor; [|done].
  exists data. split; [|done]. cbn in Hd. unfold data_from_run. destruct des_cache; [by rewrite Hd|]. cbn. by rewrite Hd.
Qed.

(** ** The component *)

(** C9: the searches of a level are what they are for, for any key and any range, and
    end within as many steps as the level has runs. [array_find_run] returns a run,
    and the table of that run has the key exactly if the level has it, with the same
    address; [array_binary_search] returns the run whose range has the key, or -1 if
    there is none; [array_bound_search] the first run that does not end below the key;
    [array_range_find] the runs that overlap a range, in order; and a compaction
    takes all of them. *)
Theorem level_searches {St : Store} lev ess k s e : runs lev ess → ess ≠ [] → key_wf k → key_wf s → key_wf e →
  (∃ t r data, array_find_run lev k = Ok (Some t) ∧ ca_get (arrs lev) t = Ok r ∧ table_of r data ∧
    ∃ o, array_find_keyset data k = Ok o ∧
      match o with
      | Some off => ∃ p, (list_to_map (concat ess) : gmap str_key Z) !! k = Some p ∧ (l ← peek data off PPA_SIZE; le32_read l) = Ok p
      | None => (list_to_map (concat ess) : gmap str_key Z) !! k = None
      end) ∧
  (∃ t, array_binary_search (arrs lev) (n_num lev) k = Ok t ∧
    (t = -1 ∧ (∀ i, (i < length ess)%nat → rside ess k i ≠ 0) ∨ ∃ i, t = Z.of_nat i ∧ (i < length ess)%nat ∧ rside ess k i = 0)) ∧
  (∃ t, array_bound_search (arrs lev) (n_num lev) k true = Ok t ∧ bound_at ess k t) ∧
  array_range_find lev s e = Ok (base.filter (overlap ess s e) (seqZ 0 (n_num lev))) ∧
  array_range_find_compaction lev key_min key_max = Ok (seqZ 0 (n_num lev)).
Proof.
  intros Hr Hne Hk Hs He. split; [|split; [by apply binary_search_Ok|split; [by apply bound_search_Ok|split; [by apply range_find_Ok|by eapply all_runs]]]].
  destruct (level_lookup lev ess Hr k Hk Hne) as (t & r & data & es & Et & Er & Hd & Ht & Hse & Hmap). exists t, r, data. do 3 (split; [done|]).
  destruct (find_keyset_Ok data es k Ht Hse Hk) as (o & Eo & Ho). exists o. split; [done|]. rewrite <-Hmap. done.
Qed.

(** A level with one run. *)
Definition sample_table : option (list Z) := match array_skip_cvt2_data sample_page sample_mem with Ok d => Some d | Err _ => None end.
Definition sample_first : run_t := Run (sample_key 1) (sample_key 2) 0 sample_table None.

Lemma sample_proper : Forall proper sample_mem.
Proof.
  destruct (sample_wf sample_mem ltac:(by left)) as (Hm%good_ok & _). apply Forall_forall. intros e He. rewrite Forall_forall in Hm. split; [by apply Hm|].
  apply elem_of_cons in He as [->|[->|He%elem_of_nil]%elem_of_cons]; [vm_compute; done..|done].
Qed.

Lemma sample_level : ∃ lev, array_insert (array_init 4 0 false None) sample_first = Ok lev ∧ runs (St:=cached_store) lev [sample_mem].
Proof.
  destruct (sample_wf sample_mem ltac:(by left)) as (_ & Hf & Hs). destruct (skip_cvt2_Ok sample_page sample_mem eq_refl Hf) as (d & E & Ht).
  destruct (level_insert_Ok (St:=cached_store) (array_init 4 0 false None) [] sample_first sample_mem) as (lev & El & Hr & _); [apply init_runs; lia|reflexivity| |exact Hs|exact sample_proper|exists lev; split; [exact El|exact Hr]].
  constructor; [|discriminate|reflexivity|reflexivity]. exists d. split; [|exact Ht]. unfold sample_first, sample_table. cbn [level_caching_data]. rewrite E. reflexivity.
Qed.

Lemma level_searches_witness : ∃ lev, array_insert (array_init 4 0 false None) sample_first = Ok lev ∧
  (∃ t r data, array_find_run lev (sample_key 2) = Ok (Some t) ∧ ca_get (arrs lev) t = Ok r ∧ level_caching_data r = Some data ∧
    ∃ off, array_find_keyset data (sample_key 2) = Ok (Some off) ∧ (l ← peek data off PPA_SIZE; le32_read l) = Ok 20) ∧
  array_range_find_compaction lev key_min key_max = Ok (seqZ 0 (n_num lev)).
Proof.
  destruct sample_level as (lev & El & Hr). exists lev. split; [exact El|].
  destruct (level_searches (St:=cached_store) lev [sample_mem] (sample_key 2) (sample_key 1) (sample_key 2) Hr) as ((t & r & data & E1 & E2 & E3 & o & E4 & Ho) & _ & _ & _ & Ha);
    [discriminate|apply (sample_good 2 0); lia|apply (sample_good 1 0); lia|apply (sample_good 2 0); lia|]. split; [|exact Ha].
  exists t, r, data. split; [exact E1|]. split; [exact E2|]. split; [exact E3|]. destruct o as [off|].
  - exists off. split; [exact E4|]. destruct Ho as (p & Hp & Hk). vm_compute in Hp. injection Hp as <-. exact Hk.
  - vm_compute in Ho. discriminate.
Defined.

End LsmLevel.
