(* ===== verification/LsmTree.v ===== *)
(** * The LSM-tree: compaction and lookup (compaction.c, compaction_assistant.c, lsmtree.c)

    The tree is an array of levels. The memtable is flushed into level 0, and a level
    that is full is compacted into the next one: the runs of both are merged into a
    new level, which takes the place of the lower one, and the upper one becomes empty.
    The tables of the first [LEVELCACHING] levels are in memory, the ones of the other
    levels in pages of the device ([HEADER] pages). A lookup goes through the levels
    from the newest to the oldest one.

    The model is the one of [comp_opt] NON, [nocpy] off, without reads in hardware, and
    with a run cache that takes no runs ([cache_insertable] is false). [malloc] returns
    the pages [junk], [bf_init] the filters [new_filter], [getPPA] for HEADER pages the
    addresses [ppas]. The settings of the sizes stay as they were made: the size factor
    is a whole number, the same one for the last level, and was not changed since, so
    that [size_factor_change] and [added_header] are unset. The floating-point formulas
    of the sizes are then sums and products of whole numbers, and exact up to 2^24; the
    95 percent of [def_fchk] are taken without rounding. *)
From Stdlib Require Import Sorting.Sorted.
From S2P Require Export Prelude Settings Bloom LsmTable LsmPipe LsmLevel.
Import Bloom LsmTable LsmPipe LsmLevel.

Local Open Scope Z_scope.

Module LsmTree.

Fixpoint mapR {A B} (f : A → res B) (l : list A) : res (list B) :=
  match l with [] => Ok [] | x :: l => y ← f x; ys ← mapR f l; Ok (y :: ys) end.

(** ** State *)

(** The levels, the header pages, how many of them were allocated, and the addresses
    that were invalidated, of data and of headers. *)
Record tree := Tree { disk : list level; dev : gmap Z (list Z); next : nat; stale : list Z; stale_header : list Z }.
Implicit Types (t : tree) (lev des : level) (r : run_t) (rs : list run_t) (mem : list (str_key * Z)) (i : nat).

Definition set_disk t d : tree := Tree d (dev t) (next t) (stale t) (stale_header t).
Definition invalidate_data t l : tree := Tree (disk t) (dev t) (next t) (stale t ++ l) (stale_header t).
Definition invalidate_header t l : tree := Tree (disk t) (dev t) (next t) (stale t) (stale_header t ++ l).

Definition set_filter lev (f : option BF) : level :=
  Level (l_idx lev) (m_num lev) (n_num lev) (l_start lev) (l_end lev) (istier lev) f (arrs lev).

Definition LEVELN t : Z := Z.of_nat (length (disk t)).
Definition get_level t (j : Z) : res level := if j <? 0 then Err Undefined else deref (disk t !! Z.to_nat j).
Definition set_level t (j : Z) lev : tree := set_disk t (<[Z.to_nat j:=lev]> (disk t)).

Section ops.
Context (LEVELCACHING : Z) (junk : Z → list Z) (jmem : list Z) (new_filter : Z → Z → option BF) (ppas : nat → Z) (size_factor : Z).

(** ** Levels and their sizes *)

(** A level [idx] of [size] runs with its filter. *)
Definition new_level (size idx : Z) (tier : bool) : level := array_init size idx tier (new_filter size idx).

(** [__lsm_create_normal]: the sizes of the levels grow by the size factor. *)
Fixpoint new_levels (n : nat) (i sol : Z) : list level :=
  match n with
  | O => []
  | S O => [new_level (sol / size_factor * size_factor) i false]
  | S n => new_level sol i false :: new_levels n (i + 1) (sol * size_factor)
  end.
Definition new_tree (LEVELN : nat) : tree := Tree (new_levels LEVELN 0 size_factor) ∅ 0 [] [].

(** [def_fchk]: is a level full? *)
Definition def_fchk lev : bool :=
  if l_idx lev <? LEVELCACHING then
    let b := if l_idx lev =? 0 then m_num lev - 2 else m_num lev * (size_factor - 1) / size_factor in
    b <=? array_get_numbers_run lev
  else if istier lev then false
  else (m_num lev * (size_factor - 1) <=? n_num lev * size_factor)
    || ((100 <=? m_num lev) && (m_num lev * (size_factor - 1) * 95 <=? n_num lev * size_factor * 100)).

(** [lsm_level_resizing]: the new level that replaces [target]. *)
Definition target_cnt t (target : level) : res Z :=
  if l_idx target =? LEVELN t - 1 then up ← get_level t (LEVELN t - 2); Ok (size_factor * m_num up + m_num up * 2)
  else Ok (m_num target).
Definition lsm_level_resizing t (target : level) : res level :=
  n ← target_cnt t target; Ok (new_level n (l_idx target) false).

(** ** Header pages *)

(** [compaction_htable_write], with the address of [getPPA] *)
Definition compaction_htable_write t (data : list Z) : tree * Z :=
  (Tree (disk t) (<[ppas (next t):=data]> (dev t)) (S (next t)) (stale t) (stale_header t), ppas (next t)).

Definition compaction_htable_write_insert t des r : res (tree * level) :=
  data ← deref (cpt_data r);
  let '(t', ppa) := compaction_htable_write t data in
  des ← array_insert des (Run (r_key r) (r_end r) ppa (level_caching_data r) (cpt_data r));
  Ok (t', des).

(** [htable_read_preproc] and [compaction_htable_read]: a run whose table is not in
    memory is read. *)
Definition load_run t r : res run_t :=
  match level_caching_data r with
  | Some _ => Ok r
  | None => data ← deref (dev t !! pbn r); Ok (Run (r_key r) (r_end r) (pbn r) None (Some data))
  end.

(** [htable_read_postproc]: the header page of a run that was merged is invalid. *)
Definition htable_read_postproc t r : tree := if pbn r =? UINT32_MAX then t else invalidate_header t [pbn r].

(** ** Merging *)

(** A table has at most 510 entries: as many steps of the merge for each page. *)
Definition merge_fuel (top : option (list (str_key * Z))) (src org : list (list Z)) : nat :=
  S (length (default [] top) + 510 * (length src + length org)).

Fixpoint cut_insert (fuel : nat) (start : bool) t (rp : p_body) des : res (tree * level) :=
  match fuel with
  | O => Err OutOfFuel
  | S fuel =>
    '(o, rp) ← array_pipe_cutter LEVELCACHING start rp (l_idx des);
    match o with
    | None => Ok (t, des)
    | Some r =>
      '(t, des) ← (if l_idx des <? LEVELCACHING then des ← array_insert des r; Ok (t, des) else compaction_htable_write_insert t des r);
      cut_insert fuel false t rp des
    end
  end.

(** The memtable [top], or the runs [src]; the filter of the level is the one that the
    merger fills. *)
Definition compaction_subprocessing t (top : option (list (str_key * Z))) (src org : list run_t) des : res (tree * level) :=
  src ← mapR data_from_run src;
  org ← mapR data_from_run org;
  let u := match top with Some mem => FromMem mem | None => FromRuns src end in
  '(rp, inv) ← array_pipe_merger junk (merge_fuel top src org) jmem u org (l_filter des);
  cut_insert (S (Z.to_nat (pidx rp))) true (invalidate_data t inv) rp (set_filter des (filter rp)).

Definition runs_at lev (l : list Z) : res (list run_t) := mapR (ca_get (arrs lev)) l.

(** [partial_leveling]: [upper] is the level above, or [None] for the memtable [mem]. *)
Definition partial_leveling t des origin mem (upper : option level) : res (tree * level) :=
  l ← array_range_find_compaction origin key_min key_max;
  target_s ← runs_at origin l;
  match upper with
  | None =>
    target_s ← mapR (load_run t) target_s;
    '(t, des) ← compaction_subprocessing t (Some mem) [] target_s des;
    Ok (foldl htable_read_postproc t target_s, des)
  | Some up =>
    data ← (if l_idx up <? LEVELCACHING then array_cache_comp_formatting up true
            else l ← array_range_find_compaction up key_min key_max; runs_at up l);
    abort_if (negb (match data with [] => true | _ => false end) && (match target_s with [] => true | _ => false end)) (
    target_s ← mapR (load_run t) target_s;
    data ← (if l_idx up <? LEVELCACHING then Ok data else mapR (load_run t) data);
    '(t, des) ← compaction_subprocessing t None data target_s des;
    Ok (foldl htable_read_postproc (foldl htable_read_postproc t data) target_s, des))
  end.

(** ** Merging in a pipeline *)

(** [make_pl_run_array]: all that the iterator returns. *)
Fixpoint iter_all (fuel : nat) (it : a_iter) : res (list Z) :=
  match fuel with
  | O => Err OutOfFuel
  | S fuel => match array_iter_nxt it with None => Ok [] | Some (j, it) => l ← iter_all fuel it; Ok (j :: l) end
  end.
Definition make_pl_run_array lev : res (list run_t) :=
  it ← array_get_iter lev (l_start lev) (l_end lev);
  l ← iter_all (S (Z.to_nat (n_num lev))) it; runs_at lev l.

(** [level_insert_write] for each run *)
Fixpoint write_insert_runs t des rs : res (tree * level) :=
  match rs with [] => Ok (t, des) | r :: rs => '(t, des) ← compaction_htable_write_insert t des r; write_insert_runs t des rs end.

(** [pipe_partial_leveling], for [comp_opt] PIPE and a level on the device: the tables
    are read in the background, and the merger waits for each of them. *)
Definition pipe_partial_leveling t des origin mem (upper : option level) : res (tree * level) :=
  u_data ← match upper with
    | Some up => u ← make_pl_run_array up; if l_idx up <? LEVELCACHING then Ok u else mapR (load_run t) u
    | None => Ok []
    end;
  l_data ← make_pl_run_array origin;
  l_data ← mapR (load_run t) l_data;
  src ← mapR data_from_run u_data;
  org ← mapR data_from_run l_data;
  let top := match upper with Some _ => None | None => Some mem end in
  let u := match upper with Some _ => FromRuns src | None => FromMem mem end in
  '(rs, inv) ← array_pipe_p_merger_cutter junk (merge_fuel top src org) jmem u org LEVELCACHING (l_idx des);
  '(t, des) ← write_insert_runs (invalidate_data t inv) des rs;
  Ok (foldl htable_read_postproc (foldl htable_read_postproc t u_data) l_data, des).

(** ** Into an empty level *)

(** The tables of a level in memory are written before they go to a level on the device. *)
Fixpoint write_level (n : nat) (j : Z) t (a : carray run_t) : res (tree * carray run_t) :=
  match n with
  | O => Ok (t, a)
  | S n =>
    r ← ca_get a j;
    data ← deref (level_caching_data r);
    let '(t, ppa) := compaction_htable_write t data in
    a ← ca_set a j (Run (r_key r) (r_end r) ppa (level_caching_data r) (Some data));
    write_level n (j + 1) t a
  end.

(** Keys of a run that [array_mem_cvt2table] did not set point to freed memory. *)
Definition compaction_empty_level t (from : option level) mem des : res (tree * level) :=
  match from with
  | None =>
    '(data, s, e, f) ← array_mem_cvt2table jmem mem (l_filter des);
    s ← deref s; e ← deref e;
    let des := set_filter des f in
    if l_idx des <? LEVELCACHING then des ← array_insert des (Run s e UINT32_MAX (Some data) None); Ok (t, des)
    else compaction_htable_write_insert t des (Run s e UINT32_MAX None (Some data))
  | Some up =>
    '(t, a) ← (if (LEVELCACHING <=? l_idx des) && (l_idx up <? LEVELCACHING)
               then write_level (Z.to_nat (n_num up)) 0 t (arrs up) else Ok (t, arrs up));
    '(des, _) ← array_lev_copy des (Level (l_idx up) (m_num up) (n_num up) (l_start up) (l_end up) (istier up) (l_filter up) a);
    Ok (t, des)
  end.

(** ** Compactions *)

(** [level_change]: the upper level is made anew, the new level takes the place of the
    lower one. *)
Definition level_change t (from : option level) (to target : level) : tree :=
  let t := match from with
           | Some up => set_level t (l_idx up) (new_level (m_num up) (l_idx up) (istier up))
           | None => t
           end in
  set_level t (l_idx to) target.

Definition leveling t (from : option level) (to : level) mem : res tree :=
  target ← lsm_level_resizing t to;
  '(t, target) ← (if n_num to =? 0 then compaction_empty_level t from mem target else partial_leveling t target to mem from);
  Ok (level_change t from to target).

Definition compaction_selector t (a : option level) (b : level) mem : res tree :=
  if istier b then Ok t else leveling t a b mem.

(** The lowest level above the last one that has runs goes to the last level. *)
Fixpoint force_loop (fuel : nat) t (j : Z) : res (bool * tree) :=
  match fuel with
  | O => Ok (false, t)
  | S fuel =>
    if 0 <=? j then
      a ← get_level t j;
      if negb (n_num a =? 0) then b ← get_level t (LEVELN t - 1); t ← compaction_selector t (Some a) b []; Ok (true, t)
      else force_loop fuel t (j - 1)
    else Ok (false, t)
  end.
Definition compaction_force t : res (bool * tree) := force_loop (length (disk t)) t (LEVELN t - 2).

Definition compaction_force_target t (from to : Z) : res (bool * tree) :=
  a ← get_level t from;
  if array_get_numbers_run a =? 0 then Ok (false, t)
  else b ← get_level t to; t ← compaction_selector t (Some a) b []; Ok (true, t).

(** The level with the most runs, the first one of them. *)
Fixpoint most_runs (ls : list level) (j mx target : Z) : Z * Z :=
  match ls with
  | [] => (mx, target)
  | lev :: ls =>
    let noe := array_get_numbers_run lev in
    if mx <? noe then most_runs ls (j + 1) noe j else most_runs ls (j + 1) mx target
  end.
Fixpoint compaction_force_levels (nol : nat) t : res (bool * tree) :=
  match nol with
  | O => Ok (true, t)
  | S nol =>
    let '(mx, target) := most_runs (take (length (disk t) - 1) (disk t)) 0 0 0 in
    if negb (mx =? 0) then
      a ← get_level t target; b ← get_level t (LEVELN t - 1);
      t ← compaction_selector t (Some a) b []; compaction_force_levels nol t
    else Ok (false, t)
  end.

(** [compaction_cascading], without [multi_level_comp]; [gc_check] is the answer of
    [gc_dynamic_checker], which is asked only with [gc_opt]. *)
Fixpoint cascading_loop (fuel : nat) t (start : Z) (gc_opt gc_check is_gc_needed : bool) : res (bool * tree) :=
  match fuel with
  | O => Err OutOfFuel
  | S fuel =>
    full ← (if is_gc_needed then Ok true else lev ← get_level t start; Ok (def_fchk lev));
    if full : bool then
      let des := if start =? LEVELN t then start else start + 1 in
      if des =? LEVELN t then Ok (is_gc_needed, t)
      else
        let gc := if (start =? LEVELN t - 2) && (gc_opt && negb is_gc_needed) then gc_check else is_gc_needed in
        a ← get_level t start; b ← get_level t des;
        t ← compaction_selector t (Some a) b [];
        cascading_loop fuel t (start + 1) gc_opt gc_check gc
    else Ok (is_gc_needed, t)
  end.
Definition compaction_cascading t (gc_opt gc_check is_gc_needed : bool) : res (bool * tree) :=
  cascading_loop (S (length (disk t))) t 0 gc_opt gc_check is_gc_needed.

(** A request of [compaction_main]: the memtable, whose values were written, goes to
    level 0, and the levels that are full to the next ones. *)
Definition compaction_request t mem (gc_opt gc_check : bool) : res (bool * tree) :=
  lev ← get_level t 0;
  t ← compaction_selector t None lev mem;
  if negb (LEVELN t =? 1) then compaction_cascading t gc_opt gc_check false else Ok (false, t).

(** ** Lookup *)

Inductive found := CACHING (data : list Z) (off : Z) (level : Z) | FOUND (entry : run_t) (level : Z) | NOTFOUND.

(** [lsm_find_run] from level [j] on; with [hw] the filters of the levels on the
    device are not asked. *)
Fixpoint find_run_from (hw : bool) (k : str_key) (ls : list level) (j : Z) : res found :=
  match ls with
  | [] => Ok NOTFOUND
  | lev :: ls =>
    pass ← (if (LEVELCACHING <=? j) && hw then Ok true else bf_check (l_filter lev) k);
    if negb pass then find_run_from hw k ls (j + 1)
    else
      e ← array_find_run lev k;
      match e with
      | None => find_run_from hw k ls (j + 1)
      | Some e =>
        r ← ca_get (arrs lev) e;
        if j <? LEVELCACHING then
          data ← deref (level_caching_data r);
          o ← array_find_keyset data k;
          match o with Some off => Ok (CACHING data off j) | None => find_run_from hw k ls (j + 1) end
        else Ok (FOUND r j)
      end
  end.
Definition lsm_find_run t (hw : bool) (k : str_key) (level run : Z) : res found :=
  let level := if run =? 0 then level else level + 1 in
  find_run_from hw k (drop (Z.to_nat level) (disk t)) level.

(** [__lsm_get] behind the memtables: the header page of the run that was found is read
    and searched, and the search goes on in the next level if the key is not there. *)
Fixpoint lsm_get_from (fuel : nat) t (k : str_key) (level run : Z) : res (option Z) :=
  match fuel with
  | O => Err OutOfFuel
  | S fuel =>
    f ← lsm_find_run t false k level run;
    match f with
    | NOTFOUND => Ok None
    | CACHING data off _ => l ← peek data off PPA_SIZE; p ← le32_read l; Ok (Some p)
    | FOUND r level =>
      data ← deref (dev t !! pbn r);
      o ← array_find_keyset data k;
      match o with
      | Some off => l ← peek data off PPA_SIZE; p ← le32_read l; Ok (Some p)
      | None => lsm_get_from fuel t k level 1
      end
    end
  end.
Definition __lsm_get t (k : str_key) : res (option Z) := lsm_get_from (S (length (disk t))) t k 0 0.

End ops.

(** ** Proofs *)

Implicit Types (es us ls : list (str_key * Z)) (ess : list (list (str_key * Z))) (k : str_key) (d : gmap Z (list Z)).

(** A family whose pages have at most as many bytes as a full one. *)
Class Tight (F : Family) : Prop := tight es : Forall fam es → bytes es <= 7168 → bytes es <= full_bytes.

#[export] Instance same_length_tight L HL : Tight (same_length L HL).
Proof.
  intros es Hes. cbn in *. rewrite (bytes_same L) by (apply (Forall_impl _ _ _ Hes); by intros e []). intros Hb.
  assert (Z.of_nat (length es) <= 7168 / (L + 4)) by (apply Z.div_le_lower_bound; lia). nia.
Qed.

Lemma mapR_Ok {A B} (f : A → res B) l l' : Forall2 (λ x y, f x = Ok y) l l' → mapR f l = Ok l'.
Proof. induction 1 as [|x y l l' Hx _ IH]; cbn [mapR]; [done|]. rewrite Hx. rbind. rewrite IH. done. Qed.

Lemma filter_has_covers f0 f es : from_option usable True f0 → Forall key_wf es.*1 → filtered f0 es.*1 f → filter_has f es.
Proof.
  destruct f0 as [b0|], f as [b|]; try done. intros Hwf Hks [_ E]. destruct (usable_sets _ _ Hwf Hks) as (b' & E' & Hwf' & Hc). rewrite E in E'. injection E' as <-. done.
Qed.

(** *** Where the tables are *)

Section proofs.
Context {F : Family} {HF : Tight F}.
Context (LEVELCACHING : Z) (junk : Z → list Z) (jmem : list Z) (new_filter : Z → Z → option BF) (ppas : nat → Z).
Hypothesis Hjunk : ∀ n, Z.of_nat (length (junk n)) = PAGESIZE.
Hypothesis Hjmem : Z.of_nat (length jmem) = PAGESIZE.
Hypothesis Hfilter : ∀ size idx, from_option usable True (new_filter size idx).
Hypothesis Hppas : Inj eq eq ppas.

Definition store_at d (idx : Z) : Store := if idx <? LEVELCACHING then cached_store else device_store d.

Definition level_ok d (idx : Z) lev ess : Prop :=
  runs (St:=store_at d idx) lev ess ∧ filter_has (l_filter lev) (concat ess) ∧ Forall fam (concat ess).

(** Header pages were allocated. *)
Definition dev_ok t : Prop := ∀ a x, dev t !! a = Some x → ∃ j, (j < next t)%nat ∧ a = ppas j.

(** Header pages and invalidated addresses are added. *)
Record extends t t' : Prop := Extends {
  ex_disk : disk t' = disk t; ex_dev : dev t ⊆ dev t'; ex_ok : dev_ok t'; }.

Lemma run_at_mono d d' idx r es : d ⊆ d' → run_at (St:=store_at d idx) r es → run_at (St:=store_at d' idx) r es.
Proof.
  unfold store_at. destruct (idx <? LEVELCACHING); [done|]. intros Hsub [(data & [Hd Hc] & Ht) Hne Hl Hh]. constructor; try done. exists data. split; [|done]. split; [|done].
  by eapply lookup_weaken.
Qed.

Lemma runs_mono d d' idx lev ess : d ⊆ d' → runs (St:=store_at d idx) lev ess → runs (St:=store_at d' idx) lev ess.
Proof. intros Hsub [Hn Hc Hr Hnew Hs Hp Hrg]. constructor; try done. intros i es Hi. eapply run_at_mono; [done|by apply Hr]. Qed.

Lemma extends_refl t : dev_ok t → extends t t.
Proof. by constructor. Qed.
Lemma extends_trans t1 t2 t3 : extends t1 t2 → extends t2 t3 → extends t1 t3.
Proof. intros [E1 H1 _] [E2 H2 H3]. constructor; [congruence|by etrans|done]. Qed.

Lemma dev_fresh t : dev_ok t → dev t !! ppas (next t) = None.
Proof. intros Hok. destruct (dev t !! ppas (next t)) as [x|] eqn:E; [|done]. destruct (Hok _ _ E) as (j & Hj & Ej). apply (inj ppas) in Ej. lia. Qed.

Lemma write_Ok t data t' ppa : dev_ok t → compaction_htable_write ppas t data = (t', ppa) → extends t t' ∧ dev t' !! ppa = Some data ∧ stale t' = stale t ∧ stale_header t' = stale_header t.
Proof.
  intros Hok [= <- <-]. split; [|split; [by cbn; rewrite lookup_insert_eq|done]]. constructor; cbn; [done|apply insert_subseteq, dev_fresh, Hok|].
  intros a x. cbn [dev next]. intros [[<- _]|[Hne Hx]]%lookup_insert_Some; [exists (next t); split; [lia|done]|]. destruct (Hok _ _ Hx) as (j & Hj & ->). exists j. split; [lia|done].
Qed.

(** *** Inserting the runs of a merge *)

(** A run that was made for a level: its table is in memory, with the address or without one. *)
Definition insert_run t des r : res (tree * level) :=
  if l_idx des <? LEVELCACHING then des ← array_insert des r; Ok (t, des) else compaction_htable_write_insert ppas t des r.
Fixpoint insert_runs t des rs : res (tree * level) :=
  match rs with [] => Ok (t, des) | r :: rs => '(t, des) ← insert_run t des r; insert_runs t des rs end.

Lemma array_insert_idx lev r lev' : array_insert lev r = Ok lev' → l_idx lev' = l_idx lev.
Proof.
  unfold array_insert, set_run. destruct (_ <=? _); [done|]. destruct (ca_get _ _); [|done]. rbind. destruct (ca_set _ _ _); [|done]. rbind. by intros [= <-].
Qed.

Lemma insert_run_idx t des r t' des' : insert_run t des r = Ok (t', des') → l_idx des' = l_idx des.
Proof.
  unfold insert_run, compaction_htable_write_insert, compaction_htable_write. destruct (_ <? _).
  - destruct (array_insert des r) as [lev|] eqn:E; [|done]. rbind. intros [= _ <-]. by eapply array_insert_idx.
  - destruct (cpt_data r); [|done]. cbn [deref]. rbind. destruct (array_insert des (Run _ _ _ _ _)) as [lev|] eqn:E; [|done]. rbind. intros [= _ <-]. by eapply array_insert_idx.
Qed.

Lemma cut_insert_Ok fuel : ∀ start t rp des rs, cut_runs fuel LEVELCACHING start rp (l_idx des) = Ok rs →
  cut_insert LEVELCACHING ppas fuel start t rp des = insert_runs t des rs.
Proof.
  induction fuel as [|fuel IH]; intros start t rp des rs; [done|]. cbn [cut_runs cut_insert].
  destruct (array_pipe_cutter LEVELCACHING start rp (l_idx des)) as [[[r|] rp']|]; [..|done]; rbind; [|by intros [= <-]].
  destruct (cut_runs fuel LEVELCACHING false rp' (l_idx des)) as [rs'|] eqn:E; [|done]. rbind. intros [= <-]. cbn [insert_runs].
  change (if l_idx des <? LEVELCACHING then _ else _) with (insert_run t des r). destruct (insert_run t des r) as [[t' des']|] eqn:E'; [|done]. rbind.
  apply IH. by rewrite (insert_run_idx _ _ _ _ _ E').
Qed.

(** The invalidated addresses and the other fields that an insertion leaves alone. *)
Definition same_stale t t' : Prop := stale t' = stale t ∧ stale_header t' = stale_header t.
Definition same_level lev lev' : Prop := l_filter lev' = l_filter lev ∧ m_num lev' = m_num lev ∧ l_idx lev' = l_idx lev ∧ istier lev' = istier lev.

Lemma run_for_keys idx r es : run_for LEVELCACHING idx r es → es ≠ [] ∧ r_key r = lo es ∧ r_end r = hi es.
Proof.
  intros (data & _ & Hl & Hh & _). unfold lo, hi. rewrite Hl, Hh. split; [|done]. by intros ->.
Qed.

Lemma insert_run_Ok t des ess r es : dev_ok t → runs (St:=store_at (dev t) (l_idx des)) des ess → n_num des < m_num des → run_for LEVELCACHING (l_idx des) r es →
  sorted (concat ess ++ es) → Forall proper (concat ess ++ es) →
  ∃ t' des', insert_run t des r = Ok (t', des') ∧ extends t t' ∧ same_stale t t' ∧ runs (St:=store_at (dev t') (l_idx des)) des' (ess ++ [es]) ∧ same_level des des'.
Proof.
  intros Hok Hruns Hroom Hr Hs Hp. destruct (run_for_keys _ _ _ Hr) as (Hne & Hlo & Hhi). unfold insert_run. destruct Hr as (data & Ht & _ & _ & _ & Hwhere).
  destruct (l_idx des <? LEVELCACHING) eqn:Hc.
  - destruct Hwhere as [Hd _]. assert (Hat : run_at (St:=store_at (dev t) (l_idx des)) r es).
    { unfold store_at. rewrite Hc. constructor; try done. by exists data. }
    destruct (level_insert_Ok (St:=store_at (dev t) (l_idx des)) des ess r es Hruns Hroom Hat Hs Hp) as (des' & -> & Hruns' & Hsame). rbind.
    exists t, des'. split; [done|]. split; [by apply extends_refl|]. done.
  - destruct Hwhere as [Hnone Hd]. unfold compaction_htable_write_insert. rewrite Hd. cbn [deref]. rbind.
    destruct (compaction_htable_write ppas t data) as [t' ppa] eqn:Ew. destruct (write_Ok t data t' ppa Hok Ew) as (Hext & Hdev & Hst).
    set (r' := Run _ _ _ _ _). assert (Hat : run_at (St:=store_at (dev t') (l_idx des)) r' es).
    { unfold store_at. rewrite Hc. constructor; try done. exists data. split; [|done]. split; [done|]. left. exact Hnone. }
    pose proof (runs_mono _ _ _ _ _ (ex_dev _ _ Hext) Hruns) as Hruns1.
    destruct (level_insert_Ok (St:=store_at (dev t') (l_idx des)) des ess r' es Hruns1 Hroom Hat Hs Hp) as (des' & -> & Hruns' & Hsame). rbind.
    by exists t', des'.
Qed.

Lemma insert_runs_Ok rs ess' : ∀ t des ess, dev_ok t → runs (St:=store_at (dev t) (l_idx des)) des ess → n_num des + Z.of_nat (length rs) <= m_num des →
  Forall2 (run_for LEVELCACHING (l_idx des)) rs ess' → sorted (concat (ess ++ ess')) → Forall proper (concat (ess ++ ess')) →
  ∃ t' des', insert_runs t des rs = Ok (t', des') ∧ extends t t' ∧ same_stale t t' ∧ runs (St:=store_at (dev t') (l_idx des)) des' (ess ++ ess') ∧ same_level des des'.
Proof.
  revert ess'. induction rs as [|r rs IH]; intros ess' t des ess Hok Hruns Hroom Hrs Hs Hp.
  - apply Forall2_nil_inv_l in Hrs as ->. rewrite app_nil_r. exists t, des. by split; [|split; [apply extends_refl|]].
  - apply Forall2_cons_inv_l in Hrs as (es & ess1 & Hr & Hrs & ->). simpl length in Hroom. rewrite concat_app in Hs, Hp. cbn [concat] in Hs, Hp. rewrite app_assoc in Hs, Hp.
    pose proof Hs as (Hs1 & _)%entries_app_sorted. pose proof Hp as [Hp1 _]%Forall_app.
    destruct (insert_run_Ok t des ess r es Hok Hruns ltac:(lia) Hr Hs1 Hp1) as (t1 & des1 & E1 & Hx1 & Hst1 & Hruns1 & (Ef & Em & Ei & Et)).
    cbn [insert_runs]. rewrite E1. rbind. rewrite <-Ei in Hrs, Hruns1.
    pose proof (rn_num (St:=store_at _ _) _ _ Hruns1) as Hn1. pose proof (rn_num (St:=store_at _ _) _ _ Hruns) as Hn. rewrite length_app in Hn1. simpl in Hn1.
    assert (Ecat : concat ((ess ++ [es]) ++ ess1) = (concat ess ++ es) ++ concat ess1) by (rewrite !concat_app; cbn; by rewrite app_nil_r).
    destruct (IH ess1 t1 des1 (ess ++ [es]) (ex_ok _ _ Hx1) Hruns1 ltac:(lia) Hrs) as (t2 & des2 & E2 & Hx2 & Hst2 & Hruns2 & (Ef2 & Em2 & Ei2 & Et2)); [by rewrite Ecat|by rewrite Ecat|].
    exists t2, des2. split; [done|]. split; [by eapply extends_trans|]. unfold same_stale, same_level in *. rewrite <-app_assoc in Hruns2. rewrite Ei in Hruns2.
    split; [destruct Hst1, Hst2; split; congruence|]. split; [done|]. repeat split; congruence.
Qed.

(** *** Merging *)

(** The runs have the entries [es] in their tables, which the merger can read. *)
Definition readable r es : Prop := ∃ data, data_from_run r = Ok data ∧ table data es.
Definition held rs es : Prop := ∃ ess, Forall2 readable rs ess ∧ Forall (λ es, es ≠ []) ess ∧ concat ess = es ∧ ess ≠ [].
Definition held_top (top : option (list (str_key * Z))) rs us : Prop :=
  match top with Some mem => mem = us ∧ us ≠ [] ∧ fits us ∧ rs = [] | None => held rs us end.
Definition top_pages (top : option (list (str_key * Z))) rs : Z := match top with Some _ => 1 | None => Z.of_nat (length rs) end.

Lemma page_bytes data es : table data es → Forall fam es → bytes es <= full_bytes ∧ (length es <= 510)%nat.
Proof.
  intros Ht Hf. destruct (tb_room _ _ Ht) as [Hn Ho]. rewrite offset_end in Ho. change PAGESIZE with 8192 in Ho. split; [|lia]. apply tight; [done|lia].
Qed.

Lemma pages_bytes pages ess : Forall2 table pages ess → Forall fam (concat ess) →
  bytes (concat ess) <= full_bytes * Z.of_nat (length pages) ∧ (length (concat ess) <= 510 * length pages)%nat.
Proof.
  induction 1 as [|data es pages ess Ht _ IH]; intros Hf; [cbn; lia|]. cbn [concat length] in *. apply Forall_app in Hf as [Hf1 Hf2].
  destruct (page_bytes data es Ht Hf1), (IH Hf2). rewrite bytes_app, length_app. lia.
Qed.

Lemma held_pages rs es : held rs es → Forall fam es → ∃ pages, mapR data_from_run rs = Ok pages ∧ pages_of pages es ∧ length pages = length rs ∧
  bytes es <= full_bytes * Z.of_nat (length rs) ∧ (length es <= 510 * length rs)%nat.
Proof.
  intros (ess & H2 & Hne & <- & Hne') Hf. assert (Hp : ∃ pages, Forall2 (λ r data, data_from_run r = Ok data) rs pages ∧ Forall2 table pages ess).
  { clear Hne Hne' Hf. induction H2 as [|r es rs ess (data & Hd & Ht) _ (pages & H1 & H2)]; [by exists []|]. exists (data :: pages). by split; constructor. }
  destruct Hp as (pages & H1 & Ht). exists pages. split; [by apply mapR_Ok|]. split; [by exists ess|]. rewrite (Forall2_length _ _ _ H1). split; [done|]. by apply pages_bytes.
Qed.

(** The inputs of the merger from those of the compaction. *)
Lemma subprocessing_inputs top src org us ls m : held_top top src us → held org ls → sorted us → sorted ls → Forall fam us → Forall fam ls →
  top_pages top src + Z.of_nat (length org) <= m → m < 2 ^ 31 - 2 →
  ∃ srcd orgd, mapR data_from_run src = Ok srcd ∧ mapR data_from_run org = Ok orgd ∧
    inputs (match top with Some mem => FromMem mem | None => FromRuns srcd end) orgd us ls ∧ (length us + length ls < merge_fuel top srcd orgd)%nat ∧
    bytes us + bytes ls <= full_bytes * m.
Proof.
  intros Hu Ho Hsu Hsl Hfu Hfl Hm Hm'. destruct (held_pages org ls Ho Hfl) as (orgd & -> & Hpo & Elo & Hbo & Hno). pose proof full_pos.
  assert (Hup : ∃ srcd, mapR data_from_run src = Ok srcd ∧ upper_of (match top with Some mem => FromMem mem | None => FromRuns srcd end) us ∧
    upper_pages (match top with Some mem => FromMem mem | None => FromRuns srcd end) = top_pages top src ∧ bytes us <= full_bytes * top_pages top src ∧
    (length us <= length (default [] top) + 510 * length srcd)%nat).
  { destruct top as [mem|]; cbn [held_top top_pages] in *.
    - destruct Hu as (-> & Hne & Hfit & ->). exists []. split; [done|]. split; [done|]. split; [done|]. cbn. split; [|lia]. rewrite Z.mul_1_r.
      destruct (skip_cvt2_Ok jmem us Hjmem Hfit) as (d & _ & Ht). by apply (page_bytes d).
    - destruct (held_pages src us Hu Hfu) as (srcd & -> & Hps & Els & Hbs & Hns). exists srcd. split; [done|]. split; [done|]. cbn. rewrite Els. split; [done|]. split; [done|lia]. }
  destruct Hup as (srcd & -> & Hupper & Eup & Hbu & Hnu). exists srcd, orgd. split; [done|]. split; [done|]. split; [|split].
  - constructor; try done; rewrite Eup, Elo; unfold result_padding; [lia|nia].
  - unfold merge_fuel. lia.
  - nia.
Qed.

Lemma runs_filter {St : Store} lev ess f : runs lev ess → runs (set_filter lev f) ess.
Proof. by intros []. Qed.

Lemma merged_proper us ls m : merged us ls m → Forall proper us → Forall proper ls → Forall proper m.1.
Proof. intros (_ & Hin & _) Hu Hl. rewrite Forall_forall in Hu, Hl. apply Forall_forall. intros e [He|[He _]]%Hin; auto. Qed.

(** The entries of [ls] that those of [us] hide. *)
Definition hidden us ls : list Z := (base.filter (λ e, e.1 ∈ us.*1) ls).*2.

Lemma subprocessing_Ok t top src org des us ls : dev_ok t → runs (St:=store_at (dev t) (l_idx des)) des [] → from_option usable True (l_filter des) →
  held_top top src us → held org ls → sorted us → sorted ls → Forall fam us → Forall fam ls → Forall proper us → Forall proper ls →
  top_pages top src + Z.of_nat (length org) <= m_num des → m_num des < 2 ^ 31 - 2 →
  ∃ t' des' ess, compaction_subprocessing LEVELCACHING junk jmem ppas t top src org des = Ok (t', des') ∧ extends t t' ∧
    stale t' = stale t ++ hidden us ls ∧ stale_header t' = stale_header t ∧ level_ok (dev t') (l_idx des) des' ess ∧
    m_num des' = m_num des ∧ l_idx des' = l_idx des ∧ istier des' = istier des ∧ Z.of_nat (length ess) <= top_pages top src + Z.of_nat (length org) ∧
    (list_to_map (concat ess) : gmap str_key Z) = list_to_map us ∪ list_to_map ls.
Proof.
  intros Hok Hdes Hfil Hu Ho Hsu Hsl Hfu Hfl Hpu Hpl Hroom Hm. unfold compaction_subprocessing.
  destruct (subprocessing_inputs top src org us ls _ Hu Ho Hsu Hsl Hfu Hfl (Z.le_refl _) ltac:(lia)) as (srcd & orgd & -> & -> & Hin & Hfuel & Hbytes). rbind.
  destruct (merger_Ok junk _ jmem _ orgd (l_filter des) us ls Hjunk Hjmem Hin Hfil Hfuel) as
    (rp & ess & -> & Hst & Hp & Hpm & Ec & Hfl' & Hfam & Hpages & Hmerged & Hwf & Hmap). rbind.
  destruct (cut_runs_Ok LEVELCACHING (l_idx des) ess rp (S (Z.to_nat (pidx rp))) Hst Hp Hpm) as (rs & Er & Hrs); [lia|].
  set (des1 := set_filter des (filter rp)). rewrite (cut_insert_Ok _ true _ rp des1 rs Er). pose proof full_pos.
  assert (Hnum : Z.of_nat (length ess) <= top_pages top src + Z.of_nat (length org)) by nia.
  destruct (insert_runs_Ok rs ess (invalidate_data t (merge us ls).2) des1 []) as (t' & des' & -> & Hx & [Hst1 Hst2] & Hruns & (Ef & Em & Ei & Et)).
  - exact Hok.
  - by apply runs_filter.
  - change (n_num des1) with (n_num des). rewrite (rn_num (St:=store_at (dev t) (l_idx des)) _ _ Hdes). rewrite (Forall2_length _ _ _ Hrs).
    change (m_num des1) with (m_num des). simpl. lia.
  - done.
  - cbn [app]. rewrite Ec. apply Hmerged.
  - cbn [app]. rewrite Ec. by eapply merged_proper.
  - exists t', des', ess. split; [done|]. cbn [app] in Hruns. split; [by destruct Hx|]. cbn [invalidate_data stale stale_header] in Hst1, Hst2.
    split; [rewrite Hst1; f_equal; apply Hmerged|]. split; [done|]. split; [|split; [done|split; [done|split; [done|split; [done|by rewrite Ec]]]]].
    split; [done|]. rewrite Ec, Ef. split; [|done]. by eapply filter_has_covers.
Qed.

(** *** The runs of a level *)

Lemma runs_list {St : Store} lev ess : runs lev ess → ∃ rs, runs_at lev (seqZ 0 (n_num lev)) = Ok rs ∧ Forall2 run_at rs ess.
Proof.
  intros Hr. exists (ca_at (arrs lev) <$> seqZ 0 (n_num lev)). pose proof (rn_num _ _ Hr) as Hn. pose proof (rn_cap _ _ Hr) as (Hc & Hl & _). split.
  - apply mapR_Ok. apply Forall2_fmap_r, Forall_Forall2_diag, Forall_forall. intros j Hj%elem_of_seqZ. apply ca_get_in. lia.
  - apply Forall2_same_length_lookup. rewrite length_fmap, length_seqZ. split; [lia|]. intros i r es Hi Hes. rewrite list_lookup_fmap in Hi.
    destruct (seqZ 0 (n_num lev) !! i) as [j|] eqn:Ej; [|done]. injection Hi as <-. apply lookup_seqZ in Ej as [-> _]. by apply (rn_run _ _ Hr).
Qed.

Lemma load_Ok t idx rs ess : Forall2 (run_at (St:=store_at (dev t) idx)) rs ess → ∃ rs', mapR (load_run t) rs = Ok rs' ∧ Forall2 readable rs' ess.
Proof.
  induction 1 as [|r es rs ess Hr _ (rs' & IH & IHr)]; [by exists []|]. cbn [mapR].
  assert (Hl : ∃ r', load_run t r = Ok r' ∧ readable r' es).
  { destruct Hr as [(data & Hd & Ht) _ _ _]. unfold store_at in Hd. unfold load_run. destruct (idx <? LEVELCACHING); cbn in Hd.
    - rewrite Hd. exists r. split; [done|]. exists data. unfold data_from_run. by rewrite Hd.
    - destruct Hd as [Hdev [Hn|Hn]]; rewrite Hn.
      + rewrite Hdev. cbn [deref]. rbind. eexists. split; [done|]. by exists data.
      + exists r. split; [done|]. exists data. unfold data_from_run. by rewrite Hn. }
  destruct Hl as (r' & -> & Hr'). rbind. rewrite IH. rbind. eexists. split; [done|]. by constructor.
Qed.

Lemma run_at_ne {St : Store} rs ess : Forall2 run_at rs ess → Forall (λ es, es ≠ []) ess.
Proof. induction 1 as [|r es rs ess Hr _ IH]; constructor; [apply Hr|done]. Qed.

(** The runs of a level that has some, as the compaction takes them. *)
Lemma level_held t idx lev ess : runs (St:=store_at (dev t) idx) lev ess → ess ≠ [] →
  ∃ rs rs', runs_at lev (seqZ 0 (n_num lev)) = Ok rs ∧ mapR (load_run t) rs = Ok rs' ∧ held rs' (concat ess) ∧ Z.of_nat (length rs') = n_num lev ∧ rs ≠ [].
Proof.
  intros Hr Hne. destruct (runs_list (St:=store_at (dev t) idx) lev ess Hr) as (rs & Ers & H2). destruct (load_Ok t idx rs ess H2) as (rs' & El & H2').
  exists rs, rs'. split; [done|]. split; [done|]. split; [exists ess; split; [done|]; split; [by eapply (run_at_ne (St:=store_at (dev t) idx))|done]|]. rewrite (rn_num (St:=store_at (dev t) idx) _ _ Hr), (Forall2_length _ _ _ H2').
  split; [done|]. intros ->. by apply Forall2_nil_inv_l in H2.
Qed.

Lemma post_same rs : ∀ t, disk (foldl htable_read_postproc t rs) = disk t ∧ dev (foldl htable_read_postproc t rs) = dev t ∧
  next (foldl htable_read_postproc t rs) = next t ∧ stale (foldl htable_read_postproc t rs) = stale t.
Proof.
  induction rs as [|r rs IH]; intros t; [done|]. cbn [foldl]. destruct (IH (htable_read_postproc t r)) as (-> & -> & -> & ->).
  unfold htable_read_postproc. by destruct (_ =? _).
Qed.

Lemma post_extends t t' rs : extends t t' → extends t (foldl htable_read_postproc t' rs).
Proof.
  intros [E1 E2 E3]. destruct (post_same rs t') as (Hd & Hv & Hn & _). constructor; [congruence|by rewrite Hv|]. unfold dev_ok. rewrite Hv, Hn. exact E3.
Qed.

(** What is above in a compaction: a level that has runs, or the memtable. *)
Definition above t (upper : option level) mem us : Prop :=
  match upper with
  | Some up => ∃ ess, level_ok (dev t) (l_idx up) up ess ∧ ess ≠ [] ∧ concat ess = us
  | None => mem = us ∧ us ≠ [] ∧ fits us ∧ sorted us ∧ Forall fam us ∧ Forall proper us
  end.
Definition above_pages (upper : option level) : Z := match upper with Some up => n_num up | None => 1 end.

(** The outcome of a compaction into a new level. *)
Record compacted t des (us ls : list (str_key * Z)) (pages : Z) t' des' : Prop := Compacted {
  cp_ext : extends t t';
  cp_stale : stale t' = stale t ++ hidden us ls;
  cp_level : ∃ ess, level_ok (dev t') (l_idx des) des' ess ∧ Z.of_nat (length ess) <= pages ∧ (list_to_map (concat ess) : gmap str_key Z) = list_to_map us ∪ list_to_map ls;
  cp_same : m_num des' = m_num des ∧ l_idx des' = l_idx des ∧ istier des' = istier des;
}.

Lemma above_facts t upper mem us : above t upper mem us → us ≠ [] ∧ sorted us ∧ Forall fam us ∧ Forall proper us.
Proof.
  destruct upper as [up|]; [|naive_solver]. intros (ess & (Hr & _ & Hf) & Hne & <-). pose proof (rn_sorted (St:=store_at _ _) _ _ Hr). pose proof (rn_proper (St:=store_at _ _) _ _ Hr).
  split; [|done]. destruct ess as [|es ess]; [done|]. pose proof (ra_ne (St:=store_at _ _) _ _ (rn_run (St:=store_at _ _) _ _ Hr 0 es eq_refl)). cbn. by intros [? _]%app_eq_nil.
Qed.

Lemma partial_leveling_Ok t des origin ess_o mem upper us : dev_ok t → runs (St:=store_at (dev t) (l_idx des)) des [] → from_option usable True (l_filter des) →
  level_ok (dev t) (l_idx origin) origin ess_o → ess_o ≠ [] → above t upper mem us → above_pages upper + n_num origin <= m_num des → m_num des < 2 ^ 31 - 2 →
  ∃ t' des', partial_leveling LEVELCACHING junk jmem ppas t des origin mem upper = Ok (t', des') ∧
    compacted t des us (concat ess_o) (above_pages upper + n_num origin) t' des'.
Proof.
  intros Hok Hdes Hfil (Hro & _ & Hfo) Hne Hab Hroom Hm. destruct (above_facts _ _ _ _ Hab) as (Hune & Hsu & Hfu & Hpu). unfold partial_leveling.
  rewrite (all_runs (St:=store_at (dev t) (l_idx origin)) _ _ Hro). rbind. destruct (level_held t _ origin ess_o Hro Hne) as (rs & rs' & -> & El & Hheld & Hlen & Hrs). rbind.
  pose proof (rn_sorted (St:=store_at _ _) _ _ Hro) as Hso. pose proof (rn_proper (St:=store_at _ _) _ _ Hro) as Hpo.
  destruct upper as [up|]; cbn [above above_pages] in *.
  - destruct Hab as (ess_u & (Hru & _ & _) & Hneu & <-).
    assert (Hd : ∃ data data', (if l_idx up <? LEVELCACHING then array_cache_comp_formatting up true else l ← array_range_find_compaction up key_min key_max; runs_at up l) = Ok data ∧
      (if l_idx up <? LEVELCACHING then Ok data else mapR (load_run t) data) = Ok data' ∧ held data' (concat ess_u) ∧ Z.of_nat (length data') = n_num up).
    { pose proof Hru as Hru'. unfold store_at in Hru'. destruct (l_idx up <? LEVELCACHING) eqn:Hc.
      - pose proof (rn_num (St:=cached_store) _ _ Hru') as Hn. destruct (comp_formatting_Ok true up ess_u Hru' (length ess_u) 0 ltac:(lia)) as (data & E & H2).
        rewrite drop_0, take_ge in H2 by lia. exists data, data. unfold array_cache_comp_formatting. rewrite Hn, Nat2Z.id. change (Z.of_nat 0) with 0 in E. split; [done|]. split; [done|].
        rewrite (Forall2_length _ _ _ H2). split; [|done]. exists ess_u. split; [done|]. split; [|done]. destruct (runs_list (St:=cached_store) _ _ Hru') as (x & _ & Hx). by apply (run_at_ne (St:=cached_store) x).
      - rewrite (all_runs (St:=device_store (dev t)) _ _ Hru'). rbind. destruct (level_held t _ up ess_u Hru Hneu) as (data & data' & E1 & E2 & Hh & Hl & _). by exists data, data'. }
    destruct Hd as (data & data' & -> & E2 & Hh & Hl). rbind. destruct rs as [|r0 rs]; [done|]. rewrite andb_false_r. cbn [abort_if]. rewrite El. rbind. rewrite E2. rbind.
    destruct (subprocessing_Ok t None data' rs' des (concat ess_u) (concat ess_o) Hok Hdes Hfil Hh Hheld Hsu Hso Hfu Hfo Hpu Hpo) as
      (t' & des' & ess & -> & Hx & Hst & _ & Hlev & E1 & E3 & E4 & Hnum & Hmap); [cbn; lia|lia|]. rbind.
    eexists _, _. split; [done|]. destruct (post_same rs' (foldl htable_read_postproc t' data')) as (_ & Hv & _ & Hs'), (post_same data' t') as (_ & Hv' & _ & Hs'').
    constructor; [by do 2 apply post_extends|congruence| |done]. exists ess. rewrite Hv, Hv'. cbn [top_pages] in Hnum. split; [done|]. split; [lia|done].
  - destruct Hab as (-> & _ & Hfit & _). rewrite El. rbind.
    destruct (subprocessing_Ok t (Some us) [] rs' des us (concat ess_o) Hok Hdes Hfil) as (t' & des' & ess & -> & Hx & Hst & _ & Hlev & E1 & E3 & E4 & Hnum & Hmap);
      try done; [cbn; lia|]. rbind. eexists _, _. split; [done|]. destruct (post_same rs' t') as (_ & Hv & _ & Hs').
    constructor; [by apply post_extends|congruence| |done]. exists ess. rewrite Hv. cbn [top_pages] in Hnum. split; [done|]. split; [lia|done].
Qed.

(** *** Into an empty level *)

(** The level whose tables were written is a level on the device. *)
Lemma write_level_Ok ess n : ∀ j t a, dev_ok t → (j + n <= length ess)%nat → Z.of_nat (length ess) <= ca_len a →
  (∀ i es, (j <= i)%nat → ess !! i = Some es → run_at (St:=cached_store) (ca_at a (Z.of_nat i)) es) →
  ∃ t' a', write_level ppas n (Z.of_nat j) t a = Ok (t', a') ∧ extends t t' ∧ same_stale t t' ∧ ca_len a' = ca_len a ∧
    (∀ i : Z, i < Z.of_nat j ∨ Z.of_nat (j + n) <= i → ca_at a' i = ca_at a i) ∧
    ∀ i es, (j <= i < j + n)%nat → ess !! i = Some es → run_at (St:=device_store (dev t')) (ca_at a' (Z.of_nat i)) es.
Proof.
  induction n as [|n IH]; intros j t a Hok Hj Hl Hr; cbn [write_level].
  { exists t, a. split; [done|]. split; [by apply extends_refl|]. do 3 (split; [done|]). intros; lia. }
  destruct (lookup_lt_is_Some_2 ess j ltac:(lia)) as [es Hes]. destruct (Hr j es ltac:(lia) Hes) as [(data & Hd & Ht) Hne Hlo Hhi]. cbn in Hd.
  rewrite ca_get_in by lia. rbind. rewrite Hd. cbn [deref]. rbind. destruct (compaction_htable_write ppas t data) as [t1 ppa] eqn:Ew.
  destruct (write_Ok t data t1 ppa Hok Ew) as (Hx1 & Hdev & Hst1). rewrite ca_set_in by lia. rbind. replace (Z.of_nat j + 1) with (Z.of_nat (S j)) by lia.
  destruct (IH (S j) t1 (ca_upd a (Z.of_nat j) (Run (r_key (ca_at a (Z.of_nat j))) (r_end (ca_at a (Z.of_nat j))) ppa (Some data) (Some data)))) as
    (t' & a' & -> & Hx & Hst & El & Hkeep & Hnew).
  - apply Hx1.
  - lia.
  - by rewrite ca_len_upd.
  - intros i es' Hi Hes'. rewrite ca_at_upd, decide_False by lia. apply Hr; [lia|done].
  - exists t', a'. split; [done|]. split; [by eapply extends_trans|]. split; [destruct Hst, Hst1; split; congruence|]. rewrite ca_len_upd in El. split; [done|]. split.
    + intros i Hi. rewrite Hkeep, ca_at_upd, decide_False by lia. done.
    + intros i es' Hi Hes'. destruct (decide (i = j)) as [->|]; [|apply Hnew; [lia|done]]. rewrite Hkeep, ca_at_upd, decide_True by lia. assert (es' = es) as -> by congruence.
      constructor; try done. exists data. split; [|done]. split; [by eapply lookup_weaken; [|apply Hx]|by right].
Qed.

(** Copying a level: in memory, on the device, or from memory to the device. *)
Lemma empty_copy_Ok t up des ess mem : dev_ok t → level_ok (dev t) (l_idx up) up ess → runs (St:=store_at (dev t) (l_idx des)) des [] → n_num up <= m_num des →
  (l_idx des < LEVELCACHING → l_idx up < LEVELCACHING) →
  ∃ t' des', compaction_empty_level LEVELCACHING jmem ppas t (Some up) mem des = Ok (t', des') ∧ compacted t des (concat ess) [] (n_num up) t' des'.
Proof.
  intros Hok (Hru & Hfl & Hfam) Hdes Hroom Hidx. unfold compaction_empty_level.
  assert (Hw : ∃ t' a, (if (LEVELCACHING <=? l_idx des) && (l_idx up <? LEVELCACHING) then write_level ppas (Z.to_nat (n_num up)) 0 t (arrs up) else Ok (t, arrs up)) = Ok (t', a) ∧
    extends t t' ∧ same_stale t t' ∧
    runs (St:=store_at (dev t') (l_idx des)) (Level (l_idx up) (m_num up) (n_num up) (l_start up) (l_end up) (istier up) (l_filter up) a) ess).
  { pose proof Hru as Hru'. unfold store_at in Hru' |- *. rewrite Z.leb_antisym. destruct (Z.ltb_spec (l_idx des) LEVELCACHING) as [Hd|Hd]; cbn [negb andb].
    - rewrite (proj2 (Z.ltb_lt (l_idx up) _)) in Hru' by auto. exists t, (arrs up). split; [done|]. split; [by apply extends_refl|]. split; [done|]. by destruct Hru'.
    - destruct (l_idx up <? LEVELCACHING).
      + destruct Hru' as [Hn (Hc & Hl & Hm) Hr Hnew Hs Hp Hrg].
        destruct (write_level_Ok ess (Z.to_nat (n_num up)) 0 t (arrs up) Hok) as (t' & a & E & Hx & Hst & El & Hkeep & Hat); [lia|lia|intros i es _ Hi; by apply Hr|].
        exists t', a. split; [done|]. split; [done|]. split; [done|]. constructor; cbn [n_num m_num arrs l_start l_end]; try done; [by rewrite El|..].
        * intros i es Hi. apply Hat; [|done]. pose proof (lookup_lt_Some _ _ _ Hi). lia.
        * intros i Hi. rewrite Hkeep by lia. by apply Hnew.
      + exists t, (arrs up). split; [done|]. split; [by apply extends_refl|]. split; [done|]. by destruct Hru'. }
  destruct Hw as (t' & a & -> & Hx & [Hst _] & Hup). rbind. pose proof Hdes as [_ (Hc & Hl & Hm) _ Hnew _ _ _].
  destruct (lev_copy_Ok (St:=store_at (dev t') (l_idx des)) des _ ess Hup Hroom Hl Hm Hnew) as (des' & src' & -> & Hruns & Ef & Em & Ei & Et). rbind.
  exists t', des'. split; [done|]. constructor; [done|by rewrite Hst, app_nil_r| |done]. exists ess. split; [|split; [rewrite <-(rn_num (St:=store_at _ _) _ _ Hru); lia|by rewrite list_to_map_nil, map_union_empty]].
  split; [done|]. rewrite Ef. done.
Qed.

(** The memtable as the only run: at least two entries, so that both keys are set. *)
Lemma empty_flush_Ok t des us : dev_ok t → runs (St:=store_at (dev t) (l_idx des)) des [] → from_option usable True (l_filter des) → 1 <= m_num des →
  above t None us us → (2 <= length us)%nat →
  ∃ t' des', compaction_empty_level LEVELCACHING jmem ppas t None us des = Ok (t', des') ∧ compacted t des us [] 1 t' des'.
Proof.
  intros Hok Hdes Hfil Hm (_ & Hne & Hfit & Hs & Hf & Hp) Hlen. unfold compaction_empty_level.
  destruct (mem_cvt2table_Ok jmem us (l_filter des) Hjmem Hfit Hne Hfil) as (data & f & -> & Ht & Hfl). rbind.
  assert (Hlo : first_key us = Some (lo us)) by (destruct us; done). assert (Hhi : last_key (length us) us = Some (hi us)).
  { unfold last_key, hi. rewrite decide_True by lia. destruct (last us) eqn:E; [done|]. by apply last_None in E. }
  rewrite Hlo, Hhi. cbn [deref]. rbind. set (des1 := set_filter des f). change (l_idx des1) with (l_idx des).
  set (r := if l_idx des <? LEVELCACHING then Run (lo us) (hi us) UINT32_MAX (Some data) None else Run (lo us) (hi us) UINT32_MAX None (Some data)).
  assert (Hr : run_for LEVELCACHING (l_idx des1) r us).
  { exists data. unfold r. change (l_idx des1) with (l_idx des). split; [done|]. unfold lo, hi. destruct us as [|e us]; [done|]. destruct (last (e :: us)) eqn:E; [|by apply last_None in E].
    by destruct (l_idx des <? LEVELCACHING). }
  destruct (insert_run_Ok t des1 [] r us Hok (runs_filter (St:=store_at _ _) _ _ f Hdes)) as (t' & des' & E & Hx & [Hst _] & Hruns & (Ef & Em & Ei & Et)); try done.
  { change (n_num des1) with (n_num des). change (m_num des1) with (m_num des). rewrite (rn_num (St:=store_at _ _) _ _ Hdes). simpl. lia. }
  exists t', des'. split; [rewrite <-E; unfold insert_run, r; change (l_idx des1) with (l_idx des); by destruct (l_idx des <? LEVELCACHING)|].
  constructor; [done|by rewrite Hst, app_nil_r| |done]. exists [us]. cbn [concat]. rewrite app_nil_r, list_to_map_nil, map_union_empty. split; [|done]. split; [done|].
  cbn [concat]. rewrite app_nil_r. split; [|done]. rewrite Ef. eapply filter_has_covers; [exact Hfil| |exact Hfl]. by apply fams_keys.
Qed.

(** *** The pipeline and the filter *)

Lemma iter_all_Ok n : ∀ fuel j, (n < fuel)%nat → iter_all fuel (AIter (j + Z.of_nat n) j false) = Ok (seqZ j (Z.of_nat n)).
Proof.
  induction n as [|n IH]; intros fuel j Hf; (destruct fuel as [|fuel]; [lia|]); cbn [iter_all]; unfold array_iter_nxt; cbn [it_now it_max ispartial].
  - rewrite Z.add_0_r, Z.eqb_refl. done.
  - rewrite (proj2 (Z.eqb_neq _ _)) by lia. replace (j + Z.of_nat (S n)) with (j + 1 + Z.of_nat n) by lia. rewrite IH by lia. rbind.
    rewrite (seqZ_cons j) by lia. by replace (Z.pred (Z.of_nat (S n))) with (Z.of_nat n) by lia.
Qed.

Lemma pl_runs_Ok {St : Store} lev ess : runs lev ess → make_pl_run_array lev = runs_at lev (seqZ 0 (n_num lev)).
Proof.
  intros Hr. pose proof (rn_num _ _ Hr) as Hn. pose proof (proper_ok _ (rn_proper _ _ Hr)) as Hok. rewrite Forall_forall in Hok. destruct (rn_range _ _ Hr) as [Es Ee].
  assert (Hw : key_wf (l_start lev) ∧ key_wf (l_end lev)).
  { rewrite Es, Ee. destruct (decide (concat ess = [])) as [->|Hne]; [split; [apply key_wf_max|apply key_wf_min]|].
    destruct (lo_elem _ Hne) as [p Hp], (hi_elem _ Hne) as [q Hq]. split; [apply (Hok _ Hp)|apply (Hok _ Hq)]. }
  unfold make_pl_run_array, array_get_iter. rewrite (proj2 (cmp_eq (cmp:=KEYCMP) (l_start lev) _ (proj1 Hw) (proj1 Hw)) eq_refl), (proj2 (cmp_eq (cmp:=KEYCMP) (l_end lev) _ (proj2 Hw) (proj2 Hw)) eq_refl).
  cbn [Z.eqb andb]. rbind. pose proof (iter_all_Ok (length ess) (S (Z.to_nat (n_num lev))) 0 ltac:(lia)) as E. rewrite Z.add_0_l, <-Hn in E. rewrite E. rbind. done.
Qed.

Lemma write_insert_same rs : ∀ t des, LEVELCACHING <= l_idx des → write_insert_runs ppas t des rs = insert_runs t des rs.
Proof.
  induction rs as [|r rs IH]; intros t des Hd; [done|]. cbn [write_insert_runs insert_runs].
  assert (E : insert_run t des r = compaction_htable_write_insert ppas t des r) by (unfold insert_run; by rewrite (proj2 (Z.ltb_ge _ _)) by lia).
  rewrite <-E. destruct (insert_run t des r) as [[t' des']|] eqn:Ei; [|done]. rbind. apply IH. by rewrite (insert_run_idx _ _ _ _ _ Ei).
Qed.

(** The runs that the pipeline reads. *)
Lemma pl_held t lev ess : level_ok (dev t) (l_idx lev) lev ess → ess ≠ [] →
  ∃ rs rs', make_pl_run_array lev = Ok rs ∧ mapR (load_run t) rs = Ok rs' ∧ held rs' (concat ess) ∧ Z.of_nat (length rs') = n_num lev ∧ (l_idx lev < LEVELCACHING → rs' = rs).
Proof.
  intros (Hr & _) Hne. rewrite (pl_runs_Ok (St:=store_at _ _) _ _ Hr). destruct (level_held t _ lev ess Hr Hne) as (rs & rs' & E1 & E2 & Hh & Hl & _). exists rs, rs'.
  split; [done|]. split; [done|]. split; [done|]. split; [done|]. intros Hc. destruct (runs_list (St:=store_at (dev t) (l_idx lev)) _ _ Hr) as (rs2 & E3 & H2). rewrite E1 in E3. injection E3 as <-.
  assert (El : mapR (load_run t) rs = Ok rs); [|congruence]. apply mapR_Ok. clear -H2 Hc. unfold store_at in H2. rewrite (proj2 (Z.ltb_lt _ _)) in H2 by done.
  induction H2 as [|r es rs ess [(data & Hd & _) _ _ _] _ IH]; constructor; [|done]. unfold load_run. cbn in Hd. by rewrite Hd.
Qed.

(** The two inputs of the pipeline. *)
Lemma pl_inputs t upper mem us : above t upper mem us →
  ∃ u_data, match upper with Some up => u ← make_pl_run_array up; if l_idx up <? LEVELCACHING then Ok u else mapR (load_run t) u | None => Ok [] end = Ok u_data ∧
    held_top (match upper with Some _ => None | None => Some mem end) u_data us ∧ top_pages (match upper with Some _ => None | None => Some mem end) u_data = above_pages upper.
Proof.
  destruct upper as [up|]; cbn [above above_pages].
  - intros (ess & Hup & Hne & <-). destruct (pl_held t up ess Hup Hne) as (rs & rs' & -> & E & Hh & Hl & Hc). rbind. exists rs'. split; [|done].
    destruct (Z.ltb_spec (l_idx up) LEVELCACHING); [by rewrite Hc|done].
  - intros (-> & Hne & Hfit & _). by exists [].
Qed.


(** ** The tree *)

Implicit Types (esss : list (list (list (str_key * Z)))) (ms : list (gmap str_key Z)).

Context (size_factor : Z).
Hypothesis Hfactor : 3 <= size_factor.

(** The capacities of the levels. The last one of [n] levels is made with its capacity, and
    is larger by two levels above it after the first compaction into it. *)
Definition cap (j : Z) : Z := size_factor ^ (j + 1).
Definition sized (n : nat) i (size : Z) : Prop :=
  ((S i < n)%nat → size = cap (Z.of_nat i)) ∧ (S i = n → size = (size_factor + 2) * cap (Z.of_nat i - 1)).
Definition size_ok (n : nat) i lev : Prop := sized n i (m_num lev) ∨ (m_num lev = cap (Z.of_nat i) ∧ n_num lev = 0).

Record tree_ok t esss : Prop := TreeOk {
  tr_len : length (disk t) = length esss;
  tr_lev i lev ess : disk t !! i = Some lev → esss !! i = Some ess → level_ok (dev t) (Z.of_nat i) lev ess ∧ l_idx lev = Z.of_nat i ∧ istier lev = false;
  tr_dev : dev_ok t;
  tr_size i lev : disk t !! i = Some lev → size_ok (length (disk t)) i lev;
  tr_fit : (2 <= length (disk t))%nat ∧ (size_factor + 2) * size_factor ^ (LEVELN t - 1) <= 2 ^ 24;
}.

Lemma cap_top : cap (-1) = 1.
Proof. done. Qed.
Lemma cap_succ j : 0 <= j → cap j = size_factor * cap (j - 1).
Proof. intros Hj. unfold cap. rewrite <-Z.pow_succ_r by lia. f_equal. lia. Qed.
Lemma cap_pos j : -1 <= j → 1 <= cap j.
Proof. intros Hj. unfold cap. pose proof (Z.pow_pos_nonneg size_factor (j + 1)). lia. Qed.
Lemma cap_mono j : 0 <= j → cap (j - 1) <= cap j.
Proof. intros Hj. rewrite (cap_succ j Hj). pose proof (cap_pos (j - 1)). nia. Qed.
Lemma cap_le (j n : Z) : 0 <= n → -1 <= j → cap j <= cap (j + n).
Proof. intros Hn Hj. unfold cap. apply Z.pow_le_mono_r; lia. Qed.

Lemma sized_cap n i size : (i < n)%nat → sized n i size → cap (Z.of_nat i) <= size.
Proof.
  intros Hi [H1 H2]. destruct (decide (S i = n)) as [He|]; [|specialize (H1 ltac:(lia)); lia]. rewrite (H2 He), (cap_succ (Z.of_nat i)) by lia.
  pose proof (cap_pos (Z.of_nat i - 1) ltac:(lia)). nia.
Qed.

Lemma size_bounds n i lev : (i < n)%nat → size_ok n i lev → cap (Z.of_nat i) <= m_num lev ∧ ((S i < n)%nat → m_num lev = cap (Z.of_nat i)).
Proof. intros Hi [Hs|[Hm _]]; [|lia]. split; [by eapply sized_cap|apply Hs]. Qed.

(** The size of the level that replaces another one. *)
Lemma target_cnt_Ok t esss j to : tree_ok t esss → disk t !! j = Some to →
  ∃ n, target_cnt size_factor t to = Ok n ∧ cap (Z.of_nat j) <= n < 2 ^ 31 - 2 ∧ sized (length (disk t)) j n.
Proof.
  intros [Hlen Hlev _ Hsz [H2 Hfit]] Hto. pose proof (lookup_lt_Some _ _ _ Hto) as Hj. destruct (lookup_lt_is_Some_2 esss j ltac:(lia)) as [ess Hess].
  destruct (Hlev j to ess Hto Hess) as (_ & Ei & _). destruct (size_bounds _ _ _ Hj (Hsz j to Hto)) as [Hm Hm']. unfold target_cnt, LEVELN in *. rewrite Ei. pose proof (cap_pos (Z.of_nat j) ltac:(lia)).
  set (N := length (disk t)) in *. assert (Hc : cap (Z.of_nat N - 2) = size_factor ^ (Z.of_nat N - 1)) by (unfold cap; f_equal; lia).
  destruct (Z.eqb_spec (Z.of_nat j) (Z.of_nat N - 1)) as [He|Hne].
  - destruct (lookup_lt_is_Some_2 (disk t) (N - 2) ltac:(lia)) as [up Hup]. destruct (size_bounds N (N - 2) up ltac:(lia) (Hsz _ _ Hup)) as [_ Hu]. specialize (Hu ltac:(lia)). replace (Z.of_nat (N - 2)) with (Z.of_nat N - 2) in Hu by lia.
    unfold get_level. rewrite (proj2 (Z.ltb_ge _ _)) by lia. replace (Z.to_nat (Z.of_nat N - 2)) with (N - 2)%nat by lia. rewrite Hup. rbind. eexists. split; [done|].
    rewrite Hu, Hc in *. rewrite He. pose proof (cap_succ (Z.of_nat N - 1) ltac:(lia)) as Hs. replace (Z.of_nat N - 1 - 1) with (Z.of_nat N - 2) in Hs by lia. rewrite Hc in Hs.
    pose proof (Z.pow_pos_nonneg size_factor (Z.of_nat N - 1) ltac:(lia) ltac:(lia)). split; [lia|]. split; [lia|]. intros _. replace (Z.of_nat j - 1) with (Z.of_nat N - 2) by lia. rewrite Hc. ring.
  - exists (m_num to). split; [done|]. specialize (Hm' ltac:(lia)). split; [|split; lia]. split; [lia|]. rewrite Hm'.
    pose proof (cap_le (Z.of_nat j) (Z.of_nat N - 2 - Z.of_nat j) ltac:(lia) ltac:(lia)) as Hle. replace (Z.of_nat j + (Z.of_nat N - 2 - Z.of_nat j)) with (Z.of_nat N - 2) in Hle by lia. rewrite Hc in Hle. nia.
Qed.

(** The map of a level, of the levels, and of the tree: newer levels first. *)
Definition level_map ess : gmap str_key Z := list_to_map (concat ess).
Definition maps esss : list (gmap str_key Z) := level_map <$> esss.
Definition content ms : gmap str_key Z := foldr (∪) ∅ ms.

(** A compaction on the maps of the levels. *)
Definition move (m : gmap str_key Z) (i : option nat) (j : nat) ms : list (gmap str_key Z) :=
  <[j:=m ∪ default ∅ (ms !! j)]> (match i with Some i => <[i:=∅]> ms | None => ms end).

Lemma new_level_Ok t n idx : 0 <= n < 2 ^ 31 - 2 →
  runs (St:=store_at (dev t) idx) (new_level new_filter n idx false) [] ∧ from_option usable True (l_filter (new_level new_filter n idx false)).
Proof. intros Hm. split; [apply init_runs; lia|apply Hfilter]. Qed.

(** Any compaction into a level whose new size is enough, before [level_change]. *)
Lemma target_Ok t esss from to j ess_o mem us n : tree_ok t esss → disk t !! j = Some to → esss !! j = Some ess_o →
  above t from mem us → (from = None → (2 <= length us)%nat) → (∀ up, from = Some up → l_idx up < l_idx to) →
  above_pages from + n_num to <= n → n < 2 ^ 31 - 2 →
  ∃ t' target, (if n_num to =? 0 then compaction_empty_level LEVELCACHING jmem ppas t from mem (new_level new_filter n (l_idx to) false)
      else partial_leveling LEVELCACHING junk jmem ppas t (new_level new_filter n (l_idx to) false) to mem from) = Ok (t', target) ∧
    compacted t (new_level new_filter n (l_idx to) false) us (concat ess_o) (above_pages from + n_num to) t' target.
Proof.
  intros [_ Hlev Hok _ _] Hto Hess Hab Hlen Hidx Hroom Hm. destruct (Hlev j to ess_o Hto Hess) as (Hlo & Ei & Et). pose proof Hlo as (Hro & _). rewrite <-Ei in Hlo.
  pose proof (rn_num (St:=store_at _ _) _ _ Hro) as Hn. assert (Hpg : 0 <= above_pages from).
  { destruct from as [up|]; cbn; [|lia]. destruct Hab as (ess & (Hru & _) & _). rewrite (rn_num (St:=store_at _ _) _ _ Hru). lia. }
  destruct (new_level_Ok t n (l_idx to) ltac:(lia)) as [Hdes Hfil]. set (des := new_level new_filter n (l_idx to) false) in *. change (m_num des) with n.
  destruct (Z.eqb_spec (n_num to) 0) as [Hz|Hnz].
  - assert (ess_o = []) as -> by (apply nil_length_inv; lia). rewrite Hz, Z.add_0_r. cbn [concat]. destruct from as [up|]; cbn [above_pages] in *.
    + destruct Hab as (ess & Hup & Hne & <-). apply empty_copy_Ok; [done|done|done|exact ltac:(unfold des; cbn; lia)|]. specialize (Hidx up eq_refl). change (l_idx des) with (l_idx to). lia.
    + pose proof Hab as (-> & _). apply empty_flush_Ok; [done|done|done|unfold des; cbn; lia|done|by apply Hlen].
  - apply partial_leveling_Ok; [done|done|done|done|by intros ->|done|unfold des; cbn; lia|unfold des; cbn; lia].
Qed.

Lemma level_ok_mono d d' idx lev ess : d ⊆ d' → level_ok d idx lev ess → level_ok d' idx lev ess.
Proof. intros Hsub (Hr & Hrest). split; [by eapply runs_mono|done]. Qed.

Lemma init_ok d idx size tier : 0 <= size < 2 ^ 31 → level_ok d idx (array_init size idx tier (new_filter size idx)) [].
Proof.
  intros Hs. split; [by apply init_runs|]. split; [|done]. cbn [l_filter array_init concat]. pose proof (Hfilter size idx) as Hf. destruct (new_filter size idx); [|done].
  split; [done|]. intros k Hk. by apply elem_of_nil in Hk.
Qed.

(** Replacing a level, when pages were added. *)
Lemma set_level_Ok t esss t' j lev ess : tree_ok t esss → extends t t' → (j < length esss)%nat → level_ok (dev t') (Z.of_nat j) lev ess → l_idx lev = Z.of_nat j → istier lev = false → size_ok (length (disk t)) j lev →
  tree_ok (set_level t' (Z.of_nat j) lev) (<[j:=ess]> esss).
Proof.
  intros [Hlen Hlev Hok Hsz Hfit] [Ed Hsub Hok'] Hj Hl Ei Et Hs. unfold set_level. rewrite Nat2Z.id. constructor; unfold LEVELN; cbn [set_disk disk dev]; rewrite ?length_insert, ?Ed; [done| |exact Hok'| |exact Hfit].
  2: { intros i lev'. destruct (decide (i = j)) as [->|]; [rewrite list_lookup_insert_eq by lia; by intros [= <-]|rewrite list_lookup_insert_ne by done; apply Hsz]. }
  intros i lev' ess'. destruct (decide (i = j)) as [->|Hne].
  - rewrite !list_lookup_insert_eq by lia. by intros [= <-] [= <-].
  - rewrite !list_lookup_insert_ne by done. intros H1 H2. destruct (Hlev i lev' ess' H1 H2) as (H3 & H4). split; [by eapply level_ok_mono|done].
Qed.

(** The level that a compaction takes away becomes empty. *)
Definition emptied (i : option nat) esss : list (list (list (str_key * Z))) := match i with Some i => <[i:=[]]> esss | None => esss end.
Definition from_at t esss (from : option level) (i : option nat) (j : nat) mem us : Prop :=
  match from, i with
  | Some up, Some i => (i < j)%nat ∧ disk t !! i = Some up ∧ ∃ ess, esss !! i = Some ess ∧ ess ≠ [] ∧ concat ess = us
  | None, None => above t None mem us ∧ (2 <= length us)%nat
  | _, _ => False
  end.

Lemma from_at_above t esss from (i : option nat) j mem us to : tree_ok t esss → from_at t esss from i j mem us → l_idx to = Z.of_nat j →
  above t from mem us ∧ (from = None → (2 <= length us)%nat) ∧ (∀ up, from = Some up → l_idx up < l_idx to).
Proof.
  intros [_ Hlev _ _ _] Hf Ej. destruct from as [up|], i as [i|]; try done; cbn in Hf.
  - destruct Hf as (Hij & Hup & ess & Hess & Hne & <-). destruct (Hlev i up ess Hup Hess) as (Hl & Ei & _). split; [exists ess; rewrite Ei; done|]. split; [done|].
    intros up' [= <-]. lia.
  - destruct Hf as [Hab Hlen]. by split.
Qed.

Lemma leveling_Ok t esss from to (i : option nat) j ess_o mem us : tree_ok t esss → disk t !! j = Some to → esss !! j = Some ess_o → from_at t esss from i j mem us →
  above_pages from + n_num to <= cap (Z.of_nat j) →
  ∃ t' ess, leveling LEVELCACHING junk jmem new_filter ppas size_factor t from to mem = Ok t' ∧ tree_ok t' (<[j:=ess]> (emptied i esss)) ∧
    level_map ess = list_to_map us ∪ level_map ess_o ∧ Z.of_nat (length ess) <= above_pages from + n_num to ∧ stale t' = stale t ++ hidden us (concat ess_o).
Proof.
  intros Ht Hto Hess Hf Hroom. pose proof Ht as [Hlen Hlev Hok Hsz _]. destruct (target_cnt_Ok t esss j to Ht Hto) as (n & En & [Hn1 Hn2] & Hns). destruct (Hlev j to ess_o Hto Hess) as (_ & Ej & _). pose proof (lookup_lt_Some _ _ _ Hess) as Hj.
  destruct (from_at_above _ _ _ _ _ _ _ _ Ht Hf Ej) as (Hab & Hl2 & Hidx).
  destruct (target_Ok t esss from to j ess_o mem us n Ht Hto Hess Hab Hl2 Hidx ltac:(lia) Hn2) as (t1 & target & E & [Hx Hst (ess & Hlo & Hn & Hmap) (Em & Ei & Et)]).
  unfold leveling, lsm_level_resizing. rewrite En. rbind. rewrite E. rbind. eexists _, ess. split; [done|]. split; [|split; [done|split; [done|by destruct from]]]. unfold level_change.
  change (l_idx (new_level new_filter n (l_idx to) false)) with (l_idx to) in Hlo, Ei. rewrite Ej in Hlo, Ei |- *.
  assert (Hts : size_ok (length (disk t)) j target) by (left; by rewrite Em).
  destruct from as [up|], i as [i|]; try done; cbn [from_at emptied] in *.
  - destruct Hf as (Hij & Hup & ess_u & Hess_u & _). destruct (Hlev i up ess_u Hup Hess_u) as ((Hru & _) & Eu & Etu). pose proof (rn_cap (St:=store_at _ _) _ _ Hru) as (Hc & Hcl & Hcm).
    pose proof (rn_num (St:=store_at _ _) _ _ Hru). rewrite Eu, Etu.
    assert (Hti : tree_ok (set_level t1 (Z.of_nat i) (new_level new_filter (m_num up) (Z.of_nat i) false)) (<[i:=[]]> esss)).
    { apply (set_level_Ok t); try done; [by eapply lookup_lt_Some|apply init_ok; lia|].
      destruct (Hsz i up Hup) as [Hs|[Hs _]]; [by left|right; by split]. }
    eapply set_level_Ok; [exact Hti|apply extends_refl, Hti|by rewrite length_insert|done|done|done|]. rewrite (tr_len _ _ Hti), length_insert, <-Hlen. exact Hts.
  - by apply (set_level_Ok t).
Qed.

(** *** Lookup *)

Lemma level_map_None ess k : k ∉ (concat ess).*1 → level_map ess !! k = None.
Proof. apply not_elem_of_list_to_map_1. Qed.

(** The filter of a level answers, and does not hide keys of the level. *)
Lemma filter_pass f ess k : filter_has f (concat ess) → key_wf k → ∃ v, bf_check f k = Ok v ∧ (v = false → level_map ess !! k = None).
Proof.
  destruct f as [b|]; [|by exists true]. intros [Hwf Hc] Hk. destruct (usable_check b k Hwf Hk) as [v E]. exists v. split; [done|]. intros ->.
  apply level_map_None. intros Hin. apply Hc in Hin. congruence.
Qed.

Definition addr_at (data : list Z) (off : Z) : res Z := l ← peek data off PPA_SIZE; le32_read l.

(** What a lookup from level [p] on finds. *)
Definition finds t esss k (p : nat) (f : found) : Prop :=
  match f with
  | NOTFOUND => content (maps (drop p esss)) !! k = None
  | CACHING data off _ => ∃ a, content (maps (drop p esss)) !! k = Some a ∧ addr_at data off = Ok a
  | FOUND r j => ∃ q ess data es, j = Z.of_nat q ∧ (p <= q)%nat ∧ esss !! q = Some ess ∧ content (maps (drop p esss)) !! k = content (maps (drop q esss)) !! k ∧
      dev t !! pbn r = Some data ∧ table data es ∧ sorted es ∧ (list_to_map es : gmap str_key Z) !! k = level_map ess !! k
  end.

Lemma content_drop esss p ess k : esss !! p = Some ess →
  content (maps (drop p esss)) !! k = match level_map ess !! k with Some a => Some a | None => content (maps (drop (S p) esss)) !! k end.
Proof.
  intros Hp. rewrite (drop_S _ _ _ Hp). cbn [maps fmap list_fmap content foldr]. rewrite lookup_union. by destruct (level_map ess !! k), (_ !! k).
Qed.

Lemma finds_skip t esss k p ess f : esss !! p = Some ess → level_map ess !! k = None → finds t esss k (S p) f → finds t esss k p f.
Proof.
  intros Hp Hn. pose proof (content_drop esss p ess k Hp) as E. rewrite Hn in E. destruct f as [data off j|r j|]; cbn; rewrite E; [done| |done].
  intros (q & ess' & data & es & -> & Hq & Hrest). exists q, ess', data, es. split; [done|]. split; [lia|done].
Qed.

Lemma find_run_from_Ok t esss k : tree_ok t esss → key_wf k → ∀ n p, (length esss - p = n)%nat → (p <= length esss)%nat →
  ∃ f, find_run_from LEVELCACHING false k (drop p (disk t)) (Z.of_nat p) = Ok f ∧ finds t esss k p f.
Proof.
  intros Ht Hk. pose proof Ht as [Hlen Hlev Hok]. induction n as [|n IH]; intros p Hn Hp.
  { rewrite drop_ge by lia. exists NOTFOUND. split; [done|]. cbn. by rewrite drop_ge by lia. }
  destruct (lookup_lt_is_Some_2 (disk t) p ltac:(lia)) as [lev Hl], (lookup_lt_is_Some_2 esss p ltac:(lia)) as [ess He].
  destruct (Hlev p lev ess Hl He) as ((Hr & Hfil & _) & _). rewrite (drop_S _ _ _ Hl). cbn [find_run_from]. rewrite andb_false_r.
  destruct (IH (S p) ltac:(lia) ltac:(lia)) as (f & Ef & Hf). replace (Z.of_nat p + 1) with (Z.of_nat (S p)) by lia.
  assert (Hskip : level_map ess !! k = None → ∃ f, find_run_from LEVELCACHING false k (drop (S p) (disk t)) (Z.of_nat (S p)) = Ok f ∧ finds t esss k p f).
  { intros Hnone. exists f. split; [done|]. by eapply finds_skip. }
  destruct (filter_pass _ _ k Hfil Hk) as (v & -> & Hv). rbind. destruct v; cbn [negb]; [|by apply Hskip, Hv].
  destruct (decide (ess = [])) as [->|Hne].
  { rewrite (find_run_none (St:=store_at _ _) _ _ Hr k eq_refl). rbind. by apply Hskip. }
  destruct (level_lookup (St:=store_at (dev t) (Z.of_nat p)) lev ess Hr k Hk Hne) as (e & r & data & es & -> & Er & Hd & Htb & Hs & Hmap). rbind. rewrite Er. rbind.
  unfold store_at in Hd. destruct (Z.of_nat p <? LEVELCACHING).
  - cbn in Hd. rewrite Hd. cbn [deref]. rbind. destruct (find_keyset_Ok data es k Htb Hs Hk) as (o & -> & Ho). rbind. rewrite Hmap in Ho. destruct o as [off|].
    + destruct Ho as (a & Ha & Hpk). eexists. split; [done|]. exists a. split; [|done]. rewrite (content_drop _ _ _ _ He). unfold level_map. by rewrite Ha.
    + by apply Hskip.
  - destruct Hd as [Hdev _]. eexists. split; [done|]. exists p, ess, data, es. done.
Qed.

Lemma get_from_Ok t esss k : tree_ok t esss → key_wf k → ∀ fuel p level run, (p = if run =? 0 then Z.to_nat level else S (Z.to_nat level)) → 0 <= level →
  (p <= length esss)%nat → (length esss - p < fuel)%nat →
  lsm_get_from LEVELCACHING fuel t k level run = Ok (content (maps (drop p esss)) !! k).
Proof.
  intros Ht Hk. induction fuel as [|fuel IH]; intros p level run Ep Hlevel Hp Hf; [lia|]. cbn [lsm_get_from]. unfold lsm_find_run.
  assert (El : (if run =? 0 then level else level + 1) = Z.of_nat p) by (destruct (run =? 0); lia). rewrite El, Nat2Z.id.
  destruct (find_run_from_Ok t esss k Ht Hk _ p eq_refl Hp) as (f & -> & Hfind). rbind. destruct f as [data off j|r j|]; cbn in Hfind.
  - destruct Hfind as (a & -> & Ha). unfold addr_at in Ha. destruct (peek data off PPA_SIZE) as [l|]; [|done]. revert Ha. rbind. intros ->. rbind. done.
  - destruct Hfind as (q & ess & data & es & -> & Hq & Hess & -> & -> & Htb & Hs & Hmap). cbn [deref]. rbind. pose proof (lookup_lt_Some _ _ _ Hess).
    destruct (find_keyset_Ok data es k Htb Hs Hk) as (o & -> & Ho). rbind. rewrite (content_drop _ _ _ _ Hess), <-Hmap. destruct o as [off|].
    + destruct Ho as (a & -> & Ha). destruct (peek data off PPA_SIZE) as [l|]; [|done]. revert Ha. rbind. intros ->. rbind. done.
    + rewrite Ho. apply IH; [cbn; lia|lia|lia|lia].
  - by rewrite Hfind.
Qed.

Lemma lsm_get_Ok t esss k : tree_ok t esss → key_wf k → __lsm_get LEVELCACHING t k = Ok (content (maps esss) !! k).
Proof.
  intros Ht Hk. unfold __lsm_get. rewrite (get_from_Ok t esss k Ht Hk _ 0 0 0); [by rewrite drop_0|done|done|lia|]. rewrite (tr_len _ _ Ht). lia.
Qed.

(** *** What compactions do to the content *)

(** Entries that go down past empty levels. *)
Lemma content_push (m : gmap str_key Z) ms j m' : ms !! j = Some m' → (∀ p x, (p < j)%nat → ms !! p = Some x → x = ∅) →
  content (<[j:=m ∪ m']> ms) = m ∪ content ms.
Proof.
  revert j. induction ms as [|m0 ms IH]; intros j Hj Hempty; [done|]. destruct j as [|j]; cbn in Hj |- *.
  - injection Hj as ->. by rewrite (assoc_L (∪)).
  - assert (m0 = ∅) as -> by (by apply (Hempty 0%nat); [lia|]). rewrite !(left_id_L ∅ (∪)). apply IH; [done|]. intros p x Hp Hx. apply (Hempty (S p)); [lia|done].
Qed.

Lemma content_move ms i j m m' : ms !! i = Some m → ms !! j = Some m' → (i < j)%nat → (∀ p x, (i < p < j)%nat → ms !! p = Some x → x = ∅) →
  content (<[j:=m ∪ m']> (<[i:=∅]> ms)) = content ms.
Proof.
  revert i j. induction ms as [|m0 ms IH]; intros i j Hi Hj Hij Hempty; [done|]. destruct j as [|j]; [lia|]. destruct i as [|i]; cbn in Hi, Hj |- *.
  - injection Hi as ->. rewrite (left_id_L ∅ (∪)). apply content_push; [done|]. intros p x Hp Hx. apply (Hempty (S p)); [lia|done].
  - f_equal. apply IH; [done|done|lia|]. intros p x Hp Hx. apply (Hempty (S p)); [lia|done].
Qed.

Lemma maps_lookup esss i ess : esss !! i = Some ess → maps esss !! i = Some (level_map ess).
Proof. intros H. unfold maps. by rewrite list_lookup_fmap, H. Qed.

Lemma maps_insert esss i ess : maps (<[i:=ess]> esss) = <[i:=level_map ess]> (maps esss).
Proof. apply list_fmap_insert. Qed.

(** A level goes to a lower one; the levels between are empty. *)
Lemma move_content esss i j ess_u ess_o ess : esss !! i = Some ess_u → esss !! j = Some ess_o → (i < j)%nat →
  (∀ p x, (i < p < j)%nat → esss !! p = Some x → x = []) → level_map ess = level_map ess_u ∪ level_map ess_o →
  content (maps (<[j:=ess]> (<[i:=[]]> esss))) = content (maps esss).
Proof.
  intros Hi Hj Hij Hempty Hmap. rewrite !maps_insert, Hmap. change (level_map []) with (∅ : gmap str_key Z). apply content_move; [by apply maps_lookup|by apply maps_lookup|done|].
  intros p x Hp Hx. unfold maps in Hx. rewrite list_lookup_fmap in Hx. destruct (esss !! p) as [y|] eqn:Ey; [|done]. injection Hx as <-. by rewrite (Hempty p y Hp Ey).
Qed.

(** ** Compactions one after another *)

(** Room for all of the level above, in level 0 for one run. *)
Definition slack (i : nat) ess : Prop := Z.of_nat (length ess) + cap (Z.of_nat i - 1) <= cap (Z.of_nat i).
Definition within (i : nat) ess : Prop := Z.of_nat (length ess) <= cap (Z.of_nat i).

Lemma slack_nil i : slack i [].
Proof. unfold slack. simpl. pose proof (cap_mono (Z.of_nat i)). lia. Qed.

Lemma slack_within i ess : slack i ess → within i ess.
Proof. unfold slack, within. pose proof (cap_pos (Z.of_nat i - 1)). lia. Qed.

Lemma get_level_Ok t i lev : disk t !! i = Some lev → get_level t (Z.of_nat i) = Ok lev.
Proof. intros H. unfold get_level. rewrite (proj2 (Z.ltb_ge _ _)), Nat2Z.id, H by lia. done. Qed.

(** One compaction between levels; it keeps the content when all levels between them are empty. *)
Lemma selector_moves t esss i j ess_u ess_o up to : tree_ok t esss → disk t !! i = Some up → esss !! i = Some ess_u → disk t !! j = Some to → esss !! j = Some ess_o →
  (i < j)%nat → ess_u ≠ [] → Z.of_nat (length ess_u) + Z.of_nat (length ess_o) <= cap (Z.of_nat j) →
  ∃ t' ess, compaction_selector LEVELCACHING junk jmem new_filter ppas size_factor t (Some up) to [] = Ok t' ∧ tree_ok t' (<[j:=ess]> (<[i:=[]]> esss)) ∧
    level_map ess = level_map ess_u ∪ level_map ess_o ∧ Z.of_nat (length ess) <= Z.of_nat (length ess_u) + Z.of_nat (length ess_o).
Proof.
  intros Ht Hup Hu Hto Ho Hij Hne Hroom. pose proof Ht as [_ Hlev _ _ _]. destruct (Hlev i up ess_u Hup Hu) as ((Hru & _) & _), (Hlev j to ess_o Hto Ho) as ((Hro & _) & Ej & Et).
  pose proof (rn_num (St:=store_at _ _) _ _ Hru) as Hnu. pose proof (rn_num (St:=store_at _ _) _ _ Hro) as Hno. unfold compaction_selector. rewrite Et.
  destruct (leveling_Ok t esss (Some up) to (Some i) j ess_o [] (concat ess_u) Ht Hto Ho) as (t' & ess & -> & Ht' & Hmap & Hlen & _);
    [cbn; split; [done|]; split; [done|]; by exists ess_u|cbn; lia|].
  exists t', ess. split; [done|]. split; [exact Ht'|]. split; [exact Hmap|]. cbn in Hlen. lia.
Qed.

Lemma selector_Ok t esss i j ess_u ess_o up to : tree_ok t esss → disk t !! i = Some up → esss !! i = Some ess_u → disk t !! j = Some to → esss !! j = Some ess_o →
  (i < j)%nat → (∀ p x, (i < p < j)%nat → esss !! p = Some x → x = []) → ess_u ≠ [] → Z.of_nat (length ess_u) + Z.of_nat (length ess_o) <= cap (Z.of_nat j) →
  ∃ t' ess, compaction_selector LEVELCACHING junk jmem new_filter ppas size_factor t (Some up) to [] = Ok t' ∧ tree_ok t' (<[j:=ess]> (<[i:=[]]> esss)) ∧
    content (maps (<[j:=ess]> (<[i:=[]]> esss))) = content (maps esss) ∧ Z.of_nat (length ess) <= Z.of_nat (length ess_u) + Z.of_nat (length ess_o).
Proof.
  intros Ht Hup Hu Hto Ho Hij Hempty Hne Hroom. destruct (selector_moves t esss i j ess_u ess_o up to Ht Hup Hu Hto Ho Hij Hne Hroom) as (t' & ess & E & Ht' & Hmap & Hlen).
  exists t', ess. split; [done|]. split; [done|]. split; [by eapply move_content|done].
Qed.

(** Every level is within its capacity, and has room if it is not the last one. *)
Definition bounded esss : Prop := ∀ i ess, esss !! i = Some ess → within i ess ∧ ((S i < length esss)%nat → slack i ess).

(** A level that is full is not empty, and one that is not full has room for the level above. *)
Lemma fchk_Ok (n : nat) i lev : (i < n)%nat → l_idx lev = Z.of_nat i → istier lev = false → size_ok n i lev →
  (def_fchk LEVELCACHING size_factor lev = true → 0 < n_num lev) ∧
  (def_fchk LEVELCACHING size_factor lev = false → (S i < n)%nat → n_num lev + cap (Z.of_nat i - 1) <= cap (Z.of_nat i)).
Proof.
  intros Hlt Ei Et Hsz. destruct (size_bounds n i lev Hlt Hsz) as [Hm Hm']. unfold def_fchk, array_get_numbers_run. rewrite Ei, Et. pose proof (cap_pos (Z.of_nat i - 1) ltac:(lia)) as Hp. pose proof (cap_succ (Z.of_nat i) ltac:(lia)) as Hs.
  assert (Hm3 : size_factor <= m_num lev) by nia. destruct (_ <? LEVELCACHING).
  - destruct (Z.eqb_spec (Z.of_nat i) 0) as [Hz|_].
    + split; [intros Hl%Z.leb_le; lia|]. intros Hl%Z.leb_gt Hi. specialize (Hm' Hi). replace (Z.of_nat i - 1) with (-1) in * by lia. rewrite cap_top in *. lia.
    + split; [intros Hl%Z.leb_le|intros Hl%Z.leb_gt Hi].
      * enough (1 <= m_num lev * (size_factor - 1) / size_factor) by lia. apply Z.div_le_lower_bound; nia.
      * rewrite (Hm' Hi), Hs in Hl. replace (size_factor * cap (Z.of_nat i - 1) * (size_factor - 1)) with (cap (Z.of_nat i - 1) * (size_factor - 1) * size_factor) in Hl by ring.
        rewrite Z.div_mul in Hl by lia. lia.
  - split; [intros [Hl%Z.leb_le|[_ Hl%Z.leb_le]%andb_prop]%orb_prop; nia|]. intros [Hl%Z.leb_gt _]%orb_false_elim Hi. rewrite (Hm' Hi) in Hl. nia.
Qed.

Lemma full_level t esss i lev ess : tree_ok t esss → disk t !! i = Some lev → esss !! i = Some ess →
  (def_fchk LEVELCACHING size_factor lev = true → ess ≠ []) ∧ (def_fchk LEVELCACHING size_factor lev = false → (S i < length esss)%nat → slack i ess).
Proof.
  intros Ht Hl He. destruct (tr_lev _ _ Ht i lev ess Hl He) as ((Hr & _) & Ei & Et). pose proof (rn_num (St:=store_at _ _) _ _ Hr) as Hn.
  destruct (fchk_Ok (length esss) i lev) as [H1 H2]; [by eapply lookup_lt_Some|done|done|rewrite <-(tr_len _ _ Ht); by apply (tr_size _ _ Ht)|]. split.
  - intros Hc%H1 ->. simpl in Hn. lia.
  - intros Hc Hi. specialize (H2 Hc Hi). unfold slack. lia.
Qed.

Lemma cascading_loop_Ok gc_opt gc_check fuel : ∀ t esss s ess gc, tree_ok t esss → esss !! s = Some ess → (gc = true → S s = length esss) → within s ess →
  (∀ i x, i ≠ s → esss !! i = Some x → slack i x) → (length esss - s < fuel)%nat →
  ∃ gc' t' esss', cascading_loop LEVELCACHING junk jmem new_filter ppas size_factor fuel t (Z.of_nat s) gc_opt gc_check gc = Ok (gc', t') ∧
    tree_ok t' esss' ∧ content (maps esss') = content (maps esss) ∧ length esss' = length esss ∧ bounded esss'.
Proof.
  induction fuel as [|fuel IH]; intros t esss s ess gc Ht Hs Hgc Hw Hsl Hf; [lia|]. cbn [cascading_loop]. pose proof (lookup_lt_Some _ _ _ Hs) as Hlt. pose proof (tr_len _ _ Ht) as Hlen.
  destruct (lookup_lt_is_Some_2 (disk t) s ltac:(lia)) as [lev Hlev]. destruct (full_level t esss s lev ess Ht Hlev Hs) as [Hfl Hnf].
  assert (Hall : (S s < length esss)%nat → slack s ess → bounded esss).
  { intros _ Hss i x Hx. assert (slack i x) by (destruct (decide (i = s)) as [->|]; [congruence|by apply Hsl]). by split; [apply slack_within|]. }
  assert (Hlast : S s = length esss → bounded esss).
  { intros He i x Hx. destruct (decide (i = s)) as [->|]; [|by split; [apply slack_within|]; auto]. split; [congruence|lia]. }
  assert (Hfc : ∃ full, (if gc then Ok true else lev ← get_level t (Z.of_nat s); Ok (def_fchk LEVELCACHING size_factor lev)) = Ok full ∧ (full = false → (S s < length esss)%nat → slack s ess) ∧ (full = true → S s = length esss ∨ ess ≠ [] ∧ gc = false)).
  { destruct gc; [exists true; split; [done|]; split; [done|]; left; by apply Hgc|]. rewrite (get_level_Ok t s lev Hlev). rbind. exists (def_fchk LEVELCACHING size_factor lev). split; [done|]. split; [done|]. intros E. right. by split; [apply Hfl|]. }
  destruct Hfc as (full & -> & Hff & Hft). rbind. destruct full.
  2: { exists gc, t, esss. split; [done|]. split; [done|]. split; [done|]. split; [done|]. destruct (decide (S s = length esss)); [by apply Hlast|apply Hall; [lia|apply Hff; [done|lia]]]. }
  unfold LEVELN. rewrite (proj2 (Z.eqb_neq (Z.of_nat s) _)) by lia. destruct (Z.eqb_spec (Z.of_nat s + 1) (Z.of_nat (length (disk t)))) as [He|Hne].
  { exists gc, t, esss. split; [done|]. split; [done|]. split; [done|]. split; [done|]. apply Hlast. lia. }
  destruct (Hft eq_refl) as [|[Hnemp ->]]; [lia|]. rewrite (get_level_Ok t s lev Hlev). rbind.
  destruct (lookup_lt_is_Some_2 (disk t) (S s) ltac:(lia)) as [to Hto], (lookup_lt_is_Some_2 esss (S s) ltac:(lia)) as [ess_o Ho].
  replace (Z.of_nat s + 1) with (Z.of_nat (S s)) by lia. rewrite (get_level_Ok t (S s) to Hto). rbind. pose proof (Hsl (S s) ess_o ltac:(lia) Ho) as Hso.
  assert (Hroom : Z.of_nat (length ess) + Z.of_nat (length ess_o) <= cap (Z.of_nat (S s))).
  { unfold slack, within in *. replace (Z.of_nat (S s) - 1) with (Z.of_nat s) in Hso by lia. lia. }
  destruct (selector_Ok t esss s (S s) ess ess_o lev to Ht Hlev Hs Hto Ho) as (t' & ess' & -> & Ht' & Hc & Hn); [lia|intros p x Hp; lia|done|done|]. rbind.
  set (esss' := <[S s:=ess']> (<[s:=[]]> esss)) in *. assert (Hlen' : length esss' = length esss) by (unfold esss'; by rewrite !length_insert).
  destruct (IH t' esss' (S s) ess' (if (Z.of_nat s =? Z.of_nat (length (disk t)) - 2) && (gc_opt && negb false) then gc_check else false) Ht') as (gc' & t2 & esss2 & E & Ht2 & Hc2 & Hl2 & Hb2).
  - unfold esss'. rewrite list_lookup_insert_eq; [done|]. rewrite length_insert. lia.
  - destruct (Z.eqb_spec (Z.of_nat s) (Z.of_nat (length (disk t)) - 2)); cbn [andb]; [intros _; lia|done].
  - unfold within. lia.
  - intros i x Hi. unfold esss'. rewrite list_lookup_insert_ne by done. destruct (decide (i = s)) as [->|]; [rewrite list_lookup_insert_eq by lia; intros [= <-]; apply slack_nil|].
    rewrite list_lookup_insert_ne by done. by apply Hsl.
  - lia.
  - exists gc', t2, esss2. split; [exact E|]. split; [done|]. split; [congruence|]. split; [congruence|done].
Qed.

(** *** Requests *)

(** A memtable that can be flushed, and a last level that has room for the one above. *)
Definition memtable mem : Prop := fits mem ∧ sorted mem ∧ Forall fam mem ∧ Forall proper mem ∧ (2 <= length mem)%nat.
Definition last_room t : Prop := ∀ lev, last (disk t) = Some lev → n_num lev + cap (LEVELN t - 2) <= cap (LEVELN t - 1).

Lemma bounded_slack t esss : tree_ok t esss → bounded esss → last_room t → ∀ i ess, esss !! i = Some ess → slack i ess.
Proof.
  intros Ht Hb Hlr i ess He. destruct (decide (S i < length esss)%nat) as [Hlt|Hge]; [by apply (Hb i ess He)|]. pose proof (lookup_lt_Some _ _ _ He) as Hi. pose proof (tr_len _ _ Ht) as Hlen.
  destruct (lookup_lt_is_Some_2 (disk t) i ltac:(lia)) as [lev Hl]. destruct (tr_lev _ _ Ht i lev ess Hl He) as ((Hr & _) & _). pose proof (rn_num (St:=store_at _ _) _ _ Hr) as Hn.
  specialize (Hlr lev). unfold LEVELN in Hlr. rewrite last_lookup in Hlr. replace (pred (length (disk t))) with i in Hlr by lia. specialize (Hlr Hl). unfold slack.
  replace (Z.of_nat (length (disk t)) - 2) with (Z.of_nat i - 1) in Hlr by lia. replace (Z.of_nat (length (disk t)) - 1) with (Z.of_nat i) in Hlr by lia. lia.
Qed.

Lemma flush_Ok t esss mem lev ess : tree_ok t esss → memtable mem → disk t !! 0%nat = Some lev → esss !! 0%nat = Some ess → slack 0 ess →
  ∃ t' ess', compaction_selector LEVELCACHING junk jmem new_filter ppas size_factor t None lev mem = Ok t' ∧ tree_ok t' (<[0%nat:=ess']> esss) ∧ within 0 ess' ∧
    content (maps (<[0%nat:=ess']> esss)) = list_to_map mem ∪ content (maps esss) ∧ stale t' = stale t ++ hidden mem (concat ess) ∧
    level_map ess' = list_to_map mem ∪ level_map ess ∧ Z.of_nat (length ess') <= 1 + Z.of_nat (length ess).
Proof.
  intros Ht (Hfit & Hs & Hf & Hp & Hlen) Hl He Hsl. destruct (tr_lev _ _ Ht 0%nat lev ess Hl He) as ((Hr & _) & Ei & Et). pose proof (rn_num (St:=store_at _ _) _ _ Hr) as Hn.
  unfold slack in Hsl. change (Z.of_nat 0 - 1) with (-1) in Hsl. rewrite cap_top in Hsl. unfold compaction_selector. rewrite Et.
  destruct (leveling_Ok t esss None lev None 0 ess mem mem Ht Hl He) as (t' & ess' & -> & Ht' & Hmap & Hlen' & Hst);
    [cbn; split; [|done]; split; [done|]; split; [by intros ->; simpl in Hlen; lia|done]|cbn; lia|]. cbn [above_pages emptied] in *.
  exists t', ess'. split; [done|]. split; [done|]. split; [unfold within; lia|]. split; [|split; [done|split; [done|lia]]]. destruct esss as [|e0 esss]; [done|]. injection He as ->. cbn [list_insert maps fmap list_fmap content foldr].
  change (level_map ess' ∪ content (maps esss) = list_to_map mem ∪ (level_map ess ∪ content (maps esss))). by rewrite Hmap, (assoc_L (∪)).
Qed.

Lemma request_Ok t esss mem gc_opt gc_check : tree_ok t esss → bounded esss → last_room t → esss ≠ [] → memtable mem →
  ∃ gc t' esss', compaction_request LEVELCACHING junk jmem new_filter ppas size_factor t mem gc_opt gc_check = Ok (gc, t') ∧ tree_ok t' esss' ∧
    content (maps esss') = list_to_map mem ∪ content (maps esss) ∧ length esss' = length esss ∧ bounded esss'.
Proof.
  intros Ht Hb Hlr Hne Hmem. pose proof (tr_len _ _ Ht) as Hlen. assert (length esss ≠ 0%nat) by (by intros ?%nil_length_inv).
  destruct (lookup_lt_is_Some_2 (disk t) 0 ltac:(lia)) as [lev Hl], (lookup_lt_is_Some_2 esss 0 ltac:(lia)) as [ess He]. pose proof (bounded_slack t esss Ht Hb Hlr) as Hsl.
  unfold compaction_request. pose proof (get_level_Ok t 0 lev Hl) as El. change (Z.of_nat 0) with 0 in El. rewrite El. rbind.
  destruct (flush_Ok t esss mem lev ess Ht Hmem Hl He (Hsl _ _ He)) as (t1 & ess' & -> & Ht1 & Hw & Hc & _). rbind. set (esss1 := <[0%nat:=ess']> esss) in *.
  assert (Hlen1 : length esss1 = length esss) by apply length_insert. assert (He1 : esss1 !! 0%nat = Some ess') by (apply list_lookup_insert_eq; lia).
  assert (Hsl1 : ∀ i x, i ≠ 0%nat → esss1 !! i = Some x → slack i x) by (intros i x Hi; unfold esss1; rewrite list_lookup_insert_ne by done; apply Hsl).
  unfold LEVELN. rewrite (tr_len _ _ Ht1), Hlen1. destruct (Z.eqb_spec (Z.of_nat (length esss)) 1) as [H1|H1]; cbn [negb].
  - exists false, t1, esss1. split; [done|]. split; [done|]. split; [done|]. split; [done|]. intros i x Hx. assert (i = 0%nat) as -> by (pose proof (lookup_lt_Some _ _ _ Hx); lia).
    split; [congruence|lia].
  - unfold compaction_cascading. destruct (cascading_loop_Ok gc_opt gc_check (S (length (disk t1))) t1 esss1 0 ess' false Ht1 He1) as (gc & t2 & esss2 & E & Ht2 & Hc2 & Hl2 & Hb2);
      [done|done|done|rewrite (tr_len _ _ Ht1); lia|]. exists gc, t2, esss2. split; [exact E|]. split; [done|]. split; [congruence|]. split; [congruence|done].
Qed.

(** *** Forced compaction *)

Lemma force_loop_Ok fuel : ∀ t esss (n : nat), tree_ok t esss → bounded esss → last_room t → (n < length esss)%nat → (n <= fuel)%nat →
  (∀ p x, (n <= p)%nat → (S p < length esss)%nat → esss !! p = Some x → x = []) →
  ∃ b t' esss', force_loop LEVELCACHING junk jmem new_filter ppas size_factor fuel t (Z.of_nat n - 1) = Ok (b, t') ∧ tree_ok t' esss' ∧
    content (maps esss') = content (maps esss) ∧ length esss' = length esss ∧ bounded esss'.
Proof.
  induction fuel as [|fuel IH]; intros t esss n Ht Hb Hlr Hn Hf Hempty; cbn [force_loop]; [exists false, t, esss; by assert (n = 0%nat) as -> by lia|].
  destruct n as [|i]; [exists false, t, esss; done|]. replace (Z.of_nat (S i) - 1) with (Z.of_nat i) by lia. rewrite (proj2 (Z.leb_le _ _)) by lia. pose proof (tr_len _ _ Ht) as Hlen.
  destruct (lookup_lt_is_Some_2 (disk t) i ltac:(lia)) as [lev Hl], (lookup_lt_is_Some_2 esss i ltac:(lia)) as [ess He]. rewrite (get_level_Ok t i lev Hl). rbind.
  destruct (tr_lev _ _ Ht i lev ess Hl He) as ((Hr & _) & _). pose proof (rn_num (St:=store_at _ _) _ _ Hr) as Hnum.
  destruct (Z.eqb_spec (n_num lev) 0) as [Hz|Hnz]; cbn [negb].
  - assert (ess = []) as -> by (apply nil_length_inv; lia). apply IH; try done; [lia|lia|]. intros p x Hp Hp2 Hx. destruct (decide (p = i)) as [->|]; [congruence|]. apply (Hempty p x); [lia|done|done].
  - set (j := (length esss - 1)%nat). destruct (lookup_lt_is_Some_2 (disk t) j ltac:(lia)) as [to Hto], (lookup_lt_is_Some_2 esss j ltac:(lia)) as [ess_o Ho].
    unfold LEVELN. replace (Z.of_nat (length (disk t)) - 1) with (Z.of_nat j) by lia. rewrite (get_level_Ok t j to Hto). rbind.
    pose proof (bounded_slack t esss Ht Hb Hlr j ess_o Ho) as Hso. pose proof (proj1 (Hb i ess He)) as Hwi. unfold slack, within in *.
    pose proof (cap_le (Z.of_nat i) (Z.of_nat j - 1 - Z.of_nat i) ltac:(lia) ltac:(lia)) as Hcap. replace (Z.of_nat i + (Z.of_nat j - 1 - Z.of_nat i)) with (Z.of_nat j - 1) in Hcap by lia.
    destruct (selector_Ok t esss i j ess ess_o lev to Ht Hl He Hto Ho) as (t' & ess' & -> & Ht' & Hc & Hn'); [lia|intros p x Hp Hx; apply (Hempty p x); [lia|lia|done]|intros ->; simpl in Hnum; lia|lia|]. rbind.
    set (esss' := <[j:=ess']> (<[i:=[]]> esss)) in *. assert (Hlen' : length esss' = length esss) by (unfold esss'; by rewrite !length_insert).
    exists true, t', esss'. split; [done|]. split; [done|]. split; [done|]. split; [done|]. intros p x. rewrite Hlen'. unfold esss'. destruct (decide (p = j)) as [->|].
    + rewrite list_lookup_insert_eq by (rewrite length_insert; lia). intros [= <-]. unfold within. split; lia.
    + rewrite list_lookup_insert_ne by done. destruct (decide (p = i)) as [->|]; [|rewrite list_lookup_insert_ne by done; by apply Hb].
      rewrite list_lookup_insert_eq by lia. intros [= <-]. split; [apply slack_within|]; intros; apply slack_nil.
Qed.

Lemma force_Ok t esss : tree_ok t esss → bounded esss → last_room t → esss ≠ [] →
  ∃ b t' esss', compaction_force LEVELCACHING junk jmem new_filter ppas size_factor t = Ok (b, t') ∧ tree_ok t' esss' ∧
    content (maps esss') = content (maps esss) ∧ length esss' = length esss ∧ bounded esss'.
Proof.
  intros Ht Hb Hlr Hne. assert (length esss ≠ 0%nat) by (by intros ?%nil_length_inv). unfold compaction_force, LEVELN. pose proof (tr_len _ _ Ht) as Hlen. rewrite Hlen.
  replace (Z.of_nat (length esss) - 2) with (Z.of_nat (length esss - 1) - 1) by lia. apply force_loop_Ok; [done|done|done|lia|lia|]. intros p x Hp Hp2. lia.
Qed.

(** ** The tree as a map *)

(** The states of a tree and the map it stands for: requests put memtables over it,
    forced compactions do not change it. *)
Inductive reachable : tree → gmap str_key Z → Prop :=
| reach_new n : (2 <= n)%nat → (size_factor + 2) * size_factor ^ (Z.of_nat n - 1) <= 2 ^ 24 → reachable (new_tree new_filter size_factor n) ∅
| reach_request t m mem gc_opt gc_check gc t' : reachable t m → memtable mem → last_room t →
    compaction_request LEVELCACHING junk jmem new_filter ppas size_factor t mem gc_opt gc_check = Ok (gc, t') → reachable t' (list_to_map mem ∪ m)
| reach_force t m b t' : reachable t m → last_room t → compaction_force LEVELCACHING junk jmem new_filter ppas size_factor t = Ok (b, t') → reachable t' m.

Lemma new_levels_Ok n : ∀ j, 0 <= j → new_levels new_filter size_factor n j (cap j) = (λ p, new_level new_filter (cap p) p false) <$> seqZ j (Z.of_nat n).
Proof.
  induction n as [|n IH]; intros j Hj; [done|]. rewrite seqZ_cons by lia. replace (Z.pred (Z.of_nat (S n))) with (Z.of_nat n) by lia. cbn [fmap list_fmap]. destruct n as [|n].
  - cbn [new_levels]. rewrite seqZ_nil by lia. f_equal. f_equal. rewrite (cap_succ j Hj), (Z.mul_comm size_factor), Z.div_mul by lia. lia.
  - change (new_levels new_filter size_factor (S (S n)) j (cap j)) with (new_level new_filter (cap j) j false :: new_levels new_filter size_factor (S n) (j + 1) (cap j * size_factor)).
    rewrite <-IH by lia. replace (Z.succ j) with (j + 1) by lia. rewrite (cap_succ (j + 1)) by lia. replace (j + 1 - 1) with j by lia. by rewrite Z.mul_comm.
Qed.

Lemma new_tree_disk n : disk (new_tree new_filter size_factor n) = (λ p, new_level new_filter (cap p) p false) <$> seqZ 0 (Z.of_nat n).
Proof. rewrite <-new_levels_Ok by lia. cbn [new_tree disk]. f_equal. unfold cap. by rewrite Z.pow_1_r. Qed.

Lemma empty_content n : content (maps (replicate n [])) = ∅.
Proof. induction n as [|n IH]; [done|]. change (level_map [] ∪ content (maps (replicate n [])) = ∅). by rewrite IH. Qed.

Lemma new_tree_Ok n : (2 <= n)%nat → (size_factor + 2) * size_factor ^ (Z.of_nat n - 1) <= 2 ^ 24 →
  tree_ok (new_tree new_filter size_factor n) (replicate n []) ∧ bounded (replicate n []).
Proof.
  intros Hn Hfit. assert (Hlev : ∀ i lev, disk (new_tree new_filter size_factor n) !! i = Some lev → (i < n)%nat ∧ lev = new_level new_filter (cap (Z.of_nat i)) (Z.of_nat i) false).
  { intros i lev. rewrite new_tree_disk, list_lookup_fmap. destruct (seqZ 0 (Z.of_nat n) !! i) as [p|] eqn:E; [|done]. apply lookup_seqZ in E as [-> Hi]. intros [= <-]. split; [lia|done]. }
  assert (Hlen : length (disk (new_tree new_filter size_factor n)) = n) by (rewrite new_tree_disk, length_fmap, length_seqZ; lia). split.
  - constructor; [by rewrite length_replicate| |intros a x; cbn [dev new_tree]; by rewrite lookup_empty| |unfold LEVELN; by rewrite Hlen].
    + intros i lev ess [Hi ->]%Hlev [-> _]%lookup_replicate_1. split; [|done]. apply init_ok. pose proof (cap_pos (Z.of_nat i) ltac:(lia)).
      pose proof (cap_le (Z.of_nat i) (Z.of_nat n - 1 - Z.of_nat i) ltac:(lia) ltac:(lia)) as Hle. replace (Z.of_nat i + (Z.of_nat n - 1 - Z.of_nat i)) with (Z.of_nat n - 1) in Hle by lia.
      rewrite (cap_succ (Z.of_nat n - 1)) in Hle by lia. unfold cap in Hle at 2. replace (Z.of_nat n - 1 - 1 + 1) with (Z.of_nat n - 1) in Hle by lia.
      pose proof (Z.pow_pos_nonneg size_factor (Z.of_nat n - 1) ltac:(lia) ltac:(lia)). lia.
    + intros i lev [Hi ->]%Hlev. by right.
  - intros i ess [-> _]%lookup_replicate_1. split; [apply slack_within|]; intros; apply slack_nil.
Qed.

Lemma reachable_Ok t m : reachable t m → ∃ esss, tree_ok t esss ∧ bounded esss ∧ esss ≠ [] ∧ content (maps esss) = m.
Proof.
  assert (Hlen : ∀ a b : list (list (list (str_key * Z))), a ≠ [] → length b = length a → b ≠ []) by (intros a b Ha Hab ->; destruct a; done).
  induction 1 as [n Hn Hfit|t m mem gc_opt gc_check gc t' _ (esss & Ht & Hb & Hne & Hc) Hmem Hlr E|t m b t' _ (esss & Ht & Hb & Hne & Hc) Hlr E].
  - destruct (new_tree_Ok n Hn Hfit) as (H1 & H2). eexists. split; [done|]. split; [done|]. split; [destruct n; [lia|done]|apply empty_content].
  - destruct (request_Ok t esss mem gc_opt gc_check Ht Hb Hlr Hne Hmem) as (gc2 & t2 & esss2 & E2 & Ht2 & Hc2 & Hl2 & Hb2). rewrite E in E2. injection E2 as <- <-.
    exists esss2. split; [done|]. split; [done|]. split; [by eapply Hlen|congruence].
  - destruct (force_Ok t esss Ht Hb Hlr Hne) as (b2 & t2 & esss2 & E2 & Ht2 & Hc2 & Hl2 & Hb2). rewrite E in E2. injection E2 as <- <-.
    exists esss2. split; [done|]. split; [done|]. split; [by eapply Hlen|congruence].
Qed.

(** C2: under the conditions named here the LSM-tree is a finite map. The conditions are
    those of [reachable]: all keys are of one [Tight] family, as the keys of one length
    between 11 and 254 bytes that pass [KEYVALCHECK] ([same_length]); every memtable fits
    into one page and has at least two entries (one entry faults, [one_entry_flush]);
    before each step the last level has room for as many runs as a full level above it
    ([last_room]); and the steps are requests of [compaction_main] and [compaction_force],
    not [compaction_force_levels], which loses versions (at the end of this section). Then, whichever levels are in memory, a lookup returns
    for each key the address of its newest version and nothing for the other keys; and
    with [last_room] a flush of such a memtable with its compactions, or [compaction_force],
    ends without a fault and leaves the map with the entries of the memtable over the
    old ones, or the same map. *)
Theorem lsm_tree_is_a_map t m : reachable t m →
  (∀ k, key_wf k → __lsm_get LEVELCACHING t k = Ok (m !! k)) ∧
  (last_room t → ∀ mem gc_opt gc_check, memtable mem →
    ∃ gc t', compaction_request LEVELCACHING junk jmem new_filter ppas size_factor t mem gc_opt gc_check = Ok (gc, t') ∧ reachable t' (list_to_map mem ∪ m)) ∧
  (last_room t → ∃ b t', compaction_force LEVELCACHING junk jmem new_filter ppas size_factor t = Ok (b, t') ∧ reachable t' m).
Proof.
  intros Hreach. destruct (reachable_Ok t m Hreach) as (esss & Ht & Hb & Hne & Hc). split; [intros k Hk; rewrite (lsm_get_Ok t esss k Ht Hk); by rewrite Hc|]. split.
  - intros Hlr mem gc_opt gc_check Hmem. destruct (request_Ok t esss mem gc_opt gc_check Ht Hb Hlr Hne Hmem) as (gc & t' & _ & E & _). exists gc, t'. split; [done|]. by eapply reach_request.
  - intros Hlr. destruct (force_Ok t esss Ht Hb Hlr Hne) as (b & t' & _ & E & _). exists b, t'. split; [done|]. by eapply reach_force.
Qed.

(** C10: the levels of the tree stay well formed. In every state that flushes and
    compactions can reach, level [i] has the index [i], at most as many runs as it has
    places, and its runs are in the order that [array_check_order] aborts without,
    also in the levels in memory, which it leaves out. A level above the last one keeps
    the size [size_factor ^ (i + 1)] it was made with; the last one has that size only
    while it is empty, and [lsm_level_resizing] gives it [(size_factor + 2) *
    size_factor ^ i] with the first compaction into it. The states are those of
    [reachable]: keys of one [Tight] family, memtables of at least two entries that fit into
    a page, room in the last level before each step, no [compaction_force_levels]. *)
Theorem lsm_levels_stay_well_formed t m i lev : reachable t m → disk t !! i = Some lev →
  l_idx lev = Z.of_nat i ∧ istier lev = false ∧ 0 <= n_num lev <= m_num lev ∧ array_check_order 0 lev = Ok tt ∧
  (Z.of_nat i < LEVELN t - 1 → m_num lev = size_factor ^ (Z.of_nat i + 1)) ∧
  (Z.of_nat i = LEVELN t - 1 → (n_num lev = 0 ∧ m_num lev = size_factor ^ (Z.of_nat i + 1)) ∨ m_num lev = (size_factor + 2) * size_factor ^ Z.of_nat i).
Proof.
  intros Hreach Hl. destruct (reachable_Ok t m Hreach) as (esss & Ht & _). pose proof (lookup_lt_Some _ _ _ Hl) as Hi.
  destruct (lookup_lt_is_Some_2 esss i) as [ess He]; [by rewrite <-(tr_len _ _ Ht)|]. destruct (tr_lev _ _ Ht i lev ess Hl He) as ((Hr & _) & Ei & Et).
  pose proof (tr_size _ _ Ht i lev Hl) as Hs. pose proof (rn_num (St:=store_at _ _) _ _ Hr) as Hn. pose proof (rn_cap (St:=store_at _ _) _ _ Hr) as (Hc & _).
  split; [done|]. split; [done|]. split; [lia|]. split; [by apply (check_order_Ok (St:=store_at (dev t) (Z.of_nat i)) lev ess)|]. unfold LEVELN. split.
  - intros Hlt. apply (size_bounds _ _ _ Hi Hs). lia.
  - intros Heq. destruct Hs as [[_ Hs]|[Hm Hz]]; [right|by left]. rewrite Hs by lia. unfold cap. by replace (Z.of_nat i - 1 + 1) with (Z.of_nat i) by lia.
Qed.

(** ** Forced compactions out of order *)

(** The first level that has a key gives its address. *)
Lemma content_first ms i m k v : (∀ p x, (p < i)%nat → ms !! p = Some x → x !! k = None) → ms !! i = Some m → m !! k = Some v → content ms !! k = Some v.
Proof.
  revert i. induction ms as [|m0 ms IH]; intros i Habove Hi Hv; [done|]. change (content (m0 :: ms)) with (m0 ∪ content ms). destruct i as [|i].
  - injection Hi as ->. by apply lookup_union_Some_l.
  - rewrite lookup_union_r by (apply (Habove 0%nat); [lia|done]). apply (IH i); [|done|done]. intros p x Hp. apply (Habove (S p)). lia.
Qed.

Lemma most_runs_found (ls : list level) : ∀ j mx target, Forall (λ lev, n_num lev <= mx) ls → most_runs ls j mx target = (mx, target).
Proof.
  induction ls as [|lev ls IH]; intros j mx target Hall; [done|]. inversion_clear Hall as [|? ? Hl Hls]. cbn [most_runs]. unfold array_get_numbers_run.
  rewrite (proj2 (Z.ltb_ge _ _)) by done. by apply IH.
Qed.

(** Level [i] has the most runs, and is the first one of these. *)
Definition most (ls : list level) (i : nat) lev : Prop := ls !! i = Some lev ∧ ∀ p x, ls !! p = Some x → n_num x <= n_num lev ∧ ((p < i)%nat → n_num x < n_num lev).

Lemma most_runs_Ok (ls : list level) lev : ∀ i j mx target, most ls i lev → mx < n_num lev → most_runs ls j mx target = (n_num lev, j + Z.of_nat i).
Proof.
  induction ls as [|l0 ls IH]; intros i j mx target [Hi Hmost] Hmx; [done|]. cbn [most_runs]. unfold array_get_numbers_run. destruct i as [|i].
  - injection Hi as ->. rewrite (proj2 (Z.ltb_lt _ _)), most_runs_found, Z.add_0_r by (done || (apply Forall_lookup; intros p x Hx; apply (Hmost (S p) x Hx))). done.
  - assert (Hrest : most ls i lev) by (split; [exact Hi|]; intros p x Hx; destruct (Hmost (S p) x Hx) as [H1 H2]; split; [done|]; intros Hp; apply H2; lia).
    pose proof (proj2 (Hmost 0%nat l0 eq_refl) ltac:(lia)). destruct (mx <? n_num l0); rewrite (IH i) by done; f_equal; lia.
Qed.

(** What [compaction_force_levels] does to the levels. *)
Lemma force_levels_moves t esss i lev ess ess_o : tree_ok t esss → let j := (length esss - 1)%nat in
  (i < j)%nat → esss !! i = Some ess → esss !! j = Some ess_o → most (take j (disk t)) i lev → ess ≠ [] → Z.of_nat (length ess) + Z.of_nat (length ess_o) <= cap (Z.of_nat j) →
  ∃ t' ess', compaction_force_levels LEVELCACHING junk jmem new_filter ppas size_factor 1 t = Ok (true, t') ∧ tree_ok t' (<[j:=ess']> (<[i:=[]]> esss)) ∧
    level_map ess' = level_map ess ∪ level_map ess_o.
Proof.
  intros Ht j Hij He Ho Hmost Hne Hroom. pose proof (tr_len _ _ Ht) as Hlen. destruct (lookup_lt_is_Some_2 (disk t) j ltac:(lia)) as [to Hto].
  assert (Hl : disk t !! i = Some lev) by (destruct Hmost as [Hi _]; by rewrite lookup_take_lt in Hi by lia).
  destruct (tr_lev _ _ Ht i lev ess Hl He) as ((Hr & _) & _). pose proof (rn_num (St:=store_at _ _) _ _ Hr) as Hn. assert (length ess ≠ 0%nat) by (by intros ?%nil_length_inv).
  cbn [compaction_force_levels]. rewrite Hlen, (most_runs_Ok _ lev i) by (done || lia). rewrite (proj2 (Z.eqb_neq _ _)) by lia. cbn [negb]. rewrite Z.add_0_l, (get_level_Ok t i lev Hl). rbind.
  unfold LEVELN. rewrite Hlen. replace (Z.of_nat (length esss) - 1) with (Z.of_nat j) by lia. rewrite (get_level_Ok t j to Hto). rbind.
  destruct (selector_moves t esss i j ess ess_o lev to Ht Hl He Hto Ho Hij Hne Hroom) as (t' & ess' & -> & Ht' & Hmap & _). rbind. by exists t', ess'.
Qed.


End proofs.

(** ** A tree of three levels, the first one in memory *)

Definition sample_new : tree := new_tree (λ _ _, None) 4 3.
Definition sample_request (LC : Z) t mem : res (bool * tree) :=
  compaction_request LC (λ _, sample_page) sample_page (λ _ _, None) Z.of_nat 4 t mem false false.

Lemma sample_request_eq LC t mem : sample_request LC t mem = compaction_request LC (λ _, sample_page) sample_page (λ _ _, None) Z.of_nat 4 t mem false false.
Proof. reflexivity. Qed.
Lemma factor_4 : 3 <= 4.
Proof. lia. Qed.
Lemma sample_fits : (4 + 2) * 4 ^ (Z.of_nat 3 - 1) <= 2 ^ 24.
Proof. vm_compute. discriminate. Qed.

Lemma same_length_12 : 0 < 12 + 4 <= 7168.
Proof. lia. Qed.
Definition twelve : Family := same_length 12 same_length_12.

Lemma sample_memtable : memtable (F:=twelve) sample_mem.
Proof.
  destruct (sample_wf sample_mem ltac:(by left)) as (Hg & Hf & Hs). split; [exact Hf|]. split; [exact Hs|]. split; [|split; [exact sample_proper|simpl; lia]].
  apply Forall_forall. intros e He. rewrite Forall_forall in Hg. split; [by apply Hg|]. apply elem_of_cons in He as [->|[->|He%elem_of_nil]%elem_of_cons]; done.
Qed.

Lemma lsm_tree_is_a_map_witness : ∃ gc t', sample_request 1 sample_new sample_mem = Ok (gc, t') ∧ __lsm_get 1 t' (sample_key 1) = Ok (Some 10) ∧ __lsm_get 1 t' (sample_key 3) = Ok None.
Proof.
  set (thm := lsm_tree_is_a_map (F:=twelve) 1 (λ _, sample_page) sample_page (λ _ _, None) Z.of_nat
    (λ _, eq_refl : Z.of_nat (length sample_page) = PAGESIZE) (eq_refl : Z.of_nat (length sample_page) = PAGESIZE) (λ _ _, I) Nat2Z.inj
    4 factor_4).
  destruct (thm sample_new ∅) as (_ & Hreq & _); [apply reach_new; [lia|exact sample_fits]|].
  destruct (Hreq ltac:(intros lev [= <-]; vm_compute; discriminate) sample_mem false false sample_memtable) as (gc & t' & E & Hreach).
  exists gc, t'. split; [exact E|]. destruct (thm t' _ Hreach) as (Hget & _). split.
  - rewrite Hget; [vm_compute; reflexivity|apply (sample_good 1 0); lia].
  - rewrite Hget; [vm_compute; reflexivity|apply (sample_good 3 0); lia].
Defined.

Lemma sample_after : match sample_request 1 sample_new sample_mem with Ok (_, t) => n_num <$> disk t = [1; 0; 0] | Err _ => False end.
Proof. vm_compute. reflexivity. Qed.

Lemma lsm_levels_stay_well_formed_witness : ∃ gc t' lev, sample_request 1 sample_new sample_mem = Ok (gc, t') ∧ disk t' !! 0%nat = Some lev ∧ n_num lev = 1 ∧
  array_check_order 0 lev = Ok tt ∧ m_num lev = 4.
Proof.
  pose proof sample_after as Ha. destruct (sample_request 1 sample_new sample_mem) as [[gc t']|] eqn:E; [|contradiction].
  destruct (disk t') as [|lev ls] eqn:Ed; [discriminate|]. assert (Hl : disk t' !! 0%nat = Some lev) by (rewrite Ed; reflexivity).
  assert (Hlen : LEVELN t' = 3) by (unfold LEVELN; rewrite Ed, <-(length_fmap n_num), Ha; reflexivity). injection Ha as Hn _.
  assert (Hreach : reachable (F:=twelve) 1 (λ _, sample_page) sample_page (λ _ _, None) Z.of_nat 4 t' (list_to_map sample_mem ∪ ∅)).
  { rewrite sample_request_eq in E. refine (reach_request _ _ _ _ _ _ _ _ _ _ _ _ _ _ sample_memtable _ E); [apply reach_new; [lia|exact sample_fits]|]. intros lev' [= <-]; vm_compute; discriminate. }
  destruct (lsm_levels_stay_well_formed (F:=twelve) 1 (λ _, sample_page) sample_page (λ _ _, None) Z.of_nat (λ _, eq_refl : Z.of_nat (length sample_page) = PAGESIZE)
    (eq_refl : Z.of_nat (length sample_page) = PAGESIZE) (λ _ _, I) Nat2Z.inj 4 factor_4 t' _ 0%nat lev Hreach Hl) as (_ & _ & _ & Ho & Hs & _).
  exists gc, t', lev. split; [reflexivity|]. split; [exact Hl|]. split; [exact Hn|]. split; [exact Ho|]. apply Hs. rewrite Hlen. reflexivity.
Defined.

(** A memtable of one entry leaves the last key of its run unset. *)
Lemma one_entry_flush : sample_request 1 sample_new [(sample_key 1, 10)] = Err Undefined.
Proof. vm_compute. reflexivity. Qed.

(** A level on the device that was flushed to. *)
Lemma sample_flushed : ∃ t lev ess, compaction_selector 0 (λ _, sample_page) sample_page (λ _ _, None) Z.of_nat 4 sample_new None (array_init 4 0 false None) sample_mem = Ok t ∧
  dev_ok Z.of_nat t ∧ level_ok (F:=twelve) 0 (dev t) (l_idx lev) lev ess ∧ ess ≠ [] ∧ n_num lev <= 4.
Proof.
  destruct (new_tree_Ok (F:=twelve) 0 sample_page (λ _ _, None) Z.of_nat (λ _ _, I) 4 factor_4 3 ltac:(lia) sample_fits) as (Ht & _).
  destruct (flush_Ok (F:=twelve) 0 (λ _, sample_page) sample_page (λ _ _, None) Z.of_nat (λ _, eq_refl : Z.of_nat (length sample_page) = PAGESIZE)
    (eq_refl : Z.of_nat (length sample_page) = PAGESIZE) (λ _ _, I) Nat2Z.inj 4 factor_4 sample_new (replicate 3 []) sample_mem (array_init 4 0 false None) [] Ht)
    as (t & ess & E & Ht' & Hw & Hc' & _); [exact sample_memtable|reflexivity|reflexivity|vm_compute; discriminate|].
  destruct (disk t) as [|lev d] eqn:Ed; [pose proof (tr_len (F:=twelve) _ _ _ _ _ Ht') as Hl; rewrite Ed in Hl; discriminate|].
  destruct (tr_lev (F:=twelve) _ _ _ _ _ Ht' 0%nat lev ess) as (Hl & Ei & _); [by rewrite Ed|reflexivity|]. exists t, lev, ess. split; [exact E|]. split; [apply (tr_dev (F:=twelve) _ _ _ _ _ Ht')|].
  rewrite Ei. split; [exact Hl|]. split; [|destruct Hl as (Hr & _); rewrite (rn_num (St:=store_at _ _ _) _ _ Hr); exact Hw].
  intros ->. assert (Hk : content (maps (<[0%nat:=[]]> (replicate 3 []))) !! sample_key 1 = None) by reflexivity. rewrite Hc', lookup_union_None in Hk. destruct Hk as [Hk _]. vm_compute in Hk. discriminate.
Qed.

Definition sample_filter : BF := Bf 1 8 1 1 (ca_new 1 0).


(** A key in level 1, then a newer version of it in level 0; level 2 is empty. *)
Definition newer_mem : list (str_key * Z) := [(sample_key 1, 11); (sample_key 2, 21)].

Lemma newer_memtable : memtable (F:=twelve) newer_mem.
Proof.
  assert (Hg : Forall good newer_mem) by (repeat apply Forall_cons_2; [apply sample_good; lia..|done]). pose proof (good_ok _ Hg) as Hok. rewrite Forall_forall in Hg, Hok.
  assert (He : ∀ (P : str_key * Z → Prop), P (sample_key 1, 11) → P (sample_key 2, 21) → ∀ e, e ∈ newer_mem → P e).
  { intros P H1 H2 e He. by apply elem_of_cons in He as [->|[->|He%elem_of_nil]%elem_of_cons]. }
  split; [split; [by apply Forall_forall|done]|]. split; [repeat constructor|]. split; [|split; [|simpl; lia]]; apply Forall_forall; intros e Hin.
  - split; [by apply Hg|]. by apply (He (λ e, len e.1 = 12)).
  - split; [by apply Hok|]. by apply (He (λ e, KEYCMP key_min e.1 < 0 ∧ KEYCMP e.1 key_max < 0)).
Qed.

Lemma map_ne ess mem : level_map ess = list_to_map mem → mem ≠ [] → length ess ≠ 0%nat.
Proof. intros Hm Hne Hl. apply nil_length_inv in Hl as ->. destruct mem as [|[k v] mem]; [done|]. symmetry in Hm. exact (insert_non_empty _ _ _ Hm). Qed.

Lemma sample_layers : ∃ t ess0 ess1, tree_ok (F:=twelve) 3 Z.of_nat 4 t [ess0; ess1; []] ∧ length ess0 = 1%nat ∧ length ess1 = 1%nat ∧
  level_map ess0 = list_to_map newer_mem ∧ level_map ess1 = list_to_map sample_mem.
Proof.
  destruct (new_tree_Ok (F:=twelve) 3 sample_page (λ _ _, None) Z.of_nat (λ _ _, I) 4 factor_4 3 ltac:(lia) sample_fits) as (Ht & _).
  assert (Hflush : ∀ t rest mem, memtable (F:=twelve) mem → mem ≠ [] → tree_ok (F:=twelve) 3 Z.of_nat 4 t ([] :: rest) →
    ∃ t' ess, tree_ok (F:=twelve) 3 Z.of_nat 4 t' (ess :: rest) ∧ length ess = 1%nat ∧ level_map ess = list_to_map mem).
  { intros t rest mem Hmem Hne H. destruct (disk t) as [|lev ls] eqn:Ed; [pose proof (tr_len (F:=twelve) _ _ _ _ _ H) as Hl; by rewrite Ed in Hl|].
    destruct (flush_Ok (F:=twelve) 3 (λ _, sample_page) sample_page (λ _ _, None) Z.of_nat (λ _, eq_refl : Z.of_nat (length sample_page) = PAGESIZE)
      (eq_refl : Z.of_nat (length sample_page) = PAGESIZE) (λ _ _, I) Nat2Z.inj 4 factor_4 t _ mem lev [] H Hmem) as (t' & ess & _ & Ht' & _ & _ & _ & Hm & Hl);
      [by rewrite Ed|done|by vm_compute|]. exists t', ess. split; [exact Ht'|]. change (level_map []) with (∅ : gmap str_key Z) in Hm. rewrite (right_id_L ∅ (∪)) in Hm.
    split; [|exact Hm]. pose proof (map_ne _ _ Hm Hne). simpl in Hl. lia. }
  destruct (Hflush _ _ sample_mem sample_memtable ltac:(discriminate) Ht) as (t1 & ess1 & Ht1 & Hl1 & Hm1).
  pose proof (tr_len (F:=twelve) _ _ _ _ _ Ht1) as Hd. destruct (disk t1) as [|l0 [|l1 ls]] eqn:Ed; [done|done|].
  destruct (selector_moves (F:=twelve) 3 (λ _, sample_page) sample_page (λ _ _, None) Z.of_nat (λ _, eq_refl : Z.of_nat (length sample_page) = PAGESIZE)
    (eq_refl : Z.of_nat (length sample_page) = PAGESIZE) (λ _ _, I) Nat2Z.inj 4 factor_4 t1 _ 0 1 ess1 [] l0 l1 Ht1) as (t2 & ess2 & _ & Ht2 & Hm2 & Hl2);
    [by rewrite Ed|done|by rewrite Ed|done|lia|by intros ->|rewrite Hl1; by vm_compute|].
  change (level_map []) with (∅ : gmap str_key Z) in Hm2. rewrite (right_id_L ∅ (∪)), Hm1 in Hm2. pose proof (map_ne _ _ Hm2 ltac:(discriminate)). simpl in Hl2.
  destruct (Hflush _ _ newer_mem newer_memtable ltac:(discriminate) Ht2) as (t3 & ess3 & Ht3 & Hl3 & Hm3).
  exists t3, ess3, ess2. split; [exact Ht3|]. split; [done|]. split; [lia|done].
Qed.


End LsmTree.
